(* ===== verification/_CoqProject ===== *)
-Q . S2P
Prelude.v
FloatSpec.v
FloatPack.v
SoftPrim.v
SoftF32.v
SoftF64.v
SoftDiv64.v
SoftCmp32.v
SoftCmp64.v
SoftConv.v
SoftToInt.v
SoftArith.v
SoftFma32.v
SoftFma64.v
SoftSqrt.v
FpFlags.v
Encoding.v
Decode.v
Mulhi.v
Decoder.v
Disasm.v
DisasmProps.v
DisasmText.v
Machine.v
Csr.v
Isa.v
CsrProps.v
Mmu.v
Tlb.v
MmuProps.v
Insns.v
Safe.v
InsnProps.v
Alu.v
Control.v
FetchProps.v
Step.v
StepProps.v
StepRuns.v
OrdMap.v
OramSim.v
CacheSim.v
Devices.v
Sim.v
RingBuffer.v
GdbAsm.v
Gdb.v
GdbOps.v
GdbServer.v
GdbProps.v
GdbTranslate.v
DebugMode.v
DebugInsn.v
DebugRam.v
DebugRom.v
DebugProg.v
DebugRun.v
DebugHang.v
DebugOps.v
DebugRegs.v
DebugMem.v
DebugSet.v
DebugFault.v
DebugHalt.v
