(* ===== verification/Prelude.v ===== *)
(** * Spike: a verification of the RISC-V ISA simulator

    The program (src/) simulates RISC-V harts.  src/riscv/ has the hart: its state and
    control registers (processor.h, processor.cc), instruction decoding (decode.h,
    encoding.h, processor.cc), memory translation and accesses (mmu.h, mmu.cc), one file
    per instruction (insns/), the fetch-decode-execute loop (execute.cc), and around the
    hart the bus, devices, debug module, cache and ORAM models, gdb server and command
    line.  src/softfloat/ is the floating-point arithmetic the instructions call.
    [step] (execute.cc) runs instructions: it asks the MMU for decoded instructions, calls
    their bodies, which read and write the state, call SoftFloat, access memory through the
    MMU, and throw traps that [step] gives to [take_trap].

    ** How the code is modelled

    The embedding is shallow.  A [w]-bit unsigned integer is its value in [0, 2^w), with
    the wrap-around written out ([wrap], [u8] to [u64]); a conversion to a signed type is
    [sext] ([s8] to [s64]).  Code that reads and writes the hart is in the monad [M] of
    Machine.v, a function from a machine to a result and a machine; a C++ exception is the
    result [inr], and the machine then has what was written before the throw; [abort()] and
    a failed assertion are the exception [Abort].  SoftFloat code is in the monad [FP] of
    SoftPrim.v over its global state (rounding mode, flags).  [step]'s local variables,
    which its handlers read, are threaded by the monad [B] of Step.v.  What lies outside the
    hart (the bus and its devices, the debugger's requests, the memory tracers) is the class
    [Platform] of Machine.v, a parameter of the whole development; theorems that rely on the
    devices name what they rely on: a store to a device changes no register but [mip], a
    load gives as many bytes as asked for.

    ** The files

    - Prelude.v: machine integers, bit operations, their automation ([lia] after rewriting
      with the hint databases [word] and [words]).
    - SoftFloat (src/softfloat/).  FloatSpec.v: IEEE 754 values, exact rounding of a rational
      given as a significand and a power of two with sticky information; FloatPack.v: packing;
      SoftPrim.v: primitives.h, internals.h, specialize.h; SoftF32.v, SoftF64.v, SoftDiv64.v:
      add, subtract, multiply, divide; SoftFma32.v, SoftFma64.v: fused multiply-add;
      SoftSqrt.v: square root; SoftCmp32.v, SoftCmp64.v: comparisons and classification;
      SoftConv.v, SoftToInt.v: conversions; SoftArith.v: the operations IEEE 754 requires,
      together; FpFlags.v: every operation keeps the flags in five bits.
    - Encoding.v: encoding.h, generated from the DECLARE_INSN, DECLARE_CSR and DECLARE_CAUSE
      lists and the masks.  Decode.v: decode.h ([insn_t], fields, sign extension).
      Mulhi.v: mulhi.h.  Decoder.v: [decode_insn], its opcode cache and its reordering list.
    - The disassembler (spike_main/disasm.cc, riscv/disasm.h, riscv/regnames.cc).  Disasm.v: the
      table of [disassembler_t], the operands' text, the hash chains, [lookup], [disassemble].
      DisasmProps.v: the entry found for what the decoder finds.  DisasmText.v: an abstract
      syntax of instructions, its encoding, and their text.
    - Machine.v: [state_t], [processor_t], [mmu_t] and the machine; the monad.
      Csr.v: processor.cc (reset, privilege, [set_csr], [get_csr], traps, interrupts,
      triggers, debug mode) and the invariant [wf] of the control registers.  Isa.v:
      the constructors and [parse_isa_string].  CsrProps.v: what traps, interrupts and
      supervisor mode can do.
    - Mmu.v: mmu.h and mmu.cc (walk, TLB, loads, stores, atomics, fetch, instruction cache).
      Tlb.v: the TLB is not observable; fetches.  MmuProps.v: the page-table walk.
    - Insns.v: the macros of decode.h, the 196 files of insns/ ([exec_add] is insns/add.h)
      and the template insn_template.cc ([rv_NAME]).  Safe.v: the invariant [hart_ok] of a
      running hart and its Hoare rules ([safe]).  InsnProps.v: every instruction keeps it.
      Alu.v: the integer instructions compute what they should.  Control.v: branches, jumps,
      returns from traps.
    - Step.v: execute.cc.  FetchProps.v: fetches keep the invariant.  StepProps.v: [step]
      terminates and is safe.  StepRuns.v: runs of concrete programs.
    - OrdMap.v: [std::map] with its order.  OramSim.v: oramsim.cc ([oram_access] is
      [oram_sim_t::access]).  CacheSim.v: cachesim.cc, both kinds of cache, with the levels
      below as parameters.  Devices.v: devices.cc, rtc.cc, rom.cc, debug_module.cc and the
      bus: the record [platform] and its instance of [Platform].  Sim.v: sim.cc, the harts in
      turn on one memory and one platform.
    - The gdb server (gdbserver.h, gdbserver.cc).  RingBuffer.v: [circular_buffer_t], whose
      [contents] are the list of bytes it holds.  GdbAsm.v: the functions that generate
      opcodes (Module [Asm]).  Gdb.v: the server's record, its monad [G] (the server and the
      devices, and a crash that ends both), replies, the debug RAM and address translation.
      GdbOps.v: the operations of the queue, [perform_step] being the virtual function.
      GdbServer.v: parsing, the requests, the socket loop, [handle].  GdbProps.v: requests
      are understood.  GdbTranslate.v: the debugger and the hart agree on addresses.
    - The debugger and the hart together.  DebugMode.v: [view], what a hart in debug mode is to
      the debugger, and [reaches], what it comes to in a number of turns of the slow loop of
      execute.cc.  DebugInsn.v: the instructions that the debug ROM and the debugger's programs
      use, on views.  DebugRam.v: the words and slots of the debug RAM.  DebugRom.v: the debug
      ROM, from its bytes (debug_rom.h, assembled from debug_rom.S): the way in, the wait loop,
      the call of the program and the way back.  DebugProg.v: the words the server writes.
      DebugRun.v: [serve], rounds of a turn of the server ([server_turn], of [handle]) and a call
      of the hart's [step], as the loop of [sim_t::main] makes them.  DebugOps.v: what the
      operations share.  DebugRegs.v, DebugSet.v: reading and writing registers.  DebugMem.v,
      DebugFault.v: memory, and where there is none.  DebugHalt.v: halting a running program.
      DebugHang.v: an interrupt in debug mode.

    ** What is proved

    - The hart ([hart_ok]): the control registers are well formed after any history
      (Isa.v), every instruction keeps the whole invariant and never aborts the simulator
      (InsnProps.v), and so does [step], which ends (StepProps.v).  The bound [2n+1] on the
      iterations of [step(n)] is enough because an iteration retires an instruction, ends the
      loop by a trap, or serializes a pipeline that was not.  The inner loops have the fuel
      of the instructions left, each round retires one; the run over the instruction cache
      has the entries left in it.
    - Function: integer instructions, branches and jumps, traps and returns, interrupts,
      CSR writes and reads, triggers, decoding, immediates, mulhi.  The opcode cache and the
      reordering of the decoder's list change nothing that an instruction does.
    - The disassembler: what the decoder finds is shown under its name, but for the compressed
      words it shows under another ([misprinted]); an encoded instruction decodes to itself and
      is shown with the operands that were encoded.
    - Isolation: no CSR that lower modes may write reaches machine mode's state.
    - Memory: the walk implements the specification's translation relation; in machine mode
      the TLB and fetches are as a flat memory.
    - Arithmetic: each SoftFloat operation proved correct returns the exact result rounded in
      the current mode with the flags of that rounding, for all operands, the special cases
      included; [f64_sqrt] does not, and a counterexample is proved.
    - Devices: the memory map, the clock, the timer and software interrupts; the whole
      machine's [step] keeps every hart well formed and comes back to where the round was.
    - Caches and ORAM: hits, misses and write-backs are those of the lines present and
      dirty; a block of the ORAM is always in the stash or on its path, and what the
      eviction does not do.
    - The gdb server: its opcodes decode to the instructions they are named after, its
      requests are read with the operands the client wrote, its addresses are the hart's.
    - The debugger, end to end: halting a program, reading and writing its registers and its
      memory.  Each theorem starts from a hart that runs, or that waits in the debug ROM, and a
      request in the server's queue, and gives the reply sent, the state of the hart and the
      memory afterwards, and the rounds they take: at most 27 and the length of the program for
      a program the hart runs, one for a step of the server alone.  They are composed of the
      server's operations (the programs they write), the debug ROM, and the hart's own [step] on
      both, for registers of 32 and of 64 bits.  They need that the program has no interrupt
      enabled in machine mode ([quiet]): DebugHang.v shows that with one pending the hart
      never answers.
    - Errors: programs that stop the simulator, a refill that redirects another kind of
      access, interrupts that a hart in debug mode takes.

    Loops of the source that are not structural have fuel: [cto] and [ctz] 64 (bits),
    [walk_loop] the levels, [linear_search] the list, [parse_subsets] the characters,
    [request_loop] the bytes received and [write_loop] the bytes to send.

    ** Not modelled

    Printing and logging (histograms, the commit log, the memory tracers), the terminal
    (interactive.cc), the command line (the rest of spike_main/), plug-in extensions (rocc.cc,
    dummy_rocc/, hwacha/), whose presence is a parameter, the host interface (an external
    library), and DRAMSim2, a third-party simulator.  Of the gdb server, what the system
    calls on its socket and the allocator return is a parameter, and the 128-bit load and
    store opcodes, before which the server aborts, are left out.  In the rounds of [serve]
    there are one hart, hart 0, and no clock ticks, no socket and no new requests: what they
    change (the pending bits of mip, the buffers) is not looked at by a hart whose interrupts
    are disabled in machine mode, and requests wait while an operation is queued.  Memory is
    accessed there without address translation.  Uninitialised memory is given a value where
    the code cannot depend on it.  Of SoftFloat: remainder, roundToInt and the
    r_minMag conversions, which no instruction calls.

    ** What could be added

    Resuming a halted program and the breakpoints, end to end; the clock's ticks in the rounds
    of [serve]; correctness of the binary64 fused multiply-add; the instruction cache as a
    refinement of plain fetches. *)
From Stdlib Require Export ZArith Lia Bool.
From stdpp Require Export base tactics decidable numbers option list gmap.

#[export] Set Default Goal Selector "!".
#[global] Open Scope Z_scope.

(** ** Notations *)

Declare Scope word_scope.
Delimit Scope word_scope with W.
Notation "a .& b" := (Z.land a b) (at level 40, left associativity) : word_scope.
Notation "a .^ b" := (Z.lxor a b) (at level 45, left associativity) : word_scope.
Notation "a .| b" := (Z.lor a b) (at level 50, left associativity) : word_scope.
Notation "a .<< n" := (Z.shiftl a n) (at level 38, left associativity) : word_scope.
Notation "a .>> n" := (Z.shiftr a n) (at level 38, left associativity) : word_scope.
#[global] Open Scope word_scope.

(** ** Machine integers

    An unsigned [w]-bit integer is its value in [0, 2^w), a signed one its value
    in [-2^(w-1), 2^(w-1)).  [wrap] is the conversion to the unsigned type,
    [sext] the conversion to the signed type of the same width. *)

Definition wrap (w x : Z) : Z := x mod 2 ^ w.
Definition sext (w x : Z) : Z := (x + 2 ^ (w - 1)) mod 2 ^ w - 2 ^ (w - 1).

Abbreviation u8 := (wrap 8).
Abbreviation u16 := (wrap 16).
Abbreviation u32 := (wrap 32).
Abbreviation u64 := (wrap 64).
Abbreviation s8 := (sext 8).
Abbreviation s16 := (sext 16).
Abbreviation s32 := (sext 32).
Abbreviation s64 := (sext 64).

(** The C conversions between [bool] and the integer types. *)
Abbreviation b2z := Z.b2z.
Definition z2b (x : Z) : bool := negb (x =? 0).

Definition in_range (w x : Z) : Prop := 0 <= x < 2 ^ w.

(** ** Generic lemmas on wrap-around arithmetic *)

Create HintDb word discriminated.
Create Rewrite HintDb fprun.
Create Rewrite HintDb words.

Lemma pow2_pos n : 0 <= n -> 0 < 2 ^ n.
Proof. intros; apply Z.pow_pos_nonneg; lia. Qed.

Lemma pow2_split a b : 0 <= b <= a -> 2 ^ a = 2 ^ b * 2 ^ (a - b).
Proof. intros. rewrite <- Z.pow_add_r by lia. f_equal; lia. Qed.

Lemma pow2_le a b : 0 <= a <= b -> 2 ^ a <= 2 ^ b.
Proof. intros; apply Z.pow_le_mono_r; lia. Qed.

Lemma wrap_range w x : 0 <= w -> in_range w (wrap w x).
Proof. intros. apply Z.mod_pos_bound, pow2_pos; lia. Qed.

Lemma wrap_small w x : 0 <= x < 2 ^ w -> wrap w x = x.
Proof. apply Z.mod_small. Qed.

Lemma wrap_idemp w x : 0 <= w -> wrap w (wrap w x) = wrap w x.
Proof. intros. apply wrap_small, wrap_range; lia. Qed.

Lemma wrap_narrow v w x : 0 <= v <= w -> wrap v (wrap w x) = wrap v x.
Proof.
  intros. unfold wrap. rewrite (pow2_split w v) by lia.
  rewrite Z.rem_mul_r, Z.mul_comm, Z.mod_add, Z.mod_mod
    by (pose proof (pow2_pos v); pose proof (pow2_pos (w - v)); lia).
  reflexivity.
Qed.

Lemma wrap_add_idemp_l w x y : wrap w (wrap w x + y) = wrap w (x + y).
Proof. apply Zplus_mod_idemp_l. Qed.

Lemma wrap_add_idemp_r w x y : wrap w (x + wrap w y) = wrap w (x + y).
Proof. apply Zplus_mod_idemp_r. Qed.

Lemma wrap_mul_idemp w x y : wrap w (wrap w x * wrap w y) = wrap w (x * y).
Proof. unfold wrap. by rewrite <- Zmult_mod. Qed.

Lemma wrap_sub_idemp w x y : wrap w (wrap w x - wrap w y) = wrap w (x - y).
Proof. unfold wrap. by rewrite <- Zminus_mod. Qed.

Lemma wrap_sub_idemp_l w x y : wrap w (wrap w x - y) = wrap w (x - y).
Proof. apply Zminus_mod_idemp_l. Qed.

Lemma wrap_sub_idemp_r w x y : wrap w (x - wrap w y) = wrap w (x - y).
Proof. apply Zminus_mod_idemp_r. Qed.

Lemma wrap_mul_idemp_l w x y : wrap w (wrap w x * y) = wrap w (x * y).
Proof. apply Zmult_mod_idemp_l. Qed.

Lemma wrap_ones w x : 0 <= w -> wrap w x = Z.land x (Z.ones w).
Proof. intros. by rewrite Z.land_ones. Qed.

Lemma wrap_testbit w x i :
  0 <= w -> Z.testbit (wrap w x) i = (i <? w) && Z.testbit x i.
Proof.
  intros. unfold wrap. destruct (Z.ltb_spec i w) as [?|?]; simpl.
  - by rewrite Z.mod_pow2_bits_low.
  - by rewrite Z.mod_pow2_bits_high.
Qed.

Lemma sext_range w x : 0 < w -> - 2 ^ (w - 1) <= sext w x < 2 ^ (w - 1).
Proof.
  intros. unfold sext. pose proof (pow2_split w 1 ltac:(lia)).
  pose proof (Z.mod_pos_bound (x + 2 ^ (w - 1)) (2 ^ w) ltac:(apply pow2_pos; lia)). lia.
Qed.

Lemma sext_small w x : 0 < w -> - 2 ^ (w - 1) <= x < 2 ^ (w - 1) -> sext w x = x.
Proof.
  intros. unfold sext. pose proof (pow2_split w 1 ltac:(lia)).
  rewrite Z.mod_small; lia.
Qed.

Lemma sext_wrap w x : 0 <= w -> sext w (wrap w x) = sext w x.
Proof. intros. unfold sext, wrap. by rewrite Zplus_mod_idemp_l. Qed.

Lemma wrap_sext w x : 0 <= w -> wrap w (sext w x) = wrap w x.
Proof.
  intros. unfold sext, wrap.
  rewrite Zminus_mod_idemp_l. f_equal; lia.
Qed.

Lemma sext_eq_wrap w x y : 0 <= w -> wrap w x = wrap w y -> sext w x = sext w y.
Proof. intros Hw H. by rewrite <- (sext_wrap w x), H, sext_wrap. Qed.

(** [sext] by cases on the top bit of a value in range. *)
Lemma sext_cases w x :
  0 < w -> in_range w x ->
  sext w x = if x <? 2 ^ (w - 1) then x else x - 2 ^ w.
Proof.
  unfold in_range. intros. pose proof (pow2_split w 1 ltac:(lia)). unfold sext.
  destruct (Z.ltb_spec x (2 ^ (w - 1))) as [?|?].
  - rewrite Z.mod_small; lia.
  - replace (x + 2 ^ (w - 1)) with ((x + 2 ^ (w - 1) - 2 ^ w) + 1 * 2 ^ w) by lia.
    rewrite Z.mod_add, Z.mod_small by lia. lia.
Qed.

(** ** Shifts and masks as arithmetic *)

Lemma shl_mul a n : 0 <= n -> a .<< n = a * 2 ^ n.
Proof. intros; by apply Z.shiftl_mul_pow2. Qed.

Lemma shr_div a n : 0 <= n -> a .>> n = a / 2 ^ n.
Proof. intros; by apply Z.shiftr_div_pow2. Qed.

Lemma land_mask a n : 0 <= n -> a .& (2 ^ n - 1) = a mod 2 ^ n.
Proof. intros. rewrite <- Z.land_ones, Z.ones_equiv by lia. f_equal; lia. Qed.

(** A contiguous field, in place. *)
Lemma land_field a n k :
  0 <= n -> 0 <= k -> a .& ((2 ^ k - 1) * 2 ^ n) = ((a / 2 ^ n) mod 2 ^ k) * 2 ^ n.
Proof.
  intros. rewrite <- (shl_mul (2 ^ k - 1)), <- (shl_mul (_ mod _)) by lia.
  rewrite <- land_mask, <- shr_div by lia. apply Z.bits_inj'; intros i Hi.
  rewrite !Z.land_spec, !Z.shiftl_spec, Z.land_spec by lia.
  destruct (Z.ltb_spec i n) as [?|?].
  - rewrite !(Z.testbit_neg_r _ (i - n)) by lia. by rewrite andb_false_r.
  - rewrite Z.shiftr_spec by lia. do 2 f_equal. lia.
Qed.

(** Clearing the low [k] bits with the complement of a mask. *)
Lemma land_lnot_mask w k a :
  0 <= k <= w -> in_range w a -> a .& wrap w (Z.lnot (2 ^ k - 1)) = a / 2 ^ k * 2 ^ k.
Proof.
  intros Hk Ha. unfold in_range in Ha. pose proof (pow2_pos k ltac:(lia)).
  pose proof (pow2_pos (w - k) ltac:(lia)). pose proof (pow2_split w k ltac:(lia)) as Es.
  assert (wrap w (Z.lnot (2 ^ k - 1)) = (2 ^ (w - k) - 1) * 2 ^ k) as ->.
  { unfold wrap. symmetry. apply (Z.mod_unique _ _ (-1)); unfold Z.lnot; nia. }
  rewrite land_field by lia. f_equal. apply Z.mod_small. split.
  - apply Z.div_pos; lia.
  - apply Z.div_lt_upper_bound; lia.
Qed.

(** The top bit of a word, as C tests a sign. *)
Lemma land_top_bit w x :
  0 < w -> in_range w x -> z2b (x .& 2 ^ (w - 1)) = (2 ^ (w - 1) <=? x).
Proof.
  intros Hw Hx. unfold in_range in Hx. pose proof (pow2_pos (w - 1) ltac:(lia)).
  pose proof (pow2_split w 1 ltac:(lia)) as Es. change (2 ^ 1) with 2 in Es.
  replace (2 ^ (w - 1)) with ((2 ^ 1 - 1) * 2 ^ (w - 1)) at 1 by lia.
  rewrite land_field by lia. change (2 ^ 1) with 2. unfold z2b.
  destruct (Z.leb_spec (2 ^ (w - 1)) x).
  - assert (x / 2 ^ (w - 1) = 1) as ->
      by (symmetry; apply (Z.div_unique _ _ _ (x - 2 ^ (w - 1))); lia).
    change (1 mod 2) with 1. rewrite (proj2 (Z.eqb_neq _ _)); [done|lia].
  - rewrite Z.div_small by lia. done.
Qed.

Lemma shr_range a n w : 0 <= n -> 0 <= w -> 0 <= a < 2 ^ (w + n) -> 0 <= a .>> n < 2 ^ w.
Proof.
  intros. rewrite shr_div by lia. rewrite Z.pow_add_r in * by lia.
  split.
  - apply Z.div_pos; [lia | by apply pow2_pos].
  - apply Z.div_lt_upper_bound; [by apply pow2_pos | lia].
Qed.

Lemma testbit_above n p i : 0 <= n < 2 ^ p -> p <= i -> Z.testbit n i = false.
Proof.
  intros. destruct (decide (p < 0)).
  { rewrite Z.pow_neg_r in * by lia; lia. }
  rewrite <- (Z.mod_small n (2 ^ p)) by lia. apply Z.mod_pow2_bits_high; lia.
Qed.

Lemma in_range_bits w x :
  0 <= w -> (forall i, w <= i -> Z.testbit x i = false) -> in_range w x.
Proof.
  intros Hw H. assert (wrap w x = x) as <-; [|by apply wrap_range].
  apply Z.bits_inj'. intros i Hi. rewrite wrap_testbit by done.
  destruct (Z.ltb_spec i w); [done|]. by rewrite H.
Qed.

Lemma land_range w a b : 0 <= w -> in_range w a -> in_range w (a .& b).
Proof.
  intros Hw Ha. apply in_range_bits; [done|]. intros i Hi.
  by rewrite Z.land_spec, (testbit_above a w i).
Qed.

Lemma lor_range w a b : 0 <= w -> in_range w a -> in_range w b -> in_range w (a .| b).
Proof.
  intros Hw Ha Hb. apply in_range_bits; [done|]. intros i Hi.
  by rewrite Z.lor_spec, (testbit_above a w i), (testbit_above b w i).
Qed.

(** Disjoint [or] is addition: the high part is a multiple of [2^n], the low
    part below it. *)
Lemma lor_add a b n :
  0 <= n -> a mod 2 ^ n = 0 -> 0 <= b < 2 ^ n -> a .| b = a + b.
Proof.
  intros Hn Ha Hb. rewrite <- Z.lxor_lor.
  - symmetry. apply Z.add_nocarry_lxor.
    apply Z.bits_inj'; intros i Hi. rewrite Z.land_spec, Z.bits_0.
    destruct (Z.ltb_spec i n) as [?|?].
    + rewrite <- (Z.mod_pow2_bits_low a n) by lia. by rewrite Ha, Z.bits_0.
    + by rewrite (testbit_above b n), andb_false_r by lia.
  - apply Z.bits_inj'; intros i Hi. rewrite Z.land_spec, Z.bits_0.
    destruct (Z.ltb_spec i n) as [?|?].
    + rewrite <- (Z.mod_pow2_bits_low a n) by lia. by rewrite Ha, Z.bits_0.
    + by rewrite (testbit_above b n), andb_false_r by lia.
Qed.

(** [or] with one bit: the low bit becomes one. *)
Lemma lor_b2z a (b : bool) : a .| b2z b = if b then a + 1 - a mod 2 else a.
Proof.
  destruct b; cbn [Z.b2z].
  - transitivity ((2 * (a / 2)) .| 1).
    + apply Z.bits_inj'; intros i Hi. rewrite !Z.lor_spec.
      destruct (decide (i = 0)) as [->|].
      * by rewrite !orb_true_r.
      * f_equal. replace i with (Z.succ (i - 1)) by lia.
        rewrite Z.testbit_even_succ by lia.
        replace a with (2 * (a / 2) + a mod 2) at 1 by (symmetry; apply Z.div_mod; lia).
        rewrite Zmod_odd. destruct (Z.odd a).
        -- by rewrite Z.testbit_odd_succ by lia.
        -- by rewrite Z.add_0_r, Z.testbit_even_succ by lia.
    + rewrite (lor_add _ _ 1); [ |lia| |cbn; lia].
      * pose proof (Z.div_mod a 2). lia.
      * change (2 ^ 1) with 2. by rewrite Z.mul_comm, Z.mod_mul.
  - apply Z.lor_0_r.
Qed.

#[export] Hint Rewrite wrap_add_idemp_l wrap_add_idemp_r wrap_sub_idemp_l wrap_sub_idemp_r
  wrap_mul_idemp_l : words.
#[export] Hint Resolve pow2_pos wrap_range sext_range : word.

(** ** Automation *)

(** Discharges [wrap w x] for which [lia] finds [x] in range. *)
Ltac unwrap :=
  repeat match goal with
  | |- context [wrap ?w ?x] => rewrite (wrap_small w x) by lia
  end.

Ltac unwrap_in H :=
  repeat match type of H with
  | context [wrap ?w ?x] => rewrite (wrap_small w x) in H by lia
  end.

(** Case analysis on every [if] and boolean comparison of the goal. *)
Ltac case_bool :=
  repeat match goal with
  | |- context [?a =? ?b] => destruct (Z.eqb_spec a b)
  | |- context [?a <? ?b] => destruct (Z.ltb_spec a b)
  | |- context [?a <=? ?b] => destruct (Z.leb_spec a b)
  end.

(** Equations for [/] and [mod], then linear arithmetic. *)
(** A closed goal, a conjunction of equations and inequalities of numbers. *)
Ltac concrete := vm_compute; repeat split; (reflexivity || (intro; discriminate)).

Ltac zdm := Z.div_mod_to_equations; lia.
Ltac ndm := Z.div_mod_to_equations; nia.
