(* ===== verification/FloatSpec.v ===== *)
(** Reference semantics of IEEE 754 rounding, independent of the C code: the
    specification the SoftFloat files are proved against.  A positive value is
    given exactly, as [num / den * 2^e]; everything is integer arithmetic. *)
From S2P Require Import Prelude.

(** ** Rounding a positive rational to an integer *)

Inductive rounding := RNE | RTZ | RDN | RUP | RMM.

#[export] Instance rounding_eq_dec : EqDecision rounding.
Proof. solve_decision. Defined.

(** [round_up r neg q rem den]: is [q + rem/den] (0 <= rem < den) rounded to
    [q + 1] rather than to [q], for a value whose sign is [neg]? *)
Definition round_up (r : rounding) (neg : bool) (q rem den : Z) : bool :=
  match r with
  | RNE => (den <? 2 * rem) || ((2 * rem =? den) && Z.odd q)
  | RTZ => false
  | RDN => neg && negb (rem =? 0)
  | RUP => negb neg && negb (rem =? 0)
  | RMM => den <=? 2 * rem
  end.

Definition round_int (r : rounding) (neg : bool) (num den : Z) : Z :=
  num / den + b2z (round_up r neg (num / den) (num mod den) den).

(** ** Binary formats

    [prec] is the precision (hidden bit included), [emin] the exponent of the
    least significant bit of a subnormal number, [emaxcode] the all-ones biased
    exponent. *)
Record format := Format { prec : Z; emin : Z; emaxcode : Z }.

Definition binary32 : format := Format 24 (-149) 255.
Definition binary64 : format := Format 53 (-1074) 2047.

(** The exception flags. *)
Record flags := Flags { inexact : bool; underflow : bool; overflow : bool }.

(** The magnitude bits of the largest finite number and of infinity. *)
Definition inf_mag (f : format) : Z := emaxcode f * 2 ^ (prec f - 1).

(** Does an overflowing value go to infinity (rather than to the largest finite
    number)? *)
Definition overflow_to_inf (r : rounding) (neg : bool) : bool :=
  match r with
  | RNE | RMM => true
  | RTZ => false
  | RDN => neg
  | RUP => negb neg
  end.

(** [round_at r neg num den e l]: the value [num/den * 2^e] as a multiple of
    [2^l], rounded. *)
Definition round_at (r : rounding) (neg : bool) (num den e l : Z) : Z :=
  if l <=? e then round_int r neg (num * 2 ^ (e - l)) den
  else round_int r neg num (den * 2 ^ (l - e)).

Definition exact_at (num den e l : Z) : bool :=
  if l <=? e then (num * 2 ^ (e - l)) mod den =? 0
  else num mod (den * 2 ^ (l - e)) =? 0.

(** The exponent of the leading bit of [num/den * 2^e], for [den <= num]. *)
Definition lead (num den e : Z) : Z := Z.log2 (num / den) + e.

(** The exponent of the unit in the last place of the result. *)
Definition ulp (f : format) (k : Z) : Z := Z.max (k - (prec f - 1)) (emin f).

(** Tininess, detected after rounding: rounded to [prec] digits with an
    unbounded exponent range, the value is below the least normal number. *)
Definition tiny (f : format) (r : rounding) (neg : bool) (num den e : Z) : bool :=
  let k := lead num den e in
  let l := k - (prec f - 1) in
  if emin f <=? l then false
  else if l + 1 =? emin f then round_at r neg num den e l <? 2 ^ prec f
  else true.

(** The magnitude bits and the flags of the rounded value of
    [num/den * 2^e].  The biased exponent and the fraction are adjacent fields,
    so a significand that rounds up to the next power of two carries into the
    exponent. *)
Definition fround (f : format) (r : rounding) (neg : bool) (num den e : Z) : Z * flags :=
  let l := ulp f (lead num den e) in
  let m := round_at r neg num den e l in
  let mag := (l - emin f) * 2 ^ (prec f - 1) + m in
  let inex := negb (exact_at num den e l) in
  if inf_mag f <=? mag
  then ((if overflow_to_inf r neg then inf_mag f else inf_mag f - 1),
        Flags true false true)
  else (mag, Flags inex (tiny f r neg num den e && inex) false).

(** ** What [round_int] promises

    The rounding functions of the standard, stated as the distance to the
    rounded value. *)
Lemma round_int_bounds r neg num den :
  0 < den -> num / den <= round_int r neg num den <= num / den + 1.
Proof. intros. unfold round_int. destruct (round_up _ _ _ _ _); cbn; lia. Qed.

Lemma round_int_exact r neg num den :
  0 < den -> num mod den = 0 -> round_int r neg num den * den = num.
Proof.
  intros Hd Hm. unfold round_int. rewrite Hm.
  assert (round_up r neg (num / den) 0 den = false) as ->.
  { destruct r; cbn; rewrite ?andb_false_r; auto; case_bool; auto; lia. }
  cbn. pose proof (Z.div_mod num den). lia.
Qed.

(** Nearest: at most half a unit away, ties to even. *)
Lemma round_int_nearest_even neg num den :
  0 < den ->
  Z.abs (2 * (round_int RNE neg num den * den - num)) <= den
  /\ (Z.abs (2 * (round_int RNE neg num den * den - num)) = den ->
      Z.even (round_int RNE neg num den) = true).
Proof.
  intros Hd. unfold round_int, round_up.
  pose proof (Z.div_mod num den ltac:(lia)). pose proof (Z.mod_pos_bound num den Hd).
  case_bool; cbn [orb andb Z.b2z]; try destruct (Z.odd _) eqn:Ho; cbn [Z.b2z];
    split; try lia; intros _; rewrite ?Z.add_0_r, ?Z.even_add, <- Z.negb_odd, Ho; done.
Qed.

(** ** Truncation with a sticky bit

    [jam num den]: the integer part of [num/den], its low bit set when bits
    are lost ("jamming").  With at least two bits still to be rounded away, a
    jammed value rounds as the value it stands for. *)
Definition jam (num den : Z) : Z := (num / den) .| b2z (negb (num mod den =? 0)).

(** Rounding depends on the integer part, on whether the remainder is zero and
    on how it compares with one half. *)
Lemma round_int_same r neg a b a' b' :
  0 < b -> 0 < b' ->
  a / b = a' / b' ->
  (a mod b = 0 <-> a' mod b' = 0) ->
  (2 * (a mod b) ?= b) = (2 * (a' mod b') ?= b') ->
  round_int r neg a b = round_int r neg a' b'.
Proof.
  intros Hb Hb' Hq H0 Hc. unfold round_int. rewrite Hq. do 2 f_equal.
  assert ((a mod b =? 0) = (a' mod b' =? 0)) as E0 by (case_bool; tauto).
  destruct r; cbn; rewrite ?E0; auto.
  - case_bool; auto;
      destruct (Z.compare_spec (2 * (a mod b)) b), (Z.compare_spec (2 * (a' mod b')) b');
      try discriminate; lia.
  - case_bool; auto;
      destruct (Z.compare_spec (2 * (a mod b)) b), (Z.compare_spec (2 * (a' mod b')) b');
      try discriminate; lia.
Qed.

(** Multiplying numerator and denominator changes nothing. *)
Lemma round_int_scale r neg a b c :
  0 < b -> 0 < c -> round_int r neg (a * c) (b * c) = round_int r neg a b.
Proof.
  intros Hb Hc. apply round_int_same; [nia|lia| | |].
  - by apply Z.div_mul_cancel_r; lia.
  - rewrite Z.mul_mod_distr_r by lia. nia.
  - rewrite Z.mul_mod_distr_r by lia.
    rewrite Z.mul_assoc, <- Zmult_compare_compat_r by lia. done.
Qed.

Lemma jam_cases num den :
  jam num den = if num mod den =? 0 then num / den
                else num / den + 1 - (num / den) mod 2.
Proof. unfold jam. rewrite lor_b2z. by destruct (num mod den =? 0). Qed.

Lemma jam_exact num den : num mod den = 0 -> jam num den = num / den.
Proof. intros H. by rewrite jam_cases, H. Qed.

Lemma jam_one num : jam num 1 = num.
Proof. rewrite jam_exact by apply Z.mod_1_r. apply Z.div_1_r. Qed.

Lemma jam_bounds num den : 0 < den -> num / den <= jam num den <= num / den + 1.
Proof.
  intros. rewrite jam_cases. pose proof (Z.mod_pos_bound (num / den) 2).
  case_bool; lia.
Qed.

Lemma mod_mul_split num den d :
  0 < den -> 0 < d ->
  num mod (den * d) = den * ((num / den) mod d) + num mod den.
Proof. intros. rewrite Z.rem_mul_r by lia. lia. Qed.

Lemma jam_div num den c :
  0 < den -> 0 < c -> jam num den / (4 * c) = num / (den * (4 * c)).
Proof.
  intros Hd Hc. rewrite <- (Z.div_div num den (4 * c)) by lia. rewrite jam_cases.
  destruct (Z.eqb_spec (num mod den) 0); [done|].
  set (q := num / den).
  replace (4 * c) with (2 * (2 * c)) by lia.
  rewrite <- !(Z.div_div _ 2 (2 * c)) by lia. f_equal. zdm.
Qed.

(** The key lemma: at least two more bits to go, the jammed value rounds like
    the value it stands for. *)
Lemma round_int_jam r neg num den c :
  0 < den -> 0 < c ->
  round_int r neg (jam num den) (4 * c) = round_int r neg num (den * (4 * c)).
Proof.
  intros Hd Hc. apply round_int_same; [lia|nia|by apply jam_div| |].
  - rewrite (mod_mul_split num den) by lia. rewrite jam_cases.
    pose proof (Z.mod_pos_bound num den Hd). set (n := num / den) in *.
    pose proof (Z.mod_pos_bound n (4 * c) ltac:(lia)).
    destruct (Z.eqb_spec (num mod den) 0) as [->|?]; [nia|].
    split; [|nia]. intros E. exfalso.
    assert ((n + 1 - n mod 2) mod 2 = 0); [|zdm].
    apply Z.mod_divide in E; [|lia]. apply Z.mod_divide; [lia|].
    destruct E as [k ->]. exists (k * (2 * c)). lia.
  - rewrite (mod_mul_split num den) by lia. rewrite jam_cases.
    pose proof (Z.mod_pos_bound num den Hd). set (n := num / den) in *.
    pose proof (Z.mod_pos_bound n (4 * c) ltac:(lia)) as Ht.
    destruct (Z.eqb_spec (num mod den) 0) as [->|?].
    { rewrite Z.add_0_r. rewrite (Z.mul_comm den (4 * c)), (Z.mul_comm den (n mod _)), Z.mul_assoc.
      by rewrite <- Zmult_compare_compat_r by lia. }
    set (t := n mod (4 * c)) in *.
    assert (n mod 2 = t mod 2) as Ep.
    { unfold t. replace (4 * c) with (2 * (2 * c)) by lia.
      rewrite Z.rem_mul_r by lia. rewrite Z.mul_comm, Z.mod_add, Z.mod_mod; lia. }
    assert ((n + 1 - n mod 2) mod (4 * c) = t + 1 - t mod 2) as ->.
    { rewrite Ep. replace n with (t + (n / (4 * c)) * (4 * c)) at 1
        by (unfold t; pose proof (Z.div_mod n (4 * c)); lia).
      replace (t + n / (4 * c) * (4 * c) + 1 - t mod 2)
        with (t + 1 - t mod 2 + n / (4 * c) * (4 * c)) by lia.
      rewrite Z.mod_add by lia. apply Z.mod_small. clear -Ht Hc. zdm. }
    destruct (Z.le_gt_cases (2 * c) t) as [Hh|Hh].
    + transitivity Gt; [|symmetry]; apply Z.compare_gt_iff; [clear -Hh; zdm|nia].
    + transitivity Lt; [|symmetry]; apply Z.compare_lt_iff; [clear -Hh Hc; zdm|nia].
Qed.

(** ** Invariance of [fround] under the representation of the value *)

Lemma jam_mod_zero num den c :
  0 < den -> 0 < c ->
  (jam num den mod (4 * c) =? 0) = (num mod (den * (4 * c)) =? 0).
Proof.
  intros Hd Hc.
  pose proof (round_int_jam RUP false num den c Hd Hc) as E.
  unfold round_int in E. rewrite jam_div in E by lia. cbn in E.
  destruct (_ =? _), (_ =? _); cbn in E; lia || done.
Qed.

Lemma round_at_scale r neg num den e l j :
  0 < den -> 0 <= j ->
  round_at r neg (num * 2 ^ j) den (e - j) l = round_at r neg num den e l.
Proof.
  intros Hd Hj. unfold round_at. pose proof (pow2_pos j Hj).
  case_bool; try lia.
  - rewrite <- Z.mul_assoc, <- Z.pow_add_r by lia. do 2 f_equal; f_equal; lia.
  - pose proof (pow2_pos (l - (e - j)) ltac:(lia)).
    replace j with ((e - l) + (l - (e - j))) at 1 by lia.
    rewrite Z.pow_add_r, Z.mul_assoc by lia. by rewrite round_int_scale.
  - replace (l - (e - j)) with (l - e + j) by lia.
    rewrite Z.pow_add_r, Z.mul_assoc by lia.
    pose proof (pow2_pos (l - e) ltac:(lia)). rewrite round_int_scale; nia.
Qed.

Lemma mod_mul_zero a b c : 0 < b -> 0 < c -> ((a * c) mod (b * c) =? 0) = (a mod b =? 0).
Proof. intros. rewrite Z.mul_mod_distr_r by lia. case_bool; auto; nia. Qed.

Lemma exact_at_scale num den e l j :
  0 < den -> 0 <= j ->
  exact_at (num * 2 ^ j) den (e - j) l = exact_at num den e l.
Proof.
  intros Hd Hj. unfold exact_at. pose proof (pow2_pos j Hj).
  destruct (Z.leb_spec l e), (Z.leb_spec l (e - j)); try lia.
  - rewrite <- Z.mul_assoc, <- Z.pow_add_r by lia. do 4 f_equal; lia.
  - pose proof (pow2_pos (l - (e - j)) ltac:(lia)).
    replace j with ((e - l) + (l - (e - j))) at 1 by lia.
    rewrite Z.pow_add_r, Z.mul_assoc by lia. by rewrite mod_mul_zero.
  - replace (l - (e - j)) with (l - e + j) by lia.
    rewrite Z.pow_add_r, Z.mul_assoc by lia.
    pose proof (pow2_pos (l - e) ltac:(lia)). rewrite mod_mul_zero; nia.
Qed.

Lemma div_pos_1 a b : 0 < b <= a -> 0 < a / b.
Proof. intros. apply Z.div_str_pos; lia. Qed.

Lemma lead_scale num den e j :
  0 < den <= num -> 0 <= j -> lead (num * 2 ^ j) den (e - j) = lead num den e.
Proof.
  intros Hd Hj. unfold lead. pose proof (pow2_pos j Hj).
  assert (Z.log2 (num * 2 ^ j / den) = Z.log2 (num / den) + j); [|lia].
  pose proof (div_pos_1 num den ltac:(lia)).
  apply Z.log2_unique; [pose proof (Z.log2_nonneg (num / den)); lia|].
  pose proof (Z.log2_spec (num / den) ltac:(lia)) as [Hl Hh].
  rewrite <- Z.add_succ_l, !Z.pow_add_r by (pose proof (Z.log2_nonneg (num / den)); lia).
  set (a := 2 ^ Z.log2 (num / den)) in *. set (b := 2 ^ Z.succ _) in *.
  pose proof (Z.div_mod num den ltac:(lia)).
  pose proof (Z.mod_pos_bound num den ltac:(lia)). split.
  - apply Z.div_le_lower_bound; [lia|]. rewrite Z.mul_assoc.
    apply Z.mul_le_mono_nonneg_r; [lia|]. nia.
  - apply Z.div_lt_upper_bound; [lia|]. rewrite Z.mul_assoc.
    apply Z.mul_lt_mono_pos_r; [lia|]. nia.
Qed.

(** Two representations of one value with the same leading bit round alike. *)
Lemma fround_ext f r neg num den e num' den' e' :
  lead num den e = lead num' den' e' ->
  (forall l, lead num den e - (prec f - 1) <= l ->
     round_at r neg num den e l = round_at r neg num' den' e' l
     /\ exact_at num den e l = exact_at num' den' e' l) ->
  fround f r neg num den e = fround f r neg num' den' e'.
Proof.
  intros Hl H. unfold fround, tiny. rewrite <- Hl.
  destruct (H (ulp f (lead num den e)) ltac:(unfold ulp; lia)) as [-> ->].
  destruct (H (lead num den e - (prec f - 1)) ltac:(lia)) as [-> _]. done.
Qed.

Lemma fround_scale f r neg num den e j :
  0 < den <= num -> 0 <= j ->
  fround f r neg (num * 2 ^ j) den (e - j) = fround f r neg num den e.
Proof.
  intros. apply fround_ext; [by apply lead_scale|]. intros l _.
  split; [apply round_at_scale|apply exact_at_scale]; lia.
Qed.

Lemma fround_mul f r neg num den e c :
  0 < den -> 0 < c ->
  fround f r neg (num * c) (den * c) e = fround f r neg num den e.
Proof.
  intros Hd Hc. apply fround_ext.
  { unfold lead. by rewrite Z.div_mul_cancel_r by lia. }
  intros l _. unfold round_at, exact_at. destruct (Z.leb_spec l e).
  - rewrite <- !Z.mul_assoc, !(Z.mul_comm c), !Z.mul_assoc.
    by rewrite round_int_scale, mod_mul_zero.
  - pose proof (pow2_pos (l - e) ltac:(lia)).
    rewrite <- !(Z.mul_assoc den), !(Z.mul_comm c), !Z.mul_assoc.
    by rewrite round_int_scale, mod_mul_zero by nia.
Qed.

(** A jammed value stands for the exact one, provided it keeps two bits below
    the rounding position (or nothing was lost). *)
Lemma jam_log2 num den :
  0 < den -> 2 <= num / den -> Z.log2 (jam num den) = Z.log2 (num / den).
Proof.
  intros Hd Hn. rewrite jam_cases. destruct (_ =? 0); [done|].
  set (q := num / den) in *. clearbody q. symmetry.
  rewrite <- (Z.succ_pred (Z.log2 q)).
  assert (forall x, 2 <= x -> Z.log2 x = Z.succ (Z.log2 (x / 2))) as E.
  { intros x Hx. rewrite <- Z.div2_div. 
    change (Z.div2 x) with (x .>> 1). rewrite Z.log2_shiftr by lia.
    pose proof (Z.log2_le_mono 2 x Hx). change (Z.log2 2) with 1 in *. lia. }
  rewrite (E q), (E (q + 1 - q mod 2)) by zdm. rewrite Z.pred_succ.
  do 2 f_equal. zdm.
Qed.

Lemma fround_jam f r neg num den e :
  0 < den <= num -> 1 <= prec f ->
  num mod den = 0 \/ 2 ^ (prec f + 1) <= jam num den ->
  fround f r neg (jam num den) 1 e = fround f r neg num den e.
Proof.
  intros Hd Hp [H|H].
  - rewrite jam_exact by done. rewrite <- (fround_mul _ _ _ _ _ _ den) by lia.
    rewrite Z.mul_1_l. f_equal. pose proof (Z.div_mod num den). lia.
  - pose proof (pow2_le 2 (prec f + 1) ltac:(lia)) as H4. change (2 ^ 2) with 4 in H4.
    pose proof (jam_bounds num den ltac:(lia)) as Hb.
    pose proof (jam_log2 num den ltac:(lia) ltac:(lia)) as Hlog.
    apply Z.log2_le_mono in H. rewrite Z.log2_pow2 in H by lia.
    apply fround_ext; [unfold lead; by rewrite Z.div_1_r, Hlog|].
    unfold lead. rewrite Z.div_1_r. intros l Hl.
    unfold round_at, exact_at. destruct (Z.leb_spec l e); [lia|].
    rewrite Z.mul_1_l.
    replace (2 ^ (l - e)) with (4 * 2 ^ (l - e - 2))
      by (change 4 with (2 ^ 2); rewrite <- Z.pow_add_r by lia; f_equal; lia).
    pose proof (pow2_pos (l - e - 2) ltac:(lia)).
    split; [apply round_int_jam|apply jam_mod_zero]; lia.
Qed.

(** ** Values with a power-of-two denominator, and sums *)

Lemma fround_den_pow2 f r neg num d e :
  0 <= d -> 2 ^ d <= num ->
  fround f r neg num (2 ^ d) e = fround f r neg num 1 (e - d).
Proof.
  intros Hd Hn. pose proof (pow2_pos d Hd).
  rewrite <- (fround_scale f r neg num (2 ^ d) e d) by lia.
  rewrite <- (Z.mul_1_l (2 ^ d)) at 2. by rewrite fround_mul by lia.
Qed.

(** Two dyadic representations of the same value round alike. *)
Lemma fround_same_value f r neg n e n' e' k :
  0 < n -> 0 < n' -> k <= e -> k <= e' ->
  n * 2 ^ (e - k) = n' * 2 ^ (e' - k) ->
  fround f r neg n 1 e = fround f r neg n' 1 e'.
Proof.
  intros Hn Hn' He He' H.
  rewrite <- (fround_scale f r neg n 1 e (e - k)), H by lia.
  replace (e - (e - k)) with (e' - (e' - k)) by lia. apply fround_scale; lia.
Qed.

(** A value below [2^prec] units of the last subnormal place is exact. *)
Lemma fround_small f r neg n :
  1 <= prec f -> 0 <= n < 2 ^ prec f -> n < inf_mag f ->
  fround f r neg n 1 (emin f) = (n, Flags false false false).
Proof.
  intros Hp Hn Hi. unfold fround, ulp, lead. rewrite Z.div_1_r.
  assert (Z.log2 n <= prec f - 1).
  { destruct (decide (n = 0)) as [->|]; [cbn; lia|].
    pose proof (proj1 (Z.log2_lt_pow2 n (prec f) ltac:(lia)) ltac:(lia)). lia. }
  rewrite Z.max_r by lia. unfold round_at, exact_at. rewrite Z.leb_refl, Z.sub_diag.
  rewrite Z.mul_1_r, Z.mod_1_r. cbn [negb Z.eqb]. rewrite andb_false_r, Z.mul_0_l, Z.add_0_l.
  assert (round_int r neg n 1 = n) as ->.
  { pose proof (round_int_exact r neg n 1 ltac:(lia) (Z.mod_1_r n)). lia. }
  by rewrite (proj2 (Z.leb_gt _ _)) by lia.
Qed.

(** Jamming commutes with adding, and with subtracting from, an even number. *)
Lemma jam_add a x den :
  0 < den -> a mod 2 = 0 -> a + jam x den = jam (a * den + x) den.
Proof.
  intros Hd Ha. rewrite !jam_cases.
  rewrite (Z.add_comm (a * den)), Z.mod_add, Z.div_add by lia.
  destruct (_ =? 0); zdm.
Qed.

Lemma jam_sub a x den :
  0 < den -> a mod 2 = 0 -> a - jam x den = jam (a * den - x) den.
Proof.
  intros Hd Ha. rewrite !jam_cases.
  replace (a * den - x) with (- x + a * den) by lia.
  rewrite Z.mod_add, Z.div_add by lia.
  destruct (Z.eqb_spec (x mod den) 0) as [E|E].
  - rewrite Z.mod_opp_l_z, Z.div_opp_l_z by lia. cbn [Z.eqb]. lia.
  - rewrite Z.mod_opp_l_nz, Z.div_opp_l_nz by lia.
    pose proof (Z.mod_pos_bound x den Hd).
    rewrite (proj2 (Z.eqb_neq _ _)) by lia. zdm.
Qed.

(** The alignment step of addition and of subtraction: the smaller operand is
    shifted right by [d] with jamming, which does not change the rounded
    result. *)
Lemma fround_align_add f r neg a x d e :
  1 <= prec f -> 0 <= d -> a mod 2 = 0 -> 2 ^ (prec f + 1) <= a -> 0 <= x ->
  fround f r neg (a + jam x (2 ^ d)) 1 e = fround f r neg (a * 2 ^ d + x) 1 (e - d).
Proof.
  intros Hp Hd Ha Hb Hx. pose proof (pow2_pos d Hd). pose proof (pow2_pos (prec f + 1) ltac:(lia)).
  pose proof (jam_bounds x (2 ^ d) ltac:(lia)).
  pose proof (Z.div_pos x (2 ^ d) ltac:(lia) ltac:(lia)).
  rewrite jam_add, fround_jam by (rewrite <- ?jam_add by lia; nia).
  apply fround_den_pow2; nia.
Qed.

Lemma fround_align_sub f r neg a x d e :
  1 <= prec f -> 0 <= d -> a mod 2 = 0 -> 0 <= x ->
  x mod 2 ^ d = 0 \/ 2 ^ (prec f + 1) <= a - jam x (2 ^ d) ->
  jam x (2 ^ d) < a ->
  fround f r neg (a - jam x (2 ^ d)) 1 e = fround f r neg (a * 2 ^ d - x) 1 (e - d).
Proof.
  intros Hp Hd Ha Hx Hc Hlt. pose proof (pow2_pos d Hd).
  assert (2 ^ d <= a * 2 ^ d - x) as Hle.
  { pose proof (jam_bounds x (2 ^ d) ltac:(lia)).
    pose proof (Z.div_mod x (2 ^ d) ltac:(lia)). pose proof (Z.mod_pos_bound x (2 ^ d) ltac:(lia)).
    destruct Hc as [Hc|Hc]; [rewrite jam_exact in Hlt by done; nia|].
    pose proof (pow2_le 2 (prec f + 1) ltac:(lia)). change (2 ^ 2) with 4 in *. nia. }
  rewrite jam_sub by lia. rewrite fround_jam.
  - by apply fround_den_pow2.
  - lia.
  - lia.
  - destruct Hc as [Hc|Hc]; [left|right; by rewrite <- jam_sub].
    replace (a * 2 ^ d - x) with (- x + a * 2 ^ d) by lia.
    by rewrite Z.mod_add, Z.mod_opp_l_z by lia.
Qed.

(** The same value as a quotient, in two ways. *)
Lemma fround_same_quotient f r neg n d e n' d' e' k :
  0 < d <= n -> 0 < d' <= n' -> k <= e -> k <= e' ->
  n * d' * 2 ^ (e - k) = n' * d * 2 ^ (e' - k) ->
  fround f r neg n d e = fround f r neg n' d' e'.
Proof.
  intros Hn Hn' He He' H.
  rewrite <- (fround_scale f r neg n d e (e - k)), <- (fround_scale f r neg n' d' e' (e' - k)) by lia.
  pose proof (pow2_pos (e - k) ltac:(lia)). pose proof (pow2_pos (e' - k) ltac:(lia)).
  rewrite <- (fround_mul f r neg _ d _ d'), <- (fround_mul f r neg _ d' _ d) by lia.
  replace (e - (e - k)) with k by lia. replace (e' - (e' - k)) with k by lia.
  replace (n * 2 ^ (e - k) * d') with (n * d' * 2 ^ (e - k)) by lia.
  replace (n' * 2 ^ (e' - k) * d) with (n' * d * 2 ^ (e' - k)) by lia.
  by rewrite H, (Z.mul_comm d').
Qed.

(** A sticky bit below [k] bits that are not all zero changes nothing. *)
Lemma jam_sticky q k (b : bool) :
  1 <= k -> q mod 2 ^ (k + 1) <> 0 -> jam (q .| b2z b) (2 ^ k) = jam q (2 ^ k).
Proof.
  intros Hk Hq. destruct b; [|by rewrite lor_b2z].
  rewrite lor_b2z. destruct (decide (q mod 2 = 0)) as [E|E].
  2: { f_equal. zdm. }
  rewrite Z.pow_add_r in Hq by lia. pose proof (pow2_pos k ltac:(lia)).
  assert (2 ^ k mod 2 = 0) as Hev.
  { rewrite (pow2_split k 1), Z.mul_comm by lia. by apply Z.mod_mul. }
  rewrite E, Z.sub_0_r, !jam_cases.
  pose proof (Z.div_mod q (2 ^ k) ltac:(lia)) as Hd. pose proof (Z.mod_pos_bound q (2 ^ k) ltac:(lia)).
  assert (q mod 2 ^ k + 1 < 2 ^ k) as Hlt.
  { pose proof (Z.div_mod (2 ^ k) 2). pose proof (Z.div_mod q 2). nia. }
  assert ((q + 1) / 2 ^ k = q / 2 ^ k) as ->
    by (symmetry; apply (Z.div_unique _ _ _ (q mod 2 ^ k + 1)); lia).
  assert ((q + 1) mod 2 ^ k = q mod 2 ^ k + 1) as ->
    by (symmetry; apply (Z.mod_unique _ _ (q / 2 ^ k)); lia).
  rewrite (proj2 (Z.eqb_neq (_ + 1) 0)) by lia.
  destruct (Z.eqb_spec (q mod 2 ^ k) 0) as [Ez|]; [|done].
  rewrite Z.rem_mul_r in Hq by lia. change (2 ^ 1) with 2 in Hq.
  destruct (Z.eqb_spec ((q / 2 ^ k) mod 2) 0); [nia|].
  pose proof (Z.mod_pos_bound (q / 2 ^ k) 2). lia.
Qed.

(** A quotient whose remainder is looked at only when the bits below the
    rounding position are zero. *)
Lemma fround_quotient f r neg num den e k :
  0 < den <= num -> 1 <= prec f -> 1 <= k -> 2 ^ (prec f + 1 + k) <= num / den ->
  let q := num / den in
  fround f r neg (if q mod 2 ^ (k + 1) =? 0 then jam num den else q) 1 e
  = fround f r neg num den e.
Proof.
  intros Hd Hp Hk Hq q. pose proof (jam_bounds num den ltac:(lia)).
  pose proof (pow2_pos k ltac:(lia)). pose proof (pow2_pos (prec f + 1) ltac:(lia)).
  rewrite (Z.pow_add_r 2 (prec f + 1)) in Hq by lia. fold q in H, Hq.
  rewrite <- (fround_jam f r neg num den e) by nia.
  destruct (Z.eqb_spec (q mod 2 ^ (k + 1)) 0); [done|].
  assert (jam num den = q .| b2z (negb (num mod den =? 0))) as -> by done.
  set (c := negb _). assert (q <= (q .| b2z c)) by (rewrite lor_b2z; destruct c; zdm).
  replace e with (e + k - k) by lia.
  rewrite <- (fround_den_pow2 f r neg q k), <- (fround_den_pow2 f r neg (q .| _) k) by nia.
  assert (2 ^ (prec f + 1) <= q / 2 ^ k) by (apply Z.div_le_lower_bound; lia).
  assert (2 ^ (prec f + 1) <= (q .| b2z c) / 2 ^ k) by (apply Z.div_le_lower_bound; lia).
  pose proof (jam_bounds q (2 ^ k) ltac:(lia)).
  pose proof (jam_bounds (q .| b2z c) (2 ^ k) ltac:(lia)).
  rewrite <- (fround_jam f r neg q), <- (fround_jam f r neg (q .| _)) by (lia || nia).
  by rewrite jam_sticky.
Qed.

(** Any two values strictly inside the same block of [2^(k+1)], below the
    rounding position, round alike. *)
Lemma jam_block num den k m :
  0 < den -> 0 <= k ->
  den * (2 ^ (k + 1) * m) < num < den * (2 ^ (k + 1) * (m + 1)) ->
  jam num (den * 2 ^ k) = 2 * m + 1.
Proof.
  intros Hd Hk Hn. rewrite Z.pow_add_r in Hn by lia. change (2 ^ 1) with 2 in Hn.
  pose proof (pow2_pos k Hk). set (D := den * 2 ^ k). assert (0 < D) by (unfold D; nia).
  assert (D * (2 * m) < num < D * (2 * m + 2)) as Hn' by (unfold D; lia). clearbody D.
  pose proof (Z.div_mod num D ltac:(lia)). pose proof (Z.mod_pos_bound num D ltac:(lia)).
  assert (num / D = 2 * m \/ num / D = 2 * m + 1) as Hq by nia.
  rewrite jam_cases. destruct (Z.eqb_spec (num mod D) 0); [nia|].
  destruct Hq as [->| ->]; zdm.
Qed.

Lemma fround_block f r neg num den e z k m :
  0 < den -> 1 <= prec f -> 0 <= k -> 2 ^ prec f <= m ->
  den * (2 ^ (k + 1) * m) < num < den * (2 ^ (k + 1) * (m + 1)) ->
  2 ^ (k + 1) * m < z < 2 ^ (k + 1) * (m + 1) ->
  fround f r neg z 1 e = fround f r neg num den e.
Proof.
  intros Hd Hp Hk Hm Hn Hz. pose proof (pow2_pos k Hk). pose proof (pow2_pos (prec f) ltac:(lia)).
  assert (2 ^ k <= 2 ^ (k + 1)) by (apply pow2_le; lia).
  assert (forall n d, 0 < d -> d * (2 ^ (k + 1) * m) < n < d * (2 ^ (k + 1) * (m + 1)) ->
    fround f r neg n d e = fround f r neg (2 * m + 1) 1 (e + k)) as H'.
  { intros n d Hd' Hn'. rewrite <- (jam_block n d k m) by lia.
    rewrite fround_jam.
    - rewrite <- (fround_mul f r neg n d e (2 ^ k)) by lia.
      assert (d * 2 ^ k <= n) by nia.
      replace e with (e + k - k) at 1 by lia. apply fround_scale; nia.
    - nia.
    - done.
    - right. rewrite jam_block with (m := m) by lia. rewrite Z.pow_add_r by lia. lia. }
  rewrite (H' num den) by lia. apply H'; lia.
Qed.

(** A value below half of the least subnormal rounds to zero, or to the least
    subnormal in a directed mode; it is tiny and inexact. *)
Definition directed_away (r : rounding) (neg : bool) : bool :=
  match r with RDN => neg | RUP => negb neg | _ => false end.

Lemma fround_tiny f r neg n e k :
  1 <= prec f -> 1 < inf_mag f -> 0 < n < 2 ^ k -> e + k < emin f ->
  fround f r neg n 1 e = (b2z (directed_away r neg), Flags true true false).
Proof.
  intros Hp Hi Hn He.
  assert (0 <= k) by (destruct (decide (k < 0)); [rewrite Z.pow_neg_r in Hn|]; lia).
  assert (Z.log2 n < k) by (apply Z.log2_lt_pow2; lia). pose proof (Z.log2_nonneg n).
  unfold fround, tiny, ulp, lead. rewrite Z.div_1_r.
  rewrite Z.max_r by lia. unfold round_at, exact_at.
  rewrite (proj2 (Z.leb_gt (emin f) e)) by lia.
  rewrite (proj2 (Z.leb_gt (emin f) _)), (proj2 (Z.eqb_neq (_ + 1) _)) by lia.
  pose proof (pow2_le (k + 1) (emin f - e) ltac:(lia)) as Hd. rewrite Z.pow_add_r in Hd by lia.
  rewrite !Z.mul_1_l. set (den := 2 ^ (emin f - e)) in *. change (2 ^ 1) with 2 in Hd.
  assert (round_int r neg n den = b2z (directed_away r neg)) as ->.
  { unfold round_int. rewrite Z.div_small, Z.mod_small by lia.
    unfold round_up, directed_away. rewrite (proj2 (Z.eqb_neq n 0)) by lia.
    destruct r, neg; cbn [negb andb]; case_bool; cbn; done || lia. }
  rewrite Z.mod_small, (proj2 (Z.eqb_neq n 0)), Z.sub_diag by lia.
  rewrite (proj2 (Z.leb_gt _ _)) by (destruct (directed_away r neg); cbn; lia). done.
Qed.
