(* ===== verification/FloatPack.v ===== *)
(** Increment-and-truncate rounding, once for every binary format: the shape the
  two [softfloat_roundPackTo...] functions share, over unbounded integers, and
  the proof that it is the reference rounding [fround].  The files of the two
  formats only have to reduce their machine code to it. *)
From S2P Require Import Prelude FloatSpec.

Section pack.
Context (f : format) (g : Z).
Context (Hprec : 2 <= prec f) (Hg : 2 <= g) (Hcode : 3 <= emaxcode f).

(** What is added below the [g] guard bits before they are cut off. *)
Definition rinc (r : rounding) (neg : bool) : Z :=
  match r with
  | RNE | RMM => 2 ^ (g - 1)
  | RTZ => 0
  | RDN => if neg then 2 ^ g - 1 else 0
  | RUP => if neg then 0 else 2 ^ g - 1
  end.

(** Add, cut, and clear the last bit on a tie to even. *)
Definition inc_trunc (r : rounding) (neg : bool) (sig : Z) : Z :=
  Z.land ((sig + rinc r neg) / 2 ^ g)
    (Z.lnot (b2z ((sig mod 2 ^ g =? 2 ^ (g - 1)) && bool_decide (r = RNE)))).

Definition pack_ref (r : rounding) (neg : bool) (exp sig : Z) : Z * flags :=
  if exp <? 0 then
    let sig' := jam sig (2 ^ (- exp)) in
    let inex := negb (sig' mod 2 ^ g =? 0) in
    let tiny := (exp <? -1) || (sig + rinc r neg <? 2 ^ (prec f + g)) in
    (inc_trunc r neg sig', Flags inex (tiny && inex) false)
  else if (emaxcode f - 2 <? exp)
          || ((exp =? emaxcode f - 2) && (2 ^ (prec f + g) <=? sig + rinc r neg))
  then (inf_mag f - b2z (rinc r neg =? 0), Flags true false true)
  else (exp * 2 ^ (prec f - 1) + inc_trunc r neg sig,
        Flags (negb (sig mod 2 ^ g =? 0)) false false).

Lemma land_lnot_b2z a (b : bool) : Z.land a (Z.lnot (b2z b)) = if b then a - a mod 2 else a.
Proof.
  destruct b; cbn [Z.b2z]; [|apply Z.land_m1_r].
  rewrite <- Z.ldiff_land. change 1 with (Z.ones 1).
  rewrite Z.ldiff_ones_r, shl_mul, shr_div by lia. change (2 ^ 1) with 2. zdm.
Qed.

Lemma half_pow : 2 ^ g = 2 * 2 ^ (g - 1) /\ 0 < 2 ^ (g - 1).
Proof.
  split; [|apply pow2_pos; lia]. rewrite (pow2_split g 1) by lia. done.
Qed.

Lemma inc_trunc_round r neg sig :
  inc_trunc r neg sig = round_int r neg sig (2 ^ g).
Proof.
  destruct half_pow as [Hh Hp]. unfold inc_trunc, round_int, rinc.
  rewrite land_lnot_b2z, Hh.
  set (h := 2 ^ (g - 1)) in *. clearbody h.
  pose proof (Z.div_mod sig (2 * h) ltac:(lia)) as Hdm.
  pose proof (Z.mod_pos_bound sig (2 * h) ltac:(lia)) as Hm.
  set (q := sig / (2 * h)) in *. set (m := sig mod (2 * h)) in *. clearbody q m. subst sig.
  assert (forall i, 0 <= i < 2 * h ->
    (2 * h * q + m + i) / (2 * h) = q + b2z (2 * h <=? m + i)) as Hdiv.
  { intros i Hi. symmetry. apply (Z.div_unique_pos _ _ _ (m + i - 2 * h * b2z (2 * h <=? m + i)));
      case_bool; cbn [Z.b2z]; lia. }
  destruct r, neg; cbn [round_up andb negb]; rewrite ?Hdiv by lia;
    try rewrite (bool_decide_eq_true_2 (RNE = RNE)) by done;
    try rewrite bool_decide_eq_false_2 by done;
    rewrite ?andb_true_r, ?andb_false_r;
    case_bool; cbn [orb andb negb Z.b2z]; try lia;
    rewrite Zmod_odd; destruct (Z.odd q) eqn:Ho; rewrite Z.odd_add, Ho; cbn; lia.
Qed.

Lemma rinc_range r neg : 0 <= rinc r neg < 2 ^ g.
Proof. destruct half_pow. unfold rinc. destruct r, neg; lia. Qed.

(** The rounded significand reaches [2^p] exactly when the incremented one
    reaches [2^(p+g)]. *)
Lemma inc_trunc_carry r neg sig p :
  0 <= p -> 0 <= sig ->
  (2 ^ p <=? inc_trunc r neg sig) = (2 ^ (p + g) <=? sig + rinc r neg)
  \/ p = 0.
Proof.
  intros Hp Hs. destruct (decide (p = 0)) as [->|Hp0]; [by right|left].
  unfold inc_trunc. rewrite land_lnot_b2z.
  destruct half_pow as [Hh ?].
  assert ((2 ^ p <=? (sig + rinc r neg) / 2 ^ g) = (2 ^ (p + g) <=? sig + rinc r neg)) as E.
  { rewrite Z.pow_add_r by lia. pose proof (Z.div_mod (sig + rinc r neg) (2 ^ g) ltac:(lia)).
    pose proof (Z.mod_pos_bound (sig + rinc r neg) (2 ^ g) ltac:(lia)). case_bool; nia. }
  rewrite <- E. destruct (_ && _); [|done].
  rewrite (pow2_split p 1) by lia. change (2 ^ 1) with 2.
  set (x := _ / _). case_bool; zdm.
Qed.

Lemma inc_trunc_le r neg sig p :
  0 <= p -> 0 <= sig < 2 ^ (p + g) -> 0 <= inc_trunc r neg sig <= 2 ^ p.
Proof.
  intros Hp Hs. rewrite inc_trunc_round.
  destruct half_pow as [Hh ?].
  pose proof (round_int_bounds r neg sig (2 ^ g) ltac:(lia)).
  rewrite Z.pow_add_r in Hs by lia.
  pose proof (Z.div_pos sig (2 ^ g) ltac:(lia) ltac:(lia)).
  pose proof (Z.div_lt_upper_bound sig (2 ^ g) (2 ^ p) ltac:(lia) ltac:(lia)). lia.
Qed.

Lemma inc_trunc_ge r neg sig p :
  0 <= p -> 2 ^ (p + g) <= sig -> 2 ^ p <= inc_trunc r neg sig.
Proof.
  intros Hp Hs. rewrite inc_trunc_round.
  destruct half_pow as [Hh ?].
  pose proof (round_int_bounds r neg sig (2 ^ g) ltac:(lia)).
  rewrite Z.pow_add_r in Hs by lia.
  assert (2 ^ p <= sig / 2 ^ g); [|lia].
  apply Z.div_le_lower_bound; lia.
Qed.

Lemma lead_norm sig e :
  2 ^ (prec f + g - 1) <= sig < 2 ^ (prec f + g) ->
  lead sig 1 e = prec f + g - 1 + e.
Proof.
  intros. unfold lead. rewrite Z.div_1_r. f_equal.
  apply Z.log2_unique; [lia|]. by replace (Z.succ (prec f + g - 1)) with (prec f + g) by lia.
Qed.

Lemma overflow_to_inf_rinc r neg :
  (if overflow_to_inf r neg then inf_mag f else inf_mag f - 1)
  = inf_mag f - b2z (rinc r neg =? 0).
Proof.
  destruct half_pow. unfold rinc.
  destruct r, neg; cbn [overflow_to_inf negb]; case_bool; cbn [Z.b2z]; lia.
Qed.

(** The normal range. *)
Lemma pack_ref_normal r neg exp sig :
  0 <= exp -> 2 ^ (prec f + g - 1) <= sig < 2 ^ (prec f + g) ->
  pack_ref r neg exp sig = fround f r neg sig 1 (emin f + exp - g).
Proof.
  intros He Hs. unfold pack_ref, fround, tiny, ulp. rewrite lead_norm by done.
  replace (prec f + g - 1 + (emin f + exp - g) - (prec f - 1)) with (emin f + exp) by lia.
  rewrite Z.max_l by lia. rewrite (proj2 (Z.leb_le (emin f) (emin f + exp))) by lia.
  rewrite (proj2 (Z.ltb_ge exp 0)) by lia.
  unfold round_at, exact_at.
  rewrite (proj2 (Z.leb_gt (emin f + exp) (emin f + exp - g))) by lia.
  rewrite !Z.mul_1_l.
  replace (emin f + exp - (emin f + exp - g)) with g by lia.
  replace (emin f + exp - emin f) with exp by lia.
  rewrite <- inc_trunc_round, overflow_to_inf_rinc.
  destruct (inc_trunc_carry r neg sig (prec f) ltac:(lia)) as [Hc|Hc]; [lia| |lia].
  pose proof (inc_trunc_le r neg sig (prec f) ltac:(lia)).
  pose proof (inc_trunc_ge r neg sig (prec f - 1) ltac:(lia)) as Hge.
  replace (prec f - 1 + g) with (prec f + g - 1) in Hge by lia.
  assert (2 ^ prec f = 2 * 2 ^ (prec f - 1)) as Hpp
    by (rewrite (pow2_split (prec f) 1) by lia; done).
  pose proof (pow2_pos (prec f - 1) ltac:(lia)).
  cbn [andb]. rewrite <- Hc. unfold inf_mag.
  set (m := inc_trunc r neg sig) in *. set (P := 2 ^ (prec f - 1)) in *.
  rewrite Hpp in *.
  assert ((emaxcode f * P <=? exp * P + m)
          = (emaxcode f - 2 <? exp) || ((exp =? emaxcode f - 2) && (2 * P <=? m))) as ->.
  { case_bool; cbn; auto; nia. }
  done.
Qed.

(** The subnormal range. *)
Lemma pack_ref_subnormal r neg exp sig :
  exp < 0 -> 2 ^ (prec f + g - 1) <= sig < 2 ^ (prec f + g) ->
  pack_ref r neg exp sig = fround f r neg sig 1 (emin f + exp - g).
Proof.
  intros He Hs. unfold pack_ref, fround, tiny, ulp. rewrite lead_norm by done.
  replace (prec f + g - 1 + (emin f + exp - g) - (prec f - 1)) with (emin f + exp) by lia.
  rewrite Z.max_r by lia. rewrite (proj2 (Z.leb_gt (emin f) (emin f + exp))) by lia.
  rewrite (proj2 (Z.ltb_lt exp 0)) by lia.
  rewrite Z.sub_diag, Z.mul_0_l, Z.add_0_l.
  unfold round_at, exact_at.
  rewrite (proj2 (Z.leb_gt (emin f) (emin f + exp - g))) by lia.
  rewrite (proj2 (Z.leb_gt (emin f + exp) (emin f + exp - g))) by lia.
  rewrite !Z.mul_1_l.
  replace (emin f - (emin f + exp - g)) with (- exp + g) by lia.
  replace (emin f + exp - (emin f + exp - g)) with g by lia.
  rewrite inc_trunc_round. pose proof (pow2_pos (- exp) ltac:(lia)).
  pose proof (pow2_pos (g - 2) ltac:(lia)).
  assert (2 ^ g = 4 * 2 ^ (g - 2)) as Hg4 by (rewrite (pow2_split g 2) by lia; done).
  rewrite Z.pow_add_r, Hg4 by lia.
  rewrite round_int_jam, jam_mod_zero by lia. rewrite <- Hg4, <- Z.pow_add_r by lia.
  destruct (inc_trunc_carry r neg sig (prec f) ltac:(lia)) as [Hc|Hc]; [lia| |lia].
  rewrite inc_trunc_round in Hc.
  assert (round_int r neg sig (2 ^ (- exp + g)) < inf_mag f) as Hlt.
  { pose proof (pow2_pos (- exp + g) ltac:(lia)).
    pose proof (round_int_bounds r neg sig (2 ^ (- exp + g)) ltac:(lia)).
    pose proof (pow2_pos (prec f - 1) ltac:(lia)).
    assert (sig / 2 ^ (- exp + g) < 2 ^ (prec f - 1)); [|unfold inf_mag; nia].
    apply Z.div_lt_upper_bound; [done|]. rewrite <- Z.pow_add_r by lia.
    pose proof (pow2_le (prec f + g) (- exp + g + (prec f - 1)) ltac:(lia)). lia. }
  rewrite (proj2 (Z.leb_gt _ _) Hlt). do 3 f_equal.
  rewrite (Z.ltb_antisym (2 ^ prec f)), (Z.ltb_antisym (_ * _)), <- Z.pow_add_r, Hc by lia.
  case_bool; auto; lia.
Qed.

Theorem pack_ref_fround r neg exp sig :
  2 ^ (prec f + g - 1) <= sig < 2 ^ (prec f + g) ->
  pack_ref r neg exp sig = fround f r neg sig 1 (emin f + exp - g).
Proof.
  intros. destruct (Z.lt_ge_cases exp 0);
    [by apply pack_ref_subnormal|by apply pack_ref_normal].
Qed.

(** Nothing below the guard bits: the significand is packed unchanged. *)
Lemma pack_ref_exact r neg exp sig :
  0 <= exp <= emaxcode f - 2 -> 0 <= sig < 2 ^ (prec f + g) -> sig mod 2 ^ g = 0 ->
  pack_ref r neg exp sig
  = (exp * 2 ^ (prec f - 1) + sig / 2 ^ g, Flags false false false).
Proof.
  intros He Hr Hs. destruct half_pow as [Hh ?]. unfold pack_ref.
  rewrite (proj2 (Z.ltb_ge exp 0)), (proj2 (Z.ltb_ge (emaxcode f - 2) exp)) by lia.
  assert (sig + rinc r neg < 2 ^ (prec f + g)) as Hlt.
  { pose proof (rinc_range r neg). rewrite Z.pow_add_r in * by lia.
    pose proof (Z.div_lt_upper_bound sig (2 ^ g) (2 ^ prec f) ltac:(lia) ltac:(lia)).
    pose proof (Z.div_mod sig (2 ^ g) ltac:(lia)). nia. }
  rewrite (proj2 (Z.leb_gt (2 ^ (prec f + g)) (sig + rinc r neg)) Hlt), andb_false_r.
  cbn [orb andb]. rewrite Hs. cbn [Z.eqb negb]. do 2 f_equal.
  rewrite inc_trunc_round.
  pose proof (round_int_exact r neg sig (2 ^ g) ltac:(lia) Hs) as Hx.
  rewrite <- Hx at 2. by rewrite Z.div_mul by lia.
Qed.
End pack.
