(* ===== verification/SoftPrim.v ===== *)
(** SoftFloat's global state and its integer primitives
    (softfloat/softfloat_state.c, softfloat_raiseFlags.c, primitives.h,
    s_countLeadingZeros*.c, s_mul64To128.c, s_shiftRightJam128.c), each with the
    theorem that says what the bit manipulation computes. *)
From S2P Require Import Prelude FloatSpec.

(** ** Rounding modes, flags and the global state *)

Definition softfloat_round_near_even : Z := 0.
Definition softfloat_round_minMag : Z := 1.
Definition softfloat_round_min : Z := 2.
Definition softfloat_round_max : Z := 3.
Definition softfloat_round_near_maxMag : Z := 4.

Definition softfloat_tininess_beforeRounding : Z := 0.
Definition softfloat_tininess_afterRounding : Z := 1.

Definition softfloat_flag_inexact : Z := 1.
Definition softfloat_flag_underflow : Z := 2.
Definition softfloat_flag_overflow : Z := 4.
Definition softfloat_flag_infinite : Z := 8.
Definition softfloat_flag_invalid : Z := 16.

Record fpstate := FpState {
  softfloat_roundingMode : Z;
  softfloat_detectTininess : Z;
  softfloat_exceptionFlags : Z
}.

(** The initial values of the globals. *)
Definition softfloat_init : fpstate :=
  FpState softfloat_round_near_even softfloat_tininess_afterRounding 0.

(** Computations that read and write SoftFloat's globals. *)
Definition FP (A : Type) : Type := fpstate -> A * fpstate.

#[export] Instance FP_ret : MRet FP := fun A a s => (a, s).
#[export] Instance FP_bind : MBind FP := fun A B k m s => let '(a, s') := m s in k a s'.

Definition get_fp : FP fpstate := fun s => (s, s).

Definition softfloat_raiseFlags (flags : Z) : FP unit := fun s =>
  (tt, FpState (softfloat_roundingMode s) (softfloat_detectTininess s)
         (softfloat_exceptionFlags s .| flags)).

(** The same action on the state alone, for the statements of theorems. *)
Definition raised (flags : Z) (s : fpstate) : fpstate := snd (softfloat_raiseFlags flags s).

(** ** 32- and 64-bit primitives *)

Definition softfloat_shortShiftRightJam64 (a count : Z) : Z :=
  (a .>> count) .| b2z (z2b (a .& u64 (u64 (1 .<< count) - 1))).

Definition softfloat_shiftRightJam32 (a count : Z) : Z :=
  let a := u32 a in
  if count <? 31
  then (a .>> count) .| b2z (z2b (u32 (a .<< (u64 (- count) .& 31))))
  else b2z (z2b a).

Definition softfloat_shiftRightJam64 (a count : Z) : Z :=
  if count <? 63
  then (a .>> count) .| b2z (z2b (u64 (a .<< (u64 (- count) .& 63))))
  else b2z (z2b a).

Definition softfloat_countLeadingZeros8 : list Z := [
    8; 7; 6; 6; 5; 5; 5; 5; 4; 4; 4; 4; 4; 4; 4; 4;
    3; 3; 3; 3; 3; 3; 3; 3; 3; 3; 3; 3; 3; 3; 3; 3;
    2; 2; 2; 2; 2; 2; 2; 2; 2; 2; 2; 2; 2; 2; 2; 2;
    2; 2; 2; 2; 2; 2; 2; 2; 2; 2; 2; 2; 2; 2; 2; 2;
    1; 1; 1; 1; 1; 1; 1; 1; 1; 1; 1; 1; 1; 1; 1; 1;
    1; 1; 1; 1; 1; 1; 1; 1; 1; 1; 1; 1; 1; 1; 1; 1;
    1; 1; 1; 1; 1; 1; 1; 1; 1; 1; 1; 1; 1; 1; 1; 1;
    1; 1; 1; 1; 1; 1; 1; 1; 1; 1; 1; 1; 1; 1; 1; 1;
    0; 0; 0; 0; 0; 0; 0; 0; 0; 0; 0; 0; 0; 0; 0; 0;
    0; 0; 0; 0; 0; 0; 0; 0; 0; 0; 0; 0; 0; 0; 0; 0;
    0; 0; 0; 0; 0; 0; 0; 0; 0; 0; 0; 0; 0; 0; 0; 0;
    0; 0; 0; 0; 0; 0; 0; 0; 0; 0; 0; 0; 0; 0; 0; 0;
    0; 0; 0; 0; 0; 0; 0; 0; 0; 0; 0; 0; 0; 0; 0; 0;
    0; 0; 0; 0; 0; 0; 0; 0; 0; 0; 0; 0; 0; 0; 0; 0;
    0; 0; 0; 0; 0; 0; 0; 0; 0; 0; 0; 0; 0; 0; 0; 0;
    0; 0; 0; 0; 0; 0; 0; 0; 0; 0; 0; 0; 0; 0; 0; 0].

(** A table lookup; every index below is in the table. *)
Definition clz8 (i : Z) : Z := default 0 (softfloat_countLeadingZeros8 !! Z.to_nat i).

Definition softfloat_countLeadingZeros32 (a : Z) : Z :=
  let a := u32 a in
  let count := 0 in
  let '(count, a) := if a <? 0x10000 then (16, u32 (a .<< 16)) else (count, a) in
  let '(count, a) := if a <? 0x1000000 then (count + 8, u32 (a .<< 8)) else (count, a) in
  count + clz8 (a .>> 24).

Definition softfloat_countLeadingZeros64 (a : Z) : Z :=
  let count := 0 in
  let a32 := u32 (a .>> 32) in
  let '(count, a32) := if a32 =? 0 then (32, u32 a) else (count, a32) in
  let '(count, a32) := if a32 <? 0x10000 then (count + 16, u32 (a32 .<< 16)) else (count, a32) in
  let '(count, a32) := if a32 <? 0x1000000 then (count + 8, u32 (a32 .<< 8)) else (count, a32) in
  count + clz8 (a32 .>> 24).

(** SOFTFLOAT_FAST_DIV64TO32 is defined in platform.h. *)
Definition softfloat_approxRecip32_1 (a : Z) : Z := u32 (0x7FFFFFFFFFFFFFFF / u32 a).

(** ** 128-bit arithmetic on pairs of 64-bit words *)

Record uint128 := Uint128 { v64 : Z; v0 : Z }.
Record uint64_extra := Uint64Extra { ex_v : Z; ex_extra : Z }.

Definition val128 (z : uint128) : Z := v64 z * 2 ^ 64 + v0 z.

Definition softfloat_eq128 (a64 a0 b64 b0 : Z) : bool := (a64 =? b64) && (a0 =? b0).
Definition softfloat_le128 (a64 a0 b64 b0 : Z) : bool :=
  (a64 <? b64) || ((a64 =? b64) && (a0 <=? b0)).
Definition softfloat_lt128 (a64 a0 b64 b0 : Z) : bool :=
  (a64 <? b64) || ((a64 =? b64) && (a0 <? b0)).

Definition softfloat_shortShiftLeft128 (a64 a0 count : Z) : uint128 :=
  Uint128 (u64 (a64 .<< count) .| (a0 .>> ((- count) .& 63))) (u64 (a0 .<< count)).

Definition softfloat_shortShiftRight128 (a64 a0 count : Z) : uint128 :=
  Uint128 (a64 .>> count) (u64 (a64 .<< ((- count) .& 63)) .| (a0 .>> count)).

Definition softfloat_shortShiftRightJam64Extra (a extra count : Z) : uint64_extra :=
  Uint64Extra (a .>> count) (u64 (a .<< ((- count) .& 63)) .| b2z (z2b extra)).

Definition softfloat_shiftRightJam64Extra (a extra count : Z) : uint64_extra :=
  let z :=
    if count <? 64
    then Uint64Extra (a .>> count) (u64 (a .<< (u64 (- count) .& 63)))
    else Uint64Extra 0 (if count =? 64 then a else b2z (z2b a)) in
  Uint64Extra (ex_v z) (ex_extra z .| b2z (z2b extra)).

Definition softfloat_shiftRightJam128 (a64 a0 count : Z) : uint128 :=
  if count <? 64 then
    let negCount := - count in
    Uint128 (a64 .>> count)
      (u64 (a64 .<< (negCount .& 63)) .| (a0 .>> count)
         .| b2z (z2b (u64 (a0 .<< (negCount .& 63)))))
  else
    Uint128 0
      (if count <? 127
       then (a64 .>> (count .& 63))
              .| b2z (z2b ((a64 .& u64 (u64 (1 .<< (count .& 63)) - 1)) .| a0))
       else b2z (z2b (a64 .| a0))).

Definition softfloat_add128 (a64 a0 b64 b0 : Z) : uint128 :=
  let z0 := u64 (a0 + b0) in
  Uint128 (u64 (u64 (a64 + b64) + b2z (z0 <? a0))) z0.

Definition softfloat_sub128 (a64 a0 b64 b0 : Z) : uint128 :=
  let z0 := u64 (a0 - b0) in
  let z64 := u64 (a64 - b64) in
  Uint128 (u64 (z64 - b2z (a0 <? b0))) z0.

Definition softfloat_mul64To128 (a b : Z) : uint128 :=
  let a32 := u32 (a .>> 32) in
  let a0 := u32 a in
  let b32 := u32 (b .>> 32) in
  let b0 := u32 b in
  let z0 := u64 (a0 * b0) in
  let mid1 := u64 (a32 * b0) in
  let mid := u64 (mid1 + u64 (a0 * b32)) in
  let z64 := u64 (a32 * b32) in
  let z64 := u64 (z64 + (u64 (b2z (mid <? mid1) .<< 32) .| (mid .>> 32))) in
  let mid := u64 (mid .<< 32) in
  let z0 := u64 (z0 + mid) in
  let z64 := u64 (z64 + b2z (z0 <? mid)) in
  Uint128 z64 z0.

(** ** Leading zeros *)

Lemma clz8_table :
  forallb (fun i => clz8 i =? (if i =? 0 then 8 else 7 - Z.log2 i)) (seqZ 0 256) = true.
Proof. vm_compute. reflexivity. Qed.

Lemma clz8_spec i : 0 <= i < 256 -> clz8 i = if i =? 0 then 8 else 7 - Z.log2 i.
Proof.
  intros Hi. pose proof (proj1 (forallb_forall _ _) clz8_table i) as H.
  apply Z.eqb_eq, H, list_elem_of_In, elem_of_seqZ. lia.
Qed.

Lemma log2_lt a n : 0 < a < 2 ^ n -> 0 <= n -> Z.log2 a < n.
Proof. intros. apply Z.log2_lt_pow2; lia. Qed.

Lemma log2_ge a n : 0 <= n -> 2 ^ n <= a -> n <= Z.log2 a.
Proof. intros. pose proof (pow2_pos n). apply Z.log2_le_pow2; lia. Qed.

(** One step of the search for the leading one, 8 bits at a time: what is left
    after shifting the top byte into place. *)
Lemma clz_top a :
  2 ^ 24 <= a < 2 ^ 32 -> clz8 (a .>> 24) = 31 - Z.log2 a.
Proof.
  intros H. assert (0 < a .>> 24 < 256) by (rewrite shr_div by lia; zdm).
  rewrite clz8_spec by lia. rewrite (proj2 (Z.eqb_neq _ _)) by lia.
  rewrite Z.log2_shiftr by lia. pose proof (log2_ge a 24). lia.
Qed.

Lemma countLeadingZeros32_spec a :
  0 <= a < 2 ^ 32 ->
  softfloat_countLeadingZeros32 a = if a =? 0 then 32 else 31 - Z.log2 a.
Proof.
  intros H. unfold softfloat_countLeadingZeros32. rewrite wrap_small by done.
  destruct (Z.eqb_spec a 0) as [->|Ha]; [reflexivity|].
  assert (forall x n, 0 < x -> 0 <= n -> x * 2 ^ n < 2 ^ 32 ->
            u32 (x .<< n) = x * 2 ^ n /\ Z.log2 (x * 2 ^ n) = n + Z.log2 x) as Hs.
  { intros x n Hx Hn Hlt. pose proof (pow2_pos n Hn). split.
    - rewrite shl_mul by lia. apply wrap_small. nia.
    - by rewrite Z.log2_mul_pow2. }
  destruct (Z.ltb_spec a 0x10000).
  - destruct (Hs a 16) as [-> HL16]; [lia..|].
    destruct (Z.ltb_spec (a * 2 ^ 16) 0x1000000).
    + destruct (Hs (a * 2 ^ 16) 8) as [-> HL8]; [lia..|].
      rewrite clz_top, HL8, HL16 by lia. lia.
    + rewrite clz_top, HL16 by lia. lia.
  - destruct (Z.ltb_spec a 0x1000000).
    + destruct (Hs a 8) as [-> HL8]; [lia..|]. rewrite clz_top, HL8 by lia. lia.
    + rewrite clz_top by lia. lia.
Qed.

Lemma countLeadingZeros64_split a :
  0 <= a < 2 ^ 64 ->
  softfloat_countLeadingZeros64 a =
    if a .>> 32 =? 0 then 32 + softfloat_countLeadingZeros32 a
    else softfloat_countLeadingZeros32 (a .>> 32).
Proof.
  intros H. assert (0 <= a .>> 32 < 2 ^ 32) by (rewrite shr_div by lia; zdm).
  unfold softfloat_countLeadingZeros64, softfloat_countLeadingZeros32.
  rewrite (wrap_small 32 (a .>> 32)) by done.
  destruct (Z.eqb_spec (a .>> 32) 0); case_bool; lia.
Qed.

Lemma countLeadingZeros64_spec a :
  0 <= a < 2 ^ 64 ->
  softfloat_countLeadingZeros64 a = if a =? 0 then 64 else 63 - Z.log2 a.
Proof.
  intros H. rewrite countLeadingZeros64_split by done.
  assert (0 <= a .>> 32 < 2 ^ 32) by (rewrite shr_div by lia; zdm).
  destruct (Z.eqb_spec (a .>> 32) 0) as [E|E].
  - rewrite countLeadingZeros32_spec by (rewrite shr_div in E by lia; zdm).
    destruct (Z.eqb_spec a 0); lia.
  - rewrite countLeadingZeros32_spec by done.
    assert (2 ^ 32 <= a) by (rewrite shr_div in E by lia; zdm).
    rewrite (proj2 (Z.eqb_neq _ _) E), Z.log2_shiftr by lia.
    rewrite (proj2 (Z.eqb_neq a 0)) by lia. pose proof (log2_ge a 32). lia.
Qed.

(** ** Shifting right with jamming *)

(** Shifting the complement distance left leaves exactly the bits that a right
    shift drops. *)
Lemma shl_lost w a count :
  0 <= a -> 1 <= count <= w ->
  z2b (wrap w (a .<< (w - count))) = negb (a mod 2 ^ count =? 0).
Proof.
  intros Ha Hc. unfold z2b, wrap. rewrite shl_mul by lia.
  rewrite (pow2_split w (w - count)) by lia.
  replace (w - (w - count)) with count by lia.
  rewrite (Z.mul_comm (2 ^ (w - count))).
  pose proof (pow2_pos count ltac:(lia)). pose proof (pow2_pos (w - count) ltac:(lia)).
  by rewrite mod_mul_zero.
Qed.

Lemma neg_count_mask w n count :
  0 <= n -> w = 2 ^ n -> 0 < count < w -> n <= 64 -> u64 (- count) .& (w - 1) = w - count.
Proof.
  intros Hn -> Hc Hn64. rewrite land_mask by lia. fold (wrap n (u64 (- count))).
  rewrite wrap_narrow by lia. unfold wrap.
  rewrite <- (Z.mod_add (- count) 1 (2 ^ n)) by lia. rewrite Z.mod_small; lia.
Qed.

Lemma jam_big a den : 0 <= a < den -> jam a den = b2z (z2b a).
Proof.
  intros. unfold jam, z2b. by rewrite Z.div_small, Z.mod_small, Z.lor_0_l.
Qed.

Lemma jam_half a den : 0 < den <= a -> a < 2 * den -> jam a den = 1.
Proof.
  intros. unfold jam. replace (a / den) with 1; [by destruct (_ =? _)|].
  apply (Z.div_unique_pos _ _ _ (a - den)); lia.
Qed.

Lemma shiftRightJam32_jam a count :
  0 <= a < 2 ^ 32 -> 1 <= count -> softfloat_shiftRightJam32 a count = jam a (2 ^ count).
Proof.
  intros Ha Hc. unfold softfloat_shiftRightJam32. rewrite wrap_small by done.
  destruct (Z.ltb_spec count 31).
  - rewrite (neg_count_mask 32 5) by lia. unfold jam.
    by rewrite shl_lost, shr_div by lia.
  - destruct (Z.ltb_spec a (2 ^ count)); [rewrite jam_big by lia; done|].
    assert (count = 31 \/ 32 <= count) as [->|?] by lia.
    + rewrite jam_half by lia. unfold z2b. by rewrite (proj2 (Z.eqb_neq a 0)) by lia.
    + pose proof (pow2_le 32 count). lia.
Qed.

Lemma shiftRightJam64_jam a count :
  0 <= a < 2 ^ 64 -> 1 <= count -> softfloat_shiftRightJam64 a count = jam a (2 ^ count).
Proof.
  intros Ha Hc. unfold softfloat_shiftRightJam64.
  destruct (Z.ltb_spec count 63).
  - rewrite (neg_count_mask 64 6) by lia. unfold jam.
    by rewrite shl_lost, shr_div by lia.
  - destruct (Z.ltb_spec a (2 ^ count)); [rewrite jam_big by lia; done|].
    assert (count = 63 \/ 64 <= count) as [->|?] by lia.
    + rewrite jam_half by lia. unfold z2b. by rewrite (proj2 (Z.eqb_neq a 0)) by lia.
    + pose proof (pow2_le 64 count). lia.
Qed.

Lemma shortShiftRightJam64_jam a count :
  1 <= count <= 63 -> softfloat_shortShiftRightJam64 a count = jam a (2 ^ count).
Proof.
  intros Hc. unfold softfloat_shortShiftRightJam64, jam, z2b.
  pose proof (pow2_pos count ltac:(lia)). pose proof (pow2_le count 63 ltac:(lia)).
  rewrite (shl_mul 1), Z.mul_1_l, (wrap_small 64 (2 ^ count)) by lia.
  by rewrite wrap_small, land_mask, shr_div by lia.
Qed.

(** ** 128-bit arithmetic *)

Definition wf128 (z : uint128) : Prop := in_range 64 (v64 z) /\ in_range 64 (v0 z).

Lemma add128_spec a64 a0 b64 b0 :
  in_range 64 a64 -> in_range 64 a0 -> in_range 64 b64 -> in_range 64 b0 ->
  val128 (softfloat_add128 a64 a0 b64 b0)
  = (val128 (Uint128 a64 a0) + val128 (Uint128 b64 b0)) mod 2 ^ 128.
Proof.
  unfold in_range, val128, softfloat_add128, wrap. cbn [v64 v0]. intros.
  rewrite Zplus_mod_idemp_l. case_bool; cbn [Z.b2z]; zdm.
Qed.

Lemma sub128_spec a64 a0 b64 b0 :
  in_range 64 a64 -> in_range 64 a0 -> in_range 64 b64 -> in_range 64 b0 ->
  val128 (softfloat_sub128 a64 a0 b64 b0)
  = (val128 (Uint128 a64 a0) - val128 (Uint128 b64 b0)) mod 2 ^ 128.
Proof.
  unfold in_range, val128, softfloat_sub128, wrap. cbn [v64 v0]. intros.
  rewrite Zminus_mod_idemp_l. case_bool; cbn [Z.b2z]; zdm.
Qed.

Lemma le128_spec a64 a0 b64 b0 :
  in_range 64 a0 -> in_range 64 b0 ->
  softfloat_le128 a64 a0 b64 b0 = (val128 (Uint128 a64 a0) <=? val128 (Uint128 b64 b0)).
Proof.
  unfold in_range, val128, softfloat_le128. cbn [v64 v0]. intros. case_bool; auto; lia.
Qed.

Lemma lt128_spec a64 a0 b64 b0 :
  in_range 64 a0 -> in_range 64 b0 ->
  softfloat_lt128 a64 a0 b64 b0 = (val128 (Uint128 a64 a0) <? val128 (Uint128 b64 b0)).
Proof.
  unfold in_range, val128, softfloat_lt128. cbn [v64 v0]. intros. case_bool; auto; lia.
Qed.

(** The schoolbook product of 32-bit halves, with both carries. *)
Lemma mul64To128_spec a b :
  in_range 64 a -> in_range 64 b ->
  val128 (softfloat_mul64To128 a b) = a * b /\ wf128 (softfloat_mul64To128 a b).
Proof.
  unfold in_range. intros Ha Hb.
  unfold softfloat_mul64To128, wf128, val128, in_range. cbn [v64 v0].
  rewrite !shr_div by lia.
  pose proof (Z.div_mod a (2 ^ 32)). pose proof (Z.mod_pos_bound a (2 ^ 32)).
  pose proof (Z.div_mod b (2 ^ 32)). pose proof (Z.mod_pos_bound b (2 ^ 32)).
  assert (0 <= a / 2 ^ 32 < 2 ^ 32) by zdm. assert (0 <= b / 2 ^ 32 < 2 ^ 32) by zdm.
  rewrite (wrap_small 32 (a / _)), (wrap_small 32 (b / _)) by lia.
  change (u32 a) with (a mod 2 ^ 32). change (u32 b) with (b mod 2 ^ 32).
  set (a32 := a / 2 ^ 32) in *. set (b32 := b / 2 ^ 32) in *.
  set (a0 := a mod 2 ^ 32) in *. set (b0 := b mod 2 ^ 32) in *.
  assert (0 <= a0 * b0 <= (2 ^ 32 - 1) * (2 ^ 32 - 1)) by nia.
  assert (0 <= a32 * b0 <= (2 ^ 32 - 1) * (2 ^ 32 - 1)) by nia.
  assert (0 <= a0 * b32 <= (2 ^ 32 - 1) * (2 ^ 32 - 1)) by nia.
  assert (0 <= a32 * b32 <= (2 ^ 32 - 1) * (2 ^ 32 - 1)) by nia.
  assert (a * b = a32 * b32 * 2 ^ 64 + (a32 * b0 + a0 * b32) * 2 ^ 32 + a0 * b0) as -> by nia.
  unwrap.
  set (p00 := a0 * b0) in *. set (p10 := a32 * b0) in *.
  set (p01 := a0 * b32) in *. set (p11 := a32 * b32) in *.
  clearbody p00 p10 p01 p11. clear -H5 H6 H7 H8.
  set (mid := u64 (p10 + p01)).
  assert (0 <= mid < 2 ^ 64) by (apply wrap_range; lia).
  assert (p10 + p01 = mid + b2z (mid <? p10) * 2 ^ 64) as Hmid.
  { unfold mid, wrap in *. case_bool; cbn [Z.b2z]; zdm. }
  rewrite (lor_add _ _ 32); [ |lia| |zdm].
  2:{ rewrite shl_mul by lia. destruct (mid <? p10); reflexivity. }
  set (c := b2z (mid <? p10)) in *. assert (0 <= c <= 1) by (unfold c; destruct (_ <? _); cbn; lia).
  clearbody c mid.
  rewrite !shl_mul by lia. rewrite (wrap_small 64 (c * _)) by lia.
  unfold wrap. case_bool; cbn [Z.b2z]; zdm.
Qed.

(** ** The link between SoftFloat's globals and the reference semantics *)

(** Any mode the code does not test for behaves as round-toward-zero. *)
Definition rounding_of (mode : Z) : rounding :=
  if mode =? softfloat_round_near_even then RNE
  else if mode =? softfloat_round_near_maxMag then RMM
  else if mode =? softfloat_round_min then RDN
  else if mode =? softfloat_round_max then RUP
  else RTZ.

Definition mode (s : fpstate) : rounding := rounding_of (softfloat_roundingMode s).

Definition flag_bits (fl : flags) : Z :=
  (if overflow fl then softfloat_flag_overflow else 0)
  .| ((if underflow fl then softfloat_flag_underflow else 0)
  .| (if inexact fl then softfloat_flag_inexact else 0)).

(** A finite or infinite result of a [w]-bit format: the sign bit above the
    magnitude, and the flags added to those already raised. *)
Definition deliver (w : Z) (neg : bool) (res : Z * flags) (s : fpstate) : Z * fpstate :=
  (b2z neg * 2 ^ (w - 1) + fst res, raised (flag_bits (snd res)) s).

Lemma raised_raised a b s : raised a (raised b s) = raised (b .| a) s.
Proof. unfold raised. cbn. by rewrite Z.lor_assoc. Qed.

Lemma raised_0 s : raised 0 s = s.
Proof. destruct s. unfold raised. cbn. by rewrite Z.lor_0_r. Qed.

Lemma raised_mode f s : softfloat_roundingMode (raised f s) = softfloat_roundingMode s.
Proof. done. Qed.

(** The functions of the library run with tininess detected after rounding,
    the initial value of the global, which nothing in the simulator changes. *)
Definition tininess_after (s : fpstate) : Prop :=
  softfloat_detectTininess s = softfloat_tininess_afterRounding.

(** Running a conditional [raiseFlags]. *)
Lemma raise_if (b : bool) f (A : Type) (k : unit -> FP A) s :
  ((if b then softfloat_raiseFlags f else mret tt) ≫= k) s
  = k tt (raised (if b then f else 0) s).
Proof. destruct b; [done|]. by rewrite raised_0. Qed.

Lemma raise_then f (A : Type) (k : unit -> FP A) s :
  (softfloat_raiseFlags f ≫= k) s = k tt (raised f s).
Proof. done. Qed.

Lemma get_fp_then (A : Type) (k : fpstate -> FP A) s : (get_fp ≫= k) s = k s s.
Proof. done. Qed.

Lemma mret_run (A : Type) (a : A) s : (mret a : FP A) s = (a, s).
Proof. done. Qed.

(** Two deliveries of the same rounding agree when their values do. *)
Lemma deliver_cong w neg f r sg a b e e' s :
  a = b -> e = e' ->
  deliver w neg (fround f r sg a 1 e) s = deliver w neg (fround f r sg b 1 e') s.
Proof. by intros -> ->. Qed.

Ltac deliver_eq := apply deliver_cong; lia.

#[export] Hint Rewrite get_fp_then mret_run raise_if raise_then raised_raised raised_0 : fprun.

(** ** Facts shared by both precisions *)

Lemma rounding_of_RNE m :
  (m =? softfloat_round_near_even) = bool_decide (rounding_of m = RNE).
Proof.
  unfold rounding_of. case_bool;
    rewrite ?bool_decide_eq_true_2, ?bool_decide_eq_false_2 by done; done.
Qed.

Lemma tie_bits sig n :
  0 <= n -> z2b ((sig mod 2 ^ n) .^ 2 ^ (n - 1)) = negb (sig mod 2 ^ n =? 2 ^ (n - 1)).
Proof.
  intros. unfold z2b. f_equal. apply eq_true_iff_eq. rewrite !Z.eqb_eq.
  apply Z.lxor_eq_0_iff.
Qed.

(** [(uint16_t) exp] tests both ends of the exponent range at once. *)
Lemma u16_range_test c exp :
  0 <= c < 2 ^ 15 -> - 2 ^ 15 <= exp < 2 ^ 15 -> (c <=? u16 exp) = (exp <? 0) || (c <=? exp).
Proof.
  intros. assert (u16 exp = if exp <? 0 then exp + 2 ^ 16 else exp) as ->.
  { unfold wrap. case_bool; [|apply Z.mod_small; lia].
    rewrite <- (Z.mod_add exp 1) by lia. apply Z.mod_small; lia. }
  case_bool; cbn; auto; lia.
Qed.

Lemma jam_shift_range x d w :
  0 <= w -> 1 <= d -> 0 <= x < 2 ^ (w + 1) -> 0 <= jam x (2 ^ d) <= 2 ^ w.
Proof.
  intros Hw Hd Hx. pose proof (pow2_pos w Hw). pose proof (pow2_le 1 d ltac:(lia)).
  change (2 ^ 1) with 2 in *. rewrite Z.pow_add_r in Hx by lia.
  pose proof (jam_bounds x (2 ^ d) ltac:(lia)).
  pose proof (Z.div_pos x (2 ^ d) ltac:(lia) ltac:(lia)).
  pose proof (Z.div_lt_upper_bound x (2 ^ d) (2 ^ w) ltac:(lia) ltac:(nia)). lia.
Qed.

(** The sign of an exact zero difference: negative only when rounding down. *)
Definition zero_sign (s : fpstate) : bool := bool_decide (mode s = RDN).

Lemma zero_sign_eq s :
  (softfloat_roundingMode s =? softfloat_round_min) = zero_sign s.
Proof.
  unfold zero_sign, mode, rounding_of, softfloat_round_min, softfloat_round_near_even,
    softfloat_round_near_maxMag, softfloat_round_max.
  case_bool; try lia; rewrite ?bool_decide_eq_true_2, ?bool_decide_eq_false_2 by done; done.
Qed.

Lemma z2b_lor x y : z2b (x .| y) = z2b x || z2b y.
Proof.
  unfold z2b. rewrite <- negb_andb. f_equal. apply eq_true_iff_eq.
  by rewrite andb_true_iff, !Z.eqb_eq, Z.lor_eq_0_iff.
Qed.

Lemma lor_nonzero x y : negb (z2b (x .| y)) = negb (z2b x) && negb (z2b y).
Proof. by rewrite z2b_lor, negb_orb. Qed.

(** The high word of a 128-bit product, the low one as a sticky bit. *)
Lemma mul64To128_jam a b :
  in_range 64 a -> in_range 64 b ->
  (v64 (softfloat_mul64To128 a b) .| b2z (z2b (v0 (softfloat_mul64To128 a b))))
  = jam (a * b) (2 ^ 64).
Proof.
  intros Ha Hb. destruct (mul64To128_spec a b Ha Hb) as [Hv [H64 H0]].
  set (z := softfloat_mul64To128 a b) in *. unfold val128, in_range in *. unfold jam.
  assert (a * b / 2 ^ 64 = v64 z) as ->
    by (symmetry; apply (Z.div_unique _ _ _ (v0 z)); lia).
  assert ((a * b) mod 2 ^ 64 = v0 z) as ->
    by (symmetry; apply (Z.mod_unique _ _ (v64 z)); lia). done.
Qed.
