(* ===== verification/SoftF32.v ===== *)
(** Single precision: softfloat/internals.h, specialize.h, s_roundPackToF32.c,
    s_normRoundPackToF32.c, s_addMagsF32.c, s_subMagsF32.c, f32_add.c,
    f32_sub.c, f32_mul.c, f32_div.c and the comparisons, with the proof that
    the arithmetic is correctly rounded.

    [uint_fast32_t], [uint_fast16_t] and [int_fast16_t] are 64-bit types on the
    platform (x86-64, GNU libc), [uint_fast8_t] an 8-bit one. *)
From S2P Require Import Prelude FloatSpec FloatPack SoftPrim.

(** ** Field macros (internals.h) *)

Definition signF32UI (a : Z) : bool := z2b (u32 a .>> 31).
Definition expF32UI (a : Z) : Z := (a .>> 23) .& 0xFF.
Definition fracF32UI (a : Z) : Z := a .& 0x007FFFFF.
Definition packToF32UI (sign : bool) (exp sig : Z) : Z :=
  u64 (u32 (u32 (b2z sign .<< 31) + u32 (u32 exp .<< 23)) + sig).
Definition isNaNF32UI (a : Z) : bool :=
  ((a .& 0x7F800000) =? 0x7F800000) && z2b (a .& 0x007FFFFF).

(** ** NaNs (specialize.h, s_propagateNaNF32UI.c) *)

Definition defaultNaNF32UI : Z := 0x7FC00000.
Definition softfloat_isSigNaNF32UI (uiA : Z) : bool :=
  ((uiA .& 0x7FC00000) =? 0x7F800000) && z2b (uiA .& 0x003FFFFF).

Definition softfloat_propagateNaNF32UI (uiA uiB : Z) : FP Z :=
  (if softfloat_isSigNaNF32UI uiA || softfloat_isSigNaNF32UI uiB
   then softfloat_raiseFlags softfloat_flag_invalid else mret tt) ;;
  mret defaultNaNF32UI.

(** ** Rounding and packing *)

Definition softfloat_normSubnormalF32Sig (sig : Z) : Z * Z :=
  let shiftCount := softfloat_countLeadingZeros32 sig - 8 in
  (1 - shiftCount, u64 (sig .<< shiftCount)).

(** [roundIncrement], from the rounding mode and the sign. *)
Definition roundIncrementF32 (roundingMode : Z) (sign : bool) : Z :=
  if negb (roundingMode =? softfloat_round_near_even)
     && negb (roundingMode =? softfloat_round_near_maxMag)
  then if roundingMode =? (if sign then softfloat_round_min else softfloat_round_max)
       then 0x7F else 0
  else 0x40.

(** From [if ( roundBits )] to the end of the function. *)
Definition roundPackToF32_finish (roundNearEven : bool) (roundIncrement : Z)
    (sign : bool) (exp sig roundBits : Z) : FP Z :=
  (if z2b roundBits then softfloat_raiseFlags softfloat_flag_inexact else mret tt) ;;
  let sig := u64 (sig + roundIncrement) .>> 7 in
  let sig := sig .& Z.lnot (b2z (negb (z2b (roundBits .^ 0x40)) && roundNearEven)) in
  mret (u32 (packToF32UI sign (if z2b sig then exp else 0) sig)).

Definition softfloat_roundPackToF32 (sign : bool) (exp sig : Z) : FP Z :=
  s ← get_fp;
  let roundingMode := softfloat_roundingMode s in
  let roundNearEven := roundingMode =? softfloat_round_near_even in
  let roundIncrement := roundIncrementF32 roundingMode sign in
  let roundBits := sig .& 0x7F in
  if 0xFD <=? u16 exp then
    if exp <? 0 then
      let isTiny :=
        (softfloat_detectTininess s =? softfloat_tininess_beforeRounding)
        || (exp <? -1)
        || (u64 (sig + roundIncrement) <? 0x80000000) in
      let sig := softfloat_shiftRightJam32 sig (- exp) in
      let exp := 0 in
      let roundBits := sig .& 0x7F in
      (if isTiny && z2b roundBits
       then softfloat_raiseFlags softfloat_flag_underflow else mret tt) ;;
      roundPackToF32_finish roundNearEven roundIncrement sign exp sig roundBits
    else if (0xFD <? exp) || (0x80000000 <=? u64 (sig + roundIncrement)) then
      softfloat_raiseFlags (softfloat_flag_overflow .| softfloat_flag_inexact) ;;
      mret (u32 (packToF32UI sign 0xFF 0 - b2z (negb (z2b roundIncrement))))
    else roundPackToF32_finish roundNearEven roundIncrement sign exp sig roundBits
  else roundPackToF32_finish roundNearEven roundIncrement sign exp sig roundBits.

Definition softfloat_normRoundPackToF32 (sign : bool) (exp sig : Z) : FP Z :=
  let shiftCount := softfloat_countLeadingZeros32 sig - 1 in
  let exp := exp - shiftCount in
  if (7 <=? shiftCount) && (u16 exp <? 0xFD) then
    mret (u32 (packToF32UI sign (if z2b sig then exp else 0) (u64 (sig .<< (shiftCount - 7)))))
  else softfloat_roundPackToF32 sign exp (u64 (sig .<< shiftCount)).

(** ** Addition and subtraction of magnitudes *)

Definition softfloat_addMagsF32 (uiA uiB : Z) (signZ : bool) : FP Z :=
  let expA := expF32UI uiA in
  let sigA := fracF32UI uiA in
  let expB := expF32UI uiB in
  let sigB := fracF32UI uiB in
  let expDiff := expA - expB in
  let sigA := u64 (sigA .<< 6) in
  let sigB := u64 (sigB .<< 6) in
  let propagateNaN := softfloat_propagateNaNF32UI uiA uiB in
  if negb (z2b expDiff) then
    if expA =? 0xFF then
      if z2b (sigA .| sigB) then propagateNaN else mret (u32 uiA)
    else if negb (z2b expA) then
      mret (u32 (packToF32UI signZ 0 (u64 (uiA + uiB) .& 0x7FFFFFFF)))
    else
      softfloat_roundPackToF32 signZ expA (u64 (u64 (0x40000000 + sigA) + sigB))
  else
    let round expZ sigA sigB :=
      let sigZ := u64 (u64 (0x20000000 + sigA) + sigB) in
      if sigZ <? 0x40000000
      then softfloat_roundPackToF32 signZ (expZ - 1) (u64 (sigZ .<< 1))
      else softfloat_roundPackToF32 signZ expZ sigZ in
    if expDiff <? 0 then
      if expB =? 0xFF then
        if z2b sigB then propagateNaN else mret (u32 (packToF32UI signZ 0xFF 0))
      else
        let sigA := u64 (sigA + (if z2b expA then 0x20000000 else sigA)) in
        let sigA := softfloat_shiftRightJam32 sigA (- expDiff) in
        round expB sigA sigB
    else
      if expA =? 0xFF then
        if z2b sigA then propagateNaN else mret (u32 uiA)
      else
        let sigB := u64 (sigB + (if z2b expB then 0x20000000 else sigB)) in
        let sigB := softfloat_shiftRightJam32 sigB expDiff in
        round expA sigA sigB.

Definition softfloat_subMagsF32 (uiA uiB : Z) (signZ : bool) : FP Z :=
  let expA := expF32UI uiA in
  let sigA := fracF32UI uiA in
  let expB := expF32UI uiB in
  let sigB := fracF32UI uiB in
  let expDiff := expA - expB in
  let sigA := u64 (sigA .<< 7) in
  let sigB := u64 (sigB .<< 7) in
  let propagateNaN := softfloat_propagateNaNF32UI uiA uiB in
  let normRoundPack signZ expZ sigZ := softfloat_normRoundPackToF32 signZ (expZ - 1) sigZ in
  let aBigger expA sigA sigB := normRoundPack signZ expA (u64 (sigA - sigB)) in
  let bBigger expB sigA sigB := normRoundPack (negb signZ) expB (u64 (sigB - sigA)) in
  if 0 <? expDiff then
    if expA =? 0xFF then
      if z2b sigA then propagateNaN else mret (u32 uiA)
    else
      let sigB := u64 (sigB + (if z2b expB then 0x40000000 else sigB)) in
      let sigB := softfloat_shiftRightJam32 sigB expDiff in
      aBigger expA (sigA .| 0x40000000) sigB
  else if expDiff <? 0 then
    if expB =? 0xFF then
      if z2b sigB then propagateNaN else mret (u32 (packToF32UI (negb signZ) 0xFF 0))
    else
      let sigA := u64 (sigA + (if z2b expA then 0x40000000 else sigA)) in
      let sigA := softfloat_shiftRightJam32 sigA (- expDiff) in
      bBigger expB sigA (sigB .| 0x40000000)
  else if expA =? 0xFF then
    if z2b (sigA .| sigB) then propagateNaN
    else softfloat_raiseFlags softfloat_flag_invalid ;; mret defaultNaNF32UI
  else
    let '(expA, expB) := if negb (z2b expA) then (1, 1) else (expA, expB) in
    if sigB <? sigA then aBigger expA sigA sigB
    else if sigA <? sigB then bBigger expB sigA sigB
    else
      s ← get_fp;
      mret (u32 (packToF32UI (softfloat_roundingMode s =? softfloat_round_min) 0 0)).

Definition f32_add (uiA uiB : Z) : FP Z :=
  let signA := signF32UI uiA in
  let signB := signF32UI uiB in
  if eqb signA signB then softfloat_addMagsF32 uiA uiB signA
  else softfloat_subMagsF32 uiA uiB signA.

Definition f32_sub (uiA uiB : Z) : FP Z :=
  let signA := signF32UI uiA in
  let signB := signF32UI uiB in
  if eqb signA signB then softfloat_subMagsF32 uiA uiB signA
  else softfloat_addMagsF32 uiA uiB signA.

(** ** Multiplication and division *)

Definition f32_mul (uiA uiB : Z) : FP Z :=
  let signA := signF32UI uiA in
  let expA := expF32UI uiA in
  let sigA := fracF32UI uiA in
  let signB := signF32UI uiB in
  let expB := expF32UI uiB in
  let sigB := fracF32UI uiB in
  let signZ := xorb signA signB in
  let propagateNaN := softfloat_propagateNaNF32UI uiA uiB in
  let infArg magBits :=
    if negb (z2b magBits)
    then softfloat_raiseFlags softfloat_flag_invalid ;; mret defaultNaNF32UI
    else mret (u32 (packToF32UI signZ 0xFF 0)) in
  let zero := mret (u32 (packToF32UI signZ 0 0)) in
  if expA =? 0xFF then
    if z2b sigA || ((expB =? 0xFF) && z2b sigB) then propagateNaN
    else infArg (expB .| sigB)
  else if expB =? 0xFF then
    if z2b sigB then propagateNaN else infArg (expA .| sigA)
  else if negb (z2b expA) && negb (z2b sigA) then zero
  else
    let '(expA, sigA) :=
      if negb (z2b expA) then softfloat_normSubnormalF32Sig sigA else (expA, sigA) in
    if negb (z2b expB) && negb (z2b sigB) then zero
    else
      let '(expB, sigB) :=
        if negb (z2b expB) then softfloat_normSubnormalF32Sig sigB else (expB, sigB) in
      let expZ := expA + expB - 0x7F in
      let sigA := u64 ((sigA .| 0x00800000) .<< 7) in
      let sigB := u64 ((sigB .| 0x00800000) .<< 8) in
      let sigZ := softfloat_shortShiftRightJam64 (u64 (sigA * sigB)) 32 in
      if sigZ <? 0x40000000
      then softfloat_roundPackToF32 signZ (expZ - 1) (u64 (sigZ .<< 1))
      else softfloat_roundPackToF32 signZ expZ sigZ.

(** With [SOFTFLOAT_FAST_DIV64TO32], which platform.h defines. *)
Definition f32_div (uiA uiB : Z) : FP Z :=
  let signA := signF32UI uiA in
  let expA := expF32UI uiA in
  let sigA := fracF32UI uiA in
  let signB := signF32UI uiB in
  let expB := expF32UI uiB in
  let sigB := fracF32UI uiB in
  let signZ := xorb signA signB in
  let propagateNaN := softfloat_propagateNaNF32UI uiA uiB in
  let invalid := softfloat_raiseFlags softfloat_flag_invalid ;; mret defaultNaNF32UI in
  let infinity := mret (u32 (packToF32UI signZ 0xFF 0)) in
  let zero := mret (u32 (packToF32UI signZ 0 0)) in
  if expA =? 0xFF then
    if z2b sigA then propagateNaN
    else if expB =? 0xFF then
      if z2b sigB then propagateNaN else invalid
    else infinity
  else if expB =? 0xFF then
    if z2b sigB then propagateNaN else zero
  else if negb (z2b expB) && negb (z2b sigB) then
    if negb (z2b (expA .| sigA)) then invalid
    else softfloat_raiseFlags softfloat_flag_infinite ;; infinity
  else
    let '(expB, sigB) :=
      if negb (z2b expB) then softfloat_normSubnormalF32Sig sigB else (expB, sigB) in
    if negb (z2b expA) && negb (z2b sigA) then zero
    else
      let '(expA, sigA) :=
        if negb (z2b expA) then softfloat_normSubnormalF32Sig sigA else (expA, sigA) in
      let expZ := expA - expB + 0x7E in
      let sigA := sigA .| 0x00800000 in
      let sigB := sigB .| 0x00800000 in
      let '(expZ, sig64A) :=
        if sigA <? sigB then (expZ - 1, u64 (sigA .<< 31)) else (expZ, u64 (sigA .<< 30)) in
      let sigZ := sig64A / sigB in
      let sigZ :=
        if negb (z2b (sigZ .& 0x3F))
        then sigZ .| b2z (negb (u64 (sigB * sigZ) =? sig64A)) else sigZ in
      softfloat_roundPackToF32 signZ expZ sigZ.

(** ** The fields of a bit pattern *)

Lemma expF32UI_eq a : expF32UI a = (a / 2 ^ 23) mod 2 ^ 8.
Proof. unfold expF32UI. change 0xFF with (2 ^ 8 - 1). by rewrite land_mask, shr_div. Qed.

Lemma fracF32UI_eq a : fracF32UI a = a mod 2 ^ 23.
Proof. unfold fracF32UI. change 0x007FFFFF with (2 ^ 23 - 1). by rewrite land_mask. Qed.

Lemma signF32UI_eq a : in_range 32 a -> signF32UI a = (2 ^ 31 <=? a).
Proof.
  unfold in_range, signF32UI, z2b. intros. rewrite wrap_small, shr_div by lia.
  case_bool; auto; zdm.
Qed.

Lemma packToF32UI_eq sign exp sig :
  0 <= exp <= 255 -> 0 <= sig -> exp * 2 ^ 23 + sig <= 2 ^ 31 ->
  packToF32UI sign exp sig = b2z sign * 2 ^ 31 + exp * 2 ^ 23 + sig.
Proof.
  intros. unfold packToF32UI. rewrite !shl_mul by lia.
  rewrite (wrap_small 32 exp), (wrap_small 32 (exp * _)) by lia.
  destruct sign; cbn [Z.b2z]; unwrap; lia.
Qed.

(** ** [softfloat_roundPackToF32] is the reference rounding *)

Lemma roundIncrementF32_rinc m sign : roundIncrementF32 m sign = rinc 7 (rounding_of m) sign.
Proof.
  unfold roundIncrementF32, rounding_of.
  destruct (m =? softfloat_round_near_even); [done|].
  destruct (m =? softfloat_round_near_maxMag); [done|]. cbn [negb andb].
  unfold softfloat_round_min, softfloat_round_max.
  destruct sign; case_bool; subst; done || lia.
Qed.

Lemma roundPackToF32_finish_spec m sign exp sig s :
  0 <= exp <= 253 -> 0 <= sig < 2 ^ 31 -> exp = 0 \/ 2 ^ 30 <= sig ->
  roundPackToF32_finish (m =? softfloat_round_near_even) (roundIncrementF32 m sign)
    sign exp sig (sig .& 0x7F) s
  = (b2z sign * 2 ^ 31 + (exp * 2 ^ 23 + inc_trunc 7 (rounding_of m) sign sig),
     raised (if negb (sig mod 2 ^ 7 =? 0) then softfloat_flag_inexact else 0) s).
Proof.
  intros He Hs H0. unfold roundPackToF32_finish. autorewrite with fprun.
  rewrite roundIncrementF32_rinc, rounding_of_RNE.
  pose proof (rinc_range 7 ltac:(lia) (rounding_of m) sign).
  rewrite (wrap_small 64 (sig + _)), shr_div by lia.
  change 0x7F with (2 ^ 7 - 1). change 0x40 with (2 ^ (7 - 1)).
  rewrite land_mask, tie_bits, negb_involutive by lia.
  fold (inc_trunc 7 (rounding_of m) sign sig).
  pose proof (inc_trunc_le 7 ltac:(lia) (rounding_of m) sign sig 24 ltac:(lia) ltac:(lia)).
  set (x := inc_trunc _ _ _ _) in *.
  assert ((if z2b x then exp else 0) = exp) as ->.
  { destruct H0 as [->|H0]; [by destruct (z2b x)|].
    pose proof (inc_trunc_ge 7 ltac:(lia) (rounding_of m) sign sig 23 ltac:(lia) ltac:(lia)).
    unfold z2b. rewrite (proj2 (Z.eqb_neq _ _)); [done|]. unfold x; lia. }
  unfold mret, FP_ret. f_equal. rewrite packToF32UI_eq by lia.
  rewrite wrap_small; destruct sign; cbn [Z.b2z]; lia.
Qed.

Lemma roundPackToF32_spec sign exp sig s :
  tininess_after s -> - 2 ^ 15 <= exp < 2 ^ 15 -> 2 ^ 30 <= sig < 2 ^ 31 ->
  softfloat_roundPackToF32 sign exp sig s
  = deliver 32 sign (fround binary32 (mode s) sign sig 1 (exp - 156)) s.
Proof.
  intros Ht He Hs.
  replace (exp - 156) with (emin binary32 + exp - 7) by (cbn; lia).
  rewrite <- pack_ref_fround by (cbn; lia).
  unfold softfloat_roundPackToF32, pack_ref. cbn [prec emaxcode binary32].
  autorewrite with fprun. rewrite Ht, u16_range_test by lia.
  set (m := softfloat_roundingMode s). fold (mode s).
  pose proof (rinc_range 7 ltac:(lia) (mode s) sign) as Hr.
  assert (roundIncrementF32 m sign = rinc 7 (mode s) sign) as Hri
    by apply roundIncrementF32_rinc.
  rewrite Hri, (wrap_small 64 (sig + _)), <- Hri by lia.
  change (softfloat_tininess_afterRounding =? softfloat_tininess_beforeRounding) with false.
  destruct (Z.ltb_spec exp 0); cbn [orb].
  - rewrite shiftRightJam32_jam by lia. set (sig' := jam sig (2 ^ (- exp))).
    assert (0 <= sig' < 2 ^ 31).
    { pose proof (pow2_pos (- exp) ltac:(lia)).
      pose proof (jam_bounds sig (2 ^ (- exp)) ltac:(lia)). fold sig' in H1.
      pose proof (pow2_le 1 (- exp) ltac:(lia)).
      pose proof (Z.div_pos sig (2 ^ (- exp)) ltac:(lia) ltac:(lia)).
      pose proof (Z.div_lt_upper_bound sig (2 ^ (- exp)) (2 ^ 30) ltac:(lia) ltac:(nia)). lia. }
    autorewrite with fprun. rewrite roundPackToF32_finish_spec by lia.
    autorewrite with fprun. unfold deliver.
    change 0x7F with (2 ^ 7 - 1). rewrite land_mask by lia. unfold z2b. change (24 + 7) with 31.
    cbn [fst snd flag_bits overflow underflow inexact]. rewrite Z.add_0_l.
    destruct (_ =? 0), (_ || _); done.
  - destruct (Z.leb_spec 253 exp); cbn [orb].
    + change (255 - 2) with 253. change (24 + 7) with 31.
      assert (((253 <? exp) || (2147483648 <=? sig + roundIncrementF32 m sign))
         = ((253 <? exp) || ((exp =? 253) && (2 ^ 31 <=? sig + roundIncrementF32 m sign)))) as ->.
      { case_bool; cbn; auto; lia. }
      destruct (_ || _) eqn:E.
      * autorewrite with fprun. unfold deliver. cbn [fst snd]. f_equal.
        rewrite packToF32UI_eq by lia. unfold z2b. rewrite negb_involutive.
        change (inf_mag binary32) with (255 * 2 ^ 23).
        destruct sign, (_ =? 0); cbn [Z.b2z]; reflexivity.
      * assert (exp = 253) as -> by (destruct (Z.ltb_spec 253 exp); cbn in E; [done|lia]).
        rewrite roundPackToF32_finish_spec by lia. unfold deliver. cbn [fst snd].
        unfold flag_bits. by destruct (_ =? 0).
    + rewrite (proj2 (Z.ltb_ge (255 - 2) exp)), (proj2 (Z.eqb_neq exp _)) by lia. cbn [orb andb].
      rewrite roundPackToF32_finish_spec by lia. unfold deliver. cbn [fst snd].
      unfold flag_bits. by destruct (_ =? 0).
Qed.

Lemma normRoundPackToF32_spec sign exp sig s :
  tininess_after s -> - 2 ^ 14 <= exp < 2 ^ 14 -> 0 < sig < 2 ^ 31 ->
  softfloat_normRoundPackToF32 sign exp sig s
  = deliver 32 sign (fround binary32 (mode s) sign sig 1 (exp - 156)) s.
Proof.
  intros Ht He Hs. unfold softfloat_normRoundPackToF32.
  rewrite countLeadingZeros32_spec by lia. rewrite (proj2 (Z.eqb_neq sig 0)) by lia.
  pose proof (Z.log2_nonneg sig). pose proof (log2_lt sig 31 ltac:(lia) ltac:(lia)).
  pose proof (Z.log2_spec sig ltac:(lia)) as Hl.
  set (k := Z.log2 sig) in *. remember (31 - k - 1) as c eqn:Hc.
  assert (2 ^ 30 <= sig * 2 ^ c < 2 ^ 31) as Hn.
  { assert (2 ^ 30 = 2 ^ k * 2 ^ c) as -> by (rewrite <- Z.pow_add_r by lia; f_equal; lia).
    assert (2 ^ 31 = 2 ^ Z.succ k * 2 ^ c) as -> by (rewrite <- Z.pow_add_r by lia; f_equal; lia).
    pose proof (pow2_pos c ltac:(lia)). nia. }
  rewrite <- (fround_scale binary32 (mode s) sign sig 1 (exp - 156) c) by lia.
  rewrite (shl_mul sig c), (wrap_small 64 (sig * 2 ^ c)) by lia.
  destruct ((7 <=? c) && (u16 (exp - c) <? 253)) eqn:E.
  - apply andb_true_iff in E as [E1 E2]. rewrite Z.ltb_antisym, u16_range_test in E2 by lia.
    apply negb_true_iff, orb_false_iff in E2 as [E2 E3].
    apply Z.leb_le in E1. apply Z.ltb_ge in E2. apply Z.leb_gt in E3.
    replace (exp - 156 - c) with (emin binary32 + (exp - c) - 7) by (cbn; lia).
    rewrite <- pack_ref_fround by (cbn; lia).
    assert (sig * 2 ^ c = sig * 2 ^ (c - 7) * 2 ^ 7) as Es
      by (rewrite <- Z.mul_assoc, <- Z.pow_add_r by lia; do 2 f_equal; lia).
    rewrite pack_ref_exact; [ |cbn; lia..|by rewrite Es, Z.mod_mul].
    unfold deliver. cbn [fst snd]. rewrite Es, Z.div_mul, raised_0 by lia.
    unfold z2b. rewrite (proj2 (Z.eqb_neq sig 0)) by lia. cbn [negb].
    rewrite shl_mul by lia. rewrite (wrap_small 64 (_ * _)), packToF32UI_eq by lia.
    rewrite mret_run, wrap_small; cbn; destruct sign; cbn [Z.b2z]; f_equal; lia.
  - rewrite roundPackToF32_spec by (done || lia). do 2 f_equal; lia.
Qed.

(** ** Exact values

    Every finite number is an integer multiple of 2^-149. *)

Definition finite32 (a : Z) : Prop := expF32UI a <> 0xFF.
Definition is_nan32 (a : Z) : Prop := expF32UI a = 0xFF /\ fracF32UI a <> 0.
Definition is_inf32 (a : Z) : Prop := expF32UI a = 0xFF /\ fracF32UI a = 0.

Definition mag32 (a : Z) : Z :=
  if expF32UI a =? 0 then fracF32UI a
  else (2 ^ 23 + fracF32UI a) * 2 ^ (expF32UI a - 1).

Definition val32 (a : Z) : Z := if signF32UI a then - mag32 a else mag32 a.

(** The correctly rounded result for the exact value [v * 2^-149]; [zneg] is
    the sign of a zero result. *)
Definition round32 (v : Z) (zneg : bool) (s : fpstate) : Z * fpstate :=
  let neg := if v =? 0 then zneg else v <? 0 in
  deliver 32 neg (fround binary32 (mode s) neg (Z.abs v) 1 (-149)) s.

(** The significand with [n] guard bits, doubled for subnormals so that the
    exponent field alone gives the scale. *)
Lemma mag32_sig a n :
  0 <= n ->
  mag32 a * 2 ^ (n + 1)
  = (if expF32UI a =? 0 then fracF32UI a * 2 ^ (n + 1) else (2 ^ 23 + fracF32UI a) * 2 ^ n)
    * 2 ^ expF32UI a.
Proof.
  intros Hn. unfold mag32. destruct (Z.eqb_spec (expF32UI a) 0) as [->|He]; [lia|].
  assert (1 <= expF32UI a) by (rewrite expF32UI_eq in *; zdm).
  rewrite (pow2_split (expF32UI a) 1), (Z.pow_add_r 2 n 1) by lia. lia.
Qed.

Lemma exp_range a : 0 <= expF32UI a <= 255.
Proof. rewrite expF32UI_eq. zdm. Qed.

Lemma frac_range a : 0 <= fracF32UI a < 2 ^ 23.
Proof. rewrite fracF32UI_eq. zdm. Qed.

Lemma mag32_nonneg a : 0 <= mag32 a.
Proof.
  unfold mag32. pose proof (exp_range a). pose proof (frac_range a). case_bool; [lia|].
  pose proof (pow2_pos (expF32UI a - 1) ltac:(lia)). nia.
Qed.

(** ** Addition and subtraction are correctly rounded *)

Lemma fround32_small r neg n :
  0 <= n < 2 ^ 24 -> fround binary32 r neg n 1 (-149) = (n, Flags false false false).
Proof.
  intros. apply (fround_small binary32); [done|done|].
  change (inf_mag binary32) with (255 * 2 ^ 23). lia.
Qed.

(** The end of [softfloat_addMagsF32]: the larger significand plus the shifted
    smaller one, normalized and rounded. *)
Lemma addMags_round sign expZ big x d s :
  tininess_after s -> 1 <= expZ <= 254 -> 1 <= d <= 254 ->
  2 ^ 29 <= big < 2 ^ 30 -> big mod 2 = 0 -> 0 <= x < 2 ^ 30 ->
  (if big + jam x (2 ^ d) <? 0x40000000
   then softfloat_roundPackToF32 sign (expZ - 1) (u64 ((big + jam x (2 ^ d)) * 2 ^ 1))
   else softfloat_roundPackToF32 sign expZ (big + jam x (2 ^ d))) s
  = deliver 32 sign
      (fround binary32 (mode s) sign (big * 2 ^ d + x) 1 (expZ - 156 - d)) s.
Proof.
  intros Ht He Hd Hb Hev Hx.
  pose proof (jam_shift_range x d 29 ltac:(lia) ltac:(lia) ltac:(lia)).
  rewrite <- fround_align_add by (cbn; lia).
  set (sigZ := big + jam x (2 ^ d)) in *.
  destruct (Z.ltb_spec sigZ 0x40000000).
  - rewrite (wrap_small 64 (sigZ * _)) by lia.
    rewrite roundPackToF32_spec by (done || lia).
    replace (expZ - 1 - 156) with (expZ - 156 - 1) by lia.
    by rewrite fround_scale by lia.
  - by rewrite roundPackToF32_spec by (done || lia).
Qed.

(** The operands' significands, as the code scales them. *)
Definition sig_add (a : Z) : Z :=
  if expF32UI a =? 0 then fracF32UI a * 2 ^ 7 else (2 ^ 23 + fracF32UI a) * 2 ^ 6.

Lemma mag32_sig_add a : mag32 a * 2 ^ 7 = sig_add a * 2 ^ expF32UI a.
Proof. apply (mag32_sig a 6). lia. Qed.

Lemma sig_add_range a : 0 <= sig_add a < 2 ^ 30.
Proof. unfold sig_add. pose proof (frac_range a). case_bool; lia. Qed.

(** The shift of a fraction by [n], with the hidden bit [h] or, for a
    subnormal, with one more shift: the code's
    [sig += exp ? h : sig]. *)
Lemma hidden_or_double a n h :
  0 <= n <= 8 -> h = 2 ^ (23 + n) ->
  u64 (u64 (fracF32UI a .<< n)
       + (if z2b (expF32UI a) then h else u64 (fracF32UI a .<< n)))
  = if expF32UI a =? 0 then fracF32UI a * 2 ^ (n + 1) else (2 ^ 23 + fracF32UI a) * 2 ^ n.
Proof.
  intros Hn ->. pose proof (frac_range a). pose proof (pow2_le n 8 ltac:(lia)).
  pose proof (pow2_pos n ltac:(lia)). rewrite shl_mul by lia.
  rewrite (wrap_small 64 (fracF32UI a * 2 ^ n)) by nia.
  rewrite !Z.pow_add_r by lia. unfold z2b. case_bool; cbn [negb]; rewrite wrap_small; nia.
Qed.

Lemma addMags_value a b d :
  0 <= d -> expF32UI b + d = expF32UI a -> 0 < sig_add a ->
  forall r neg,
  fround binary32 r neg (sig_add a * 2 ^ d + sig_add b) 1 (expF32UI a - 156 - d)
  = fround binary32 r neg (mag32 a + mag32 b) 1 (-149).
Proof.
  intros Hd He Hs r neg. pose proof (exp_range b). pose proof (sig_add_range b).
  pose proof (pow2_pos d Hd). pose proof (mag32_sig_add a) as Ea. pose proof (mag32_sig_add b) as Eb.
  pose proof (pow2_pos (expF32UI b) ltac:(lia)).
  rewrite <- He, Z.pow_add_r in Ea by lia.
  apply fround_same_value with (k := -156); [nia| |lia..|].
  - pose proof (mag32_nonneg b). nia.
  - replace (expF32UI a - 156 - d - -156) with (expF32UI b) by lia. 
    change (2 ^ (-149 - -156)) with (2 ^ 7). nia.
Qed.

(** Two subnormals: the sum of the bit patterns, exactly. *)
Lemma addMags_subnormals a b sign s :
  in_range 32 a -> in_range 32 b -> expF32UI a = 0 -> expF32UI b = 0 ->
  (mret (u32 (packToF32UI sign 0 (u64 (a + b) .& 0x7FFFFFFF))) : FP Z) s
  = deliver 32 sign (fround binary32 (mode s) sign (mag32 a + mag32 b) 1 (-149)) s.
Proof.
  intros Ha Hb Ea Eb. unfold in_range in *.
  pose proof (frac_range a). pose proof (frac_range b).
  assert (mag32 a = fracF32UI a) as -> by (unfold mag32; by rewrite Ea).
  assert (mag32 b = fracF32UI b) as -> by (unfold mag32; by rewrite Eb).
  rewrite fround32_small by lia.
  change 0x7FFFFFFF with (2 ^ 31 - 1). rewrite land_mask by lia.
  assert (u64 (a + b) mod 2 ^ 31 = fracF32UI a + fracF32UI b) as ->.
  { change (wrap 31 (u64 (a + b)) = fracF32UI a + fracF32UI b).
    rewrite wrap_narrow, !fracF32UI_eq by lia. rewrite expF32UI_eq in Ea, Eb. unfold wrap. zdm. }
  rewrite packToF32UI_eq, mret_run by lia. unfold deliver. cbn [fst snd].
  rewrite raised_0, wrap_small; destruct sign; cbn [Z.b2z]; f_equal; lia.
Qed.

Lemma sig_add_normal a : expF32UI a <> 0 -> sig_add a = (2 ^ 23 + fracF32UI a) * 2 ^ 6.
Proof. intros. unfold sig_add. by rewrite (proj2 (Z.eqb_neq _ _)) by done. Qed.

(** Equal exponents, normal operands. *)
Lemma addMags_equal a b sign s :
  tininess_after s -> expF32UI a = expF32UI b -> expF32UI a <> 0 ->
  softfloat_roundPackToF32 sign (expF32UI a)
    (u64 (u64 (0x40000000 + fracF32UI a * 2 ^ 6) + fracF32UI b * 2 ^ 6)) s
  = deliver 32 sign (fround binary32 (mode s) sign (mag32 a + mag32 b) 1 (-149)) s.
Proof.
  intros Ht Hd Ea. pose proof (exp_range a). pose proof (frac_range a). pose proof (frac_range b).
  unwrap. rewrite roundPackToF32_spec by (done || lia).
  rewrite <- (addMags_value a b 0) by (rewrite ?sig_add_normal; lia).
  rewrite !sig_add_normal by lia. deliver_eq.
Qed.

(** The operand with the larger exponent, plus the other one shifted. *)
Lemma addMags_aligned a b sign s :
  tininess_after s -> expF32UI b < expF32UI a <= 254 ->
  let J := jam (sig_add b) (2 ^ (expF32UI a - expF32UI b)) in
  (if (2 ^ 23 + fracF32UI a) * 2 ^ 6 + J <? 0x40000000
   then softfloat_roundPackToF32 sign (expF32UI a - 1)
          (u64 (((2 ^ 23 + fracF32UI a) * 2 ^ 6 + J) .<< 1))
   else softfloat_roundPackToF32 sign (expF32UI a) ((2 ^ 23 + fracF32UI a) * 2 ^ 6 + J)) s
  = deliver 32 sign (fround binary32 (mode s) sign (mag32 a + mag32 b) 1 (-149)) s.
Proof.
  intros Ht He J. pose proof (exp_range a). pose proof (exp_range b).
  pose proof (frac_range a). pose proof (sig_add_range a). pose proof (sig_add_range b).
  pose proof (sig_add_normal a ltac:(lia)) as Ea. rewrite <- Ea.
  assert (sig_add a mod 2 = 0) by (rewrite Ea; zdm).
  rewrite shl_mul by lia. subst J. rewrite addMags_round by (done || lia).
  by rewrite addMags_value by lia.
Qed.

Lemma addMagsF32_spec a b sign s :
  tininess_after s -> in_range 32 a -> in_range 32 b -> finite32 a -> finite32 b ->
  softfloat_addMagsF32 a b sign s
  = deliver 32 sign (fround binary32 (mode s) sign (mag32 a + mag32 b) 1 (-149)) s.
Proof.
  intros Ht Ha Hb Hfa Hfb. unfold finite32 in *.
  pose proof (exp_range a). pose proof (exp_range b).
  pose proof (frac_range a). pose proof (frac_range b).
  pose proof (sig_add_range a). pose proof (sig_add_range b).
  unfold softfloat_addMagsF32. rewrite !hidden_or_double by lia.
  rewrite (shl_mul (fracF32UI a)), (shl_mul (fracF32UI b)) by lia.
  rewrite (wrap_small 64 (fracF32UI a * 2 ^ 6)), (wrap_small 64 (fracF32UI b * 2 ^ 6)) by lia.
  change (6 + 1) with 7. fold (sig_add a) (sig_add b).
  unfold z2b at 1. rewrite negb_involutive.
  rewrite (proj2 (Z.eqb_neq (expF32UI a) 255) Hfa), (proj2 (Z.eqb_neq (expF32UI b) 255) Hfb).
  assert (forall J x, 0 <= x < 2 ^ 23 -> 0 <= J <= 2 ^ 29 ->
    u64 (u64 (0x20000000 + x * 2 ^ 6) + J) = (2 ^ 23 + x) * 2 ^ 6 + J) as Hsum1
    by (intros; unwrap; lia).
  assert (forall J x, 0 <= x < 2 ^ 23 -> 0 <= J <= 2 ^ 29 ->
    u64 (u64 (0x20000000 + J) + x * 2 ^ 6) = (2 ^ 23 + x) * 2 ^ 6 + J) as Hsum2
    by (intros; unwrap; lia).
  destruct (Z.eqb_spec (expF32UI a - expF32UI b) 0) as [Hd|Hd].
  { unfold z2b. rewrite negb_involutive. destruct (Z.eqb_spec (expF32UI a) 0) as [Ea|Ea].
    - apply addMags_subnormals; done || lia.
    - apply addMags_equal; done || lia. }
  destruct (Z.ltb_spec (expF32UI a - expF32UI b) 0).
  - pose proof (jam_shift_range (sig_add a) (- (expF32UI a - expF32UI b)) 29
                  ltac:(lia) ltac:(lia) ltac:(lia)).
    rewrite shiftRightJam32_jam, Hsum2 by lia.
    replace (- (expF32UI a - expF32UI b)) with (expF32UI b - expF32UI a) by lia.
    rewrite (Z.add_comm (mag32 a)). apply (addMags_aligned b a); done || lia.
  - pose proof (jam_shift_range (sig_add b) (expF32UI a - expF32UI b) 29
                  ltac:(lia) ltac:(lia) ltac:(lia)).
    rewrite shiftRightJam32_jam, Hsum1 by lia.
    apply (addMags_aligned a b); done || lia.
Qed.

(** The significands as [softfloat_subMagsF32] scales them. *)
Definition sig_sub (a : Z) : Z := 2 * sig_add a.

Lemma sig_sub_eq a :
  sig_sub a = if expF32UI a =? 0 then fracF32UI a * 2 ^ 8 else (2 ^ 23 + fracF32UI a) * 2 ^ 7.
Proof. unfold sig_sub, sig_add. case_bool; lia. Qed.

(** The larger significand minus the shifted smaller one, normalized. *)
Lemma subMags_round sign a b d s :
  tininess_after s -> expF32UI a <> 0 -> 1 <= d -> expF32UI b + d = expF32UI a ->
  mag32 b < mag32 a /\
  softfloat_normRoundPackToF32 sign (expF32UI a - 1)
    (u64 (sig_sub a - jam (sig_sub b) (2 ^ d))) s
  = deliver 32 sign (fround binary32 (mode s) sign (mag32 a - mag32 b) 1 (-149)) s.
Proof.
  intros Ht Ha Hd He.
  pose proof (exp_range a). pose proof (exp_range b). pose proof (sig_add_range b).
  pose proof (mag32_sig_add a) as Ea. pose proof (mag32_sig_add b) as Eb.
  rewrite <- He, Z.pow_add_r in Ea by lia.
  pose proof (pow2_pos (expF32UI b) ltac:(lia)). pose proof (pow2_le 1 d ltac:(lia)).
  change (2 ^ 1) with 2 in *.
  assert (2 ^ 29 <= sig_add a < 2 ^ 30) as Hsa.
  { split; [|apply sig_add_range]. pose proof (frac_range a).
    unfold sig_add. rewrite (proj2 (Z.eqb_neq _ _)) by done. lia. }
  unfold sig_sub.
  pose proof (jam_shift_range (2 * sig_add b) d 30 ltac:(lia) ltac:(lia) ltac:(lia)) as Hj.
  assert ((2 * sig_add b) mod 2 ^ d = 0
          \/ 2 ^ 25 <= 2 * sig_add a - jam (2 * sig_add b) (2 ^ d)) as Hc.
  { destruct (decide (d = 1)) as [->|]; [left; rewrite Z.mul_comm; by apply Z.mod_mul|right].
    pose proof (jam_shift_range (2 * sig_add b) (d - 1 + 1) 29) as Hj2.
    replace (d - 1 + 1) with d in Hj2 by lia.
    enough (jam (2 * sig_add b) (2 ^ d) <= 2 ^ 29 + 1) by lia.
    pose proof (jam_bounds (2 * sig_add b) (2 ^ d) ltac:(lia)).
    enough (2 * sig_add b / 2 ^ d < 2 ^ 29) by lia.
    apply Z.div_lt_upper_bound; [lia|]. pose proof (pow2_le 2 d ltac:(lia)).
    change (2 ^ 2) with 4 in *. nia. }
  assert (jam (2 * sig_add b) (2 ^ d) < 2 * sig_add a) as Hlt.
  { destruct (decide (d = 1)) as [->|]; [|destruct Hc as [Hc|Hc]; [|lia]].
    - rewrite jam_exact by (rewrite Z.mul_comm; by apply Z.mod_mul). zdm.
    - rewrite jam_exact by done. apply Z.div_lt_upper_bound; nia. }
  assert (sig_add b < sig_add a * 2 ^ d) by nia.
  split; [nia|].
  rewrite wrap_small, normRoundPackToF32_spec by (done || lia).
  assert (2 * sig_add a mod 2 = 0) by (rewrite Z.mul_comm; by apply Z.mod_mul).
  rewrite fround_align_sub by (done || lia || exact Hc).
  f_equal. apply fround_same_value with (k := -157); [nia|nia|lia..|].
  replace (expF32UI a - 1 - 156 - d - -157) with (expF32UI b) by lia.
  change (2 ^ (-149 - -157)) with (2 ^ 8). nia.
Qed.

(** Equal exponents: the difference of the fractions is exact. *)
Lemma subMags_equal sign a b s :
  tininess_after s -> expF32UI a = expF32UI b -> fracF32UI b < fracF32UI a ->
  mag32 b < mag32 a /\
  softfloat_normRoundPackToF32 sign (Z.max 1 (expF32UI a) - 1)
    (u64 (u64 (fracF32UI a .<< 7) - u64 (fracF32UI b .<< 7))) s
  = deliver 32 sign (fround binary32 (mode s) sign (mag32 a - mag32 b) 1 (-149)) s.
Proof.
  intros Ht He Hf. pose proof (exp_range a). pose proof (frac_range a). pose proof (frac_range b).
  assert (mag32 a - mag32 b = (fracF32UI a - fracF32UI b) * 2 ^ (Z.max 1 (expF32UI a) - 1)) as E.
  { unfold mag32. rewrite <- He. destruct (Z.eqb_spec (expF32UI a) 0) as [->|].
    { change (Z.max 1 0 - 1) with 0. lia. }
    rewrite Z.max_r by lia. lia. }
  pose proof (pow2_pos (Z.max 1 (expF32UI a) - 1) ltac:(lia)).
  split; [nia|]. rewrite !shl_mul by lia. unwrap.
  replace (fracF32UI a * 2 ^ 7 - fracF32UI b * 2 ^ 7)
    with ((fracF32UI a - fracF32UI b) * 2 ^ 7) by lia.
  rewrite normRoundPackToF32_spec by (done || lia). f_equal. rewrite E. apply fround_same_value with (k := -156); [nia|nia|lia..|].
  rewrite <- !Z.mul_assoc, <- !Z.pow_add_r by lia. do 2 f_equal. lia.
Qed.

Definition sub_result (sign : bool) (a b : Z) (s : fpstate) : Z * fpstate :=
  if mag32 a =? mag32 b then (b2z (zero_sign s) * 2 ^ 31, s)
  else
    let neg := if mag32 b <? mag32 a then sign else negb sign in
    deliver 32 neg (fround binary32 (mode s) neg (Z.abs (mag32 a - mag32 b)) 1 (-149)) s.

Lemma sub_result_gt sign a b s :
  mag32 b < mag32 a ->
  sub_result sign a b s
  = deliver 32 sign (fround binary32 (mode s) sign (mag32 a - mag32 b) 1 (-149)) s.
Proof.
  intros H. unfold sub_result.
  rewrite (proj2 (Z.eqb_neq _ _)), (proj2 (Z.ltb_lt _ _)), Z.abs_eq by lia. done.
Qed.

Lemma sub_result_lt sign a b s :
  mag32 a < mag32 b ->
  sub_result sign a b s
  = deliver 32 (negb sign)
      (fround binary32 (mode s) (negb sign) (mag32 b - mag32 a) 1 (-149)) s.
Proof.
  intros H. unfold sub_result.
  rewrite (proj2 (Z.eqb_neq _ _)), (proj2 (Z.ltb_ge _ _)) by lia.
  replace (Z.abs (mag32 a - mag32 b)) with (mag32 b - mag32 a) by lia. done.
Qed.

Lemma shl7_ltb x y :
  0 <= x < 2 ^ 23 -> 0 <= y < 2 ^ 23 -> (u64 (x .<< 7) <? u64 (y .<< 7)) = (x <? y).
Proof. intros. rewrite !shl_mul by lia. unwrap. case_bool; lia. Qed.

Lemma subMagsF32_spec a b sign s :
  tininess_after s -> finite32 a -> finite32 b ->
  softfloat_subMagsF32 a b sign s = sub_result sign a b s.
Proof.
  intros Ht Hfa Hfb. unfold finite32 in *.
  pose proof (exp_range a). pose proof (exp_range b).
  pose proof (frac_range a). pose proof (frac_range b).
  pose proof (sig_add_range a). pose proof (sig_add_range b).
  assert (forall x, expF32UI x <> 0 ->
            u64 (fracF32UI x .<< 7) .| 0x40000000 = sig_sub x) as Hor.
  { intros x Hx. pose proof (frac_range x). rewrite sig_sub_eq, (proj2 (Z.eqb_neq _ _)) by done.
    rewrite shl_mul, wrap_small, Z.lor_comm, (lor_add _ _ 30) by (done || lia). lia. }
  unfold softfloat_subMagsF32. rewrite !hidden_or_double by lia. change (7 + 1) with 8.
  rewrite <- !sig_sub_eq.
  rewrite (proj2 (Z.eqb_neq (expF32UI a) 255) Hfa), (proj2 (Z.eqb_neq (expF32UI b) 255) Hfb).
  destruct (Z.ltb_spec 0 (expF32UI a - expF32UI b)).
  - destruct (subMags_round sign a b (expF32UI a - expF32UI b) s) as [? Hr]; [done|lia..|].
    rewrite Hor, shiftRightJam32_jam by (unfold sig_sub; lia). rewrite sub_result_gt by done.
    exact Hr.
  - destruct (Z.ltb_spec (expF32UI a - expF32UI b) 0).
    + destruct (subMags_round (negb sign) b a (- (expF32UI a - expF32UI b)) s)
        as [? Hr]; [done|lia..|].
      rewrite Hor, shiftRightJam32_jam by (unfold sig_sub; lia). rewrite sub_result_lt by done.
      exact Hr.
    + assert (expF32UI a = expF32UI b) as He by lia.
      assert (forall y z, (if negb (z2b (expF32UI a)) then (1, 1) else (y, z))
        = (if negb (z2b (expF32UI a)) then 1 else y, if negb (z2b (expF32UI a)) then 1 else z))
        as Hp by (intros; by destruct (z2b _)).
      rewrite Hp, <- He. clear Hp.
      assert ((if negb (z2b (expF32UI a)) then 1 else expF32UI a) = Z.max 1 (expF32UI a)) as ->
        by (unfold z2b; case_bool; cbn; lia).
      rewrite !shl7_ltb by done.
      destruct (Z.ltb_spec (fracF32UI b) (fracF32UI a)).
      { destruct (subMags_equal sign a b s) as [? Hr]; [done..|].
        rewrite sub_result_gt by done. exact Hr. }
      destruct (Z.ltb_spec (fracF32UI a) (fracF32UI b)).
      { destruct (subMags_equal (negb sign) b a s) as [? Hr]; [done..|].
        rewrite sub_result_lt, He by done. exact Hr. }
      assert (mag32 a = mag32 b) as Em
        by (unfold mag32; rewrite He; replace (fracF32UI a) with (fracF32UI b) by lia; done).
      autorewrite with fprun. unfold sub_result. rewrite Em, Z.eqb_refl, zero_sign_eq.
      f_equal. rewrite packToF32UI_eq, wrap_small; destruct (zero_sign s); cbn [Z.b2z]; lia.
Qed.

(** ** The whole of [f32_add] and [f32_sub], special operands included *)

Definition nan32 (a : Z) : bool := (expF32UI a =? 0xFF) && negb (fracF32UI a =? 0).
Definition inf32 (a : Z) : bool := (expF32UI a =? 0xFF) && (fracF32UI a =? 0).

(** A signaling NaN has the leading bit of its fraction clear. *)
Definition snan32 (a : Z) : bool := nan32 a && (fracF32UI a <? 2 ^ 22).

Definition neg32 (a : Z) : Z := if signF32UI a then a - 2 ^ 31 else a + 2 ^ 31.

Definition nan_result32 (a b : Z) (s : fpstate) : Z * fpstate :=
  (defaultNaNF32UI,
   raised (if snan32 a || snan32 b then softfloat_flag_invalid else 0) s).

Definition invalid_result32 (s : fpstate) : Z * fpstate :=
  (defaultNaNF32UI, raised softfloat_flag_invalid s).

(** Addition as the standard specifies it. *)
Definition add32_ref (a b : Z) (s : fpstate) : Z * fpstate :=
  if nan32 a || nan32 b then nan_result32 a b s
  else if inf32 a && inf32 b && xorb (signF32UI a) (signF32UI b) then invalid_result32 s
  else if inf32 a then (a, s)
  else if inf32 b then (b, s)
  else round32 (val32 a + val32 b)
         (if eqb (signF32UI a) (signF32UI b) then signF32UI a else zero_sign s) s.

Lemma isSigNaNF32UI_spec a : softfloat_isSigNaNF32UI a = snan32 a.
Proof.
  unfold softfloat_isSigNaNF32UI, snan32, nan32, z2b.
  change 0x7FC00000 with ((2 ^ 9 - 1) * 2 ^ 22). change 0x003FFFFF with (2 ^ 22 - 1).
  rewrite land_field, land_mask, expF32UI_eq, fracF32UI_eq by lia.
  apply eq_true_iff_eq. rewrite !andb_true_iff, !negb_true_iff, !Z.eqb_eq, !Z.eqb_neq, Z.ltb_lt.
  split; [intros [? ?]|intros [[? ?] ?]]; repeat split; zdm.
Qed.

Lemma propagateNaNF32UI_spec a b s : softfloat_propagateNaNF32UI a b s = nan_result32 a b s.
Proof.
  unfold softfloat_propagateNaNF32UI. autorewrite with fprun. by rewrite !isSigNaNF32UI_spec.
Qed.

(** A bit pattern is its three fields. *)
Lemma fields32 a :
  in_range 32 a -> a = b2z (signF32UI a) * 2 ^ 31 + expF32UI a * 2 ^ 23 + fracF32UI a.
Proof.
  intros Ha. rewrite signF32UI_eq, expF32UI_eq, fracF32UI_eq by done. unfold in_range in *.
  case_bool; cbn [Z.b2z]; zdm.
Qed.

Lemma neg32_fields a :
  in_range 32 a ->
  in_range 32 (neg32 a) /\ signF32UI (neg32 a) = negb (signF32UI a)
  /\ expF32UI (neg32 a) = expF32UI a /\ fracF32UI (neg32 a) = fracF32UI a.
Proof.
  intros Ha. unfold neg32. assert (in_range 32 (if signF32UI a then a - 2 ^ 31 else a + 2 ^ 31)) as Hn.
  { rewrite signF32UI_eq by done. unfold in_range in *. case_bool; lia. }
  rewrite (signF32UI_eq _ Hn), (signF32UI_eq _ Ha), !expF32UI_eq, !fracF32UI_eq.
  rewrite signF32UI_eq in Hn by done. unfold in_range in *.
  repeat split; case_bool; cbn; auto; lia || zdm.
Qed.

Lemma sub_result_round32 a b s :
  eqb (signF32UI a) (signF32UI b) = false ->
  sub_result (signF32UI a) a b s = round32 (val32 a + val32 b) (zero_sign s) s.
Proof.
  intros Hs. unfold sub_result, round32, val32.
  assert (signF32UI b = negb (signF32UI a)) as -> by (destruct (signF32UI a), (signF32UI b); done).
  destruct (Z.eqb_spec (mag32 a) (mag32 b)) as [->|Hne].
  - assert ((if signF32UI a then - mag32 b else mag32 b)
            + (if negb (signF32UI a) then - mag32 b else mag32 b) = 0) as ->
      by (destruct (signF32UI a); cbn; lia).
    cbn [Z.eqb]. rewrite fround32_small by (cbn; lia). unfold deliver. cbn [fst snd].
    rewrite raised_0. f_equal. change (Z.abs 0) with 0. change (32 - 1) with 31. lia.
  - rewrite (proj2 (Z.eqb_neq _ 0)) by (destruct (signF32UI a); cbn; lia).
    assert (((if signF32UI a then - mag32 a else mag32 a)
             + (if negb (signF32UI a) then - mag32 b else mag32 b) <? 0)
            = (if mag32 b <? mag32 a then signF32UI a else negb (signF32UI a))) as ->
      by (destruct (signF32UI a); cbn [negb]; case_bool; lia || done).
    assert (Z.abs ((if signF32UI a then - mag32 a else mag32 a)
             + (if negb (signF32UI a) then - mag32 b else mag32 b))
            = Z.abs (mag32 a - mag32 b)) as -> by (destruct (signF32UI a); cbn [negb]; lia).
    done.
Qed.

(** Special operands of the two magnitude routines: the NaN and infinity
    branches, before any arithmetic. *)
Lemma frac_shifted a n :
  0 <= n <= 8 -> z2b (u64 (fracF32UI a .<< n)) = negb (fracF32UI a =? 0).
Proof.
  intros. pose proof (frac_range a). pose proof (pow2_le n 8). pose proof (pow2_pos n).
  rewrite shl_mul, wrap_small by nia. unfold z2b. case_bool; nia.
Qed.

Lemma inf_pattern32 sign b :
  in_range 32 b -> signF32UI b = sign -> inf32 b = true ->
  u32 (packToF32UI sign 0xFF 0) = b.
Proof.
  intros Hb <- Hi. unfold inf32 in Hi. apply andb_true_iff in Hi as [Hi1 Hi2].
  apply Z.eqb_eq in Hi1, Hi2. rewrite (fields32 b Hb) at 2. rewrite Hi1, Hi2.
  rewrite packToF32UI_eq by lia. apply wrap_small. destruct (signF32UI b); cbn; lia.
Qed.

Lemma special_cases32 a :
  expF32UI a = 0xFF -> nan32 a = negb (fracF32UI a =? 0) /\ inf32 a = (fracF32UI a =? 0).
Proof. intros E. unfold nan32, inf32. by rewrite E. Qed.

Lemma not_special32 a : expF32UI a <> 0xFF -> nan32 a = false /\ inf32 a = false.
Proof. intros E. unfold nan32, inf32. by rewrite (proj2 (Z.eqb_neq _ _)) by done. Qed.

(** Case analysis on which operand has the special exponent. *)
Ltac special32 a :=
  let H1 := fresh "Hnan" in let H2 := fresh "Hinf" in
  destruct (decide (expF32UI a = 0xFF)) as [?|?];
  [destruct (special_cases32 a) as [H1 H2]; [done|]
  |destruct (not_special32 a) as [H1 H2]; [done|]].

Ltac nan_done := cbn [negb orb andb]; rewrite ?propagateNaNF32UI_spec; done.

Lemma addMagsF32_special a b s :
  in_range 32 a -> in_range 32 b -> signF32UI a = signF32UI b ->
  expF32UI a = 0xFF \/ expF32UI b = 0xFF ->
  softfloat_addMagsF32 a b (signF32UI a) s
  = if nan32 a || nan32 b then nan_result32 a b s
    else if inf32 a then (a, s) else (b, s).
Proof.
  intros Ha Hb Hs Hx. pose proof (exp_range a). pose proof (exp_range b).
  unfold softfloat_addMagsF32. rewrite z2b_lor, !frac_shifted by lia.
  assert (u32 a = a) as -> by (by apply wrap_small).
  special32 a; special32 b; try tauto; rewrite Hnan, Hinf, Hnan0;
    unfold z2b at 1; rewrite negb_involutive.
  - replace (expF32UI a - expF32UI b) with 0 by lia. cbn [Z.eqb].
    rewrite (proj2 (Z.eqb_eq (expF32UI a) 255)) by done.
    destruct (fracF32UI a =? 0), (fracF32UI b =? 0); nan_done.
  - rewrite (proj2 (Z.eqb_neq _ 0)), (proj2 (Z.ltb_ge _ 0)) by lia.
    rewrite (proj2 (Z.eqb_eq (expF32UI a) 255)) by done.
    destruct (fracF32UI a =? 0); nan_done.
  - rewrite (proj2 (Z.eqb_neq _ 0)), (proj2 (Z.ltb_lt _ 0)) by lia.
    rewrite (proj2 (Z.eqb_eq (expF32UI b) 255)) by done.
    destruct (fracF32UI b =? 0) eqn:E; [|nan_done]. cbn [negb].
    rewrite (inf_pattern32 _ b) by done. done.
Qed.

Lemma subMagsF32_special a b s :
  in_range 32 a -> in_range 32 b -> expF32UI a = 0xFF \/ expF32UI b = 0xFF ->
  softfloat_subMagsF32 a b (signF32UI a) s
  = if nan32 a || nan32 b then nan_result32 a b s
    else if inf32 a && inf32 b then invalid_result32 s
    else if inf32 a then (a, s)
    else (b2z (negb (signF32UI a)) * 2 ^ 31 + inf_mag binary32, s).
Proof.
  intros Ha Hb Hx. pose proof (exp_range a). pose proof (exp_range b).
  unfold softfloat_subMagsF32. rewrite z2b_lor, !frac_shifted by lia.
  assert (u32 a = a) as -> by (by apply wrap_small).
  special32 a; special32 b; try tauto; rewrite Hnan, Hinf, Hnan0, Hinf0.
  - replace (expF32UI a - expF32UI b) with 0 by lia. cbn [Z.ltb Z.compare].
    rewrite (proj2 (Z.eqb_eq (expF32UI a) 255)) by done.
    destruct (fracF32UI a =? 0), (fracF32UI b =? 0); nan_done.
  - rewrite (proj2 (Z.ltb_lt 0 _)) by lia.
    rewrite (proj2 (Z.eqb_eq (expF32UI a) 255)) by done.
    destruct (fracF32UI a =? 0); nan_done.
  - rewrite (proj2 (Z.ltb_ge 0 _)), (proj2 (Z.ltb_lt _ 0)) by lia.
    rewrite (proj2 (Z.eqb_eq (expF32UI b) 255)) by done.
    destruct (fracF32UI b =? 0) eqn:E; [|nan_done]. cbn [negb].
    rewrite packToF32UI_eq by lia. by destruct (signF32UI a).
Qed.

Lemma add_result_round32 a b s :
  signF32UI a = signF32UI b ->
  deliver 32 (signF32UI a)
    (fround binary32 (mode s) (signF32UI a) (mag32 a + mag32 b) 1 (-149)) s
  = round32 (val32 a + val32 b) (signF32UI a) s.
Proof.
  intros Hs. unfold round32, val32. rewrite <- Hs.
  pose proof (mag32_nonneg a). pose proof (mag32_nonneg b).
  assert (Z.abs ((if signF32UI a then - mag32 a else mag32 a)
                 + (if signF32UI a then - mag32 b else mag32 b)) = mag32 a + mag32 b) as ->
    by (destruct (signF32UI a); lia).
  destruct (Z.eqb_spec ((if signF32UI a then - mag32 a else mag32 a)
                 + (if signF32UI a then - mag32 b else mag32 b)) 0) as [E|E]; [done|].
  by replace ((_ + _ <? 0)) with (signF32UI a)
    by (destruct (signF32UI a); case_bool; lia || done).
Qed.

(** The two magnitude routines, chosen by the signs as [f32_add] does. *)
Lemma add_same_sign32 a b s :
  tininess_after s -> in_range 32 a -> in_range 32 b -> signF32UI a = signF32UI b ->
  softfloat_addMagsF32 a b (signF32UI a) s = add32_ref a b s.
Proof.
  intros Ht Ha Hb Hs. unfold add32_ref. rewrite <- Hs, xorb_nilpotent, eqb_reflx, andb_false_r.
  destruct (decide (finite32 a /\ finite32 b)) as [[Fa Fb]|Hf].
  - destruct (not_special32 a Fa) as [-> ->], (not_special32 b Fb) as [-> ->]. cbn [orb].
    rewrite addMagsF32_spec, add_result_round32 by done. done.
  - rewrite addMagsF32_special by (done || unfold finite32 in *; lia).
    destruct (nan32 a || nan32 b) eqn:En, (inf32 a) eqn:Ei; try done.
    destruct (inf32 b) eqn:Eb; [done|]. exfalso. apply Hf. unfold finite32.
    apply orb_false_iff in En as [En1 En2].
    split; intros E; destruct (special_cases32 _ E) as [Hn Hi];
      rewrite Hn, ?Hi in *; by destruct (_ =? 0).
Qed.

Lemma add_opposite_sign32 a b s :
  tininess_after s -> in_range 32 a -> in_range 32 b ->
  signF32UI b = negb (signF32UI a) ->
  softfloat_subMagsF32 a b (signF32UI a) s = add32_ref a b s.
Proof.
  intros Ht Ha Hb Hs. unfold add32_ref. rewrite Hs.
  assert (xorb (signF32UI a) (negb (signF32UI a)) = true) as -> by (by destruct (signF32UI a)).
  assert (eqb (signF32UI a) (negb (signF32UI a)) = false) as -> by (by destruct (signF32UI a)).
  rewrite andb_true_r.
  destruct (decide (finite32 a /\ finite32 b)) as [[Fa Fb]|Hf].
  - destruct (not_special32 a Fa) as [-> ->], (not_special32 b Fb) as [-> ->]. cbn [orb andb].
    rewrite subMagsF32_spec by done. apply sub_result_round32.
    rewrite Hs. by destruct (signF32UI a).
  - rewrite subMagsF32_special by (done || unfold finite32 in *; lia).
    destruct (nan32 a || nan32 b) eqn:En; [done|]. destruct (inf32 a) eqn:Ei.
    { by destruct (inf32 b). }
    destruct (inf32 b) eqn:Eb; cbn [andb].
    + rewrite <- (inf_pattern32 (negb (signF32UI a)) b) by done.
      rewrite packToF32UI_eq, wrap_small
        by (destruct (signF32UI a); cbn [negb Z.b2z]; lia). f_equal.
      change (inf_mag binary32) with (255 * 2 ^ 23). lia.
    + exfalso. apply Hf. unfold finite32. apply orb_false_iff in En as [En1 En2].
      split; intros E; destruct (special_cases32 _ E) as [Hn Hi];
        rewrite Hn, ?Hi in *; by destruct (_ =? 0).
Qed.

(** f32_add returns the exact sum of its operands rounded in the current mode, with
    the flags of that rounding, and the NaN, infinity and signed-zero results IEEE 754
    prescribes. *)
Theorem f32_add_correct a b s :
  tininess_after s -> in_range 32 a -> in_range 32 b -> f32_add a b s = add32_ref a b s.
Proof.
  intros. unfold f32_add. destruct (eqb (signF32UI a) (signF32UI b)) eqn:E.
  - apply eqb_prop in E. by apply add_same_sign32.
  - apply add_opposite_sign32; [done..|]. by destruct (signF32UI a), (signF32UI b).
Qed.

Lemma f32_add_correct_witness :
  f32_add 0x3F800000 0x33800000 softfloat_init = add32_ref 0x3F800000 0x33800000 softfloat_init
  /\ f32_add 0x3F800000 0x33800000 softfloat_init = (0x3F800000, FpState 0 1 1).
Proof. split; [apply f32_add_correct; concrete|vm_compute; reflexivity]. Defined.

(** [f32_sub] is addition of the negated operand. *)
Lemma isSigNaNF32UI_neg b :
  in_range 32 b -> softfloat_isSigNaNF32UI (neg32 b) = softfloat_isSigNaNF32UI b.
Proof.
  intros Hb. destruct (neg32_fields b Hb) as (_ & _ & He & Hf).
  rewrite !isSigNaNF32UI_spec. unfold snan32, nan32. by rewrite He, Hf.
Qed.

Lemma subMagsF32_neg a b sign :
  in_range 32 b -> softfloat_subMagsF32 a (neg32 b) sign = softfloat_subMagsF32 a b sign.
Proof.
  intros Hb. destruct (neg32_fields b Hb) as (_ & _ & He & Hf).
  unfold softfloat_subMagsF32, softfloat_propagateNaNF32UI.
  by rewrite He, Hf, isSigNaNF32UI_neg.
Qed.

Lemma addMagsF32_neg a b sign :
  in_range 32 a -> in_range 32 b ->
  softfloat_addMagsF32 a (neg32 b) sign = softfloat_addMagsF32 a b sign.
Proof.
  intros Ha Hb. destruct (neg32_fields b Hb) as (Hr & _ & He & Hf).
  unfold softfloat_addMagsF32, softfloat_propagateNaNF32UI.
  rewrite He, Hf, isSigNaNF32UI_neg by done.
  assert (u64 (a + neg32 b) .& 0x7FFFFFFF = u64 (a + b) .& 0x7FFFFFFF) as ->; [|done].
  change 0x7FFFFFFF with (2 ^ 31 - 1). rewrite !land_mask by lia.
  change (wrap 31 (u64 (a + neg32 b)) = wrap 31 (u64 (a + b))).
  rewrite !wrap_narrow by lia. unfold wrap, neg32. destruct (signF32UI b).
  - replace (a + (b - 2 ^ 31)) with (a + b + (-1) * 2 ^ 31) by lia. by rewrite Z.mod_add.
  - replace (a + (b + 2 ^ 31)) with (a + b + 1 * 2 ^ 31) by lia. by rewrite Z.mod_add.
Qed.

(** f32_sub is f32_add of the first operand and the opposite of the second: its two
    paths through the magnitude routines compute the rounded exact difference. *)
Theorem f32_sub_correct a b s :
  tininess_after s -> in_range 32 a -> in_range 32 b ->
  f32_sub a b s = add32_ref a (neg32 b) s.
Proof.
  intros Ht Ha Hb. destruct (neg32_fields b Hb) as (Hr & Hs & _).
  unfold f32_sub. destruct (eqb (signF32UI a) (signF32UI b)) eqn:E.
  - apply eqb_prop in E. rewrite <- subMagsF32_neg by done.
    apply add_opposite_sign32; congruence || done.
  - rewrite <- addMagsF32_neg by done. apply add_same_sign32; [done..|].
    rewrite Hs. by destruct (signF32UI a), (signF32UI b).
Qed.

Lemma f32_sub_correct_witness :
  f32_sub 0x3F800000 0x3F800001 softfloat_init = add32_ref 0x3F800000 (neg32 0x3F800001) softfloat_init
  /\ f32_sub 0x3F800000 0x3F800001 softfloat_init = (0xB4000000, FpState 0 1 0).
Proof. split; [apply f32_sub_correct; concrete|vm_compute; reflexivity]. Defined.

(** ** Multiplication and division are correctly rounded *)

Definition zero32 (a : Z) : bool := (expF32UI a =? 0) && (fracF32UI a =? 0).

Definition inf_result32 (sign : bool) (s : fpstate) : Z * fpstate :=
  (b2z sign * 2 ^ 31 + inf_mag binary32, s).
Definition zero_result32 (sign : bool) (s : fpstate) : Z * fpstate := (b2z sign * 2 ^ 31, s).

Definition mul32_ref (a b : Z) (s : fpstate) : Z * fpstate :=
  let neg := xorb (signF32UI a) (signF32UI b) in
  if nan32 a || nan32 b then nan_result32 a b s
  else if inf32 a || inf32 b then
    if zero32 a || zero32 b then invalid_result32 s else inf_result32 neg s
  else deliver 32 neg (fround binary32 (mode s) neg (mag32 a * mag32 b) 1 (-298)) s.

(** The quotient [mag32 a / mag32 b], with a numerator scaled by 2^300, more
    than any denominator. *)
Definition div32_ref (a b : Z) (s : fpstate) : Z * fpstate :=
  let neg := xorb (signF32UI a) (signF32UI b) in
  if nan32 a || nan32 b then nan_result32 a b s
  else if inf32 a && inf32 b then invalid_result32 s
  else if inf32 a then inf_result32 neg s
  else if inf32 b then zero_result32 neg s
  else if zero32 b then
    if zero32 a then invalid_result32 s
    else inf_result32 neg (raised softfloat_flag_infinite s)
  else if zero32 a then zero_result32 neg s
  else deliver 32 neg
         (fround binary32 (mode s) neg (mag32 a * 2 ^ 300) (mag32 b) (-300)) s.

(** The operand with its hidden bit, subnormals normalized. *)
Definition norm_operand32 (a : Z) : Z * Z :=
  if negb (z2b (expF32UI a)) then softfloat_normSubnormalF32Sig (fracF32UI a)
  else (expF32UI a, fracF32UI a).

Lemma mag32_zero a : mag32 a = 0 <-> zero32 a = true.
Proof.
  unfold zero32, mag32. pose proof (frac_range a). pose proof (exp_range a).
  destruct (Z.eqb_spec (expF32UI a) 0) as [E|E]; cbn [andb].
  - by rewrite Z.eqb_eq.
  - pose proof (pow2_pos (expF32UI a - 1) ltac:(lia)). split; [nia|done].
Qed.

Lemma normSubnormalF32Sig_spec f :
  0 < f < 2 ^ 23 ->
  exists e, -22 <= e <= 0
    /\ softfloat_normSubnormalF32Sig f = (e, f * 2 ^ (1 - e))
    /\ 2 ^ 23 <= f * 2 ^ (1 - e) < 2 ^ 24.
Proof.
  intros Hf. unfold softfloat_normSubnormalF32Sig.
  rewrite countLeadingZeros32_spec, (proj2 (Z.eqb_neq _ _)) by lia.
  pose proof (Z.log2_nonneg f). pose proof (log2_lt f 23 ltac:(lia) ltac:(lia)).
  pose proof (Z.log2_spec f ltac:(lia)) as Hl. set (k := Z.log2 f) in *.
  exists (k - 22). replace (31 - k - 8) with (23 - k) by lia.
  replace (1 - (k - 22)) with (23 - k) by lia.
  assert (2 ^ 23 = 2 ^ k * 2 ^ (23 - k)) as E23 by (apply pow2_split; lia).
  assert (2 ^ 24 = 2 ^ Z.succ k * 2 ^ (23 - k)) as E24
    by (rewrite <- Z.pow_add_r by lia; f_equal; lia).
  pose proof (pow2_pos (23 - k) ltac:(lia)).
  rewrite shl_mul, wrap_small by (lia || nia). split; [lia|]. split; [f_equal; lia|nia].
Qed.

(** The hidden bit, already there or not. *)
Lemma hidden_bit_set32 m : 2 ^ 23 <= m < 2 ^ 24 -> (m .| 0x00800000) = m.
Proof.
  intros. replace m with (2 ^ 23 + (m - 2 ^ 23)) by lia.
  rewrite <- (lor_add (2 ^ 23) (m - 2 ^ 23) 23) by (done || lia).
  rewrite Z.lor_comm, Z.lor_assoc. by change (0x00800000 .| 2 ^ 23) with (2 ^ 23).
Qed.

Lemma norm_operand32_spec a e m :
  norm_operand32 a = (e, m) -> finite32 a -> zero32 a = false ->
  -22 <= e <= 254 /\ 2 ^ 23 <= (m .| 0x00800000) < 2 ^ 24
  /\ mag32 a * 2 ^ 23 = (m .| 0x00800000) * 2 ^ (e + 22).
Proof.
  unfold norm_operand32, zero32, finite32, z2b. intros Hn Hf Hz.
  pose proof (exp_range a). pose proof (frac_range a). unfold mag32.
  destruct (Z.eqb_spec (expF32UI a) 0) as [E|E]; cbn [negb] in Hn.
  - cbn [andb] in Hz. apply Z.eqb_neq in Hz.
    destruct (normSubnormalF32Sig_spec (fracF32UI a)) as (e' & He' & Hs & Hm); [lia|].
    rewrite Hs in Hn. injection Hn as <- <-. rewrite hidden_bit_set32 by done.
    split; [lia|]. split; [done|]. rewrite <- Z.mul_assoc, <- Z.pow_add_r by lia.
    do 2 f_equal. lia.
  - injection Hn as <- <-.
    rewrite Z.lor_comm, (lor_add _ _ 23) by (done || lia).
    split; [lia|]. split; [lia|].
    replace (expF32UI a + 22) with (expF32UI a - 1 + 23) by lia. rewrite Z.pow_add_r by lia. lia.
Qed.

Lemma zero_test32 a : (negb (z2b (expF32UI a)) && negb (z2b (fracF32UI a))) = zero32 a.
Proof. unfold zero32, z2b. by rewrite !negb_involutive. Qed.

Lemma pack_zero32 sign : u32 (packToF32UI sign 0 0) = b2z sign * 2 ^ 31.
Proof. by destruct sign. Qed.

Lemma pack_inf32 sign : u32 (packToF32UI sign 0xFF 0) = b2z sign * 2 ^ 31 + inf_mag binary32.
Proof. by destruct sign. Qed.

#[local] Hint Rewrite pack_zero32 pack_inf32 propagateNaNF32UI_spec : fprun.

(** The product of two normalized significands, rounded. *)
Lemma mul_round32 sign x y e s :
  tininess_after s -> - 2 ^ 13 <= e < 2 ^ 13 ->
  2 ^ 23 <= x < 2 ^ 24 -> 2 ^ 23 <= y < 2 ^ 24 ->
  (let sigZ := softfloat_shortShiftRightJam64 (u64 (u64 (x .<< 7) * u64 (y .<< 8))) 32 in
   if sigZ <? 0x40000000
   then softfloat_roundPackToF32 sign (e - 1) (u64 (sigZ .<< 1))
   else softfloat_roundPackToF32 sign e sigZ) s
  = deliver 32 sign (fround binary32 (mode s) sign (x * y) 1 (e - 173)) s.
Proof.
  intros Ht He Hx Hy. rewrite !shl_mul by lia. unwrap.
  replace (x * 2 ^ 7 * (y * 2 ^ 8)) with (x * y * 2 ^ 15) by lia.
  assert (0 <= x * y * 2 ^ 15 < 2 ^ 64) by nia.
  rewrite (wrap_small 64 (x * y * 2 ^ 15)), shortShiftRightJam64_jam by lia.
  pose proof (jam_bounds (x * y * 2 ^ 15) (2 ^ 32) ltac:(lia)).
  assert (2 ^ 29 <= jam (x * y * 2 ^ 15) (2 ^ 32) < 2 ^ 31) by ndm.
  rewrite <- (fround_scale _ _ _ (x * y) 1 (e - 173) 15) by nia.
  assert (fround binary32 (mode s) sign (x * y * 2 ^ 15) 1 (e - 173 - 15)
          = fround binary32 (mode s) sign (jam (x * y * 2 ^ 15) (2 ^ 32)) 1 (e - 156)) as ->.
  { rewrite fround_jam, fround_den_pow2 by (cbn; lia || nia). f_equal. lia. }
  cbv zeta. set (z := jam _ _) in *. destruct (Z.ltb_spec z 0x40000000).
  - rewrite (shl_mul z), wrap_small, roundPackToF32_spec by (done || lia).
    replace (e - 1 - 156) with (e - 156 - 1) by lia. by rewrite fround_scale by lia.
  - by rewrite roundPackToF32_spec by (done || lia).
Qed.

(** The product of two finite operands. *)
Lemma mul_finite32 a b s :
  tininess_after s -> finite32 a -> finite32 b ->
  let neg := xorb (signF32UI a) (signF32UI b) in
  f32_mul a b s = deliver 32 neg (fround binary32 (mode s) neg (mag32 a * mag32 b) 1 (-298)) s.
Proof.
  intros Ht Fa Fb neg. unfold f32_mul, finite32 in *.
  rewrite (proj2 (Z.eqb_neq (expF32UI a) _) Fa), (proj2 (Z.eqb_neq (expF32UI b) _) Fb).
  rewrite !zero_test32. fold (norm_operand32 a) (norm_operand32 b) neg.
  assert (zero32 a = true \/ zero32 b = true ->
    (b2z neg * 2 ^ 31, s)
    = deliver 32 neg (fround binary32 (mode s) neg (mag32 a * mag32 b) 1 (-298)) s) as Hz.
  { intros Hz. assert (mag32 a * mag32 b = 0) as ->.
    { destruct Hz as [Hz|Hz]; rewrite <- mag32_zero in Hz; rewrite Hz; lia. }
    assert (fround binary32 (mode s) neg 0 1 (-298) = (0, Flags false false false)) as ->
      by (by destruct (mode s), neg).
    unfold deliver. cbn [fst snd]. rewrite raised_0, Z.add_0_r. done. }
  destruct (zero32 a) eqn:Za; [autorewrite with fprun; apply Hz; tauto|].
  destruct (norm_operand32 a) as [ea ma] eqn:Na.
  destruct (zero32 b) eqn:Zb; [autorewrite with fprun; apply Hz; tauto|].
  destruct (norm_operand32 b) as [eb mb] eqn:Nb. clear Hz.
  destruct (norm_operand32_spec a ea ma) as (Ra & Ma & Va); [done..|].
  destruct (norm_operand32_spec b eb mb) as (Rb & Mb & Vb); [done..|].
  set (x := ma .| _) in *. set (y := mb .| _) in *.
  rewrite mul_round32 by (done || lia). f_equal.
  pose proof (pow2_pos (ea + 22) ltac:(lia)). pose proof (pow2_pos (eb + 22) ltac:(lia)).
  apply fround_same_value with (k := -344); [nia|nia|lia..|].
  replace (ea + eb - 127 - 173 - -344) with (ea + 22 + (eb + 22)) by lia.
  rewrite Z.pow_add_r by lia. change (2 ^ (-298 - -344)) with (2 ^ 23 * 2 ^ 23). nia.
Qed.

(** f32_mul returns the exact product rounded in the current mode with its flags,
    and the invalid, infinity and zero cases. *)
Theorem f32_mul_correct a b s :
  tininess_after s -> f32_mul a b s = mul32_ref a b s.
Proof.
  intros Ht. unfold mul32_ref. pose proof (exp_range a). pose proof (exp_range b).
  destruct (decide (finite32 a /\ finite32 b)) as [[Fa Fb]|Hf].
  { destruct (not_special32 a Fa) as [-> ->], (not_special32 b Fb) as [-> ->].
    by apply mul_finite32. }
  unfold f32_mul, zero32, finite32 in *.
  special32 a; special32 b; try tauto; rewrite Hnan, Hnan0, Hinf, Hinf0;
    rewrite ?(proj2 (Z.eqb_eq (expF32UI a) 255)), ?(proj2 (Z.eqb_eq (expF32UI b) 255)) by done;
    rewrite ?(proj2 (Z.eqb_neq (expF32UI a) 255)) by done;
    rewrite !lor_nonzero; unfold z2b; rewrite !negb_involutive.
  - rewrite !(proj2 (Z.eqb_neq (expF32UI _) 0)) by lia.
    destruct (fracF32UI a =? 0), (fracF32UI b =? 0); cbn; by autorewrite with fprun.
  - rewrite (proj2 (Z.eqb_neq (expF32UI b) 255)), (proj2 (Z.eqb_neq (expF32UI a) 0)) by lia.
    destruct (fracF32UI a =? 0), (fracF32UI b =? 0), (expF32UI b =? 0); cbn;
      by autorewrite with fprun.
  - rewrite (proj2 (Z.eqb_neq (expF32UI b) 0)) by lia.
    destruct (fracF32UI a =? 0), (fracF32UI b =? 0), (expF32UI a =? 0); cbn;
      by autorewrite with fprun.
Qed.

Lemma f32_mul_correct_witness :
  f32_mul 0x7F7FFFFF 0x40000000 softfloat_init = mul32_ref 0x7F7FFFFF 0x40000000 softfloat_init
  /\ f32_mul 0x7F7FFFFF 0x40000000 softfloat_init = (0x7F800000, FpState 0 1 5).
Proof. split; [apply f32_mul_correct; concrete|vm_compute; reflexivity]. Defined.

(** A 24-bit significand is packed without rounding. *)
Lemma pack_exact32 sign exp m r s :
  0 <= exp <= 253 -> 2 ^ 23 <= m < 2 ^ 24 ->
  r = u32 (packToF32UI sign exp m) ->
  (r, s) = deliver 32 sign (fround binary32 (mode s) sign m 1 (exp - 149)) s.
Proof.
  intros He Hm ->. rewrite <- (fround_scale _ _ _ m 1 _ 7) by lia.
  replace (exp - 149 - 7) with (emin binary32 + exp - 7) by (cbn; lia).
  rewrite <- pack_ref_fround by (cbn; lia).
  rewrite pack_ref_exact; [ |cbn; lia..|by apply Z.mod_mul].
  unfold deliver. cbn [fst snd]. rewrite Z.div_mul, raised_0, packToF32UI_eq by lia.
  rewrite wrap_small; cbn; destruct sign; cbn [Z.b2z]; f_equal; lia.
Qed.

(** A finite number rounds to itself. *)
Lemma round_exact32 a s :
  in_range 32 a -> finite32 a ->
  deliver 32 (signF32UI a) (fround binary32 (mode s) (signF32UI a) (mag32 a) 1 (-149)) s = (a, s).
Proof.
  intros Ha Hf. unfold finite32 in Hf. pose proof (exp_range a). pose proof (frac_range a).
  rewrite (fields32 a Ha) at 4. unfold mag32.
  destruct (Z.eqb_spec (expF32UI a) 0) as [E|E].
  - rewrite fround32_small by lia. unfold deliver. cbn [fst snd]. rewrite raised_0, E.
    f_equal. lia.
  - replace (-149) with (-149 + (expF32UI a - 1) - (expF32UI a - 1)) by lia.
    rewrite fround_scale by lia.
    replace (-149 + (expF32UI a - 1)) with (expF32UI a - 1 - 149) by lia.
    symmetry. apply pack_exact32; [lia|lia|].
    rewrite packToF32UI_eq, wrap_small; destruct (signF32UI a); cbn [Z.b2z]; lia.
Qed.

(** The quotient of two normalized significands, rounded. *)
Lemma div_round32 sign x y e s :
  tininess_after s -> - 2 ^ 13 <= e < 2 ^ 13 ->
  2 ^ 23 <= x < 2 ^ 24 -> 2 ^ 23 <= y < 2 ^ 24 ->
  (let '(expZ, sig64A) := if x <? y then (e - 1, u64 (x .<< 31)) else (e, u64 (x .<< 30)) in
   let sigZ := sig64A / y in
   let sigZ :=
     if negb (z2b (sigZ .& 0x3F))
     then sigZ .| b2z (negb (u64 (y * sigZ) =? sig64A)) else sigZ in
   softfloat_roundPackToF32 sign expZ sigZ) s
  = deliver 32 sign (fround binary32 (mode s) sign (x * 2 ^ 31) y (e - 157)) s.
Proof.
  intros Ht He Hx Hy.
  assert (forall n e', - 2 ^ 14 <= e' < 2 ^ 14 -> 2 ^ 30 <= n / y -> n < 2 ^ 31 * y ->
    (let sigZ := n / y in
     let sigZ := if negb (z2b (sigZ .& 0x3F))
       then sigZ .| b2z (negb (u64 (y * sigZ) =? n)) else sigZ in
     softfloat_roundPackToF32 sign e' sigZ) s
    = deliver 32 sign (fround binary32 (mode s) sign n y (e' - 156)) s) as Hq.
  { intros n e' He' Hn1 Hn2. cbv zeta.
    pose proof (Z.div_mod n y ltac:(lia)). pose proof (Z.mod_pos_bound n y ltac:(lia)).
    rewrite (wrap_small 64 (y * _)) by nia.
    assert ((n / y .| b2z (negb (y * (n / y) =? n))) = jam n y) as ->.
    { unfold jam. do 3 f_equal. case_bool; done || lia. }
    unfold z2b. rewrite negb_involutive. change 0x3F with (2 ^ (5 + 1) - 1).
    rewrite land_mask by lia.
    rewrite <- (fround_quotient binary32 _ _ n y _ 5) by (cbn [prec binary32]; lia || nia).
    set (z := if _ =? 0 then jam n y else _). assert (2 ^ 30 <= z < 2 ^ 31) as Hz.
    { assert (n / y < 2 ^ 31) by nia. unfold z. destruct (_ =? 0); [|lia].
      unfold jam. rewrite lor_b2z. destruct (negb _); zdm. }
    by rewrite roundPackToF32_spec by (done || lia). }
  rewrite !shl_mul by lia. unwrap.
  destruct (Z.ltb_spec x y).
  - replace (e - 157) with (e - 1 - 156) by lia.
    apply Hq; [lia|apply Z.div_le_lower_bound; lia|lia].
  - replace (e - 157) with (e - 156 - 1) by lia.
    replace (x * 2 ^ 31) with (x * 2 ^ 30 * 2 ^ 1) by lia.
    rewrite fround_scale by lia.
    apply Hq; [lia|apply Z.div_le_lower_bound; lia|lia].
Qed.

Lemma mag32_pos a : zero32 a = false -> 0 < mag32 a.
Proof.
  intros H. pose proof (mag32_nonneg a). destruct (decide (mag32 a = 0)) as [E|]; [|lia].
  apply mag32_zero in E. congruence.
Qed.

Lemma mag32_lt a : finite32 a -> mag32 a < 2 ^ 277.
Proof.
  intros Ha. unfold finite32 in Ha. pose proof (exp_range a). pose proof (frac_range a).
  unfold mag32. destruct (Z.eqb_spec (expF32UI a) 0).
  - lia.
  - pose proof (pow2_le (expF32UI a - 1) 253 ltac:(lia)).
    change (2 ^ 277) with (2 ^ 24 * 2 ^ 253). nia.
Qed.

Lemma div_finite32 a b s :
  tininess_after s -> finite32 a -> finite32 b -> zero32 a = false -> zero32 b = false ->
  let neg := xorb (signF32UI a) (signF32UI b) in
  f32_div a b s
  = deliver 32 neg (fround binary32 (mode s) neg (mag32 a * 2 ^ 300) (mag32 b) (-300)) s.
Proof.
  intros Ht Fa Fb Za Zb neg. pose proof (mag32_lt b Fb).
  pose proof (mag32_pos a Za). pose proof (mag32_pos b Zb).
  unfold f32_div, finite32 in *.
  rewrite (proj2 (Z.eqb_neq (expF32UI a) _) Fa), (proj2 (Z.eqb_neq (expF32UI b) _) Fb).
  rewrite !zero_test32, Za, Zb. fold (norm_operand32 a) (norm_operand32 b) neg.
  destruct (norm_operand32 b) as [eb mb] eqn:Nb. destruct (norm_operand32 a) as [ea ma] eqn:Na.
  destruct (norm_operand32_spec a ea ma) as (Ra & Ma & Va); [done..|].
  destruct (norm_operand32_spec b eb mb) as (Rb & Mb & Vb); [done..|].
  cbv zeta. set (x := ma .| _) in *. set (y := mb .| _) in *.
  etransitivity; [apply (div_round32 neg x y (ea - eb + 126) s); done || lia|].
  f_equal. pose proof (pow2_pos (ea + 22) ltac:(lia)). pose proof (pow2_pos (eb + 22) ltac:(lia)).
  apply fround_same_quotient with (k := -600); [lia|nia|lia..|].
  replace (ea - eb + 126 - 157 - -600) with (ea + 22 + (547 - eb)) by lia.
  rewrite Z.pow_add_r by lia.
  assert (2 ^ (547 - eb) * 2 ^ (eb + 22) = 2 ^ 569) as E
    by (rewrite <- Z.pow_add_r by lia; f_equal; lia).
  change (2 ^ (-300 - -600)) with (2 ^ 300).
  apply (Z.mul_reg_r _ _ (2 ^ 23)); [lia|].
  transitivity (x * 2 ^ 31 * (mag32 b * 2 ^ 23) * 2 ^ (ea + 22) * 2 ^ (547 - eb)); [lia|].
  rewrite Vb. transitivity ((mag32 a * 2 ^ 23) * y * 2 ^ 600); [|lia].
  rewrite Va. transitivity (x * 2 ^ (ea + 22) * y * 2 ^ 31 * (2 ^ (547 - eb) * 2 ^ (eb + 22))); [lia|].
  rewrite E. change (2 ^ 600) with (2 ^ 31 * 2 ^ 569). lia.
Qed.

(** f32_div returns the exact quotient rounded in the current mode with its flags,
    division by zero and invalid cases included. *)
Theorem f32_div_correct a b s :
  tininess_after s -> f32_div a b s = div32_ref a b s.
Proof.
  intros Ht. unfold div32_ref. pose proof (exp_range a). pose proof (exp_range b).
  destruct (decide (finite32 a /\ finite32 b)) as [[Fa Fb]|Hf].
  { destruct (not_special32 a Fa) as [-> ->], (not_special32 b Fb) as [-> ->]. cbn [orb andb].
    destruct (zero32 b) eqn:Zb; [|destruct (zero32 a) eqn:Za; [|by apply div_finite32]].
    all: unfold f32_div, finite32 in *;
      rewrite (proj2 (Z.eqb_neq (expF32UI a) _) Fa), (proj2 (Z.eqb_neq (expF32UI b) _) Fb),
        !zero_test32, ?Za, Zb, ?lor_nonzero, ?zero_test32.
    - destruct (zero32 a); by autorewrite with fprun.
    - destruct (if negb (z2b (expF32UI b)) then _ else _). by autorewrite with fprun. }
  unfold f32_div, zero32, finite32 in *.
  special32 a; special32 b; try tauto; rewrite Hnan, Hnan0, Hinf, Hinf0;
    rewrite ?(proj2 (Z.eqb_eq (expF32UI a) 255)), ?(proj2 (Z.eqb_eq (expF32UI b) 255)) by done;
    rewrite ?(proj2 (Z.eqb_neq (expF32UI a) 255)) by done; unfold z2b.
  - destruct (fracF32UI a =? 0), (fracF32UI b =? 0); cbn; by autorewrite with fprun.
  - rewrite (proj2 (Z.eqb_neq (expF32UI b) 255)) by lia.
    destruct (fracF32UI a =? 0); cbn; by autorewrite with fprun.
  - destruct (fracF32UI b =? 0); cbn; by autorewrite with fprun.
Qed.

Lemma f32_div_correct_witness :
  f32_div 0x3F800000 0x40400000 softfloat_init = div32_ref 0x3F800000 0x40400000 softfloat_init
  /\ f32_div 0x3F800000 0x40400000 softfloat_init = (0x3EAAAAAB, FpState 0 1 1).
Proof. split; [apply f32_div_correct; concrete|vm_compute; reflexivity]. Defined.
