(* ===== verification/SoftF64.v ===== *)
(** Double precision: the same components of softfloat/ as SoftF32, for 64-bit
    operands: s_roundPackToF64.c, s_normRoundPackToF64.c, s_addMagsF64.c,
    s_subMagsF64.c, f64_add.c, f64_sub.c, f64_mul.c and the field macros.  The
    significands carry ten guard bits; the product of two significands is a
    128-bit integer. *)
From S2P Require Import Prelude FloatSpec FloatPack SoftPrim.

(** ** Field macros (internals.h) *)

Definition signF64UI (a : Z) : bool := z2b (u64 a .>> 63).
Definition expF64UI (a : Z) : Z := (a .>> 52) .& 0x7FF.
Definition fracF64UI (a : Z) : Z := a .& 0x000FFFFFFFFFFFFF.
Definition packToF64UI (sign : bool) (exp sig : Z) : Z :=
  u64 (u64 (u64 (b2z sign .<< 63) + u64 (u64 exp .<< 52)) + sig).
Definition isNaNF64UI (a : Z) : bool :=
  ((a .& 0x7FF0000000000000) =? 0x7FF0000000000000) && z2b (a .& 0x000FFFFFFFFFFFFF).

(** ** NaNs (specialize.h, s_propagateNaNF64UI.c) *)

Definition defaultNaNF64UI : Z := 0x7FF8000000000000.
Definition softfloat_isSigNaNF64UI (uiA : Z) : bool :=
  ((uiA .& 0x7FF8000000000000) =? 0x7FF0000000000000) && z2b (uiA .& 0x0007FFFFFFFFFFFF).

Definition softfloat_propagateNaNF64UI (uiA uiB : Z) : FP Z :=
  (if softfloat_isSigNaNF64UI uiA || softfloat_isSigNaNF64UI uiB
   then softfloat_raiseFlags softfloat_flag_invalid else mret tt) ;;
  mret defaultNaNF64UI.

(** ** Rounding and packing *)

Definition softfloat_normSubnormalF64Sig (sig : Z) : Z * Z :=
  let shiftCount := softfloat_countLeadingZeros64 sig - 11 in
  (1 - shiftCount, u64 (sig .<< shiftCount)).

(** [roundIncrement], from the rounding mode and the sign. *)
Definition roundIncrementF64 (roundingMode : Z) (sign : bool) : Z :=
  if negb (roundingMode =? softfloat_round_near_even)
     && negb (roundingMode =? softfloat_round_near_maxMag)
  then if roundingMode =? (if sign then softfloat_round_min else softfloat_round_max)
       then 0x3FF else 0
  else 0x200.

(** From [if ( roundBits )] to the end of the function. *)
Definition roundPackToF64_finish (roundNearEven : bool) (roundIncrement : Z)
    (sign : bool) (exp sig roundBits : Z) : FP Z :=
  (if z2b roundBits then softfloat_raiseFlags softfloat_flag_inexact else mret tt) ;;
  let sig := u64 (sig + roundIncrement) .>> 10 in
  let sig := sig .& Z.lnot (b2z (negb (z2b (roundBits .^ 0x200)) && roundNearEven)) in
  mret (u64 (packToF64UI sign (if z2b sig then exp else 0) sig)).

Definition softfloat_roundPackToF64 (sign : bool) (exp sig : Z) : FP Z :=
  s ← get_fp;
  let roundingMode := softfloat_roundingMode s in
  let roundNearEven := roundingMode =? softfloat_round_near_even in
  let roundIncrement := roundIncrementF64 roundingMode sign in
  let roundBits := sig .& 0x3FF in
  if 0x7FD <=? u16 exp then
    if exp <? 0 then
      let isTiny :=
        (softfloat_detectTininess s =? softfloat_tininess_beforeRounding)
        || (exp <? -1)
        || (u64 (sig + roundIncrement) <? 0x8000000000000000) in
      let sig := softfloat_shiftRightJam64 sig (- exp) in
      let exp := 0 in
      let roundBits := sig .& 0x3FF in
      (if isTiny && z2b roundBits
       then softfloat_raiseFlags softfloat_flag_underflow else mret tt) ;;
      roundPackToF64_finish roundNearEven roundIncrement sign exp sig roundBits
    else if (0x7FD <? exp) || (0x8000000000000000 <=? u64 (sig + roundIncrement)) then
      softfloat_raiseFlags (softfloat_flag_overflow .| softfloat_flag_inexact) ;;
      mret (u64 (packToF64UI sign 0x7FF 0 - b2z (negb (z2b roundIncrement))))
    else roundPackToF64_finish roundNearEven roundIncrement sign exp sig roundBits
  else roundPackToF64_finish roundNearEven roundIncrement sign exp sig roundBits.

Definition softfloat_normRoundPackToF64 (sign : bool) (exp sig : Z) : FP Z :=
  let shiftCount := softfloat_countLeadingZeros64 sig - 1 in
  let exp := exp - shiftCount in
  if (10 <=? shiftCount) && (u16 exp <? 0x7FD) then
    mret (u64 (packToF64UI sign (if z2b sig then exp else 0) (u64 (sig .<< (shiftCount - 10)))))
  else softfloat_roundPackToF64 sign exp (u64 (sig .<< shiftCount)).

(** ** Addition and subtraction of magnitudes *)

Definition softfloat_addMagsF64 (uiA uiB : Z) (signZ : bool) : FP Z :=
  let expA := expF64UI uiA in
  let sigA := fracF64UI uiA in
  let expB := expF64UI uiB in
  let sigB := fracF64UI uiB in
  let expDiff := expA - expB in
  let sigA := u64 (sigA .<< 9) in
  let sigB := u64 (sigB .<< 9) in
  let propagateNaN := softfloat_propagateNaNF64UI uiA uiB in
  if negb (z2b expDiff) then
    if expA =? 0x7FF then
      if z2b (sigA .| sigB) then propagateNaN else mret (u64 uiA)
    else if negb (z2b expA) then
      mret (u64 (packToF64UI signZ 0 (u64 (uiA + uiB) .& 0x7FFFFFFFFFFFFFFF)))
    else
      softfloat_roundPackToF64 signZ expA (u64 (u64 (0x4000000000000000 + sigA) + sigB))
  else
    let round expZ sigA sigB :=
      let sigZ := u64 (u64 (0x2000000000000000 + sigA) + sigB) in
      if sigZ <? 0x4000000000000000
      then softfloat_roundPackToF64 signZ (expZ - 1) (u64 (sigZ .<< 1))
      else softfloat_roundPackToF64 signZ expZ sigZ in
    if expDiff <? 0 then
      if expB =? 0x7FF then
        if z2b sigB then propagateNaN else mret (u64 (packToF64UI signZ 0x7FF 0))
      else
        let sigA := u64 (sigA + (if z2b expA then 0x2000000000000000 else sigA)) in
        let sigA := softfloat_shiftRightJam64 sigA (- expDiff) in
        round expB sigA sigB
    else
      if expA =? 0x7FF then
        if z2b sigA then propagateNaN else mret (u64 uiA)
      else
        let sigB := u64 (sigB + (if z2b expB then 0x2000000000000000 else sigB)) in
        let sigB := softfloat_shiftRightJam64 sigB expDiff in
        round expA sigA sigB.

Definition softfloat_subMagsF64 (uiA uiB : Z) (signZ : bool) : FP Z :=
  let expA := expF64UI uiA in
  let sigA := fracF64UI uiA in
  let expB := expF64UI uiB in
  let sigB := fracF64UI uiB in
  let expDiff := expA - expB in
  let sigA := u64 (sigA .<< 10) in
  let sigB := u64 (sigB .<< 10) in
  let propagateNaN := softfloat_propagateNaNF64UI uiA uiB in
  let normRoundPack signZ expZ sigZ := softfloat_normRoundPackToF64 signZ (expZ - 1) sigZ in
  let aBigger expA sigA sigB := normRoundPack signZ expA (u64 (sigA - sigB)) in
  let bBigger expB sigA sigB := normRoundPack (negb signZ) expB (u64 (sigB - sigA)) in
  if 0 <? expDiff then
    if expA =? 0x7FF then
      if z2b sigA then propagateNaN else mret (u64 uiA)
    else
      let sigB := u64 (sigB + (if z2b expB then 0x4000000000000000 else sigB)) in
      let sigB := softfloat_shiftRightJam64 sigB expDiff in
      aBigger expA (sigA .| 0x4000000000000000) sigB
  else if expDiff <? 0 then
    if expB =? 0x7FF then
      if z2b sigB then propagateNaN else mret (u64 (packToF64UI (negb signZ) 0x7FF 0))
    else
      let sigA := u64 (sigA + (if z2b expA then 0x4000000000000000 else sigA)) in
      let sigA := softfloat_shiftRightJam64 sigA (- expDiff) in
      bBigger expB sigA (sigB .| 0x4000000000000000)
  else if expA =? 0x7FF then
    if z2b (sigA .| sigB) then propagateNaN
    else softfloat_raiseFlags softfloat_flag_invalid ;; mret defaultNaNF64UI
  else
    let '(expA, expB) := if negb (z2b expA) then (1, 1) else (expA, expB) in
    if sigB <? sigA then aBigger expA sigA sigB
    else if sigA <? sigB then bBigger expB sigA sigB
    else
      s ← get_fp;
      mret (u64 (packToF64UI (softfloat_roundingMode s =? softfloat_round_min) 0 0)).

Definition f64_add (uiA uiB : Z) : FP Z :=
  let signA := signF64UI uiA in
  let signB := signF64UI uiB in
  if eqb signA signB then softfloat_addMagsF64 uiA uiB signA
  else softfloat_subMagsF64 uiA uiB signA.

Definition f64_sub (uiA uiB : Z) : FP Z :=
  let signA := signF64UI uiA in
  let signB := signF64UI uiB in
  if eqb signA signB then softfloat_subMagsF64 uiA uiB signA
  else softfloat_addMagsF64 uiA uiB signA.

(** ** Multiplication and division *)

Definition f64_mul (uiA uiB : Z) : FP Z :=
  let signA := signF64UI uiA in
  let expA := expF64UI uiA in
  let sigA := fracF64UI uiA in
  let signB := signF64UI uiB in
  let expB := expF64UI uiB in
  let sigB := fracF64UI uiB in
  let signZ := xorb signA signB in
  let propagateNaN := softfloat_propagateNaNF64UI uiA uiB in
  let infArg magBits :=
    if negb (z2b magBits)
    then softfloat_raiseFlags softfloat_flag_invalid ;; mret defaultNaNF64UI
    else mret (u64 (packToF64UI signZ 0x7FF 0)) in
  let zero := mret (u64 (packToF64UI signZ 0 0)) in
  if expA =? 0x7FF then
    if z2b sigA || ((expB =? 0x7FF) && z2b sigB) then propagateNaN
    else infArg (expB .| sigB)
  else if expB =? 0x7FF then
    if z2b sigB then propagateNaN else infArg (expA .| sigA)
  else if negb (z2b expA) && negb (z2b sigA) then zero
  else
    let '(expA, sigA) :=
      if negb (z2b expA) then softfloat_normSubnormalF64Sig sigA else (expA, sigA) in
    if negb (z2b expB) && negb (z2b sigB) then zero
    else
      let '(expB, sigB) :=
        if negb (z2b expB) then softfloat_normSubnormalF64Sig sigB else (expB, sigB) in
      let expZ := expA + expB - 0x3FF in
      let sigA := u64 ((sigA .| 0x0010000000000000) .<< 10) in
      let sigB := u64 ((sigB .| 0x0010000000000000) .<< 11) in
      let sig128Z := softfloat_mul64To128 sigA sigB in
      let sigZ := v64 sig128Z .| b2z (z2b (v0 sig128Z)) in
      if sigZ <? 0x4000000000000000
      then softfloat_roundPackToF64 signZ (expZ - 1) (u64 (sigZ .<< 1))
      else softfloat_roundPackToF64 signZ expZ sigZ.

(** ** The fields of a bit pattern *)

Lemma expF64UI_eq a : expF64UI a = (a / 2 ^ 52) mod 2 ^ 11.
Proof. unfold expF64UI. change 0x7FF with (2 ^ 11 - 1). by rewrite land_mask, shr_div. Qed.

Lemma fracF64UI_eq a : fracF64UI a = a mod 2 ^ 52.
Proof. unfold fracF64UI. change 0x000FFFFFFFFFFFFF with (2 ^ 52 - 1). by rewrite land_mask. Qed.

Lemma signF64UI_eq a : in_range 64 a -> signF64UI a = (2 ^ 63 <=? a).
Proof.
  unfold in_range, signF64UI, z2b. intros. rewrite wrap_small, shr_div by lia.
  case_bool; auto; zdm.
Qed.

Lemma packToF64UI_eq sign exp sig :
  0 <= exp <= 2047 -> 0 <= sig -> exp * 2 ^ 52 + sig < 2 ^ 63 ->
  packToF64UI sign exp sig = b2z sign * 2 ^ 63 + exp * 2 ^ 52 + sig.
Proof.
  intros. unfold packToF64UI. rewrite !shl_mul by lia.
  rewrite (wrap_small 64 exp), (wrap_small 64 (exp * _)) by lia.
  destruct sign; cbn [Z.b2z]; unwrap; lia.
Qed.

(** ** [softfloat_roundPackToF64] is the reference rounding *)

Lemma roundIncrementF64_rinc m sign : roundIncrementF64 m sign = rinc 10 (rounding_of m) sign.
Proof.
  unfold roundIncrementF64, rounding_of.
  destruct (m =? softfloat_round_near_even); [done|].
  destruct (m =? softfloat_round_near_maxMag); [done|]. cbn [negb andb].
  unfold softfloat_round_min, softfloat_round_max.
  destruct sign; case_bool; subst; done || lia.
Qed.

Lemma roundPackToF64_finish_spec m sign exp sig s :
  0 <= exp <= 2045 -> 0 <= sig < 2 ^ 63 -> exp = 0 \/ 2 ^ 62 <= sig ->
  roundPackToF64_finish (m =? softfloat_round_near_even) (roundIncrementF64 m sign)
    sign exp sig (sig .& 0x3FF) s
  = (b2z sign * 2 ^ 63 + (exp * 2 ^ 52 + inc_trunc 10 (rounding_of m) sign sig),
     raised (if negb (sig mod 2 ^ 10 =? 0) then softfloat_flag_inexact else 0) s).
Proof.
  intros He Hs H0. unfold roundPackToF64_finish. autorewrite with fprun.
  rewrite roundIncrementF64_rinc, rounding_of_RNE.
  pose proof (rinc_range 10 ltac:(lia) (rounding_of m) sign).
  rewrite (wrap_small 64 (sig + _)), shr_div by lia.
  change 0x3FF with (2 ^ 10 - 1). change 0x200 with (2 ^ (10 - 1)).
  rewrite land_mask, tie_bits, negb_involutive by lia.
  fold (inc_trunc 10 (rounding_of m) sign sig).
  pose proof (inc_trunc_le 10 ltac:(lia) (rounding_of m) sign sig 53 ltac:(lia) ltac:(lia)).
  set (x := inc_trunc _ _ _ _) in *.
  assert ((if z2b x then exp else 0) = exp) as ->.
  { destruct H0 as [->|H0]; [by destruct (z2b x)|].
    pose proof (inc_trunc_ge 10 ltac:(lia) (rounding_of m) sign sig 52 ltac:(lia) ltac:(lia)).
    unfold z2b. rewrite (proj2 (Z.eqb_neq _ _)); [done|]. unfold x; lia. }
  unfold mret, FP_ret. f_equal. rewrite packToF64UI_eq by lia.
  rewrite wrap_small; destruct sign; cbn [Z.b2z]; lia.
Qed.

Lemma roundPackToF64_spec sign exp sig s :
  tininess_after s -> - 2 ^ 15 <= exp < 2 ^ 15 -> 2 ^ 62 <= sig < 2 ^ 63 ->
  softfloat_roundPackToF64 sign exp sig s
  = deliver 64 sign (fround binary64 (mode s) sign sig 1 (exp - 1084)) s.
Proof.
  intros Ht He Hs.
  replace (exp - 1084) with (emin binary64 + exp - 10) by (cbn; lia).
  rewrite <- pack_ref_fround by (cbn; lia).
  unfold softfloat_roundPackToF64, pack_ref. cbn [prec emaxcode binary64].
  autorewrite with fprun. rewrite Ht, u16_range_test by lia.
  set (m := softfloat_roundingMode s). fold (mode s).
  pose proof (rinc_range 10 ltac:(lia) (mode s) sign) as Hr.
  assert (roundIncrementF64 m sign = rinc 10 (mode s) sign) as Hri
    by apply roundIncrementF64_rinc.
  rewrite Hri, (wrap_small 64 (sig + _)), <- Hri by lia.
  change (softfloat_tininess_afterRounding =? softfloat_tininess_beforeRounding) with false.
  destruct (Z.ltb_spec exp 0); cbn [orb].
  - rewrite shiftRightJam64_jam by lia. set (sig' := jam sig (2 ^ (- exp))).
    assert (0 <= sig' < 2 ^ 63).
    { pose proof (pow2_pos (- exp) ltac:(lia)).
      pose proof (jam_bounds sig (2 ^ (- exp)) ltac:(lia)). fold sig' in H1.
      pose proof (pow2_le 1 (- exp) ltac:(lia)).
      pose proof (Z.div_pos sig (2 ^ (- exp)) ltac:(lia) ltac:(lia)).
      pose proof (Z.div_lt_upper_bound sig (2 ^ (- exp)) (2 ^ 62) ltac:(lia) ltac:(nia)). lia. }
    autorewrite with fprun. rewrite roundPackToF64_finish_spec by lia.
    autorewrite with fprun. unfold deliver.
    change 0x3FF with (2 ^ 10 - 1). rewrite land_mask by lia. unfold z2b. change (53 + 10) with 63.
    cbn [fst snd flag_bits overflow underflow inexact]. rewrite Z.add_0_l.
    destruct (_ =? 0), (_ || _); done.
  - destruct (Z.leb_spec 2045 exp); cbn [orb].
    + change (2047 - 2) with 2045. change (53 + 10) with 63.
      assert (((2045 <? exp) || (9223372036854775808 <=? sig + roundIncrementF64 m sign))
         = ((2045 <? exp) || ((exp =? 2045) && (2 ^ 63 <=? sig + roundIncrementF64 m sign)))) as ->.
      { case_bool; cbn; auto; lia. }
      destruct (_ || _) eqn:E.
      * autorewrite with fprun. unfold deliver. cbn [fst snd]. f_equal.
        rewrite packToF64UI_eq by lia. unfold z2b. rewrite negb_involutive.
        change (inf_mag binary64) with (2047 * 2 ^ 52).
        destruct sign, (_ =? 0); cbn [Z.b2z]; reflexivity.
      * assert (exp = 2045) as -> by (destruct (Z.ltb_spec 2045 exp); cbn in E; [done|lia]).
        rewrite roundPackToF64_finish_spec by lia. unfold deliver. cbn [fst snd].
        unfold flag_bits. by destruct (_ =? 0).
    + rewrite (proj2 (Z.ltb_ge (2047 - 2) exp)), (proj2 (Z.eqb_neq exp _)) by lia. cbn [orb andb].
      rewrite roundPackToF64_finish_spec by lia. unfold deliver. cbn [fst snd].
      unfold flag_bits. by destruct (_ =? 0).
Qed.

Lemma normRoundPackToF64_spec sign exp sig s :
  tininess_after s -> - 2 ^ 14 <= exp < 2 ^ 14 -> 0 < sig < 2 ^ 63 ->
  softfloat_normRoundPackToF64 sign exp sig s
  = deliver 64 sign (fround binary64 (mode s) sign sig 1 (exp - 1084)) s.
Proof.
  intros Ht He Hs. unfold softfloat_normRoundPackToF64.
  rewrite countLeadingZeros64_spec by lia. rewrite (proj2 (Z.eqb_neq sig 0)) by lia.
  pose proof (Z.log2_nonneg sig). pose proof (log2_lt sig 63 ltac:(lia) ltac:(lia)).
  pose proof (Z.log2_spec sig ltac:(lia)) as Hl.
  set (k := Z.log2 sig) in *. remember (63 - k - 1) as c eqn:Hc.
  assert (2 ^ 62 <= sig * 2 ^ c < 2 ^ 63) as Hn.
  { assert (2 ^ 62 = 2 ^ k * 2 ^ c) as -> by (rewrite <- Z.pow_add_r by lia; f_equal; lia).
    assert (2 ^ 63 = 2 ^ Z.succ k * 2 ^ c) as -> by (rewrite <- Z.pow_add_r by lia; f_equal; lia).
    pose proof (pow2_pos c ltac:(lia)). nia. }
  rewrite <- (fround_scale binary64 (mode s) sign sig 1 (exp - 1084) c) by lia.
  rewrite (shl_mul sig c), (wrap_small 64 (sig * 2 ^ c)) by lia.
  destruct ((10 <=? c) && (u16 (exp - c) <? 2045)) eqn:E.
  - apply andb_true_iff in E as [E1 E2]. rewrite Z.ltb_antisym, u16_range_test in E2 by lia.
    apply negb_true_iff, orb_false_iff in E2 as [E2 E3].
    apply Z.leb_le in E1. apply Z.ltb_ge in E2. apply Z.leb_gt in E3.
    replace (exp - 1084 - c) with (emin binary64 + (exp - c) - 10) by (cbn; lia).
    rewrite <- pack_ref_fround by (cbn; lia).
    assert (sig * 2 ^ c = sig * 2 ^ (c - 10) * 2 ^ 10) as Es
      by (rewrite <- Z.mul_assoc, <- Z.pow_add_r by lia; do 2 f_equal; lia).
    rewrite pack_ref_exact; [ |cbn; lia..|by rewrite Es, Z.mod_mul].
    unfold deliver. cbn [fst snd]. rewrite Es, Z.div_mul, raised_0 by lia.
    unfold z2b. rewrite (proj2 (Z.eqb_neq sig 0)) by lia. cbn [negb].
    rewrite shl_mul by lia. rewrite (wrap_small 64 (_ * _)), packToF64UI_eq by lia.
    rewrite mret_run, wrap_small; cbn; destruct sign; cbn [Z.b2z]; f_equal; lia.
  - rewrite roundPackToF64_spec by (done || lia). do 2 f_equal; lia.
Qed.

(** ** Exact values

    Every finite number is an integer multiple of 2^-1074. *)

Definition finite64 (a : Z) : Prop := expF64UI a <> 0x7FF.
Definition is_nan64 (a : Z) : Prop := expF64UI a = 0x7FF /\ fracF64UI a <> 0.
Definition is_inf64 (a : Z) : Prop := expF64UI a = 0x7FF /\ fracF64UI a = 0.

Definition mag64 (a : Z) : Z :=
  if expF64UI a =? 0 then fracF64UI a
  else (2 ^ 52 + fracF64UI a) * 2 ^ (expF64UI a - 1).

Definition val64 (a : Z) : Z := if signF64UI a then - mag64 a else mag64 a.

(** The correctly rounded result for the exact value [v * 2^-1074]; [zneg] is
    the sign of a zero result. *)
Definition round64 (v : Z) (zneg : bool) (s : fpstate) : Z * fpstate :=
  let neg := if v =? 0 then zneg else v <? 0 in
  deliver 64 neg (fround binary64 (mode s) neg (Z.abs v) 1 (-1074)) s.

(** The significand with [n] guard bits, doubled for subnormals so that the
    exponent field alone gives the scale. *)
Lemma mag64_sig a n :
  0 <= n ->
  mag64 a * 2 ^ (n + 1)
  = (if expF64UI a =? 0 then fracF64UI a * 2 ^ (n + 1) else (2 ^ 52 + fracF64UI a) * 2 ^ n)
    * 2 ^ expF64UI a.
Proof.
  intros Hn. unfold mag64. destruct (Z.eqb_spec (expF64UI a) 0) as [->|He]; [lia|].
  assert (1 <= expF64UI a) by (rewrite expF64UI_eq in *; zdm).
  rewrite (pow2_split (expF64UI a) 1), (Z.pow_add_r 2 n 1) by lia. lia.
Qed.

Lemma exp_range64 a : 0 <= expF64UI a <= 2047.
Proof. rewrite expF64UI_eq. zdm. Qed.

Lemma frac_range64 a : 0 <= fracF64UI a < 2 ^ 52.
Proof. rewrite fracF64UI_eq. zdm. Qed.

Lemma mag64_nonneg a : 0 <= mag64 a.
Proof.
  unfold mag64. pose proof (exp_range64 a). pose proof (frac_range64 a). case_bool; [lia|].
  pose proof (pow2_pos (expF64UI a - 1) ltac:(lia)). nia.
Qed.

(** ** Addition and subtraction are correctly rounded *)

Lemma fround64_small r neg n :
  0 <= n < 2 ^ 53 -> fround binary64 r neg n 1 (-1074) = (n, Flags false false false).
Proof.
  intros. apply (fround_small binary64); [done|done|].
  change (inf_mag binary64) with (2047 * 2 ^ 52). lia.
Qed.

(** The end of [softfloat_addMagsF64]: the larger significand plus the shifted
    smaller one, normalized and rounded. *)
Lemma addMags_round64 sign expZ big x d s :
  tininess_after s -> 1 <= expZ <= 2046 -> 1 <= d <= 2046 ->
  2 ^ 61 <= big < 2 ^ 62 -> big mod 2 = 0 -> 0 <= x < 2 ^ 62 ->
  (if big + jam x (2 ^ d) <? 0x4000000000000000
   then softfloat_roundPackToF64 sign (expZ - 1) (u64 ((big + jam x (2 ^ d)) * 2 ^ 1))
   else softfloat_roundPackToF64 sign expZ (big + jam x (2 ^ d))) s
  = deliver 64 sign
      (fround binary64 (mode s) sign (big * 2 ^ d + x) 1 (expZ - 1084 - d)) s.
Proof.
  intros Ht He Hd Hb Hev Hx.
  pose proof (jam_shift_range x d 61 ltac:(lia) ltac:(lia) ltac:(lia)).
  rewrite <- fround_align_add by (cbn; lia).
  set (sigZ := big + jam x (2 ^ d)) in *.
  destruct (Z.ltb_spec sigZ 0x4000000000000000).
  - rewrite (wrap_small 64 (sigZ * _)) by lia.
    rewrite roundPackToF64_spec by (done || lia).
    replace (expZ - 1 - 1084) with (expZ - 1084 - 1) by lia.
    by rewrite fround_scale by lia.
  - by rewrite roundPackToF64_spec by (done || lia).
Qed.

(** The operands' significands, as the code scales them. *)
Definition sig_add64 (a : Z) : Z :=
  if expF64UI a =? 0 then fracF64UI a * 2 ^ 10 else (2 ^ 52 + fracF64UI a) * 2 ^ 9.

Lemma mag64_sig_add a : mag64 a * 2 ^ 10 = sig_add64 a * 2 ^ expF64UI a.
Proof. apply (mag64_sig a 9). lia. Qed.

Lemma sig_add_range64 a : 0 <= sig_add64 a < 2 ^ 62.
Proof. unfold sig_add64. pose proof (frac_range64 a). case_bool; lia. Qed.

(** The shift of a fraction by [n], with the hidden bit [h] or, for a
    subnormal, with one more shift: the code's
    [sig += exp ? h : sig]. *)
Lemma hidden_or_double64 a n h :
  0 <= n <= 11 -> h = 2 ^ (52 + n) ->
  u64 (u64 (fracF64UI a .<< n)
       + (if z2b (expF64UI a) then h else u64 (fracF64UI a .<< n)))
  = if expF64UI a =? 0 then fracF64UI a * 2 ^ (n + 1) else (2 ^ 52 + fracF64UI a) * 2 ^ n.
Proof.
  intros Hn ->. pose proof (frac_range64 a). pose proof (pow2_le n 11 ltac:(lia)).
  pose proof (pow2_pos n ltac:(lia)). rewrite shl_mul by lia.
  rewrite (wrap_small 64 (fracF64UI a * 2 ^ n)) by nia.
  rewrite !Z.pow_add_r by lia. unfold z2b. case_bool; cbn [negb]; rewrite wrap_small; nia.
Qed.

Lemma addMags_value64 a b d :
  0 <= d -> expF64UI b + d = expF64UI a -> 0 < sig_add64 a ->
  forall r neg,
  fround binary64 r neg (sig_add64 a * 2 ^ d + sig_add64 b) 1 (expF64UI a - 1084 - d)
  = fround binary64 r neg (mag64 a + mag64 b) 1 (-1074).
Proof.
  intros Hd He Hs r neg. pose proof (exp_range64 b). pose proof (sig_add_range64 b).
  pose proof (pow2_pos d Hd). pose proof (mag64_sig_add a) as Ea. pose proof (mag64_sig_add b) as Eb.
  pose proof (pow2_pos (expF64UI b) ltac:(lia)).
  rewrite <- He, Z.pow_add_r in Ea by lia.
  apply fround_same_value with (k := -1084); [nia| |lia..|].
  - pose proof (mag64_nonneg b). nia.
  - replace (expF64UI a - 1084 - d - -1084) with (expF64UI b) by lia. 
    change (2 ^ (-1074 - -1084)) with (2 ^ 10). nia.
Qed.

(** Two subnormals: the sum of the bit patterns, exactly. *)
Lemma addMags_subnormals64 a b sign s :
  in_range 64 a -> in_range 64 b -> expF64UI a = 0 -> expF64UI b = 0 ->
  (mret (u64 (packToF64UI sign 0 (u64 (a + b) .& 0x7FFFFFFFFFFFFFFF))) : FP Z) s
  = deliver 64 sign (fround binary64 (mode s) sign (mag64 a + mag64 b) 1 (-1074)) s.
Proof.
  intros Ha Hb Ea Eb. unfold in_range in *.
  pose proof (frac_range64 a). pose proof (frac_range64 b).
  assert (mag64 a = fracF64UI a) as -> by (unfold mag64; by rewrite Ea).
  assert (mag64 b = fracF64UI b) as -> by (unfold mag64; by rewrite Eb).
  rewrite fround64_small by lia.
  change 0x7FFFFFFFFFFFFFFF with (2 ^ 63 - 1). rewrite land_mask by lia.
  assert (u64 (a + b) mod 2 ^ 63 = fracF64UI a + fracF64UI b) as ->.
  { change (wrap 63 (u64 (a + b)) = fracF64UI a + fracF64UI b).
    rewrite wrap_narrow, !fracF64UI_eq by lia. rewrite expF64UI_eq in Ea, Eb. unfold wrap. zdm. }
  rewrite packToF64UI_eq, mret_run by lia. unfold deliver. cbn [fst snd].
  rewrite raised_0, wrap_small; destruct sign; cbn [Z.b2z]; f_equal; lia.
Qed.

Lemma sig_add_normal64 a : expF64UI a <> 0 -> sig_add64 a = (2 ^ 52 + fracF64UI a) * 2 ^ 9.
Proof. intros. unfold sig_add64. by rewrite (proj2 (Z.eqb_neq _ _)) by done. Qed.

(** Equal exponents, normal operands. *)
Lemma addMags_equal64 a b sign s :
  tininess_after s -> expF64UI a = expF64UI b -> expF64UI a <> 0 ->
  softfloat_roundPackToF64 sign (expF64UI a)
    (u64 (u64 (0x4000000000000000 + fracF64UI a * 2 ^ 9) + fracF64UI b * 2 ^ 9)) s
  = deliver 64 sign (fround binary64 (mode s) sign (mag64 a + mag64 b) 1 (-1074)) s.
Proof.
  intros Ht Hd Ea. pose proof (exp_range64 a). pose proof (frac_range64 a). pose proof (frac_range64 b).
  unwrap. rewrite roundPackToF64_spec by (done || lia).
  rewrite <- (addMags_value64 a b 0) by (rewrite ?sig_add_normal64; lia).
  rewrite !sig_add_normal64 by lia. deliver_eq.
Qed.

(** The operand with the larger exponent, plus the other one shifted. *)
Lemma addMags_aligned64 a b sign s :
  tininess_after s -> expF64UI b < expF64UI a <= 2046 ->
  let J := jam (sig_add64 b) (2 ^ (expF64UI a - expF64UI b)) in
  (if (2 ^ 52 + fracF64UI a) * 2 ^ 9 + J <? 0x4000000000000000
   then softfloat_roundPackToF64 sign (expF64UI a - 1)
          (u64 (((2 ^ 52 + fracF64UI a) * 2 ^ 9 + J) .<< 1))
   else softfloat_roundPackToF64 sign (expF64UI a) ((2 ^ 52 + fracF64UI a) * 2 ^ 9 + J)) s
  = deliver 64 sign (fround binary64 (mode s) sign (mag64 a + mag64 b) 1 (-1074)) s.
Proof.
  intros Ht He J. pose proof (exp_range64 a). pose proof (exp_range64 b).
  pose proof (frac_range64 a). pose proof (sig_add_range64 a). pose proof (sig_add_range64 b).
  pose proof (sig_add_normal64 a ltac:(lia)) as Ea. rewrite <- Ea.
  assert (sig_add64 a mod 2 = 0) by (rewrite Ea; zdm).
  rewrite shl_mul by lia. subst J. rewrite addMags_round64 by (done || lia).
  by rewrite addMags_value64 by lia.
Qed.

Lemma addMagsF64_spec a b sign s :
  tininess_after s -> in_range 64 a -> in_range 64 b -> finite64 a -> finite64 b ->
  softfloat_addMagsF64 a b sign s
  = deliver 64 sign (fround binary64 (mode s) sign (mag64 a + mag64 b) 1 (-1074)) s.
Proof.
  intros Ht Ha Hb Hfa Hfb. unfold finite64 in *.
  pose proof (exp_range64 a). pose proof (exp_range64 b).
  pose proof (frac_range64 a). pose proof (frac_range64 b).
  pose proof (sig_add_range64 a). pose proof (sig_add_range64 b).
  unfold softfloat_addMagsF64. rewrite !hidden_or_double64 by lia.
  rewrite (shl_mul (fracF64UI a)), (shl_mul (fracF64UI b)) by lia.
  rewrite (wrap_small 64 (fracF64UI a * 2 ^ 9)), (wrap_small 64 (fracF64UI b * 2 ^ 9)) by lia.
  change (9 + 1) with 10. fold (sig_add64 a) (sig_add64 b).
  unfold z2b at 1. rewrite negb_involutive.
  rewrite (proj2 (Z.eqb_neq (expF64UI a) 2047) Hfa), (proj2 (Z.eqb_neq (expF64UI b) 2047) Hfb).
  assert (forall J x, 0 <= x < 2 ^ 52 -> 0 <= J <= 2 ^ 61 ->
    u64 (u64 (0x2000000000000000 + x * 2 ^ 9) + J) = (2 ^ 52 + x) * 2 ^ 9 + J) as Hsum1
    by (intros; unwrap; lia).
  assert (forall J x, 0 <= x < 2 ^ 52 -> 0 <= J <= 2 ^ 61 ->
    u64 (u64 (0x2000000000000000 + J) + x * 2 ^ 9) = (2 ^ 52 + x) * 2 ^ 9 + J) as Hsum2
    by (intros; unwrap; lia).
  destruct (Z.eqb_spec (expF64UI a - expF64UI b) 0) as [Hd|Hd].
  { unfold z2b. rewrite negb_involutive. destruct (Z.eqb_spec (expF64UI a) 0) as [Ea|Ea].
    - apply addMags_subnormals64; done || lia.
    - apply addMags_equal64; done || lia. }
  destruct (Z.ltb_spec (expF64UI a - expF64UI b) 0).
  - pose proof (jam_shift_range (sig_add64 a) (- (expF64UI a - expF64UI b)) 61
                  ltac:(lia) ltac:(lia) ltac:(lia)).
    rewrite shiftRightJam64_jam, Hsum2 by lia.
    replace (- (expF64UI a - expF64UI b)) with (expF64UI b - expF64UI a) by lia.
    rewrite (Z.add_comm (mag64 a)). apply (addMags_aligned64 b a); done || lia.
  - pose proof (jam_shift_range (sig_add64 b) (expF64UI a - expF64UI b) 61
                  ltac:(lia) ltac:(lia) ltac:(lia)).
    rewrite shiftRightJam64_jam, Hsum1 by lia.
    apply (addMags_aligned64 a b); done || lia.
Qed.

(** The significands as [softfloat_subMagsF64] scales them. *)
Definition sig_sub64 (a : Z) : Z := 2 * sig_add64 a.

Lemma sig_sub_eq64 a :
  sig_sub64 a = if expF64UI a =? 0 then fracF64UI a * 2 ^ 11 else (2 ^ 52 + fracF64UI a) * 2 ^ 10.
Proof. unfold sig_sub64, sig_add64. case_bool; lia. Qed.

(** The larger significand minus the shifted smaller one, normalized. *)
Lemma subMags_round64 sign a b d s :
  tininess_after s -> expF64UI a <> 0 -> 1 <= d -> expF64UI b + d = expF64UI a ->
  mag64 b < mag64 a /\
  softfloat_normRoundPackToF64 sign (expF64UI a - 1)
    (u64 (sig_sub64 a - jam (sig_sub64 b) (2 ^ d))) s
  = deliver 64 sign (fround binary64 (mode s) sign (mag64 a - mag64 b) 1 (-1074)) s.
Proof.
  intros Ht Ha Hd He.
  pose proof (exp_range64 a). pose proof (exp_range64 b). pose proof (sig_add_range64 b).
  pose proof (mag64_sig_add a) as Ea. pose proof (mag64_sig_add b) as Eb.
  rewrite <- He, Z.pow_add_r in Ea by lia.
  pose proof (pow2_pos (expF64UI b) ltac:(lia)). pose proof (pow2_le 1 d ltac:(lia)).
  change (2 ^ 1) with 2 in *.
  assert (2 ^ 61 <= sig_add64 a < 2 ^ 62) as Hsa.
  { split; [|apply sig_add_range64]. pose proof (frac_range64 a).
    unfold sig_add64. rewrite (proj2 (Z.eqb_neq _ _)) by done. lia. }
  unfold sig_sub64.
  pose proof (jam_shift_range (2 * sig_add64 b) d 62 ltac:(lia) ltac:(lia) ltac:(lia)) as Hj.
  assert ((2 * sig_add64 b) mod 2 ^ d = 0
          \/ 2 ^ 54 <= 2 * sig_add64 a - jam (2 * sig_add64 b) (2 ^ d)) as Hc.
  { destruct (decide (d = 1)) as [->|]; [left; rewrite Z.mul_comm; by apply Z.mod_mul|right].
    pose proof (jam_shift_range (2 * sig_add64 b) (d - 1 + 1) 61) as Hj2.
    replace (d - 1 + 1) with d in Hj2 by lia.
    enough (jam (2 * sig_add64 b) (2 ^ d) <= 2 ^ 61 + 1) by lia.
    pose proof (jam_bounds (2 * sig_add64 b) (2 ^ d) ltac:(lia)).
    enough (2 * sig_add64 b / 2 ^ d < 2 ^ 61) by lia.
    apply Z.div_lt_upper_bound; [lia|]. pose proof (pow2_le 2 d ltac:(lia)).
    change (2 ^ 2) with 4 in *. nia. }
  assert (jam (2 * sig_add64 b) (2 ^ d) < 2 * sig_add64 a) as Hlt.
  { destruct (decide (d = 1)) as [->|]; [|destruct Hc as [Hc|Hc]; [|lia]].
    - rewrite jam_exact by (rewrite Z.mul_comm; by apply Z.mod_mul). zdm.
    - rewrite jam_exact by done. apply Z.div_lt_upper_bound; nia. }
  assert (sig_add64 b < sig_add64 a * 2 ^ d) by nia.
  split; [nia|].
  rewrite wrap_small, normRoundPackToF64_spec by (done || lia).
  assert (2 * sig_add64 a mod 2 = 0) by (rewrite Z.mul_comm; by apply Z.mod_mul).
  rewrite fround_align_sub by (done || lia || exact Hc).
  f_equal. apply fround_same_value with (k := -1085); [nia|nia|lia..|].
  replace (expF64UI a - 1 - 1084 - d - -1085) with (expF64UI b) by lia.
  change (2 ^ (-1074 - -1085)) with (2 ^ 11). nia.
Qed.

(** Equal exponents: the difference of the fractions is exact. *)
Lemma subMags_equal64 sign a b s :
  tininess_after s -> expF64UI a = expF64UI b -> fracF64UI b < fracF64UI a ->
  mag64 b < mag64 a /\
  softfloat_normRoundPackToF64 sign (Z.max 1 (expF64UI a) - 1)
    (u64 (u64 (fracF64UI a .<< 10) - u64 (fracF64UI b .<< 10))) s
  = deliver 64 sign (fround binary64 (mode s) sign (mag64 a - mag64 b) 1 (-1074)) s.
Proof.
  intros Ht He Hf. pose proof (exp_range64 a). pose proof (frac_range64 a). pose proof (frac_range64 b).
  assert (mag64 a - mag64 b = (fracF64UI a - fracF64UI b) * 2 ^ (Z.max 1 (expF64UI a) - 1)) as E.
  { unfold mag64. rewrite <- He. destruct (Z.eqb_spec (expF64UI a) 0) as [->|].
    { change (Z.max 1 0 - 1) with 0. lia. }
    rewrite Z.max_r by lia. lia. }
  pose proof (pow2_pos (Z.max 1 (expF64UI a) - 1) ltac:(lia)).
  split; [nia|]. rewrite !shl_mul by lia. unwrap.
  replace (fracF64UI a * 2 ^ 10 - fracF64UI b * 2 ^ 10)
    with ((fracF64UI a - fracF64UI b) * 2 ^ 10) by lia.
  rewrite normRoundPackToF64_spec by (done || lia). f_equal. rewrite E. apply fround_same_value with (k := -1084); [nia|nia|lia..|].
  rewrite <- !Z.mul_assoc, <- !Z.pow_add_r by lia. do 2 f_equal. lia.
Qed.

Definition sub_result64 (sign : bool) (a b : Z) (s : fpstate) : Z * fpstate :=
  if mag64 a =? mag64 b then (b2z (zero_sign s) * 2 ^ 63, s)
  else
    let neg := if mag64 b <? mag64 a then sign else negb sign in
    deliver 64 neg (fround binary64 (mode s) neg (Z.abs (mag64 a - mag64 b)) 1 (-1074)) s.

Lemma sub_result_gt64 sign a b s :
  mag64 b < mag64 a ->
  sub_result64 sign a b s
  = deliver 64 sign (fround binary64 (mode s) sign (mag64 a - mag64 b) 1 (-1074)) s.
Proof.
  intros H. unfold sub_result64.
  rewrite (proj2 (Z.eqb_neq _ _)), (proj2 (Z.ltb_lt _ _)), Z.abs_eq by lia. done.
Qed.

Lemma sub_result_lt64 sign a b s :
  mag64 a < mag64 b ->
  sub_result64 sign a b s
  = deliver 64 (negb sign)
      (fround binary64 (mode s) (negb sign) (mag64 b - mag64 a) 1 (-1074)) s.
Proof.
  intros H. unfold sub_result64.
  rewrite (proj2 (Z.eqb_neq _ _)), (proj2 (Z.ltb_ge _ _)) by lia.
  replace (Z.abs (mag64 a - mag64 b)) with (mag64 b - mag64 a) by lia. done.
Qed.

Lemma shl7_ltb64 x y :
  0 <= x < 2 ^ 52 -> 0 <= y < 2 ^ 52 -> (u64 (x .<< 10) <? u64 (y .<< 10)) = (x <? y).
Proof. intros. rewrite !shl_mul by lia. unwrap. case_bool; lia. Qed.

Lemma subMagsF64_spec a b sign s :
  tininess_after s -> finite64 a -> finite64 b ->
  softfloat_subMagsF64 a b sign s = sub_result64 sign a b s.
Proof.
  intros Ht Hfa Hfb. unfold finite64 in *.
  pose proof (exp_range64 a). pose proof (exp_range64 b).
  pose proof (frac_range64 a). pose proof (frac_range64 b).
  pose proof (sig_add_range64 a). pose proof (sig_add_range64 b).
  assert (forall x, expF64UI x <> 0 ->
            u64 (fracF64UI x .<< 10) .| 0x4000000000000000 = sig_sub64 x) as Hor.
  { intros x Hx. pose proof (frac_range64 x). rewrite sig_sub_eq64, (proj2 (Z.eqb_neq _ _)) by done.
    rewrite shl_mul, wrap_small, Z.lor_comm, (lor_add _ _ 62) by (done || lia). lia. }
  unfold softfloat_subMagsF64. rewrite !hidden_or_double64 by lia. change (10 + 1) with 11.
  rewrite <- !sig_sub_eq64.
  rewrite (proj2 (Z.eqb_neq (expF64UI a) 2047) Hfa), (proj2 (Z.eqb_neq (expF64UI b) 2047) Hfb).
  destruct (Z.ltb_spec 0 (expF64UI a - expF64UI b)).
  - destruct (subMags_round64 sign a b (expF64UI a - expF64UI b) s) as [? Hr]; [done|lia..|].
    rewrite Hor, shiftRightJam64_jam by (unfold sig_sub64; lia). rewrite sub_result_gt64 by done.
    exact Hr.
  - destruct (Z.ltb_spec (expF64UI a - expF64UI b) 0).
    + destruct (subMags_round64 (negb sign) b a (- (expF64UI a - expF64UI b)) s)
        as [? Hr]; [done|lia..|].
      rewrite Hor, shiftRightJam64_jam by (unfold sig_sub64; lia). rewrite sub_result_lt64 by done.
      exact Hr.
    + assert (expF64UI a = expF64UI b) as He by lia.
      assert (forall y z, (if negb (z2b (expF64UI a)) then (1, 1) else (y, z))
        = (if negb (z2b (expF64UI a)) then 1 else y, if negb (z2b (expF64UI a)) then 1 else z))
        as Hp by (intros; by destruct (z2b _)).
      rewrite Hp, <- He. clear Hp.
      assert ((if negb (z2b (expF64UI a)) then 1 else expF64UI a) = Z.max 1 (expF64UI a)) as ->
        by (unfold z2b; case_bool; cbn; lia).
      rewrite !shl7_ltb64 by done.
      destruct (Z.ltb_spec (fracF64UI b) (fracF64UI a)).
      { destruct (subMags_equal64 sign a b s) as [? Hr]; [done..|].
        rewrite sub_result_gt64 by done. exact Hr. }
      destruct (Z.ltb_spec (fracF64UI a) (fracF64UI b)).
      { destruct (subMags_equal64 (negb sign) b a s) as [? Hr]; [done..|].
        rewrite sub_result_lt64, He by done. exact Hr. }
      assert (mag64 a = mag64 b) as Em
        by (unfold mag64; rewrite He; replace (fracF64UI a) with (fracF64UI b) by lia; done).
      autorewrite with fprun. unfold sub_result64. rewrite Em, Z.eqb_refl, zero_sign_eq.
      f_equal. rewrite packToF64UI_eq, wrap_small; destruct (zero_sign s); cbn [Z.b2z]; lia.
Qed.

(** ** The whole of [f64_add] and [f64_sub], special operands included *)

Definition nan64 (a : Z) : bool := (expF64UI a =? 0x7FF) && negb (fracF64UI a =? 0).
Definition inf64 (a : Z) : bool := (expF64UI a =? 0x7FF) && (fracF64UI a =? 0).

(** A signaling NaN has the leading bit of its fraction clear. *)
Definition snan64 (a : Z) : bool := nan64 a && (fracF64UI a <? 2 ^ 51).

Definition neg64 (a : Z) : Z := if signF64UI a then a - 2 ^ 63 else a + 2 ^ 63.

Definition nan_result64 (a b : Z) (s : fpstate) : Z * fpstate :=
  (defaultNaNF64UI,
   raised (if snan64 a || snan64 b then softfloat_flag_invalid else 0) s).

Definition invalid_result64 (s : fpstate) : Z * fpstate :=
  (defaultNaNF64UI, raised softfloat_flag_invalid s).

(** Addition as the standard specifies it. *)
Definition add64_ref (a b : Z) (s : fpstate) : Z * fpstate :=
  if nan64 a || nan64 b then nan_result64 a b s
  else if inf64 a && inf64 b && xorb (signF64UI a) (signF64UI b) then invalid_result64 s
  else if inf64 a then (a, s)
  else if inf64 b then (b, s)
  else round64 (val64 a + val64 b)
         (if eqb (signF64UI a) (signF64UI b) then signF64UI a else zero_sign s) s.

Lemma isSigNaNF64UI_spec a : softfloat_isSigNaNF64UI a = snan64 a.
Proof.
  unfold softfloat_isSigNaNF64UI, snan64, nan64, z2b.
  change 0x7FF8000000000000 with ((2 ^ 12 - 1) * 2 ^ 51). change 0x0007FFFFFFFFFFFF with (2 ^ 51 - 1).
  rewrite land_field, land_mask, expF64UI_eq, fracF64UI_eq by lia.
  apply eq_true_iff_eq. rewrite !andb_true_iff, !negb_true_iff, !Z.eqb_eq, !Z.eqb_neq, Z.ltb_lt.
  split; [intros [? ?]|intros [[? ?] ?]]; repeat split; zdm.
Qed.

Lemma propagateNaNF64UI_spec a b s : softfloat_propagateNaNF64UI a b s = nan_result64 a b s.
Proof.
  unfold softfloat_propagateNaNF64UI. autorewrite with fprun. by rewrite !isSigNaNF64UI_spec.
Qed.

(** A bit pattern is its three fields. *)
Lemma fields64 a :
  in_range 64 a -> a = b2z (signF64UI a) * 2 ^ 63 + expF64UI a * 2 ^ 52 + fracF64UI a.
Proof.
  intros Ha. rewrite signF64UI_eq, expF64UI_eq, fracF64UI_eq by done. unfold in_range in *.
  case_bool; cbn [Z.b2z]; zdm.
Qed.

Lemma neg64_fields a :
  in_range 64 a ->
  in_range 64 (neg64 a) /\ signF64UI (neg64 a) = negb (signF64UI a)
  /\ expF64UI (neg64 a) = expF64UI a /\ fracF64UI (neg64 a) = fracF64UI a.
Proof.
  intros Ha. unfold neg64. assert (in_range 64 (if signF64UI a then a - 2 ^ 63 else a + 2 ^ 63)) as Hn.
  { rewrite signF64UI_eq by done. unfold in_range in *. case_bool; lia. }
  rewrite (signF64UI_eq _ Hn), (signF64UI_eq _ Ha), !expF64UI_eq, !fracF64UI_eq.
  rewrite signF64UI_eq in Hn by done. unfold in_range in *.
  repeat split; case_bool; cbn; auto; lia || zdm.
Qed.

Lemma sub_result_round64 a b s :
  eqb (signF64UI a) (signF64UI b) = false ->
  sub_result64 (signF64UI a) a b s = round64 (val64 a + val64 b) (zero_sign s) s.
Proof.
  intros Hs. unfold sub_result64, round64, val64.
  assert (signF64UI b = negb (signF64UI a)) as -> by (destruct (signF64UI a), (signF64UI b); done).
  destruct (Z.eqb_spec (mag64 a) (mag64 b)) as [->|Hne].
  - assert ((if signF64UI a then - mag64 b else mag64 b)
            + (if negb (signF64UI a) then - mag64 b else mag64 b) = 0) as ->
      by (destruct (signF64UI a); cbn; lia).
    cbn [Z.eqb]. rewrite fround64_small by (cbn; lia). unfold deliver. cbn [fst snd].
    rewrite raised_0. f_equal. change (Z.abs 0) with 0. change (64 - 1) with 63. lia.
  - rewrite (proj2 (Z.eqb_neq _ 0)) by (destruct (signF64UI a); cbn; lia).
    assert (((if signF64UI a then - mag64 a else mag64 a)
             + (if negb (signF64UI a) then - mag64 b else mag64 b) <? 0)
            = (if mag64 b <? mag64 a then signF64UI a else negb (signF64UI a))) as ->
      by (destruct (signF64UI a); cbn [negb]; case_bool; lia || done).
    assert (Z.abs ((if signF64UI a then - mag64 a else mag64 a)
             + (if negb (signF64UI a) then - mag64 b else mag64 b))
            = Z.abs (mag64 a - mag64 b)) as -> by (destruct (signF64UI a); cbn [negb]; lia).
    done.
Qed.

(** Special operands of the two magnitude routines: the NaN and infinity
    branches, before any arithmetic. *)
Lemma frac_shifted64 a n :
  0 <= n <= 11 -> z2b (u64 (fracF64UI a .<< n)) = negb (fracF64UI a =? 0).
Proof.
  intros. pose proof (frac_range64 a). pose proof (pow2_le n 11). pose proof (pow2_pos n).
  rewrite shl_mul, wrap_small by nia. unfold z2b. case_bool; nia.
Qed.

Lemma inf_pattern64 sign b :
  in_range 64 b -> signF64UI b = sign -> inf64 b = true ->
  u64 (packToF64UI sign 0x7FF 0) = b.
Proof.
  intros Hb <- Hi. unfold inf64 in Hi. apply andb_true_iff in Hi as [Hi1 Hi2].
  apply Z.eqb_eq in Hi1, Hi2. rewrite (fields64 b Hb) at 2. rewrite Hi1, Hi2.
  rewrite packToF64UI_eq by lia. apply wrap_small. destruct (signF64UI b); cbn; lia.
Qed.

Lemma special_cases64 a :
  expF64UI a = 0x7FF -> nan64 a = negb (fracF64UI a =? 0) /\ inf64 a = (fracF64UI a =? 0).
Proof. intros E. unfold nan64, inf64. by rewrite E. Qed.

Lemma not_special64 a : expF64UI a <> 0x7FF -> nan64 a = false /\ inf64 a = false.
Proof. intros E. unfold nan64, inf64. by rewrite (proj2 (Z.eqb_neq _ _)) by done. Qed.

(** Case analysis on which operand has the special exponent. *)
Ltac special64 a :=
  let H1 := fresh "Hnan" in let H2 := fresh "Hinf" in
  destruct (decide (expF64UI a = 0x7FF)) as [?|?];
  [destruct (special_cases64 a) as [H1 H2]; [done|]
  |destruct (not_special64 a) as [H1 H2]; [done|]].

Ltac nan_done64 := cbn [negb orb andb]; rewrite ?propagateNaNF64UI_spec; done.

Lemma addMagsF64_special a b s :
  in_range 64 a -> in_range 64 b -> signF64UI a = signF64UI b ->
  expF64UI a = 0x7FF \/ expF64UI b = 0x7FF ->
  softfloat_addMagsF64 a b (signF64UI a) s
  = if nan64 a || nan64 b then nan_result64 a b s
    else if inf64 a then (a, s) else (b, s).
Proof.
  intros Ha Hb Hs Hx. pose proof (exp_range64 a). pose proof (exp_range64 b).
  unfold softfloat_addMagsF64. rewrite z2b_lor, !frac_shifted64 by lia.
  assert (u64 a = a) as -> by (by apply wrap_small).
  special64 a; special64 b; try tauto; rewrite Hnan, Hinf, Hnan0;
    unfold z2b at 1; rewrite negb_involutive.
  - replace (expF64UI a - expF64UI b) with 0 by lia. cbn [Z.eqb].
    rewrite (proj2 (Z.eqb_eq (expF64UI a) 2047)) by done.
    destruct (fracF64UI a =? 0), (fracF64UI b =? 0); nan_done64.
  - rewrite (proj2 (Z.eqb_neq _ 0)), (proj2 (Z.ltb_ge _ 0)) by lia.
    rewrite (proj2 (Z.eqb_eq (expF64UI a) 2047)) by done.
    destruct (fracF64UI a =? 0); nan_done64.
  - rewrite (proj2 (Z.eqb_neq _ 0)), (proj2 (Z.ltb_lt _ 0)) by lia.
    rewrite (proj2 (Z.eqb_eq (expF64UI b) 2047)) by done.
    destruct (fracF64UI b =? 0) eqn:E; [|nan_done64]. cbn [negb].
    rewrite (inf_pattern64 _ b) by done. done.
Qed.

Lemma subMagsF64_special a b s :
  in_range 64 a -> in_range 64 b -> expF64UI a = 0x7FF \/ expF64UI b = 0x7FF ->
  softfloat_subMagsF64 a b (signF64UI a) s
  = if nan64 a || nan64 b then nan_result64 a b s
    else if inf64 a && inf64 b then invalid_result64 s
    else if inf64 a then (a, s)
    else (b2z (negb (signF64UI a)) * 2 ^ 63 + inf_mag binary64, s).
Proof.
  intros Ha Hb Hx. pose proof (exp_range64 a). pose proof (exp_range64 b).
  unfold softfloat_subMagsF64. rewrite z2b_lor, !frac_shifted64 by lia.
  assert (u64 a = a) as -> by (by apply wrap_small).
  special64 a; special64 b; try tauto; rewrite Hnan, Hinf, Hnan0, Hinf0.
  - replace (expF64UI a - expF64UI b) with 0 by lia. cbn [Z.ltb Z.compare].
    rewrite (proj2 (Z.eqb_eq (expF64UI a) 2047)) by done.
    destruct (fracF64UI a =? 0), (fracF64UI b =? 0); nan_done64.
  - rewrite (proj2 (Z.ltb_lt 0 _)) by lia.
    rewrite (proj2 (Z.eqb_eq (expF64UI a) 2047)) by done.
    destruct (fracF64UI a =? 0); nan_done64.
  - rewrite (proj2 (Z.ltb_ge 0 _)), (proj2 (Z.ltb_lt _ 0)) by lia.
    rewrite (proj2 (Z.eqb_eq (expF64UI b) 2047)) by done.
    destruct (fracF64UI b =? 0) eqn:E; [|nan_done64]. cbn [negb].
    rewrite packToF64UI_eq by lia. by destruct (signF64UI a).
Qed.

Lemma add_result_round64 a b s :
  signF64UI a = signF64UI b ->
  deliver 64 (signF64UI a)
    (fround binary64 (mode s) (signF64UI a) (mag64 a + mag64 b) 1 (-1074)) s
  = round64 (val64 a + val64 b) (signF64UI a) s.
Proof.
  intros Hs. unfold round64, val64. rewrite <- Hs.
  pose proof (mag64_nonneg a). pose proof (mag64_nonneg b).
  assert (Z.abs ((if signF64UI a then - mag64 a else mag64 a)
                 + (if signF64UI a then - mag64 b else mag64 b)) = mag64 a + mag64 b) as ->
    by (destruct (signF64UI a); lia).
  destruct (Z.eqb_spec ((if signF64UI a then - mag64 a else mag64 a)
                 + (if signF64UI a then - mag64 b else mag64 b)) 0) as [E|E]; [done|].
  by replace ((_ + _ <? 0)) with (signF64UI a)
    by (destruct (signF64UI a); case_bool; lia || done).
Qed.

(** The two magnitude routines, chosen by the signs as [f64_add] does. *)
Lemma add_same_sign64 a b s :
  tininess_after s -> in_range 64 a -> in_range 64 b -> signF64UI a = signF64UI b ->
  softfloat_addMagsF64 a b (signF64UI a) s = add64_ref a b s.
Proof.
  intros Ht Ha Hb Hs. unfold add64_ref. rewrite <- Hs, xorb_nilpotent, eqb_reflx, andb_false_r.
  destruct (decide (finite64 a /\ finite64 b)) as [[Fa Fb]|Hf].
  - destruct (not_special64 a Fa) as [-> ->], (not_special64 b Fb) as [-> ->]. cbn [orb].
    rewrite addMagsF64_spec, add_result_round64 by done. done.
  - rewrite addMagsF64_special by (done || unfold finite64 in *; lia).
    destruct (nan64 a || nan64 b) eqn:En, (inf64 a) eqn:Ei; try done.
    destruct (inf64 b) eqn:Eb; [done|]. exfalso. apply Hf. unfold finite64.
    apply orb_false_iff in En as [En1 En2].
    split; intros E; destruct (special_cases64 _ E) as [Hn Hi];
      rewrite Hn, ?Hi in *; by destruct (_ =? 0).
Qed.

Lemma add_opposite_sign64 a b s :
  tininess_after s -> in_range 64 a -> in_range 64 b ->
  signF64UI b = negb (signF64UI a) ->
  softfloat_subMagsF64 a b (signF64UI a) s = add64_ref a b s.
Proof.
  intros Ht Ha Hb Hs. unfold add64_ref. rewrite Hs.
  assert (xorb (signF64UI a) (negb (signF64UI a)) = true) as -> by (by destruct (signF64UI a)).
  assert (eqb (signF64UI a) (negb (signF64UI a)) = false) as -> by (by destruct (signF64UI a)).
  rewrite andb_true_r.
  destruct (decide (finite64 a /\ finite64 b)) as [[Fa Fb]|Hf].
  - destruct (not_special64 a Fa) as [-> ->], (not_special64 b Fb) as [-> ->]. cbn [orb andb].
    rewrite subMagsF64_spec by done. apply sub_result_round64.
    rewrite Hs. by destruct (signF64UI a).
  - rewrite subMagsF64_special by (done || unfold finite64 in *; lia).
    destruct (nan64 a || nan64 b) eqn:En; [done|]. destruct (inf64 a) eqn:Ei.
    { by destruct (inf64 b). }
    destruct (inf64 b) eqn:Eb; cbn [andb].
    + rewrite <- (inf_pattern64 (negb (signF64UI a)) b) by done.
      rewrite packToF64UI_eq, wrap_small
        by (destruct (signF64UI a); cbn [negb Z.b2z]; lia). f_equal.
      change (inf_mag binary64) with (2047 * 2 ^ 52). lia.
    + exfalso. apply Hf. unfold finite64. apply orb_false_iff in En as [En1 En2].
      split; intros E; destruct (special_cases64 _ E) as [Hn Hi];
        rewrite Hn, ?Hi in *; by destruct (_ =? 0).
Qed.

(** f64_add returns the exact sum rounded in the current mode with its flags, and
    the special results. *)
Theorem f64_add_correct a b s :
  tininess_after s -> in_range 64 a -> in_range 64 b -> f64_add a b s = add64_ref a b s.
Proof.
  intros. unfold f64_add. destruct (eqb (signF64UI a) (signF64UI b)) eqn:E.
  - apply eqb_prop in E. by apply add_same_sign64.
  - apply add_opposite_sign64; [done..|]. by destruct (signF64UI a), (signF64UI b).
Qed.

Lemma f64_add_correct_witness :
  f64_add 0x3FF0000000000000 0x3CA0000000000000 softfloat_init = add64_ref 0x3FF0000000000000 0x3CA0000000000000 softfloat_init
  /\ f64_add 0x3FF0000000000000 0x3CA0000000000000 softfloat_init = (0x3FF0000000000000, FpState 0 1 1).
Proof. split; [apply f64_add_correct; concrete|vm_compute; reflexivity]. Defined.

(** [f64_sub] is addition of the negated operand. *)
Lemma isSigNaNF64UI_neg b :
  in_range 64 b -> softfloat_isSigNaNF64UI (neg64 b) = softfloat_isSigNaNF64UI b.
Proof.
  intros Hb. destruct (neg64_fields b Hb) as (_ & _ & He & Hf).
  rewrite !isSigNaNF64UI_spec. unfold snan64, nan64. by rewrite He, Hf.
Qed.

Lemma subMagsF64_neg a b sign :
  in_range 64 b -> softfloat_subMagsF64 a (neg64 b) sign = softfloat_subMagsF64 a b sign.
Proof.
  intros Hb. destruct (neg64_fields b Hb) as (_ & _ & He & Hf).
  unfold softfloat_subMagsF64, softfloat_propagateNaNF64UI.
  by rewrite He, Hf, isSigNaNF64UI_neg.
Qed.

Lemma addMagsF64_neg a b sign :
  in_range 64 a -> in_range 64 b ->
  softfloat_addMagsF64 a (neg64 b) sign = softfloat_addMagsF64 a b sign.
Proof.
  intros Ha Hb. destruct (neg64_fields b Hb) as (Hr & _ & He & Hf).
  unfold softfloat_addMagsF64, softfloat_propagateNaNF64UI.
  rewrite He, Hf, isSigNaNF64UI_neg by done.
  assert (u64 (a + neg64 b) .& 0x7FFFFFFFFFFFFFFF = u64 (a + b) .& 0x7FFFFFFFFFFFFFFF) as ->; [|done].
  change 0x7FFFFFFFFFFFFFFF with (2 ^ 63 - 1). rewrite !land_mask by lia.
  change (wrap 63 (u64 (a + neg64 b)) = wrap 63 (u64 (a + b))).
  rewrite !wrap_narrow by lia. unfold wrap, neg64. destruct (signF64UI b).
  - replace (a + (b - 2 ^ 63)) with (a + b + (-1) * 2 ^ 63) by lia. by rewrite Z.mod_add.
  - replace (a + (b + 2 ^ 63)) with (a + b + 1 * 2 ^ 63) by lia. by rewrite Z.mod_add.
Qed.

(** f64_sub returns the rounded exact difference with its flags, and the special
    results. *)
Theorem f64_sub_correct a b s :
  tininess_after s -> in_range 64 a -> in_range 64 b ->
  f64_sub a b s = add64_ref a (neg64 b) s.
Proof.
  intros Ht Ha Hb. destruct (neg64_fields b Hb) as (Hr & Hs & _).
  unfold f64_sub. destruct (eqb (signF64UI a) (signF64UI b)) eqn:E.
  - apply eqb_prop in E. rewrite <- subMagsF64_neg by done.
    apply add_opposite_sign64; congruence || done.
  - rewrite <- addMagsF64_neg by done. apply add_same_sign64; [done..|].
    rewrite Hs. by destruct (signF64UI a), (signF64UI b).
Qed.

Lemma f64_sub_correct_witness :
  f64_sub 0x3FF0000000000000 0x3FF0000000000001 softfloat_init = add64_ref 0x3FF0000000000000 (neg64 0x3FF0000000000001) softfloat_init
  /\ f64_sub 0x3FF0000000000000 0x3FF0000000000001 softfloat_init = (0xBCB0000000000000, FpState 0 1 0).
Proof. split; [apply f64_sub_correct; concrete|vm_compute; reflexivity]. Defined.

(** ** Multiplication and division are correctly rounded *)

Definition zero64 (a : Z) : bool := (expF64UI a =? 0) && (fracF64UI a =? 0).

Definition inf_result64 (sign : bool) (s : fpstate) : Z * fpstate :=
  (b2z sign * 2 ^ 63 + inf_mag binary64, s).
Definition zero_result64 (sign : bool) (s : fpstate) : Z * fpstate := (b2z sign * 2 ^ 63, s).

Definition mul64_ref (a b : Z) (s : fpstate) : Z * fpstate :=
  let neg := xorb (signF64UI a) (signF64UI b) in
  if nan64 a || nan64 b then nan_result64 a b s
  else if inf64 a || inf64 b then
    if zero64 a || zero64 b then invalid_result64 s else inf_result64 neg s
  else deliver 64 neg (fround binary64 (mode s) neg (mag64 a * mag64 b) 1 (-2148)) s.

(** The operand with its hidden bit, subnormals normalized. *)
Definition norm_operand64 (a : Z) : Z * Z :=
  if negb (z2b (expF64UI a)) then softfloat_normSubnormalF64Sig (fracF64UI a)
  else (expF64UI a, fracF64UI a).

Lemma mag64_zero a : mag64 a = 0 <-> zero64 a = true.
Proof.
  unfold zero64, mag64. pose proof (frac_range64 a). pose proof (exp_range64 a).
  destruct (Z.eqb_spec (expF64UI a) 0) as [E|E]; cbn [andb].
  - by rewrite Z.eqb_eq.
  - pose proof (pow2_pos (expF64UI a - 1) ltac:(lia)). split; [nia|done].
Qed.

Lemma normSubnormalF64Sig_spec f :
  0 < f < 2 ^ 52 ->
  exists e, -51 <= e <= 0
    /\ softfloat_normSubnormalF64Sig f = (e, f * 2 ^ (1 - e))
    /\ 2 ^ 52 <= f * 2 ^ (1 - e) < 2 ^ 53.
Proof.
  intros Hf. unfold softfloat_normSubnormalF64Sig.
  rewrite countLeadingZeros64_spec, (proj2 (Z.eqb_neq _ _)) by lia.
  pose proof (Z.log2_nonneg f). pose proof (log2_lt f 52 ltac:(lia) ltac:(lia)).
  pose proof (Z.log2_spec f ltac:(lia)) as Hl. set (k := Z.log2 f) in *.
  exists (k - 51). replace (63 - k - 11) with (52 - k) by lia.
  replace (1 - (k - 51)) with (52 - k) by lia.
  assert (2 ^ 52 = 2 ^ k * 2 ^ (52 - k)) as E23 by (apply pow2_split; lia).
  assert (2 ^ 53 = 2 ^ Z.succ k * 2 ^ (52 - k)) as E24
    by (rewrite <- Z.pow_add_r by lia; f_equal; lia).
  pose proof (pow2_pos (52 - k) ltac:(lia)).
  rewrite shl_mul, wrap_small by (lia || nia). split; [lia|]. split; [f_equal; lia|nia].
Qed.

(** The hidden bit, already there or not. *)
Lemma hidden_bit_set64 m : 2 ^ 52 <= m < 2 ^ 53 -> (m .| 0x0010000000000000) = m.
Proof.
  intros. replace m with (2 ^ 52 + (m - 2 ^ 52)) by lia.
  rewrite <- (lor_add (2 ^ 52) (m - 2 ^ 52) 52) by (done || lia).
  rewrite Z.lor_comm, Z.lor_assoc. by change (0x0010000000000000 .| 2 ^ 52) with (2 ^ 52).
Qed.

Lemma norm_operand64_spec a e m :
  norm_operand64 a = (e, m) -> finite64 a -> zero64 a = false ->
  -51 <= e <= 2046 /\ 2 ^ 52 <= (m .| 0x0010000000000000) < 2 ^ 53
  /\ mag64 a * 2 ^ 52 = (m .| 0x0010000000000000) * 2 ^ (e + 51).
Proof.
  unfold norm_operand64, zero64, finite64, z2b. intros Hn Hf Hz.
  pose proof (exp_range64 a). pose proof (frac_range64 a). unfold mag64.
  destruct (Z.eqb_spec (expF64UI a) 0) as [E|E]; cbn [negb] in Hn.
  - cbn [andb] in Hz. apply Z.eqb_neq in Hz.
    destruct (normSubnormalF64Sig_spec (fracF64UI a)) as (e' & He' & Hs & Hm); [lia|].
    rewrite Hs in Hn. injection Hn as <- <-. rewrite hidden_bit_set64 by done.
    split; [lia|]. split; [done|]. rewrite <- Z.mul_assoc, <- Z.pow_add_r by lia.
    do 2 f_equal. lia.
  - injection Hn as <- <-.
    rewrite Z.lor_comm, (lor_add _ _ 52) by (done || lia).
    split; [lia|]. split; [lia|].
    replace (expF64UI a + 51) with (expF64UI a - 1 + 52) by lia. rewrite Z.pow_add_r by lia. lia.
Qed.

Lemma zero_test64 a : (negb (z2b (expF64UI a)) && negb (z2b (fracF64UI a))) = zero64 a.
Proof. unfold zero64, z2b. by rewrite !negb_involutive. Qed.

Lemma pack_zero64 sign : u64 (packToF64UI sign 0 0) = b2z sign * 2 ^ 63.
Proof. by destruct sign. Qed.

Lemma pack_inf64 sign : u64 (packToF64UI sign 0x7FF 0) = b2z sign * 2 ^ 63 + inf_mag binary64.
Proof. by destruct sign. Qed.

#[local] Hint Rewrite pack_zero64 pack_inf64 propagateNaNF64UI_spec : fprun.

(** The product of two normalized significands, rounded. *)
Lemma mul_round64 sign x y e s :
  tininess_after s -> - 2 ^ 13 <= e < 2 ^ 13 ->
  2 ^ 52 <= x < 2 ^ 53 -> 2 ^ 52 <= y < 2 ^ 53 ->
  (let sig128Z := softfloat_mul64To128 (u64 (x .<< 10)) (u64 (y .<< 11)) in
   let sigZ := v64 sig128Z .| b2z (z2b (v0 sig128Z)) in
   if sigZ <? 0x4000000000000000
   then softfloat_roundPackToF64 sign (e - 1) (u64 (sigZ .<< 1))
   else softfloat_roundPackToF64 sign e sigZ) s
  = deliver 64 sign (fround binary64 (mode s) sign (x * y) 1 (e - 1127)) s.
Proof.
  intros Ht He Hx Hy. rewrite !shl_mul by lia. unwrap.
  cbv zeta. rewrite mul64To128_jam by (unfold in_range; lia).
  replace (x * 2 ^ 10 * (y * 2 ^ 11)) with (x * y * 2 ^ 21) by lia.
  pose proof (jam_bounds (x * y * 2 ^ 21) (2 ^ 64) ltac:(lia)).
  assert (2 ^ 61 <= jam (x * y * 2 ^ 21) (2 ^ 64) < 2 ^ 63) by ndm.
  rewrite <- (fround_scale _ _ _ (x * y) 1 (e - 1127) 21) by nia.
  assert (fround binary64 (mode s) sign (x * y * 2 ^ 21) 1 (e - 1127 - 21)
          = fround binary64 (mode s) sign (jam (x * y * 2 ^ 21) (2 ^ 64)) 1 (e - 1084)) as ->.
  { rewrite fround_jam, fround_den_pow2 by (cbn; lia || nia). f_equal. lia. }
  cbv zeta. set (z := jam _ _) in *. destruct (Z.ltb_spec z 0x4000000000000000).
  - rewrite (shl_mul z), wrap_small, roundPackToF64_spec by (done || lia).
    replace (e - 1 - 1084) with (e - 1084 - 1) by lia. by rewrite fround_scale by lia.
  - by rewrite roundPackToF64_spec by (done || lia).
Qed.

(** The product of two finite operands. *)
Lemma mul_finite64 a b s :
  tininess_after s -> finite64 a -> finite64 b ->
  let neg := xorb (signF64UI a) (signF64UI b) in
  f64_mul a b s = deliver 64 neg (fround binary64 (mode s) neg (mag64 a * mag64 b) 1 (-2148)) s.
Proof.
  intros Ht Fa Fb neg. unfold f64_mul, finite64 in *.
  rewrite (proj2 (Z.eqb_neq (expF64UI a) _) Fa), (proj2 (Z.eqb_neq (expF64UI b) _) Fb).
  rewrite !zero_test64. fold (norm_operand64 a) (norm_operand64 b) neg.
  assert (zero64 a = true \/ zero64 b = true ->
    (b2z neg * 2 ^ 63, s)
    = deliver 64 neg (fround binary64 (mode s) neg (mag64 a * mag64 b) 1 (-2148)) s) as Hz.
  { intros Hz. assert (mag64 a * mag64 b = 0) as ->.
    { destruct Hz as [Hz|Hz]; rewrite <- mag64_zero in Hz; rewrite Hz; lia. }
    assert (fround binary64 (mode s) neg 0 1 (-2148) = (0, Flags false false false)) as ->
      by (by destruct (mode s), neg).
    unfold deliver. cbn [fst snd]. rewrite raised_0, Z.add_0_r. done. }
  destruct (zero64 a) eqn:Za; [autorewrite with fprun; apply Hz; tauto|].
  destruct (norm_operand64 a) as [ea ma] eqn:Na.
  destruct (zero64 b) eqn:Zb; [autorewrite with fprun; apply Hz; tauto|].
  destruct (norm_operand64 b) as [eb mb] eqn:Nb. clear Hz.
  destruct (norm_operand64_spec a ea ma) as (Ra & Ma & Va); [done..|].
  destruct (norm_operand64_spec b eb mb) as (Rb & Mb & Vb); [done..|].
  set (x := ma .| _) in *. set (y := mb .| _) in *.
  rewrite mul_round64 by (done || lia). f_equal.
  pose proof (pow2_pos (ea + 51) ltac:(lia)). pose proof (pow2_pos (eb + 51) ltac:(lia)).
  apply fround_same_value with (k := -2252); [nia|nia|lia..|].
  replace (ea + eb - 1023 - 1127 - -2252) with (ea + 51 + (eb + 51)) by lia.
  rewrite Z.pow_add_r by lia. change (2 ^ (-2148 - -2252)) with (2 ^ 52 * 2 ^ 52). nia.
Qed.

(** f64_mul, which multiplies by 128-bit arithmetic, returns the exact product
    rounded in the current mode with its flags, and the special results. *)
Theorem f64_mul_correct a b s :
  tininess_after s -> f64_mul a b s = mul64_ref a b s.
Proof.
  intros Ht. unfold mul64_ref. pose proof (exp_range64 a). pose proof (exp_range64 b).
  destruct (decide (finite64 a /\ finite64 b)) as [[Fa Fb]|Hf].
  { destruct (not_special64 a Fa) as [-> ->], (not_special64 b Fb) as [-> ->].
    by apply mul_finite64. }
  unfold f64_mul, zero64, finite64 in *.
  special64 a; special64 b; try tauto; rewrite Hnan, Hnan0, Hinf, Hinf0;
    rewrite ?(proj2 (Z.eqb_eq (expF64UI a) 2047)), ?(proj2 (Z.eqb_eq (expF64UI b) 2047)) by done;
    rewrite ?(proj2 (Z.eqb_neq (expF64UI a) 2047)) by done;
    rewrite !lor_nonzero; unfold z2b; rewrite !negb_involutive.
  - rewrite !(proj2 (Z.eqb_neq (expF64UI _) 0)) by lia.
    destruct (fracF64UI a =? 0), (fracF64UI b =? 0); cbn; by autorewrite with fprun.
  - rewrite (proj2 (Z.eqb_neq (expF64UI b) 2047)), (proj2 (Z.eqb_neq (expF64UI a) 0)) by lia.
    destruct (fracF64UI a =? 0), (fracF64UI b =? 0), (expF64UI b =? 0); cbn;
      by autorewrite with fprun.
  - rewrite (proj2 (Z.eqb_neq (expF64UI b) 0)) by lia.
    destruct (fracF64UI a =? 0), (fracF64UI b =? 0), (expF64UI a =? 0); cbn;
      by autorewrite with fprun.
Qed.

Lemma f64_mul_correct_witness :
  f64_mul 0x7FEFFFFFFFFFFFFF 0x4000000000000000 softfloat_init = mul64_ref 0x7FEFFFFFFFFFFFFF 0x4000000000000000 softfloat_init
  /\ f64_mul 0x7FEFFFFFFFFFFFFF 0x4000000000000000 softfloat_init = (0x7FF0000000000000, FpState 0 1 5).
Proof. split; [apply f64_mul_correct; concrete|vm_compute; reflexivity]. Defined.

(** A 53-bit significand is packed without rounding. *)
Lemma pack_exact64 sign exp m r s :
  0 <= exp <= 2045 -> 2 ^ 52 <= m < 2 ^ 53 ->
  r = u64 (packToF64UI sign exp m) ->
  (r, s) = deliver 64 sign (fround binary64 (mode s) sign m 1 (exp - 1074)) s.
Proof.
  intros He Hm ->. rewrite <- (fround_scale _ _ _ m 1 _ 10) by lia.
  replace (exp - 1074 - 10) with (emin binary64 + exp - 10) by (cbn; lia).
  rewrite <- pack_ref_fround by (cbn; lia).
  rewrite pack_ref_exact; [ |cbn; lia..|by apply Z.mod_mul].
  unfold deliver. cbn [fst snd]. rewrite Z.div_mul, raised_0, packToF64UI_eq by lia.
  rewrite wrap_small; cbn; destruct sign; cbn [Z.b2z]; f_equal; lia.
Qed.

(** A finite number rounds to itself. *)
Lemma round_exact64 a s :
  in_range 64 a -> finite64 a ->
  deliver 64 (signF64UI a) (fround binary64 (mode s) (signF64UI a) (mag64 a) 1 (-1074)) s = (a, s).
Proof.
  intros Ha Hf. unfold finite64 in Hf. pose proof (exp_range64 a). pose proof (frac_range64 a).
  rewrite (fields64 a Ha) at 4. unfold mag64.
  destruct (Z.eqb_spec (expF64UI a) 0) as [E|E].
  - rewrite fround64_small by lia. unfold deliver. cbn [fst snd]. rewrite raised_0, E.
    f_equal. lia.
  - replace (-1074) with (-1074 + (expF64UI a - 1) - (expF64UI a - 1)) by lia.
    rewrite fround_scale by lia.
    replace (-1074 + (expF64UI a - 1)) with (expF64UI a - 1 - 1074) by lia.
    symmetry. apply pack_exact64; [lia|lia|].
    rewrite packToF64UI_eq, wrap_small; destruct (signF64UI a); cbn [Z.b2z]; lia.
Qed.

