(* ===== verification/SoftDiv64.v ===== *)
(** Double-precision division, softfloat/f64_div.c: two rounds of a 32-bit
    reciprocal approximation give an estimate of the 63-bit quotient; the exact
    remainder is computed only when the estimate is too close to a rounding
    boundary. *)
From S2P Require Import Prelude FloatSpec FloatPack SoftPrim SoftF64.

(** The quotient's significand.  First from [if ( (sigZ & 0x1FF) < 4<<4 )]: the
    exact remainder decides. *)
Definition f64_div_adjust (sigB rem q sigZ : Z) : Z :=
  if (sigZ .& 0x1FF) <? (4 .<< 4) then
    let q := q .& u32 (Z.lnot 7) in
    let sigZ := sigZ .& u64 (Z.lnot 0x7F) in
    let doubleTerm := u32 (q .<< 1) in
    let rem :=
      u64 (u64 (u64 (rem - u64 (doubleTerm * u32 (sigB .>> 32))) .<< 28)
           - u64 (doubleTerm * (u32 sigB .>> 4))) in
    if z2b (rem .& 0x8000000000000000) then u64 (sigZ - (1 .<< 7))
    else if z2b rem then sigZ .| 1 else sigZ
  else sigZ.

(** From [recip32 = ...] to the call of [softfloat_roundPackToF64]. *)
Definition f64_div_sig (sigA sigB : Z) : Z :=
  let recip32 := u32 (softfloat_approxRecip32_1 (sigB .>> 32) - 2) in
  let sig32Z := u32 (u64 (u32 (sigA .>> 32) * recip32) .>> 32) in
  let doubleTerm := u32 (sig32Z .<< 1) in
  let rem :=
    u64 (u64 (u64 (sigA - u64 (doubleTerm * u32 (sigB .>> 32))) .<< 28)
         - u64 (doubleTerm * (u32 sigB .>> 4))) in
  let q := u32 ((u64 (u32 (rem .>> 32) * recip32) .>> 32) + 4) in
  let sigZ := u64 (u64 (sig32Z .<< 32) + u64 (q .<< 4)) in
  f64_div_adjust sigB rem q sigZ.

Definition f64_div (uiA uiB : Z) : FP Z :=
  let signA := signF64UI uiA in
  let expA := expF64UI uiA in
  let sigA := fracF64UI uiA in
  let signB := signF64UI uiB in
  let expB := expF64UI uiB in
  let sigB := fracF64UI uiB in
  let signZ := xorb signA signB in
  let propagateNaN := softfloat_propagateNaNF64UI uiA uiB in
  let invalid := softfloat_raiseFlags softfloat_flag_invalid ;; mret defaultNaNF64UI in
  let infinity := mret (u64 (packToF64UI signZ 0x7FF 0)) in
  let zero := mret (u64 (packToF64UI signZ 0 0)) in
  if expA =? 0x7FF then
    if z2b sigA then propagateNaN
    else if expB =? 0x7FF then
      if z2b sigB then propagateNaN else invalid
    else infinity
  else if expB =? 0x7FF then
    if z2b sigB then propagateNaN else zero
  else if negb (z2b expB) && negb (z2b sigB) then
    if negb (z2b (expA .| sigA)) then invalid
    else softfloat_raiseFlags softfloat_flag_infinite ;; infinity
  else
    let '(expB, sigB) :=
      if negb (z2b expB) then softfloat_normSubnormalF64Sig sigB else (expB, sigB) in
    if negb (z2b expA) && negb (z2b sigA) then zero
    else
      let '(expA, sigA) :=
        if negb (z2b expA) then softfloat_normSubnormalF64Sig sigA else (expA, sigA) in
      let expZ := expA - expB + 0x3FE in
      let sigA := sigA .| 0x0010000000000000 in
      let sigB := sigB .| 0x0010000000000000 in
      let '(expZ, sigA) :=
        if sigA <? sigB then (expZ - 1, u64 (sigA .<< 11)) else (expZ, u64 (sigA .<< 10)) in
      let sigB := u64 (sigB .<< 11) in
      softfloat_roundPackToF64 signZ expZ (f64_div_sig sigA sigB).

(** ** The quotient estimate *)

Section quotient.
Context (A B : Z).
Hypothesis HB : 2 ^ 63 <= B < 2 ^ 64.
Hypothesis HB16 : B mod 16 = 0.
Hypothesis HA : B / 2 <= A < B.

Let d := B / 2 ^ 32.
Let bl := (B mod 2 ^ 32) / 16.
Let R := (2 ^ 63 - 1) / d - 2.

Lemma div_d_range : 2 ^ 31 <= d < 2 ^ 32.
Proof. clear HB16 HA. unfold d. zdm. Qed.

Lemma div_B_split : B = d * 2 ^ 32 + 16 * bl /\ 0 <= bl < 2 ^ 28.
Proof. clear HA. unfold d, bl. zdm. Qed.

Lemma div_recip_bounds :
  2 ^ 63 - 3 * d <= R * d <= 2 ^ 63 - 1 - 2 * d /\ 2 ^ 31 - 3 <= R <= 2 ^ 32 - 3.
Proof.
  pose proof div_d_range as Hd. unfold R.
  pose proof (Z.div_mod (2 ^ 63 - 1) d ltac:(lia)). pose proof (Z.mod_pos_bound (2 ^ 63 - 1) d ltac:(lia)).
  set (r := (2 ^ 63 - 1) / d) in *. split; [lia|]. split.
  - assert (2 ^ 31 - 1 <= r); [|lia]. apply Z.div_le_lower_bound; lia.
  - assert (r < 2 ^ 32); [|lia]. apply Z.div_lt_upper_bound; lia.
Qed.

(** One round: [h] is the upper half of [n], the estimate is below the quotient
    [2^31 * n / B] by less than [2 + 3 * h / 2^32]. *)
Lemma div_estimate n h :
  0 < n -> 0 <= h <= d -> h * 2 ^ 32 <= n < (h + 1) * 2 ^ 32 ->
  let z := (h * R) / 2 ^ 32 in
  0 <= h * R < 2 ^ 63 /\ 0 <= z < 2 ^ 31 /\ 0 < 2 ^ 31 * n - z * B < (2 * d) * 2 ^ 32 + 3 * d * h.
Proof.
  intros Hn Hh Hnh z. pose proof div_d_range as Hd. destruct div_B_split as [HBs Hbl].
  destruct div_recip_bounds as [Hr1 Hr2].
  pose proof (Z.div_mod (h * R) (2 ^ 32) ltac:(lia)) as Hz. fold z in Hz.
  pose proof (Z.mod_pos_bound (h * R) (2 ^ 32) ltac:(lia)) as Hm.
  assert (0 <= h * R <= 2 ^ 63 - 1) by nia.
  split; [lia|]. split; [lia|]. assert (0 <= z) by lia. split.
  - assert (z * B <= h * (2 ^ 63 - 4)); [|nia].
    transitivity (z * ((d + 1) * 2 ^ 32)); [apply Z.mul_le_mono_nonneg_l; lia|].
    transitivity (h * R * (d + 1)); [|nia].
    replace (z * ((d + 1) * 2 ^ 32)) with (2 ^ 32 * z * (d + 1)) by lia.
    apply Z.mul_le_mono_nonneg_r; lia.
  - assert (h * 2 ^ 63 - 3 * d * h - 2 ^ 32 * d <= z * B); [|lia].
    transitivity (z * (d * 2 ^ 32)); [|apply Z.mul_le_mono_nonneg_l; lia].
    replace (z * (d * 2 ^ 32)) with (2 ^ 32 * z * d) by lia.
    transitivity ((h * R - 2 ^ 32) * d); [nia|]. apply Z.mul_le_mono_nonneg_r; lia.
Qed.

(** The remainder, in wrapping 64-bit arithmetic: an eighth of
    [2^31 * n - z * B]. *)
Lemma div_rem_step n z :
  0 <= z < 2 ^ 31 -> - 2 ^ 66 <= 2 ^ 31 * n - z * B < 2 ^ 67 ->
  let rem := u64 (u64 (u64 (n - u64 (u32 (z .<< 1) * d)) .<< 28) - u64 (u32 (z .<< 1) * bl)) in
  exists x, 8 * x = 2 ^ 31 * n - z * B /\ rem = u64 x.
Proof.
  intros Hz Hr rem. destruct div_B_split as [HBs Hbl].
  exists (2 ^ 28 * n - 2 * z * (d * 2 ^ 28 + bl)). split; [lia|].
  unfold rem. rewrite !shl_mul by lia. rewrite (wrap_small 32) by lia.
  rewrite wrap_sub_idemp, wrap_sub_idemp_r, <- (wrap_sub_idemp_l 64 (_ * _)), wrap_mul_idemp_l.
  rewrite wrap_sub_idemp_l. f_equal. lia.
Qed.

(** The two estimates: the quotient [A * 2^63 / B] is less than 64 below
    [z * 2^32 + q * 2^4]. *)
Lemma div_estimates :
  exists z x q,
    0 <= z < 2 ^ 31 /\ 0 < x < 2 ^ 64 /\ 4 <= q < 2 ^ 31
    /\ 8 * x = 2 ^ 31 * A - z * B /\ 0 < 2 ^ 31 * x - (q - 4) * B < 4 * B
    /\ f64_div_sig A B = f64_div_adjust B x q (z * 2 ^ 32 + q * 2 ^ 4).
Proof.
  pose proof div_d_range as Hd. destruct div_B_split as [HBs Hbl].
  destruct div_recip_bounds as [Hr1 Hr2].
  destruct (div_estimate A (A / 2 ^ 32)) as (Hz0 & Hz & Hzr); [unfold d; zdm..|].
  set (z := A / 2 ^ 32 * R / 2 ^ 32) in *.
  assert (3 * d * (A / 2 ^ 32) <= 3 * d * 2 ^ 32) by (apply Z.mul_le_mono_nonneg_l; zdm).
  destruct (div_rem_step A z) as (x & Hx & Hrem); [lia..|].
  assert (0 < x < 2 ^ 64) as Hx0 by lia. rewrite (wrap_small 64 x) in Hrem by lia.
  assert (x / 2 ^ 32 <= d) as Hh by (apply Z.lt_succ_r, Z.div_lt_upper_bound; lia).
  destruct (div_estimate x (x / 2 ^ 32)) as (Hq0 & Hq & Hqr); [lia| |zdm|]; [zdm|].
  set (q := x / 2 ^ 32 * R / 2 ^ 32) in *.
  assert (3 * (x / 2 ^ 32) <= 2 * 2 ^ 32) as Hh3 by zdm.
  assert (3 * d * (x / 2 ^ 32) <= d * (2 * 2 ^ 32))
    by (rewrite (Z.mul_comm 3), <- Z.mul_assoc; apply Z.mul_le_mono_nonneg_l; lia).
  assert (q < 5 * 2 ^ 28) by (apply (Zmult_lt_reg_r _ _ B); lia).
  exists z, x, (q + 4). split; [lia|]. split; [lia|]. split; [lia|]. split; [lia|].
  split; [lia|].
  unfold f64_div_sig, softfloat_approxRecip32_1. rewrite !(shr_div _ 32), (shr_div _ 4) by lia.
  fold d. rewrite (wrap_small 32 d) by lia. change 0x7FFFFFFFFFFFFFFF with (2 ^ 63 - 1).
  rewrite (wrap_small 32 ((2 ^ 63 - 1) / d)) by (fold R in Hr2; unfold R in Hr2; lia).
  fold R. rewrite (wrap_small 32 R), (wrap_small 32 (A / 2 ^ 32)) by (lia || zdm).
  rewrite (wrap_small 64 (A / 2 ^ 32 * R)) by lia. fold z. rewrite (wrap_small 32 z) by lia.
  change (u32 B / 2 ^ 4) with bl. rewrite Hrem.
  rewrite (wrap_small 32 (x / 2 ^ 32)), (wrap_small 64 (x / 2 ^ 32 * R)) by (lia || zdm).
  fold q. rewrite (wrap_small 32 (q + 4)), !shl_mul by lia.
  rewrite (wrap_small 64 (z * 2 ^ 32)), (wrap_small 64 ((q + 4) * _)), wrap_small by lia. done.
Qed.

(** The adjusted quotient rounds as the exact one does. *)
Definition same_quotient (z : Z) : Prop :=
  2 ^ 62 <= z < 2 ^ 63
  /\ forall r neg e, fround binary64 r neg z 1 e = fround binary64 r neg (A * 2 ^ 63) B e.

Lemma same_block z m :
  B * (2 ^ 9 * m) < A * 2 ^ 63 < B * (2 ^ 9 * (m + 1)) ->
  2 ^ 9 * m < z < 2 ^ 9 * (m + 1) ->
  same_quotient z.
Proof.
  intros HN Hz. assert (2 ^ 62 * B <= A * 2 ^ 63 < 2 ^ 63 * B) as HQ by (clear - HA HB HB16; zdm).
  assert (2 ^ 53 <= m) by (apply Z.lt_succ_r, (Zmult_lt_reg_r _ _ (B * 2 ^ 9)); lia).
  assert (m < 2 ^ 54) by (apply (Zmult_lt_reg_r _ _ (B * 2 ^ 9)); lia).
  split; [lia|]. intros r neg e.
  apply (fround_block binary64 r neg (A * 2 ^ 63) B e z 8 m); cbn [prec binary64]; lia.
Qed.

(** The sign of the exact remainder [y] chooses the neighbour. *)
Lemma div_remainder_sign m y :
  A * 2 ^ 63 = B * (2 ^ 9 * m) + 2 ^ 7 * y -> - 4 * B < 8 * y < 3 * B ->
  same_quotient
    (if 2 ^ (64 - 1) <=? u64 y then u64 (2 ^ 9 * m - 2 ^ 7)
     else if z2b (u64 y) then (2 ^ 9 * m) .| 1 else 2 ^ 9 * m).
Proof.
  intros HN Hy. assert (2 ^ 62 * B <= A * 2 ^ 63 < 2 ^ 63 * B) as HQ by (clear - HA HB HB16; zdm).
  assert (2 ^ 53 <= m) by (apply Z.lt_succ_r, (Zmult_lt_reg_r _ _ (B * 2 ^ 9)); lia).
  assert (m < 2 ^ 54 + 1) by (apply (Zmult_lt_reg_r _ _ (B * 2 ^ 9)); lia).
  change (64 - 1) with 63. destruct (decide (y < 0)) as [Hn|Hn].
  - assert (u64 y = y + 2 ^ 64) as ->
      by (symmetry; apply (Z.mod_unique _ _ (-1)); lia).
    rewrite (proj2 (Z.leb_le _ _)), wrap_small by lia. apply (same_block _ (m - 1)); lia.
  - rewrite (wrap_small 64 y), (proj2 (Z.leb_gt _ _)) by lia. unfold z2b.
    destruct (Z.eqb_spec y 0) as [->|]; cbn [negb].
    + split; [|intros r neg e].
      * assert (A * 2 ^ 63 = 2 ^ 9 * m * B) as Heq by lia. rewrite Heq in HQ. nia.
      * rewrite <- (fround_mul _ _ _ (2 ^ 9 * m) 1 e B) by lia. rewrite Z.mul_1_l.
        f_equal. lia.
    + rewrite (lor_add _ _ 1); [|lia| |lia].
      * apply (same_block _ m); lia.
      * rewrite (Z.mul_comm (2 ^ 9)). change (2 ^ 9) with (2 ^ 8 * 2 ^ 1).
        rewrite Z.mul_assoc. by apply Z.mod_mul.
Qed.

Lemma div_adjust_spec z x q :
  0 <= z < 2 ^ 31 -> 0 < x < 2 ^ 64 -> 4 <= q < 2 ^ 31 ->
  8 * x = 2 ^ 31 * A - z * B -> 0 < 2 ^ 31 * x - (q - 4) * B < 4 * B ->
  same_quotient (f64_div_adjust B x q (z * 2 ^ 32 + q * 2 ^ 4)).
Proof.
  intros Hz Hx Hq Hxe Hqe. set (sigZ := z * 2 ^ 32 + q * 2 ^ 4).
  assert (B * (sigZ - 64) < A * 2 ^ 63 < B * sigZ) as HN by (unfold sigZ; lia).
  unfold f64_div_adjust. change (4 .<< 4) with 64. change 0x1FF with (2 ^ 9 - 1).
  rewrite land_mask by lia.
  assert (0 <= sigZ < 2 ^ 64) as Hs by (unfold sigZ; lia).
  pose proof (Z.div_mod sigZ (2 ^ 9) ltac:(lia)) as Hd9.
  pose proof (Z.mod_pos_bound sigZ (2 ^ 9) ltac:(lia)) as Hm9.
  set (m := sigZ / 2 ^ 9) in *. set (l := sigZ mod 2 ^ 9) in *.
  destruct (Z.ltb_spec l 64) as [Hl|Hl].
  2: { apply (same_block _ m); nia. }
  change 7 with (2 ^ 3 - 1). change 0x7F with (2 ^ 7 - 1).
  rewrite (land_lnot_mask 32 3), (land_lnot_mask 64 7) by (unfold in_range; lia).
  assert (q mod 8 < 4 /\ sigZ / 2 ^ 7 * 2 ^ 7 = 2 ^ 9 * m) as [Hq8 Hs7].
  { unfold sigZ in *. clear - Hl Hd9 Hm9 Hq. split; zdm. }
  assert (2 ^ 9 * m = z * 2 ^ 32 + q / 8 * 2 ^ 7) as Hm
    by (unfold sigZ in *; clear - Hl Hd9 Hm9 Hq; zdm).
  rewrite Hs7. pose proof (Z.div_mod q 8 ltac:(lia)) as Hdq. pose proof (Z.mod_pos_bound q 8 ltac:(lia)).
  change (2 ^ 3) with 8 in *. set (q8 := q / 8 * 8).
  assert (- 4 * B < 2 ^ 31 * x - q8 * B < 3 * B) as Hr by (unfold q8; nia).
  destruct (div_rem_step x q8) as (y & Hy & Hrem); [unfold q8; lia|lia|].
  rewrite !(shr_div _ 32), (shr_div _ 4) by lia. fold d. rewrite (wrap_small 32 d) by (pose proof div_d_range; lia).
  change (u32 B / 2 ^ 4) with bl. cbv zeta. rewrite Hrem. clear Hrem.
  change 0x8000000000000000 with (2 ^ (64 - 1)). rewrite land_top_bit by (lia || apply wrap_range; lia).
  assert (A * 2 ^ 63 = B * (2 ^ 9 * m) + 2 ^ 7 * y) as HNy by (unfold q8 in Hy; lia).
  apply div_remainder_sign; lia.
Qed.

(** The significand [f64_div] rounds. *)
Lemma f64_div_sig_spec : same_quotient (f64_div_sig A B).
Proof.
  destruct div_estimates as (z & x & q & Hz & Hx & Hq & He1 & He2 & ->).
  by apply div_adjust_spec.
Qed.

End quotient.

(** ** [f64_div] is correctly rounded *)

(** The quotient [mag64 a / mag64 b], with a numerator scaled by 2^2200, more
    than any denominator. *)
Definition div64_ref (a b : Z) (s : fpstate) : Z * fpstate :=
  let neg := xorb (signF64UI a) (signF64UI b) in
  if nan64 a || nan64 b then nan_result64 a b s
  else if inf64 a && inf64 b then invalid_result64 s
  else if inf64 a then inf_result64 neg s
  else if inf64 b then zero_result64 neg s
  else if zero64 b then
    if zero64 a then invalid_result64 s
    else inf_result64 neg (raised softfloat_flag_infinite s)
  else if zero64 a then zero_result64 neg s
  else deliver 64 neg
         (fround binary64 (mode s) neg (mag64 a * 2 ^ 2200) (mag64 b) (-2200)) s.

Lemma div_round64 sign x y e s :
  tininess_after s -> - 2 ^ 13 <= e < 2 ^ 13 ->
  2 ^ 52 <= x < 2 ^ 53 -> 2 ^ 52 <= y < 2 ^ 53 ->
  (let '(expZ, sigA) := if x <? y then (e - 1, u64 (x .<< 11)) else (e, u64 (x .<< 10)) in
   softfloat_roundPackToF64 sign expZ (f64_div_sig sigA (u64 (y .<< 11)))) s
  = deliver 64 sign (fround binary64 (mode s) sign (x * 2 ^ 63) y (e - 1085)) s.
Proof.
  intros Ht He Hx Hy. rewrite !shl_mul by lia.
  rewrite (wrap_small 64 (x * 2 ^ 11)), (wrap_small 64 (x * 2 ^ 10)), (wrap_small 64 (y * _)) by lia.
  assert (forall A e', y * 2 ^ 11 / 2 <= A < y * 2 ^ 11 -> - 2 ^ 14 <= e' < 2 ^ 14 ->
    softfloat_roundPackToF64 sign e' (f64_div_sig A (y * 2 ^ 11)) s
    = deliver 64 sign (fround binary64 (mode s) sign (A * 2 ^ 63) (y * 2 ^ 11) (e' - 1084)) s)
    as Hq.
  { intros A e' HA He'. destruct (f64_div_sig_spec A (y * 2 ^ 11)) as [Hr Hf]; [lia|zdm|done|].
    rewrite roundPackToF64_spec by (done || lia). by rewrite Hf. }
  destruct (Z.ltb_spec x y).
  - rewrite Hq by zdm. f_equal. rewrite <- (fround_mul _ _ _ (x * 2 ^ 63) y _ (2 ^ 11)) by lia.
    f_equal; lia.
  - rewrite Hq by zdm. f_equal.
    apply fround_same_quotient with (k := e - 1085); [lia..|].
    replace (e - 1084 - (e - 1085)) with 1 by lia. rewrite Z.sub_diag. lia.
Qed.

Lemma mag64_pos a : zero64 a = false -> 0 < mag64 a.
Proof.
  intros H. pose proof (mag64_nonneg a). destruct (decide (mag64 a = 0)) as [E|]; [|lia].
  apply mag64_zero in E. congruence.
Qed.

Lemma mag64_lt a : finite64 a -> mag64 a < 2 ^ 2099.
Proof.
  intros Ha. unfold finite64 in Ha. pose proof (exp_range64 a). pose proof (frac_range64 a).
  unfold mag64. destruct (Z.eqb_spec (expF64UI a) 0).
  - apply Z.lt_le_trans with (2 ^ 52); [lia|apply pow2_le; lia].
  - pose proof (pow2_le (expF64UI a - 1) 2046 ltac:(lia)).
    apply Z.lt_le_trans with (2 ^ 53 * 2 ^ (expF64UI a - 1)).
    + pose proof (pow2_pos (expF64UI a - 1) ltac:(lia)). apply Z.mul_lt_mono_pos_r; lia.
    + rewrite <- Z.pow_add_r by lia. apply pow2_le; lia.
Qed.

Lemma div_finite64 a b s :
  tininess_after s -> finite64 a -> finite64 b -> zero64 a = false -> zero64 b = false ->
  let neg := xorb (signF64UI a) (signF64UI b) in
  f64_div a b s
  = deliver 64 neg (fround binary64 (mode s) neg (mag64 a * 2 ^ 2200) (mag64 b) (-2200)) s.
Proof.
  intros Ht Fa Fb Za Zb neg. pose proof (mag64_lt b Fb).
  pose proof (mag64_pos a Za). pose proof (mag64_pos b Zb).
  unfold f64_div, finite64 in *.
  rewrite (proj2 (Z.eqb_neq (expF64UI a) _) Fa), (proj2 (Z.eqb_neq (expF64UI b) _) Fb).
  rewrite !zero_test64, Za, Zb. fold (norm_operand64 a) (norm_operand64 b) neg.
  destruct (norm_operand64 b) as [eb mb] eqn:Nb. destruct (norm_operand64 a) as [ea ma] eqn:Na.
  destruct (norm_operand64_spec a ea ma) as (Ra & Ma & Va); [done..|].
  destruct (norm_operand64_spec b eb mb) as (Rb & Mb & Vb); [done..|].
  cbv zeta. set (x := ma .| _) in *. set (y := mb .| _) in *.
  etransitivity; [apply (div_round64 neg x y (ea - eb + 1022) s); done || lia|].
  f_equal.
  assert (mag64 b <= mag64 a * 2 ^ 2200).
  { transitivity (1 * 2 ^ 2200); [|apply Z.mul_le_mono_nonneg_r; [by apply Z.lt_le_incl, pow2_pos|lia]].
    rewrite Z.mul_1_l. pose proof (pow2_le 2099 2200 ltac:(lia)). lia. }
  apply fround_same_quotient with (k := -4400); [lia|done|lia..|].
  replace (ea - eb + 1022 - 1085 - -4400) with (ea + 51 + (4286 - eb)) by lia.
  rewrite Z.pow_add_r by lia.
  assert (2 ^ (4286 - eb) * 2 ^ (eb + 51) = 2 ^ 4337) as E
    by (rewrite <- Z.pow_add_r by lia; f_equal; lia).
  assert (2 ^ (-2200 - -4400) * 2 ^ 2200 = 2 ^ 63 * 2 ^ 4337) as E'
    by (rewrite <- !Z.pow_add_r by lia; f_equal; lia).
  generalize dependent (2 ^ (-2200 - -4400)). generalize dependent (2 ^ 2200).
  generalize dependent (2 ^ 4337). intros P E M HM Q E'.
  apply (Z.mul_reg_r _ _ (2 ^ 52)); [lia|].
  transitivity (x * 2 ^ 63 * (mag64 b * 2 ^ 52) * 2 ^ (ea + 51) * 2 ^ (4286 - eb)); [lia|].
  rewrite Vb. transitivity ((mag64 a * 2 ^ 52) * y * (Q * M)); [|lia].
  rewrite Va. transitivity (x * 2 ^ (ea + 51) * y * 2 ^ 63 * (2 ^ (4286 - eb) * 2 ^ (eb + 51))); [lia|].
  rewrite E, E'. lia.
Qed.

(** f64_div, which approximates the quotient by a 32-bit reciprocal and corrects it
    only when its low bits are near a rounding boundary, returns the exact quotient
    rounded in the current mode with its flags. *)
Theorem f64_div_correct a b s :
  tininess_after s -> f64_div a b s = div64_ref a b s.
Proof.
  intros Ht. unfold div64_ref. pose proof (exp_range64 a). pose proof (exp_range64 b).
  destruct (decide (finite64 a /\ finite64 b)) as [[Fa Fb]|Hf].
  { destruct (not_special64 a Fa) as [-> ->], (not_special64 b Fb) as [-> ->]. cbn [orb andb].
    destruct (zero64 b) eqn:Zb; [|destruct (zero64 a) eqn:Za; [|by apply div_finite64]].
    all: unfold f64_div, finite64 in *;
      rewrite (proj2 (Z.eqb_neq (expF64UI a) _) Fa), (proj2 (Z.eqb_neq (expF64UI b) _) Fb),
        !zero_test64, ?Za, Zb, ?lor_nonzero, ?zero_test64.
    - destruct (zero64 a); autorewrite with fprun; by rewrite ?pack_inf64.
    - destruct (if negb (z2b (expF64UI b)) then _ else _). autorewrite with fprun.
      by rewrite pack_zero64. }
  unfold f64_div, zero64, finite64 in *.
  special64 a; special64 b; try tauto; rewrite Hnan, Hnan0, Hinf, Hinf0;
    rewrite ?(proj2 (Z.eqb_eq (expF64UI a) 2047)), ?(proj2 (Z.eqb_eq (expF64UI b) 2047)) by done;
    rewrite ?(proj2 (Z.eqb_neq (expF64UI a) 2047)) by done; unfold z2b.
  - destruct (fracF64UI a =? 0), (fracF64UI b =? 0); cbn [negb orb andb];
      autorewrite with fprun; by rewrite ?propagateNaNF64UI_spec.
  - rewrite (proj2 (Z.eqb_neq (expF64UI b) 2047)) by lia.
    destruct (fracF64UI a =? 0); cbn [negb orb andb];
      autorewrite with fprun; by rewrite ?propagateNaNF64UI_spec, ?pack_inf64.
  - destruct (fracF64UI b =? 0); cbn [negb orb andb];
      autorewrite with fprun; by rewrite ?propagateNaNF64UI_spec, ?pack_zero64.
Qed.

Lemma f64_div_correct_witness :
  f64_div 0x3FF0000000000000 0x4008000000000000 softfloat_init = div64_ref 0x3FF0000000000000 0x4008000000000000 softfloat_init
  /\ f64_div 0x3FF0000000000000 0x4008000000000000 softfloat_init = (0x3FD5555555555555, FpState 0 1 1).
Proof. split; [apply f64_div_correct; concrete|vm_compute; reflexivity]. Defined.
