(* ===== verification/SoftCmp32.v ===== *)
(** Single-precision comparisons and classification: softfloat/f32_eq.c,
    f32_eq_signaling.c, f32_le.c, f32_lt.c, f32_le_quiet.c, f32_lt_quiet.c,
    f32_classify.c and f32_isSignalingNaN.c.  The code compares bit patterns;
    the theorems relate that to the values. *)
From S2P Require Import Prelude FloatSpec FloatPack SoftPrim SoftF32.

Definition f32_isSignalingNaN (a : Z) : bool := softfloat_isSigNaNF32UI a.

Definition f32_eq (uiA uiB : Z) : FP bool :=
  if isNaNF32UI uiA || isNaNF32UI uiB then
    (if softfloat_isSigNaNF32UI uiA || softfloat_isSigNaNF32UI uiB
     then softfloat_raiseFlags softfloat_flag_invalid else mret tt) ;;
    mret false
  else mret ((uiA =? uiB) || negb (z2b (u32 ((uiA .| uiB) .<< 1)))).

Definition f32_eq_signaling (uiA uiB : Z) : FP bool :=
  if isNaNF32UI uiA || isNaNF32UI uiB then
    softfloat_raiseFlags softfloat_flag_invalid ;; mret false
  else mret ((uiA =? uiB) || negb (z2b (u32 ((uiA .| uiB) .<< 1)))).

Definition f32_le (uiA uiB : Z) : FP bool :=
  if isNaNF32UI uiA || isNaNF32UI uiB then
    softfloat_raiseFlags softfloat_flag_invalid ;; mret false
  else
    let signA := signF32UI uiA in
    let signB := signF32UI uiB in
    mret (if negb (eqb signA signB)
          then signA || negb (z2b (u32 ((uiA .| uiB) .<< 1)))
          else (uiA =? uiB) || xorb signA (uiA <? uiB)).

Definition f32_lt (uiA uiB : Z) : FP bool :=
  if isNaNF32UI uiA || isNaNF32UI uiB then
    softfloat_raiseFlags softfloat_flag_invalid ;; mret false
  else
    let signA := signF32UI uiA in
    let signB := signF32UI uiB in
    mret (if negb (eqb signA signB)
          then signA && z2b (u32 ((uiA .| uiB) .<< 1))
          else negb (uiA =? uiB) && xorb signA (uiA <? uiB)).

Definition f32_le_quiet (uiA uiB : Z) : FP bool :=
  if isNaNF32UI uiA || isNaNF32UI uiB then
    (if softfloat_isSigNaNF32UI uiA || softfloat_isSigNaNF32UI uiB
     then softfloat_raiseFlags softfloat_flag_invalid else mret tt) ;;
    mret false
  else
    let signA := signF32UI uiA in
    let signB := signF32UI uiB in
    mret (if negb (eqb signA signB)
          then signA || negb (z2b (u32 ((uiA .| uiB) .<< 1)))
          else (uiA =? uiB) || xorb signA (uiA <? uiB)).

Definition f32_lt_quiet (uiA uiB : Z) : FP bool :=
  if isNaNF32UI uiA || isNaNF32UI uiB then
    (if softfloat_isSigNaNF32UI uiA || softfloat_isSigNaNF32UI uiB
     then softfloat_raiseFlags softfloat_flag_invalid else mret tt) ;;
    mret false
  else
    let signA := signF32UI uiA in
    let signB := signF32UI uiB in
    mret (if negb (eqb signA signB)
          then signA && z2b (u32 ((uiA .| uiB) .<< 1))
          else negb (uiA =? uiB) && xorb signA (uiA <? uiB)).

Definition f32_classify (uiA : Z) : Z :=
  let infOrNaN := expF32UI uiA =? 0xFF in
  let subnormalOrZero := expF32UI uiA =? 0 in
  let sign := signF32UI uiA in
  let frac0 := fracF32UI uiA =? 0 in
  (b2z (sign && infOrNaN && frac0) .<< 0)
  .| (b2z (sign && negb infOrNaN && negb subnormalOrZero) .<< 1)
  .| (b2z (sign && subnormalOrZero && negb frac0) .<< 2)
  .| (b2z (sign && subnormalOrZero && frac0) .<< 3)
  .| (b2z (negb sign && infOrNaN && frac0) .<< 7)
  .| (b2z (negb sign && negb infOrNaN && negb subnormalOrZero) .<< 6)
  .| (b2z (negb sign && subnormalOrZero && negb frac0) .<< 5)
  .| (b2z (negb sign && subnormalOrZero && frac0) .<< 4)
  .| (b2z (isNaNF32UI uiA && softfloat_isSigNaNF32UI uiA) .<< 8)
  .| (b2z (isNaNF32UI uiA && negb (softfloat_isSigNaNF32UI uiA)) .<< 9).

(** ** Bit patterns and values

    Without its sign, a pattern orders like its magnitude; an infinity's
    [mag32] is the value its fields would have, above every finite one. *)

Lemma isNaNF32UI_spec a : isNaNF32UI a = nan32 a.
Proof.
  unfold isNaNF32UI, nan32, z2b.
  change 0x7F800000 with ((2 ^ 8 - 1) * 2 ^ 23). change 0x007FFFFF with (2 ^ 23 - 1).
  rewrite land_field, land_mask, <- expF32UI_eq, <- fracF32UI_eq by lia. f_equal.
  apply eq_true_iff_eq. rewrite !Z.eqb_eq. lia.
Qed.

Definition mag_bits32 (a : Z) : Z := expF32UI a * 2 ^ 23 + fracF32UI a.

Lemma mag32_lt_mono a b : mag_bits32 a < mag_bits32 b -> mag32 a < mag32 b.
Proof.
  unfold mag_bits32, mag32. intros H. pose proof (exp_range a). pose proof (exp_range b).
  pose proof (frac_range a). pose proof (frac_range b).
  destruct (Z.eqb_spec (expF32UI a) 0) as [Ea|], (Z.eqb_spec (expF32UI b) 0) as [Eb|].
  - lia.
  - pose proof (pow2_pos (expF32UI b - 1) ltac:(lia)). nia.
  - lia.
  - pose proof (pow2_pos (expF32UI a - 1) ltac:(lia)).
    destruct (decide (expF32UI a = expF32UI b)) as [E|]; [rewrite <- E; nia|].
    pose proof (pow2_le (expF32UI a - 1 + 1) (expF32UI b - 1) ltac:(lia)) as Hp.
    rewrite Z.pow_add_r in Hp by lia. nia.
Qed.

Lemma mag32_lt_iff a b : mag32 a < mag32 b <-> mag_bits32 a < mag_bits32 b.
Proof.
  split; [|apply mag32_lt_mono]. intros H.
  destruct (Z.lt_trichotomy (mag_bits32 a) (mag_bits32 b)) as [?|[E|L]]; [done| |].
  - unfold mag_bits32 in E. pose proof (frac_range a). pose proof (frac_range b).
    assert (expF32UI a = expF32UI b /\ fracF32UI a = fracF32UI b) as [E1 E2] by lia.
    unfold mag32 in H. rewrite E1, E2 in H. lia.
  - apply mag32_lt_mono in L. lia.
Qed.

Lemma both_zero32 a b :
  in_range 32 a -> in_range 32 b ->
  negb (z2b (u32 ((a .| b) .<< 1))) = ((mag32 a =? 0) && (mag32 b =? 0)).
Proof.
  intros Ha Hb. unfold z2b. rewrite negb_involutive.
  assert (forall x, (mag32 x =? 0) = (x mod 2 ^ 31 =? 0)) as Hz.
  { intros x. assert ((mag32 x =? 0) = zero32 x) as ->.
    { apply eq_true_iff_eq. by rewrite Z.eqb_eq, mag32_zero. }
    unfold zero32. rewrite expF32UI_eq, fracF32UI_eq.
    apply eq_true_iff_eq. rewrite andb_true_iff, !Z.eqb_eq. split; [intros [? ?]|split]; zdm. }
  rewrite !Hz, <- !land_mask, shl_mul by lia.
  assert (u32 ((a .| b) * 2 ^ 1) = ((a .| b) .& (2 ^ 31 - 1)) * 2) as ->.
  { rewrite land_mask by lia. unfold wrap. change (2 ^ 32) with (2 ^ 31 * 2 ^ 1).
    rewrite Z.mul_mod_distr_r by lia. lia. }
  rewrite Z.land_lor_distr_l. apply eq_true_iff_eq. rewrite andb_true_iff, !Z.eqb_eq.
  rewrite <- Z.lor_eq_0_iff. lia.
Qed.

(** The order of the patterns, as the comparisons compute it. *)
Lemma le_pattern32 a b :
  in_range 32 a -> in_range 32 b ->
  (if negb (eqb (signF32UI a) (signF32UI b))
   then signF32UI a || negb (z2b (u32 ((a .| b) .<< 1)))
   else (a =? b) || xorb (signF32UI a) (a <? b))
  = (val32 a <=? val32 b).
Proof.
  intros Ha Hb. rewrite both_zero32 by done. unfold val32.
  pose proof (mag32_nonneg a). pose proof (mag32_nonneg b).
  pose proof (mag32_lt_iff a b). pose proof (mag32_lt_iff b a).
  pose proof (fields32 a Ha) as Fa. pose proof (fields32 b Hb) as Fb.
  unfold mag_bits32 in *. apply eq_true_iff_eq. rewrite Z.leb_le.
  destruct (signF32UI a), (signF32UI b); cbn [eqb negb orb andb xorb Z.b2z] in *.
  - rewrite orb_true_iff, Z.eqb_eq. case_bool; intuition lia.
  - intuition lia.
  - rewrite andb_true_iff, !Z.eqb_eq. lia.
  - rewrite orb_true_iff, Z.eqb_eq. case_bool; intuition lia.
Qed.

Lemma lt_pattern32 a b :
  in_range 32 a -> in_range 32 b ->
  (if negb (eqb (signF32UI a) (signF32UI b))
   then signF32UI a && z2b (u32 ((a .| b) .<< 1))
   else negb (a =? b) && xorb (signF32UI a) (a <? b))
  = (val32 a <? val32 b).
Proof.
  intros Ha Hb. assert ((val32 a <? val32 b) = negb (val32 b <=? val32 a)) as -> by (case_bool; done || lia).
  rewrite <- le_pattern32, (Z.lor_comm b), (Z.eqb_sym b) by done.
  destruct (signF32UI a), (signF32UI b), (z2b _); cbn; try done;
    case_bool; cbn; done || lia.
Qed.

Lemma eq_pattern32 a b :
  in_range 32 a -> in_range 32 b ->
  ((a =? b) || negb (z2b (u32 ((a .| b) .<< 1)))) = (val32 a =? val32 b).
Proof.
  intros Ha Hb. rewrite both_zero32 by done. unfold val32.
  pose proof (mag32_nonneg a). pose proof (mag32_nonneg b).
  pose proof (mag32_lt_iff a b). pose proof (mag32_lt_iff b a).
  pose proof (fields32 a Ha) as Fa. pose proof (fields32 b Hb) as Fb.
  pose proof (exp_range a). pose proof (exp_range b).
  pose proof (frac_range a). pose proof (frac_range b).
  unfold mag_bits32 in *. apply eq_true_iff_eq.
  rewrite orb_true_iff, andb_true_iff, !Z.eqb_eq.
  destruct (signF32UI a), (signF32UI b); cbn [Z.b2z] in *; lia.
Qed.

(** ** The comparisons decide the order of the values *)

(** Comparison with a NaN: false, with the given rule for the exception. *)
Definition quiet_nan32 (a b : Z) (s : fpstate) : bool * fpstate :=
  (false, raised (if snan32 a || snan32 b then softfloat_flag_invalid else 0) s).
Definition signaling_nan (s : fpstate) : bool * fpstate :=
  (false, raised softfloat_flag_invalid s).

Theorem f32_le_correct a b s :
  in_range 32 a -> in_range 32 b ->
  f32_le a b s = if nan32 a || nan32 b then signaling_nan s else (val32 a <=? val32 b, s).
Proof.
  intros. unfold f32_le. rewrite !isNaNF32UI_spec. destruct (nan32 a || nan32 b); [done|].
  rewrite mret_run, le_pattern32 by done. done.
Qed.

Theorem f32_lt_correct a b s :
  in_range 32 a -> in_range 32 b ->
  f32_lt a b s = if nan32 a || nan32 b then signaling_nan s else (val32 a <? val32 b, s).
Proof.
  intros. unfold f32_lt. rewrite !isNaNF32UI_spec. destruct (nan32 a || nan32 b); [done|].
  rewrite mret_run, lt_pattern32 by done. done.
Qed.

Theorem f32_eq_correct a b s :
  in_range 32 a -> in_range 32 b ->
  f32_eq a b s = if nan32 a || nan32 b then quiet_nan32 a b s else (val32 a =? val32 b, s).
Proof.
  intros. unfold f32_eq. rewrite !isNaNF32UI_spec. destruct (nan32 a || nan32 b).
  - autorewrite with fprun. by rewrite !isSigNaNF32UI_spec.
  - rewrite mret_run, eq_pattern32 by done. done.
Qed.

(** The quiet variants differ in the exception only. *)
Lemma f32_le_quiet_correct a b s :
  in_range 32 a -> in_range 32 b ->
  f32_le_quiet a b s = if nan32 a || nan32 b then quiet_nan32 a b s else (val32 a <=? val32 b, s).
Proof.
  intros. unfold f32_le_quiet. rewrite !isNaNF32UI_spec. destruct (nan32 a || nan32 b).
  - autorewrite with fprun. by rewrite !isSigNaNF32UI_spec.
  - rewrite mret_run, le_pattern32 by done. done.
Qed.

Lemma f32_lt_quiet_correct a b s :
  in_range 32 a -> in_range 32 b ->
  f32_lt_quiet a b s = if nan32 a || nan32 b then quiet_nan32 a b s else (val32 a <? val32 b, s).
Proof.
  intros. unfold f32_lt_quiet. rewrite !isNaNF32UI_spec. destruct (nan32 a || nan32 b).
  - autorewrite with fprun. by rewrite !isSigNaNF32UI_spec.
  - rewrite mret_run, lt_pattern32 by done. done.
Qed.

Lemma f32_eq_signaling_correct a b s :
  in_range 32 a -> in_range 32 b ->
  f32_eq_signaling a b s = if nan32 a || nan32 b then signaling_nan s else (val32 a =? val32 b, s).
Proof.
  intros. unfold f32_eq_signaling. rewrite !isNaNF32UI_spec. destruct (nan32 a || nan32 b); [done|].
  rewrite mret_run, eq_pattern32 by done. done.
Qed.

(** ** Classification: exactly the bit of the operand's class *)

Definition class32 (a : Z) : Z :=
  if nan32 a then if snan32 a then 8 else 9
  else if inf32 a then if signF32UI a then 0 else 7
  else if zero32 a then if signF32UI a then 3 else 4
  else if expF32UI a =? 0 then if signF32UI a then 2 else 5
  else if signF32UI a then 1 else 6.

(** f32_classify returns a word with exactly one bit set, the one of the operand's
    class. *)
Theorem f32_classify_correct a : f32_classify a = 2 ^ class32 a.
Proof.
  unfold f32_classify, class32. rewrite isNaNF32UI_spec, isSigNaNF32UI_spec.
  unfold snan32, inf32, nan32, zero32.
  destruct (Z.eqb_spec (expF32UI a) 0xFF) as [->|];
    [change (0xFF =? 0) with false|destruct (expF32UI a =? 0)];
    destruct (fracF32UI a =? 0), (signF32UI a), (fracF32UI a <? 2 ^ 22); reflexivity.
Qed.

(** ** All the comparisons at once *)

(** The six comparisons of binary32 decide the order of the values of their
    operands, with both zeros equal; with a NaN they answer false, the quiet
    ones raising the invalid flag for a signaling NaN only. *)
Theorem f32_compare_correct a b s :
  in_range 32 a -> in_range 32 b ->
  let nan := nan32 a || nan32 b in
  f32_le a b s = (if nan then signaling_nan s else (val32 a <=? val32 b, s))
  /\ f32_lt a b s = (if nan then signaling_nan s else (val32 a <? val32 b, s))
  /\ f32_eq_signaling a b s = (if nan then signaling_nan s else (val32 a =? val32 b, s))
  /\ f32_le_quiet a b s = (if nan then quiet_nan32 a b s else (val32 a <=? val32 b, s))
  /\ f32_lt_quiet a b s = (if nan then quiet_nan32 a b s else (val32 a <? val32 b, s))
  /\ f32_eq a b s = (if nan then quiet_nan32 a b s else (val32 a =? val32 b, s)).
Proof.
  intros Ha Hb. cbv zeta.
  by rewrite f32_le_correct, f32_lt_correct, f32_eq_signaling_correct, f32_le_quiet_correct,
    f32_lt_quiet_correct, f32_eq_correct.
Qed.

Lemma f32_compare_correct_witness :
  f32_le (2 ^ 31) 0 softfloat_init = (true, softfloat_init)
  /\ f32_lt (2 ^ 31) 0 softfloat_init = (false, softfloat_init).
Proof.
  destruct (f32_compare_correct (2 ^ 31) 0 softfloat_init ltac:(concrete) ltac:(concrete))
    as (-> & -> & _).
  vm_compute. split; reflexivity.
Defined.
