(* ===== verification/SoftCmp64.v ===== *)
(** Double-precision comparisons and classification: softfloat/f64_eq.c,
    f64_eq_signaling.c, f64_le.c, f64_lt.c, f64_le_quiet.c, f64_lt_quiet.c,
    f64_classify.c and f64_isSignalingNaN.c.  The sign is masked off the
    combined pattern where the 32-bit code shifts it out. *)
From S2P Require Import Prelude FloatSpec FloatPack SoftPrim SoftF64.

Definition f64_isSignalingNaN (a : Z) : bool := softfloat_isSigNaNF64UI a.

Definition f64_eq (uiA uiB : Z) : FP bool :=
  if isNaNF64UI uiA || isNaNF64UI uiB then
    (if softfloat_isSigNaNF64UI uiA || softfloat_isSigNaNF64UI uiB
     then softfloat_raiseFlags softfloat_flag_invalid else mret tt) ;;
    mret false
  else mret ((uiA =? uiB) || negb (z2b ((uiA .| uiB) .& 0x7FFFFFFFFFFFFFFF))).

Definition f64_eq_signaling (uiA uiB : Z) : FP bool :=
  if isNaNF64UI uiA || isNaNF64UI uiB then
    softfloat_raiseFlags softfloat_flag_invalid ;; mret false
  else mret ((uiA =? uiB) || negb (z2b ((uiA .| uiB) .& 0x7FFFFFFFFFFFFFFF))).

Definition f64_le (uiA uiB : Z) : FP bool :=
  if isNaNF64UI uiA || isNaNF64UI uiB then
    softfloat_raiseFlags softfloat_flag_invalid ;; mret false
  else
    let signA := signF64UI uiA in
    let signB := signF64UI uiB in
    mret (if negb (eqb signA signB)
          then signA || negb (z2b ((uiA .| uiB) .& 0x7FFFFFFFFFFFFFFF))
          else (uiA =? uiB) || xorb signA (uiA <? uiB)).

Definition f64_lt (uiA uiB : Z) : FP bool :=
  if isNaNF64UI uiA || isNaNF64UI uiB then
    softfloat_raiseFlags softfloat_flag_invalid ;; mret false
  else
    let signA := signF64UI uiA in
    let signB := signF64UI uiB in
    mret (if negb (eqb signA signB)
          then signA && z2b ((uiA .| uiB) .& 0x7FFFFFFFFFFFFFFF)
          else negb (uiA =? uiB) && xorb signA (uiA <? uiB)).

Definition f64_le_quiet (uiA uiB : Z) : FP bool :=
  if isNaNF64UI uiA || isNaNF64UI uiB then
    (if softfloat_isSigNaNF64UI uiA || softfloat_isSigNaNF64UI uiB
     then softfloat_raiseFlags softfloat_flag_invalid else mret tt) ;;
    mret false
  else
    let signA := signF64UI uiA in
    let signB := signF64UI uiB in
    mret (if negb (eqb signA signB)
          then signA || negb (z2b ((uiA .| uiB) .& 0x7FFFFFFFFFFFFFFF))
          else (uiA =? uiB) || xorb signA (uiA <? uiB)).

Definition f64_lt_quiet (uiA uiB : Z) : FP bool :=
  if isNaNF64UI uiA || isNaNF64UI uiB then
    (if softfloat_isSigNaNF64UI uiA || softfloat_isSigNaNF64UI uiB
     then softfloat_raiseFlags softfloat_flag_invalid else mret tt) ;;
    mret false
  else
    let signA := signF64UI uiA in
    let signB := signF64UI uiB in
    mret (if negb (eqb signA signB)
          then signA && z2b ((uiA .| uiB) .& 0x7FFFFFFFFFFFFFFF)
          else negb (uiA =? uiB) && xorb signA (uiA <? uiB)).

Definition f64_classify (uiA : Z) : Z :=
  let infOrNaN := expF64UI uiA =? 0x7FF in
  let subnormalOrZero := expF64UI uiA =? 0 in
  let sign := signF64UI uiA in
  let frac0 := fracF64UI uiA =? 0 in
  (b2z (sign && infOrNaN && frac0) .<< 0)
  .| (b2z (sign && negb infOrNaN && negb subnormalOrZero) .<< 1)
  .| (b2z (sign && subnormalOrZero && negb frac0) .<< 2)
  .| (b2z (sign && subnormalOrZero && frac0) .<< 3)
  .| (b2z (negb sign && infOrNaN && frac0) .<< 7)
  .| (b2z (negb sign && negb infOrNaN && negb subnormalOrZero) .<< 6)
  .| (b2z (negb sign && subnormalOrZero && negb frac0) .<< 5)
  .| (b2z (negb sign && subnormalOrZero && frac0) .<< 4)
  .| (b2z (isNaNF64UI uiA && softfloat_isSigNaNF64UI uiA) .<< 8)
  .| (b2z (isNaNF64UI uiA && negb (softfloat_isSigNaNF64UI uiA)) .<< 9).

(** ** Bit patterns and values

    Without its sign, a pattern orders like its magnitude; an infinity's
    [mag64] is the value its fields would have, above every finite one. *)

Lemma isNaNF64UI_spec a : isNaNF64UI a = nan64 a.
Proof.
  unfold isNaNF64UI, nan64, z2b.
  change 0x7FF0000000000000 with ((2 ^ 11 - 1) * 2 ^ 52). change 0x000FFFFFFFFFFFFF with (2 ^ 52 - 1).
  rewrite land_field, land_mask, <- expF64UI_eq, <- fracF64UI_eq by lia. f_equal.
  apply eq_true_iff_eq. rewrite !Z.eqb_eq. lia.
Qed.

Definition mag_bits64 (a : Z) : Z := expF64UI a * 2 ^ 52 + fracF64UI a.

Lemma mag64_lt_mono a b : mag_bits64 a < mag_bits64 b -> mag64 a < mag64 b.
Proof.
  unfold mag_bits64, mag64. intros H. pose proof (exp_range64 a). pose proof (exp_range64 b).
  pose proof (frac_range64 a). pose proof (frac_range64 b).
  destruct (Z.eqb_spec (expF64UI a) 0) as [Ea|], (Z.eqb_spec (expF64UI b) 0) as [Eb|].
  - lia.
  - pose proof (pow2_pos (expF64UI b - 1) ltac:(lia)). nia.
  - lia.
  - pose proof (pow2_pos (expF64UI a - 1) ltac:(lia)).
    destruct (decide (expF64UI a = expF64UI b)) as [E|]; [rewrite <- E; nia|].
    pose proof (pow2_le (expF64UI a - 1 + 1) (expF64UI b - 1) ltac:(lia)) as Hp.
    rewrite Z.pow_add_r in Hp by lia. nia.
Qed.

Lemma mag64_lt_iff a b : mag64 a < mag64 b <-> mag_bits64 a < mag_bits64 b.
Proof.
  split; [|apply mag64_lt_mono]. intros H.
  destruct (Z.lt_trichotomy (mag_bits64 a) (mag_bits64 b)) as [?|[E|L]]; [done| |].
  - unfold mag_bits64 in E. pose proof (frac_range64 a). pose proof (frac_range64 b).
    assert (expF64UI a = expF64UI b /\ fracF64UI a = fracF64UI b) as [E1 E2] by lia.
    unfold mag64 in H. rewrite E1, E2 in H. lia.
  - apply mag64_lt_mono in L. lia.
Qed.

Lemma both_zero64 a b :
  in_range 64 a -> in_range 64 b ->
  negb (z2b ((a .| b) .& 0x7FFFFFFFFFFFFFFF)) = ((mag64 a =? 0) && (mag64 b =? 0)).
Proof.
  intros Ha Hb. unfold z2b. rewrite negb_involutive.
  assert (forall x, (mag64 x =? 0) = (x mod 2 ^ 63 =? 0)) as Hz.
  { intros x. assert ((mag64 x =? 0) = zero64 x) as ->.
    { apply eq_true_iff_eq. by rewrite Z.eqb_eq, mag64_zero. }
    unfold zero64. rewrite expF64UI_eq, fracF64UI_eq.
    apply eq_true_iff_eq. rewrite andb_true_iff, !Z.eqb_eq. split; [intros [? ?]|split]; zdm. }
  rewrite !Hz, <- !land_mask by lia. change 0x7FFFFFFFFFFFFFFF with (2 ^ 63 - 1).
  rewrite Z.land_lor_distr_l. apply eq_true_iff_eq. rewrite andb_true_iff, !Z.eqb_eq.
  by rewrite <- Z.lor_eq_0_iff.
Qed.

(** The order of the patterns, as the comparisons compute it. *)
Lemma le_pattern64 a b :
  in_range 64 a -> in_range 64 b ->
  (if negb (eqb (signF64UI a) (signF64UI b))
   then signF64UI a || negb (z2b ((a .| b) .& 0x7FFFFFFFFFFFFFFF))
   else (a =? b) || xorb (signF64UI a) (a <? b))
  = (val64 a <=? val64 b).
Proof.
  intros Ha Hb. rewrite both_zero64 by done. unfold val64.
  pose proof (mag64_nonneg a). pose proof (mag64_nonneg b).
  pose proof (mag64_lt_iff a b). pose proof (mag64_lt_iff b a).
  pose proof (fields64 a Ha) as Fa. pose proof (fields64 b Hb) as Fb.
  unfold mag_bits64 in *. apply eq_true_iff_eq. rewrite Z.leb_le.
  destruct (signF64UI a), (signF64UI b); cbn [eqb negb orb andb xorb Z.b2z] in *.
  - rewrite orb_true_iff, Z.eqb_eq. case_bool; intuition lia.
  - intuition lia.
  - rewrite andb_true_iff, !Z.eqb_eq. lia.
  - rewrite orb_true_iff, Z.eqb_eq. case_bool; intuition lia.
Qed.

Lemma lt_pattern64 a b :
  in_range 64 a -> in_range 64 b ->
  (if negb (eqb (signF64UI a) (signF64UI b))
   then signF64UI a && z2b ((a .| b) .& 0x7FFFFFFFFFFFFFFF)
   else negb (a =? b) && xorb (signF64UI a) (a <? b))
  = (val64 a <? val64 b).
Proof.
  intros Ha Hb. assert ((val64 a <? val64 b) = negb (val64 b <=? val64 a)) as -> by (case_bool; done || lia).
  rewrite <- le_pattern64, (Z.lor_comm b), (Z.eqb_sym b) by done.
  destruct (signF64UI a), (signF64UI b), (z2b _); cbn; try done;
    case_bool; cbn; done || lia.
Qed.

Lemma eq_pattern64 a b :
  in_range 64 a -> in_range 64 b ->
  ((a =? b) || negb (z2b ((a .| b) .& 0x7FFFFFFFFFFFFFFF))) = (val64 a =? val64 b).
Proof.
  intros Ha Hb. rewrite both_zero64 by done. unfold val64.
  pose proof (mag64_nonneg a). pose proof (mag64_nonneg b).
  pose proof (mag64_lt_iff a b). pose proof (mag64_lt_iff b a).
  pose proof (fields64 a Ha) as Fa. pose proof (fields64 b Hb) as Fb.
  pose proof (exp_range64 a). pose proof (exp_range64 b).
  pose proof (frac_range64 a). pose proof (frac_range64 b).
  unfold mag_bits64 in *. apply eq_true_iff_eq.
  rewrite orb_true_iff, andb_true_iff, !Z.eqb_eq.
  destruct (signF64UI a), (signF64UI b); cbn [Z.b2z] in *; lia.
Qed.

(** ** The comparisons decide the order of the values *)

(** Comparison with a NaN: false, with the given rule for the exception. *)
Definition quiet_nan64 (a b : Z) (s : fpstate) : bool * fpstate :=
  (false, raised (if snan64 a || snan64 b then softfloat_flag_invalid else 0) s).
Definition signaling_nan64 (s : fpstate) : bool * fpstate :=
  (false, raised softfloat_flag_invalid s).

Theorem f64_le_correct a b s :
  in_range 64 a -> in_range 64 b ->
  f64_le a b s = if nan64 a || nan64 b then signaling_nan64 s else (val64 a <=? val64 b, s).
Proof.
  intros. unfold f64_le. rewrite !isNaNF64UI_spec. destruct (nan64 a || nan64 b); [done|].
  rewrite mret_run, le_pattern64 by done. done.
Qed.

Theorem f64_lt_correct a b s :
  in_range 64 a -> in_range 64 b ->
  f64_lt a b s = if nan64 a || nan64 b then signaling_nan64 s else (val64 a <? val64 b, s).
Proof.
  intros. unfold f64_lt. rewrite !isNaNF64UI_spec. destruct (nan64 a || nan64 b); [done|].
  rewrite mret_run, lt_pattern64 by done. done.
Qed.

Theorem f64_eq_correct a b s :
  in_range 64 a -> in_range 64 b ->
  f64_eq a b s = if nan64 a || nan64 b then quiet_nan64 a b s else (val64 a =? val64 b, s).
Proof.
  intros. unfold f64_eq. rewrite !isNaNF64UI_spec. destruct (nan64 a || nan64 b).
  - autorewrite with fprun. by rewrite !isSigNaNF64UI_spec.
  - rewrite mret_run, eq_pattern64 by done. done.
Qed.

(** The quiet variants differ in the exception only. *)
Lemma f64_le_quiet_correct a b s :
  in_range 64 a -> in_range 64 b ->
  f64_le_quiet a b s = if nan64 a || nan64 b then quiet_nan64 a b s else (val64 a <=? val64 b, s).
Proof.
  intros. unfold f64_le_quiet. rewrite !isNaNF64UI_spec. destruct (nan64 a || nan64 b).
  - autorewrite with fprun. by rewrite !isSigNaNF64UI_spec.
  - rewrite mret_run, le_pattern64 by done. done.
Qed.

Lemma f64_lt_quiet_correct a b s :
  in_range 64 a -> in_range 64 b ->
  f64_lt_quiet a b s = if nan64 a || nan64 b then quiet_nan64 a b s else (val64 a <? val64 b, s).
Proof.
  intros. unfold f64_lt_quiet. rewrite !isNaNF64UI_spec. destruct (nan64 a || nan64 b).
  - autorewrite with fprun. by rewrite !isSigNaNF64UI_spec.
  - rewrite mret_run, lt_pattern64 by done. done.
Qed.

Lemma f64_eq_signaling_correct a b s :
  in_range 64 a -> in_range 64 b ->
  f64_eq_signaling a b s = if nan64 a || nan64 b then signaling_nan64 s else (val64 a =? val64 b, s).
Proof.
  intros. unfold f64_eq_signaling. rewrite !isNaNF64UI_spec. destruct (nan64 a || nan64 b); [done|].
  rewrite mret_run, eq_pattern64 by done. done.
Qed.

(** ** Classification: exactly the bit of the operand's class *)

Definition class64 (a : Z) : Z :=
  if nan64 a then if snan64 a then 8 else 9
  else if inf64 a then if signF64UI a then 0 else 7
  else if zero64 a then if signF64UI a then 3 else 4
  else if expF64UI a =? 0 then if signF64UI a then 2 else 5
  else if signF64UI a then 1 else 6.

Theorem f64_classify_correct a : f64_classify a = 2 ^ class64 a.
Proof.
  unfold f64_classify, class64. rewrite isNaNF64UI_spec, isSigNaNF64UI_spec.
  unfold snan64, inf64, nan64, zero64.
  destruct (Z.eqb_spec (expF64UI a) 0x7FF) as [->|];
    [change (0x7FF =? 0) with false|destruct (expF64UI a =? 0)];
    destruct (fracF64UI a =? 0), (signF64UI a), (fracF64UI a <? 2 ^ 51); reflexivity.
Qed.

(** ** All the comparisons at once *)

(** The six comparisons of binary64 decide the order of the values of their
    operands, with both zeros equal; with a NaN they answer false, the quiet
    ones raising the invalid flag for a signaling NaN only. *)
Theorem f64_compare_correct a b s :
  in_range 64 a -> in_range 64 b ->
  let nan := nan64 a || nan64 b in
  f64_le a b s = (if nan then signaling_nan64 s else (val64 a <=? val64 b, s))
  /\ f64_lt a b s = (if nan then signaling_nan64 s else (val64 a <? val64 b, s))
  /\ f64_eq_signaling a b s = (if nan then signaling_nan64 s else (val64 a =? val64 b, s))
  /\ f64_le_quiet a b s = (if nan then quiet_nan64 a b s else (val64 a <=? val64 b, s))
  /\ f64_lt_quiet a b s = (if nan then quiet_nan64 a b s else (val64 a <? val64 b, s))
  /\ f64_eq a b s = (if nan then quiet_nan64 a b s else (val64 a =? val64 b, s)).
Proof.
  intros Ha Hb. cbv zeta.
  by rewrite f64_le_correct, f64_lt_correct, f64_eq_signaling_correct, f64_le_quiet_correct,
    f64_lt_quiet_correct, f64_eq_correct.
Qed.

Lemma f64_compare_correct_witness :
  f64_le (2 ^ 63) 0 softfloat_init = (true, softfloat_init)
  /\ f64_lt (2 ^ 63) 0 softfloat_init = (false, softfloat_init).
Proof.
  destruct (f64_compare_correct (2 ^ 63) 0 softfloat_init ltac:(concrete) ltac:(concrete))
    as (-> & -> & _).
  vm_compute. split; reflexivity.
Defined.
