(* ===== verification/SoftConv.v ===== *)
(** Conversions from integers and between the two precisions:
    softfloat/i32_to_f32.c, ui32_to_f32.c, i64_to_f32.c, ui64_to_f32.c,
    i32_to_f64.c, ui32_to_f64.c, i64_to_f64.c, ui64_to_f64.c, f32_to_f64.c and
    f64_to_f32.c. *)
From S2P Require Import Prelude FloatSpec FloatPack SoftPrim SoftF32 SoftF64.

(** [sign ? -(uint_fast64_t) a : (uint_fast64_t) a]. *)
Definition abs_u64 (sign : bool) (a : Z) : Z := if sign then u64 (- u64 a) else u64 a.

Definition i32_to_f32 (a : Z) : FP Z :=
  let sign := a <? 0 in
  if negb (z2b (a .& 0x7FFFFFFF)) then
    mret (u32 (if sign then packToF32UI true 0x9E 0 else 0))
  else softfloat_normRoundPackToF32 sign 0x9C (abs_u64 sign a).

Definition ui32_to_f32 (a : Z) : FP Z :=
  if negb (z2b a) then mret 0
  else if z2b (a .& 0x80000000) then
    softfloat_roundPackToF32 false 0x9D ((a .>> 1) .| (a .& 1))
  else softfloat_normRoundPackToF32 false 0x9C a.

(** The common body of [i64_to_f32] and [ui64_to_f32], from the magnitude. *)
Definition i64_to_f32_abs (sign : bool) (absA : Z) : FP Z :=
  let shiftCount := softfloat_countLeadingZeros64 absA - 40 in
  if 0 <=? shiftCount then
    mret (u32 (if z2b absA
               then packToF32UI sign (0x95 - shiftCount) (u64 (absA .<< shiftCount)) else 0))
  else
    let shiftCount := shiftCount + 7 in
    let sig := if shiftCount <? 0 then softfloat_shortShiftRightJam64 absA (- shiftCount)
               else u64 (absA .<< shiftCount) in
    softfloat_roundPackToF32 sign (0x9C - shiftCount) sig.

Definition i64_to_f32 (a : Z) : FP Z :=
  let sign := a <? 0 in
  i64_to_f32_abs sign (abs_u64 sign a).

Definition ui64_to_f32 (a : Z) : FP Z := i64_to_f32_abs false a.

Definition i32_to_f64 (a : Z) : FP Z :=
  if negb (z2b a) then mret 0
  else
    let sign := a <? 0 in
    let absA := abs_u64 sign a in
    let shiftCount := softfloat_countLeadingZeros32 absA + 21 in
    mret (packToF64UI sign (0x432 - shiftCount) (u64 (absA .<< shiftCount))).

Definition ui32_to_f64 (a : Z) : FP Z :=
  if negb (z2b a) then mret 0
  else
    let shiftCount := softfloat_countLeadingZeros32 a + 21 in
    mret (packToF64UI false (0x432 - shiftCount) (u64 (a .<< shiftCount))).

Definition i64_to_f64 (a : Z) : FP Z :=
  let sign := a <? 0 in
  if negb (z2b (a .& 0x7FFFFFFFFFFFFFFF)) then
    mret (if sign then packToF64UI true 0x43E 0 else 0)
  else softfloat_normRoundPackToF64 sign 0x43C (abs_u64 sign a).

Definition ui64_to_f64 (a : Z) : FP Z :=
  if negb (z2b a) then mret 0
  else if z2b (a .& 0x8000000000000000) then
    softfloat_roundPackToF64 false 0x43D (softfloat_shortShiftRightJam64 a 1)
  else softfloat_normRoundPackToF64 false 0x43C a.

(** [softfloat_f32UIToCommonNaN]: raises invalid for a signaling NaN. *)
Definition softfloat_f32UIToCommonNaN (uiA : Z) : FP unit :=
  if negb (z2b (uiA .& 0x00400000)) then softfloat_raiseFlags softfloat_flag_invalid else mret tt.
Definition softfloat_f64UIToCommonNaN (uiA : Z) : FP unit :=
  if negb (z2b (uiA .& 0x0008000000000000))
  then softfloat_raiseFlags softfloat_flag_invalid else mret tt.

Definition f32_to_f64 (uiA : Z) : FP Z :=
  let sign := signF32UI uiA in
  let exp := expF32UI uiA in
  let sig := fracF32UI uiA in
  if exp =? 0xFF then
    if z2b sig then softfloat_f32UIToCommonNaN uiA ;; mret defaultNaNF64UI
    else mret (packToF64UI sign 0x7FF 0)
  else if negb (z2b exp) && negb (z2b sig) then mret (packToF64UI sign 0 0)
  else
    let '(exp, sig) :=
      if negb (z2b exp)
      then let '(e, m) := softfloat_normSubnormalF32Sig sig in (e - 1, m)
      else (exp, sig) in
    mret (packToF64UI sign (exp + 0x380) (u64 (sig .<< 29))).

Definition f64_to_f32 (uiA : Z) : FP Z :=
  let sign := signF64UI uiA in
  let exp := expF64UI uiA in
  let sig := fracF64UI uiA in
  if exp =? 0x7FF then
    if z2b sig then softfloat_f64UIToCommonNaN uiA ;; mret defaultNaNF32UI
    else mret (u32 (packToF32UI sign 0xFF 0))
  else
    let sig32 := softfloat_shortShiftRightJam64 sig 22 in
    if negb (z2b (exp .| sig32)) then mret (u32 (packToF32UI sign 0 0))
    else softfloat_roundPackToF32 sign (exp - 0x381) (sig32 .| 0x40000000).

(** ** Integers to floating point: correctly rounded *)

(** The value [a], on the scale of the format's least bit. *)
Definition int_to_f32_ref (a : Z) (s : fpstate) : Z * fpstate := round32 (a * 2 ^ 149) false s.
Definition int_to_f64_ref (a : Z) (s : fpstate) : Z * fpstate := round64 (a * 2 ^ 1074) false s.

Lemma int_to_f32_ref_nonzero a s :
  a <> 0 ->
  int_to_f32_ref a s = deliver 32 (a <? 0) (fround binary32 (mode s) (a <? 0) (Z.abs a) 1 0) s.
Proof.
  intros Ha. unfold int_to_f32_ref, round32.
  pose proof (pow2_pos 149 ltac:(lia)). rewrite (proj2 (Z.eqb_neq _ 0)) by nia.
  assert ((a * 2 ^ 149 <? 0) = (a <? 0)) as -> by (case_bool; done || nia).
  rewrite Z.abs_mul, (Z.abs_eq (2 ^ 149)) by lia.
  change (-149) with (0 - 149). by rewrite fround_scale by lia.
Qed.

Lemma int_to_f64_ref_nonzero a s :
  a <> 0 ->
  int_to_f64_ref a s = deliver 64 (a <? 0) (fround binary64 (mode s) (a <? 0) (Z.abs a) 1 0) s.
Proof.
  intros Ha. unfold int_to_f64_ref, round64.
  pose proof (pow2_pos 1074 ltac:(lia)). rewrite (proj2 (Z.eqb_neq _ 0)) by nia.
  assert ((a * 2 ^ 1074 <? 0) = (a <? 0)) as -> by (case_bool; done || nia).
  rewrite Z.abs_mul, (Z.abs_eq (2 ^ 1074)) by lia.
  change (-1074) with (0 - 1074). by rewrite fround_scale by lia.
Qed.

Lemma int_to_f32_ref_zero s : int_to_f32_ref 0 s = (0, s).
Proof.
  unfold int_to_f32_ref, round32. cbn [Z.mul Z.eqb Z.abs].
  rewrite fround32_small by lia. unfold deliver. cbn [fst snd]. by rewrite raised_0.
Qed.

Lemma int_to_f64_ref_zero s : int_to_f64_ref 0 s = (0, s).
Proof.
  unfold int_to_f64_ref, round64. cbn [Z.mul Z.eqb Z.abs].
  rewrite fround64_small by lia. unfold deliver. cbn [fst snd]. by rewrite raised_0.
Qed.

Lemma abs_u64_spec sign a :
  sign = (a <? 0) -> - 2 ^ 63 <= a < 2 ^ 64 -> abs_u64 sign a = Z.abs a.
Proof.
  intros -> Ha. unfold abs_u64, wrap. destruct (Z.ltb_spec a 0).
  - rewrite <- (Z.mod_unique a (2 ^ 64) (-1) (a + 2 ^ 64)) by lia.
    rewrite <- (Z.mod_unique _ (2 ^ 64) (-1) (- a)) by lia. lia.
  - rewrite Z.mod_small; lia.
Qed.

Theorem i32_to_f32_correct a s :
  tininess_after s -> - 2 ^ 31 <= a < 2 ^ 31 -> i32_to_f32 a s = int_to_f32_ref a s.
Proof.
  intros Ht Ha. unfold i32_to_f32.
  change 0x7FFFFFFF with (2 ^ 31 - 1). rewrite land_mask by lia. unfold z2b.
  rewrite negb_involutive. destruct (Z.eqb_spec (a mod 2 ^ 31) 0) as [E|E].
  - assert (a = 0 \/ a = - 2 ^ 31) as [->| ->] by zdm.
    + by rewrite int_to_f32_ref_zero.
    + rewrite mret_run, int_to_f32_ref_nonzero by lia. change (- 2 ^ 31 <? 0) with true.
      transitivity (deliver 32 true (fround binary32 (mode s) true (2 ^ 23) 1 (157 - 149)) s).
      * by apply pack_exact32.
      * by rewrite <- (fround_scale _ _ _ (2 ^ 23) 1 _ 8) by lia.
  - rewrite abs_u64_spec by (done || lia).
    assert (a <> 0 /\ a <> - 2 ^ 31) by (split; intros ->; done).
    by rewrite normRoundPackToF32_spec, int_to_f32_ref_nonzero by (done || lia).
Qed.

Theorem ui32_to_f32_correct a s :
  tininess_after s -> in_range 32 a -> ui32_to_f32 a s = int_to_f32_ref a s.
Proof.
  intros Ht Ha. unfold ui32_to_f32, in_range in *.
  change 0x80000000 with (2 ^ (32 - 1)). rewrite land_top_bit by done. unfold z2b at 1.
  rewrite negb_involutive. destruct (Z.eqb_spec a 0) as [->|]; [by rewrite int_to_f32_ref_zero|].
  rewrite int_to_f32_ref_nonzero, (proj2 (Z.ltb_ge a 0)), Z.abs_eq by lia.
  destruct (Z.leb_spec (2 ^ (32 - 1)) a).
  - change 1 with (2 ^ 1 - 1) at 2. rewrite land_mask, shr_div by lia.
    change (2 ^ (32 - 1)) with (2 ^ 31) in *.
    assert (((a / 2 ^ 1) .| (a mod 2 ^ 1)) = jam a (2 ^ 1)) as ->.
    { unfold jam. do 2 f_equal. change (2 ^ 1) with 2. rewrite Zmod_odd. by destruct (Z.odd a). }
    pose proof (jam_bounds a (2 ^ 1) ltac:(lia)).
    assert (2 ^ 30 <= jam a (2 ^ 1) < 2 ^ 31).
    { split; [zdm|]. rewrite jam_cases. destruct (_ =? 0); zdm. }
    rewrite roundPackToF32_spec by (done || lia).
    rewrite fround_jam, fround_den_pow2 by (cbn [prec binary32]; lia). done.
  - change (2 ^ (32 - 1)) with (2 ^ 31) in *. by rewrite normRoundPackToF32_spec by (done || lia).
Qed.

(** Normalization with the count of leading zeros. *)
Lemma clz_normal w c n k :
  0 < n < 2 ^ w -> c = w - 1 - Z.log2 n -> 0 <= k -> k <= c ->
  2 ^ (w - 1 - k) <= n * 2 ^ (c - k) < 2 ^ (w - k).
Proof.
  intros Hn -> Hk Hc. assert (0 <= w) by (destruct (decide (w < 0)); [rewrite Z.pow_neg_r in Hn|]; lia).
  pose proof (Z.log2_nonneg n). pose proof (log2_lt n w ltac:(lia) ltac:(lia)).
  pose proof (Z.log2_spec n ltac:(lia)) as Hl. set (l := Z.log2 n) in *.
  assert (2 ^ (w - 1 - k) = 2 ^ l * 2 ^ (w - 1 - l - k)) as ->
    by (rewrite <- Z.pow_add_r by lia; f_equal; lia).
  assert (2 ^ (w - k) = 2 ^ Z.succ l * 2 ^ (w - 1 - l - k)) as ->
    by (rewrite <- Z.pow_add_r by lia; f_equal; lia).
  pose proof (pow2_pos (w - 1 - l - k) ltac:(lia)). nia.
Qed.

Lemma i64_to_f32_abs_spec sign n s :
  tininess_after s -> in_range 64 n -> n <> 0 ->
  i64_to_f32_abs sign n s = deliver 32 sign (fround binary32 (mode s) sign n 1 0) s.
Proof.
  intros Ht Hn Hn0. unfold i64_to_f32_abs, in_range in *.
  rewrite countLeadingZeros64_spec, (proj2 (Z.eqb_neq n 0)) by (unfold in_range; lia).
  pose proof (Z.log2_nonneg n). pose proof (log2_lt n 64 ltac:(lia) ltac:(lia)).
  unfold z2b. rewrite (proj2 (Z.eqb_neq n 0)) by lia. cbn [negb].
  remember (63 - Z.log2 n) as c eqn:Hc.
  destruct (Z.leb_spec 0 (c - 40)).
  - pose proof (clz_normal 64 c n 40 ltac:(lia) ltac:(lia) ltac:(lia) ltac:(lia)) as Hm.
    change (64 - 1 - 40) with 23 in Hm. change (64 - 40) with 24 in Hm.
    rewrite (shl_mul n), (wrap_small 64 (n * _)), mret_run by lia.
    rewrite <- (fround_scale _ _ _ n 1 0 (c - 40)) by lia.
    replace (0 - (c - 40)) with (149 - (c - 40) - 149) by lia.
    apply pack_exact32; lia || done.
  - destruct (Z.ltb_spec (c - 40 + 7) 0).
    + rewrite shortShiftRightJam64_jam by lia. replace (- (c - 40 + 7)) with (33 - c) by lia.
      pose proof (clz_normal 64 c n 0 ltac:(lia) ltac:(lia) ltac:(lia) ltac:(lia)) as Hm.
      rewrite !Z.sub_0_r in Hm. change (64 - 1) with 63 in Hm.
      assert (2 ^ 63 = 2 ^ 30 * 2 ^ (33 - c) * 2 ^ c) as E63
        by (rewrite <- !Z.pow_add_r by lia; f_equal; lia).
      assert (2 ^ 64 = 2 ^ 31 * 2 ^ (33 - c) * 2 ^ c) as E64
        by (rewrite <- !Z.pow_add_r by lia; f_equal; lia).
      pose proof (pow2_pos c ltac:(lia)). pose proof (pow2_le 1 (33 - c) ltac:(lia)) as Hd.
      change (2 ^ 1) with 2 in Hd.
      assert (2 ^ 30 * 2 ^ (33 - c) <= n < 2 ^ 31 * 2 ^ (33 - c)) as Hq by nia.
      assert (2 ^ 30 <= jam n (2 ^ (33 - c)) < 2 ^ 31).
      { pose proof (jam_bounds n (2 ^ (33 - c)) ltac:(lia)).
        assert (2 ^ 30 <= n / 2 ^ (33 - c)) by (apply Z.div_le_lower_bound; lia).
        assert (n / 2 ^ (33 - c) < 2 ^ 31) by (apply Z.div_lt_upper_bound; lia).
        split; [lia|]. rewrite jam_cases. destruct (_ =? 0); [lia|].
        set (q := n / _) in *. clearbody q. zdm. }
      rewrite roundPackToF32_spec by (done || lia). f_equal.
      rewrite fround_jam, fround_den_pow2 by (cbn [prec binary32]; lia || nia). f_equal. lia.
    + pose proof (clz_normal 64 c n 33 ltac:(lia) ltac:(lia) ltac:(lia) ltac:(lia)) as Hm.
      change (64 - 1 - 33) with 30 in Hm. change (64 - 33) with 31 in Hm.
      replace (c - 40 + 7) with (c - 33) by lia.
      rewrite (shl_mul n), (wrap_small 64 (n * _)) by lia.
      rewrite roundPackToF32_spec by (done || lia). f_equal.
      rewrite <- (fround_scale _ _ _ n 1 0 (c - 33)) by lia. f_equal. lia.
Qed.

Lemma i64_to_f32_abs_zero s : i64_to_f32_abs false 0 s = (0, s).
Proof. reflexivity. Qed.

Theorem i64_to_f32_correct a s :
  tininess_after s -> - 2 ^ 63 <= a < 2 ^ 63 -> i64_to_f32 a s = int_to_f32_ref a s.
Proof.
  intros Ht Ha. unfold i64_to_f32. destruct (decide (a = 0)) as [->|].
  - by rewrite int_to_f32_ref_zero.
  - rewrite abs_u64_spec, int_to_f32_ref_nonzero by (done || lia).
    apply i64_to_f32_abs_spec; [done|unfold in_range; lia|lia].
Qed.

Theorem ui64_to_f32_correct a s :
  tininess_after s -> in_range 64 a -> ui64_to_f32 a s = int_to_f32_ref a s.
Proof.
  intros Ht Ha. unfold ui64_to_f32. destruct (decide (a = 0)) as [->|].
  - by rewrite int_to_f32_ref_zero.
  - unfold in_range in Ha. rewrite int_to_f32_ref_nonzero, (proj2 (Z.ltb_ge a 0)), Z.abs_eq by lia.
    by apply i64_to_f32_abs_spec.
Qed.

(** A 32-bit magnitude in double precision: exact. *)
Lemma pack_u32_f64 sign n s :
  in_range 32 n -> n <> 0 ->
  let shiftCount := softfloat_countLeadingZeros32 n + 21 in
  (packToF64UI sign (0x432 - shiftCount) (u64 (n .<< shiftCount)), s)
  = deliver 64 sign (fround binary64 (mode s) sign n 1 0) s.
Proof.
  intros Hn Hn0. unfold in_range in Hn. cbv zeta.
  rewrite countLeadingZeros32_spec, (proj2 (Z.eqb_neq n 0)) by (unfold in_range; lia).
  pose proof (Z.log2_nonneg n). pose proof (log2_lt n 32 ltac:(lia) ltac:(lia)).
  remember (31 - Z.log2 n + 21) as c eqn:Hc.
  pose proof (clz_normal 53 c n 0 ltac:(lia) ltac:(lia) ltac:(lia) ltac:(lia)) as Hm.
  rewrite !Z.sub_0_r in Hm. change (53 - 1) with 52 in Hm.
  rewrite (shl_mul n), (wrap_small 64 (n * _)) by lia.
  rewrite <- (fround_scale _ _ _ n 1 0 c) by lia. replace (0 - c) with (0x432 - c - 1074) by lia.
  apply pack_exact64; [lia|lia|]. unfold packToF64UI. by rewrite wrap_idemp.
Qed.

Theorem i32_to_f64_correct a s :
  - 2 ^ 31 <= a < 2 ^ 31 -> i32_to_f64 a s = int_to_f64_ref a s.
Proof.
  intros Ha. unfold i32_to_f64, z2b. rewrite negb_involutive.
  destruct (Z.eqb_spec a 0) as [->|]; [by rewrite int_to_f64_ref_zero|].
  rewrite abs_u64_spec, int_to_f64_ref_nonzero by (done || lia).
  apply pack_u32_f64; unfold in_range; lia.
Qed.

Theorem ui32_to_f64_correct a s :
  in_range 32 a -> ui32_to_f64 a s = int_to_f64_ref a s.
Proof.
  intros Ha. unfold ui32_to_f64, z2b. rewrite negb_involutive.
  destruct (Z.eqb_spec a 0) as [->|]; [by rewrite int_to_f64_ref_zero|].
  pose proof Ha as Ha'. unfold in_range in Ha'.
  rewrite int_to_f64_ref_nonzero, (proj2 (Z.ltb_ge a 0)), Z.abs_eq by lia.
  by apply pack_u32_f64.
Qed.

Theorem i64_to_f64_correct a s :
  tininess_after s -> - 2 ^ 63 <= a < 2 ^ 63 -> i64_to_f64 a s = int_to_f64_ref a s.
Proof.
  intros Ht Ha. unfold i64_to_f64.
  change 0x7FFFFFFFFFFFFFFF with (2 ^ 63 - 1). rewrite land_mask by lia. unfold z2b.
  rewrite negb_involutive. destruct (Z.eqb_spec (a mod 2 ^ 63) 0) as [E|E].
  - assert (a = 0 \/ a = - 2 ^ 63) as [->| ->] by zdm.
    + by rewrite int_to_f64_ref_zero.
    + rewrite mret_run, int_to_f64_ref_nonzero by lia. change (- 2 ^ 63 <? 0) with true.
      transitivity (deliver 64 true (fround binary64 (mode s) true (2 ^ 52) 1 (1085 - 1074)) s).
      * by apply pack_exact64.
      * by rewrite <- (fround_scale _ _ _ (2 ^ 52) 1 _ 11) by lia.
  - rewrite abs_u64_spec by (done || lia).
    assert (a <> 0 /\ a <> - 2 ^ 63) by (split; intros ->; done).
    by rewrite normRoundPackToF64_spec, int_to_f64_ref_nonzero by (done || lia).
Qed.

Theorem ui64_to_f64_correct a s :
  tininess_after s -> in_range 64 a -> ui64_to_f64 a s = int_to_f64_ref a s.
Proof.
  intros Ht Ha. unfold ui64_to_f64, in_range in *.
  change 0x8000000000000000 with (2 ^ (64 - 1)). rewrite land_top_bit by done. unfold z2b at 1.
  rewrite negb_involutive. destruct (Z.eqb_spec a 0) as [->|]; [by rewrite int_to_f64_ref_zero|].
  rewrite int_to_f64_ref_nonzero, (proj2 (Z.ltb_ge a 0)), Z.abs_eq by lia.
  change (2 ^ (64 - 1)) with (2 ^ 63). destruct (Z.leb_spec (2 ^ 63) a).
  - rewrite shortShiftRightJam64_jam by lia.
    pose proof (jam_bounds a (2 ^ 1) ltac:(lia)).
    assert (2 ^ 62 <= jam a (2 ^ 1) < 2 ^ 63).
    { split; [zdm|]. rewrite jam_cases. destruct (_ =? 0); zdm. }
    rewrite roundPackToF64_spec by (done || lia).
    rewrite fround_jam, fround_den_pow2 by (cbn [prec binary64]; lia). done.
  - by rewrite normRoundPackToF64_spec by (done || lia).
Qed.

(** ** Between the precisions *)

Lemma fields_of_pattern64 sign e f :
  0 <= e < 2 ^ 11 -> 0 <= f < 2 ^ 52 ->
  let r := b2z sign * 2 ^ 63 + e * 2 ^ 52 + f in
  in_range 64 r /\ signF64UI r = sign /\ expF64UI r = e /\ fracF64UI r = f.
Proof.
  intros He Hf r. assert (in_range 64 r) as Hr by (unfold r, in_range; destruct sign; cbn [Z.b2z]; lia).
  split; [done|]. rewrite signF64UI_eq, expF64UI_eq, fracF64UI_eq by done. unfold r.
  destruct sign; cbn [Z.b2z]; (split; [case_bool; done || lia|split; zdm]).
Qed.

(** Widening is exact: the value is unchanged and no flag is raised. *)
Theorem f32_to_f64_correct a s :
  f32_to_f64 a s
  = if nan32 a then
      (defaultNaNF64UI, raised (if snan32 a then softfloat_flag_invalid else 0) s)
    else (fst (f32_to_f64 a s), s).
Proof.
  unfold f32_to_f64, softfloat_f32UIToCommonNaN, snan32, nan32.
  pose proof (frac_range a) as Hf. pose proof (exp_range a) as He.
  change 0x00400000 with ((2 ^ 1 - 1) * 2 ^ 22). rewrite land_field by lia.
  assert (negb (z2b ((a / 2 ^ 22) mod 2 ^ 1 * 2 ^ 22)) = (fracF32UI a <? 2 ^ 22)) as ->.
  { unfold z2b. rewrite negb_involutive, fracF32UI_eq. case_bool; auto; zdm. }
  unfold z2b. destruct (Z.eqb_spec (expF32UI a) 0xFF) as [E|E]; cbn [andb].
  - destruct (Z.eqb_spec (fracF32UI a) 0); cbn [negb].
    + by autorewrite with fprun.
    + autorewrite with fprun. done.
  - destruct (_ && _); [done|]. destruct (if negb _ then _ else _). done.
Qed.

(** The fields the widened number is packed from; for a subnormal, the leading
    bit of [m] carries into the exponent. *)
Lemma widen_fields a :
  finite32 a -> zero32 a = false ->
  exists e m,
    (if negb (z2b (expF32UI a))
     then let '(e, m) := softfloat_normSubnormalF32Sig (fracF32UI a) in (e - 1, m)
     else (expF32UI a, fracF32UI a)) = (e, m)
    /\ - 23 <= e <= 254 /\ 0 <= m < 2 ^ 24
    /\ (2 ^ 52 + m mod 2 ^ 23 * 2 ^ 29) * 2 ^ (e + 0x380 + m / 2 ^ 23 - 1) = mag32 a * 2 ^ 925.
Proof.
  intros Hf Hz. pose proof (exp_range a). pose proof (frac_range a).
  unfold finite32, zero32, mag32, z2b in *.
  destruct (Z.eqb_spec (expF32UI a) 0) as [E|E]; cbn [negb andb] in *.
  - apply Z.eqb_neq in Hz.
    destruct (normSubnormalF32Sig_spec (fracF32UI a)) as (e & He & -> & Hm); [lia|].
    exists (e - 1), (fracF32UI a * 2 ^ (1 - e)). set (m := fracF32UI a * 2 ^ (1 - e)) in *.
    split; [done|]. split; [lia|]. split; [lia|].
    replace (m / 2 ^ 23) with 1 by (clear - Hm; zdm).
    replace (2 ^ 52 + m mod 2 ^ 23 * 2 ^ 29) with (m * 2 ^ 29) by (clear - Hm; zdm).
    unfold m. rewrite <- !Z.mul_assoc, <- !Z.pow_add_r by lia. do 2 f_equal. lia.
  - exists (expF32UI a), (fracF32UI a). split; [done|]. split; [lia|]. split; [lia|].
    rewrite Z.div_small, Z.mod_small by lia.
    replace (2 ^ 52 + fracF32UI a * 2 ^ 29) with ((2 ^ 23 + fracF32UI a) * 2 ^ 29) by lia.
    rewrite <- !Z.mul_assoc, <- !Z.pow_add_r by lia. do 2 f_equal. lia.
Qed.

Theorem f32_to_f64_value a s :
  nan32 a = false ->
  let r := fst (f32_to_f64 a s) in
  signF64UI r = signF32UI a
  /\ (if inf32 a then inf64 r = true
      else finite64 r /\ mag64 r = mag32 a * 2 ^ 925).
Proof.
  intros Hn. cbv zeta. unfold f32_to_f64.
  pose proof (frac_range a) as Hf. pose proof (exp_range a) as He.
  destruct (Z.eqb_spec (expF32UI a) 0xFF) as [E|E].
  - destruct (special_cases32 a E) as [Hn' Hi]. rewrite Hn' in Hn. rewrite Hi. unfold z2b.
    rewrite Hn. rewrite mret_run. cbn [fst]. rewrite packToF64UI_eq by lia.
    destruct (fields_of_pattern64 (signF32UI a) 0x7FF 0) as (_ & -> & H2 & H3); [lia..|].
    split; [done|]. apply negb_false_iff in Hn. rewrite Hn. unfold inf64. by rewrite H2, H3.
  - rewrite (proj2 (not_special32 a E)), zero_test32.
    destruct (zero32 a) eqn:Ez.
    { rewrite mret_run. cbn [fst]. rewrite packToF64UI_eq by lia.
      destruct (fields_of_pattern64 (signF32UI a) 0 0) as (_ & -> & H2 & H3); [lia..|].
      apply mag32_zero in Ez. rewrite Ez. unfold finite64, mag64. rewrite H2, H3. done. }
    destruct (widen_fields a) as (e & m & -> & He' & Hm & Hv); [done..|].
    rewrite mret_run. cbn [fst]. rewrite shl_mul, wrap_small by lia.
    rewrite packToF64UI_eq by lia.
    replace (b2z (signF32UI a) * 2 ^ 63 + (e + 0x380) * 2 ^ 52 + m * 2 ^ 29)
      with (b2z (signF32UI a) * 2 ^ 63 + (e + 0x380 + m / 2 ^ 23) * 2 ^ 52 + (m mod 2 ^ 23) * 2 ^ 29)
      by (clear; zdm).
    destruct (fields_of_pattern64 (signF32UI a) (e + 0x380 + m / 2 ^ 23) (m mod 2 ^ 23 * 2 ^ 29))
      as (_ & -> & H2 & H3); [clear - He' Hm; zdm|clear; zdm|].
    split; [done|]. unfold finite64, mag64. rewrite H2, H3.
    assert (1 <= e + 0x380 + m / 2 ^ 23 <= 2046) by (clear - He' Hm; zdm).
    rewrite (proj2 (Z.eqb_neq _ 0)) by lia. split; [lia|]. by rewrite Hv.
Qed.

(** Narrowing is correctly rounded.  A double-precision subnormal is far below
    the least single-precision number; the code gives it a hidden bit it does
    not have, which changes nothing. *)
Definition f64_to_f32_ref (a : Z) (s : fpstate) : Z * fpstate :=
  if nan64 a then (defaultNaNF32UI, raised (if snan64 a then softfloat_flag_invalid else 0) s)
  else if inf64 a then inf_result32 (signF64UI a) s
  else deliver 32 (signF64UI a)
         (fround binary32 (mode s) (signF64UI a) (mag64 a) 1 (-1074)) s.

Lemma jam_frac a :
  0 <= jam (fracF64UI a) (2 ^ 22) < 2 ^ 30
  /\ (jam (fracF64UI a) (2 ^ 22) = 0 <-> fracF64UI a = 0).
Proof.
  pose proof (frac_range64 a). rewrite jam_cases.
  destruct (Z.eqb_spec (fracF64UI a mod 2 ^ 22) 0); split; zdm.
Qed.

Lemma f64_to_f32_normal sign exp frac s :
  tininess_after s -> 1 <= exp <= 2046 -> 0 <= frac < 2 ^ 52 ->
  softfloat_roundPackToF32 sign (exp - 0x381) (2 ^ 30 + jam frac (2 ^ 22)) s
  = deliver 32 sign
      (fround binary32 (mode s) sign ((2 ^ 52 + frac) * 2 ^ (exp - 1)) 1 (-1074)) s.
Proof.
  intros Ht He Hf.
  assert (0 <= jam frac (2 ^ 22) < 2 ^ 30) by (rewrite jam_cases; destruct (_ =? 0); zdm).
  rewrite roundPackToF32_spec by (done || lia). f_equal.
  rewrite jam_add by done. change (2 ^ 30 * 2 ^ 22) with (2 ^ 52).
  assert (2 ^ 25 <= jam (2 ^ 52 + frac) (2 ^ 22)).
  { pose proof (jam_bounds (2 ^ 52 + frac) (2 ^ 22) ltac:(lia)). zdm. }
  rewrite fround_jam, fround_den_pow2 by (cbn [prec binary32]; lia).
  replace (-1074) with (exp - 0x381 - 156 - 22 - (exp - 1)) by lia.
  by rewrite fround_scale by lia.
Qed.

Lemma f64_to_f32_subnormal sign frac s :
  tininess_after s -> 0 < frac < 2 ^ 52 ->
  softfloat_roundPackToF32 sign (0 - 0x381) (2 ^ 30 + jam frac (2 ^ 22)) s
  = deliver 32 sign (fround binary32 (mode s) sign frac 1 (-1074)) s.
Proof.
  intros Ht Hf.
  assert (0 <= jam frac (2 ^ 22) < 2 ^ 30) by (rewrite jam_cases; destruct (_ =? 0); zdm).
  rewrite roundPackToF32_spec by (done || lia). f_equal.
  rewrite (fround_tiny _ _ _ _ _ 31), (fround_tiny _ _ _ frac _ 52) by (done || cbn; lia). done.
Qed.

(** Narrowing binary64 to binary32 returns the value rounded in the current mode
    with its flags, quiet NaNs and infinities kept. *)
Theorem f64_to_f32_correct a s :
  tininess_after s -> f64_to_f32 a s = f64_to_f32_ref a s.
Proof.
  intros Ht. pose proof (exp_range64 a). pose proof (frac_range64 a).
  unfold f64_to_f32, f64_to_f32_ref, softfloat_f64UIToCommonNaN.
  destruct (Z.eqb_spec (expF64UI a) 0x7FF) as [E|E].
  - destruct (special_cases64 a E) as [Hn Hi]. unfold snan64. rewrite Hn, Hi.
    change 0x0008000000000000 with ((2 ^ 1 - 1) * 2 ^ 51). rewrite land_field by lia.
    assert (negb (z2b ((a / 2 ^ 51) mod 2 ^ 1 * 2 ^ 51)) = (fracF64UI a <? 2 ^ 51)) as ->.
    { unfold z2b. rewrite negb_involutive, fracF64UI_eq. case_bool; auto; zdm. }
    unfold z2b. destruct (fracF64UI a =? 0); cbn [negb andb].
    + autorewrite with fprun. by rewrite pack_inf32.
    + by autorewrite with fprun.
  - destruct (not_special64 a E) as [-> ->].
    destruct (jam_frac a) as [Hj Hj0].
    rewrite shortShiftRightJam64_jam by lia. rewrite lor_nonzero.
    rewrite (Z.lor_comm (jam _ _)), (lor_add 0x40000000 _ 30) by (done || lia).
    change 0x40000000 with (2 ^ 30). unfold z2b, mag64. rewrite !negb_involutive.
    destruct (Z.eqb_spec (expF64UI a) 0) as [E0|E0]; cbn [andb].
    + destruct (Z.eqb_spec (jam (fracF64UI a) (2 ^ 22)) 0) as [Z0|Z0].
      * rewrite Hj0 in Z0. rewrite Z0. rewrite mret_run, pack_zero32.
        assert (fround binary32 (mode s) (signF64UI a) 0 1 (-1074) = (0, Flags false false false)) as ->
          by (by destruct (mode s), (signF64UI a)).
        unfold deliver. cbn [fst snd]. by rewrite raised_0, Z.add_0_r.
      * rewrite E0. apply f64_to_f32_subnormal; [done|lia].
    + apply f64_to_f32_normal; done || lia.
Qed.

Lemma f64_to_f32_correct_witness :
  f64_to_f32 0x3FF0000010000000 softfloat_init = f64_to_f32_ref 0x3FF0000010000000 softfloat_init
  /\ f64_to_f32 0x3FF0000010000000 softfloat_init = (0x3F800000, FpState 0 1 1).
Proof. split; [apply f64_to_f32_correct; concrete|vm_compute; reflexivity]. Defined.

(** ** All the conversions from integers at once *)

(** The eight conversions from 32- and 64-bit integers return the rounding of the
    integer in the current mode, with its flags. *)
Theorem int_to_float_correct a s :
  tininess_after s ->
  (- 2 ^ 31 <= a < 2 ^ 31 ->
     i32_to_f32 a s = int_to_f32_ref a s /\ i32_to_f64 a s = int_to_f64_ref a s)
  /\ (in_range 32 a ->
     ui32_to_f32 a s = int_to_f32_ref a s /\ ui32_to_f64 a s = int_to_f64_ref a s)
  /\ (- 2 ^ 63 <= a < 2 ^ 63 ->
     i64_to_f32 a s = int_to_f32_ref a s /\ i64_to_f64 a s = int_to_f64_ref a s)
  /\ (in_range 64 a ->
     ui64_to_f32 a s = int_to_f32_ref a s /\ ui64_to_f64 a s = int_to_f64_ref a s).
Proof.
  intros Ht. split; [|split; [|split]]; intros Ha; split.
  - by apply i32_to_f32_correct.
  - by apply i32_to_f64_correct.
  - by apply ui32_to_f32_correct.
  - by apply ui32_to_f64_correct.
  - by apply i64_to_f32_correct.
  - by apply i64_to_f64_correct.
  - by apply ui64_to_f32_correct.
  - by apply ui64_to_f64_correct.
Qed.

Lemma int_to_float_correct_witness :
  i32_to_f32 0x1000001 softfloat_init = int_to_f32_ref 0x1000001 softfloat_init
  /\ i32_to_f32 0x1000001 softfloat_init = (0x4B800000, FpState 0 1 1).
Proof.
  split; [|vm_compute; reflexivity].
  apply (proj1 (int_to_float_correct 0x1000001 softfloat_init eq_refl)). concrete.
Defined.

(** Widening a binary32 to binary64 keeps the sign and the value of every number
    and infinity and raises nothing; a NaN becomes the default NaN, and a signaling
    one raises the invalid flag. *)
Theorem f32_to_f64_exact a s :
  let r := fst (f32_to_f64 a s) in
  f32_to_f64 a s
  = (if nan32 a then
       (defaultNaNF64UI, raised (if snan32 a then softfloat_flag_invalid else 0) s)
     else (r, s))
  /\ (nan32 a = false ->
      signF64UI r = signF32UI a
      /\ if inf32 a then inf64 r = true else finite64 r /\ mag64 r = mag32 a * 2 ^ 925).
Proof. split; [apply f32_to_f64_correct|apply f32_to_f64_value]. Qed.
