(* ===== verification/SoftToInt.v ===== *)
(** Conversions to integers: softfloat/s_roundPackToI32.c, s_roundPackToUI32.c,
    s_roundPackToI64.c, s_roundPackToUI64.c, f32_to_i32.c, f32_to_ui32.c,
    f32_to_i64.c, f32_to_ui64.c and the four f64 conversions.  The invalid
    results are those of specialize.h. *)
From S2P Require Import Prelude FloatSpec FloatPack SoftPrim SoftF32 SoftF64.

Definition ui32_fromPosOverflow : Z := 0xFFFFFFFF.
Definition ui32_fromNegOverflow : Z := 0.
Definition i32_fromPosOverflow : Z := 0x7FFFFFFF.
Definition i32_fromNegOverflow : Z := - 0x7FFFFFFF - 1.
Definition ui64_fromPosOverflow : Z := 0xFFFFFFFFFFFFFFFF.
Definition ui64_fromNegOverflow : Z := 0.
Definition ui64_fromNaN : Z := 0xFFFFFFFFFFFFFFFF.
Definition i64_fromPosOverflow : Z := s64 0x7FFFFFFFFFFFFFFF.
Definition i64_fromNegOverflow : Z := s64 (u64 (- 0x7FFFFFFFFFFFFFFF - 1)).
Definition i64_fromNaN : Z := s64 0x7FFFFFFFFFFFFFFF.

Definition softfloat_roundPackToI32 (sign : bool) (sig roundingMode : Z) (exact : bool) : FP Z :=
  let roundNearEven := roundingMode =? softfloat_round_near_even in
  let roundIncrement := roundIncrementF32 roundingMode sign in
  let invalid :=
    softfloat_raiseFlags softfloat_flag_invalid ;;
    mret (if sign then i32_fromNegOverflow else i32_fromPosOverflow) in
  let roundBits := sig .& 0x7F in
  let sig := u64 (sig + roundIncrement) in
  if z2b (sig .& 0xFFFFFF8000000000) then invalid
  else
    let sig32 := sig .>> 7 in
    let sig32 := sig32 .& Z.lnot (b2z (negb (z2b (roundBits .^ 0x40)) && roundNearEven)) in
    let z := s32 (if sign then u32 (- sig32) else u32 sig32) in
    if z2b z && xorb (z <? 0) sign then invalid
    else
      (if exact && z2b roundBits then softfloat_raiseFlags softfloat_flag_inexact else mret tt) ;;
      mret z.

Definition softfloat_roundPackToUI32 (sign : bool) (sig roundingMode : Z) (exact : bool) : FP Z :=
  let roundNearEven := roundingMode =? softfloat_round_near_even in
  let roundIncrement := roundIncrementF32 roundingMode sign in
  let invalid :=
    softfloat_raiseFlags softfloat_flag_invalid ;;
    mret (if sign then ui32_fromNegOverflow else ui32_fromPosOverflow) in
  let roundBits := sig .& 0x7F in
  let sig := u64 (sig + roundIncrement) in
  if z2b (sig .& 0xFFFFFF8000000000) then invalid
  else
    let z := sig .>> 7 in
    let z := z .& Z.lnot (b2z (negb (z2b (roundBits .^ 0x40)) && roundNearEven)) in
    if sign && z2b z then invalid
    else
      (if exact && z2b roundBits then softfloat_raiseFlags softfloat_flag_inexact else mret tt) ;;
      mret z.

(** [doIncrement], from the part of the significand below the units. *)
Definition doIncrement64 (roundingMode : Z) (sign : bool) (sigExtra : Z) : bool :=
  if negb (roundingMode =? softfloat_round_near_even)
     && negb (roundingMode =? softfloat_round_near_maxMag)
  then (roundingMode =? (if sign then softfloat_round_min else softfloat_round_max))
       && z2b sigExtra
  else 0x8000000000000000 <=? sigExtra.

(** The end of [softfloat_roundPackToI64], from [uZ.ui = ...], and its
    [invalid] label. *)
Definition roundPackToI64_invalid (sign : bool) : FP Z :=
  softfloat_raiseFlags softfloat_flag_invalid ;;
  mret (if sign then i64_fromNegOverflow else i64_fromPosOverflow).

Definition roundPackToI64_finish (sign : bool) (sigExtra : Z) (exact : bool) (sig : Z) : FP Z :=
  let z := s64 (if sign then u64 (- sig) else sig) in
  if z2b z && xorb (z <? 0) sign then roundPackToI64_invalid sign
  else
    (if exact && z2b sigExtra then softfloat_raiseFlags softfloat_flag_inexact else mret tt) ;;
    mret z.

Definition softfloat_roundPackToI64
    (sign : bool) (sig sigExtra roundingMode : Z) (exact : bool) : FP Z :=
  let roundNearEven := roundingMode =? softfloat_round_near_even in
  let doIncrement := doIncrement64 roundingMode sign sigExtra in
  if doIncrement then
    let sig := u64 (sig + 1) in
    if negb (z2b sig) then roundPackToI64_invalid sign
    else
      roundPackToI64_finish sign sigExtra exact
        (sig .& Z.lnot (b2z (negb (z2b (sigExtra .& 0x7FFFFFFFFFFFFFFF)) && roundNearEven)))
  else roundPackToI64_finish sign sigExtra exact sig.

Definition roundPackToUI64_invalid (sign : bool) : FP Z :=
  softfloat_raiseFlags softfloat_flag_invalid ;;
  mret (if sign then ui64_fromNegOverflow else ui64_fromPosOverflow).

Definition roundPackToUI64_finish (sign : bool) (sigExtra : Z) (exact : bool) (sig : Z) : FP Z :=
  if sign && z2b sig then roundPackToUI64_invalid sign
  else
    (if exact && z2b sigExtra then softfloat_raiseFlags softfloat_flag_inexact else mret tt) ;;
    mret sig.

Definition softfloat_roundPackToUI64
    (sign : bool) (sig sigExtra roundingMode : Z) (exact : bool) : FP Z :=
  let roundNearEven := roundingMode =? softfloat_round_near_even in
  let doIncrement := doIncrement64 roundingMode sign sigExtra in
  if doIncrement then
    let sig := u64 (sig + 1) in
    if negb (z2b sig) then roundPackToUI64_invalid sign
    else
      roundPackToUI64_finish sign sigExtra exact
        (sig .& Z.lnot (b2z (negb (z2b (sigExtra .& 0x7FFFFFFFFFFFFFFF)) && roundNearEven)))
  else roundPackToUI64_finish sign sigExtra exact sig.

(** [f32_to_i32] and [f32_to_ui32], up to the call of the rounding function:
    the sign (cleared for a NaN) and the significand with seven fraction bits. *)
Definition f32_to_i32_sig (uiA : Z) : bool * Z :=
  let sign := signF32UI uiA in
  let exp := expF32UI uiA in
  let sig := fracF32UI uiA in
  let sign := if (exp =? 0xFF) && z2b sig then false else sign in
  let sig := if z2b exp then sig .| 0x00800000 else sig in
  let sig64 := u64 (sig .<< 32) in
  let shiftDist := 0xAF - exp in
  (sign, if 0 <? shiftDist then softfloat_shiftRightJam64 sig64 shiftDist else sig64).

Definition f32_to_i32 (uiA roundingMode : Z) (exact : bool) : FP Z :=
  let '(sign, sig64) := f32_to_i32_sig uiA in
  softfloat_roundPackToI32 sign sig64 roundingMode exact.

Definition f32_to_ui32 (uiA roundingMode : Z) (exact : bool) : FP Z :=
  let '(sign, sig64) := f32_to_i32_sig uiA in
  softfloat_roundPackToUI32 sign sig64 roundingMode exact.

Definition f64_to_i32_sig (uiA : Z) : bool * Z :=
  let sign := signF64UI uiA in
  let exp := expF64UI uiA in
  let sig := fracF64UI uiA in
  let sign := if (exp =? 0x7FF) && z2b sig then false else sign in
  let sig := if z2b exp then sig .| 0x0010000000000000 else sig in
  let shiftDist := 0x42C - exp in
  (sign, if 0 <? shiftDist then softfloat_shiftRightJam64 sig shiftDist else sig).

Definition f64_to_i32 (uiA roundingMode : Z) (exact : bool) : FP Z :=
  let '(sign, sig) := f64_to_i32_sig uiA in
  softfloat_roundPackToI32 sign sig roundingMode exact.

Definition f64_to_ui32 (uiA roundingMode : Z) (exact : bool) : FP Z :=
  let '(sign, sig) := f64_to_i32_sig uiA in
  softfloat_roundPackToUI32 sign sig roundingMode exact.

(** The 64-bit conversions: [None] is the out-of-range branch. *)
Definition f32_to_i64_sig (uiA : Z) : option uint64_extra :=
  let exp := expF32UI uiA in
  let sig := fracF32UI uiA in
  let shiftDist := 0xBE - exp in
  if shiftDist <? 0 then None
  else
    let sig := if z2b exp then sig .| 0x00800000 else sig in
    let sig64 := u64 (sig .<< 40) in
    Some (if z2b shiftDist then softfloat_shiftRightJam64Extra sig64 0 shiftDist
          else Uint64Extra sig64 0).

Definition f32_to_i64 (uiA roundingMode : Z) (exact : bool) : FP Z :=
  let sign := signF32UI uiA in
  match f32_to_i64_sig uiA with
  | None =>
      softfloat_raiseFlags softfloat_flag_invalid ;;
      mret (if (expF32UI uiA =? 0xFF) && z2b (fracF32UI uiA) then i64_fromNaN
            else if sign then i64_fromNegOverflow else i64_fromPosOverflow)
  | Some e => softfloat_roundPackToI64 sign (ex_v e) (ex_extra e) roundingMode exact
  end.

Definition f32_to_ui64 (uiA roundingMode : Z) (exact : bool) : FP Z :=
  let sign := signF32UI uiA in
  match f32_to_i64_sig uiA with
  | None =>
      softfloat_raiseFlags softfloat_flag_invalid ;;
      mret (if (expF32UI uiA =? 0xFF) && z2b (fracF32UI uiA) then ui64_fromNaN
            else if sign then ui64_fromNegOverflow else ui64_fromPosOverflow)
  | Some e => softfloat_roundPackToUI64 sign (ex_v e) (ex_extra e) roundingMode exact
  end.

Definition f64_to_i64_sig (uiA : Z) : option uint64_extra :=
  let exp := expF64UI uiA in
  let sig := fracF64UI uiA in
  let sig := if z2b exp then sig .| 0x0010000000000000 else sig in
  let shiftDist := 0x433 - exp in
  if shiftDist <=? 0 then
    if shiftDist <? -11 then None
    else Some (Uint64Extra (u64 (sig .<< - shiftDist)) 0)
  else Some (softfloat_shiftRightJam64Extra sig 0 shiftDist).

Definition f64_to_i64 (uiA roundingMode : Z) (exact : bool) : FP Z :=
  let sign := signF64UI uiA in
  match f64_to_i64_sig uiA with
  | None =>
      softfloat_raiseFlags softfloat_flag_invalid ;;
      mret (if (expF64UI uiA =? 0x7FF) && z2b (fracF64UI uiA) then i64_fromNaN
            else if sign then i64_fromNegOverflow else i64_fromPosOverflow)
  | Some e => softfloat_roundPackToI64 sign (ex_v e) (ex_extra e) roundingMode exact
  end.

Definition f64_to_ui64 (uiA roundingMode : Z) (exact : bool) : FP Z :=
  let sign := signF64UI uiA in
  match f64_to_i64_sig uiA with
  | None =>
      softfloat_raiseFlags softfloat_flag_invalid ;;
      mret (if (expF64UI uiA =? 0x7FF) && z2b (fracF64UI uiA) then ui64_fromNaN
            else if sign then ui64_fromNegOverflow else ui64_fromPosOverflow)
  | Some e => softfloat_roundPackToUI64 sign (ex_v e) (ex_extra e) roundingMode exact
  end.

(** ** The reference: round to an integer, saturate *)

Definition to_int_ref (lo hi : Z) (r : rounding) (exact neg : bool) (num den : Z)
    (s : fpstate) : Z * fpstate :=
  let n := round_int r neg num den in
  let z := if neg then - n else n in
  if (lo <=? z) && (z <=? hi)
  then (z, raised (if exact && negb (num mod den =? 0) then softfloat_flag_inexact else 0) s)
  else (if neg then lo else hi, raised softfloat_flag_invalid s).

Lemma to_int_ref_same lo hi r exact neg n d n' d' s :
  0 < d -> 0 < d' -> n * d' = n' * d ->
  to_int_ref lo hi r exact neg n d s = to_int_ref lo hi r exact neg n' d' s.
Proof.
  intros Hd Hd' H. unfold to_int_ref.
  rewrite <- (round_int_scale r neg n d d'), <- (round_int_scale r neg n' d' d) by lia.
  rewrite H, (Z.mul_comm d' d).
  assert ((n mod d =? 0) = (n' mod d' =? 0)) as ->; [|done].
  rewrite <- (mod_mul_zero n d d'), <- (mod_mul_zero n' d' d) by lia.
  by rewrite H, (Z.mul_comm d' d).
Qed.

(** A nonzero value below one half. *)
Lemma to_int_ref_tiny lo hi r exact neg n d n' d' s :
  0 < n -> 2 * n < d -> 0 < n' -> 2 * n' < d' ->
  to_int_ref lo hi r exact neg n d s = to_int_ref lo hi r exact neg n' d' s.
Proof.
  intros. assert (round_int r neg n d = round_int r neg n' d') as E.
  { apply round_int_same; [lia|lia| | |].
    - by rewrite !Z.div_small by lia.
    - rewrite !Z.mod_small; lia.
    - rewrite !Z.mod_small by lia. transitivity Lt; [|symmetry]; apply Z.compare_lt_iff; lia. }
  unfold to_int_ref. rewrite E, !Z.mod_small by lia.
  by rewrite !(proj2 (Z.eqb_neq _ 0)) by lia.
Qed.

(** ** 32-bit results *)

Lemma high_bits_test x :
  in_range 64 x -> z2b (x .& 0xFFFFFF8000000000) = (2 ^ 39 <=? x).
Proof.
  intros Hx. unfold in_range in Hx. change 0xFFFFFF8000000000 with ((2 ^ 25 - 1) * 2 ^ 39).
  rewrite land_field by lia. rewrite Z.mod_small by zdm. unfold z2b.
  case_bool; cbn; auto; zdm.
Qed.

Lemma round7_range m sign sig :
  0 <= sig < 2 ^ 39 + 2 ^ 7 ->
  sig + roundIncrementF32 m sign < 2 ^ 39 ->
  0 <= inc_trunc 7 (rounding_of m) sign sig < 2 ^ 32.
Proof.
  intros Hs Hi. rewrite roundIncrementF32_rinc in Hi.
  pose proof (rinc_range 7 ltac:(lia) (rounding_of m) sign) as Hr.
  unfold inc_trunc. set (b := _ && _).
  assert (0 <= (sig + rinc 7 (rounding_of m) sign) / 2 ^ 7 < 2 ^ 32) as Hq by zdm.
  rewrite land_lnot_b2z. destruct b; zdm.
Qed.

(** The shared head of the two 32-bit functions: seven fraction bits, rounded,
    and the test for more than 32 bits. *)
Lemma round7_overflow m sign sig :
  0 <= sig < 2 ^ 63 -> 2 ^ 39 <= sig + roundIncrementF32 m sign ->
  2 ^ 32 <= round_int (rounding_of m) sign sig (2 ^ 7).
Proof.
  intros Hs Hi. rewrite <- inc_trunc_round by lia. unfold inc_trunc.
  rewrite roundIncrementF32_rinc in Hi.
  pose proof (rinc_range 7 ltac:(lia) (rounding_of m) sign) as Hr.
  rewrite land_lnot_b2z. set (b := _ && _).
  assert (2 ^ 32 <= (sig + rinc 7 (rounding_of m) sign) / 2 ^ 7) by zdm.
  destruct b; [|lia]. zdm.
Qed.

Lemma roundPackToI32_spec m sign sig exact s :
  0 <= sig < 2 ^ 63 ->
  softfloat_roundPackToI32 sign sig m exact s
  = to_int_ref (- 2 ^ 31) (2 ^ 31 - 1) (rounding_of m) exact sign sig (2 ^ 7) s.
Proof.
  intros Hs. unfold softfloat_roundPackToI32, to_int_ref.
  pose proof (rinc_range 7 ltac:(lia) (rounding_of m) sign) as Hr.
  pose proof (roundIncrementF32_rinc m sign) as Hri.
  rewrite (wrap_small 64) by (rewrite Hri; lia).
  rewrite high_bits_test by (unfold in_range; rewrite Hri; lia).
  destruct (Z.leb_spec (2 ^ 39) (sig + roundIncrementF32 m sign)) as [Ho|Ho].
  - autorewrite with fprun.
    pose proof (round7_overflow m sign sig Hs Ho) as Hn. set (n := round_int _ _ _ _) in *.
    assert (((- 2 ^ 31 <=? (if sign then - n else n)) && ((if sign then - n else n) <=? 2 ^ 31 - 1))
            = false) as -> by (apply andb_false_iff; destruct sign; case_bool; auto; lia).
    by destruct sign.
  - pose proof (round7_range m sign sig ltac:(lia) Ho) as Hn.
    change 0x7F with (2 ^ 7 - 1). change 0x40 with (2 ^ (7 - 1)).
    rewrite land_mask, tie_bits, negb_involutive, rounding_of_RNE, shr_div, Hri by lia.
    fold (inc_trunc 7 (rounding_of m) sign sig). rewrite inc_trunc_round in * by lia.
    set (n := round_int _ _ _ _) in *.
    assert (s32 (if sign then u32 (- n) else u32 n) = s32 (if sign then - n else n)) as ->
      by (destruct sign; apply sext_wrap; lia).
    set (z := if sign then - n else n).
    assert ((z2b (s32 z) && xorb (s32 z <? 0) sign)
            = negb ((- 2 ^ 31 <=? z) && (z <=? 2 ^ 31 - 1))) as ->.
    { unfold z2b, sext, z. change (32 - 1) with 31.
      destruct sign; case_bool; cbn; auto; zdm. }
    destruct ((- 2 ^ 31 <=? z) && (z <=? 2 ^ 31 - 1)) eqn:E; cbn [negb].
    + apply andb_true_iff in E as [E1 E2]. apply Z.leb_le in E1, E2.
      autorewrite with fprun. unfold z2b. rewrite sext_small by lia. done.
    + autorewrite with fprun. by destruct sign.
Qed.

Lemma roundPackToUI32_spec m sign sig exact s :
  0 <= sig < 2 ^ 63 ->
  softfloat_roundPackToUI32 sign sig m exact s
  = to_int_ref 0 (2 ^ 32 - 1) (rounding_of m) exact sign sig (2 ^ 7) s.
Proof.
  intros Hs. unfold softfloat_roundPackToUI32, to_int_ref.
  pose proof (rinc_range 7 ltac:(lia) (rounding_of m) sign) as Hr.
  pose proof (roundIncrementF32_rinc m sign) as Hri.
  rewrite (wrap_small 64) by (rewrite Hri; lia).
  rewrite high_bits_test by (unfold in_range; rewrite Hri; lia).
  destruct (Z.leb_spec (2 ^ 39) (sig + roundIncrementF32 m sign)) as [Ho|Ho].
  - autorewrite with fprun.
    pose proof (round7_overflow m sign sig Hs Ho) as Hn. set (n := round_int _ _ _ _) in *.
    assert (((0 <=? (if sign then - n else n)) && ((if sign then - n else n) <=? 2 ^ 32 - 1))
            = false) as -> by (apply andb_false_iff; destruct sign; case_bool; auto; lia).
    by destruct sign.
  - pose proof (round7_range m sign sig ltac:(lia) Ho) as Hn.
    change 0x7F with (2 ^ 7 - 1). change 0x40 with (2 ^ (7 - 1)).
    rewrite land_mask, tie_bits, negb_involutive, rounding_of_RNE, shr_div, Hri by lia.
    fold (inc_trunc 7 (rounding_of m) sign sig). rewrite inc_trunc_round in * by lia.
    set (n := round_int _ _ _ _) in *.
    set (z := if sign then - n else n).
    assert ((sign && z2b n) = negb ((0 <=? z) && (z <=? 2 ^ 32 - 1))) as ->.
    { unfold z2b, z. destruct sign; case_bool; cbn; auto; lia. }
    destruct ((0 <=? z) && (z <=? 2 ^ 32 - 1)) eqn:E; cbn [negb].
    + apply andb_true_iff in E as [E1 E2]. apply Z.leb_le in E1, E2.
      autorewrite with fprun. unfold z2b. f_equal. unfold z in *. destruct sign; lia.
    + autorewrite with fprun. by destruct sign.
Qed.

(** The operand's value, as the 32-bit conversions see it. *)
Definition f32_to_int_ref (lo hi m : Z) (exact : bool) (a : Z) (s : fpstate) : Z * fpstate :=
  if nan32 a then (hi, raised softfloat_flag_invalid s)
  else to_int_ref lo hi (rounding_of m) exact (signF32UI a) (mag32 a) (2 ^ 149) s.

Definition f64_to_int_ref (lo hi m : Z) (exact : bool) (a : Z) (s : fpstate) : Z * fpstate :=
  if nan64 a then (hi, raised softfloat_flag_invalid s)
  else to_int_ref lo hi (rounding_of m) exact (signF64UI a) (mag64 a) (2 ^ 1074) s.

(** Rounding with a sticky bit under seven fraction bits. *)
Lemma to_int_ref_jam lo hi r exact neg n d s :
  0 < d ->
  to_int_ref lo hi r exact neg (jam n d) (2 ^ 7) s = to_int_ref lo hi r exact neg n (d * 2 ^ 7) s.
Proof.
  intros Hd. unfold to_int_ref. change (2 ^ 7) with (4 * 2 ^ 5).
  rewrite round_int_jam, jam_mod_zero by lia. done.
Qed.

(** A magnitude beyond the range saturates, whatever its value. *)
Lemma to_int_ref_big lo hi r exact neg n d s :
  0 < d -> hi * d < n - d -> - lo * d < n - d -> 0 <= n ->
  to_int_ref lo hi r exact neg n d s
  = (if neg then lo else hi, raised softfloat_flag_invalid s).
Proof.
  intros Hd Hh Hl Hn. unfold to_int_ref.
  pose proof (round_int_bounds r neg n d Hd) as Hb.
  assert (hi < n / d /\ - lo < n / d) as [? ?] by (split; ndm).
  set (k := round_int _ _ _ _) in *.
  rewrite (proj2 (andb_false_iff _ _)); [done|]. destruct neg; case_bool; auto; lia.
Qed.

Lemma f32_to_i32_sig_spec lo hi m exact a s :
  - 2 ^ 40 <= lo -> 0 <= hi <= 2 ^ 40 -> lo <= 0 ->
  let '(sign, sig) := f32_to_i32_sig a in
  0 <= sig < 2 ^ 63
  /\ to_int_ref lo hi (rounding_of m) exact sign sig (2 ^ 7) s
     = f32_to_int_ref lo hi m exact a s.
Proof.
  intros Hlo Hhi Hlo0. pose proof (exp_range a). pose proof (frac_range a).
  unfold f32_to_i32_sig, f32_to_int_ref, nan32, mag32, z2b.
  destruct (Z.eqb_spec (expF32UI a) 0) as [E|E].
  - rewrite E. change (0 =? 0xFF) with false. cbn [negb andb].
    change (0 <? 0xAF - 0) with true. change (0xAF - 0) with 175. cbv iota.
    rewrite shl_mul, wrap_small, shiftRightJam64_jam by lia.
    pose proof (jam_bounds (fracF32UI a * 2 ^ 32) (2 ^ 175) ltac:(lia)) as Hj.
    rewrite (Z.div_small (_ * _)) in Hj by lia. split; [lia|].
    rewrite to_int_ref_jam by lia.
    destruct (decide (fracF32UI a = 0)) as [->|]; [by apply to_int_ref_same|].
    apply to_int_ref_tiny; lia.
  - cbn [negb]. rewrite Z.lor_comm, (lor_add _ _ 23) by (done || lia).
    change 0x00800000 with (2 ^ 23). set (y := 2 ^ 23 + fracF32UI a).
    assert (2 ^ 23 <= y < 2 ^ 24) as Hy by (unfold y; lia). clearbody y.
    rewrite shl_mul, wrap_small by lia. destruct (Z.ltb_spec 0 (0xAF - expF32UI a)) as [Hs|Hs].
    + rewrite (proj2 (Z.eqb_neq (expF32UI a) 0xFF)) by lia. cbn [andb].
      rewrite shiftRightJam64_jam by lia.
      pose proof (pow2_le 1 (0xAF - expF32UI a) ltac:(lia)) as Hd. change (2 ^ 1) with 2 in Hd.
      pose proof (jam_bounds (y * 2 ^ 32) (2 ^ (0xAF - expF32UI a)) ltac:(lia)).
      pose proof (Z.div_pos (y * 2 ^ 32) (2 ^ (0xAF - expF32UI a)) ltac:(lia) ltac:(lia)).
      pose proof (Z.div_lt_upper_bound (y * 2 ^ 32) (2 ^ (0xAF - expF32UI a)) (2 ^ 55)
                    ltac:(lia) ltac:(nia)).
      split; [lia|]. rewrite to_int_ref_jam by lia. apply to_int_ref_same; [lia|lia|].
      rewrite <- !Z.mul_assoc, <- !Z.pow_add_r by lia. do 2 f_equal. lia.
    + split; [lia|]. pose proof (pow2_le 174 (expF32UI a - 1) ltac:(lia)).
      assert (2 ^ 197 <= y * 2 ^ (expF32UI a - 1)) by (change (2 ^ 197) with (2 ^ 23 * 2 ^ 174); nia).
      rewrite !to_int_ref_big by lia.
      by destruct (expF32UI a =? 255), (fracF32UI a =? 0).
Qed.

Theorem f32_to_i32_correct a m exact s :
  f32_to_i32 a m exact s = f32_to_int_ref (- 2 ^ 31) (2 ^ 31 - 1) m exact a s.
Proof.
  unfold f32_to_i32.
  pose proof (f32_to_i32_sig_spec (- 2 ^ 31) (2 ^ 31 - 1) m exact a s ltac:(lia) ltac:(lia) ltac:(lia)) as H.
  destruct (f32_to_i32_sig a) as [sign sig]. destruct H as [Hr <-]. by apply roundPackToI32_spec.
Qed.

Theorem f32_to_ui32_correct a m exact s :
  f32_to_ui32 a m exact s = f32_to_int_ref 0 (2 ^ 32 - 1) m exact a s.
Proof.
  unfold f32_to_ui32.
  pose proof (f32_to_i32_sig_spec 0 (2 ^ 32 - 1) m exact a s ltac:(lia) ltac:(lia) ltac:(lia)) as H.
  destruct (f32_to_i32_sig a) as [sign sig]. destruct H as [Hr <-]. by apply roundPackToUI32_spec.
Qed.

Lemma f64_to_i32_sig_spec lo hi m exact a s :
  - 2 ^ 40 <= lo -> 0 <= hi <= 2 ^ 40 -> lo <= 0 ->
  let '(sign, sig) := f64_to_i32_sig a in
  0 <= sig < 2 ^ 63
  /\ to_int_ref lo hi (rounding_of m) exact sign sig (2 ^ 7) s
     = f64_to_int_ref lo hi m exact a s.
Proof.
  intros Hlo Hhi Hlo0. pose proof (exp_range64 a). pose proof (frac_range64 a).
  unfold f64_to_i32_sig, f64_to_int_ref, nan64, mag64, z2b.
  destruct (Z.eqb_spec (expF64UI a) 0) as [E|E].
  - rewrite E. change (0 =? 0x7FF) with false. cbn [negb andb].
    change (0 <? 0x42C - 0) with true. change (0x42C - 0) with 1068. cbv iota.
    rewrite shiftRightJam64_jam by lia.
    pose proof (jam_bounds (fracF64UI a) (2 ^ 1068) ltac:(lia)) as Hj.
    rewrite (Z.div_small (fracF64UI a)) in Hj by lia. split; [lia|].
    rewrite to_int_ref_jam by lia.
    destruct (decide (fracF64UI a = 0)) as [->|]; [by apply to_int_ref_same|].
    apply to_int_ref_tiny; lia.
  - cbn [negb]. rewrite Z.lor_comm, (lor_add _ _ 52) by (done || lia).
    change 0x0010000000000000 with (2 ^ 52). set (y := 2 ^ 52 + fracF64UI a).
    assert (2 ^ 52 <= y < 2 ^ 53) as Hy by (unfold y; lia). clearbody y.
    destruct (Z.ltb_spec 0 (0x42C - expF64UI a)) as [Hs|Hs].
    + rewrite (proj2 (Z.eqb_neq (expF64UI a) 0x7FF)) by lia. cbn [andb].
      rewrite shiftRightJam64_jam by lia.
      pose proof (pow2_le 1 (0x42C - expF64UI a) ltac:(lia)) as Hd. change (2 ^ 1) with 2 in Hd.
      pose proof (jam_bounds y (2 ^ (0x42C - expF64UI a)) ltac:(lia)).
      pose proof (Z.div_pos y (2 ^ (0x42C - expF64UI a)) ltac:(lia) ltac:(lia)).
      pose proof (Z.div_lt_upper_bound y (2 ^ (0x42C - expF64UI a)) (2 ^ 53)
                    ltac:(lia) ltac:(nia)).
      split; [lia|]. rewrite to_int_ref_jam by lia. apply to_int_ref_same; [lia|lia|].
      rewrite <- !Z.mul_assoc, <- !Z.pow_add_r by lia. do 2 f_equal. lia.
    + split; [lia|].
      assert (2 ^ 41 * 2 ^ 1074 + 2 ^ 1074 <= y * 2 ^ (expF64UI a - 1)).
      { transitivity (2 ^ 52 * 2 ^ (expF64UI a - 1)).
        - pose proof (pow2_le (1074 - 7) (expF64UI a - 1) ltac:(lia)) as Hp.
          rewrite (pow2_split 1074 7) by lia. lia.
        - pose proof (pow2_pos (expF64UI a - 1) ltac:(lia)). nia. }
      rewrite !to_int_ref_big by lia.
      by destruct (expF64UI a =? 2047), (fracF64UI a =? 0).
Qed.

Theorem f64_to_i32_correct a m exact s :
  f64_to_i32 a m exact s = f64_to_int_ref (- 2 ^ 31) (2 ^ 31 - 1) m exact a s.
Proof.
  unfold f64_to_i32.
  pose proof (f64_to_i32_sig_spec (- 2 ^ 31) (2 ^ 31 - 1) m exact a s ltac:(lia) ltac:(lia) ltac:(lia)) as H.
  destruct (f64_to_i32_sig a) as [sign sig]. destruct H as [Hr <-]. by apply roundPackToI32_spec.
Qed.

Theorem f64_to_ui32_correct a m exact s :
  f64_to_ui32 a m exact s = f64_to_int_ref 0 (2 ^ 32 - 1) m exact a s.
Proof.
  unfold f64_to_ui32.
  pose proof (f64_to_i32_sig_spec 0 (2 ^ 32 - 1) m exact a s ltac:(lia) ltac:(lia) ltac:(lia)) as H.
  destruct (f64_to_i32_sig a) as [sign sig]. destruct H as [Hr <-]. by apply roundPackToUI32_spec.
Qed.

(** ** 64-bit results

    [frac_matches num den v extra]: [v] is the integer part of [num/den], and
    [extra] tells the fraction's class: zero, below, at or above one half. *)
Record frac_matches (num den v extra : Z) : Prop := {
  fm_den : 0 < den;
  fm_v : num / den = v;
  fm_zero : num mod den = 0 <-> extra = 0;
  fm_half : (2 * (num mod den) ?= den) = (extra ?= 2 ^ 63);
  fm_extra : in_range 64 extra;
}.

(** [round_int] from the class of the fraction, as the code computes it. *)
Lemma doIncrement64_round m sign num den v extra :
  frac_matches num den v extra -> 0 <= v ->
  round_int (rounding_of m) sign num den
  = if doIncrement64 m sign extra
    then (v + 1) .& Z.lnot (b2z (negb (z2b (extra .& 0x7FFFFFFFFFFFFFFF))
                                 && (m =? softfloat_round_near_even)))
    else v.
Proof.
  intros [Hd Hv Hz Hh Hx] Hv0. unfold in_range in Hx. rewrite land_lnot_b2z.
  change 0x7FFFFFFFFFFFFFFF with (2 ^ 63 - 1). rewrite land_mask by lia.
  unfold z2b at 1. rewrite negb_involutive. unfold round_int, doIncrement64. rewrite Hv.
  change 0x8000000000000000 with (2 ^ 63).
  pose proof (Z.mod_pos_bound num den Hd) as Hm. set (rem := num mod den) in *.
  assert (((num mod den) =? 0) = (extra =? 0)) as Hz' by (fold rem; case_bool; tauto || lia || done).
  assert ((2 * rem <? den) = (extra <? 2 ^ 63) /\ (2 * rem =? den) = (extra =? 2 ^ 63)
          /\ (den <? 2 * rem) = (2 ^ 63 <? extra)) as (H1 & H2 & H3).
  { revert Hh. destruct (Z.compare_spec (2 * rem) den), (Z.compare_spec extra (2 ^ 63));
      intros; try done; case_bool; repeat split; done || lia. }
  fold rem in Hz'. unfold rounding_of, z2b, softfloat_round_near_even,
    softfloat_round_near_maxMag, softfloat_round_min, softfloat_round_max.
  destruct (Z.eqb_spec m 0) as [->|]; [|destruct (Z.eqb_spec m 4) as [->|]];
    cbn [negb andb round_up].
  - (* nearest, ties to even *)
    rewrite H2, H3, andb_true_r. destruct (Z.leb_spec (2 ^ 63) extra) as [?|?].
    + assert ((extra mod 2 ^ 63 =? 0) = (extra =? 2 ^ 63)) as -> by (case_bool; auto; zdm).
      destruct (Z.eqb_spec extra (2 ^ 63)) as [->|].
      * rewrite Z.ltb_irrefl. cbn [orb andb].
        pose proof (Zmod_odd v) as Hodd. destruct (Z.odd v); cbn [b2z]; zdm.
      * rewrite (proj2 (Z.ltb_lt _ _)) by lia. done.
    + rewrite (proj2 (Z.ltb_ge _ _)), (proj2 (Z.eqb_neq extra _)) by lia. cbn. lia.
  - (* nearest, ties away *)
    rewrite andb_false_r, (Z.leb_antisym _ den), H1, <- Z.leb_antisym.
    destruct (2 ^ 63 <=? extra); cbn; lia.
  - rewrite andb_false_r.
    destruct sign; case_bool; cbn [negb andb orb round_up b2z]; rewrite ?Hz'; case_bool; cbn; lia.
Qed.

(** The incremented significand, and its overflow out of 64 bits. *)
Lemma doIncrement64_overflow v (b : bool) :
  in_range 64 v ->
  z2b (u64 (v + 1)) = (v + 1 <? 2 ^ 64)
  /\ (v + 1 < 2 ^ 64 -> u64 (v + 1) = v + 1 /\ 0 <= (v + 1) .& Z.lnot (b2z b) < 2 ^ 64)
  /\ (2 ^ 64 <= v + 1 -> (v + 1) .& Z.lnot (b2z b) = 2 ^ 64).
Proof.
  unfold in_range. intros Hv. rewrite land_lnot_b2z. unfold z2b.
  destruct (Z.ltb_spec (v + 1) (2 ^ 64)) as [H|H].
  - rewrite wrap_small, (proj2 (Z.eqb_neq _ 0)) by lia. repeat split; destruct b; zdm || lia.
  - assert (v = 2 ^ 64 - 1) as -> by lia. repeat split; destruct b; done || lia.
Qed.

(** Range check, flag and result, for a rounded magnitude [n]. *)
Definition saturate (lo hi : Z) (neg inexact : bool) (n : Z) (s : fpstate) : Z * fpstate :=
  let z := if neg then - n else n in
  if (lo <=? z) && (z <=? hi)
  then (z, raised (if inexact then softfloat_flag_inexact else 0) s)
  else (if neg then lo else hi, raised softfloat_flag_invalid s).

Lemma roundPackToI64_finish_spec sign extra exact n s :
  in_range 64 n ->
  roundPackToI64_finish sign extra exact n s
  = saturate (- 2 ^ 63) (2 ^ 63 - 1) sign (exact && negb (extra =? 0)) n s.
Proof.
  unfold in_range. intros Hn. unfold roundPackToI64_finish, roundPackToI64_invalid, saturate.
  assert (s64 (if sign then u64 (- n) else n) = s64 (if sign then - n else n)) as ->
    by (destruct sign; [apply sext_wrap; lia|done]).
  set (z := if sign then - n else n).
  assert ((z2b (s64 z) && xorb (s64 z <? 0) sign)
          = negb ((- 2 ^ 63 <=? z) && (z <=? 2 ^ 63 - 1))) as ->.
  { unfold z2b, sext, z. change (64 - 1) with 63. destruct sign; case_bool; cbn; auto; zdm. }
  destruct ((- 2 ^ 63 <=? z) && (z <=? 2 ^ 63 - 1)) eqn:E; cbn [negb].
  - apply andb_true_iff in E as [E1 E2]. apply Z.leb_le in E1, E2.
    autorewrite with fprun. unfold z2b. rewrite sext_small by lia. done.
  - autorewrite with fprun. by destruct sign.
Qed.

Lemma roundPackToUI64_finish_spec sign extra exact n s :
  in_range 64 n ->
  roundPackToUI64_finish sign extra exact n s
  = saturate 0 (2 ^ 64 - 1) sign (exact && negb (extra =? 0)) n s.
Proof.
  unfold in_range. intros Hn.
  unfold roundPackToUI64_finish, roundPackToUI64_invalid, saturate, z2b.
  destruct sign; cbn [andb negb].
  - destruct (Z.eqb_spec n 0) as [->|]; cbn [negb].
    + autorewrite with fprun. done.
    + rewrite (proj2 (Z.leb_gt 0 (- n))) by lia. by autorewrite with fprun.
  - rewrite (proj2 (Z.leb_le 0 n)), (proj2 (Z.leb_le n _)) by lia. cbn [andb].
    by autorewrite with fprun.
Qed.

Lemma saturate_big lo hi neg inex s :
  lo <= 0 -> - lo < 2 ^ 64 -> hi < 2 ^ 64 ->
  saturate lo hi neg inex (2 ^ 64) s = (if neg then lo else hi, raised softfloat_flag_invalid s).
Proof.
  intros. unfold saturate. rewrite (proj2 (andb_false_iff _ _)); [done|].
  destruct neg; case_bool; auto; lia.
Qed.

Lemma roundPackToI64_spec m sign num den v extra exact s :
  frac_matches num den v extra -> in_range 64 v ->
  softfloat_roundPackToI64 sign v extra m exact s
  = to_int_ref (- 2 ^ 63) (2 ^ 63 - 1) (rounding_of m) exact sign num den s.
Proof.
  intros Hfm Hv. unfold softfloat_roundPackToI64, to_int_ref.
  rewrite (doIncrement64_round m sign num den v extra Hfm) by (unfold in_range in Hv; lia).
  destruct Hfm as [Hd Hq Hz Hh Hx].
  assert ((num mod den =? 0) = (extra =? 0)) as -> by (case_bool; tauto || lia || done).
  set (c := negb _ && _).
  destruct (doIncrement64 m sign extra); [|by apply roundPackToI64_finish_spec].
  destruct (doIncrement64_overflow v c Hv) as (-> & Hlt & Hge).
  destruct (Z.ltb_spec (v + 1) (2 ^ 64)) as [Hs|Hs]; cbn [negb].
  - destruct (Hlt Hs) as [-> Hr]. by apply roundPackToI64_finish_spec.
  - rewrite Hge by done. fold (saturate (- 2 ^ 63) (2 ^ 63 - 1) sign (exact && negb (extra =? 0)) (2 ^ 64) s).
    rewrite saturate_big by lia. unfold roundPackToI64_invalid.
    autorewrite with fprun. by destruct sign.
Qed.

Lemma roundPackToUI64_spec m sign num den v extra exact s :
  frac_matches num den v extra -> in_range 64 v ->
  softfloat_roundPackToUI64 sign v extra m exact s
  = to_int_ref 0 (2 ^ 64 - 1) (rounding_of m) exact sign num den s.
Proof.
  intros Hfm Hv. unfold softfloat_roundPackToUI64, to_int_ref.
  rewrite (doIncrement64_round m sign num den v extra Hfm) by (unfold in_range in Hv; lia).
  destruct Hfm as [Hd Hq Hz Hh Hx].
  assert ((num mod den =? 0) = (extra =? 0)) as -> by (case_bool; tauto || lia || done).
  set (c := negb _ && _).
  destruct (doIncrement64 m sign extra); [|by apply roundPackToUI64_finish_spec].
  destruct (doIncrement64_overflow v c Hv) as (-> & Hlt & Hge).
  destruct (Z.ltb_spec (v + 1) (2 ^ 64)) as [Hs|Hs]; cbn [negb].
  - destruct (Hlt Hs) as [-> Hr]. by apply roundPackToUI64_finish_spec.
  - rewrite Hge by done. fold (saturate 0 (2 ^ 64 - 1) sign (exact && negb (extra =? 0)) (2 ^ 64) s).
    rewrite saturate_big by lia. unfold roundPackToUI64_invalid.
    autorewrite with fprun. by destruct sign.
Qed.

Lemma frac_matches_whole v : frac_matches v 1 v 0.
Proof.
  split; [lia|apply Z.div_1_r|by rewrite Z.mod_1_r| |unfold in_range; lia].
  rewrite Z.mod_1_r. done.
Qed.

Lemma shiftRightJam64Extra_matches a count :
  in_range 64 a -> 1 <= count < 2 ^ 15 ->
  let z := softfloat_shiftRightJam64Extra a 0 count in
  frac_matches a (2 ^ count) (ex_v z) (ex_extra z) /\ in_range 64 (ex_v z).
Proof.
  unfold in_range. intros Ha Hc. pose proof (pow2_pos count ltac:(lia)).
  unfold softfloat_shiftRightJam64Extra.
  change (z2b 0) with false. cbn [b2z]. rewrite !Z.lor_0_r.
  destruct (Z.ltb_spec count 64) as [H64|H64]; cbn [ex_v ex_extra].
  - rewrite shr_div by lia. change 63 with (64 - 1).
    rewrite (neg_count_mask 64 6) by lia.
    pose proof (Z.mod_pos_bound a (2 ^ count) ltac:(lia)).
    assert (2 ^ 64 = 2 ^ count * 2 ^ (64 - count)) as E64 by (apply pow2_split; lia).
    assert (2 ^ 63 * 2 ^ count = 2 ^ 63 * 2 ^ count) by done.
    pose proof (pow2_pos (64 - count) ltac:(lia)).
    assert (u64 (a .<< (64 - count)) = a mod 2 ^ count * 2 ^ (64 - count)) as ->.
    { unfold wrap. rewrite shl_mul by lia. rewrite E64. by rewrite Z.mul_mod_distr_r by lia. }
    assert (0 <= a / 2 ^ count < 2 ^ 64).
    { split; [apply Z.div_pos; lia|apply Z.div_lt_upper_bound; nia]. }
    split; [|done]. split; [done|done|nia| |unfold in_range; nia].
    replace (2 ^ 63) with (2 ^ 64 / 2) by done.
    set (rem := a mod 2 ^ count) in *.
    assert ((2 * rem ?= 2 ^ count) = (2 * rem * 2 ^ (64 - count) ?= 2 ^ count * 2 ^ (64 - count)))
      as -> by (apply Zmult_compare_compat_r; lia).
    rewrite <- E64. change (2 ^ 64 / 2) with (2 ^ 63).
    replace (2 * rem * 2 ^ (64 - count)) with (2 * (rem * 2 ^ (64 - count))) by lia.
    change (2 ^ 64) with (2 * 2 ^ 63). by rewrite <- Zmult_compare_compat_l by lia.
  - destruct (Z.eqb_spec count 64) as [->|].
    + split; [|unfold in_range; lia].
      split; [lia|by apply Z.div_small|rewrite Z.mod_small; lia| |done].
      rewrite Z.mod_small by lia. change (2 ^ 64) with (2 * 2 ^ 63).
      by rewrite <- Zmult_compare_compat_l by lia.
    + pose proof (pow2_le 65 count ltac:(lia)).
      split; [|unfold in_range; lia].
      split; [lia|apply Z.div_small; lia|rewrite Z.mod_small by lia; unfold z2b; case_bool; cbn; lia| |].
      * rewrite Z.mod_small by lia. transitivity Lt; [|symmetry]; apply Z.compare_lt_iff; [lia|].
        destruct (z2b a); cbn; lia.
      * unfold in_range. destruct (z2b a); cbn; lia.
Qed.

(** The operand as a 64-bit integer part and a fraction, or out of range. *)
Lemma f32_to_i64_sig_spec a :
  match f32_to_i64_sig a with
  | None => 191 <= expF32UI a
  | Some e =>
      expF32UI a <> 0xFF /\ in_range 64 (ex_v e) /\
      exists num den, frac_matches num den (ex_v e) (ex_extra e)
        /\ (num * 2 ^ 149 = mag32 a * den
            \/ (0 < num /\ 2 * num < den /\ 0 < mag32 a /\ 2 * mag32 a < 2 ^ 149))
  end.
Proof.
  pose proof (exp_range a). pose proof (frac_range a). unfold f32_to_i64_sig, z2b.
  destruct (Z.ltb_spec (0xBE - expF32UI a) 0); [lia|]. split; [lia|].
  destruct (Z.eqb_spec (expF32UI a) 0) as [E|E]; cbn [negb].
  - rewrite (proj2 (Z.eqb_neq (0xBE - _) 0)) by lia. cbn [negb].
    rewrite shl_mul, wrap_small by lia.
    destruct (shiftRightJam64Extra_matches (fracF32UI a * 2 ^ 40) (0xBE - expF32UI a))
      as [Hm Hr]; [unfold in_range; lia|lia|].
    split; [done|]. exists (fracF32UI a * 2 ^ 40), (2 ^ (0xBE - expF32UI a)). split; [done|].
    unfold mag32. rewrite E. change (0 =? 0) with true. cbv iota.
    destruct (decide (fracF32UI a = 0)) as [->|]; [left; lia|right].
    change (2 ^ (0xBE - 0)) with (2 ^ 190). lia.
  - rewrite Z.lor_comm, (lor_add _ _ 23) by (done || lia).
    change 0x00800000 with (2 ^ 23). unfold mag32. rewrite (proj2 (Z.eqb_neq (expF32UI a) 0)) by done.
    set (y := 2 ^ 23 + fracF32UI a). assert (2 ^ 23 <= y < 2 ^ 24) as Hy by (unfold y; lia).
    clearbody y. rewrite shl_mul, wrap_small by lia.
    destruct (Z.eqb_spec (0xBE - expF32UI a) 0) as [E0|E0]; cbn [negb].
    + cbn [ex_v ex_extra]. split; [unfold in_range; lia|].
      exists (y * 2 ^ 40), 1. split; [apply frac_matches_whole|]. left.
      replace (expF32UI a - 1) with 189 by lia. lia.
    + destruct (shiftRightJam64Extra_matches (y * 2 ^ 40) (0xBE - expF32UI a))
        as [Hm Hr]; [unfold in_range; lia|lia|].
      split; [done|]. exists (y * 2 ^ 40), (2 ^ (0xBE - expF32UI a)). split; [done|]. left.
      rewrite <- !Z.mul_assoc, <- !Z.pow_add_r by lia. do 2 f_equal. lia.
Qed.

Lemma f64_to_i64_sig_spec a :
  match f64_to_i64_sig a with
  | None => 1087 <= expF64UI a
  | Some e =>
      expF64UI a <> 0x7FF /\ in_range 64 (ex_v e) /\
      exists num den, frac_matches num den (ex_v e) (ex_extra e)
        /\ (num * 2 ^ 1074 = mag64 a * den
            \/ (0 < num /\ 2 * num < den /\ 0 < mag64 a /\ 2 * mag64 a < 2 ^ 1074))
  end.
Proof.
  pose proof (exp_range64 a). pose proof (frac_range64 a). unfold f64_to_i64_sig, z2b.
  destruct (Z.eqb_spec (expF64UI a) 0) as [E|E]; cbn [negb].
  - rewrite E. change (0x433 - 0 <=? 0) with false. change (0x433 - 0) with 1075. cbv iota.
    split; [lia|].
    destruct (shiftRightJam64Extra_matches (fracF64UI a) 1075) as [Hm Hr];
      [unfold in_range; lia|lia|].
    split; [done|]. exists (fracF64UI a), (2 ^ 1075). split; [done|].
    unfold mag64. rewrite E. change (0 =? 0) with true. cbv iota.
    destruct (decide (fracF64UI a = 0)) as [->|]; [left; lia|right]. lia.
  - rewrite Z.lor_comm, (lor_add _ _ 52) by (done || lia).
    change 0x0010000000000000 with (2 ^ 52). unfold mag64. rewrite (proj2 (Z.eqb_neq (expF64UI a) 0)) by done.
    set (y := 2 ^ 52 + fracF64UI a). assert (2 ^ 52 <= y < 2 ^ 53) as Hy by (unfold y; lia).
    clearbody y. destruct (Z.leb_spec (0x433 - expF64UI a) 0).
    + destruct (Z.ltb_spec (0x433 - expF64UI a) (-11)); [lia|]. split; [lia|]. cbn [ex_v ex_extra].
      pose proof (pow2_le (- (0x433 - expF64UI a)) 11 ltac:(lia)).
      pose proof (pow2_pos (- (0x433 - expF64UI a)) ltac:(lia)).
      assert (0 <= y * 2 ^ (- (0x433 - expF64UI a)) < 2 ^ 64) by nia.
      rewrite shl_mul, wrap_small by lia. split; [done|].
      exists (y * 2 ^ (- (0x433 - expF64UI a))), 1. split; [apply frac_matches_whole|]. left.
      rewrite Z.mul_1_r, <- !Z.mul_assoc, <- !Z.pow_add_r by lia. do 2 f_equal. lia.
    + split; [lia|].
      destruct (shiftRightJam64Extra_matches y (0x433 - expF64UI a))
        as [Hm Hr]; [unfold in_range; lia|lia|].
      split; [done|]. exists y, (2 ^ (0x433 - expF64UI a)). split; [done|]. left.
      rewrite <- !Z.mul_assoc, <- !Z.pow_add_r by lia. do 2 f_equal. lia.
Qed.

(** Out of range: the value is at least 2^64. *)
Lemma f32_out_of_range lo hi r exact a s :
  191 <= expF32UI a -> - 2 ^ 63 <= lo <= 0 -> hi < 2 ^ 64 ->
  to_int_ref lo hi r exact (signF32UI a) (mag32 a) (2 ^ 149) s
  = (if signF32UI a then lo else hi, raised softfloat_flag_invalid s).
Proof.
  intros He Hlo Hhi. pose proof (frac_range a). unfold mag32. rewrite (proj2 (Z.eqb_neq (expF32UI a) 0)) by lia.
  pose proof (pow2_le 190 (expF32UI a - 1) ltac:(lia)).
  assert (2 ^ 64 * 2 ^ 149 <= (2 ^ 23 + fracF32UI a) * 2 ^ (expF32UI a - 1))
    by (change (2 ^ 64 * 2 ^ 149) with (2 ^ 23 * 2 ^ 190); nia).
  unfold to_int_ref.
  pose proof (round_int_bounds r (signF32UI a) ((2 ^ 23 + fracF32UI a) * 2 ^ (expF32UI a - 1))
                (2 ^ 149) ltac:(lia)) as [Hb _].
  set (n := round_int _ _ _ _) in *.
  assert (2 ^ 64 <= n) by (etransitivity; [|exact Hb]; apply Z.div_le_lower_bound; lia).
  rewrite (proj2 (andb_false_iff _ _)); [done|]. destruct (signF32UI a); case_bool; auto; lia.
Qed.

Lemma f64_out_of_range lo hi r exact a s :
  1087 <= expF64UI a -> - 2 ^ 63 <= lo <= 0 -> hi < 2 ^ 64 ->
  to_int_ref lo hi r exact (signF64UI a) (mag64 a) (2 ^ 1074) s
  = (if signF64UI a then lo else hi, raised softfloat_flag_invalid s).
Proof.
  intros He Hlo Hhi. pose proof (frac_range64 a). unfold mag64. rewrite (proj2 (Z.eqb_neq (expF64UI a) 0)) by lia.
  pose proof (pow2_le (1074 + 12) (expF64UI a - 1) ltac:(lia)) as Hp. rewrite Z.pow_add_r in Hp by lia.
  pose proof (pow2_pos 1074 ltac:(lia)).
  assert (2 ^ 64 * 2 ^ 1074 <= (2 ^ 52 + fracF64UI a) * 2 ^ (expF64UI a - 1)) by nia.
  unfold to_int_ref.
  pose proof (round_int_bounds r (signF64UI a) ((2 ^ 52 + fracF64UI a) * 2 ^ (expF64UI a - 1))
                (2 ^ 1074) ltac:(lia)) as [Hb _].
  set (n := round_int _ _ _ _) in *.
  assert (2 ^ 64 <= n) by (etransitivity; [|exact Hb]; apply Z.div_le_lower_bound; lia).
  rewrite (proj2 (andb_false_iff _ _)); [done|]. destruct (signF64UI a); case_bool; auto; lia.
Qed.

Lemma to_int_ref_frac lo hi r exact neg n d n' d' s :
  0 < d -> 0 < d' -> n * d' = n' * d \/ (0 < n /\ 2 * n < d /\ 0 < n' /\ 2 * n' < d') ->
  to_int_ref lo hi r exact neg n d s = to_int_ref lo hi r exact neg n' d' s.
Proof.
  intros Hd Hd' [H|(? & ? & ? & ?)]; [by apply to_int_ref_same|by apply to_int_ref_tiny].
Qed.

Theorem f32_to_i64_correct a m exact s :
  f32_to_i64 a m exact s = f32_to_int_ref (- 2 ^ 63) (2 ^ 63 - 1) m exact a s.
Proof.
  unfold f32_to_i64, f32_to_int_ref, nan32, z2b. pose proof (f32_to_i64_sig_spec a) as H.
  destruct (f32_to_i64_sig a) as [e|].
  - destruct H as (He & Hr & num & den & Hm & Hv).
    rewrite (proj2 (Z.eqb_neq _ 0xFF)) by done. cbn [andb].
    rewrite (roundPackToI64_spec _ _ num den) by done.
    apply to_int_ref_frac; [apply Hm|lia|exact Hv].
  - rewrite f32_out_of_range by lia. autorewrite with fprun.
    destruct (expF32UI a =? 0xFF), (fracF32UI a =? 0), (signF32UI a); done.
Qed.

Theorem f32_to_ui64_correct a m exact s :
  f32_to_ui64 a m exact s = f32_to_int_ref 0 (2 ^ 64 - 1) m exact a s.
Proof.
  unfold f32_to_ui64, f32_to_int_ref, nan32, z2b. pose proof (f32_to_i64_sig_spec a) as H.
  destruct (f32_to_i64_sig a) as [e|].
  - destruct H as (He & Hr & num & den & Hm & Hv).
    rewrite (proj2 (Z.eqb_neq _ 0xFF)) by done. cbn [andb].
    rewrite (roundPackToUI64_spec _ _ num den) by done.
    apply to_int_ref_frac; [apply Hm|lia|exact Hv].
  - rewrite f32_out_of_range by lia. autorewrite with fprun.
    destruct (expF32UI a =? 0xFF), (fracF32UI a =? 0), (signF32UI a); done.
Qed.

Theorem f64_to_i64_correct a m exact s :
  f64_to_i64 a m exact s = f64_to_int_ref (- 2 ^ 63) (2 ^ 63 - 1) m exact a s.
Proof.
  unfold f64_to_i64, f64_to_int_ref, nan64, z2b. pose proof (f64_to_i64_sig_spec a) as H.
  destruct (f64_to_i64_sig a) as [e|].
  - destruct H as (He & Hr & num & den & Hm & Hv).
    rewrite (proj2 (Z.eqb_neq _ 0x7FF)) by done. cbn [andb].
    rewrite (roundPackToI64_spec _ _ num den) by done.
    apply to_int_ref_frac; [apply Hm|by apply pow2_pos|exact Hv].
  - rewrite f64_out_of_range by lia. autorewrite with fprun.
    destruct (expF64UI a =? 0x7FF), (fracF64UI a =? 0), (signF64UI a); done.
Qed.

Theorem f64_to_ui64_correct a m exact s :
  f64_to_ui64 a m exact s = f64_to_int_ref 0 (2 ^ 64 - 1) m exact a s.
Proof.
  unfold f64_to_ui64, f64_to_int_ref, nan64, z2b. pose proof (f64_to_i64_sig_spec a) as H.
  destruct (f64_to_i64_sig a) as [e|].
  - destruct H as (He & Hr & num & den & Hm & Hv).
    rewrite (proj2 (Z.eqb_neq _ 0x7FF)) by done. cbn [andb].
    rewrite (roundPackToUI64_spec _ _ num den) by done.
    apply to_int_ref_frac; [apply Hm|by apply pow2_pos|exact Hv].
  - rewrite f64_out_of_range by lia. autorewrite with fprun.
    destruct (expF64UI a =? 0x7FF), (fracF64UI a =? 0), (signF64UI a); done.
Qed.

(** ** All the conversions to integers at once *)

(** C35: The eight conversions to 32- and 64-bit integers return the operand rounded in
    the given mode when it fits the type, raising inexact when asked to and the
    value changed, and otherwise raise invalid and return the type's bound. *)
Theorem float_to_int_correct a m exact s :
  f32_to_i32 a m exact s = f32_to_int_ref (- 2 ^ 31) (2 ^ 31 - 1) m exact a s
  /\ f32_to_ui32 a m exact s = f32_to_int_ref 0 (2 ^ 32 - 1) m exact a s
  /\ f32_to_i64 a m exact s = f32_to_int_ref (- 2 ^ 63) (2 ^ 63 - 1) m exact a s
  /\ f32_to_ui64 a m exact s = f32_to_int_ref 0 (2 ^ 64 - 1) m exact a s
  /\ f64_to_i32 a m exact s = f64_to_int_ref (- 2 ^ 31) (2 ^ 31 - 1) m exact a s
  /\ f64_to_ui32 a m exact s = f64_to_int_ref 0 (2 ^ 32 - 1) m exact a s
  /\ f64_to_i64 a m exact s = f64_to_int_ref (- 2 ^ 63) (2 ^ 63 - 1) m exact a s
  /\ f64_to_ui64 a m exact s = f64_to_int_ref 0 (2 ^ 64 - 1) m exact a s.
Proof.
  by rewrite f32_to_i32_correct, f32_to_ui32_correct, f32_to_i64_correct, f32_to_ui64_correct,
    f64_to_i32_correct, f64_to_ui32_correct, f64_to_i64_correct, f64_to_ui64_correct.
Qed.
