(* ===== verification/SoftArith.v ===== *)
(** The SoftFloat operations that IEEE 754 requires, taken together for each format: every one is
    the exact result rounded once, with the flags of that rounding. *)
From S2P Require Import Prelude FloatSpec FloatPack SoftPrim SoftF32 SoftF64 SoftDiv64 SoftCmp32 SoftCmp64 SoftConv.

(** C18: f32_add, f32_sub, f32_mul and f32_div return the exact sum, difference, product and quotient
    of their operands rounded in the current mode, with the flags of that rounding, and the NaN,
    infinity, signed-zero and division-by-zero results IEEE 754 prescribes. *)
Theorem f32_arith_correct a b s :
  tininess_after s -> in_range 32 a -> in_range 32 b ->
  f32_add a b s = add32_ref a b s /\ f32_sub a b s = add32_ref a (neg32 b) s /\
  f32_mul a b s = mul32_ref a b s /\ f32_div a b s = div32_ref a b s.
Proof.
  intros Ht Ha Hb. split; [by apply f32_add_correct |]. split; [by apply f32_sub_correct |].
  split; [by apply f32_mul_correct | by apply f32_div_correct].
Qed.

(** C17: f64_add, f64_sub, f64_mul (by 128-bit arithmetic) and f64_div (which corrects a quotient
    from a 32-bit reciprocal only when its low bits are near a rounding boundary) return the exact
    result rounded in the current mode, with its flags and the special results. *)
Theorem f64_arith_correct a b s :
  tininess_after s -> in_range 64 a -> in_range 64 b ->
  f64_add a b s = add64_ref a b s /\ f64_sub a b s = add64_ref a (neg64 b) s /\
  f64_mul a b s = mul64_ref a b s /\ f64_div a b s = div64_ref a b s.
Proof.
  intros Ht Ha Hb. split; [by apply f64_add_correct |]. split; [by apply f64_sub_correct |].
  split; [by apply f64_mul_correct | by apply f64_div_correct].
Qed.

(** C37: The twelve comparisons decide the order of the values of their operands, with both zeros
    equal; with a NaN they answer false, and the quiet ones raise the invalid flag for a signaling
    NaN only, the others for any. *)
Theorem float_compare_correct a b s :
  (in_range 32 a -> in_range 32 b ->
   let nan := nan32 a || nan32 b in
   f32_le a b s = (if nan then signaling_nan s else (val32 a <=? val32 b, s)) /\
   f32_lt a b s = (if nan then signaling_nan s else (val32 a <? val32 b, s)) /\
   f32_eq_signaling a b s = (if nan then signaling_nan s else (val32 a =? val32 b, s)) /\
   f32_le_quiet a b s = (if nan then quiet_nan32 a b s else (val32 a <=? val32 b, s)) /\
   f32_lt_quiet a b s = (if nan then quiet_nan32 a b s else (val32 a <? val32 b, s)) /\
   f32_eq a b s = (if nan then quiet_nan32 a b s else (val32 a =? val32 b, s))) /\
  (in_range 64 a -> in_range 64 b ->
   let nan := nan64 a || nan64 b in
   f64_le a b s = (if nan then signaling_nan64 s else (val64 a <=? val64 b, s)) /\
   f64_lt a b s = (if nan then signaling_nan64 s else (val64 a <? val64 b, s)) /\
   f64_eq_signaling a b s = (if nan then signaling_nan64 s else (val64 a =? val64 b, s)) /\
   f64_le_quiet a b s = (if nan then quiet_nan64 a b s else (val64 a <=? val64 b, s)) /\
   f64_lt_quiet a b s = (if nan then quiet_nan64 a b s else (val64 a <? val64 b, s)) /\
   f64_eq a b s = (if nan then quiet_nan64 a b s else (val64 a =? val64 b, s))).
Proof. split; [apply f32_compare_correct | apply f64_compare_correct]. Qed.

(** C36: f64_to_f32 and the eight conversions from 32- and 64-bit integers return the value rounded
    in the current mode with its flags, quiet NaNs and infinities kept; f32_to_f64 keeps the sign
    and the value of every number and infinity and raises nothing; a NaN becomes the default NaN,
    and a signaling one raises the invalid flag. *)
Theorem float_convert_correct a s :
  tininess_after s ->
  f64_to_f32 a s = f64_to_f32_ref a s /\
  (let r := fst (f32_to_f64 a s) in
   f32_to_f64 a s
   = (if nan32 a then (defaultNaNF64UI, raised (if snan32 a then softfloat_flag_invalid else 0) s) else (r, s)) /\
   (nan32 a = false ->
    signF64UI r = signF32UI a /\ if inf32 a then inf64 r = true else finite64 r /\ mag64 r = mag32 a * 2 ^ 925)) /\
  (- 2 ^ 31 <= a < 2 ^ 31 -> i32_to_f32 a s = int_to_f32_ref a s /\ i32_to_f64 a s = int_to_f64_ref a s) /\
  (in_range 32 a -> ui32_to_f32 a s = int_to_f32_ref a s /\ ui32_to_f64 a s = int_to_f64_ref a s) /\
  (- 2 ^ 63 <= a < 2 ^ 63 -> i64_to_f32 a s = int_to_f32_ref a s /\ i64_to_f64 a s = int_to_f64_ref a s) /\
  (in_range 64 a -> ui64_to_f32 a s = int_to_f32_ref a s /\ ui64_to_f64 a s = int_to_f64_ref a s).
Proof.
  intros Ht. split; [by apply f64_to_f32_correct |]. split; [apply f32_to_f64_exact |]. by apply int_to_float_correct.
Qed.

(** ** On concrete operands *)

(** 1 and 3; 1/3 is inexact. *)
Lemma f32_arith_correct_witness :
  f32_add 0x3F800000 0x40400000 softfloat_init = (0x40800000, softfloat_init) /\
  f32_sub 0x3F800000 0x40400000 softfloat_init = (0xC0000000, softfloat_init) /\
  f32_mul 0x3F800000 0x40400000 softfloat_init = (0x40400000, softfloat_init) /\
  f32_div 0x3F800000 0x40400000 softfloat_init = (0x3EAAAAAB, FpState 0 1 1).
Proof.
  destruct (f32_arith_correct 0x3F800000 0x40400000 softfloat_init ltac:(concrete) ltac:(concrete) ltac:(concrete))
    as (-> & -> & -> & ->). vm_compute. by repeat split.
Defined.
Lemma f64_arith_correct_witness :
  f64_add 0x3FF0000000000000 0x4008000000000000 softfloat_init = (0x4010000000000000, softfloat_init) /\
  f64_sub 0x3FF0000000000000 0x4008000000000000 softfloat_init = (0xC000000000000000, softfloat_init) /\
  f64_mul 0x3FF0000000000000 0x4008000000000000 softfloat_init = (0x4008000000000000, softfloat_init) /\
  f64_div 0x3FF0000000000000 0x4008000000000000 softfloat_init = (0x3FD5555555555555, FpState 0 1 1).
Proof.
  destruct (f64_arith_correct 0x3FF0000000000000 0x4008000000000000 softfloat_init ltac:(concrete) ltac:(concrete) ltac:(concrete))
    as (-> & -> & -> & ->). vm_compute. by repeat split.
Defined.

(** Both zeros are equal. *)
Lemma float_compare_correct_witness :
  f32_le (2 ^ 31) 0 softfloat_init = (true, softfloat_init) /\ f64_lt (2 ^ 63) 0 softfloat_init = (false, softfloat_init).
Proof.
  destruct (float_compare_correct (2 ^ 31) 0 softfloat_init) as [H32 _].
  destruct (H32 ltac:(concrete) ltac:(concrete)) as (-> & _).
  destruct (float_compare_correct (2 ^ 63) 0 softfloat_init) as [_ H64].
  destruct (H64 ltac:(concrete) ltac:(concrete)) as (_ & -> & _). vm_compute. by split.
Defined.
Lemma float_convert_correct_witness :
  f64_to_f32 0x3FF0000010000000 softfloat_init = (0x3F800000, FpState 0 1 1) /\
  i32_to_f32 0x1000001 softfloat_init = (0x4B800000, FpState 0 1 1).
Proof.
  destruct (float_convert_correct 0x3FF0000010000000 softfloat_init ltac:(concrete)) as [-> _].
  destruct (float_convert_correct 0x1000001 softfloat_init ltac:(concrete)) as (_ & _ & Hi & _).
  destruct (Hi ltac:(concrete)) as [-> _]. vm_compute. by split.
Defined.
