(* ===== verification/SoftFma32.v ===== *)
(** Single-precision fused multiply-add: softfloat/s_mulAddF32.c and
    f32_mulAdd.c.  The exact product and the addend are added before the one
    rounding. *)
From S2P Require Import Prelude FloatSpec FloatPack SoftPrim SoftF32.

Definition softfloat_mulAdd_subC : Z := 1.
Definition softfloat_mulAdd_subProd : Z := 2.

(** The branch [signProd == signC], to the call of [softfloat_roundPackToF32]. *)
Definition mulAddF32_add (signZ : bool) (expProd sigProd expC sigC : Z) : FP Z :=
  let expDiff := expProd - expC in
  let '(expZ, sigZ) :=
    if expDiff <=? 0 then
      (expC, u64 (sigC + softfloat_shiftRightJam64 sigProd (32 - expDiff)))
    else
      let sig64Z := u64 (sigProd + softfloat_shiftRightJam64 (u64 (sigC .<< 32)) expDiff) in
      (expProd, softfloat_shortShiftRightJam64 sig64Z 32) in
  if sigZ <? 0x40000000
  then softfloat_roundPackToF32 signZ (expZ - 1) (u64 (sigZ .<< 1))
  else softfloat_roundPackToF32 signZ expZ sigZ.

(** From [shiftCount = ...] in the other branch. *)
Definition mulAddF32_normRound (signZ : bool) (expZ sig64Z : Z) : FP Z :=
  let shiftCount := softfloat_countLeadingZeros64 sig64Z - 1 in
  let expZ := expZ - shiftCount in
  let shiftCount := shiftCount - 32 in
  let sigZ :=
    if shiftCount <? 0 then softfloat_shortShiftRightJam64 sig64Z (- shiftCount)
    else u64 (sig64Z .<< shiftCount) in
  softfloat_roundPackToF32 signZ expZ sigZ.

Definition mulAddF32_completeCancellation : FP Z :=
  s ← get_fp;
  mret (u32 (packToF32UI (softfloat_roundingMode s =? softfloat_round_min) 0 0)).

(** The branch [signProd != signC]. *)
Definition mulAddF32_sub (signProd signC : bool) (expProd sigProd expC sigC : Z) : FP Z :=
  let expDiff := expProd - expC in
  let sig64C := u64 (sigC .<< 32) in
  if expDiff <? 0 then
    mulAddF32_normRound signC expC
      (u64 (sig64C - softfloat_shiftRightJam64 sigProd (- expDiff)))
  else if negb (z2b expDiff) then
    let sig64Z := u64 (sigProd - sig64C) in
    if negb (z2b sig64Z) then mulAddF32_completeCancellation
    else if z2b (sig64Z .& 0x8000000000000000)
    then mulAddF32_normRound (negb signProd) expProd (u64 (- sig64Z))
    else mulAddF32_normRound signProd expProd sig64Z
  else
    mulAddF32_normRound signProd expProd
      (u64 (sigProd - softfloat_shiftRightJam64 sig64C expDiff)).

Definition softfloat_mulAddF32 (uiA uiB uiC op : Z) : FP Z :=
  let signA := signF32UI uiA in
  let expA := expF32UI uiA in
  let sigA := fracF32UI uiA in
  let signB := signF32UI uiB in
  let expB := expF32UI uiB in
  let sigB := fracF32UI uiB in
  let signC := xorb (signF32UI uiC) (op =? softfloat_mulAdd_subC) in
  let expC := expF32UI uiC in
  let sigC := fracF32UI uiC in
  let signProd := xorb (xorb signA signB) (op =? softfloat_mulAdd_subProd) in
  let propagateNaN_ZC uiZ := softfloat_propagateNaNF32UI uiZ uiC in
  let propagateNaN_ABC := uiZ ← softfloat_propagateNaNF32UI uiA uiB; propagateNaN_ZC uiZ in
  let invalid :=
    softfloat_raiseFlags softfloat_flag_invalid ;; propagateNaN_ZC defaultNaNF32UI in
  let infProdArg magBits :=
    if z2b magBits then
      let uiZ := packToF32UI signProd 0xFF 0 in
      if negb (expC =? 0xFF) then mret (u32 uiZ)
      else if z2b sigC then propagateNaN_ZC uiZ
      else if eqb signProd signC then mret (u32 uiZ)
      else invalid
    else invalid in
  let zeroProd :=
    if negb (z2b (expC .| sigC)) && negb (eqb signProd signC)
    then mulAddF32_completeCancellation else mret (u32 uiC) in
  if expA =? 0xFF then
    if z2b sigA || ((expB =? 0xFF) && z2b sigB) then propagateNaN_ABC
    else infProdArg (expB .| sigB)
  else if expB =? 0xFF then
    if z2b sigB then propagateNaN_ABC else infProdArg (expA .| sigA)
  else if expC =? 0xFF then
    if z2b sigC then propagateNaN_ZC 0 else mret (u32 uiC)
  else if negb (z2b expA) && negb (z2b sigA) then zeroProd
  else
    let '(expA, sigA) :=
      if negb (z2b expA) then softfloat_normSubnormalF32Sig sigA else (expA, sigA) in
    if negb (z2b expB) && negb (z2b sigB) then zeroProd
    else
      let '(expB, sigB) :=
        if negb (z2b expB) then softfloat_normSubnormalF32Sig sigB else (expB, sigB) in
      let expProd := expA + expB - 0x7E in
      let sigA := u64 ((sigA .| 0x00800000) .<< 7) in
      let sigB := u64 ((sigB .| 0x00800000) .<< 7) in
      let sigProd := u64 (sigA * sigB) in
      let '(expProd, sigProd) :=
        if sigProd <? 0x2000000000000000 then (expProd - 1, u64 (sigProd .<< 1))
        else (expProd, sigProd) in
      if negb (z2b expC) && negb (z2b sigC) then
        softfloat_roundPackToF32 signProd (expProd - 1)
          (softfloat_shortShiftRightJam64 sigProd 31)
      else
        let '(expC, sigC) :=
          if negb (z2b expC) then softfloat_normSubnormalF32Sig sigC else (expC, sigC) in
        let sigC := u64 ((sigC .| 0x00800000) .<< 6) in
        if eqb signProd signC then mulAddF32_add signProd expProd sigProd expC sigC
        else mulAddF32_sub signProd signC expProd sigProd expC sigC.

Definition f32_mulAdd (uiA uiB uiC : Z) : FP Z := softfloat_mulAddF32 uiA uiB uiC 0.

(** ** The fused operation, as the standard specifies it

    The product is a multiple of 2^-298, the addend of 2^-149. *)
Definition round_fused32 (v : Z) (zneg : bool) (s : fpstate) : Z * fpstate :=
  let neg := if v =? 0 then zneg else v <? 0 in
  deliver 32 neg (fround binary32 (mode s) neg (Z.abs v) 1 (-298)) s.

Definition mulAdd32_ref (a b c : Z) (s : fpstate) : Z * fpstate :=
  let signP := xorb (signF32UI a) (signF32UI b) in
  if nan32 a || nan32 b then
    (defaultNaNF32UI,
     raised (if snan32 a || snan32 b || snan32 c then softfloat_flag_invalid else 0) s)
  else if (inf32 a && zero32 b) || (inf32 b && zero32 a) then invalid_result32 s
  else if nan32 c then
    (defaultNaNF32UI, raised (if snan32 c then softfloat_flag_invalid else 0) s)
  else if inf32 a || inf32 b then
    if inf32 c && xorb signP (signF32UI c) then invalid_result32 s else inf_result32 signP s
  else if inf32 c then (c, s)
  else
    round_fused32 (val32 a * val32 b + val32 c * 2 ^ 149)
      (if eqb signP (signF32UI c) then signP else zero_sign s) s.

(** ** Normalizing and rounding a 64-bit difference *)

Lemma mulAddF32_normRound_spec sign expZ n s :
  tininess_after s -> - 2 ^ 13 <= expZ < 2 ^ 13 -> 0 < n < 2 ^ 63 ->
  mulAddF32_normRound sign expZ n s
  = deliver 32 sign (fround binary32 (mode s) sign n 1 (expZ - 188)) s.
Proof.
  intros Ht He Hn. unfold mulAddF32_normRound.
  rewrite countLeadingZeros64_spec, (proj2 (Z.eqb_neq n 0)) by (unfold in_range; lia).
  pose proof (Z.log2_nonneg n). pose proof (log2_lt n 63 ltac:(lia) ltac:(lia)).
  remember (63 - Z.log2 n - 1) as c eqn:Hc.
  assert (2 ^ 62 <= n * 2 ^ c < 2 ^ 63) as Hm.
  { pose proof (Z.log2_spec n ltac:(lia)) as Hl. set (l := Z.log2 n) in *.
    assert (2 ^ 62 = 2 ^ l * 2 ^ c) as -> by (rewrite <- Z.pow_add_r by lia; f_equal; lia).
    assert (2 ^ 63 = 2 ^ Z.succ l * 2 ^ c) as -> by (rewrite <- Z.pow_add_r by lia; f_equal; lia).
    pose proof (pow2_pos c ltac:(lia)). nia. }
  destruct (Z.ltb_spec (c - 32) 0).
  - replace (- (c - 32)) with (32 - c) by lia. rewrite shortShiftRightJam64_jam by lia.
    assert (2 ^ 62 = 2 ^ 30 * 2 ^ (32 - c) * 2 ^ c) as E62
      by (rewrite <- !Z.pow_add_r by lia; f_equal; lia).
    assert (2 ^ 63 = 2 ^ 31 * 2 ^ (32 - c) * 2 ^ c) as E63
      by (rewrite <- !Z.pow_add_r by lia; f_equal; lia).
    pose proof (pow2_pos c ltac:(lia)). pose proof (pow2_le 1 (32 - c) ltac:(lia)) as Hd.
    change (2 ^ 1) with 2 in Hd.
    assert (2 ^ 30 * 2 ^ (32 - c) <= n < 2 ^ 31 * 2 ^ (32 - c)) as Hq by nia.
    assert (2 ^ 30 <= jam n (2 ^ (32 - c)) < 2 ^ 31).
    { pose proof (jam_bounds n (2 ^ (32 - c)) ltac:(lia)).
      assert (2 ^ 30 <= n / 2 ^ (32 - c)) by (apply Z.div_le_lower_bound; lia).
      assert (n / 2 ^ (32 - c) < 2 ^ 31) by (apply Z.div_lt_upper_bound; lia).
      split; [lia|]. rewrite jam_cases. destruct (_ =? 0); [lia|].
      set (q := n / _) in *. clearbody q. zdm. }
    rewrite roundPackToF32_spec by (done || lia). f_equal.
    rewrite fround_jam, fround_den_pow2 by (cbn [prec binary32]; lia || nia). f_equal. lia.
  - assert (2 ^ 30 <= n * 2 ^ (c - 32) < 2 ^ 31) as Hr.
    { replace c with (c - 32 + 32) in Hm by lia. rewrite Z.pow_add_r in Hm by lia. lia. }
    rewrite shl_mul, wrap_small by lia.
    rewrite roundPackToF32_spec by (done || lia). f_equal.
    rewrite <- (fround_scale _ _ _ n 1 (expZ - 188) (c - 32)) by lia. f_equal. lia.
Qed.

(** ** Adding the aligned product and addend

    [P], [C]: the significands; their values are [P * 2^(expProd - 188)] and
    [C * 2^(expC - 156)]. *)
Section aligned.
Context (P C expProd expC : Z) (s : fpstate).
Hypothesis Ht : tininess_after s.
Hypothesis HP : 2 ^ 61 <= P < 2 ^ 62.
Hypothesis HP2 : P mod 2 ^ 14 = 0.
Hypothesis HC : 2 ^ 29 <= C < 2 ^ 30.
Hypothesis HC2 : C mod 2 ^ 6 = 0.
Hypothesis HeP : - 2 ^ 10 <= expProd < 2 ^ 10.
Hypothesis HeC : - 2 ^ 8 <= expC < 2 ^ 8.

(** The exact values on the scale [2^(k - 188)]. *)
Let k := Z.min expProd expC.
Let VP := P * 2 ^ (expProd - k).
Let VC := C * 2 ^ 32 * 2 ^ (expC - k).

Lemma fma_mod2 x n : 1 <= n -> x mod 2 ^ n = 0 -> x mod 2 = 0.
Proof.
  intros Hn Hx. rewrite (pow2_split n 1), Z.rem_mul_r in Hx by (lia || apply pow2_pos; lia).
  change (2 ^ 1) with 2 in *.
  pose proof (Z.mod_pos_bound (x / 2) (2 ^ (n - 1)) ltac:(apply pow2_pos; lia)).
  pose proof (Z.mod_pos_bound x 2). lia.
Qed.

Lemma fma_final sign expZ sigZ v e :
  - 2 ^ 12 <= expZ < 2 ^ 12 -> 2 ^ 29 <= sigZ < 2 ^ 31 ->
  (forall r, fround binary32 r sign sigZ 1 (expZ - 156) = fround binary32 r sign v 1 e) ->
  (if sigZ <? 0x40000000
   then softfloat_roundPackToF32 sign (expZ - 1) (u64 (sigZ .<< 1))
   else softfloat_roundPackToF32 sign expZ sigZ) s
  = deliver 32 sign (fround binary32 (mode s) sign v 1 e) s.
Proof.
  clear - Ht. intros He Hs Hv. rewrite <- Hv. destruct (Z.ltb_spec sigZ 0x40000000).
  - rewrite shl_mul, wrap_small by lia. rewrite roundPackToF32_spec by (done || lia).
    replace (expZ - 1 - 156) with (expZ - 156 - 1) by lia. by rewrite fround_scale by lia.
  - by rewrite roundPackToF32_spec by (done || lia).
Qed.

Lemma mulAddF32_add_spec sign :
  mulAddF32_add sign expProd P expC C s
  = deliver 32 sign (fround binary32 (mode s) sign (VP + VC) 1 (k - 188)) s.
Proof.
  unfold mulAddF32_add. destruct (Z.leb_spec (expProd - expC) 0) as [Hd|Hd].
  - rewrite shiftRightJam64_jam by lia.
    pose proof (jam_bounds P (2 ^ (32 - (expProd - expC))) ltac:(apply pow2_pos; lia)) as Hj.
    pose proof (pow2_le 32 (32 - (expProd - expC)) ltac:(lia)) as Hp.
    assert (0 <= P / 2 ^ (32 - (expProd - expC)) < 2 ^ 30)
      by (split; [apply Z.div_pos; lia|apply Z.div_lt_upper_bound; lia]).
    rewrite (wrap_small 64 (C + _)) by lia. apply fma_final; [lia|lia|]. intros r.
    rewrite fround_align_add by (cbn [prec binary32]; lia || by apply (fma_mod2 _ 6)).
    assert (k = expProd) as Hk by lia. unfold VP, VC. rewrite Hk, Z.sub_diag.
    f_equal; [|lia]. rewrite Z.mul_1_r, Z.add_comm. f_equal.
    rewrite <- Z.mul_assoc, <- Z.pow_add_r by lia. do 2 f_equal. lia.
  - rewrite (shl_mul C), (wrap_small 64 (C * _)) by lia. rewrite shiftRightJam64_jam by lia.
    pose proof (jam_shift_range (C * 2 ^ 32) (expProd - expC) 61 ltac:(lia) ltac:(lia) ltac:(lia)).
    rewrite (wrap_small 64 (P + _)) by lia. rewrite shortShiftRightJam64_jam by lia.
    set (S := P + jam (C * 2 ^ 32) (2 ^ (expProd - expC))) in *.
    pose proof (jam_bounds S (2 ^ 32) ltac:(lia)).
    assert (2 ^ 29 <= S / 2 ^ 32 < 2 ^ 31 - 1) by (unfold S; zdm).
    apply fma_final; [lia|lia|]. intros r.
    rewrite fround_jam, fround_den_pow2 by (cbn [prec binary32]; lia).
    unfold S. rewrite fround_align_add by (cbn [prec binary32]; lia || by apply (fma_mod2 _ 14)).
    assert (k = expC) as Hk by lia. unfold VP, VC. rewrite Hk, Z.sub_diag.
    f_equal; lia.
Qed.

(** The larger significand minus the shifted smaller one. *)
Lemma fma_sub_aligned sign e a x d :
  - 2 ^ 12 <= e < 2 ^ 12 -> 1 <= d <= 2 ^ 12 ->
  2 ^ 61 <= a < 2 ^ 62 -> a mod 2 = 0 -> 0 <= x < 2 ^ 62 -> x mod 2 = 0 ->
  x < a * 2 ^ d /\
  mulAddF32_normRound sign e (u64 (a - softfloat_shiftRightJam64 x d)) s
  = deliver 32 sign (fround binary32 (mode s) sign (a * 2 ^ d - x) 1 (e - 188 - d)) s.
Proof.
  clear - Ht. intros He Hd Ha Ha2 Hx Hx2.
  pose proof (pow2_le 1 d ltac:(lia)) as Hpd. change (2 ^ 1) with 2 in Hpd.
  split; [nia|]. rewrite shiftRightJam64_jam by lia.
  assert (jam x (2 ^ d) < a /\ (x mod 2 ^ d = 0 \/ 2 ^ 25 <= a - jam x (2 ^ d))) as [Hlt Hc].
  { destruct (decide (d = 1)) as [->|].
    - rewrite jam_exact by done. split; [zdm|left; done].
    - pose proof (jam_shift_range x (d - 1 + 1) 61 ltac:(lia) ltac:(lia) ltac:(lia)) as Hj.
      pose proof (jam_bounds x (2 ^ d) ltac:(lia)).
      assert (x / 2 ^ d < 2 ^ 60).
      { apply Z.div_lt_upper_bound; [lia|]. pose proof (pow2_le 2 d ltac:(lia)) as Hp2.
        change (2 ^ 2) with 4 in Hp2. lia. }
      lia. }
  pose proof (jam_bounds x (2 ^ d) ltac:(lia)).
  pose proof (Z.div_pos x (2 ^ d) ltac:(lia) ltac:(lia)).
  rewrite wrap_small, mulAddF32_normRound_spec by (done || lia). f_equal.
  apply fround_align_sub; (cbn [prec binary32]; lia) || done || exact Hc.
Qed.

(** The difference, with the sign of the larger operand. *)
Lemma mulAddF32_sub_spec sign :
  mulAddF32_sub sign (negb sign) expProd P expC C s
  = if VP =? VC then (b2z (zero_sign s) * 2 ^ 31, s)
    else
      let neg := if VC <? VP then sign else negb sign in
      deliver 32 neg (fround binary32 (mode s) neg (Z.abs (VP - VC)) 1 (k - 188)) s.
Proof.
  pose proof (fma_mod2 P 14 ltac:(lia) HP2) as HPe.
  assert ((C * 2 ^ 32) mod 2 = 0) as HCe by (change (2 ^ 32) with (2 ^ 31 * 2); rewrite Z.mul_assoc; by apply Z.mod_mul).
  unfold mulAddF32_sub. rewrite (shl_mul C), (wrap_small 64 (C * _)) by lia. cbv zeta.
  destruct (Z.ltb_spec (expProd - expC) 0) as [Hd|Hd];
    [|unfold z2b at 1; rewrite negb_involutive;
      destruct (Z.eqb_spec (expProd - expC) 0) as [He|He]].
  - destruct (fma_sub_aligned (negb sign) expC (C * 2 ^ 32) P (- (expProd - expC)))
      as [Hlt ->]; [lia..|].
    assert (VP = P /\ VC = C * 2 ^ 32 * 2 ^ (- (expProd - expC))) as [-> ->].
    { unfold VP, VC, k. rewrite Z.min_l, Z.sub_diag by lia. split; [lia|do 2 f_equal; lia]. }
    rewrite (proj2 (Z.eqb_neq _ _)), (proj2 (Z.ltb_ge _ _)), Z.abs_neq by lia.
    f_equal. f_equal; lia.
  - assert (VP = P /\ VC = C * 2 ^ 32 /\ k = expProd) as (-> & -> & ->).
    { unfold VP, VC, k. rewrite Z.min_l, !Z.sub_diag by lia.
      replace (expC - expProd) with 0 by lia. lia. }
    unfold z2b at 1. rewrite negb_involutive.
    change 0x8000000000000000 with (2 ^ (64 - 1)). rewrite land_top_bit by (lia || apply wrap_range; lia).
    change (2 ^ (64 - 1)) with (2 ^ 63).
    destruct (Z.lt_trichotomy P (C * 2 ^ 32)) as [Hlt|[E|Hlt]].
    + assert (u64 (P - C * 2 ^ 32) = P - C * 2 ^ 32 + 2 ^ 64) as ->
        by (symmetry; apply (Z.mod_unique _ _ (-1)); lia).
      rewrite !(proj2 (Z.eqb_neq _ _)), (proj2 (Z.leb_le _ _)), (proj2 (Z.ltb_ge _ _)), Z.abs_neq by lia.
      assert (u64 (- (P - C * 2 ^ 32 + 2 ^ 64)) = C * 2 ^ 32 - P) as ->
        by (symmetry; apply (Z.mod_unique _ _ (-1)); lia).
      rewrite mulAddF32_normRound_spec by (done || lia). f_equal. f_equal; lia.
    + rewrite E, Z.sub_diag, Z.eqb_refl. change (u64 0 =? 0) with true. cbv iota.
      unfold mulAddF32_completeCancellation. autorewrite with fprun.
      rewrite zero_sign_eq, Z.eqb_refl, pack_zero32. done.
    + rewrite wrap_small by lia.
      rewrite !(proj2 (Z.eqb_neq _ _)), (proj2 (Z.leb_gt _ _)), (proj2 (Z.ltb_lt _ _)), Z.abs_eq by lia.
      by rewrite mulAddF32_normRound_spec by (done || lia).
  - destruct (fma_sub_aligned sign expProd P (C * 2 ^ 32) (expProd - expC))
      as [Hlt ->]; [lia..|].
    assert (VP = P * 2 ^ (expProd - expC) /\ VC = C * 2 ^ 32) as [-> ->].
    { unfold VP, VC, k. rewrite Z.min_r, Z.sub_diag by lia. split; lia. }
    rewrite (proj2 (Z.eqb_neq _ _)), (proj2 (Z.ltb_lt _ _)), Z.abs_eq by lia.
    f_equal. f_equal; lia.
Qed.
End aligned.

(** ** [f32_mulAdd] is correctly rounded *)

(** The normalized product, with its exact value on the scale 2^-1000. *)
Lemma fma_product x y e ma mb :
  - 2 ^ 9 <= e < 2 ^ 9 -> 2 ^ 23 <= x < 2 ^ 24 -> 2 ^ 23 <= y < 2 ^ 24 ->
  x * y * 2 ^ (e + 826) = ma * mb * 2 ^ 702 ->
  let P0 := u64 (u64 (x .<< 7) * u64 (y .<< 7)) in
  let '(e', P) := if P0 <? 0x2000000000000000 then (e - 1, u64 (P0 .<< 1)) else (e, P0) in
  2 ^ 61 <= P < 2 ^ 62 /\ P mod 2 ^ 14 = 0 /\ e - 1 <= e' <= e
  /\ P * 2 ^ (e' + 812) = ma * mb * 2 ^ 702.
Proof.
  intros He Hx Hy Hv. rewrite !shl_mul by lia.
  rewrite (wrap_small 64 (x * _)), (wrap_small 64 (y * _)) by lia.
  rewrite (wrap_small 64 (x * 2 ^ 7 * (y * 2 ^ 7))) by nia.
  replace (x * 2 ^ 7 * (y * 2 ^ 7)) with (x * y * 2 ^ 14) by lia.
  assert (2 ^ 60 <= x * y * 2 ^ 14 < 2 ^ 62) by nia.
  replace (e + 826) with (14 + (e + 812)) in Hv by lia. rewrite Z.pow_add_r in Hv by lia.
  cbv zeta. destruct (Z.ltb_spec (x * y * 2 ^ 14) 0x2000000000000000).
  - rewrite shl_mul, wrap_small by lia. split; [lia|]. split; [|split; [lia|]].
    + replace (x * y * 2 ^ 14 * 2 ^ 1) with (x * y * 2 * 2 ^ 14) by lia. by apply Z.mod_mul.
    + replace (e + 812) with (1 + (e - 1 + 812)) in Hv by lia. rewrite Z.pow_add_r in Hv by lia. lia.
  - split; [lia|]. split; [by apply Z.mod_mul|]. split; [lia|]. lia.
Qed.

(** The operands' values and the reference, on one scale. *)
Lemma round_fused_scale v n e zneg s :
  - 1000 <= e -> n * 2 ^ (e + 1000) = Z.abs v * 2 ^ 702 -> v <> 0 -> 0 < n ->
  forall neg, neg = (v <? 0) ->
  round_fused32 v zneg s = deliver 32 neg (fround binary32 (mode s) neg n 1 e) s.
Proof.
  intros He Hv Hv0 Hn neg ->. unfold round_fused32. rewrite (proj2 (Z.eqb_neq v 0)) by done.
  f_equal. apply fround_same_value with (k := -1000); [lia|lia|lia|lia|].
  replace (e - -1000) with (e + 1000) by lia. change (-298 - -1000) with 702. lia.
Qed.

Lemma val_prod32 a b :
  val32 a * val32 b
  = if xorb (signF32UI a) (signF32UI b) then - (mag32 a * mag32 b) else mag32 a * mag32 b.
Proof. unfold val32. destruct (signF32UI a), (signF32UI b); cbn [xorb]; lia. Qed.

(** A product alone. *)
Lemma fma_no_addend signP ma mb P eP zneg s :
  tininess_after s -> - 2 ^ 9 <= eP < 2 ^ 9 -> 2 ^ 61 <= P < 2 ^ 62 ->
  0 < ma -> 0 < mb -> P * 2 ^ (eP + 812) = ma * mb * 2 ^ 702 ->
  softfloat_roundPackToF32 signP (eP - 1) (softfloat_shortShiftRightJam64 P 31) s
  = round_fused32 (if signP then - (ma * mb) else ma * mb) zneg s.
Proof.
  intros Ht HeP HP Hma Hmb Hv. assert (0 < ma * mb) by nia.
  rewrite shortShiftRightJam64_jam by lia. pose proof (jam_bounds P (2 ^ 31) ltac:(lia)).
  assert (2 ^ 30 <= jam P (2 ^ 31) < 2 ^ 31) by (split; [zdm|rewrite jam_cases; destruct (_ =? 0); zdm]).
  rewrite roundPackToF32_spec by (done || lia).
  rewrite fround_jam, fround_den_pow2 by (cbn [prec binary32]; lia).
  symmetry. replace (eP - 1 - 156 - 31) with (eP - 188) by lia.
  apply round_fused_scale; [lia| |destruct signP; lia|lia|destruct signP; case_bool; lia || done].
  replace (eP - 188 + 1000) with (eP + 812) by lia. rewrite Hv. f_equal. destruct signP; lia.
Qed.

(** A product and an addend. *)
Lemma fma_addend signP signC ma mb mc P C eP eC s :
  tininess_after s -> - 2 ^ 9 <= eP < 2 ^ 9 -> 2 ^ 61 <= P < 2 ^ 62 -> P mod 2 ^ 14 = 0 ->
  - 2 ^ 8 <= eC < 2 ^ 8 -> 2 ^ 29 <= C < 2 ^ 30 -> C mod 2 ^ 6 = 0 ->
  P * 2 ^ (eP + 812) = ma * mb * 2 ^ 702 ->
  C * 2 ^ 32 * 2 ^ (eC + 812) = mc * 2 ^ 149 * 2 ^ 702 ->
  (if eqb signP signC then mulAddF32_add signP eP P eC C
   else mulAddF32_sub signP signC eP P eC C) s
  = round_fused32 ((if signP then - (ma * mb) else ma * mb)
                   + (if signC then - mc else mc) * 2 ^ 149)
      (if eqb signP signC then signP else zero_sign s) s.
Proof.
  intros Ht HeP HP HP2 HeC HC HC2 HvP HvC. set (k := Z.min eP eC).
  set (VP := P * 2 ^ (eP - k)). set (VC := C * 2 ^ 32 * 2 ^ (eC - k)).
  assert (VP * 2 ^ (k + 812) = ma * mb * 2 ^ 702) as EP.
  { rewrite <- HvP. unfold VP. rewrite <- Z.mul_assoc, <- Z.pow_add_r by lia. do 2 f_equal. lia. }
  assert (VC * 2 ^ (k + 812) = mc * 2 ^ 149 * 2 ^ 702) as EC.
  { rewrite <- HvC. unfold VC. rewrite <- Z.mul_assoc, <- Z.pow_add_r by lia. do 2 f_equal. lia. }
  pose proof (pow2_pos (k + 812) ltac:(lia)) as HK.
  assert (0 < VP /\ 0 < VC) as [HVP HVC].
  { unfold VP, VC. pose proof (pow2_pos (eP - k) ltac:(lia)). pose proof (pow2_pos (eC - k) ltac:(lia)). nia. }
  assert (0 < ma * mb * 2 ^ 702) as Hmab
    by (rewrite <- HvP; apply Z.mul_pos_pos; [lia|apply pow2_pos; lia]).
  assert (0 < mc * 2 ^ 149 * 2 ^ 702) as Hmc
    by (rewrite <- HvC; apply Z.mul_pos_pos; [lia|apply pow2_pos; lia]).
  destruct (eqb signP signC) eqn:Es.
  - apply eqb_prop in Es as <-. rewrite mulAddF32_add_spec by (done || lia). fold k VP VC. symmetry.
    apply round_fused_scale; [lia| |destruct signP; lia|lia|destruct signP; case_bool; lia || done].
    replace (k - 188 + 1000) with (k + 812) by lia.
    rewrite Z.mul_add_distr_r, EP, EC. destruct signP; lia.
  - assert (signC = negb signP) as -> by (by destruct signP, signC).
    rewrite mulAddF32_sub_spec by (done || lia). fold k VP VC.
    set (v := (if signP then _ else _) + _).
    assert (v = if signP then mc * 2 ^ 149 - ma * mb else ma * mb - mc * 2 ^ 149) as Hv
      by (unfold v; destruct signP; cbn [negb]; lia).
    destruct (Z.eqb_spec VP VC) as [E|E].
    + assert (v = 0) as -> by (rewrite Hv; rewrite E in EP; destruct signP; lia).
      unfold round_fused32. rewrite Z.eqb_refl, Z.abs_0.
      assert (forall r g, fround binary32 r g 0 1 (-298) = (0, Flags false false false)) as ->
        by (by intros [] []).
      unfold deliver. cbn [fst snd]. by rewrite raised_0, Z.add_0_r.
    + assert (VC * 2 ^ (k + 812) < VP * 2 ^ (k + 812) <-> VC < VP) as Hlt by nia.
      assert (VP * 2 ^ (k + 812) <> VC * 2 ^ (k + 812)) as Hne by nia.
      rewrite EP, EC in Hlt, Hne. symmetry. apply round_fused_scale; [lia| | |lia|].
      * replace (k - 188 + 1000) with (k + 812) by lia. rewrite Hv.
        transitivity (Z.abs (VP * 2 ^ (k + 812) - VC * 2 ^ (k + 812))); [nia|].
        rewrite EP, EC. destruct signP; lia.
      * rewrite Hv. destruct signP; lia.
      * rewrite Hv. destruct signP; cbn [negb]; case_bool; done || lia.
Qed.

Lemma mulAdd_finite32 a b c s :
  tininess_after s -> in_range 32 c ->
  finite32 a -> finite32 b -> finite32 c -> zero32 a = false -> zero32 b = false ->
  let signP := xorb (signF32UI a) (signF32UI b) in
  f32_mulAdd a b c s
  = round_fused32 (val32 a * val32 b + val32 c * 2 ^ 149)
      (if eqb signP (signF32UI c) then signP else zero_sign s) s.
Proof.
  intros Ht Hc Fa Fb Fc Za Zb signP. pose proof (mag32_pos a Za). pose proof (mag32_pos b Zb).
  unfold f32_mulAdd, softfloat_mulAddF32, finite32 in *.
  rewrite (proj2 (Z.eqb_neq (expF32UI a) _) Fa), (proj2 (Z.eqb_neq (expF32UI b) _) Fb),
    (proj2 (Z.eqb_neq (expF32UI c) _) Fc).
  change (0 =? softfloat_mulAdd_subC) with false. change (0 =? softfloat_mulAdd_subProd) with false.
  rewrite !xorb_false_r, !zero_test32, Za, Zb. fold signP.
  fold (norm_operand32 a) (norm_operand32 b) (norm_operand32 c).
  destruct (norm_operand32 a) as [ea ma] eqn:Na. destruct (norm_operand32 b) as [eb mb] eqn:Nb.
  destruct (norm_operand32_spec a ea ma) as (Ra & Ma & Va); [done..|].
  destruct (norm_operand32_spec b eb mb) as (Rb & Mb & Vb); [done..|].
  set (x := ma .| _) in *. set (y := mb .| _) in *. cbv zeta.
  pose proof (fma_product x y (ea + eb - 0x7E) (mag32 a) (mag32 b) ltac:(lia) Ma Mb) as Hp.
  cbv zeta in Hp. destruct (if _ <? 0x2000000000000000 then _ else _) as [eP P] eqn:EP.
  destruct Hp as (HP & HP14 & HeP & HvP).
  { replace (ea + eb - 0x7E + 826) with (ea + 22 + (eb + 22) + 656) by lia.
    rewrite !Z.pow_add_r by lia.
    transitivity (x * 2 ^ (ea + 22) * (y * 2 ^ (eb + 22)) * 2 ^ 656); [lia|].
    rewrite <- Va, <- Vb. change (2 ^ 702) with (2 ^ 23 * 2 ^ 23 * 2 ^ 656). lia. }
  clear EP. destruct (zero32 c) eqn:Zc.
  - assert (mag32 c = 0) as Ec by (by apply mag32_zero).
    assert (val32 c = 0) as -> by (unfold val32; rewrite Ec; by destruct (signF32UI c)).
    rewrite val_prod32, Z.add_0_r. apply fma_no_addend; done || lia.
  - destruct (norm_operand32 c) as [ec mc] eqn:Nc.
    destruct (norm_operand32_spec c ec mc) as (Rc & Mc & Vc); [done..|].
    set (z := mc .| _) in *. rewrite shl_mul, wrap_small by lia.
    assert ((z * 2 ^ 6) mod 2 ^ 6 = 0) as HC6 by (by apply Z.mod_mul).
    assert (z * 2 ^ 6 * 2 ^ 32 * 2 ^ (ec + 812) = mag32 c * 2 ^ 149 * 2 ^ 702) as HvC.
    { replace (ec + 812) with (ec + 22 + 790) by lia. rewrite Z.pow_add_r by lia.
      transitivity (z * 2 ^ (ec + 22) * 2 ^ 828); [lia|]. rewrite <- Vc. lia. }
    rewrite val_prod32. apply fma_addend; done || lia.
Qed.

(** A zero product leaves the addend as it is, except for the sign of zero. *)
Lemma fma_zero_product signP c s :
  in_range 32 c -> finite32 c ->
  (if negb (z2b (expF32UI c .| fracF32UI c)) && negb (eqb signP (signF32UI c))
   then mulAddF32_completeCancellation else mret (u32 c)) s
  = round_fused32 (val32 c * 2 ^ 149)
      (if eqb signP (signF32UI c) then signP else zero_sign s) s.
Proof.
  intros Hc Fc. rewrite z2b_lor, negb_orb, zero_test32. unfold round_fused32.
  assert (u32 c = c) as -> by (by apply wrap_small). destruct (zero32 c) eqn:Zc.
  - assert (mag32 c = 0) as Ec by (by apply mag32_zero).
    assert (val32 c = 0) as -> by (unfold val32; rewrite Ec; by destruct (signF32UI c)).
    change (0 * 2 ^ 149) with 0. rewrite Z.eqb_refl, Z.abs_0.
    assert (forall r g, fround binary32 r g 0 1 (-298) = (0, Flags false false false)) as ->
      by (by intros [] []).
    unfold deliver. cbn [fst snd flag_bits]. rewrite raised_0, Z.add_0_r.
    destruct (eqb signP (signF32UI c)) eqn:Es; cbn [negb andb].
    + apply eqb_prop in Es as ->. rewrite (fields32 c Hc) at 1. unfold zero32 in Zc.
      apply andb_prop in Zc as [E1%Z.eqb_eq E2%Z.eqb_eq]. rewrite E1, E2.
      unfold mret, FP_ret. f_equal. lia.
    + unfold mulAddF32_completeCancellation. autorewrite with fprun.
      by rewrite zero_sign_eq, pack_zero32.
  - cbn [andb]. pose proof (mag32_pos c Zc). rewrite <- (round_exact32 c s) at 1 by done.
    assert (val32 c <> 0 /\ (val32 c * 2 ^ 149 <? 0) = signF32UI c
            /\ Z.abs (val32 c * 2 ^ 149) = mag32 c * 2 ^ 149) as (Hn & -> & ->).
    { unfold val32. destruct (signF32UI c); split; [lia| |lia| ]; split; case_bool; lia || done. }
    rewrite (proj2 (Z.eqb_neq _ 0)) by lia. unfold mret, FP_ret.
    change (-298) with (-149 - 149). by rewrite fround_scale by lia.
Qed.

Lemma val32_zero a : zero32 a = true -> val32 a = 0.
Proof. intros Za%mag32_zero. unfold val32. rewrite Za. by destruct (signF32UI a). Qed.

(** Finite operands. *)
Lemma mulAdd_all_finite32 a b c s :
  tininess_after s -> in_range 32 c -> finite32 a -> finite32 b -> finite32 c ->
  let signP := xorb (signF32UI a) (signF32UI b) in
  f32_mulAdd a b c s
  = round_fused32 (val32 a * val32 b + val32 c * 2 ^ 149)
      (if eqb signP (signF32UI c) then signP else zero_sign s) s.
Proof.
  intros Ht Hc Fa Fb Fc signP. destruct (zero32 a) eqn:Za; [|destruct (zero32 b) eqn:Zb].
  - rewrite (val32_zero a Za), Z.mul_0_l, Z.add_0_l. unfold signP.
    rewrite <- fma_zero_product by done. unfold f32_mulAdd, softfloat_mulAddF32.
    rewrite !(proj2 (Z.eqb_neq (expF32UI _) 0xFF)) by done.
    change (0 =? softfloat_mulAdd_subC) with false. change (0 =? softfloat_mulAdd_subProd) with false.
    by rewrite !xorb_false_r, !zero_test32, Za.
  - rewrite (val32_zero b Zb), Z.mul_0_r, Z.add_0_l. unfold signP.
    rewrite <- fma_zero_product by done. unfold f32_mulAdd, softfloat_mulAddF32.
    rewrite !(proj2 (Z.eqb_neq (expF32UI _) 0xFF)) by done.
    change (0 =? softfloat_mulAdd_subC) with false. change (0 =? softfloat_mulAdd_subProd) with false.
    rewrite !xorb_false_r, !zero_test32, Za, Zb.
    by destruct (if negb (z2b (expF32UI a)) then _ else _).
  - by apply mulAdd_finite32.
Qed.

Ltac exp_cases :=
  repeat match goal with
  | H : expF32UI ?a = 255 |- context [expF32UI ?a =? 255] => rewrite (proj2 (Z.eqb_eq _ _) H)
  | H : expF32UI ?a <> 255 |- context [expF32UI ?a =? 255] => rewrite (proj2 (Z.eqb_neq _ _) H)
  end.

Lemma eqb_xorb x y : eqb x y = negb (xorb x y).
Proof. by destruct x, y. Qed.

Lemma propagateNaN_then (A : Type) a b (k : Z -> FP A) s :
  (softfloat_propagateNaNF32UI a b ≫= k) s
  = k defaultNaNF32UI (raised (if snan32 a || snan32 b then softfloat_flag_invalid else 0) s).
Proof.
  pose proof (propagateNaNF32UI_spec a b s) as E. unfold nan_result32 in E.
  unfold mbind, FP_bind. by rewrite E.
Qed.

Lemma snan_inf32 sign : snan32 (packToF32UI sign 0xFF 0) = false.
Proof. by destruct sign. Qed.

(** The NaN results: the invalid flag is raised once or twice, with the same
    effect. *)
Ltac fma_nan_done :=
  autorewrite with fprun; rewrite ?propagateNaN_then, ?propagateNaNF32UI_spec;
  unfold nan_result32, invalid_result32;
  change (snan32 defaultNaNF32UI) with false; change (snan32 0) with false;
  rewrite ?snan_inf32;
  repeat match goal with |- context [snan32 ?x] => destruct (snan32 x) end;
  cbn [orb]; autorewrite with fprun; done.

(** C19: f32_mulAdd rounds the exact value of a*b+c once, with its flags, including
    cancellation, and the NaN and infinity cases of fused multiply-add. *)
Theorem f32_mulAdd_correct a b c s :
  tininess_after s -> in_range 32 c -> f32_mulAdd a b c s = mulAdd32_ref a b c s.
Proof.
  intros Ht Hc. unfold mulAdd32_ref. pose proof (exp_range a). pose proof (exp_range b).
  destruct (decide (finite32 a /\ finite32 b /\ finite32 c)) as [(Fa & Fb & Fc)|Hf].
  { destruct (not_special32 a Fa) as [-> ->], (not_special32 b Fb) as [-> ->],
      (not_special32 c Fc) as [-> ->]. by apply mulAdd_all_finite32. }
  unfold f32_mulAdd, softfloat_mulAddF32, zero32, finite32 in *.
  change (0 =? softfloat_mulAdd_subC) with false. change (0 =? softfloat_mulAdd_subProd) with false.
  assert (u32 c = c) as -> by (by apply wrap_small). rewrite !xorb_false_r, !pack_inf32.
  set (signP := xorb _ _).
  special32 a; special32 b; special32 c; try tauto; exp_cases;
    rewrite Hnan, Hnan0, Hinf, Hinf0, Hnan1, Hinf1;
    rewrite ?z2b_lor, ?eqb_xorb; unfold z2b; rewrite ?negb_involutive;
    repeat match goal with
      | H : expF32UI ?x = 255 |- context [expF32UI ?x =? 0] =>
          rewrite (proj2 (Z.eqb_neq (expF32UI x) 0)) by lia
      end;
    repeat match goal with
      | |- context [fracF32UI ?x =? 0] => destruct (fracF32UI x =? 0)
      end;
    repeat match goal with
      | |- context [expF32UI ?x =? 0] => destruct (expF32UI x =? 0)
      end;
    destruct signP, (signF32UI c); cbn [negb andb orb xorb]; fma_nan_done.
Qed.

Lemma f32_mulAdd_correct_witness :
  f32_mulAdd 0x3F800001 0x3F800001 0xBF800002 softfloat_init = mulAdd32_ref 0x3F800001 0x3F800001 0xBF800002 softfloat_init
  /\ f32_mulAdd 0x3F800001 0x3F800001 0xBF800002 softfloat_init = (0x28800000, FpState 0 1 0).
Proof. split; [apply f32_mulAdd_correct; concrete|vm_compute; reflexivity]. Defined.
