(* ===== verification/SoftFma64.v ===== *)
(** Double-precision fused multiply-add: softfloat/s_mulAddF64.c and
    f64_mulAdd.c.  The product is exact in 128 bits. *)
From S2P Require Import Prelude FloatSpec FloatPack SoftPrim SoftF32 SoftF64 SoftFma32.

(** [count] is in 1 to 63. *)
Definition softfloat_shortShiftRightJam128 (a64 a0 count : Z) : uint128 :=
  let negCount := u8 (- count) in
  Uint128 (a64 .>> count)
    (u64 (a64 .<< (negCount .& 63)) .| (a0 .>> count)
       .| b2z (z2b (u64 (a0 .<< (negCount .& 63))))).

(** The branch [signZ == signC], with the alignment of the product for it. *)
Definition mulAddF64_add (signZ : bool) (expZ expC : Z) (z : uint128) (sigC : Z) : FP Z :=
  let expDiff := expZ - expC in
  let '(expZ, sigZ) :=
    if expDiff <=? 0 then
      let z64 := if expDiff <? 0 then softfloat_shiftRightJam64 (v64 z) (- expDiff) else v64 z in
      (expC, u64 (sigC + z64) .| b2z (z2b (v0 z)))
    else
      let c := softfloat_shiftRightJam128 sigC 0 expDiff in
      let z := softfloat_add128 (v64 z) (v0 z) (v64 c) (v0 c) in
      (expZ, v64 z .| b2z (z2b (v0 z))) in
  if sigZ <? 0x4000000000000000
  then softfloat_roundPackToF64 signZ (expZ - 1) (u64 (sigZ .<< 1))
  else softfloat_roundPackToF64 signZ expZ sigZ.

(** From [if ( ! sig128Z.v64 )] in the other branch. *)
Definition mulAddF64_normRound (signZ : bool) (expZ : Z) (z : uint128) : FP Z :=
  let '(expZ, z) := if negb (z2b (v64 z)) then (expZ - 64, Uint128 (v0 z) 0) else (expZ, z) in
  let shiftCount := softfloat_countLeadingZeros64 (v64 z) - 1 in
  let expZ := expZ - shiftCount in
  let '(sigZ, z) :=
    if shiftCount <? 0 then (softfloat_shortShiftRightJam64 (v64 z) (- shiftCount), z)
    else
      let z := softfloat_shortShiftLeft128 (v64 z) (v0 z) shiftCount in (v64 z, z) in
  softfloat_roundPackToF64 signZ expZ (sigZ .| b2z (z2b (v0 z))).

Definition mulAddF64_completeCancellation : FP Z :=
  s ← get_fp;
  mret (packToF64UI (softfloat_roundingMode s =? softfloat_round_min) 0 0).

(** The branch [signZ != signC], with the alignment of the product for it. *)
Definition mulAddF64_sub (signZ signC : bool) (expZ expC : Z) (z : uint128) (sigC : Z) : FP Z :=
  let expDiff := expZ - expC in
  if expDiff <? 0 then
    let z :=
      if expDiff <? -1 then Uint128 (softfloat_shiftRightJam64 (v64 z) (- expDiff)) (v0 z)
      else softfloat_shortShiftRightJam128 (v64 z) (v0 z) 1 in
    mulAddF64_normRound signC expC (softfloat_sub128 sigC 0 (v64 z) (v0 z))
  else if negb (z2b expDiff) then
    let z64 := u64 (v64 z - sigC) in
    if negb (z2b (z64 .| v0 z)) then mulAddF64_completeCancellation
    else if z2b (z64 .& 0x8000000000000000)
    then mulAddF64_normRound (negb signZ) expZ (softfloat_sub128 0 0 z64 (v0 z))
    else mulAddF64_normRound signZ expZ (Uint128 z64 (v0 z))
  else
    let c := softfloat_shiftRightJam128 sigC 0 expDiff in
    mulAddF64_normRound signZ expZ (softfloat_sub128 (v64 z) (v0 z) (v64 c) (v0 c)).

Definition softfloat_mulAddF64 (uiA uiB uiC op : Z) : FP Z :=
  let signA := signF64UI uiA in
  let expA := expF64UI uiA in
  let sigA := fracF64UI uiA in
  let signB := signF64UI uiB in
  let expB := expF64UI uiB in
  let sigB := fracF64UI uiB in
  let signC := xorb (signF64UI uiC) (op =? softfloat_mulAdd_subC) in
  let expC := expF64UI uiC in
  let sigC := fracF64UI uiC in
  let signZ := xorb (xorb signA signB) (op =? softfloat_mulAdd_subProd) in
  let propagateNaN_ZC uiZ := softfloat_propagateNaNF64UI uiZ uiC in
  let propagateNaN_ABC := uiZ ← softfloat_propagateNaNF64UI uiA uiB; propagateNaN_ZC uiZ in
  let invalid :=
    softfloat_raiseFlags softfloat_flag_invalid ;; propagateNaN_ZC defaultNaNF64UI in
  let infProdArg magBits :=
    if z2b magBits then
      let uiZ := packToF64UI signZ 0x7FF 0 in
      if negb (expC =? 0x7FF) then mret uiZ
      else if z2b sigC then propagateNaN_ZC uiZ
      else if eqb signZ signC then mret uiZ
      else invalid
    else invalid in
  let zeroProd :=
    if negb (z2b (expC .| sigC)) && negb (eqb signZ signC)
    then mulAddF64_completeCancellation else mret uiC in
  if expA =? 0x7FF then
    if z2b sigA || ((expB =? 0x7FF) && z2b sigB) then propagateNaN_ABC
    else infProdArg (expB .| sigB)
  else if expB =? 0x7FF then
    if z2b sigB then propagateNaN_ABC else infProdArg (expA .| sigA)
  else if expC =? 0x7FF then
    if z2b sigC then propagateNaN_ZC 0 else mret uiC
  else if negb (z2b expA) && negb (z2b sigA) then zeroProd
  else
    let '(expA, sigA) :=
      if negb (z2b expA) then softfloat_normSubnormalF64Sig sigA else (expA, sigA) in
    if negb (z2b expB) && negb (z2b sigB) then zeroProd
    else
      let '(expB, sigB) :=
        if negb (z2b expB) then softfloat_normSubnormalF64Sig sigB else (expB, sigB) in
      let expZ := expA + expB - 0x3FE in
      let sigA := u64 ((sigA .| 0x0010000000000000) .<< 10) in
      let sigB := u64 ((sigB .| 0x0010000000000000) .<< 10) in
      let z := softfloat_mul64To128 sigA sigB in
      let '(expZ, z) :=
        if v64 z <? 0x2000000000000000
        then (expZ - 1, softfloat_add128 (v64 z) (v0 z) (v64 z) (v0 z)) else (expZ, z) in
      if negb (z2b expC) && negb (z2b sigC) then
        softfloat_roundPackToF64 signZ (expZ - 1) (u64 (v64 z .<< 1) .| b2z (z2b (v0 z)))
      else
        let '(expC, sigC) :=
          if negb (z2b expC) then softfloat_normSubnormalF64Sig sigC else (expC, sigC) in
        let sigC := u64 ((sigC .| 0x0010000000000000) .<< 9) in
        if eqb signZ signC then mulAddF64_add signZ expZ expC z sigC
        else mulAddF64_sub signZ signC expZ expC z sigC.

Definition f64_mulAdd (uiA uiB uiC : Z) : FP Z := softfloat_mulAddF64 uiA uiB uiC 0.

Example f64_mulAdd_1 :
  f64_mulAdd 0x3FF0000000000001 0x3FF0000000000001 0xBFF0000000000002 softfloat_init
  = (0x3970000000000000, softfloat_init).
Proof. vm_compute. reflexivity. Qed.
Example f64_mulAdd_2 :
  f64_mulAdd 0x4008000000000000 0x3FD5555555555555 0xBFF0000000000000 softfloat_init
  = (0xBC90000000000000, softfloat_init).
Proof. vm_compute. reflexivity. Qed.
