(* ===== verification/SoftSqrt.v ===== *)
(** SoftFloat's square roots (softfloat/f32_sqrt.c, f64_sqrt.c and
    s_approxRecipSqrt32_1.c), and an operand on which the binary64 one is not
    correctly rounded. *)
From S2P Require Import Prelude FloatSpec SoftPrim SoftF32 SoftF64.

Definition k0s : list Z := [
  0xB4C9; 0xFFAB; 0xAA7D; 0xF11C; 0xA1C5; 0xE4C7; 0x9A43; 0xDA29;
  0x93B5; 0xD0E5; 0x8DED; 0xC8B7; 0x88C6; 0xC16D; 0x8424; 0xBAE1].
Definition k1s : list Z := [
  0xA5A5; 0xEA42; 0x8C21; 0xC62D; 0x788F; 0xAA7F; 0x6928; 0x94B6;
  0x5CC7; 0x8335; 0x52A6; 0x74E2; 0x4A3E; 0x68FE; 0x432B; 0x5EFD].

(** The index is at most 15. *)
Definition table_at (t : list Z) (i : Z) : Z := default 0 (t !! Z.to_nat i).

Definition softfloat_approxRecipSqrt32_1 (oddExpA a : Z) : Z :=
  let a := u32 a in
  let index := ((a .>> 27) .& 0xE) + oddExpA in
  let eps := u16 (a .>> 12) in
  let r0 := u16 (table_at k0s index - ((table_at k1s index * eps) .>> 20)) in
  let ESqrR0 := r0 * r0 in
  let ESqrR0 := if negb (z2b oddExpA) then u64 (ESqrR0 .<< 1) else ESqrR0 in
  let delta0 := u32 (Z.lnot (u64 (u32 ESqrR0 * a) .>> 23)) in
  let r := u64 ((r0 .<< 16) + (u64 (r0 * delta0) .>> 25)) in
  let sqrDelta0 := u32 (u64 (delta0 * delta0) .>> 32) in
  let r := u64 (r + (u64 (u32 ((r .>> 1) + (r .>> 3) - (r0 .<< 14)) * sqrDelta0) .>> 48)) in
  let r := if negb (z2b (r .& 0x80000000)) then 0x80000000 else r in
  u32 r.

(** From [sigZ = ...], with the correction when the last bits are near a rounding
    boundary. *)
Definition f32_sqrt_sig (expA sigA : Z) : Z :=
  let sigZ := u64 (sigA * softfloat_approxRecipSqrt32_1 expA sigA) .>> 32 in
  let sigZ := if z2b expA then sigZ .>> 1 else sigZ in
  let sigZ := u64 (sigZ + 2) in
  if (sigZ .& 0x3F) <? 2 then
    let shiftedSigZ := sigZ .>> 2 in
    let negRem := u32 (shiftedSigZ * shiftedSigZ) in
    let sigZ := u64 (shiftedSigZ .<< 2) in
    if z2b (negRem .& 0x80000000) then sigZ .| 1
    else if z2b negRem then u64 (sigZ - 1) else sigZ
  else sigZ.

Definition f32_sqrt (uiA : Z) : FP Z :=
  let signA := signF32UI uiA in
  let expA := expF32UI uiA in
  let sigA := fracF32UI uiA in
  let invalid := softfloat_raiseFlags softfloat_flag_invalid ;; mret defaultNaNF32UI in
  if expA =? 0xFF then
    if z2b sigA then softfloat_propagateNaNF32UI uiA 0
    else if negb signA then mret uiA else invalid
  else if signA then
    if negb (z2b (expA .| sigA)) then mret uiA else invalid
  else if negb (z2b expA) && negb (z2b sigA) then mret uiA
  else
    let '(expA, sigA) :=
      if negb (z2b expA) then softfloat_normSubnormalF32Sig sigA else (expA, sigA) in
    let expZ := ((expA - 0x7F) .>> 1) + 0x7E in
    let expA := expA .& 1 in
    let sigA := u64 ((sigA .| 0x00800000) .<< 8) in
    softfloat_roundPackToF32 false expZ (f32_sqrt_sig expA sigA).

Definition f64_sqrt_sig (expA sigA : Z) : Z :=
  let sig32A := u32 (sigA .>> 21) in
  let recipSqrt32 := softfloat_approxRecipSqrt32_1 expA sig32A in
  let sig32Z := u32 (u64 (sig32A * recipSqrt32) .>> 32) in
  let '(sigA, sig32Z) :=
    if z2b expA then (u64 (sigA .<< 8), sig32Z .>> 1) else (u64 (sigA .<< 9), sig32Z) in
  let rem := u64 (sigA - u64 (sig32Z * sig32Z)) in
  let q := u32 (u64 (u32 (rem .>> 2) * recipSqrt32) .>> 32) in
  let sigZ := u64 ((u64 (sig32Z .<< 32) .| (1 .<< 5)) + u64 (q .<< 3)) in
  if (sigZ .& 0x1FF) <? (1 .<< 5) then
    let sigZ := sigZ .& Z.lnot 0x3F in
    let shiftedSigZ := sigZ .>> 6 in
    let rem := u64 (u64 (sigA .<< 52) - u64 (shiftedSigZ * shiftedSigZ)) in
    if z2b (rem .& 0x8000000000000000) then u64 (sigZ - 1)
    else if z2b rem then sigZ .| 1 else sigZ
  else sigZ.

Definition f64_sqrt (uiA : Z) : FP Z :=
  let signA := signF64UI uiA in
  let expA := expF64UI uiA in
  let sigA := fracF64UI uiA in
  let invalid := softfloat_raiseFlags softfloat_flag_invalid ;; mret defaultNaNF64UI in
  if expA =? 0x7FF then
    if z2b sigA then softfloat_propagateNaNF64UI uiA 0
    else if negb signA then mret uiA else invalid
  else if signA then
    if negb (z2b (expA .| sigA)) then mret uiA else invalid
  else if negb (z2b expA) && negb (z2b sigA) then mret uiA
  else
    let '(expA, sigA) :=
      if negb (z2b expA) then softfloat_normSubnormalF64Sig sigA else (expA, sigA) in
    let expZ := ((expA - 0x3FF) .>> 1) + 0x3FE in
    let expA := expA .& 1 in
    let sigA := sigA .| 0x0010000000000000 in
    softfloat_roundPackToF64 false expZ (f64_sqrt_sig expA sigA).

Example f32_sqrt_2 : f32_sqrt 0x40000000 softfloat_init = (0x3FB504F3, FpState 0 1 1).
Proof. vm_compute. reflexivity. Qed.
Example f32_sqrt_4 : f32_sqrt 0x40800000 softfloat_init = (0x40000000, softfloat_init).
Proof. vm_compute. reflexivity. Qed.
Example f64_sqrt_2 : f64_sqrt 0x4000000000000000 softfloat_init = (0x3FF6A09E667F3BCD, FpState 0 1 1).
Proof. vm_compute. reflexivity. Qed.

(** ** [f64_sqrt] is not correctly rounded *)

(** [r] is the correctly rounded square root of [a], to nearest, both positive and
    normal: the midpoints around it enclose the root.  Values are multiples of
    2^-1074, midpoints of 2^-1075, squares of 2^-2150. *)
Definition nearest_sqrt64 (a r : Z) : Prop :=
  let half := 2 ^ (expF64UI r - 1) in
  (2 * mag64 r - half) ^ 2 <= mag64 a * 2 ^ 1076 <= (2 * mag64 r + half) ^ 2.

(** The approximation of the root may exceed it by more than the bias that decides
    whether the result is checked: on this operand, to nearest, the unchecked result
    is one unit in the last place above the correctly rounded root, which is the
    floating-point number before it. *)
Theorem f64_sqrt_misrounds :
  let a := 0x4000B8BA785FE8B1 in
  exists r, f64_sqrt a softfloat_init = (r, FpState 0 1 softfloat_flag_inexact)
            /\ ~ nearest_sqrt64 a r /\ nearest_sqrt64 a (r - 1).
Proof.
  exists 0x3FF721CD0E21EDA6. split; [vm_compute; reflexivity|]. unfold nearest_sqrt64.
  split; [intros [H _]; vm_compute in H; by apply H|split; vm_compute; discriminate].
Qed.
