(* ===== verification/FpFlags.v ===== *)
(** The accrued exception flags: every SoftFloat operation leaves a word of five
    bits where it found one. *)
From S2P Require Import Prelude SoftPrim SoftF32 SoftF64 SoftDiv64 SoftCmp32 SoftCmp64.
From S2P Require Import SoftConv SoftToInt SoftFma32 SoftFma64 SoftSqrt.

Definition flags_ok (s : fpstate) : Prop := in_range 5 (softfloat_exceptionFlags s).
Definition keeps_flags {A} (c : FP A) : Prop := forall s, flags_ok s -> flags_ok (snd (c s)).

Create HintDb flags discriminated.

Lemma keeps_ret {A} (a : A) : keeps_flags (mret a).
Proof. by intros s. Qed.
Lemma keeps_bind {A B} (c : FP A) (k : A -> FP B) :
  keeps_flags c -> (forall a, keeps_flags (k a)) -> keeps_flags (c ≫= k).
Proof.
  intros Hc Hk s Hs. unfold mbind, FP_bind. specialize (Hc s Hs).
  destruct (c s) as [a s1]. by apply Hk.
Qed.
Lemma keeps_get : keeps_flags get_fp.
Proof. by intros s. Qed.
Lemma keeps_raise fl : in_range 5 fl -> keeps_flags (softfloat_raiseFlags fl).
Proof. intros Hf s Hs. by apply lor_range. Qed.
#[export] Hint Resolve keeps_ret keeps_get : flags.

(** Follows the structure of an operation down to the operations it calls. *)
Ltac flags_step :=
  match goal with
  | |- keeps_flags (let _ := _ in _) => cbv zeta
  | |- keeps_flags (if ?b then _ else _) => destruct b
  | |- keeps_flags (match ?x with _ => _ end) => destruct x
  | |- keeps_flags (_ ≫= _) => apply keeps_bind; [|intros ?]
  | |- keeps_flags (softfloat_raiseFlags _) => apply keeps_raise; concrete
  | |- keeps_flags _ => solve [auto with flags nocore]
  end.
Ltac flags_of f := intros; unfold f; repeat flags_step.

Lemma keeps_propagateNaNF32UI a b : keeps_flags (softfloat_propagateNaNF32UI a b).
Proof. flags_of softfloat_propagateNaNF32UI. Qed.
#[export] Hint Resolve keeps_propagateNaNF32UI : flags.
Lemma keeps_roundPackToF32_finish a b c d e f : keeps_flags (roundPackToF32_finish a b c d e f).
Proof. flags_of roundPackToF32_finish. Qed.
#[export] Hint Resolve keeps_roundPackToF32_finish : flags.
Lemma keeps_roundPackToF32 a b c : keeps_flags (softfloat_roundPackToF32 a b c).
Proof. flags_of softfloat_roundPackToF32. Qed.
#[export] Hint Resolve keeps_roundPackToF32 : flags.
Lemma keeps_normRoundPackToF32 a b c : keeps_flags (softfloat_normRoundPackToF32 a b c).
Proof. flags_of softfloat_normRoundPackToF32. Qed.
#[export] Hint Resolve keeps_normRoundPackToF32 : flags.
Lemma keeps_addMagsF32 a b c : keeps_flags (softfloat_addMagsF32 a b c).
Proof. flags_of softfloat_addMagsF32. Qed.
#[export] Hint Resolve keeps_addMagsF32 : flags.
Lemma keeps_subMagsF32 a b c : keeps_flags (softfloat_subMagsF32 a b c).
Proof. flags_of softfloat_subMagsF32. Qed.
#[export] Hint Resolve keeps_subMagsF32 : flags.
Lemma keeps_f32_add a b : keeps_flags (f32_add a b).
Proof. flags_of f32_add. Qed.
#[export] Hint Resolve keeps_f32_add : flags.
Lemma keeps_f32_sub a b : keeps_flags (f32_sub a b).
Proof. flags_of f32_sub. Qed.
#[export] Hint Resolve keeps_f32_sub : flags.
Lemma keeps_f32_mul a b : keeps_flags (f32_mul a b).
Proof. flags_of f32_mul. Qed.
#[export] Hint Resolve keeps_f32_mul : flags.
Lemma keeps_f32_div a b : keeps_flags (f32_div a b).
Proof. flags_of f32_div. Qed.
#[export] Hint Resolve keeps_f32_div : flags.
Lemma keeps_propagateNaNF64UI a b : keeps_flags (softfloat_propagateNaNF64UI a b).
Proof. flags_of softfloat_propagateNaNF64UI. Qed.
#[export] Hint Resolve keeps_propagateNaNF64UI : flags.
Lemma keeps_roundPackToF64_finish a b c d e f : keeps_flags (roundPackToF64_finish a b c d e f).
Proof. flags_of roundPackToF64_finish. Qed.
#[export] Hint Resolve keeps_roundPackToF64_finish : flags.
Lemma keeps_roundPackToF64 a b c : keeps_flags (softfloat_roundPackToF64 a b c).
Proof. flags_of softfloat_roundPackToF64. Qed.
#[export] Hint Resolve keeps_roundPackToF64 : flags.
Lemma keeps_normRoundPackToF64 a b c : keeps_flags (softfloat_normRoundPackToF64 a b c).
Proof. flags_of softfloat_normRoundPackToF64. Qed.
#[export] Hint Resolve keeps_normRoundPackToF64 : flags.
Lemma keeps_addMagsF64 a b c : keeps_flags (softfloat_addMagsF64 a b c).
Proof. flags_of softfloat_addMagsF64. Qed.
#[export] Hint Resolve keeps_addMagsF64 : flags.
Lemma keeps_subMagsF64 a b c : keeps_flags (softfloat_subMagsF64 a b c).
Proof. flags_of softfloat_subMagsF64. Qed.
#[export] Hint Resolve keeps_subMagsF64 : flags.
Lemma keeps_f64_add a b : keeps_flags (f64_add a b).
Proof. flags_of f64_add. Qed.
#[export] Hint Resolve keeps_f64_add : flags.
Lemma keeps_f64_sub a b : keeps_flags (f64_sub a b).
Proof. flags_of f64_sub. Qed.
#[export] Hint Resolve keeps_f64_sub : flags.
Lemma keeps_f64_mul a b : keeps_flags (f64_mul a b).
Proof. flags_of f64_mul. Qed.
#[export] Hint Resolve keeps_f64_mul : flags.
Lemma keeps_f64_div a b : keeps_flags (f64_div a b).
Proof. flags_of f64_div. Qed.
#[export] Hint Resolve keeps_f64_div : flags.
Lemma keeps_f32_eq a b : keeps_flags (f32_eq a b).
Proof. flags_of f32_eq. Qed.
#[export] Hint Resolve keeps_f32_eq : flags.
Lemma keeps_f32_eq_signaling a b : keeps_flags (f32_eq_signaling a b).
Proof. flags_of f32_eq_signaling. Qed.
#[export] Hint Resolve keeps_f32_eq_signaling : flags.
Lemma keeps_f32_le a b : keeps_flags (f32_le a b).
Proof. flags_of f32_le. Qed.
#[export] Hint Resolve keeps_f32_le : flags.
Lemma keeps_f32_lt a b : keeps_flags (f32_lt a b).
Proof. flags_of f32_lt. Qed.
#[export] Hint Resolve keeps_f32_lt : flags.
Lemma keeps_f32_le_quiet a b : keeps_flags (f32_le_quiet a b).
Proof. flags_of f32_le_quiet. Qed.
#[export] Hint Resolve keeps_f32_le_quiet : flags.
Lemma keeps_f32_lt_quiet a b : keeps_flags (f32_lt_quiet a b).
Proof. flags_of f32_lt_quiet. Qed.
#[export] Hint Resolve keeps_f32_lt_quiet : flags.
Lemma keeps_f64_eq a b : keeps_flags (f64_eq a b).
Proof. flags_of f64_eq. Qed.
#[export] Hint Resolve keeps_f64_eq : flags.
Lemma keeps_f64_eq_signaling a b : keeps_flags (f64_eq_signaling a b).
Proof. flags_of f64_eq_signaling. Qed.
#[export] Hint Resolve keeps_f64_eq_signaling : flags.
Lemma keeps_f64_le a b : keeps_flags (f64_le a b).
Proof. flags_of f64_le. Qed.
#[export] Hint Resolve keeps_f64_le : flags.
Lemma keeps_f64_lt a b : keeps_flags (f64_lt a b).
Proof. flags_of f64_lt. Qed.
#[export] Hint Resolve keeps_f64_lt : flags.
Lemma keeps_f64_le_quiet a b : keeps_flags (f64_le_quiet a b).
Proof. flags_of f64_le_quiet. Qed.
#[export] Hint Resolve keeps_f64_le_quiet : flags.
Lemma keeps_f64_lt_quiet a b : keeps_flags (f64_lt_quiet a b).
Proof. flags_of f64_lt_quiet. Qed.
#[export] Hint Resolve keeps_f64_lt_quiet : flags.
Lemma keeps_i32_to_f32 a : keeps_flags (i32_to_f32 a).
Proof. flags_of i32_to_f32. Qed.
#[export] Hint Resolve keeps_i32_to_f32 : flags.
Lemma keeps_ui32_to_f32 a : keeps_flags (ui32_to_f32 a).
Proof. flags_of ui32_to_f32. Qed.
#[export] Hint Resolve keeps_ui32_to_f32 : flags.
Lemma keeps_i64_to_f32_abs a b : keeps_flags (i64_to_f32_abs a b).
Proof. flags_of i64_to_f32_abs. Qed.
#[export] Hint Resolve keeps_i64_to_f32_abs : flags.
Lemma keeps_i64_to_f32 a : keeps_flags (i64_to_f32 a).
Proof. flags_of i64_to_f32. Qed.
#[export] Hint Resolve keeps_i64_to_f32 : flags.
Lemma keeps_ui64_to_f32 a : keeps_flags (ui64_to_f32 a).
Proof. flags_of ui64_to_f32. Qed.
#[export] Hint Resolve keeps_ui64_to_f32 : flags.
Lemma keeps_i32_to_f64 a : keeps_flags (i32_to_f64 a).
Proof. flags_of i32_to_f64. Qed.
#[export] Hint Resolve keeps_i32_to_f64 : flags.
Lemma keeps_ui32_to_f64 a : keeps_flags (ui32_to_f64 a).
Proof. flags_of ui32_to_f64. Qed.
#[export] Hint Resolve keeps_ui32_to_f64 : flags.
Lemma keeps_i64_to_f64 a : keeps_flags (i64_to_f64 a).
Proof. flags_of i64_to_f64. Qed.
#[export] Hint Resolve keeps_i64_to_f64 : flags.
Lemma keeps_ui64_to_f64 a : keeps_flags (ui64_to_f64 a).
Proof. flags_of ui64_to_f64. Qed.
#[export] Hint Resolve keeps_ui64_to_f64 : flags.
Lemma keeps_f32UIToCommonNaN a : keeps_flags (softfloat_f32UIToCommonNaN a).
Proof. flags_of softfloat_f32UIToCommonNaN. Qed.
#[export] Hint Resolve keeps_f32UIToCommonNaN : flags.
Lemma keeps_f64UIToCommonNaN a : keeps_flags (softfloat_f64UIToCommonNaN a).
Proof. flags_of softfloat_f64UIToCommonNaN. Qed.
#[export] Hint Resolve keeps_f64UIToCommonNaN : flags.
Lemma keeps_f32_to_f64 a : keeps_flags (f32_to_f64 a).
Proof. flags_of f32_to_f64. Qed.
#[export] Hint Resolve keeps_f32_to_f64 : flags.
Lemma keeps_f64_to_f32 a : keeps_flags (f64_to_f32 a).
Proof. flags_of f64_to_f32. Qed.
#[export] Hint Resolve keeps_f64_to_f32 : flags.
Lemma keeps_roundPackToI32 a b c d : keeps_flags (softfloat_roundPackToI32 a b c d).
Proof. flags_of softfloat_roundPackToI32. Qed.
#[export] Hint Resolve keeps_roundPackToI32 : flags.
Lemma keeps_roundPackToUI32 a b c d : keeps_flags (softfloat_roundPackToUI32 a b c d).
Proof. flags_of softfloat_roundPackToUI32. Qed.
#[export] Hint Resolve keeps_roundPackToUI32 : flags.
Lemma keeps_roundPackToI64_invalid a : keeps_flags (roundPackToI64_invalid a).
Proof. flags_of roundPackToI64_invalid. Qed.
#[export] Hint Resolve keeps_roundPackToI64_invalid : flags.
Lemma keeps_roundPackToI64_finish a b c d : keeps_flags (roundPackToI64_finish a b c d).
Proof. flags_of roundPackToI64_finish. Qed.
#[export] Hint Resolve keeps_roundPackToI64_finish : flags.
Lemma keeps_roundPackToI64 a b c d e : keeps_flags (softfloat_roundPackToI64 a b c d e).
Proof. flags_of softfloat_roundPackToI64. Qed.
#[export] Hint Resolve keeps_roundPackToI64 : flags.
Lemma keeps_roundPackToUI64_invalid a : keeps_flags (roundPackToUI64_invalid a).
Proof. flags_of roundPackToUI64_invalid. Qed.
#[export] Hint Resolve keeps_roundPackToUI64_invalid : flags.
Lemma keeps_roundPackToUI64_finish a b c d : keeps_flags (roundPackToUI64_finish a b c d).
Proof. flags_of roundPackToUI64_finish. Qed.
#[export] Hint Resolve keeps_roundPackToUI64_finish : flags.
Lemma keeps_roundPackToUI64 a b c d e : keeps_flags (softfloat_roundPackToUI64 a b c d e).
Proof. flags_of softfloat_roundPackToUI64. Qed.
#[export] Hint Resolve keeps_roundPackToUI64 : flags.
Lemma keeps_f32_to_i32 a b c : keeps_flags (f32_to_i32 a b c).
Proof. flags_of f32_to_i32. Qed.
#[export] Hint Resolve keeps_f32_to_i32 : flags.
Lemma keeps_f32_to_ui32 a b c : keeps_flags (f32_to_ui32 a b c).
Proof. flags_of f32_to_ui32. Qed.
#[export] Hint Resolve keeps_f32_to_ui32 : flags.
Lemma keeps_f64_to_i32 a b c : keeps_flags (f64_to_i32 a b c).
Proof. flags_of f64_to_i32. Qed.
#[export] Hint Resolve keeps_f64_to_i32 : flags.
Lemma keeps_f64_to_ui32 a b c : keeps_flags (f64_to_ui32 a b c).
Proof. flags_of f64_to_ui32. Qed.
#[export] Hint Resolve keeps_f64_to_ui32 : flags.
Lemma keeps_f32_to_i64 a b c : keeps_flags (f32_to_i64 a b c).
Proof. flags_of f32_to_i64. Qed.
#[export] Hint Resolve keeps_f32_to_i64 : flags.
Lemma keeps_f32_to_ui64 a b c : keeps_flags (f32_to_ui64 a b c).
Proof. flags_of f32_to_ui64. Qed.
#[export] Hint Resolve keeps_f32_to_ui64 : flags.
Lemma keeps_f64_to_i64 a b c : keeps_flags (f64_to_i64 a b c).
Proof. flags_of f64_to_i64. Qed.
#[export] Hint Resolve keeps_f64_to_i64 : flags.
Lemma keeps_f64_to_ui64 a b c : keeps_flags (f64_to_ui64 a b c).
Proof. flags_of f64_to_ui64. Qed.
#[export] Hint Resolve keeps_f64_to_ui64 : flags.
Lemma keeps_mulAddF32_add a b c d e : keeps_flags (mulAddF32_add a b c d e).
Proof. flags_of mulAddF32_add. Qed.
#[export] Hint Resolve keeps_mulAddF32_add : flags.
Lemma keeps_mulAddF32_normRound a b c : keeps_flags (mulAddF32_normRound a b c).
Proof. flags_of mulAddF32_normRound. Qed.
#[export] Hint Resolve keeps_mulAddF32_normRound : flags.
Lemma keeps_mulAddF32_completeCancellation : keeps_flags (mulAddF32_completeCancellation).
Proof. flags_of mulAddF32_completeCancellation. Qed.
#[export] Hint Resolve keeps_mulAddF32_completeCancellation : flags.
Lemma keeps_mulAddF32_sub a b c d e f : keeps_flags (mulAddF32_sub a b c d e f).
Proof. flags_of mulAddF32_sub. Qed.
#[export] Hint Resolve keeps_mulAddF32_sub : flags.
Lemma keeps_mulAddF32 a b c d : keeps_flags (softfloat_mulAddF32 a b c d).
Proof. flags_of softfloat_mulAddF32. Qed.
#[export] Hint Resolve keeps_mulAddF32 : flags.
Lemma keeps_f32_mulAdd a b c : keeps_flags (f32_mulAdd a b c).
Proof. flags_of f32_mulAdd. Qed.
#[export] Hint Resolve keeps_f32_mulAdd : flags.
Lemma keeps_mulAddF64_add a b c d e : keeps_flags (mulAddF64_add a b c d e).
Proof. flags_of mulAddF64_add. Qed.
#[export] Hint Resolve keeps_mulAddF64_add : flags.
Lemma keeps_mulAddF64_normRound a b c : keeps_flags (mulAddF64_normRound a b c).
Proof. flags_of mulAddF64_normRound. Qed.
#[export] Hint Resolve keeps_mulAddF64_normRound : flags.
Lemma keeps_mulAddF64_completeCancellation : keeps_flags (mulAddF64_completeCancellation).
Proof. flags_of mulAddF64_completeCancellation. Qed.
#[export] Hint Resolve keeps_mulAddF64_completeCancellation : flags.
Lemma keeps_mulAddF64_sub a b c d e f : keeps_flags (mulAddF64_sub a b c d e f).
Proof. flags_of mulAddF64_sub. Qed.
#[export] Hint Resolve keeps_mulAddF64_sub : flags.
Lemma keeps_mulAddF64 a b c d : keeps_flags (softfloat_mulAddF64 a b c d).
Proof. flags_of softfloat_mulAddF64. Qed.
#[export] Hint Resolve keeps_mulAddF64 : flags.
Lemma keeps_f64_mulAdd a b c : keeps_flags (f64_mulAdd a b c).
Proof. flags_of f64_mulAdd. Qed.
#[export] Hint Resolve keeps_f64_mulAdd : flags.
Lemma keeps_f32_sqrt a : keeps_flags (f32_sqrt a).
Proof. flags_of f32_sqrt. Qed.
#[export] Hint Resolve keeps_f32_sqrt : flags.
Lemma keeps_f64_sqrt a : keeps_flags (f64_sqrt a).
Proof. flags_of f64_sqrt. Qed.
#[export] Hint Resolve keeps_f64_sqrt : flags.
