(* ===== verification/Encoding.v ===== *)
(** riscv/encoding.h: the constants of the control and status registers, and
    the instruction encodings; riscv/riscv.mk.in: the list of the instructions
    that are built and registered. *)
From S2P Require Import Prelude.

(** ** Control and status register fields *)

Definition MSTATUS_UIE : Z := 0x00000001.
Definition MSTATUS_SIE : Z := 0x00000002.
Definition MSTATUS_HIE : Z := 0x00000004.
Definition MSTATUS_MIE : Z := 0x00000008.
Definition MSTATUS_UPIE : Z := 0x00000010.
Definition MSTATUS_SPIE : Z := 0x00000020.
Definition MSTATUS_HPIE : Z := 0x00000040.
Definition MSTATUS_MPIE : Z := 0x00000080.
Definition MSTATUS_SPP : Z := 0x00000100.
Definition MSTATUS_HPP : Z := 0x00000600.
Definition MSTATUS_MPP : Z := 0x00001800.
Definition MSTATUS_FS : Z := 0x00006000.
Definition MSTATUS_XS : Z := 0x00018000.
Definition MSTATUS_MPRV : Z := 0x00020000.
Definition MSTATUS_PUM : Z := 0x00040000.
Definition MSTATUS_MXR : Z := 0x00080000.
Definition MSTATUS_VM : Z := 0x1F000000.
Definition MSTATUS32_SD : Z := 0x80000000.
Definition MSTATUS64_SD : Z := 0x8000000000000000.
Definition SSTATUS_UIE : Z := 0x00000001.
Definition SSTATUS_SIE : Z := 0x00000002.
Definition SSTATUS_UPIE : Z := 0x00000010.
Definition SSTATUS_SPIE : Z := 0x00000020.
Definition SSTATUS_SPP : Z := 0x00000100.
Definition SSTATUS_FS : Z := 0x00006000.
Definition SSTATUS_XS : Z := 0x00018000.
Definition SSTATUS_PUM : Z := 0x00040000.
Definition SSTATUS32_SD : Z := 0x80000000.
Definition SSTATUS64_SD : Z := 0x8000000000000000.
Definition DCSR_XDEBUGVER : Z := 3 .<< 30.
Definition DCSR_NDRESET : Z := 1 .<< 29.
Definition DCSR_FULLRESET : Z := 1 .<< 28.
Definition DCSR_EBREAKM : Z := 1 .<< 15.
Definition DCSR_EBREAKH : Z := 1 .<< 14.
Definition DCSR_EBREAKS : Z := 1 .<< 13.
Definition DCSR_EBREAKU : Z := 1 .<< 12.
Definition DCSR_STOPCYCLE : Z := 1 .<< 10.
Definition DCSR_STOPTIME : Z := 1 .<< 9.
Definition DCSR_CAUSE : Z := 7 .<< 6.
Definition DCSR_DEBUGINT : Z := 1 .<< 5.
Definition DCSR_HALT : Z := 1 .<< 3.
Definition DCSR_STEP : Z := 1 .<< 2.
Definition DCSR_PRV : Z := 3 .<< 0.
Definition DCSR_CAUSE_NONE : Z := 0.
Definition DCSR_CAUSE_SWBP : Z := 1.
Definition DCSR_CAUSE_HWBP : Z := 2.
Definition DCSR_CAUSE_DEBUGINT : Z := 3.
Definition DCSR_CAUSE_STEP : Z := 4.
Definition DCSR_CAUSE_HALT : Z := 5.
Definition MCONTROL_TYPE (xlen : Z) : Z := (0xf .<< (xlen-4)).
Definition MCONTROL_DMODE (xlen : Z) : Z := (1 .<< (xlen-5)).
Definition MCONTROL_MASKMAX (xlen : Z) : Z := (0x3f .<< (xlen-11)).
Definition MCONTROL_SELECT : Z := 1 .<< 19.
Definition MCONTROL_TIMING : Z := 1 .<< 18.
Definition MCONTROL_ACTION : Z := 0x3f .<< 12.
Definition MCONTROL_CHAIN : Z := 1 .<< 11.
Definition MCONTROL_MATCH : Z := 0xf .<< 7.
Definition MCONTROL_M : Z := 1 .<< 6.
Definition MCONTROL_H : Z := 1 .<< 5.
Definition MCONTROL_S : Z := 1 .<< 4.
Definition MCONTROL_U : Z := 1 .<< 3.
Definition MCONTROL_EXECUTE : Z := 1 .<< 2.
Definition MCONTROL_STORE : Z := 1 .<< 1.
Definition MCONTROL_LOAD : Z := 1 .<< 0.
Definition MCONTROL_TYPE_NONE : Z := 0.
Definition MCONTROL_TYPE_MATCH : Z := 2.
Definition MCONTROL_ACTION_DEBUG_EXCEPTION : Z := 0.
Definition MCONTROL_ACTION_DEBUG_MODE : Z := 1.
Definition MCONTROL_ACTION_TRACE_START : Z := 2.
Definition MCONTROL_ACTION_TRACE_STOP : Z := 3.
Definition MCONTROL_ACTION_TRACE_EMIT : Z := 4.
Definition MCONTROL_MATCH_EQUAL : Z := 0.
Definition MCONTROL_MATCH_NAPOT : Z := 1.
Definition MCONTROL_MATCH_GE : Z := 2.
Definition MCONTROL_MATCH_LT : Z := 3.
Definition MCONTROL_MATCH_MASK_LOW : Z := 4.
Definition MCONTROL_MATCH_MASK_HIGH : Z := 5.
Definition IRQ_S_SOFT : Z := 1.
Definition IRQ_H_SOFT : Z := 2.
Definition IRQ_M_SOFT : Z := 3.
Definition IRQ_S_TIMER : Z := 5.
Definition IRQ_H_TIMER : Z := 6.
Definition IRQ_M_TIMER : Z := 7.
Definition IRQ_S_EXT : Z := 9.
Definition IRQ_H_EXT : Z := 10.
Definition IRQ_M_EXT : Z := 11.
Definition IRQ_COP : Z := 12.
Definition IRQ_HOST : Z := 13.
Definition MIP_SSIP : Z := 1 .<< IRQ_S_SOFT.
Definition MIP_HSIP : Z := 1 .<< IRQ_H_SOFT.
Definition MIP_MSIP : Z := 1 .<< IRQ_M_SOFT.
Definition MIP_STIP : Z := 1 .<< IRQ_S_TIMER.
Definition MIP_HTIP : Z := 1 .<< IRQ_H_TIMER.
Definition MIP_MTIP : Z := 1 .<< IRQ_M_TIMER.
Definition MIP_SEIP : Z := 1 .<< IRQ_S_EXT.
Definition MIP_HEIP : Z := 1 .<< IRQ_H_EXT.
Definition MIP_MEIP : Z := 1 .<< IRQ_M_EXT.
Definition SIP_SSIP : Z := MIP_SSIP.
Definition SIP_STIP : Z := MIP_STIP.
Definition PRV_U : Z := 0.
Definition PRV_S : Z := 1.
Definition PRV_H : Z := 2.
Definition PRV_M : Z := 3.
Definition VM_MBARE : Z := 0.
Definition VM_MBB : Z := 1.
Definition VM_MBBID : Z := 2.
Definition VM_SV32 : Z := 8.
Definition VM_SV39 : Z := 9.
Definition VM_SV48 : Z := 10.
Definition DEFAULT_RSTVEC : Z := 0x00001000.
Definition DEFAULT_NMIVEC : Z := 0x00001004.
Definition DEFAULT_MTVEC : Z := 0x00001010.
Definition CONFIG_STRING_ADDR : Z := 0x0000100C.
Definition EXT_IO_BASE : Z := 0x40000000.
Definition DRAM_BASE : Z := 0x80000000.
Definition PTE_V : Z := 0x001.
Definition PTE_R : Z := 0x002.
Definition PTE_W : Z := 0x004.
Definition PTE_X : Z := 0x008.
Definition PTE_U : Z := 0x010.
Definition PTE_G : Z := 0x020.
Definition PTE_A : Z := 0x040.
Definition PTE_D : Z := 0x080.
Definition PTE_SOFT : Z := 0x300.
Definition PTE_PPN_SHIFT : Z := 10.

Definition PTE_TABLE (PTE : Z) : bool :=
  (PTE .& (PTE_V .| PTE_R .| PTE_W .| PTE_X)) =? PTE_V.

(** ** CSR numbers and causes *)

Definition CSR_FFLAGS : Z := 0x1.
Definition CSR_FRM : Z := 0x2.
Definition CSR_FCSR : Z := 0x3.
Definition CSR_CYCLE : Z := 0xc00.
Definition CSR_INSTRET : Z := 0xc02.
Definition CSR_HPMCOUNTER3 : Z := 0xc03.
Definition CSR_HPMCOUNTER31 : Z := 0xc1f.
Definition CSR_SSTATUS : Z := 0x100.
Definition CSR_SIE : Z := 0x104.
Definition CSR_STVEC : Z := 0x105.
Definition CSR_SSCRATCH : Z := 0x140.
Definition CSR_SEPC : Z := 0x141.
Definition CSR_SCAUSE : Z := 0x142.
Definition CSR_SBADADDR : Z := 0x143.
Definition CSR_SIP : Z := 0x144.
Definition CSR_SPTBR : Z := 0x180.
Definition CSR_MSTATUS : Z := 0x300.
Definition CSR_MISA : Z := 0x301.
Definition CSR_MEDELEG : Z := 0x302.
Definition CSR_MIDELEG : Z := 0x303.
Definition CSR_MIE : Z := 0x304.
Definition CSR_MTVEC : Z := 0x305.
Definition CSR_MSCRATCH : Z := 0x340.
Definition CSR_MEPC : Z := 0x341.
Definition CSR_MCAUSE : Z := 0x342.
Definition CSR_MBADADDR : Z := 0x343.
Definition CSR_MIP : Z := 0x344.
Definition CSR_TSELECT : Z := 0x7a0.
Definition CSR_TDATA1 : Z := 0x7a1.
Definition CSR_TDATA2 : Z := 0x7a2.
Definition CSR_TDATA3 : Z := 0x7a3.
Definition CSR_DCSR : Z := 0x7b0.
Definition CSR_DPC : Z := 0x7b1.
Definition CSR_DSCRATCH : Z := 0x7b2.
Definition CSR_MCYCLE : Z := 0xb00.
Definition CSR_MINSTRET : Z := 0xb02.
Definition CSR_MHPMCOUNTER3 : Z := 0xb03.
Definition CSR_MHPMCOUNTER31 : Z := 0xb1f.
Definition CSR_MUCOUNTEREN : Z := 0x320.
Definition CSR_MSCOUNTEREN : Z := 0x321.
Definition CSR_MHPMEVENT3 : Z := 0x323.
Definition CSR_MHPMEVENT31 : Z := 0x33f.
Definition CSR_MVENDORID : Z := 0xf11.
Definition CSR_MARCHID : Z := 0xf12.
Definition CSR_MIMPID : Z := 0xf13.
Definition CSR_MHARTID : Z := 0xf14.
Definition CSR_HPMCOUNTER3H : Z := 0xc83.
Definition CSR_HPMCOUNTER31H : Z := 0xc9f.
Definition CSR_MCYCLEH : Z := 0xb80.
Definition CSR_MINSTRETH : Z := 0xb82.
Definition CSR_MHPMCOUNTER3H : Z := 0xb83.
Definition CSR_MHPMCOUNTER31H : Z := 0xb9f.
Definition CAUSE_MISALIGNED_FETCH : Z := 0x0.
Definition CAUSE_FAULT_FETCH : Z := 0x1.
Definition CAUSE_ILLEGAL_INSTRUCTION : Z := 0x2.
Definition CAUSE_BREAKPOINT : Z := 0x3.
Definition CAUSE_MISALIGNED_LOAD : Z := 0x4.
Definition CAUSE_FAULT_LOAD : Z := 0x5.
Definition CAUSE_MISALIGNED_STORE : Z := 0x6.
Definition CAUSE_FAULT_STORE : Z := 0x7.
Definition CAUSE_USER_ECALL : Z := 0x8.
Definition CAUSE_SUPERVISOR_ECALL : Z := 0x9.
Definition CAUSE_HYPERVISOR_ECALL : Z := 0xa.
Definition CAUSE_MACHINE_ECALL : Z := 0xb.

(** The expansion of [DECLARE_CAUSE]. *)
Definition declared_causes : list Z := [CAUSE_MISALIGNED_FETCH; CAUSE_FAULT_FETCH; CAUSE_ILLEGAL_INSTRUCTION; CAUSE_BREAKPOINT; CAUSE_MISALIGNED_LOAD; CAUSE_FAULT_LOAD; CAUSE_MISALIGNED_STORE; CAUSE_FAULT_STORE; CAUSE_USER_ECALL; CAUSE_SUPERVISOR_ECALL; CAUSE_HYPERVISOR_ECALL; CAUSE_MACHINE_ECALL].

(** ** The instructions

    [rv_NAME] stands for the pair of functions [rv32_NAME] and [rv64_NAME]. *)
Inductive insn_func :=
  | rv_add | rv_addi | rv_addiw | rv_addw | rv_amoadd_d | rv_amoadd_w | rv_amoand_d
  | rv_amoand_w | rv_amomax_d | rv_amomaxu_d | rv_amomaxu_w | rv_amomax_w | rv_amomin_d
  | rv_amominu_d | rv_amominu_w | rv_amomin_w | rv_amoor_d | rv_amoor_w | rv_amoswap_d
  | rv_amoswap_w | rv_amoxor_d | rv_amoxor_w | rv_and | rv_andi | rv_auipc | rv_beq
  | rv_bge | rv_bgeu | rv_blt | rv_bltu | rv_bne | rv_c_add | rv_c_addi4spn | rv_c_addi
  | rv_c_addw | rv_c_and | rv_c_andi | rv_c_beqz | rv_c_bnez | rv_c_ebreak | rv_c_fld
  | rv_c_fldsp | rv_c_flw | rv_c_flwsp | rv_c_fsd | rv_c_fsdsp | rv_c_fsw | rv_c_fswsp
  | rv_c_jal | rv_c_jalr | rv_c_j | rv_c_jr | rv_c_li | rv_c_lui | rv_c_lw | rv_c_lwsp
  | rv_c_mv | rv_c_or | rv_c_slli | rv_c_srai | rv_c_srli | rv_c_sub | rv_c_subw
  | rv_c_xor | rv_csrrc | rv_csrrci | rv_csrrs | rv_csrrsi | rv_csrrw | rv_csrrwi
  | rv_c_sw | rv_c_swsp | rv_div | rv_divu | rv_divuw | rv_divw | rv_dret | rv_ebreak
  | rv_ecall | rv_fadd_d | rv_fadd_s | rv_fclass_d | rv_fclass_s | rv_fcvt_d_l
  | rv_fcvt_d_lu | rv_fcvt_d_s | rv_fcvt_d_w | rv_fcvt_d_wu | rv_fcvt_l_d | rv_fcvt_l_s
  | rv_fcvt_lu_d | rv_fcvt_lu_s | rv_fcvt_s_d | rv_fcvt_s_l | rv_fcvt_s_lu | rv_fcvt_s_w
  | rv_fcvt_s_wu | rv_fcvt_w_d | rv_fcvt_w_s | rv_fcvt_wu_d | rv_fcvt_wu_s | rv_fdiv_d
  | rv_fdiv_s | rv_fence | rv_fence_i | rv_feq_d | rv_feq_s | rv_fld | rv_fle_d
  | rv_fle_s | rv_flt_d | rv_flt_s | rv_flw | rv_fmadd_d | rv_fmadd_s | rv_fmax_d
  | rv_fmax_s | rv_fmin_d | rv_fmin_s | rv_fmsub_d | rv_fmsub_s | rv_fmul_d | rv_fmul_s
  | rv_fmv_d_x | rv_fmv_s_x | rv_fmv_x_d | rv_fmv_x_s | rv_fnmadd_d | rv_fnmadd_s
  | rv_fnmsub_d | rv_fnmsub_s | rv_fsd | rv_fsgnj_d | rv_fsgnjn_d | rv_fsgnjn_s
  | rv_fsgnj_s | rv_fsgnjx_d | rv_fsgnjx_s | rv_fsqrt_d | rv_fsqrt_s | rv_fsub_d
  | rv_fsub_s | rv_fsw | rv_jal | rv_jalr | rv_lb | rv_lbu | rv_ld | rv_lh | rv_lhu
  | rv_lr_d | rv_lr_w | rv_lui | rv_lw | rv_lwu | rv_mret | rv_mul | rv_mulh | rv_mulhsu
  | rv_mulhu | rv_mulw | rv_or | rv_ori | rv_rem | rv_remu | rv_remuw | rv_remw | rv_sb
  | rv_sc_d | rv_sc_w | rv_sd | rv_sfence_vm | rv_sh | rv_sll | rv_slli | rv_slliw
  | rv_sllw | rv_slt | rv_slti | rv_sltiu | rv_sltu | rv_sra | rv_srai | rv_sraiw
  | rv_sraw | rv_sret | rv_srl | rv_srli | rv_srliw | rv_srlw | rv_sub | rv_subw | rv_sw
  | rv_wfi | rv_xor | rv_xori
  | illegal_instruction.

Definition insn_list : list insn_func := [
  rv_add; rv_addi; rv_addiw; rv_addw; rv_amoadd_d; rv_amoadd_w; rv_amoand_d; rv_amoand_w;
  rv_amomax_d; rv_amomaxu_d; rv_amomaxu_w; rv_amomax_w; rv_amomin_d; rv_amominu_d;
  rv_amominu_w; rv_amomin_w; rv_amoor_d; rv_amoor_w; rv_amoswap_d; rv_amoswap_w;
  rv_amoxor_d; rv_amoxor_w; rv_and; rv_andi; rv_auipc; rv_beq; rv_bge; rv_bgeu; rv_blt;
  rv_bltu; rv_bne; rv_c_add; rv_c_addi4spn; rv_c_addi; rv_c_addw; rv_c_and; rv_c_andi;
  rv_c_beqz; rv_c_bnez; rv_c_ebreak; rv_c_fld; rv_c_fldsp; rv_c_flw; rv_c_flwsp;
  rv_c_fsd; rv_c_fsdsp; rv_c_fsw; rv_c_fswsp; rv_c_jal; rv_c_jalr; rv_c_j; rv_c_jr;
  rv_c_li; rv_c_lui; rv_c_lw; rv_c_lwsp; rv_c_mv; rv_c_or; rv_c_slli; rv_c_srai;
  rv_c_srli; rv_c_sub; rv_c_subw; rv_c_xor; rv_csrrc; rv_csrrci; rv_csrrs; rv_csrrsi;
  rv_csrrw; rv_csrrwi; rv_c_sw; rv_c_swsp; rv_div; rv_divu; rv_divuw; rv_divw; rv_dret;
  rv_ebreak; rv_ecall; rv_fadd_d; rv_fadd_s; rv_fclass_d; rv_fclass_s; rv_fcvt_d_l;
  rv_fcvt_d_lu; rv_fcvt_d_s; rv_fcvt_d_w; rv_fcvt_d_wu; rv_fcvt_l_d; rv_fcvt_l_s;
  rv_fcvt_lu_d; rv_fcvt_lu_s; rv_fcvt_s_d; rv_fcvt_s_l; rv_fcvt_s_lu; rv_fcvt_s_w;
  rv_fcvt_s_wu; rv_fcvt_w_d; rv_fcvt_w_s; rv_fcvt_wu_d; rv_fcvt_wu_s; rv_fdiv_d;
  rv_fdiv_s; rv_fence; rv_fence_i; rv_feq_d; rv_feq_s; rv_fld; rv_fle_d; rv_fle_s;
  rv_flt_d; rv_flt_s; rv_flw; rv_fmadd_d; rv_fmadd_s; rv_fmax_d; rv_fmax_s; rv_fmin_d;
  rv_fmin_s; rv_fmsub_d; rv_fmsub_s; rv_fmul_d; rv_fmul_s; rv_fmv_d_x; rv_fmv_s_x;
  rv_fmv_x_d; rv_fmv_x_s; rv_fnmadd_d; rv_fnmadd_s; rv_fnmsub_d; rv_fnmsub_s; rv_fsd;
  rv_fsgnj_d; rv_fsgnjn_d; rv_fsgnjn_s; rv_fsgnj_s; rv_fsgnjx_d; rv_fsgnjx_s; rv_fsqrt_d;
  rv_fsqrt_s; rv_fsub_d; rv_fsub_s; rv_fsw; rv_jal; rv_jalr; rv_lb; rv_lbu; rv_ld; rv_lh;
  rv_lhu; rv_lr_d; rv_lr_w; rv_lui; rv_lw; rv_lwu; rv_mret; rv_mul; rv_mulh; rv_mulhsu;
  rv_mulhu; rv_mulw; rv_or; rv_ori; rv_rem; rv_remu; rv_remuw; rv_remw; rv_sb; rv_sc_d;
  rv_sc_w; rv_sd; rv_sfence_vm; rv_sh; rv_sll; rv_slli; rv_slliw; rv_sllw; rv_slt;
  rv_slti; rv_sltiu; rv_sltu; rv_sra; rv_srai; rv_sraiw; rv_sraw; rv_sret; rv_srl;
  rv_srli; rv_srliw; rv_srlw; rv_sub; rv_subw; rv_sw; rv_wfi; rv_xor; rv_xori].

(** A number for each, to decide equality. *)
Definition insn_tag (f : insn_func) : N :=
  match f with
  | rv_add => 0 | rv_addi => 1 | rv_addiw => 2 | rv_addw => 3 | rv_amoadd_d => 4
  | rv_amoadd_w => 5 | rv_amoand_d => 6 | rv_amoand_w => 7 | rv_amomax_d => 8
  | rv_amomaxu_d => 9 | rv_amomaxu_w => 10 | rv_amomax_w => 11 | rv_amomin_d => 12
  | rv_amominu_d => 13 | rv_amominu_w => 14 | rv_amomin_w => 15 | rv_amoor_d => 16
  | rv_amoor_w => 17 | rv_amoswap_d => 18 | rv_amoswap_w => 19 | rv_amoxor_d => 20
  | rv_amoxor_w => 21 | rv_and => 22 | rv_andi => 23 | rv_auipc => 24 | rv_beq => 25
  | rv_bge => 26 | rv_bgeu => 27 | rv_blt => 28 | rv_bltu => 29 | rv_bne => 30
  | rv_c_add => 31 | rv_c_addi4spn => 32 | rv_c_addi => 33 | rv_c_addw => 34
  | rv_c_and => 35 | rv_c_andi => 36 | rv_c_beqz => 37 | rv_c_bnez => 38
  | rv_c_ebreak => 39 | rv_c_fld => 40 | rv_c_fldsp => 41 | rv_c_flw => 42
  | rv_c_flwsp => 43 | rv_c_fsd => 44 | rv_c_fsdsp => 45 | rv_c_fsw => 46
  | rv_c_fswsp => 47 | rv_c_jal => 48 | rv_c_jalr => 49 | rv_c_j => 50 | rv_c_jr => 51
  | rv_c_li => 52 | rv_c_lui => 53 | rv_c_lw => 54 | rv_c_lwsp => 55 | rv_c_mv => 56
  | rv_c_or => 57 | rv_c_slli => 58 | rv_c_srai => 59 | rv_c_srli => 60 | rv_c_sub => 61
  | rv_c_subw => 62 | rv_c_xor => 63 | rv_csrrc => 64 | rv_csrrci => 65 | rv_csrrs => 66
  | rv_csrrsi => 67 | rv_csrrw => 68 | rv_csrrwi => 69 | rv_c_sw => 70 | rv_c_swsp => 71
  | rv_div => 72 | rv_divu => 73 | rv_divuw => 74 | rv_divw => 75 | rv_dret => 76
  | rv_ebreak => 77 | rv_ecall => 78 | rv_fadd_d => 79 | rv_fadd_s => 80
  | rv_fclass_d => 81 | rv_fclass_s => 82 | rv_fcvt_d_l => 83 | rv_fcvt_d_lu => 84
  | rv_fcvt_d_s => 85 | rv_fcvt_d_w => 86 | rv_fcvt_d_wu => 87 | rv_fcvt_l_d => 88
  | rv_fcvt_l_s => 89 | rv_fcvt_lu_d => 90 | rv_fcvt_lu_s => 91 | rv_fcvt_s_d => 92
  | rv_fcvt_s_l => 93 | rv_fcvt_s_lu => 94 | rv_fcvt_s_w => 95 | rv_fcvt_s_wu => 96
  | rv_fcvt_w_d => 97 | rv_fcvt_w_s => 98 | rv_fcvt_wu_d => 99 | rv_fcvt_wu_s => 100
  | rv_fdiv_d => 101 | rv_fdiv_s => 102 | rv_fence => 103 | rv_fence_i => 104
  | rv_feq_d => 105 | rv_feq_s => 106 | rv_fld => 107 | rv_fle_d => 108 | rv_fle_s => 109
  | rv_flt_d => 110 | rv_flt_s => 111 | rv_flw => 112 | rv_fmadd_d => 113
  | rv_fmadd_s => 114 | rv_fmax_d => 115 | rv_fmax_s => 116 | rv_fmin_d => 117
  | rv_fmin_s => 118 | rv_fmsub_d => 119 | rv_fmsub_s => 120 | rv_fmul_d => 121
  | rv_fmul_s => 122 | rv_fmv_d_x => 123 | rv_fmv_s_x => 124 | rv_fmv_x_d => 125
  | rv_fmv_x_s => 126 | rv_fnmadd_d => 127 | rv_fnmadd_s => 128 | rv_fnmsub_d => 129
  | rv_fnmsub_s => 130 | rv_fsd => 131 | rv_fsgnj_d => 132 | rv_fsgnjn_d => 133
  | rv_fsgnjn_s => 134 | rv_fsgnj_s => 135 | rv_fsgnjx_d => 136 | rv_fsgnjx_s => 137
  | rv_fsqrt_d => 138 | rv_fsqrt_s => 139 | rv_fsub_d => 140 | rv_fsub_s => 141
  | rv_fsw => 142 | rv_jal => 143 | rv_jalr => 144 | rv_lb => 145 | rv_lbu => 146
  | rv_ld => 147 | rv_lh => 148 | rv_lhu => 149 | rv_lr_d => 150 | rv_lr_w => 151
  | rv_lui => 152 | rv_lw => 153 | rv_lwu => 154 | rv_mret => 155 | rv_mul => 156
  | rv_mulh => 157 | rv_mulhsu => 158 | rv_mulhu => 159 | rv_mulw => 160 | rv_or => 161
  | rv_ori => 162 | rv_rem => 163 | rv_remu => 164 | rv_remuw => 165 | rv_remw => 166
  | rv_sb => 167 | rv_sc_d => 168 | rv_sc_w => 169 | rv_sd => 170 | rv_sfence_vm => 171
  | rv_sh => 172 | rv_sll => 173 | rv_slli => 174 | rv_slliw => 175 | rv_sllw => 176
  | rv_slt => 177 | rv_slti => 178 | rv_sltiu => 179 | rv_sltu => 180 | rv_sra => 181
  | rv_srai => 182 | rv_sraiw => 183 | rv_sraw => 184 | rv_sret => 185 | rv_srl => 186
  | rv_srli => 187 | rv_srliw => 188 | rv_srlw => 189 | rv_sub => 190 | rv_subw => 191
  | rv_sw => 192 | rv_wfi => 193 | rv_xor => 194 | rv_xori => 195
  | illegal_instruction => 196
  end.

Lemma insn_tag_inv f : (insn_list ++ [illegal_instruction]) !! N.to_nat (insn_tag f) = Some f.
Proof. by destruct f. Qed.

#[export] Instance insn_func_eq_dec : EqDecision insn_func.
Proof.
  intros f g. destruct (decide (insn_tag f = insn_tag g)) as [E|N].
  - left. pose proof (insn_tag_inv f) as Hf. rewrite E, insn_tag_inv in Hf. by injection Hf.
  - right. by intros ->.
Defined.


(** The match and mask of each instruction, in the order of the header.  The
    header also names encodings that no function implements (custom, uret, hret
    and the aliases c.nop, c.ld, ...). *)
Definition encodings_1 : list (insn_func * (Z * Z)) := [
  (rv_beq, (0x63, 0x707f));
  (rv_bne, (0x1063, 0x707f));
  (rv_blt, (0x4063, 0x707f));
  (rv_bge, (0x5063, 0x707f));
  (rv_bltu, (0x6063, 0x707f));
  (rv_bgeu, (0x7063, 0x707f));
  (rv_jalr, (0x67, 0x707f));
  (rv_jal, (0x6f, 0x7f));
  (rv_lui, (0x37, 0x7f));
  (rv_auipc, (0x17, 0x7f));
  (rv_addi, (0x13, 0x707f));
  (rv_slli, (0x1013, 0xfc00707f));
  (rv_slti, (0x2013, 0x707f));
  (rv_sltiu, (0x3013, 0x707f));
  (rv_xori, (0x4013, 0x707f));
  (rv_srli, (0x5013, 0xfc00707f));
  (rv_srai, (0x40005013, 0xfc00707f));
  (rv_ori, (0x6013, 0x707f));
  (rv_andi, (0x7013, 0x707f));
  (rv_add, (0x33, 0xfe00707f));
  (rv_sub, (0x40000033, 0xfe00707f));
  (rv_sll, (0x1033, 0xfe00707f));
  (rv_slt, (0x2033, 0xfe00707f));
  (rv_sltu, (0x3033, 0xfe00707f));
  (rv_xor, (0x4033, 0xfe00707f));
  (rv_srl, (0x5033, 0xfe00707f));
  (rv_sra, (0x40005033, 0xfe00707f));
  (rv_or, (0x6033, 0xfe00707f));
  (rv_and, (0x7033, 0xfe00707f));
  (rv_addiw, (0x1b, 0x707f));
  (rv_slliw, (0x101b, 0xfe00707f));
  (rv_srliw, (0x501b, 0xfe00707f));
  (rv_sraiw, (0x4000501b, 0xfe00707f));
  (rv_addw, (0x3b, 0xfe00707f));
  (rv_subw, (0x4000003b, 0xfe00707f));
  (rv_sllw, (0x103b, 0xfe00707f));
  (rv_srlw, (0x503b, 0xfe00707f));
  (rv_sraw, (0x4000503b, 0xfe00707f));
  (rv_lb, (0x3, 0x707f));
  (rv_lh, (0x1003, 0x707f));
  (rv_lw, (0x2003, 0x707f));
  (rv_ld, (0x3003, 0x707f));
  (rv_lbu, (0x4003, 0x707f));
  (rv_lhu, (0x5003, 0x707f));
  (rv_lwu, (0x6003, 0x707f));
  (rv_sb, (0x23, 0x707f));
  (rv_sh, (0x1023, 0x707f));
  (rv_sw, (0x2023, 0x707f));
  (rv_sd, (0x3023, 0x707f));
  (rv_fence, (0xf, 0x707f));
  (rv_fence_i, (0x100f, 0x707f));
  (rv_mul, (0x2000033, 0xfe00707f));
  (rv_mulh, (0x2001033, 0xfe00707f));
  (rv_mulhsu, (0x2002033, 0xfe00707f));
  (rv_mulhu, (0x2003033, 0xfe00707f));
  (rv_div, (0x2004033, 0xfe00707f));
  (rv_divu, (0x2005033, 0xfe00707f));
  (rv_rem, (0x2006033, 0xfe00707f));
  (rv_remu, (0x2007033, 0xfe00707f));
  (rv_mulw, (0x200003b, 0xfe00707f));
  (rv_divw, (0x200403b, 0xfe00707f));
  (rv_divuw, (0x200503b, 0xfe00707f));
  (rv_remw, (0x200603b, 0xfe00707f));
  (rv_remuw, (0x200703b, 0xfe00707f));
  (rv_amoadd_w, (0x202f, 0xf800707f));
  (rv_amoxor_w, (0x2000202f, 0xf800707f))].

Definition encodings_2 : list (insn_func * (Z * Z)) := [
  (rv_amoor_w, (0x4000202f, 0xf800707f));
  (rv_amoand_w, (0x6000202f, 0xf800707f));
  (rv_amomin_w, (0x8000202f, 0xf800707f));
  (rv_amomax_w, (0xa000202f, 0xf800707f));
  (rv_amominu_w, (0xc000202f, 0xf800707f));
  (rv_amomaxu_w, (0xe000202f, 0xf800707f));
  (rv_amoswap_w, (0x800202f, 0xf800707f));
  (rv_lr_w, (0x1000202f, 0xf9f0707f));
  (rv_sc_w, (0x1800202f, 0xf800707f));
  (rv_amoadd_d, (0x302f, 0xf800707f));
  (rv_amoxor_d, (0x2000302f, 0xf800707f));
  (rv_amoor_d, (0x4000302f, 0xf800707f));
  (rv_amoand_d, (0x6000302f, 0xf800707f));
  (rv_amomin_d, (0x8000302f, 0xf800707f));
  (rv_amomax_d, (0xa000302f, 0xf800707f));
  (rv_amominu_d, (0xc000302f, 0xf800707f));
  (rv_amomaxu_d, (0xe000302f, 0xf800707f));
  (rv_amoswap_d, (0x800302f, 0xf800707f));
  (rv_lr_d, (0x1000302f, 0xf9f0707f));
  (rv_sc_d, (0x1800302f, 0xf800707f));
  (rv_ecall, (0x73, 0xffffffff));
  (rv_ebreak, (0x100073, 0xffffffff));
  (rv_sret, (0x10200073, 0xffffffff));
  (rv_mret, (0x30200073, 0xffffffff));
  (rv_dret, (0x7b200073, 0xffffffff));
  (rv_sfence_vm, (0x10400073, 0xfff07fff));
  (rv_wfi, (0x10500073, 0xffffffff));
  (rv_csrrw, (0x1073, 0x707f));
  (rv_csrrs, (0x2073, 0x707f));
  (rv_csrrc, (0x3073, 0x707f));
  (rv_csrrwi, (0x5073, 0x707f));
  (rv_csrrsi, (0x6073, 0x707f));
  (rv_csrrci, (0x7073, 0x707f));
  (rv_fadd_s, (0x53, 0xfe00007f));
  (rv_fsub_s, (0x8000053, 0xfe00007f));
  (rv_fmul_s, (0x10000053, 0xfe00007f));
  (rv_fdiv_s, (0x18000053, 0xfe00007f));
  (rv_fsgnj_s, (0x20000053, 0xfe00707f));
  (rv_fsgnjn_s, (0x20001053, 0xfe00707f));
  (rv_fsgnjx_s, (0x20002053, 0xfe00707f));
  (rv_fmin_s, (0x28000053, 0xfe00707f));
  (rv_fmax_s, (0x28001053, 0xfe00707f));
  (rv_fsqrt_s, (0x58000053, 0xfff0007f));
  (rv_fadd_d, (0x2000053, 0xfe00007f));
  (rv_fsub_d, (0xa000053, 0xfe00007f));
  (rv_fmul_d, (0x12000053, 0xfe00007f));
  (rv_fdiv_d, (0x1a000053, 0xfe00007f));
  (rv_fsgnj_d, (0x22000053, 0xfe00707f));
  (rv_fsgnjn_d, (0x22001053, 0xfe00707f));
  (rv_fsgnjx_d, (0x22002053, 0xfe00707f));
  (rv_fmin_d, (0x2a000053, 0xfe00707f));
  (rv_fmax_d, (0x2a001053, 0xfe00707f));
  (rv_fcvt_s_d, (0x40100053, 0xfff0007f));
  (rv_fcvt_d_s, (0x42000053, 0xfff0007f));
  (rv_fsqrt_d, (0x5a000053, 0xfff0007f));
  (rv_fle_s, (0xa0000053, 0xfe00707f));
  (rv_flt_s, (0xa0001053, 0xfe00707f));
  (rv_feq_s, (0xa0002053, 0xfe00707f));
  (rv_fle_d, (0xa2000053, 0xfe00707f));
  (rv_flt_d, (0xa2001053, 0xfe00707f));
  (rv_feq_d, (0xa2002053, 0xfe00707f));
  (rv_fcvt_w_s, (0xc0000053, 0xfff0007f));
  (rv_fcvt_wu_s, (0xc0100053, 0xfff0007f));
  (rv_fcvt_l_s, (0xc0200053, 0xfff0007f));
  (rv_fcvt_lu_s, (0xc0300053, 0xfff0007f));
  (rv_fmv_x_s, (0xe0000053, 0xfff0707f))].

Definition encodings_3 : list (insn_func * (Z * Z)) := [
  (rv_fclass_s, (0xe0001053, 0xfff0707f));
  (rv_fcvt_w_d, (0xc2000053, 0xfff0007f));
  (rv_fcvt_wu_d, (0xc2100053, 0xfff0007f));
  (rv_fcvt_l_d, (0xc2200053, 0xfff0007f));
  (rv_fcvt_lu_d, (0xc2300053, 0xfff0007f));
  (rv_fmv_x_d, (0xe2000053, 0xfff0707f));
  (rv_fclass_d, (0xe2001053, 0xfff0707f));
  (rv_fcvt_s_w, (0xd0000053, 0xfff0007f));
  (rv_fcvt_s_wu, (0xd0100053, 0xfff0007f));
  (rv_fcvt_s_l, (0xd0200053, 0xfff0007f));
  (rv_fcvt_s_lu, (0xd0300053, 0xfff0007f));
  (rv_fmv_s_x, (0xf0000053, 0xfff0707f));
  (rv_fcvt_d_w, (0xd2000053, 0xfff0007f));
  (rv_fcvt_d_wu, (0xd2100053, 0xfff0007f));
  (rv_fcvt_d_l, (0xd2200053, 0xfff0007f));
  (rv_fcvt_d_lu, (0xd2300053, 0xfff0007f));
  (rv_fmv_d_x, (0xf2000053, 0xfff0707f));
  (rv_flw, (0x2007, 0x707f));
  (rv_fld, (0x3007, 0x707f));
  (rv_fsw, (0x2027, 0x707f));
  (rv_fsd, (0x3027, 0x707f));
  (rv_fmadd_s, (0x43, 0x600007f));
  (rv_fmsub_s, (0x47, 0x600007f));
  (rv_fnmsub_s, (0x4b, 0x600007f));
  (rv_fnmadd_s, (0x4f, 0x600007f));
  (rv_fmadd_d, (0x2000043, 0x600007f));
  (rv_fmsub_d, (0x2000047, 0x600007f));
  (rv_fnmsub_d, (0x200004b, 0x600007f));
  (rv_fnmadd_d, (0x200004f, 0x600007f));
  (rv_c_jr, (0x8002, 0xf07f));
  (rv_c_jalr, (0x9002, 0xf07f));
  (rv_c_ebreak, (0x9002, 0xffff));
  (rv_c_addi4spn, (0x0, 0xe003));
  (rv_c_fld, (0x2000, 0xe003));
  (rv_c_lw, (0x4000, 0xe003));
  (rv_c_flw, (0x6000, 0xe003));
  (rv_c_fsd, (0xa000, 0xe003));
  (rv_c_sw, (0xc000, 0xe003));
  (rv_c_fsw, (0xe000, 0xe003));
  (rv_c_addi, (0x1, 0xe003));
  (rv_c_jal, (0x2001, 0xe003));
  (rv_c_li, (0x4001, 0xe003));
  (rv_c_lui, (0x6001, 0xe003));
  (rv_c_srli, (0x8001, 0xec03));
  (rv_c_srai, (0x8401, 0xec03));
  (rv_c_andi, (0x8801, 0xec03));
  (rv_c_sub, (0x8c01, 0xfc63));
  (rv_c_xor, (0x8c21, 0xfc63));
  (rv_c_or, (0x8c41, 0xfc63));
  (rv_c_and, (0x8c61, 0xfc63));
  (rv_c_subw, (0x9c01, 0xfc63));
  (rv_c_addw, (0x9c21, 0xfc63));
  (rv_c_j, (0xa001, 0xe003));
  (rv_c_beqz, (0xc001, 0xe003));
  (rv_c_bnez, (0xe001, 0xe003));
  (rv_c_slli, (0x2, 0xe003));
  (rv_c_fldsp, (0x2002, 0xe003));
  (rv_c_lwsp, (0x4002, 0xe003));
  (rv_c_flwsp, (0x6002, 0xe003));
  (rv_c_mv, (0x8002, 0xf003));
  (rv_c_add, (0x9002, 0xf003));
  (rv_c_fsdsp, (0xa002, 0xe003));
  (rv_c_swsp, (0xc002, 0xe003));
  (rv_c_fswsp, (0xe002, 0xe003))].

Definition encodings : list (insn_func * (Z * Z)) := encodings_1 ++ encodings_2 ++ encodings_3.

Definition encoding_of (f : insn_func) : Z * Z :=
  match list_find (fun '(g, _) => g = f) encodings with
  | Some (_, (_, e)) => e
  | None => (0, 0)
  end.
Definition insn_match (f : insn_func) : Z := fst (encoding_of f).
Definition insn_mask (f : insn_func) : Z := snd (encoding_of f).
