(* ===== verification/Decode.v ===== *)
(** riscv/decode.h: the fields and immediates of an instruction ([insn_t]), the
    register files ([regfile_t]) and the macros on fields and on [xlen].  An
    instruction is its [insn_bits_t], a 64-bit unsigned word into which the
    16, 32 or 48 bits fetched are sign-extended. *)
From S2P Require Import Prelude.

(** ** Macros *)

Definition insn_length (x : Z) : Z :=
  if (x .& 0x03) <? 0x03 then 2
  else if (x .& 0x1f) <? 0x1f then 4
  else if (x .& 0x3f) <? 0x3f then 6
  else 8.

(** [(mask) & ~((mask) << 1)]: the lowest bit of a contiguous mask. *)
Definition lowbit (mask : Z) : Z := mask .& Z.lnot (mask .<< 1).
Definition get_field (reg mask : Z) : Z := (reg .& mask) / lowbit mask.
Definition set_field (reg mask val : Z) : Z :=
  (reg .& Z.lnot mask) .| ((val * lowbit mask) .& mask).

Definition sext32 (x : Z) : Z := s32 x.
Definition zext32 (x : Z) : Z := u32 x.
Definition sext_xlen (xlen x : Z) : Z := s64 (s64 x .<< (64 - xlen)) .>> (64 - xlen).
Definition zext_xlen (xlen x : Z) : Z := u64 (u64 x .<< (64 - xlen)) .>> (64 - xlen).

Definition PC_SERIALIZE_BEFORE : Z := 3.
Definition PC_SERIALIZE_AFTER : Z := 5.
Definition invalid_pc (pc : Z) : bool := z2b (pc .& 1).

(** ** [insn_t] *)

Definition insn_x (b lo len : Z) : Z := (b .>> lo) .& u64 (u64 (1 .<< len) - 1).
Definition insn_xs (b lo len : Z) : Z :=
  u64 (s64 (u64 (s64 b .<< (64 - lo - len))) .>> (64 - len)).
Definition imm_sign (b : Z) : Z := insn_xs b 63 1.

Definition i_imm (b : Z) : Z := s64 b .>> 20.
Definition s_imm (b : Z) : Z := s64 (insn_x b 7 5 + (insn_xs b 25 7 .<< 5)).
Definition sb_imm (b : Z) : Z :=
  s64 ((insn_x b 8 4 .<< 1) + (insn_x b 25 6 .<< 5) + (insn_x b 7 1 .<< 11) + (imm_sign b .<< 12)).
Definition u_imm (b : Z) : Z := (s64 b .>> 12) .<< 12.
Definition uj_imm (b : Z) : Z :=
  s64 ((insn_x b 21 10 .<< 1) + (insn_x b 20 1 .<< 11) + (insn_x b 12 8 .<< 12)
       + (imm_sign b .<< 20)).
Definition rd (b : Z) : Z := insn_x b 7 5.
Definition rs1 (b : Z) : Z := insn_x b 15 5.
Definition rs2 (b : Z) : Z := insn_x b 20 5.
Definition rs3 (b : Z) : Z := insn_x b 27 5.
Definition rm (b : Z) : Z := insn_x b 12 3.
Definition csr (b : Z) : Z := insn_x b 20 12.

Definition rvc_imm (b : Z) : Z := s64 (insn_x b 2 5 + (insn_xs b 12 1 .<< 5)).
Definition rvc_zimm (b : Z) : Z := s64 (insn_x b 2 5 + (insn_x b 12 1 .<< 5)).
Definition rvc_addi4spn_imm (b : Z) : Z :=
  s64 ((insn_x b 6 1 .<< 2) + (insn_x b 5 1 .<< 3) + (insn_x b 11 2 .<< 4) + (insn_x b 7 4 .<< 6)).
Definition rvc_addi16sp_imm (b : Z) : Z :=
  s64 ((insn_x b 6 1 .<< 4) + (insn_x b 2 1 .<< 5) + (insn_x b 5 1 .<< 6) + (insn_x b 3 2 .<< 7)
       + (insn_xs b 12 1 .<< 9)).
Definition rvc_lwsp_imm (b : Z) : Z :=
  s64 ((insn_x b 4 3 .<< 2) + (insn_x b 12 1 .<< 5) + (insn_x b 2 2 .<< 6)).
Definition rvc_ldsp_imm (b : Z) : Z :=
  s64 ((insn_x b 5 2 .<< 3) + (insn_x b 12 1 .<< 5) + (insn_x b 2 3 .<< 6)).
Definition rvc_swsp_imm (b : Z) : Z := s64 ((insn_x b 9 4 .<< 2) + (insn_x b 7 2 .<< 6)).
Definition rvc_sdsp_imm (b : Z) : Z := s64 ((insn_x b 10 3 .<< 3) + (insn_x b 7 3 .<< 6)).
Definition rvc_lw_imm (b : Z) : Z :=
  s64 ((insn_x b 6 1 .<< 2) + (insn_x b 10 3 .<< 3) + (insn_x b 5 1 .<< 6)).
Definition rvc_ld_imm (b : Z) : Z := s64 ((insn_x b 10 3 .<< 3) + (insn_x b 5 2 .<< 6)).
Definition rvc_j_imm (b : Z) : Z :=
  s64 ((insn_x b 3 3 .<< 1) + (insn_x b 11 1 .<< 4) + (insn_x b 2 1 .<< 5) + (insn_x b 7 1 .<< 6)
       + (insn_x b 6 1 .<< 7) + (insn_x b 9 2 .<< 8) + (insn_x b 8 1 .<< 10)
       + (insn_xs b 12 1 .<< 11)).
Definition rvc_b_imm (b : Z) : Z :=
  s64 ((insn_x b 3 2 .<< 1) + (insn_x b 10 2 .<< 3) + (insn_x b 2 1 .<< 5) + (insn_x b 5 2 .<< 6)
       + (insn_xs b 12 1 .<< 8)).
Definition rvc_simm3 (b : Z) : Z := insn_x b 10 3.
Definition rvc_rd (b : Z) : Z := rd b.
Definition rvc_rs1 (b : Z) : Z := rd b.
Definition rvc_rs2 (b : Z) : Z := insn_x b 2 5.
Definition rvc_rs1s (b : Z) : Z := 8 + insn_x b 7 3.
Definition rvc_rs2s (b : Z) : Z := 8 + insn_x b 2 3.
Definition SHAMT (b : Z) : Z := i_imm b .& 0x3F.

(** ** [regfile_t]: an array of registers, the first one hard-wired to zero
    when [zero_reg]. *)

Definition regfile := list Z.
Definition regfile_write (zero_reg : bool) (i v : Z) (r : regfile) : regfile :=
  if negb zero_reg || negb (i =? 0) then <[Z.to_nat i := v]> r else r.
Definition regfile_read (r : regfile) (i : Z) : Z := default 0 (r !! Z.to_nat i).

(** ** Facts about the macros *)

Lemma insn_x_spec b lo len :
  0 <= lo -> 0 < len < 64 -> insn_x b lo len = (b / 2 ^ lo) mod 2 ^ len.
Proof.
  intros Hlo Hlen. unfold insn_x. pose proof (Z.pow_lt_mono_r 2 len 64 ltac:(lia) ltac:(lia)).
  pose proof (pow2_pos len ltac:(lia)).
  rewrite shl_mul, Z.mul_1_l, (wrap_small 64 (2 ^ len)), wrap_small, land_mask, shr_div by lia. done.
Qed.

(** A field read as a signed number. *)
Lemma insn_xs_spec b lo len :
  0 <= lo -> 0 < len -> lo + len <= 64 ->
  insn_xs b lo len = u64 (sext len (b / 2 ^ lo)).
Proof.
  intros Hlo Hlen Hs. unfold insn_xs. f_equal.
  rewrite shl_mul, shr_div, sext_wrap by lia.
  set (d := 64 - lo - len). 
  assert (sext 64 (s64 b * 2 ^ d) = sext (64 - d) b * 2 ^ d) as ->.
  { unfold sext at 1 3.
    pose proof (pow2_pos d ltac:(lia)). pose proof (pow2_pos (64 - d - 1) ltac:(lia)).
    assert (2 ^ (64 - 1) = 2 ^ (64 - d - 1) * 2 ^ d) as ->
      by (rewrite <- Z.pow_add_r by lia; f_equal; lia).
    assert (2 ^ 64 = 2 ^ (64 - d) * 2 ^ d) as ->
      by (rewrite <- Z.pow_add_r by lia; f_equal; lia).
    rewrite <- Z.mul_add_distr_r, Z.mul_mod_distr_r by lia. rewrite Z.mul_sub_distr_r. do 2 f_equal.
    rewrite <- (Zplus_mod_idemp_l (s64 b)), <- (Zplus_mod_idemp_l b). do 2 f_equal.
    fold (wrap (64 - d) (s64 b)). fold (wrap (64 - d) b).
    rewrite <- (wrap_narrow (64 - d) 64 (s64 b)), wrap_sext, wrap_narrow by lia. done. }
  replace (64 - len) with (lo + d) by lia. rewrite Z.pow_add_r by lia.
  rewrite Z.div_mul_cancel_r by (apply Z.pow_nonzero; lia).
  replace (64 - d) with (lo + len) by lia. unfold sext.
  replace (lo + len - 1) with (lo + (len - 1)) by lia. rewrite !Z.pow_add_r by lia.
  pose proof (pow2_pos lo ltac:(lia)). pose proof (pow2_pos len ltac:(lia)).
  rewrite (Z.mul_comm (2 ^ lo) (2 ^ (len - 1))).
  rewrite <- (Z.div_add b), (Z.rem_mul_r _ (2 ^ lo)) by lia.
  set (q := ((b + 2 ^ (len - 1) * 2 ^ lo) / 2 ^ lo) mod 2 ^ len).
  pose proof (Z.mod_pos_bound (b + 2 ^ (len - 1) * 2 ^ lo) (2 ^ lo) ltac:(lia)).
  symmetry. apply (Z.div_unique _ _ _ ((b + 2 ^ (len - 1) * 2 ^ lo) mod 2 ^ lo)); lia.
Qed.

Lemma sext_xlen_spec xlen x : 0 < xlen <= 64 -> sext_xlen xlen x = sext xlen x.
Proof.
  intros Hx. unfold sext_xlen. rewrite shl_mul, shr_div by lia.
  pose proof (insn_xs_spec x 0 xlen ltac:(lia) ltac:(lia) ltac:(lia)) as H.
  unfold insn_xs in H. rewrite shl_mul, shr_div, sext_wrap, Z.sub_0_r in H by lia.
  rewrite Z.div_1_r in H.
  pose proof (sext_range 64 (s64 x * 2 ^ (64 - xlen)) ltac:(lia)) as Hr.
  pose proof (sext_range xlen x ltac:(lia)). pose proof (pow2_le (xlen - 1) 63 ltac:(lia)).
  pose proof (pow2_pos (64 - xlen) ltac:(lia)).
  set (q := sext 64 _ / _) in *.
  assert (- 2 ^ 63 <= q < 2 ^ 63).
  { unfold q. change (64 - 1) with 63 in Hr. split.
    - apply Z.div_le_lower_bound; nia.
    - apply Z.div_lt_upper_bound; nia. }
  rewrite <- (sext_small 64 q), <- (sext_small 64 (sext xlen x)) by (cbn; lia).
  by apply sext_eq_wrap.
Qed.

Lemma zext_xlen_spec xlen x : 0 < xlen <= 64 -> zext_xlen xlen x = wrap xlen x.
Proof.
  intros Hx. unfold zext_xlen. rewrite shl_mul, shr_div, wrap_mul_idemp_l by lia.
  unfold wrap. rewrite (pow2_split 64 (64 - xlen)) by lia.
  replace (64 - (64 - xlen)) with xlen by lia.
  pose proof (pow2_pos (64 - xlen) ltac:(lia)). pose proof (pow2_pos xlen ltac:(lia)).
  rewrite (Z.mul_comm (2 ^ (64 - xlen))), Z.mul_mod_distr_r, Z.div_mul by lia. done.
Qed.

(** ** Fields of a register

    [Field mask k n]: the mask covers the [n] bits from bit [k] up. *)
Class Field (mask k n : Z) : Prop := {
  field_mask : mask = (2 ^ n - 1) * 2 ^ k;
  field_lo : 0 <= k;
  field_len : 0 < n
}.

(** Instances for concrete masks, by computation. *)
Ltac solve_field := split; [vm_compute; reflexivity|lia|lia].

Lemma field_testbit mask k n i :
  Field mask k n -> 0 <= i -> Z.testbit mask i = (k <=? i) && (i <? k + n).
Proof.
  intros [-> Hk Hn] Hi. rewrite <- (shl_mul (2 ^ n - 1)) by lia.
  replace (2 ^ n - 1) with (Z.ones n) by (rewrite Z.ones_equiv; lia).
  rewrite Z.shiftl_spec by lia. destruct (Z.leb_spec k i); cbn [andb].
  - rewrite Z.testbit_ones by lia. case_bool; cbn; done || lia.
  - by apply Z.testbit_neg_r; lia.
Qed.

Lemma lowbit_field mask k n : Field mask k n -> lowbit mask = 2 ^ k.
Proof.
  intros F. pose proof F as [_ Hk Hn]. apply Z.bits_inj'. intros i Hi. unfold lowbit.
  rewrite Z.land_spec, Z.lnot_spec, Z.shiftl_spec, Z.pow2_bits_eqb by lia.
  rewrite (field_testbit mask k n i) by done.
  destruct (decide (i = 0)) as [->|].
  - rewrite Z.testbit_neg_r by lia. case_bool; cbn; done || lia.
  - rewrite (field_testbit mask k n (i - 1)) by (done || lia). case_bool; cbn; done || lia.
Qed.

Lemma get_field_spec reg mask k n :
  Field mask k n -> get_field reg mask = (reg / 2 ^ k) mod 2 ^ n.
Proof.
  intros F. unfold get_field. rewrite (lowbit_field mask k n) by done.
  destruct F as [-> Hk Hn]. rewrite land_field by lia.
  apply Z.div_mul. pose proof (pow2_pos k Hk). lia.
Qed.

Lemma get_field_range reg mask k n : Field mask k n -> in_range n (get_field reg mask).
Proof.
  intros F. rewrite (get_field_spec reg mask k n) by done. apply Z.mod_pos_bound, pow2_pos.
  destruct F; lia.
Qed.

(** What was written is what is read. *)
Lemma get_set_field reg mask k n val :
  Field mask k n -> get_field (set_field reg mask val) mask = val mod 2 ^ n.
Proof.
  intros F. unfold get_field, set_field. rewrite (lowbit_field mask k n) by done.
  assert (((reg .& Z.lnot mask) .| ((val * 2 ^ k) .& mask)) .& mask = (val * 2 ^ k) .& mask) as ->.
  { apply Z.bits_inj'. intros i Hi. rewrite !Z.land_spec, Z.lor_spec, !Z.land_spec, Z.lnot_spec by lia.
    by destruct (Z.testbit mask i), (Z.testbit reg i), (Z.testbit _ i). }
  destruct F as [-> Hk Hn]. pose proof (pow2_pos k Hk). rewrite land_field by lia.
  by rewrite !Z.div_mul by lia.
Qed.

(** The other fields are kept. *)
Lemma get_set_field_other reg mask mask' val :
  mask .& mask' = 0 -> get_field (set_field reg mask val) mask' = get_field reg mask'.
Proof.
  intros Hd. unfold get_field, set_field. f_equal. apply Z.bits_inj'. intros i Hi.
  rewrite !Z.land_spec, Z.lor_spec, !Z.land_spec, Z.lnot_spec by lia.
  assert (Z.testbit mask i && Z.testbit mask' i = false) as E
    by (by rewrite <- Z.land_spec, Hd, Z.bits_0).
  by destruct (Z.testbit mask i), (Z.testbit mask' i), (Z.testbit reg i), (Z.testbit _ i).
Qed.

Lemma set_set_field reg mask val val' :
  set_field (set_field reg mask val) mask val' = set_field reg mask val'.
Proof.
  unfold set_field. apply Z.bits_inj'. intros i Hi.
  rewrite !Z.lor_spec, !Z.land_spec, !Z.lor_spec, !Z.land_spec, !Z.lnot_spec by lia.
  destruct (Z.testbit mask i), (Z.testbit reg i), (Z.testbit (val * _) i),
    (Z.testbit (val' * _) i); done.
Qed.

Lemma set_get_field reg mask k n :
  Field mask k n -> set_field reg mask (get_field reg mask) = reg.
Proof.
  intros F. unfold set_field. pose proof (get_field_spec reg mask k n F) as E.
  rewrite E, (lowbit_field mask k n F).
  assert (((reg / 2 ^ k) mod 2 ^ n * 2 ^ k) .& mask = reg .& mask) as ->.
  { destruct F as [-> Hk Hn]. rewrite <- land_field by lia.
    by rewrite <- Z.land_assoc, Z.land_diag. }
  apply Z.bits_inj'. intros i Hi. rewrite Z.lor_spec, !Z.land_spec, Z.lnot_spec by lia.
  by destruct (Z.testbit mask i), (Z.testbit reg i).
Qed.

Lemma set_field_testbit reg mask k n val i :
  Field mask k n -> 0 <= i ->
  Z.testbit (set_field reg mask val) i
  = if (k <=? i) && (i <? k + n) then Z.testbit val (i - k) else Z.testbit reg i.
Proof.
  intros F Hi. unfold set_field.
  rewrite Z.lor_spec, !Z.land_spec, Z.lnot_spec, (lowbit_field mask k n) by done.
  pose proof F as [_ Hk _]. rewrite <- shl_mul, Z.shiftl_spec, (field_testbit mask k n) by done.
  destruct ((k <=? i) && (i <? k + n)); cbn; by rewrite ?andb_true_r, ?andb_false_r, ?orb_false_r.
Qed.

(** A mask that fits in the register keeps it in range. *)
Lemma set_field_range w reg mask val :
  0 <= w -> in_range w reg -> in_range w mask -> in_range w (set_field reg mask val).
Proof.
  intros Hw Hr Hm. apply in_range_bits; [done|]. intros i Hi. unfold set_field.
  by rewrite Z.lor_spec, !Z.land_spec, (testbit_above reg w i), (testbit_above mask w i),
    andb_false_r by done.
Qed.

(** ** Immediates

    The instruction formats of the ISA manual, as encoders of a 32-bit (or
    16-bit) instruction word; [fetch32] and [fetch16] are the sign extensions
    made when an instruction is fetched. *)
Definition fetch32 (w : Z) : Z := u64 (s32 w).
Definition fetch16 (w : Z) : Z := u64 (s16 w).

Definition bits (x lo len : Z) : Z := (x / 2 ^ lo) mod 2 ^ len.

Definition enc_I (imm rs1 f3 rd op : Z) : Z :=
  bits imm 0 12 * 2 ^ 20 + rs1 * 2 ^ 15 + f3 * 2 ^ 12 + rd * 2 ^ 7 + op.
Definition enc_S (imm rs2 rs1 f3 op : Z) : Z :=
  bits imm 5 7 * 2 ^ 25 + rs2 * 2 ^ 20 + rs1 * 2 ^ 15 + f3 * 2 ^ 12 + bits imm 0 5 * 2 ^ 7 + op.
Definition enc_SB (imm rs2 rs1 f3 op : Z) : Z :=
  bits imm 12 1 * 2 ^ 31 + bits imm 5 6 * 2 ^ 25 + rs2 * 2 ^ 20 + rs1 * 2 ^ 15 + f3 * 2 ^ 12
  + bits imm 1 4 * 2 ^ 8 + bits imm 11 1 * 2 ^ 7 + op.
Definition enc_U (imm rd op : Z) : Z := bits imm 12 20 * 2 ^ 12 + rd * 2 ^ 7 + op.
Definition enc_UJ (imm rd op : Z) : Z :=
  bits imm 20 1 * 2 ^ 31 + bits imm 1 10 * 2 ^ 21 + bits imm 11 1 * 2 ^ 20
  + bits imm 12 8 * 2 ^ 12 + rd * 2 ^ 7 + op.
Definition enc_CJ (imm f3 op : Z) : Z :=
  f3 * 2 ^ 13 + bits imm 11 1 * 2 ^ 12 + bits imm 4 1 * 2 ^ 11 + bits imm 8 2 * 2 ^ 9
  + bits imm 10 1 * 2 ^ 8 + bits imm 6 1 * 2 ^ 7 + bits imm 7 1 * 2 ^ 6 + bits imm 1 3 * 2 ^ 3
  + bits imm 5 1 * 2 ^ 2 + op.
Definition enc_CB (imm rs1' f3 op : Z) : Z :=
  f3 * 2 ^ 13 + bits imm 8 1 * 2 ^ 12 + bits imm 3 2 * 2 ^ 10 + rs1' * 2 ^ 7
  + bits imm 6 2 * 2 ^ 5 + bits imm 1 2 * 2 ^ 3 + bits imm 5 1 * 2 ^ 2 + op.

Lemma bits_range x lo len : 0 < len -> 0 <= bits x lo len < 2 ^ len.
Proof. intros. apply Z.mod_pos_bound, pow2_pos. lia. Qed.

(** The low bits of a fetched word are those of the word. *)
Lemma fetch_bits k w lo len :
  0 < k <= 64 -> 0 <= lo -> 0 < len -> lo + len <= k ->
  bits (u64 (sext k w)) lo len = bits w lo len.
Proof.
  intros Hk Hlo Hlen Hs. unfold bits. pose proof (pow2_pos lo Hlo). pose proof (pow2_pos len ltac:(lia)).
  assert (forall x, (x / 2 ^ lo) mod 2 ^ len = wrap (lo + len) x / 2 ^ lo) as E.
  { intros x. unfold wrap. rewrite Z.pow_add_r, Z.rem_mul_r by lia.
    apply (Z.div_unique _ _ _ (x mod 2 ^ lo)); [|lia]. left. apply Z.mod_pos_bound. lia. }
  rewrite !E. f_equal. rewrite <- (wrap_narrow _ 64), wrap_idemp, wrap_narrow by lia.
  rewrite <- (wrap_narrow (lo + len) k), wrap_sext, wrap_narrow by lia. done.
Qed.

Lemma fetch_x k w lo len :
  0 < k <= 64 -> 0 <= lo -> 0 < len < 64 -> lo + len <= k ->
  insn_x (u64 (sext k w)) lo len = bits w lo len.
Proof. intros. rewrite insn_x_spec by lia. by apply fetch_bits; lia. Qed.

(** A signed field that ends at the top bit of the word. *)
Lemma fetch_xs k w lo len :
  0 < k <= 64 -> 0 <= lo -> 0 < len < 64 -> lo + len <= k ->
  insn_xs (u64 (sext k w)) lo len = u64 (sext len (bits w lo len)).
Proof.
  intros. rewrite insn_xs_spec by lia. f_equal.
  rewrite <- sext_wrap by lia. f_equal. by apply (fetch_bits k w lo len); lia.
Qed.

Lemma fetch_sign w : in_range 32 w -> imm_sign (fetch32 w) = if w <? 2 ^ 31 then 0 else 2 ^ 64 - 1.
Proof.
  unfold in_range, imm_sign, fetch32. intros Hw. rewrite insn_xs_spec by lia.
  rewrite (sext_cases 32) by (unfold in_range; lia). change (32 - 1) with 31.
  destruct (Z.ltb_spec w (2 ^ 31)).
  - rewrite (wrap_small 64 w), Z.div_small by lia. done.
  - assert (u64 (w - 2 ^ 32) / 2 ^ 63 = 1) as ->; [|done].
    assert (u64 (w - 2 ^ 32) = w - 2 ^ 32 + 2 ^ 64) as ->
      by (symmetry; apply (Z.mod_unique _ _ (-1)); lia).
    symmetry. apply (Z.div_unique _ _ _ (w - 2 ^ 32 + 2 ^ 64 - 2 ^ 63)); lia.
Qed.

(** A field of a sum of fields. *)
Lemma bits_of w lo len hi f low :
  0 <= lo -> 0 < len -> w = hi * 2 ^ (lo + len) + f * 2 ^ lo + low ->
  0 <= f < 2 ^ len -> 0 <= low < 2 ^ lo -> bits w lo len = f.
Proof.
  intros Hlo Hlen -> Hf Hl. unfold bits. rewrite Z.pow_add_r by lia.
  replace (hi * (2 ^ lo * 2 ^ len) + f * 2 ^ lo + low) with (low + (hi * 2 ^ len + f) * 2 ^ lo) by lia.
  rewrite Z.div_add, (Z.div_small low), Z.add_0_l by lia.
  by rewrite Z.add_comm, Z.mod_add, Z.mod_small by lia.
Qed.

(** The fields of a sum of fields, by arithmetic. *)
Ltac field_values :=
  repeat match goal with
  | |- context [bits ?x ?lo ?len] =>
      lazymatch goal with
      | H : 0 <= bits x lo len < _ |- _ => fail
      | _ => pose proof (bits_range x lo len ltac:(lia))
      end
  end;
  repeat match goal with
  | H : 0 <= bits ?x ?lo ?len < _ |- _ => revert H; generalize (bits x lo len)
  end; intros.

Ltac enc_field enc w lo len v :=
  assert (bits w lo len = v) as -> by (unfold enc; field_values; unfold bits; zdm).

(** A 64-bit sum of immediate fields is the immediate. *)
Lemma imm_of_wrap x imm :
  - 2 ^ 31 <= imm < 2 ^ 31 -> (exists k, x = imm + k * 2 ^ 64) -> s64 x = imm.
Proof.
  intros Hi [k ->]. rewrite <- (sext_small 64 imm) at 2 by lia. apply sext_eq_wrap; [lia|].
  unfold wrap. by rewrite Z.mod_add by lia.
Qed.

Lemma sign_fill (b : bool) n :
  0 <= n -> (if b then 0 else 2 ^ 64 - 1) * 2 ^ n
            = (if b then 0 else - 2 ^ n) + b2z (negb b) * 2 ^ n * 2 ^ 64.
Proof. intros. destruct b; cbn [negb Z.b2z]; lia. Qed.

Lemma sb_imm_roundtrip imm r2 r1 f3 op :
  - 2 ^ 12 <= imm < 2 ^ 12 -> imm mod 2 = 0 -> in_range 5 r2 -> in_range 5 r1 ->
  in_range 3 f3 -> in_range 7 op ->
  sb_imm (fetch32 (enc_SB imm r2 r1 f3 op)) = imm.
Proof.
  intros Hi He H2 H1 H3 Ho. unfold in_range in *. unfold sb_imm.
  assert (in_range 32 (enc_SB imm r2 r1 f3 op)) as Hw
    by (unfold in_range, enc_SB; field_values; lia).
  rewrite fetch_sign by done. unfold fetch32. rewrite !fetch_x by lia.
  enc_field enc_SB (enc_SB imm r2 r1 f3 op) 8 4 (bits imm 1 4).
  enc_field enc_SB (enc_SB imm r2 r1 f3 op) 25 6 (bits imm 5 6).
  enc_field enc_SB (enc_SB imm r2 r1 f3 op) 7 1 (bits imm 11 1).
  assert ((enc_SB imm r2 r1 f3 op <? 2 ^ 31) = (bits imm 12 1 =? 0)) as ->.
  { unfold enc_SB. field_values. case_bool; done || lia. }
  rewrite !shl_mul, sign_fill by lia. apply imm_of_wrap; [lia|].
  eexists. rewrite Z.add_assoc. f_equal. unfold bits. case_bool; zdm.
Qed.

Lemma uj_imm_roundtrip imm r op :
  - 2 ^ 20 <= imm < 2 ^ 20 -> imm mod 2 = 0 -> in_range 5 r -> in_range 7 op ->
  uj_imm (fetch32 (enc_UJ imm r op)) = imm.
Proof.
  intros Hi He Hr Ho. unfold in_range in *. unfold uj_imm.
  assert (in_range 32 (enc_UJ imm r op)) as Hw
    by (unfold in_range, enc_UJ; field_values; lia).
  rewrite fetch_sign by done. unfold fetch32. rewrite !fetch_x by lia.
  enc_field enc_UJ (enc_UJ imm r op) 21 10 (bits imm 1 10).
  enc_field enc_UJ (enc_UJ imm r op) 20 1 (bits imm 11 1).
  enc_field enc_UJ (enc_UJ imm r op) 12 8 (bits imm 12 8).
  assert ((enc_UJ imm r op <? 2 ^ 31) = (bits imm 20 1 =? 0)) as ->.
  { unfold enc_UJ. field_values. case_bool; done || lia. }
  rewrite !shl_mul, sign_fill by lia. apply imm_of_wrap; [lia|].
  eexists. rewrite Z.add_assoc. f_equal. unfold bits. case_bool; zdm.
Qed.

Lemma s_imm_roundtrip imm r2 r1 f3 op :
  - 2 ^ 11 <= imm < 2 ^ 11 -> in_range 5 r2 -> in_range 5 r1 -> in_range 3 f3 -> in_range 7 op ->
  s_imm (fetch32 (enc_S imm r2 r1 f3 op)) = imm.
Proof.
  intros Hi H2 H1 H3 Ho. unfold in_range in *. unfold s_imm, fetch32.
  rewrite fetch_x, fetch_xs by lia.
  enc_field enc_S (enc_S imm r2 r1 f3 op) 7 5 (bits imm 0 5).
  enc_field enc_S (enc_S imm r2 r1 f3 op) 25 7 (bits imm 5 7).
  rewrite shl_mul by lia. apply imm_of_wrap; [lia|]. unfold wrap.
  exists (- (sext 7 (bits imm 5 7) / 2 ^ 64) * 2 ^ 5).
  rewrite Z.mod_eq by lia. rewrite sext_cases by (lia || by apply bits_range).
  unfold bits. case_bool; zdm.
Qed.

(** The whole word, as a signed number. *)
Lemma fetch_signed k w : 0 < k <= 64 -> s64 (u64 (sext k w)) = sext k w.
Proof.
  intros Hk. rewrite sext_wrap by lia. pose proof (sext_range k w ltac:(lia)).
  pose proof (pow2_le (k - 1) 63 ltac:(lia)). apply sext_small; [lia|]. cbn. lia.
Qed.

Lemma i_imm_roundtrip imm r1 f3 r op :
  - 2 ^ 11 <= imm < 2 ^ 11 -> in_range 5 r1 -> in_range 3 f3 -> in_range 5 r -> in_range 7 op ->
  i_imm (fetch32 (enc_I imm r1 f3 r op)) = imm.
Proof.
  intros Hi H1 H3 Hr Ho. unfold in_range in *. unfold i_imm, fetch32.
  rewrite fetch_signed, shr_div by lia.
  assert (in_range 32 (enc_I imm r1 f3 r op)) as Hw
    by (unfold in_range, enc_I; field_values; lia).
  rewrite sext_cases by (done || lia). unfold enc_I, bits. case_bool; zdm.
Qed.

Lemma u_imm_roundtrip imm r op :
  - 2 ^ 31 <= imm < 2 ^ 31 -> imm mod 2 ^ 12 = 0 -> in_range 5 r -> in_range 7 op ->
  u_imm (fetch32 (enc_U imm r op)) = imm.
Proof.
  intros Hi He Hr Ho. unfold in_range in *. unfold u_imm, fetch32.
  rewrite fetch_signed, shr_div, shl_mul by lia.
  assert (in_range 32 (enc_U imm r op)) as Hw
    by (unfold in_range, enc_U; field_values; lia).
  rewrite sext_cases by (done || lia). unfold enc_U, bits. case_bool; zdm.
Qed.

(** The one-bit sign of a compressed immediate. *)
Lemma sign_bit x n :
  0 <= n -> 0 <= x < 2 ^ 1 ->
  u64 (sext 1 x) .<< n = - x * 2 ^ n + x * 2 ^ n * 2 ^ 64.
Proof.
  intros Hn Hx. rewrite shl_mul by lia. assert (x = 0 \/ x = 1) as [-> | ->] by lia.
  - done.
  - change (u64 (sext 1 1)) with (2 ^ 64 - 1). lia.
Qed.

Lemma rvc_j_imm_roundtrip imm f3 op :
  - 2 ^ 11 <= imm < 2 ^ 11 -> imm mod 2 = 0 -> in_range 3 f3 -> in_range 2 op ->
  rvc_j_imm (fetch16 (enc_CJ imm f3 op)) = imm.
Proof.
  intros Hi He H3 Ho. unfold in_range in *. unfold rvc_j_imm, fetch16.
  rewrite !fetch_x, fetch_xs by lia.
  enc_field enc_CJ (enc_CJ imm f3 op) 3 3 (bits imm 1 3).
  enc_field enc_CJ (enc_CJ imm f3 op) 11 1 (bits imm 4 1).
  enc_field enc_CJ (enc_CJ imm f3 op) 2 1 (bits imm 5 1).
  enc_field enc_CJ (enc_CJ imm f3 op) 7 1 (bits imm 6 1).
  enc_field enc_CJ (enc_CJ imm f3 op) 6 1 (bits imm 7 1).
  enc_field enc_CJ (enc_CJ imm f3 op) 9 2 (bits imm 8 2).
  enc_field enc_CJ (enc_CJ imm f3 op) 8 1 (bits imm 10 1).
  enc_field enc_CJ (enc_CJ imm f3 op) 12 1 (bits imm 11 1).
  rewrite sign_bit by (lia || by apply bits_range). rewrite !shl_mul by lia.
  apply imm_of_wrap; [lia|]. eexists. rewrite Z.add_assoc. f_equal. unfold bits. zdm.
Qed.

Lemma rvc_b_imm_roundtrip imm r f3 op :
  - 2 ^ 8 <= imm < 2 ^ 8 -> imm mod 2 = 0 -> in_range 3 r -> in_range 3 f3 -> in_range 2 op ->
  rvc_b_imm (fetch16 (enc_CB imm r f3 op)) = imm.
Proof.
  intros Hi He Hr H3 Ho. unfold in_range in *. unfold rvc_b_imm, fetch16.
  rewrite !fetch_x, fetch_xs by lia.
  enc_field enc_CB (enc_CB imm r f3 op) 3 2 (bits imm 1 2).
  enc_field enc_CB (enc_CB imm r f3 op) 10 2 (bits imm 3 2).
  enc_field enc_CB (enc_CB imm r f3 op) 2 1 (bits imm 5 1).
  enc_field enc_CB (enc_CB imm r f3 op) 5 2 (bits imm 6 2).
  enc_field enc_CB (enc_CB imm r f3 op) 12 1 (bits imm 8 1).
  rewrite sign_bit by (lia || by apply bits_range). rewrite !shl_mul by lia.
  apply imm_of_wrap; [lia|]. eexists. rewrite Z.add_assoc. f_equal. unfold bits. zdm.
Qed.

(** ** The laws as a whole *)

(** C34: Decoding inverts encoding: whatever the other fields of the instruction, the
    immediate of the I, S, SB, U, UJ formats and of the compressed jumps and
    branches is read back, sign included, over its whole range. *)
Theorem immediates_roundtrip imm r1 r2 r f3 op cop cr :
  in_range 5 r1 -> in_range 5 r2 -> in_range 5 r -> in_range 3 f3 -> in_range 7 op ->
  in_range 2 cop -> in_range 3 cr ->
  (- 2 ^ 11 <= imm < 2 ^ 11 ->
     i_imm (fetch32 (enc_I imm r1 f3 r op)) = imm /\ s_imm (fetch32 (enc_S imm r2 r1 f3 op)) = imm)
  /\ (- 2 ^ 12 <= imm < 2 ^ 12 -> imm mod 2 = 0 -> sb_imm (fetch32 (enc_SB imm r2 r1 f3 op)) = imm)
  /\ (- 2 ^ 31 <= imm < 2 ^ 31 -> imm mod 2 ^ 12 = 0 -> u_imm (fetch32 (enc_U imm r op)) = imm)
  /\ (- 2 ^ 20 <= imm < 2 ^ 20 -> imm mod 2 = 0 -> uj_imm (fetch32 (enc_UJ imm r op)) = imm)
  /\ (- 2 ^ 11 <= imm < 2 ^ 11 -> imm mod 2 = 0 -> rvc_j_imm (fetch16 (enc_CJ imm f3 cop)) = imm)
  /\ (- 2 ^ 8 <= imm < 2 ^ 8 -> imm mod 2 = 0 -> rvc_b_imm (fetch16 (enc_CB imm cr f3 cop)) = imm).
Proof.
  intros ? ? ? ? ? ? ?. split; [intros; split|repeat (split; [intros|])]; intros.
  - by apply i_imm_roundtrip.
  - by apply s_imm_roundtrip.
  - by apply sb_imm_roundtrip.
  - by apply u_imm_roundtrip.
  - by apply uj_imm_roundtrip.
  - by apply rvc_j_imm_roundtrip.
  - by apply rvc_b_imm_roundtrip.
Qed.

Lemma immediates_roundtrip_witness :
  sb_imm (fetch32 (enc_SB (-4096) 31 0 7 0x63)) = -4096 /\ enc_SB (-4096) 31 0 7 0x63 = 0x81F07063.
Proof.
  split; [|reflexivity].
  refine (proj1 (proj2 (immediates_roundtrip (-4096) 0 31 0 7 0x63 0 0 _ _ _ _ _ _ _)) _ _); concrete.
Defined.

(** [get_field] and [set_field] on a contiguous field: what is written is read back,
    truncated to the field; other fields keep their value; the last write counts;
    writing what was read changes nothing; a field is within its width. *)
Theorem field_laws mask k n reg mask' v w :
  Field mask k n -> mask .& mask' = 0 ->
  get_field (set_field reg mask v) mask = v mod 2 ^ n
  /\ get_field (set_field reg mask v) mask' = get_field reg mask'
  /\ set_field (set_field reg mask v) mask w = set_field reg mask w
  /\ set_field reg mask (get_field reg mask) = reg
  /\ in_range n (get_field reg mask).
Proof.
  intros F Hd. split; [by apply (get_set_field _ _ k)|]. split; [by apply get_set_field_other|].
  split; [by apply set_set_field|]. split; [by apply (set_get_field _ _ k n)|].
  by apply (get_field_range _ _ k).
Qed.

Lemma field_laws_witness :
  get_field (set_field 0 0x1800 7) 0x1800 = 7 mod 2 ^ 2
  /\ get_field (set_field 0xE000 0x1800 7) 0x6000 = get_field 0xE000 0x6000.
Proof.
  split.
  - apply (field_laws 0x1800 11 2 0 0x6000 7 0); [split; concrete|reflexivity].
  - apply (field_laws 0x1800 11 2 0xE000 0x6000 7 0); [split; concrete|reflexivity].
Defined.
