(* ===== verification/Mulhi.v ===== *)
(** riscv/mulhi.h: the high word of a 64 by 64 bit product. *)
From S2P Require Import Prelude.

Definition mulhu (a b : Z) : Z :=
  let a0 := u32 a in let a1 := a .>> 32 in
  let b0 := u32 b in let b1 := b .>> 32 in
  let t := u64 (u64 (a1 * b0) + (u64 (a0 * b0) .>> 32)) in
  let y1 := u32 t in
  let y2 := u32 (t .>> 32) in
  let t := u64 (u64 (a0 * b1) + y1) in
  let t := u64 (u64 (a1 * b1) + y2 + (t .>> 32)) in
  let y2 := u32 t in
  let y3 := u32 (t .>> 32) in
  (y3 .<< 32) .| y2.

(** The result is an [int64_t]. *)
Definition mulh (a b : Z) : Z :=
  let negate := negb (eqb (a <? 0) (b <? 0)) in
  let res := mulhu (u64 (if a <? 0 then - a else a)) (u64 (if b <? 0 then - b else b)) in
  s64 (if negate then u64 (u64 (Z.lnot res) + b2z (s64 (a * b) =? 0)) else res).

Definition mulhsu (a b : Z) : Z :=
  let negate := a <? 0 in
  let res := mulhu (u64 (if a <? 0 then - a else a)) b in
  s64 (if negate then u64 (u64 (Z.lnot res) + b2z (u64 (a * b) =? 0)) else res).

(** ** The products of the halves, without overflow *)

Lemma half_product x y :
  0 <= x < 2 ^ 32 -> 0 <= y < 2 ^ 32 -> 0 <= x * y <= (2 ^ 32 - 1) * (2 ^ 32 - 1).
Proof. intros. nia. Qed.

(** From the four partial products on. *)
Lemma mulhu_carries p00 p01 p10 p11 :
  0 <= p00 <= (2 ^ 32 - 1) * (2 ^ 32 - 1) -> 0 <= p01 <= (2 ^ 32 - 1) * (2 ^ 32 - 1) ->
  0 <= p10 <= (2 ^ 32 - 1) * (2 ^ 32 - 1) -> 0 <= p11 <= (2 ^ 32 - 1) * (2 ^ 32 - 1) ->
  let t1 := u64 (p10 + p00 / 2 ^ 32) in
  let t2 := u64 (p01 + u32 t1) in
  let t3 := u64 (p11 + u32 (t1 / 2 ^ 32) + t2 / 2 ^ 32) in
  (u32 (t3 / 2 ^ 32) .<< 32 .| u32 t3) = (p11 * 2 ^ 64 + (p10 + p01) * 2 ^ 32 + p00) / 2 ^ 64.
Proof.
  intros H00 H01 H10 H11. cbv zeta.
  assert (u64 (p10 + p00 / 2 ^ 32) = p10 + p00 / 2 ^ 32) as -> by (apply wrap_small; zdm).
  set (t1 := p10 + p00 / 2 ^ 32).
  assert (u64 (p01 + u32 t1) = p01 + t1 mod 2 ^ 32) as -> by (apply wrap_small; unfold wrap; zdm).
  assert (u32 (t1 / 2 ^ 32) = t1 / 2 ^ 32) as -> by (apply wrap_small; unfold t1; zdm).
  set (t3 := p11 + t1 / 2 ^ 32 + (p01 + t1 mod 2 ^ 32) / 2 ^ 32).
  assert (0 <= t3 < 2 ^ 64) as Ht by (unfold t3, t1; zdm).
  rewrite (wrap_small 64 t3) by lia. rewrite (wrap_small 32 (t3 / _)) by zdm.
  rewrite shl_mul, (lor_add _ _ 32) by (by apply Z.mod_mul || (unfold wrap; zdm)).
  unfold wrap. transitivity t3; [zdm|]. unfold t3, t1. zdm.
Qed.

Lemma mulhu_spec a b : in_range 64 a -> in_range 64 b -> mulhu a b = a * b / 2 ^ 64.
Proof.
  unfold in_range. intros Ha Hb. unfold mulhu. rewrite !shr_div by lia.
  assert (0 <= u32 a < 2 ^ 32 /\ 0 <= u32 b < 2 ^ 32 /\ 0 <= a / 2 ^ 32 < 2 ^ 32
          /\ 0 <= b / 2 ^ 32 < 2 ^ 32) as (R1 & R2 & R3 & R4) by (unfold wrap; repeat split; zdm).
  assert (a = a / 2 ^ 32 * 2 ^ 32 + u32 a /\ b = b / 2 ^ 32 * 2 ^ 32 + u32 b) as [Ea Eb]
    by (unfold wrap; split; zdm).
  set (a0 := u32 a) in *. set (b0 := u32 b) in *. set (a1 := a / 2 ^ 32) in *.
  set (b1 := b / 2 ^ 32) in *. clearbody a0 b0 a1 b1. subst a b.
  pose proof (half_product a0 b0 R1 R2). pose proof (half_product a0 b1 R1 R4).
  pose proof (half_product a1 b0 R3 R2). pose proof (half_product a1 b1 R3 R4).
  rewrite (wrap_small 64 (a1 * b0)), (wrap_small 64 (a0 * b0)), (wrap_small 64 (a0 * b1)),
    (wrap_small 64 (a1 * b1)) by lia.
  pose proof (mulhu_carries (a0 * b0) (a0 * b1) (a1 * b0) (a1 * b1)) as E. cbv zeta in E |- *.
  rewrite E by lia. f_equal. lia.
Qed.

(** Complementing a two-word number: the high word of the negation. *)
Lemma negated_high p :
  0 <= p < 2 ^ 128 -> 
  s64 (u64 (u64 (Z.lnot (p / 2 ^ 64)) + b2z (p mod 2 ^ 64 =? 0))) = s64 (- p / 2 ^ 64).
Proof.
  intros Hp. apply sext_eq_wrap; [lia|]. rewrite wrap_idemp, wrap_add_idemp_l by lia. f_equal.
  unfold Z.lnot. case_bool; cbn [Z.b2z]; zdm.
Qed.

(** [mulh]: the high word of the signed product.  The negation of the most
    negative number and the product of the low words wrap around. *)
Lemma mulh_spec a b :
  - 2 ^ 63 <= a < 2 ^ 63 -> - 2 ^ 63 <= b < 2 ^ 63 -> mulh a b = a * b / 2 ^ 64.
Proof.
  intros Ha Hb. unfold mulh. cbv zeta.
  assert (forall x, - 2 ^ 63 <= x < 2 ^ 63 -> u64 (if x <? 0 then - x else x) = Z.abs x) as Habs.
  { intros x Hx. rewrite wrap_small; case_bool; lia. }
  rewrite !Habs by done. rewrite mulhu_spec by (unfold in_range; lia). rewrite <- Z.abs_mul.
  assert (- 2 ^ 126 <= a * b <= 2 ^ 126) as Hab by nia.
  transitivity (s64 (a * b / 2 ^ 64)).
  2: { apply sext_small; [lia|]. cbn. zdm. }
  assert ((s64 (a * b) =? 0) = (Z.abs (a * b) mod 2 ^ 64 =? 0)) as ->.
  { unfold sext. destruct (Z.abs_spec (a * b)) as [[_ ->]|[_ ->]]; case_bool; done || zdm. }
  destruct (Z.ltb_spec a 0), (Z.ltb_spec b 0); cbn [eqb negb].
  - rewrite Z.abs_eq by nia. done.
  - rewrite negated_high by lia. rewrite Z.abs_neq by nia. by rewrite Z.opp_involutive.
  - rewrite negated_high by lia. rewrite Z.abs_neq by nia. by rewrite Z.opp_involutive.
  - rewrite Z.abs_eq by nia. done.
Qed.

Lemma mulhsu_spec a b :
  - 2 ^ 63 <= a < 2 ^ 63 -> in_range 64 b -> mulhsu a b = a * b / 2 ^ 64.
Proof.
  unfold in_range. intros Ha Hb. unfold mulhsu. cbv zeta.
  assert (u64 (if a <? 0 then - a else a) = Z.abs a) as -> by (rewrite wrap_small; case_bool; lia).
  rewrite mulhu_spec by (unfold in_range; lia).
  replace (Z.abs a * b) with (Z.abs (a * b)) by (rewrite Z.abs_mul; lia).
  assert (- 2 ^ 127 <= a * b <= 2 ^ 127) as Hab by nia.
  transitivity (s64 (a * b / 2 ^ 64)).
  2: { apply sext_small; [lia|]. cbn. split; [zdm|]. apply Z.div_lt_upper_bound; nia. }
  assert ((u64 (a * b) =? 0) = (Z.abs (a * b) mod 2 ^ 64 =? 0)) as ->.
  { unfold wrap. destruct (Z.abs_spec (a * b)) as [[_ ->]|[_ ->]]; case_bool; done || zdm. }
  destruct (Z.ltb_spec a 0).
  - rewrite negated_high by lia. rewrite Z.abs_neq by nia. by rewrite Z.opp_involutive.
  - rewrite Z.abs_eq by nia. done.
Qed.

(** C40: The upper 64 bits of the 128-bit products, unsigned, signed and mixed, computed
    by 32-bit halves. *)
Theorem mulhi_correct a b :
  (in_range 64 a -> in_range 64 b -> mulhu a b = a * b / 2 ^ 64)
  /\ (- 2 ^ 63 <= a < 2 ^ 63 -> - 2 ^ 63 <= b < 2 ^ 63 -> mulh a b = a * b / 2 ^ 64)
  /\ (- 2 ^ 63 <= a < 2 ^ 63 -> in_range 64 b -> mulhsu a b = a * b / 2 ^ 64).
Proof. split; [apply mulhu_spec|]. split; [apply mulh_spec|apply mulhsu_spec]. Qed.

Lemma mulhi_correct_witness :
  mulh (- 2 ^ 63) (- 2 ^ 63) = 2 ^ 62 /\ mulhsu (-1) (2 ^ 64 - 1) = -1.
Proof.
  split.
  - exact (proj1 (proj2 (mulhi_correct (- 2 ^ 63) (- 2 ^ 63))) ltac:(concrete) ltac:(concrete)).
  - exact (proj2 (proj2 (mulhi_correct (-1) (2 ^ 64 - 1))) ltac:(concrete) ltac:(concrete)).
Defined.
