(* ===== verification/Decoder.v ===== *)
(** riscv/processor.cc: instruction decoding ([decode_insn], [register_insn],
    [build_opcode_map], [register_base_instructions]).  The decoder searches a
    list of encodings linearly; it remembers the results in a hash table and
    reorders the list as it goes. *)
From stdpp Require Import sorting.
From S2P Require Import Prelude Encoding.

(** [insn_desc_t]; the two functions [rv32] and [rv64] are one [insn_func]. *)
Record insn_desc_t := InsnDesc { i_match : Z; i_mask : Z; i_func : insn_func }.

(** The decoder's part of [processor_t]. *)
Record decoder := Decoder {
  instructions : list insn_desc_t;
  opcode_cache : gmap Z insn_desc_t
}.

Definition OPCODE_CACHE_SIZE : Z := 8191.
Definition empty_entry : insn_desc_t := InsnDesc 0 0 illegal_instruction.
Definition cache_entry (c : gmap Z insn_desc_t) (idx : Z) : insn_desc_t :=
  default empty_entry (c !! idx).

(** ** Building the list *)

(** [cmp(lhs, rhs)] of [build_opcode_map], or equality of the keys. *)
Definition desc_le (a b : insn_desc_t) : Prop :=
  i_match b < i_match a \/ (i_match a = i_match b /\ i_mask b <= i_mask a).
#[export] Instance desc_le_dec a b : Decision (desc_le a b).
Proof. unfold desc_le. apply _. Defined.

Definition register_insn (desc : insn_desc_t) (l : list insn_desc_t) : list insn_desc_t :=
  l ++ [desc].
Definition build_opcode_map (l : list insn_desc_t) : decoder :=
  Decoder (merge_sort desc_le l) ∅.
Definition register_base_instructions (l : list insn_desc_t) : decoder :=
  let l := foldl (fun l f => register_insn (InsnDesc (insn_match f) (insn_mask f) f) l) l insn_list in
  build_opcode_map (register_insn (InsnDesc 0 0 illegal_instruction) l).

(** ** Decoding *)

Definition insn_matches (bits : Z) (d : insn_desc_t) : bool := (bits .& i_mask d) =? i_match d.

(** The linear search: the list before the entry found, in reverse order, the
    entry, and the list after it.  [None]: the search runs off the list. *)
Fixpoint linear_search (bits : Z) (before l : list insn_desc_t)
    : option (list insn_desc_t * insn_desc_t * list insn_desc_t) :=
  match l with
  | [] => None
  | p :: after =>
      if insn_matches bits p then Some (before, p, after)
      else linear_search bits (p :: before) after
  end.

(** Move to the front, unless a neighbour has the same match. *)
Definition move_to_front (before : list insn_desc_t) (p : insn_desc_t) (after : list insn_desc_t)
    : list insn_desc_t :=
  match before, after with
  | prev :: _, next :: _ =>
      if negb (i_mask p =? 0) && (negb (i_match p =? i_match prev) && negb (i_match p =? i_match next))
      then p :: rev_append before after
      else rev_append before (p :: after)
  | _, _ => rev_append before (p :: after)
  end.

Definition decode_insn (bits : Z) (d : decoder) : option (insn_func * decoder) :=
  let idx := bits mod OPCODE_CACHE_SIZE in
  let desc := cache_entry (opcode_cache d) idx in
  if bits =? i_match desc then Some (i_func desc, d)
  else
    '(before, p, after) ← linear_search bits [] (instructions d);
    Some (i_func p,
          Decoder (move_to_front before p after)
                  (<[idx := InsnDesc bits (i_mask p) (i_func p)]> (opcode_cache d))).

(** ** The reference: the first entry of the list that matches *)

Fixpoint first_match (bits : Z) (l : list insn_desc_t) : option insn_func :=
  match l with
  | [] => None
  | p :: l => if insn_matches bits p then Some (i_func p) else first_match bits l
  end.

(** No instruction word matches both entries. *)
Definition disjoint_insns (a b : insn_desc_t) : bool :=
  negb (((i_match a .^ i_match b) .& (i_mask a .& i_mask b)) =? 0).

Definition absent (m : Z) (l : list insn_desc_t) : bool :=
  forallb (fun c => negb (m =? i_match c)) l.

(** Entries with the same match are next to each other. *)
Fixpoint contiguous (l : list insn_desc_t) : bool :=
  match l with
  | a :: (b :: _) as tl =>
      ((i_match a =? i_match b) || absent (i_match a) tl)
      && contiguous tl
  | _ => true
  end.

(** Every entry but the last has a mask, and is disjoint from the entries with
    another match; the last one matches everything. *)
Definition catch_all (d : insn_desc_t) : bool := (i_mask d =? 0) && (i_match d =? 0).
Definition separated (l : list insn_desc_t) : bool :=
  forallb (fun a => (i_mask a =? 0)
    || forallb (fun b => (i_mask b =? 0) || (i_match a =? i_match b) || disjoint_insns a b) l) l.

Record wf_list (l : list insn_desc_t) : Prop := {
  wf_contiguous : contiguous l = true;
  wf_separated : separated l = true;
  wf_last : exists init c, l = init ++ [c] /\ catch_all c = true
                           /\ Forall (fun d => i_mask d <> 0) init
}.

(** ** Searching *)

Lemma linear_search_spec bits before l b p after :
  linear_search bits before l = Some (b, p, after) ->
  rev b ++ p :: after = rev before ++ l /\ insn_matches bits p = true
  /\ first_match bits l = Some (i_func p).
Proof.
  revert before. induction l as [|q l IH]; intros before; [done|]. cbn.
  destruct (insn_matches bits q) eqn:E.
  - intros [= -> -> ->]. done.
  - intros (H1 & H2 & H3)%IH. rewrite H1. cbn. by rewrite <- app_assoc.
Qed.

Lemma linear_search_total bits before l :
  (exists d, d ∈ l /\ insn_matches bits d = true) ->
  exists r, linear_search bits before l = Some r.
Proof.
  revert before. induction l as [|q l IH]; intros before (d & Hd & Hm); [by apply elem_of_nil in Hd|].
  cbn. destruct (insn_matches bits q) eqn:E; [by eexists|].
  apply IH. exists d. apply elem_of_cons in Hd as [->|]; [congruence|done].
Qed.

Lemma first_match_app bits l1 l2 :
  Forall (fun d => insn_matches bits d = false) l1 ->
  first_match bits (l1 ++ l2) = first_match bits l2.
Proof. induction 1 as [|d l Hd _ IH]; [done|]. cbn. by rewrite Hd. Qed.

Lemma first_match_skip bits l1 p l2 :
  insn_matches bits p = false -> first_match bits (l1 ++ p :: l2) = first_match bits (l1 ++ l2).
Proof.
  intros Hp. induction l1 as [|d l IH]; cbn; [by rewrite Hp|]. by destruct (insn_matches bits d).
Qed.

(** Two entries that match the same word are not disjoint. *)
Lemma matches_not_disjoint bits a b :
  insn_matches bits a = true -> insn_matches bits b = true -> disjoint_insns a b = false.
Proof.
  unfold insn_matches, disjoint_insns. intros Ha%Z.eqb_eq Hb%Z.eqb_eq. rewrite <- Ha, <- Hb.
  apply negb_false_iff, Z.eqb_eq, Z.bits_inj'. intros i Hi.
  rewrite !Z.land_spec, Z.lxor_spec, !Z.land_spec, Z.bits_0.
  by destruct (Z.testbit bits i), (Z.testbit (i_mask a) i), (Z.testbit (i_mask b) i).
Qed.

(** ** Moving an entry to the front *)

Lemma absent_app m l1 l2 : absent m (l1 ++ l2) = absent m l1 && absent m l2.
Proof. apply forallb_app. Qed.

Lemma absent_cons m a l : absent m (a :: l) = negb (m =? i_match a) && absent m l.
Proof. done. Qed.

Lemma contiguous_cons a l :
  contiguous (a :: l)
  = match l with [] => true
    | b :: _ => ((i_match a =? i_match b) || absent (i_match a) l) && contiguous l end.
Proof. by destruct l. Qed.

Lemma contiguous_tail a l : contiguous (a :: l) = true -> contiguous l = true.
Proof. rewrite contiguous_cons. destruct l; [done|]. by intros [_ ?]%andb_prop. Qed.

Lemma contiguous_suffix l1 l2 : contiguous (l1 ++ l2) = true -> contiguous l2 = true.
Proof. induction l1; [done|]. intros H%contiguous_tail. auto. Qed.

(** An entry whose neighbours have other matches is the only one with its
    match. *)
Lemma alone_after prev p next l :
  contiguous (prev :: p :: next :: l) = true ->
  (i_match p =? i_match next) = false -> absent (i_match p) (next :: l) = true.
Proof.
  intros H%contiguous_tail Hn. rewrite contiguous_cons, Hn in H. by apply andb_prop in H as [? _].
Qed.

Lemma contiguous_head a l :
  contiguous (a :: l) = true ->
  absent (i_match a) l = true \/ exists b l', l = b :: l' /\ i_match b = i_match a.
Proof.
  rewrite contiguous_cons. destruct l as [|b l]; [by left|].
  intros [[H%Z.eqb_eq|H]%orb_prop _]%andb_prop; [right; eauto|by left].
Qed.

Lemma alone_before l1 prev p l2 :
  contiguous (l1 ++ prev :: p :: l2) = true ->
  (i_match p =? i_match prev) = false -> absent (i_match p) (l1 ++ [prev]) = true.
Proof.
  intros H Hp. induction l1 as [|c l1 IH]; [cbn; by rewrite Hp|].
  specialize (IH (contiguous_tail _ _ H)). rewrite <- app_comm_cons, absent_cons, IH, andb_true_r.
  destruct (Z.eqb_spec (i_match p) (i_match c)) as [E|]; [|done]. exfalso.
  apply contiguous_head in H as [H|(b & l' & E' & Eb)].
  - rewrite <- E, absent_app, !absent_cons, Z.eqb_refl in H. cbn in H.
    by rewrite !andb_false_r in H.
  - assert (absent (i_match b) [b] = false) as Hb by (cbn; by rewrite Z.eqb_refl).
    rewrite Eb, <- E in Hb. rewrite absent_app in IH.
    destruct l1 as [|d l1]; cbn [app] in E', IH; injection E' as -> _.
    + by rewrite Hb in IH.
    + rewrite absent_cons in IH. cbn in Hb. rewrite andb_true_r in Hb. by rewrite Hb in IH.
Qed.

Lemma contiguous_remove p l1 l2 :
  contiguous (l1 ++ p :: l2) = true -> absent (i_match p) l1 = true -> contiguous (l1 ++ l2) = true.
Proof.
  induction l1 as [|c l1 IH]; [by intros ?%contiguous_tail|].
  intros H Ha. rewrite absent_cons in Ha. apply andb_prop in Ha as [Hc%negb_true_iff Ha].
  specialize (IH (contiguous_tail _ _ H) Ha). cbn [app]. apply contiguous_head in H as [H|H].
  - rewrite contiguous_cons, IH. rewrite absent_app, absent_cons in H.
    apply andb_prop in H as [H1 [_ H2]%andb_prop]. rewrite absent_app, H1, H2.
    destruct (l1 ++ l2); [done|]. by rewrite orb_true_r.
  - destruct H as (b & l' & E & Eb). destruct l1 as [|d l1]; injection E as -> _.
    + by rewrite Eb, Z.eqb_refl in Hc.
    + cbn [app] in *. rewrite contiguous_cons, IH, Eb. by rewrite Z.eqb_refl.
Qed.

Lemma contiguous_add p l :
  contiguous l = true -> absent (i_match p) l = true -> contiguous (p :: l) = true.
Proof. intros Hc Ha. rewrite contiguous_cons, Hc, Ha. destruct l; [done|]. by rewrite orb_true_r. Qed.

(** [separated] depends on the entries only, not on their order. *)
Lemma separated_spec l :
  separated l = true <->
  forall a b, a ∈ l -> b ∈ l -> i_mask a <> 0 -> i_mask b <> 0 -> i_match a <> i_match b ->
    disjoint_insns a b = true.
Proof.
  unfold separated. rewrite forallb_forall. split.
  - intros H a b Ha Hb Ma Mb Hn. apply list_elem_of_In in Ha, Hb.
    specialize (H a Ha). rewrite (proj2 (Z.eqb_neq _ _) Ma) in H. cbn in H.
    rewrite forallb_forall in H. specialize (H b Hb).
    by rewrite (proj2 (Z.eqb_neq _ _) Mb), (proj2 (Z.eqb_neq _ _) Hn) in H.
  - intros H a Ha. apply list_elem_of_In in Ha.
    destruct (Z.eqb_spec (i_mask a) 0) as [|Ma]; [done|]. cbn. rewrite forallb_forall.
    intros b Hb. apply list_elem_of_In in Hb.
    destruct (Z.eqb_spec (i_mask b) 0) as [|Mb]; [done|].
    destruct (Z.eqb_spec (i_match a) (i_match b)); [done|]. by apply H.
Qed.

Lemma separated_perm l l' : (forall d, d ∈ l' -> d ∈ l) -> separated l = true -> separated l' = true.
Proof. intros Hp. rewrite !separated_spec. naive_solver. Qed.

(** What moving an entry does to a well-formed list. *)
Lemma wf_move l1 prev p next l2 :
  wf_list (l1 ++ prev :: p :: next :: l2) ->
  i_mask p <> 0 -> (i_match p =? i_match prev) = false -> (i_match p =? i_match next) = false ->
  wf_list (p :: (l1 ++ [prev]) ++ next :: l2)
  /\ (forall bits, first_match bits (p :: (l1 ++ [prev]) ++ next :: l2)
                   = first_match bits (l1 ++ prev :: p :: next :: l2)).
Proof.
  intros [Hc Hs (init & c & El & Hcc & Hi)] Mp Hprev Hnext.
  pose proof (alone_before _ _ _ _ Hc Hprev) as A1.
  pose proof (alone_after _ _ _ _ (contiguous_suffix _ _ Hc) Hnext) as A2.
  replace (l1 ++ prev :: p :: next :: l2) with ((l1 ++ [prev]) ++ p :: next :: l2) in *
    by (by rewrite <- app_assoc).
  destruct (exists_last (l := next :: l2)) as (tl & c' & Etl); [done|].
  assert (init = (l1 ++ [prev]) ++ p :: tl /\ c = c') as [-> ->].
  { rewrite Etl in El. rewrite app_comm_cons, app_assoc in El.
    apply app_inj_tail in El as [<- <-]. done. }
  apply Forall_app in Hi as [Hi1 Hi2]. apply Forall_cons in Hi2 as [_ Hi2].
  split; [split|].
  - apply contiguous_add.
    + by apply (contiguous_remove p).
    + by rewrite absent_app, A1, A2.
  - eapply separated_perm, Hs. intros d. rewrite !elem_of_cons, !elem_of_app, !elem_of_cons. tauto.
  - exists (p :: (l1 ++ [prev]) ++ tl), c'. split; [by rewrite Etl, app_comm_cons, app_assoc|].
    split; [done|]. apply Forall_cons. split; [done|]. by apply Forall_app.
  - intros bits. cbn [first_match]. destruct (insn_matches bits p) eqn:E.
    + rewrite first_match_app; [cbn; by rewrite E|].
      apply Forall_forall. intros d Hd. destruct (insn_matches bits d) eqn:Ed; [|done].
      exfalso. rewrite Forall_forall in Hi1. specialize (Hi1 d Hd).
      rewrite separated_spec in Hs. 
      assert (disjoint_insns d p = true) as Hdis.
      { apply Hs; [by apply elem_of_app; left|apply elem_of_app; right; by left|by auto|done|]. intros Em. unfold absent in A1.
        rewrite forallb_forall in A1. apply list_elem_of_In in Hd. specialize (A1 d Hd).
        by rewrite Em, Z.eqb_refl in A1. }
      by rewrite (matches_not_disjoint bits d p Ed E) in Hdis.
    + by rewrite (first_match_skip bits _ p).
Qed.

Lemma move_to_front_spec bits l before p after :
  wf_list l -> linear_search bits [] l = Some (before, p, after) ->
  wf_list (move_to_front before p after)
  /\ (forall w, first_match w (move_to_front before p after) = first_match w l).
Proof.
  intros Hwf Hs. apply linear_search_spec in Hs as (E & _ & _). cbn [rev app] in E. subst l.
  unfold move_to_front. destruct before as [|prev before]; [done|].
  destruct after as [|next after]; rewrite !rev_append_rev; [done|].
  destruct (negb (i_mask p =? 0) && _) eqn:C; [|done].
  apply andb_prop in C as [Mp [Hp Hn]%andb_prop]. cbn [rev] in *.
  rewrite <- app_assoc in Hwf. rewrite <- (app_assoc _ [prev] (p :: _)). cbn [app] in *.
  apply negb_true_iff in Mp, Hp, Hn.
  destruct (wf_move (rev before) prev p next after) as [H1 H2];
    [done|by apply Z.eqb_neq in Mp|done..|]. done.
Qed.

(** ** The decoder's invariant *)

(** What a word may decode to: its first match.  Word 0 (the defined illegal
    instruction) may also hit an empty entry of the hash table. *)
Definition decodes_to (base : list insn_desc_t) (bits : Z) (f : insn_func) : Prop :=
  first_match bits base = Some f \/ (bits = 0 /\ f = illegal_instruction).

Record wf_decoder (base : list insn_desc_t) (d : decoder) : Prop := {
  wfd_list : wf_list (instructions d);
  wfd_same : forall bits, first_match bits (instructions d) = first_match bits base;
  wfd_cache : forall bits, let e := cache_entry (opcode_cache d) (bits mod OPCODE_CACHE_SIZE) in
    i_match e = bits -> decodes_to base bits (i_func e)
}.

Lemma wf_list_total bits l : wf_list l -> exists r, linear_search bits [] l = Some r.
Proof.
  intros [_ _ (init & c & -> & Hc & _)]. apply linear_search_total. exists c.
  split; [apply elem_of_app; right; by left|].
  apply andb_prop in Hc as [Hm%Z.eqb_eq He%Z.eqb_eq]. unfold insn_matches.
  by rewrite Hm, He, Z.land_0_r.
Qed.

Lemma decode_insn_spec base d bits :
  wf_decoder base d ->
  exists f d', decode_insn bits d = Some (f, d') /\ decodes_to base bits f /\ wf_decoder base d'.
Proof.
  intros Hd. pose proof Hd as [Hl Hs Hc]. unfold decode_insn. cbv zeta.
  destruct (Z.eqb_spec bits (i_match (cache_entry (opcode_cache d) (bits mod OPCODE_CACHE_SIZE))))
    as [E|_].
  { eexists _, _. split; [done|]. split; [by apply Hc|done]. }
  destruct (wf_list_total bits _ Hl) as [[[before p] after] Ep]. rewrite Ep.
  destruct (move_to_front_spec bits _ before p after Hl Ep) as [Hl' Hs'].
  pose proof (linear_search_spec _ _ _ _ _ _ Ep) as (_ & _ & Hf). rewrite Hs in Hf.
  eexists _, _. split; [done|]. split; [by left|]. split; cbn.
  - done.
  - intros w. by rewrite Hs', Hs.
  - intros w. unfold cache_entry.
    destruct (decide (w mod OPCODE_CACHE_SIZE = bits mod OPCODE_CACHE_SIZE)) as [->|N].
    + rewrite lookup_insert_eq. cbn. intros <-. by left.
    + rewrite lookup_insert_ne by done. apply Hc.
Qed.

(** A run of the decoder over the words fetched. *)
Fixpoint decode_seq (ws : list Z) (d : decoder) : option (list insn_func * decoder) :=
  match ws with
  | [] => Some ([], d)
  | w :: ws =>
      '(f, d) ← decode_insn w d;
      '(fs, d) ← decode_seq ws d;
      Some (f :: fs, d)
  end.

Lemma decode_seq_spec base ws d :
  wf_decoder base d ->
  exists fs d', decode_seq ws d = Some (fs, d') /\ Forall2 (decodes_to base) ws fs /\ wf_decoder base d'.
Proof.
  revert d. induction ws as [|w ws IH]; intros d Hd; [by eexists _, _|].
  destruct (decode_insn_spec base d w Hd) as (f & d1 & E1 & Hf & Hd1).
  destruct (IH d1 Hd1) as (fs & d2 & E2 & Hfs & Hd2). cbn. rewrite E1. cbn. rewrite E2.
  eexists _, _. split; [done|]. split; [by constructor|done].
Qed.

(** ** The base instruction set *)

Definition base_decoder : decoder := register_base_instructions [].
Definition base_instructions : list insn_desc_t := instructions base_decoder.

Lemma base_wf_list : wf_list base_instructions.
Proof.
  split.
  - vm_compute. reflexivity.
  - vm_compute. reflexivity.
  - exists (removelast base_instructions), (List.last base_instructions empty_entry).
    split; [vm_compute; reflexivity|]. split; [vm_compute; reflexivity|].
    apply Forall_forall. intros d Hd. apply list_elem_of_In in Hd.
    assert (forallb (fun d => negb (i_mask d =? 0)) (removelast base_instructions) = true) as H
      by (vm_compute; reflexivity).
    rewrite forallb_forall in H. specialize (H d Hd). by apply Z.eqb_neq, negb_true_iff.
Qed.

Lemma base_wf : wf_decoder base_instructions base_decoder.
Proof.
  split; [apply base_wf_list|done|]. intros bits e E. right.
  assert (e = empty_entry) as Ee.
  { unfold e, cache_entry. change (opcode_cache base_decoder) with (∅ : gmap Z insn_desc_t).
    by rewrite lookup_empty. }
  rewrite Ee in E |- *. by subst bits.
Qed.

(** What is decoded after whatever was decoded before. *)
Lemma decode_seq_base ws :
  exists fs d, decode_seq ws base_decoder = Some (fs, d)
    /\ Forall2 (decodes_to base_instructions) ws fs.
Proof.
  destruct (decode_seq_spec base_instructions ws base_decoder base_wf) as (fs & d & E & H & _).
  by exists fs, d.
Qed.
