(* ===== verification/Disasm.v ===== *)
(** riscv/disasm.h, riscv/regnames.cc and spike_main/disasm.cc: the
    disassembler.  Its entries, a name, a match, a mask and the operands to
    print, are those of the source in the order they are added; they are
    hashed by the low byte of the instruction where their mask fixes it. *)
From Stdlib Require Import Ascii String.
From stdpp Require Import strings pretty.
From S2P Require Import Prelude Decode.
#[local] Open Scope string_scope.

(** ** The names of encoding.h

    [DECLARE_INSN] and [DECLARE_CSR]: every instruction and register the header
    declares, with the encodings that no function implements. *)

Definition declared_insns_1 : list (string * (Z * Z)) := [
  ("beq", (0x63, 0x707f)); ("bne", (0x1063, 0x707f)); ("blt", (0x4063, 0x707f));
  ("bge", (0x5063, 0x707f)); ("bltu", (0x6063, 0x707f)); ("bgeu", (0x7063, 0x707f));
  ("jalr", (0x67, 0x707f)); ("jal", (0x6f, 0x7f)); ("lui", (0x37, 0x7f));
  ("auipc", (0x17, 0x7f)); ("addi", (0x13, 0x707f)); ("slli", (0x1013, 0xfc00707f));
  ("slti", (0x2013, 0x707f)); ("sltiu", (0x3013, 0x707f)); ("xori", (0x4013, 0x707f));
  ("srli", (0x5013, 0xfc00707f)); ("srai", (0x40005013, 0xfc00707f)); ("ori", (0x6013, 0x707f));
  ("andi", (0x7013, 0x707f)); ("add", (0x33, 0xfe00707f)); ("sub", (0x40000033, 0xfe00707f));
  ("sll", (0x1033, 0xfe00707f)); ("slt", (0x2033, 0xfe00707f)); ("sltu", (0x3033, 0xfe00707f));
  ("xor", (0x4033, 0xfe00707f)); ("srl", (0x5033, 0xfe00707f));
  ("sra", (0x40005033, 0xfe00707f)); ("or", (0x6033, 0xfe00707f)); ("and", (0x7033, 0xfe00707f));
  ("addiw", (0x1b, 0x707f)); ("slliw", (0x101b, 0xfe00707f)); ("srliw", (0x501b, 0xfe00707f));
  ("sraiw", (0x4000501b, 0xfe00707f)); ("addw", (0x3b, 0xfe00707f));
  ("subw", (0x4000003b, 0xfe00707f)); ("sllw", (0x103b, 0xfe00707f));
  ("srlw", (0x503b, 0xfe00707f)); ("sraw", (0x4000503b, 0xfe00707f)); ("lb", (0x3, 0x707f));
  ("lh", (0x1003, 0x707f)); ("lw", (0x2003, 0x707f)); ("ld", (0x3003, 0x707f));
  ("lbu", (0x4003, 0x707f)); ("lhu", (0x5003, 0x707f)); ("lwu", (0x6003, 0x707f));
  ("sb", (0x23, 0x707f)); ("sh", (0x1023, 0x707f)); ("sw", (0x2023, 0x707f));
  ("sd", (0x3023, 0x707f)); ("fence", (0xf, 0x707f)); ("fence_i", (0x100f, 0x707f));
  ("mul", (0x2000033, 0xfe00707f)); ("mulh", (0x2001033, 0xfe00707f));
  ("mulhsu", (0x2002033, 0xfe00707f)); ("mulhu", (0x2003033, 0xfe00707f));
  ("div", (0x2004033, 0xfe00707f)); ("divu", (0x2005033, 0xfe00707f));
  ("rem", (0x2006033, 0xfe00707f)); ("remu", (0x2007033, 0xfe00707f));
  ("mulw", (0x200003b, 0xfe00707f)); ("divw", (0x200403b, 0xfe00707f));
  ("divuw", (0x200503b, 0xfe00707f)); ("remw", (0x200603b, 0xfe00707f));
  ("remuw", (0x200703b, 0xfe00707f)); ("amoadd_w", (0x202f, 0xf800707f));
  ("amoxor_w", (0x2000202f, 0xf800707f)); ("amoor_w", (0x4000202f, 0xf800707f));
  ("amoand_w", (0x6000202f, 0xf800707f)); ("amomin_w", (0x8000202f, 0xf800707f));
  ("amomax_w", (0xa000202f, 0xf800707f)); ("amominu_w", (0xc000202f, 0xf800707f));
  ("amomaxu_w", (0xe000202f, 0xf800707f)); ("amoswap_w", (0x800202f, 0xf800707f));
  ("lr_w", (0x1000202f, 0xf9f0707f)); ("sc_w", (0x1800202f, 0xf800707f));
  ("amoadd_d", (0x302f, 0xf800707f)); ("amoxor_d", (0x2000302f, 0xf800707f))].

Definition declared_insns_2 : list (string * (Z * Z)) := [
  ("amoor_d", (0x4000302f, 0xf800707f)); ("amoand_d", (0x6000302f, 0xf800707f));
  ("amomin_d", (0x8000302f, 0xf800707f)); ("amomax_d", (0xa000302f, 0xf800707f));
  ("amominu_d", (0xc000302f, 0xf800707f)); ("amomaxu_d", (0xe000302f, 0xf800707f));
  ("amoswap_d", (0x800302f, 0xf800707f)); ("lr_d", (0x1000302f, 0xf9f0707f));
  ("sc_d", (0x1800302f, 0xf800707f)); ("ecall", (0x73, 0xffffffff));
  ("ebreak", (0x100073, 0xffffffff)); ("uret", (0x200073, 0xffffffff));
  ("sret", (0x10200073, 0xffffffff)); ("hret", (0x20200073, 0xffffffff));
  ("mret", (0x30200073, 0xffffffff)); ("dret", (0x7b200073, 0xffffffff));
  ("sfence_vm", (0x10400073, 0xfff07fff)); ("wfi", (0x10500073, 0xffffffff));
  ("csrrw", (0x1073, 0x707f)); ("csrrs", (0x2073, 0x707f)); ("csrrc", (0x3073, 0x707f));
  ("csrrwi", (0x5073, 0x707f)); ("csrrsi", (0x6073, 0x707f)); ("csrrci", (0x7073, 0x707f));
  ("fadd_s", (0x53, 0xfe00007f)); ("fsub_s", (0x8000053, 0xfe00007f));
  ("fmul_s", (0x10000053, 0xfe00007f)); ("fdiv_s", (0x18000053, 0xfe00007f));
  ("fsgnj_s", (0x20000053, 0xfe00707f)); ("fsgnjn_s", (0x20001053, 0xfe00707f));
  ("fsgnjx_s", (0x20002053, 0xfe00707f)); ("fmin_s", (0x28000053, 0xfe00707f));
  ("fmax_s", (0x28001053, 0xfe00707f)); ("fsqrt_s", (0x58000053, 0xfff0007f));
  ("fadd_d", (0x2000053, 0xfe00007f)); ("fsub_d", (0xa000053, 0xfe00007f));
  ("fmul_d", (0x12000053, 0xfe00007f)); ("fdiv_d", (0x1a000053, 0xfe00007f));
  ("fsgnj_d", (0x22000053, 0xfe00707f)); ("fsgnjn_d", (0x22001053, 0xfe00707f));
  ("fsgnjx_d", (0x22002053, 0xfe00707f)); ("fmin_d", (0x2a000053, 0xfe00707f));
  ("fmax_d", (0x2a001053, 0xfe00707f)); ("fcvt_s_d", (0x40100053, 0xfff0007f));
  ("fcvt_d_s", (0x42000053, 0xfff0007f)); ("fsqrt_d", (0x5a000053, 0xfff0007f));
  ("fle_s", (0xa0000053, 0xfe00707f)); ("flt_s", (0xa0001053, 0xfe00707f));
  ("feq_s", (0xa0002053, 0xfe00707f)); ("fle_d", (0xa2000053, 0xfe00707f));
  ("flt_d", (0xa2001053, 0xfe00707f)); ("feq_d", (0xa2002053, 0xfe00707f));
  ("fcvt_w_s", (0xc0000053, 0xfff0007f)); ("fcvt_wu_s", (0xc0100053, 0xfff0007f));
  ("fcvt_l_s", (0xc0200053, 0xfff0007f)); ("fcvt_lu_s", (0xc0300053, 0xfff0007f));
  ("fmv_x_s", (0xe0000053, 0xfff0707f)); ("fclass_s", (0xe0001053, 0xfff0707f));
  ("fcvt_w_d", (0xc2000053, 0xfff0007f)); ("fcvt_wu_d", (0xc2100053, 0xfff0007f));
  ("fcvt_l_d", (0xc2200053, 0xfff0007f)); ("fcvt_lu_d", (0xc2300053, 0xfff0007f));
  ("fmv_x_d", (0xe2000053, 0xfff0707f)); ("fclass_d", (0xe2001053, 0xfff0707f));
  ("fcvt_s_w", (0xd0000053, 0xfff0007f)); ("fcvt_s_wu", (0xd0100053, 0xfff0007f));
  ("fcvt_s_l", (0xd0200053, 0xfff0007f)); ("fcvt_s_lu", (0xd0300053, 0xfff0007f));
  ("fmv_s_x", (0xf0000053, 0xfff0707f)); ("fcvt_d_w", (0xd2000053, 0xfff0007f));
  ("fcvt_d_wu", (0xd2100053, 0xfff0007f)); ("fcvt_d_l", (0xd2200053, 0xfff0007f));
  ("fcvt_d_lu", (0xd2300053, 0xfff0007f)); ("fmv_d_x", (0xf2000053, 0xfff0707f));
  ("flw", (0x2007, 0x707f)); ("fld", (0x3007, 0x707f)); ("fsw", (0x2027, 0x707f))].

Definition declared_insns_3 : list (string * (Z * Z)) := [
  ("fsd", (0x3027, 0x707f)); ("fmadd_s", (0x43, 0x600007f)); ("fmsub_s", (0x47, 0x600007f));
  ("fnmsub_s", (0x4b, 0x600007f)); ("fnmadd_s", (0x4f, 0x600007f));
  ("fmadd_d", (0x2000043, 0x600007f)); ("fmsub_d", (0x2000047, 0x600007f));
  ("fnmsub_d", (0x200004b, 0x600007f)); ("fnmadd_d", (0x200004f, 0x600007f));
  ("c_nop", (0x1, 0xffff)); ("c_addi16sp", (0x6101, 0xef83)); ("c_jr", (0x8002, 0xf07f));
  ("c_jalr", (0x9002, 0xf07f)); ("c_ebreak", (0x9002, 0xffff)); ("c_ld", (0x6000, 0xe003));
  ("c_sd", (0xe000, 0xe003)); ("c_addiw", (0x2001, 0xe003)); ("c_ldsp", (0x6002, 0xe003));
  ("c_sdsp", (0xe002, 0xe003)); ("c_addi4spn", (0x0, 0xe003)); ("c_fld", (0x2000, 0xe003));
  ("c_lw", (0x4000, 0xe003)); ("c_flw", (0x6000, 0xe003)); ("c_fsd", (0xa000, 0xe003));
  ("c_sw", (0xc000, 0xe003)); ("c_fsw", (0xe000, 0xe003)); ("c_addi", (0x1, 0xe003));
  ("c_jal", (0x2001, 0xe003)); ("c_li", (0x4001, 0xe003)); ("c_lui", (0x6001, 0xe003));
  ("c_srli", (0x8001, 0xec03)); ("c_srai", (0x8401, 0xec03)); ("c_andi", (0x8801, 0xec03));
  ("c_sub", (0x8c01, 0xfc63)); ("c_xor", (0x8c21, 0xfc63)); ("c_or", (0x8c41, 0xfc63));
  ("c_and", (0x8c61, 0xfc63)); ("c_subw", (0x9c01, 0xfc63)); ("c_addw", (0x9c21, 0xfc63));
  ("c_j", (0xa001, 0xe003)); ("c_beqz", (0xc001, 0xe003)); ("c_bnez", (0xe001, 0xe003));
  ("c_slli", (0x2, 0xe003)); ("c_fldsp", (0x2002, 0xe003)); ("c_lwsp", (0x4002, 0xe003));
  ("c_flwsp", (0x6002, 0xe003)); ("c_mv", (0x8002, 0xf003)); ("c_add", (0x9002, 0xf003));
  ("c_fsdsp", (0xa002, 0xe003)); ("c_swsp", (0xc002, 0xe003)); ("c_fswsp", (0xe002, 0xe003));
  ("custom0", (0xb, 0x707f)); ("custom0_rs1", (0x200b, 0x707f));
  ("custom0_rs1_rs2", (0x300b, 0x707f)); ("custom0_rd", (0x400b, 0x707f));
  ("custom0_rd_rs1", (0x600b, 0x707f)); ("custom0_rd_rs1_rs2", (0x700b, 0x707f));
  ("custom1", (0x2b, 0x707f)); ("custom1_rs1", (0x202b, 0x707f));
  ("custom1_rs1_rs2", (0x302b, 0x707f)); ("custom1_rd", (0x402b, 0x707f));
  ("custom1_rd_rs1", (0x602b, 0x707f)); ("custom1_rd_rs1_rs2", (0x702b, 0x707f));
  ("custom2", (0x5b, 0x707f)); ("custom2_rs1", (0x205b, 0x707f));
  ("custom2_rs1_rs2", (0x305b, 0x707f)); ("custom2_rd", (0x405b, 0x707f));
  ("custom2_rd_rs1", (0x605b, 0x707f)); ("custom2_rd_rs1_rs2", (0x705b, 0x707f));
  ("custom3", (0x7b, 0x707f)); ("custom3_rs1", (0x207b, 0x707f));
  ("custom3_rs1_rs2", (0x307b, 0x707f)); ("custom3_rd", (0x407b, 0x707f));
  ("custom3_rd_rs1", (0x607b, 0x707f)); ("custom3_rd_rs1_rs2", (0x707b, 0x707f))].

Definition declared_insns : list (string * (Z * Z)) :=
  (declared_insns_1 ++ declared_insns_2 ++ declared_insns_3)%list.

Definition declared_csrs_1 : list (Z * string) := [
  (0x1, "fflags"); (0x2, "frm"); (0x3, "fcsr"); (0xc00, "cycle"); (0xc01, "time");
  (0xc02, "instret"); (0xc03, "hpmcounter3"); (0xc04, "hpmcounter4"); (0xc05, "hpmcounter5");
  (0xc06, "hpmcounter6"); (0xc07, "hpmcounter7"); (0xc08, "hpmcounter8"); (0xc09, "hpmcounter9");
  (0xc0a, "hpmcounter10"); (0xc0b, "hpmcounter11"); (0xc0c, "hpmcounter12");
  (0xc0d, "hpmcounter13"); (0xc0e, "hpmcounter14"); (0xc0f, "hpmcounter15");
  (0xc10, "hpmcounter16"); (0xc11, "hpmcounter17"); (0xc12, "hpmcounter18");
  (0xc13, "hpmcounter19"); (0xc14, "hpmcounter20"); (0xc15, "hpmcounter21");
  (0xc16, "hpmcounter22"); (0xc17, "hpmcounter23"); (0xc18, "hpmcounter24");
  (0xc19, "hpmcounter25"); (0xc1a, "hpmcounter26"); (0xc1b, "hpmcounter27");
  (0xc1c, "hpmcounter28"); (0xc1d, "hpmcounter29"); (0xc1e, "hpmcounter30");
  (0xc1f, "hpmcounter31"); (0x100, "sstatus"); (0x104, "sie"); (0x105, "stvec");
  (0x140, "sscratch"); (0x141, "sepc"); (0x142, "scause"); (0x143, "sbadaddr"); (0x144, "sip");
  (0x180, "sptbr"); (0x300, "mstatus"); (0x301, "misa"); (0x302, "medeleg"); (0x303, "mideleg");
  (0x304, "mie"); (0x305, "mtvec"); (0x340, "mscratch"); (0x341, "mepc"); (0x342, "mcause");
  (0x343, "mbadaddr"); (0x344, "mip"); (0x7a0, "tselect"); (0x7a1, "tdata1"); (0x7a2, "tdata2");
  (0x7a3, "tdata3"); (0x7b0, "dcsr"); (0x7b1, "dpc"); (0x7b2, "dscratch"); (0xb00, "mcycle");
  (0xb02, "minstret"); (0xb03, "mhpmcounter3"); (0xb04, "mhpmcounter4"); (0xb05, "mhpmcounter5");
  (0xb06, "mhpmcounter6"); (0xb07, "mhpmcounter7"); (0xb08, "mhpmcounter8");
  (0xb09, "mhpmcounter9"); (0xb0a, "mhpmcounter10"); (0xb0b, "mhpmcounter11");
  (0xb0c, "mhpmcounter12"); (0xb0d, "mhpmcounter13"); (0xb0e, "mhpmcounter14");
  (0xb0f, "mhpmcounter15"); (0xb10, "mhpmcounter16"); (0xb11, "mhpmcounter17");
  (0xb12, "mhpmcounter18"); (0xb13, "mhpmcounter19"); (0xb14, "mhpmcounter20");
  (0xb15, "mhpmcounter21"); (0xb16, "mhpmcounter22"); (0xb17, "mhpmcounter23");
  (0xb18, "mhpmcounter24"); (0xb19, "mhpmcounter25"); (0xb1a, "mhpmcounter26");
  (0xb1b, "mhpmcounter27"); (0xb1c, "mhpmcounter28"); (0xb1d, "mhpmcounter29");
  (0xb1e, "mhpmcounter30"); (0xb1f, "mhpmcounter31"); (0x320, "mucounteren");
  (0x321, "mscounteren"); (0x323, "mhpmevent3")].

Definition declared_csrs_2 : list (Z * string) := [
  (0x324, "mhpmevent4"); (0x325, "mhpmevent5"); (0x326, "mhpmevent6"); (0x327, "mhpmevent7");
  (0x328, "mhpmevent8"); (0x329, "mhpmevent9"); (0x32a, "mhpmevent10"); (0x32b, "mhpmevent11");
  (0x32c, "mhpmevent12"); (0x32d, "mhpmevent13"); (0x32e, "mhpmevent14"); (0x32f, "mhpmevent15");
  (0x330, "mhpmevent16"); (0x331, "mhpmevent17"); (0x332, "mhpmevent18"); (0x333, "mhpmevent19");
  (0x334, "mhpmevent20"); (0x335, "mhpmevent21"); (0x336, "mhpmevent22"); (0x337, "mhpmevent23");
  (0x338, "mhpmevent24"); (0x339, "mhpmevent25"); (0x33a, "mhpmevent26"); (0x33b, "mhpmevent27");
  (0x33c, "mhpmevent28"); (0x33d, "mhpmevent29"); (0x33e, "mhpmevent30"); (0x33f, "mhpmevent31");
  (0xf11, "mvendorid"); (0xf12, "marchid"); (0xf13, "mimpid"); (0xf14, "mhartid");
  (0xc80, "cycleh"); (0xc81, "timeh"); (0xc82, "instreth"); (0xc83, "hpmcounter3h");
  (0xc84, "hpmcounter4h"); (0xc85, "hpmcounter5h"); (0xc86, "hpmcounter6h");
  (0xc87, "hpmcounter7h"); (0xc88, "hpmcounter8h"); (0xc89, "hpmcounter9h");
  (0xc8a, "hpmcounter10h"); (0xc8b, "hpmcounter11h"); (0xc8c, "hpmcounter12h");
  (0xc8d, "hpmcounter13h"); (0xc8e, "hpmcounter14h"); (0xc8f, "hpmcounter15h");
  (0xc90, "hpmcounter16h"); (0xc91, "hpmcounter17h"); (0xc92, "hpmcounter18h");
  (0xc93, "hpmcounter19h"); (0xc94, "hpmcounter20h"); (0xc95, "hpmcounter21h");
  (0xc96, "hpmcounter22h"); (0xc97, "hpmcounter23h"); (0xc98, "hpmcounter24h");
  (0xc99, "hpmcounter25h"); (0xc9a, "hpmcounter26h"); (0xc9b, "hpmcounter27h");
  (0xc9c, "hpmcounter28h"); (0xc9d, "hpmcounter29h"); (0xc9e, "hpmcounter30h");
  (0xc9f, "hpmcounter31h"); (0xb80, "mcycleh"); (0xb82, "minstreth"); (0xb83, "mhpmcounter3h");
  (0xb84, "mhpmcounter4h"); (0xb85, "mhpmcounter5h"); (0xb86, "mhpmcounter6h");
  (0xb87, "mhpmcounter7h"); (0xb88, "mhpmcounter8h"); (0xb89, "mhpmcounter9h");
  (0xb8a, "mhpmcounter10h"); (0xb8b, "mhpmcounter11h"); (0xb8c, "mhpmcounter12h");
  (0xb8d, "mhpmcounter13h"); (0xb8e, "mhpmcounter14h"); (0xb8f, "mhpmcounter15h");
  (0xb90, "mhpmcounter16h"); (0xb91, "mhpmcounter17h"); (0xb92, "mhpmcounter18h");
  (0xb93, "mhpmcounter19h"); (0xb94, "mhpmcounter20h"); (0xb95, "mhpmcounter21h");
  (0xb96, "mhpmcounter22h"); (0xb97, "mhpmcounter23h"); (0xb98, "mhpmcounter24h");
  (0xb99, "mhpmcounter25h"); (0xb9a, "mhpmcounter26h"); (0xb9b, "mhpmcounter27h");
  (0xb9c, "mhpmcounter28h"); (0xb9d, "mhpmcounter29h"); (0xb9e, "mhpmcounter30h");
  (0xb9f, "mhpmcounter31h")].

Definition declared_csrs : list (Z * string) := (declared_csrs_1 ++ declared_csrs_2)%list.

(** The constants [match_NAME] and [mask_NAME] of [DECLARE_INSN(NAME, ...)]. *)
Definition code_of (code : string) : option (Z * Z) :=
  snd <$> (snd <$> list_find (fun e => fst e = code) declared_insns).
Definition match_code (code : string) : Z := from_option fst 0 (code_of code).
Definition mask_code (code : string) : Z := from_option snd 0 (code_of code).

(** ** regnames.cc *)

Definition xpr_name : list string := [
  "zero"; "ra"; "sp"; "gp"; "tp"; "t0"; "t1"; "t2";
  "s0"; "s1"; "a0"; "a1"; "a2"; "a3"; "a4"; "a5";
  "a6"; "a7"; "s2"; "s3"; "s4"; "s5"; "s6"; "s7";
  "s8"; "s9"; "s10"; "s11"; "t3"; "t4"; "t5"; "t6"].
Definition fpr_name : list string := [
  "ft0"; "ft1"; "ft2"; "ft3"; "ft4"; "ft5"; "ft6"; "ft7";
  "fs0"; "fs1"; "fa0"; "fa1"; "fa2"; "fa3"; "fa4"; "fa5";
  "fa6"; "fa7"; "fs2"; "fs3"; "fs4"; "fs5"; "fs6"; "fs7";
  "fs8"; "fs9"; "fs10"; "fs11"; "ft8"; "ft9"; "ft10"; "ft11"].
(** [names[i]]: the indices are five-bit fields. *)
Definition name_at (names : list string) (i : Z) : string := default EmptyString (names !! Z.to_nat i).

(** ** Printing of numbers *)

(** [std::to_string] and [<<] of an integer. *)
Definition to_dec (n : Z) : string := pretty n.

Definition hex_char (d : Z) : Ascii.ascii :=
  default "0"%char (String.get (Z.to_nat d) "0123456789abcdef").
(** Hexadecimal digits; a 64-bit number has at most 16. *)
Fixpoint hex_from (fuel : nat) (n : Z) (s : string) : string :=
  match fuel with
  | O => s
  | S fuel =>
      let s := String (hex_char (n .& 0xf)) s in
      if (n .>> 4 =? 0)%Z then s else hex_from fuel (n .>> 4) s
  end.
(** [<< std::hex] of a non-negative number. *)
Definition to_hex (n : Z) : string := hex_from 16 n EmptyString.

Fixpoint repeat_char (n : nat) (c : Ascii.ascii) : string :=
  match n with O => EmptyString | S n => String c (repeat_char n c) end.

(** [printf("%03x")] *)
Definition to_hex_03 (n : Z) : string :=
  let s := to_hex n in repeat_char (3 - String.length s) "0" ++ s.

(** ** Operands *)

Inductive arg_t :=
  | load_address | store_address | amo_address
  | xrd | xrs1 | xrs2 | frd | frs1 | frs2 | frs3
  | csr | imm | bigimm | zimm5 | branch_target | jump_target
  | rvc_rs1 | rvc_rs2 | rvc_rs1s | rvc_rs2s | rvc_sp
  | rvc_imm | rvc_addi4spn_imm | rvc_addi16sp_imm | rvc_lwsp_imm | rvc_shamt | rvc_uimm
  | rvc_lwsp_address | rvc_ldsp_address | rvc_swsp_address | rvc_sdsp_address
  | rvc_lw_address | rvc_ld_address | rvc_branch_target | rvc_jump_target.

Definition xpr (i : Z) : string := name_at xpr_name i.
(** [xpr_name[X_SP]] *)
Definition xpr_sp : string := xpr 2.
Definition fpr (i : Z) : string := name_at fpr_name i.
(** [(int)x] of a signed 64-bit number, in decimal. *)
Definition int_dec (x : Z) : string := to_dec (s32 x).
Definition based (offset reg : string) : string := offset ++ "(" ++ reg ++ ")".
Definition csr_name (n : Z) : string :=
  match list_find (fun e => fst e = n) declared_csrs with
  | Some (_, (_, name)) => name
  | None => "unknown_" ++ to_hex_03 n
  end.
Definition sign (target : Z) : string := if (0 <=? target)%Z then "+" else "-".
(** [abs(target)] of a 32-bit number. *)
Definition int_abs (target : Z) : Z := s32 (Z.abs target).
Definition target_dec (target : Z) : string :=
  "pc " ++ sign target ++ " " ++ to_dec (int_abs target).

(** The operands of the compressed instructions, and the others. *)
Definition rvc_to_string (a : arg_t) (insn : Z) : string :=
  match a with
  | rvc_rs1 => xpr (Decode.rvc_rs1 insn)
  | rvc_rs2 => xpr (Decode.rvc_rs2 insn)
  | rvc_rs1s => xpr (Decode.rvc_rs1s insn)
  | rvc_rs2s => xpr (Decode.rvc_rs2s insn)
  | rvc_sp => xpr_sp
  | rvc_imm => int_dec (Decode.rvc_imm insn)
  | rvc_addi4spn_imm => int_dec (Decode.rvc_addi4spn_imm insn)
  | rvc_addi16sp_imm => int_dec (Decode.rvc_addi16sp_imm insn)
  | rvc_lwsp_imm => int_dec (Decode.rvc_lwsp_imm insn)
  | rvc_shamt => int_dec (Decode.rvc_imm insn .& 0x3f)
  | rvc_uimm => "0x" ++ to_hex (u32 (Decode.rvc_imm insn))
  | rvc_lwsp_address => based (int_dec (Decode.rvc_lwsp_imm insn)) (xpr_sp)
  | rvc_ldsp_address => based (int_dec (Decode.rvc_ldsp_imm insn)) (xpr_sp)
  | rvc_swsp_address => based (int_dec (Decode.rvc_swsp_imm insn)) (xpr_sp)
  | rvc_sdsp_address => based (int_dec (Decode.rvc_sdsp_imm insn)) (xpr_sp)
  | rvc_lw_address => based (int_dec (Decode.rvc_lw_imm insn)) (xpr (Decode.rvc_rs1s insn))
  | rvc_ld_address => based (int_dec (Decode.rvc_ld_imm insn)) (xpr (Decode.rvc_rs1s insn))
  | rvc_branch_target => target_dec (s32 (Decode.rvc_b_imm insn))
  | rvc_jump_target => target_dec (s32 (Decode.rvc_j_imm insn))
  | _ => EmptyString
  end.

Definition arg_to_string (a : arg_t) (insn : Z) : string :=
  match a with
  | load_address => based (int_dec (i_imm insn)) (xpr (rs1 insn))
  | store_address => based (int_dec (s_imm insn)) (xpr (rs1 insn))
  | amo_address => based EmptyString (xpr (rs1 insn))
  | xrd => xpr (rd insn)
  | xrs1 => xpr (rs1 insn)
  | xrs2 => xpr (rs2 insn)
  | frd => fpr (rd insn)
  | frs1 => fpr (rs1 insn)
  | frs2 => fpr (rs2 insn)
  | frs3 => fpr (rs3 insn)
  | csr => csr_name (Decode.csr insn)
  | imm => int_dec (i_imm insn)
  | bigimm => "0x" ++ to_hex (u32 (u_imm insn) .>> 12)
  | zimm5 => to_dec (rs1 insn)
  | branch_target => target_dec (s32 (sb_imm insn))
  | jump_target =>
      let target := s32 (uj_imm insn) in
      "pc " ++ sign target ++ " 0x" ++ to_hex (int_abs target)
  | _ => rvc_to_string a insn
  end.

(** ** Entries: [disasm_insn_t] *)

Record disasm_insn_t := DisasmInsn {
  d_name : string; d_match : Z; d_mask : Z; d_args : list arg_t
}.
(** The constructor's parameters are 32-bit. *)
Definition disasm_insn (name : string) (match_ mask : Z) (args : list arg_t) : disasm_insn_t :=
  DisasmInsn name (u32 match_) (u32 mask) args.

(** [operator ==] *)
Definition entry_matches (e : disasm_insn_t) (insn : Z) : bool := ((insn .& d_mask e) =? d_match e)%Z.

Fixpoint dots (name : string) : string :=
  match name with
  | EmptyString => EmptyString
  | String c name => String (if Ascii.eqb c "_" then "." else c)%char (dots name)
  end.

Definition entry_to_string (e : disasm_insn_t) (insn : Z) : string :=
  let len := String.length (d_name e) in
  dots (d_name e)
  ++ (if d_args e is [] then EmptyString
      else repeat_char (Nat.max 1 (8 - len)) " "
           ++ String.concat ", " ((fun a => arg_to_string a insn) <$> d_args e)).

(** ** The table: [disassembler_t] *)

Definition HASH_SIZE : Z := 256.
(** The chains by their index, the last one ([HASH_SIZE]) for the entries whose
    mask leaves part of the low byte open. *)
Definition disassembler_t := gmap Z (list disasm_insn_t).
Definition chain (d : disassembler_t) (idx : Z) : list disasm_insn_t := default [] (d !! idx).

Definition entry_index (e : disasm_insn_t) : Z :=
  if (d_mask e mod HASH_SIZE =? HASH_SIZE - 1)%Z then d_match e mod HASH_SIZE else HASH_SIZE.
Definition add_insn (e : disasm_insn_t) (d : disassembler_t) : disassembler_t :=
  <[entry_index e := (chain d (entry_index e) ++ [e])%list]> d.

Definition find_entry (insn : Z) (l : list disasm_insn_t) : option disasm_insn_t :=
  List.find (fun e => entry_matches e insn) l.
Definition lookup_insn (d : disassembler_t) (insn : Z) : option disasm_insn_t :=
  match find_entry insn (chain d (insn mod HASH_SIZE)) with
  | Some e => Some e
  | None => find_entry insn (chain d HASH_SIZE)
  end.
Definition disassemble (d : disassembler_t) (insn : Z) : string :=
  match lookup_insn d insn with
  | Some e => entry_to_string e insn
  | None => "unknown"
  end.

(** ** The entries of the constructor *)

Definition mask_rd : Z := 0x1f .<< 7.
Definition match_rd_ra : Z := 1 .<< 7.
Definition mask_rs1 : Z := 0x1f .<< 15.
Definition match_rs1_ra : Z := 1 .<< 15.
Definition mask_rs2 : Z := 0x1f .<< 20.
Definition mask_imm : Z := 0xfff .<< 20.
Definition match_imm_1 : Z := 1 .<< 20.
Definition mask_rvc_rs2 : Z := 0x1f .<< 2.
Definition mask_rvc_imm : Z := mask_rvc_rs2 .| 0x1000.

Definition DISASM_INSN (name code : string) (extra : Z) (args : list arg_t) : disasm_insn_t :=
  disasm_insn name (match_code code) (mask_code code .| extra) args.
Definition DEFINE_NOARG (code : string) : disasm_insn_t := DISASM_INSN code code 0 [].
Definition DEFINE_RTYPE (code : string) : disasm_insn_t := DISASM_INSN code code 0 [xrd; xrs1; xrs2].
Definition DEFINE_ITYPE (code : string) : disasm_insn_t := DISASM_INSN code code 0 [xrd; xrs1; imm].
Definition DEFINE_LTYPE (code : string) : disasm_insn_t := DISASM_INSN code code 0 [xrd; bigimm].
Definition DEFINE_BTYPE (code : string) : disasm_insn_t := DISASM_INSN code code 0 [xrs1; xrs2; branch_target].
Definition DEFINE_XLOAD (code : string) : disasm_insn_t := DISASM_INSN code code 0 [xrd; load_address].
Definition DEFINE_XSTORE (code : string) : disasm_insn_t := DISASM_INSN code code 0 [xrs2; store_address].
Definition DEFINE_XAMO (code : string) : disasm_insn_t := DISASM_INSN code code 0 [xrd; xrs2; amo_address].
Definition DEFINE_FLOAD (code : string) : disasm_insn_t := DISASM_INSN code code 0 [frd; load_address].
Definition DEFINE_FSTORE (code : string) : disasm_insn_t := DISASM_INSN code code 0 [frs2; store_address].
Definition DEFINE_FRTYPE (code : string) : disasm_insn_t := DISASM_INSN code code 0 [frd; frs1; frs2].
Definition DEFINE_FR1TYPE (code : string) : disasm_insn_t := DISASM_INSN code code 0 [frd; frs1].
Definition DEFINE_FR3TYPE (code : string) : disasm_insn_t := DISASM_INSN code code 0 [frd; frs1; frs2; frs3].
Definition DEFINE_FXTYPE (code : string) : disasm_insn_t := DISASM_INSN code code 0 [xrd; frs1].
Definition DEFINE_XFTYPE (code : string) : disasm_insn_t := DISASM_INSN code code 0 [frd; xrs1].
Definition DEFINE_I0TYPE (name code : string) : disasm_insn_t := DISASM_INSN name code mask_rs1 [xrd; imm].
Definition DEFINE_I1TYPE (name code : string) : disasm_insn_t := DISASM_INSN name code mask_imm [xrd; xrs1].
Definition DEFINE_I2TYPE (name code : string) : disasm_insn_t := DISASM_INSN name code (mask_rd .| mask_imm) [xrs1].
Definition DEFINE_B0TYPE (name code : string) : disasm_insn_t := DISASM_INSN name code (mask_rs1 .| mask_rs2) [branch_target].
Definition DEFINE_B1TYPE (name code : string) : disasm_insn_t := DISASM_INSN name code mask_rs2 [xrs1; branch_target].

Definition explicit_int : list disasm_insn_t := [
  DEFINE_XLOAD "lb"; DEFINE_XLOAD "lbu"; DEFINE_XLOAD "lh"; DEFINE_XLOAD "lhu";
  DEFINE_XLOAD "lw"; DEFINE_XLOAD "lwu"; DEFINE_XLOAD "ld"; DEFINE_XSTORE "sb";
  DEFINE_XSTORE "sh"; DEFINE_XSTORE "sw"; DEFINE_XSTORE "sd"; DEFINE_XAMO "amoadd_w";
  DEFINE_XAMO "amoswap_w"; DEFINE_XAMO "amoand_w"; DEFINE_XAMO "amoor_w"; DEFINE_XAMO "amoxor_w";
  DEFINE_XAMO "amomin_w"; DEFINE_XAMO "amomax_w"; DEFINE_XAMO "amominu_w";
  DEFINE_XAMO "amomaxu_w"; DEFINE_XAMO "amoadd_d"; DEFINE_XAMO "amoswap_d";
  DEFINE_XAMO "amoand_d"; DEFINE_XAMO "amoor_d"; DEFINE_XAMO "amoxor_d"; DEFINE_XAMO "amomin_d";
  DEFINE_XAMO "amomax_d"; DEFINE_XAMO "amominu_d"; DEFINE_XAMO "amomaxu_d"; DEFINE_XAMO "lr_w";
  DEFINE_XAMO "sc_w"; DEFINE_XAMO "lr_d"; DEFINE_XAMO "sc_d"; DEFINE_FLOAD "flw";
  DEFINE_FLOAD "fld"; DEFINE_FSTORE "fsw"; DEFINE_FSTORE "fsd";
  disasm_insn "j" (match_code "jal") (mask_code "jal" .| mask_rd) [jump_target];
  disasm_insn "jal" (match_code "jal" .| match_rd_ra) (mask_code "jal" .| mask_rd) [jump_target];
  disasm_insn "jal" (match_code "jal") (mask_code "jal") [xrd; jump_target];
  DEFINE_B1TYPE "beqz" "beq"; DEFINE_B1TYPE "bnez" "bne"; DEFINE_B1TYPE "bltz" "blt";
  DEFINE_B1TYPE "bgez" "bge"; DEFINE_BTYPE "beq"; DEFINE_BTYPE "bne"; DEFINE_BTYPE "blt";
  DEFINE_BTYPE "bge"; DEFINE_BTYPE "bltu"; DEFINE_BTYPE "bgeu"; DEFINE_LTYPE "lui";
  DEFINE_LTYPE "auipc";
  disasm_insn "ret" (match_code "jalr" .| match_rs1_ra) (mask_code "jalr" .| mask_rd .| mask_rs1 .| mask_imm) [];
  DEFINE_I2TYPE "jr" "jalr";
  disasm_insn "jalr" (match_code "jalr" .| match_rd_ra) (mask_code "jalr" .| mask_rd .| mask_imm) [xrs1];
  DEFINE_ITYPE "jalr";
  disasm_insn "nop" (match_code "addi") (mask_code "addi" .| mask_rd .| mask_rs1 .| mask_imm) [];
  disasm_insn " - " (match_code "xor") (mask_code "xor" .| mask_rd .| mask_rs1 .| mask_rs2) [];
  DEFINE_I0TYPE "li" "addi"; DEFINE_I1TYPE "mv" "addi"; DEFINE_ITYPE "addi"; DEFINE_ITYPE "slli";
  DEFINE_ITYPE "slti";
  disasm_insn "seqz" (match_code "sltiu" .| match_imm_1) (mask_code "sltiu" .| mask_imm) [xrd; xrs1];
  DEFINE_ITYPE "sltiu";
  disasm_insn "not" (match_code "xori" .| mask_imm) (mask_code "xori" .| mask_imm) [xrd; xrs1];
  DEFINE_ITYPE "xori"; DEFINE_ITYPE "srli"; DEFINE_ITYPE "srai"; DEFINE_ITYPE "ori";
  DEFINE_ITYPE "andi"; DEFINE_I1TYPE "sext.w" "addiw"; DEFINE_ITYPE "addiw";
  DEFINE_ITYPE "slliw"; DEFINE_ITYPE "srliw"; DEFINE_ITYPE "sraiw"; DEFINE_RTYPE "add";
  DEFINE_RTYPE "sub"; DEFINE_RTYPE "sll"; DEFINE_RTYPE "slt";
  disasm_insn "snez" (match_code "sltu") (mask_code "sltu" .| mask_rs1) [xrd; xrs2];
  DEFINE_RTYPE "sltu"; DEFINE_RTYPE "xor"; DEFINE_RTYPE "srl"; DEFINE_RTYPE "sra";
  DEFINE_RTYPE "or"; DEFINE_RTYPE "and"; DEFINE_RTYPE "mul"; DEFINE_RTYPE "mulh";
  DEFINE_RTYPE "mulhu"; DEFINE_RTYPE "mulhsu"; DEFINE_RTYPE "div"; DEFINE_RTYPE "divu";
  DEFINE_RTYPE "rem"; DEFINE_RTYPE "remu"; DEFINE_RTYPE "addw"; DEFINE_RTYPE "subw";
  DEFINE_RTYPE "sllw"; DEFINE_RTYPE "srlw"; DEFINE_RTYPE "sraw"; DEFINE_RTYPE "mulw";
  DEFINE_RTYPE "divw"; DEFINE_RTYPE "divuw"; DEFINE_RTYPE "remw"; DEFINE_RTYPE "remuw";
  DEFINE_NOARG "ecall"; DEFINE_NOARG "ebreak"; DEFINE_NOARG "uret"; DEFINE_NOARG "sret";
  DEFINE_NOARG "hret"; DEFINE_NOARG "mret"; DEFINE_NOARG "fence"; DEFINE_NOARG "fence_i";
  disasm_insn "csrr" (match_code "csrrs") (mask_code "csrrs" .| mask_rs1) [xrd; csr];
  disasm_insn "csrw" (match_code "csrrw") (mask_code "csrrw" .| mask_rd) [csr; xrs1];
  disasm_insn "csrs" (match_code "csrrs") (mask_code "csrrs" .| mask_rd) [csr; xrs1];
  disasm_insn "csrc" (match_code "csrrc") (mask_code "csrrc" .| mask_rd) [csr; xrs1];
  disasm_insn "csrwi" (match_code "csrrwi") (mask_code "csrrwi" .| mask_rd) [csr; zimm5];
  disasm_insn "csrsi" (match_code "csrrsi") (mask_code "csrrsi" .| mask_rd) [csr; zimm5];
  disasm_insn "csrci" (match_code "csrrci") (mask_code "csrrci" .| mask_rd) [csr; zimm5];
  disasm_insn "csrrw" (match_code "csrrw") (mask_code "csrrw") [xrd; csr; xrs1];
  disasm_insn "csrrs" (match_code "csrrs") (mask_code "csrrs") [xrd; csr; xrs1];
  disasm_insn "csrrc" (match_code "csrrc") (mask_code "csrrc") [xrd; csr; xrs1];
  disasm_insn "csrrwi" (match_code "csrrwi") (mask_code "csrrwi") [xrd; csr; zimm5];
  disasm_insn "csrrsi" (match_code "csrrsi") (mask_code "csrrsi") [xrd; csr; zimm5];
  disasm_insn "csrrci" (match_code "csrrci") (mask_code "csrrci") [xrd; csr; zimm5]].

Definition explicit_fp : list disasm_insn_t := [
  DEFINE_FRTYPE "fadd_s"; DEFINE_FRTYPE "fsub_s"; DEFINE_FRTYPE "fmul_s"; DEFINE_FRTYPE "fdiv_s";
  DEFINE_FR1TYPE "fsqrt_s"; DEFINE_FRTYPE "fmin_s"; DEFINE_FRTYPE "fmax_s";
  DEFINE_FR3TYPE "fmadd_s"; DEFINE_FR3TYPE "fmsub_s"; DEFINE_FR3TYPE "fnmadd_s";
  DEFINE_FR3TYPE "fnmsub_s"; DEFINE_FRTYPE "fsgnj_s"; DEFINE_FRTYPE "fsgnjn_s";
  DEFINE_FRTYPE "fsgnjx_s"; DEFINE_FR1TYPE "fcvt_s_d"; DEFINE_XFTYPE "fcvt_s_l";
  DEFINE_XFTYPE "fcvt_s_lu"; DEFINE_XFTYPE "fcvt_s_w"; DEFINE_XFTYPE "fcvt_s_wu";
  DEFINE_XFTYPE "fcvt_s_wu"; DEFINE_XFTYPE "fmv_s_x"; DEFINE_FXTYPE "fcvt_l_s";
  DEFINE_FXTYPE "fcvt_lu_s"; DEFINE_FXTYPE "fcvt_w_s"; DEFINE_FXTYPE "fcvt_wu_s";
  DEFINE_FXTYPE "fclass_s"; DEFINE_FXTYPE "fmv_x_s"; DEFINE_FXTYPE "feq_s";
  DEFINE_FXTYPE "flt_s"; DEFINE_FXTYPE "fle_s"; DEFINE_FRTYPE "fadd_d"; DEFINE_FRTYPE "fsub_d";
  DEFINE_FRTYPE "fmul_d"; DEFINE_FRTYPE "fdiv_d"; DEFINE_FR1TYPE "fsqrt_d";
  DEFINE_FRTYPE "fmin_d"; DEFINE_FRTYPE "fmax_d"; DEFINE_FR3TYPE "fmadd_d";
  DEFINE_FR3TYPE "fmsub_d"; DEFINE_FR3TYPE "fnmadd_d"; DEFINE_FR3TYPE "fnmsub_d";
  DEFINE_FRTYPE "fsgnj_d"; DEFINE_FRTYPE "fsgnjn_d"; DEFINE_FRTYPE "fsgnjx_d";
  DEFINE_FR1TYPE "fcvt_d_s"; DEFINE_XFTYPE "fcvt_d_l"; DEFINE_XFTYPE "fcvt_d_lu";
  DEFINE_XFTYPE "fcvt_d_w"; DEFINE_XFTYPE "fcvt_d_wu"; DEFINE_XFTYPE "fcvt_d_wu";
  DEFINE_XFTYPE "fmv_d_x"; DEFINE_FXTYPE "fcvt_l_d"; DEFINE_FXTYPE "fcvt_lu_d";
  DEFINE_FXTYPE "fcvt_w_d"; DEFINE_FXTYPE "fcvt_wu_d"; DEFINE_FXTYPE "fclass_d";
  DEFINE_FXTYPE "fmv_x_d"; DEFINE_FXTYPE "feq_d"; DEFINE_FXTYPE "flt_d"; DEFINE_FXTYPE "fle_d"].

Definition explicit_rvc : list disasm_insn_t := [
  DISASM_INSN "ebreak" "c_add" (mask_rd .| mask_rvc_rs2) [];
  disasm_insn "ret" (match_code "c_li" .| match_rd_ra) (mask_code "c_li" .| mask_rd .| mask_rvc_imm) [];
  DISASM_INSN "jr" "c_li" mask_rvc_imm [rvc_rs1];
  DISASM_INSN "jalr" "c_lui" mask_rvc_imm [rvc_rs1];
  DISASM_INSN "nop" "c_addi" (mask_rd .| mask_rvc_imm) [];
  DISASM_INSN "addi" "c_addi16sp" mask_rd [rvc_sp; rvc_sp; rvc_addi16sp_imm];
  DISASM_INSN "addi" "c_addi4spn" 0 [rvc_rs1s; rvc_sp; rvc_addi4spn_imm];
  DISASM_INSN "li" "c_li" 0 [xrd; rvc_imm]; DISASM_INSN "lui" "c_lui" 0 [xrd; rvc_uimm];
  DISASM_INSN "addi" "c_addi" 0 [xrd; xrd; rvc_imm];
  DISASM_INSN "slli" "c_slli" 0 [xrd; rvc_shamt]; DISASM_INSN "mv" "c_mv" 0 [xrd; rvc_rs2];
  DISASM_INSN "add" "c_add" 0 [xrd; xrd; rvc_rs2];
  DISASM_INSN "addw" "c_addw" 0 [rvc_rs1s; rvc_rs1s; rvc_rs2s];
  DISASM_INSN "sub" "c_sub" 0 [rvc_rs1s; rvc_rs1s; rvc_rs2s];
  DISASM_INSN "subw" "c_subw" 0 [rvc_rs1s; rvc_rs1s; rvc_rs2s];
  DISASM_INSN "and" "c_and" 0 [rvc_rs1s; rvc_rs1s; rvc_rs2s];
  DISASM_INSN "or" "c_or" 0 [rvc_rs1s; rvc_rs1s; rvc_rs2s];
  DISASM_INSN "xor" "c_xor" 0 [rvc_rs1s; rvc_rs1s; rvc_rs2s];
  DISASM_INSN "lw" "c_lwsp" 0 [xrd; rvc_lwsp_address];
  DISASM_INSN "fld" "c_fld" 0 [rvc_rs2s; rvc_ld_address];
  DISASM_INSN "sw" "c_swsp" 0 [rvc_rs2; rvc_swsp_address];
  DISASM_INSN "lw" "c_lw" 0 [rvc_rs2s; rvc_lw_address];
  DISASM_INSN "sw" "c_sw" 0 [rvc_rs2s; rvc_lw_address];
  DISASM_INSN "beqz" "c_beqz" 0 [rvc_rs1s; rvc_branch_target];
  DISASM_INSN "bnez" "c_bnez" 0 [rvc_rs1s; rvc_branch_target];
  DISASM_INSN "j" "c_j" 0 [rvc_jump_target]].

Definition explicit_rvc32 : list disasm_insn_t := [
  DISASM_INSN "flw" "c_flw" 0 [rvc_rs2s; rvc_lw_address];
  DISASM_INSN "flw" "c_flwsp" 0 [xrd; rvc_lwsp_address];
  DISASM_INSN "fsw" "c_fsw" 0 [rvc_rs2s; rvc_lw_address];
  DISASM_INSN "fsw" "c_fswsp" 0 [rvc_rs2; rvc_swsp_address];
  DISASM_INSN "jal" "c_jal" 0 [rvc_jump_target]].

Definition explicit_rvc64 : list disasm_insn_t := [
  DISASM_INSN "ld" "c_ld" 0 [rvc_rs2s; rvc_ld_address];
  DISASM_INSN "ld" "c_ldsp" 0 [xrd; rvc_ldsp_address];
  DISASM_INSN "sd" "c_sd" 0 [rvc_rs2s; rvc_ld_address];
  DISASM_INSN "sd" "c_sdsp" 0 [rvc_rs2; rvc_sdsp_address];
  DISASM_INSN "addiw" "c_addiw" 0 [xrd; xrd; rvc_imm]].

(** The fallback, for every declared instruction. *)
Definition fallback : list disasm_insn_t :=
  (fun '(code, (match_, mask)) => disasm_insn (code ++ " (args unknown)") match_ mask [])
  <$> declared_insns.

Definition disasm_entries (xlen : Z) : list disasm_insn_t :=
  (explicit_int ++ explicit_fp ++ explicit_rvc
  ++ (if (xlen =? 32)%Z then explicit_rvc32 else explicit_rvc64) ++ fallback)%list.
Definition disassembler (xlen : Z) : disassembler_t :=
  foldl (fun d e => add_insn e d) ∅ (disasm_entries xlen).
