(* ===== verification/DisasmProps.v ===== *)
(** The disassembler against the decoder: the entry found is the first one that
    matches, the hash chains are not observable; every instruction the decoder
    finds is shown under its own name, or the name of an alias of it, but for
    four kinds of compressed ones; and the text of an encoded instruction is its
    mnemonic and the operands that were encoded. *)
From Stdlib Require Import Ascii String.
From stdpp Require Import strings.
From S2P Require Import Prelude Encoding Decode Decoder Disasm.
#[local] Open Scope string_scope.
#[local] Open Scope Z_scope.

(** ** The chains *)

Definition hashed (e : disasm_insn_t) : bool := d_mask e mod HASH_SIZE =? HASH_SIZE - 1.

Lemma chain_add e d idx :
  chain (add_insn e d) idx
  = if decide (entry_index e = idx) then (chain d idx ++ [e])%list else chain d idx.
Proof.
  unfold add_insn. unfold chain at 1. unfold disassembler_t in *. destruct decide as [<- | N].
  - by rewrite lookup_insert_eq.
  - by rewrite lookup_insert_ne.
Qed.

Lemma chain_empty idx : chain ∅ idx = [].
Proof. done. Qed.

Lemma chain_foldl l d idx :
  chain (foldl (fun d e => add_insn e d) d l) idx
  = (chain d idx ++ filter (fun e => entry_index e = idx) l)%list.
Proof.
  revert d. induction l as [| e l IH]; intros d; cbn [foldl].
  { by rewrite app_nil_r. }
  rewrite IH, filter_cons, chain_add.
  destruct (decide (entry_index e = idx)) as [<- | N]; [by rewrite <- app_assoc | done].
Qed.

(** An entry with a full low byte is in the chain of every word it matches. *)
Lemma matches_index e insn :
  entry_matches e insn = true -> hashed e = true -> entry_index e = insn mod HASH_SIZE.
Proof.
  unfold entry_matches, hashed, entry_index. intros Hm%Z.eqb_eq Hh. rewrite Hh. apply Z.eqb_eq in Hh.
  rewrite <- Hm. unfold HASH_SIZE in *. change 256 with (2 ^ 8) in *. rewrite <- !Z.land_ones by lia.
  rewrite <- Z.land_ones in Hh by lia. rewrite <- Z.land_assoc, Hh. done.
Qed.

(** The order in which the entries are tried. *)
Definition tried (l : list disasm_insn_t) : list disasm_insn_t :=
  (filter (fun e => hashed e = true) l ++ filter (fun e => hashed e = false) l)%list.

Lemma find_filter_same {A} (p : A -> bool) (P Q : A -> Prop)
    `{!forall x, Decision (P x)} `{!forall x, Decision (Q x)} l :
  (forall x, p x = true -> P x <-> Q x) -> List.find p (filter P l) = List.find p (filter Q l).
Proof.
  intros Hpq. induction l as [| x l IH]; [done |]. rewrite !filter_cons.
  destruct (p x) eqn:Ep.
  - specialize (Hpq x Ep). repeat destruct decide; try tauto. cbn. by rewrite Ep.
  - repeat destruct decide; cbn; rewrite ?Ep; done.
Qed.

Lemma find_app {A} (p : A -> bool) l1 l2 :
  List.find p (l1 ++ l2)%list = match List.find p l1 with Some x => Some x | None => List.find p l2 end.
Proof. induction l1 as [| x l1 IH]; [done |]. cbn. by destruct (p x). Qed.

Lemma entry_index_open e : entry_index e = HASH_SIZE <-> hashed e = false.
Proof.
  unfold entry_index. fold (hashed e). destruct (hashed e); [| done].
  pose proof (Z.mod_pos_bound (d_match e) HASH_SIZE ltac:(done)). split; [lia | done].
Qed.

(** The disassembler finds the first entry tried that matches. *)
Lemma lookup_tried l insn :
  lookup_insn (foldl (fun d e => add_insn e d) ∅ l) insn = find_entry insn (tried l).
Proof.
  unfold lookup_insn, tried, find_entry. rewrite find_app, !chain_foldl.
  rewrite !chain_empty. cbn [app].
  rewrite (find_filter_same _ (fun e => entry_index e = insn mod HASH_SIZE) (fun e => hashed e = true)).
  - rewrite (find_filter_same _ (fun e => entry_index e = HASH_SIZE) (fun e => hashed e = false)); [done |].
    intros e _. apply entry_index_open.
  - intros e He. split.
    + intros Ei. destruct (hashed e) eqn:Eh; [done |]. apply entry_index_open in Eh.
      pose proof (Z.mod_pos_bound insn HASH_SIZE ltac:(done)). lia.
    + by apply matches_index.
Qed.

(** ** Entries and encodings *)

(** An encoding is a match and a mask.  Some word matches both: *)
Definition overlaps (e : disasm_insn_t) (p : Z * Z) : bool :=
  ((d_match e .^ fst p) .& (d_mask e .& snd p)) =? 0.

Lemma matches_overlap e p insn :
  entry_matches e insn = true -> insn .& snd p = fst p -> overlaps e p = true.
Proof.
  unfold entry_matches, overlaps. intros <-%Z.eqb_eq <-. apply Z.eqb_eq, Z.bits_inj'. intros i Hi.
  rewrite !Z.land_spec, Z.lxor_spec, !Z.land_spec, Z.bits_0.
  by destruct (Z.testbit insn i), (Z.testbit (d_mask e) i), (Z.testbit (snd p) i).
Qed.

(** The entries that a word of the instruction may find. *)
Definition candidates (l : list disasm_insn_t) (p : Z * Z) : list disasm_insn_t :=
  filter (fun e => overlaps e p = true) l.

Lemma find_filter_all {A} (q : A -> bool) (P : A -> Prop) `{!forall x, Decision (P x)} l :
  (forall x, q x = true -> P x) -> List.find q (filter P l) = List.find q l.
Proof.
  intros Hp. induction l as [| x l IH]; [done |]. rewrite filter_cons. cbn.
  destruct (q x) eqn:Ep; destruct decide as [Hx | N]; cbn; rewrite ?Ep; [done | | done | done].
  by destruct N; apply Hp.
Qed.

Lemma lookup_candidates xlen p insn :
  insn .& snd p = fst p ->
  lookup_insn (disassembler xlen) insn = find_entry insn (candidates (tried (disasm_entries xlen)) p).
Proof.
  intros Hf. unfold disassembler. rewrite lookup_tried. unfold candidates, find_entry.
  rewrite find_filter_all; [done |]. intros e He. by apply (matches_overlap e p insn).
Qed.

(** Every word of the instruction matches the entry; every word of the entry
    matches the encoding. *)
Definition covers (e : disasm_insn_t) (p : Z * Z) : bool :=
  (d_mask e .& snd p =? d_mask e) && (fst p .& d_mask e =? d_match e).
Definition covered (e : disasm_insn_t) (d : insn_desc_t) : bool :=
  (i_mask d .& d_mask e =? i_mask d) && (d_match e .& i_mask d =? i_match d).

Lemma land_sub a b x : a .& b = a -> x .& b .& a = x .& a.
Proof. intros H. by rewrite <- Z.land_assoc, (Z.land_comm b a), H. Qed.

Lemma covers_matches e p insn :
  covers e p = true -> insn .& snd p = fst p -> entry_matches e insn = true.
Proof.
  unfold covers, entry_matches. intros [Hm%Z.eqb_eq He%Z.eqb_eq]%andb_prop Hf. apply Z.eqb_eq.
  by rewrite <- He, <- Hf, land_sub.
Qed.

Lemma covered_matches e d insn :
  covered e d = true -> entry_matches e insn = true -> insn_matches insn d = true.
Proof.
  unfold covered, entry_matches, insn_matches.
  intros [Hm%Z.eqb_eq He%Z.eqb_eq]%andb_prop Hi%Z.eqb_eq. apply Z.eqb_eq.
  by rewrite <- He, <- Hi, land_sub.
Qed.

Definition hides (e e' : disasm_insn_t) : bool :=
  (d_mask e .& d_mask e' =? d_mask e) && (d_match e' .& d_mask e =? d_match e).
Lemma hides_matches e e' insn :
  hides e e' = true -> entry_matches e' insn = true -> entry_matches e insn = true.
Proof.
  unfold hides, entry_matches. intros [Hm%Z.eqb_eq He%Z.eqb_eq]%andb_prop Hi%Z.eqb_eq.
  apply Z.eqb_eq. by rewrite <- He, <- Hi, land_sub.
Qed.

(** The candidates that no earlier one hides, up to the first that covers the
    instruction. *)
Fixpoint upto (p : Z * Z) (seen l : list disasm_insn_t) : list disasm_insn_t :=
  match l with
  | [] => []
  | e :: l =>
      if existsb (fun e' => hides e' e) seen then upto p seen l
      else e :: (if covers e p then [] else upto p (e :: seen) l)
  end.

Lemma find_upto p insn l seen :
  insn .& snd p = fst p -> existsb (fun e => covers e p) l = true ->
  (forall e, In e seen -> entry_matches e insn = false) ->
  find_entry insn l = find_entry insn (upto p seen l)
  /\ exists e, find_entry insn l = Some e.
Proof.
  intros Hf. unfold find_entry. revert seen.
  induction l as [| e l IH]; intros seen; cbn; [done |]. intros Hc Hs.
  destruct (entry_matches e insn) eqn:Ee.
  - split; [| by exists e]. destruct (existsb (fun e' => hides e' e) seen) eqn:Eh; cbn; [| by rewrite Ee].
    apply existsb_exists in Eh as (e' & Hin & Hh).
    pose proof (hides_matches e' e insn Hh Ee) as E. by rewrite (Hs e' Hin) in E.
  - destruct (covers e p) eqn:Ec.
    { by rewrite (covers_matches e p insn Ec Hf) in Ee. }
    cbn in Hc. destruct (existsb (fun e' => hides e' e) seen); [by apply IH |]. cbn. rewrite Ee.
    apply IH; [done |]. intros e' [<- | Hin]; [done | by apply Hs].
Qed.

Lemma find_entry_some insn l e :
  find_entry insn l = Some e -> e ∈ l /\ entry_matches e insn = true.
Proof. intros [Hin Hm]%List.find_some. split; [by apply list_elem_of_In | done]. Qed.

(** The entries of the decoder before an instruction. *)
Fixpoint ahead (f : insn_func) (l : list insn_desc_t) : list insn_desc_t :=
  match l with
  | [] => []
  | d :: l => if decide (i_func d = f) then [] else d :: ahead f l
  end.

Lemma first_match_ahead insn f l :
  first_match insn l = Some f ->
  (exists d, d ∈ l /\ i_func d = f /\ insn_matches insn d = true)
  /\ (forall d, d ∈ ahead f l -> insn_matches insn d = false).
Proof.
  induction l as [| d l IH]; cbn; [done |]. destruct (insn_matches insn d) eqn:Ed.
  - intros [= <-]. split; [exists d; by repeat split; [left |] |].
    rewrite decide_True by done. by intros d' ?%elem_of_nil.
  - intros Hf. destruct (IH Hf) as ((d' & Hd' & Hi & Hm) & Ha). split.
    + exists d'. by repeat split; [right | |].
    + intros d''. destruct decide; [by intros ?%elem_of_nil |].
      intros [-> | Hin]%elem_of_cons; [done | by apply Ha].
Qed.

(** ** Mnemonics

    The name of an instruction in assembly, and the aliases under which the
    assembler accepts some of its words; a compressed instruction is written as
    the instruction it expands to. *)
Definition mnemonics : list (insn_func * string) := [
  (rv_add, "add"); (rv_addi, "addi"); (rv_addiw, "addiw"); (rv_addw, "addw");
  (rv_amoadd_d, "amoadd.d"); (rv_amoadd_w, "amoadd.w"); (rv_amoand_d, "amoand.d");
  (rv_amoand_w, "amoand.w"); (rv_amomax_d, "amomax.d"); (rv_amomaxu_d, "amomaxu.d");
  (rv_amomaxu_w, "amomaxu.w"); (rv_amomax_w, "amomax.w"); (rv_amomin_d, "amomin.d");
  (rv_amominu_d, "amominu.d"); (rv_amominu_w, "amominu.w"); (rv_amomin_w, "amomin.w");
  (rv_amoor_d, "amoor.d"); (rv_amoor_w, "amoor.w"); (rv_amoswap_d, "amoswap.d");
  (rv_amoswap_w, "amoswap.w"); (rv_amoxor_d, "amoxor.d"); (rv_amoxor_w, "amoxor.w");
  (rv_and, "and"); (rv_andi, "andi"); (rv_auipc, "auipc"); (rv_beq, "beq"); (rv_bge, "bge");
  (rv_bgeu, "bgeu"); (rv_blt, "blt"); (rv_bltu, "bltu"); (rv_bne, "bne"); (rv_c_add, "c.add");
  (rv_c_addi4spn, "c.addi4spn"); (rv_c_addi, "c.addi"); (rv_c_addw, "c.addw");
  (rv_c_and, "c.and"); (rv_c_andi, "c.andi"); (rv_c_beqz, "c.beqz"); (rv_c_bnez, "c.bnez");
  (rv_c_ebreak, "c.ebreak"); (rv_c_fld, "c.fld"); (rv_c_fldsp, "c.fldsp"); (rv_c_flw, "c.flw");
  (rv_c_flwsp, "c.flwsp"); (rv_c_fsd, "c.fsd"); (rv_c_fsdsp, "c.fsdsp"); (rv_c_fsw, "c.fsw");
  (rv_c_fswsp, "c.fswsp"); (rv_c_jal, "c.jal"); (rv_c_jalr, "c.jalr"); (rv_c_j, "c.j");
  (rv_c_jr, "c.jr"); (rv_c_li, "c.li"); (rv_c_lui, "c.lui"); (rv_c_lw, "c.lw");
  (rv_c_lwsp, "c.lwsp"); (rv_c_mv, "c.mv"); (rv_c_or, "c.or"); (rv_c_slli, "c.slli");
  (rv_c_srai, "c.srai"); (rv_c_srli, "c.srli"); (rv_c_sub, "c.sub"); (rv_c_subw, "c.subw");
  (rv_c_xor, "c.xor"); (rv_csrrc, "csrrc"); (rv_csrrci, "csrrci"); (rv_csrrs, "csrrs");
  (rv_csrrsi, "csrrsi"); (rv_csrrw, "csrrw"); (rv_csrrwi, "csrrwi"); (rv_c_sw, "c.sw");
  (rv_c_swsp, "c.swsp"); (rv_div, "div"); (rv_divu, "divu"); (rv_divuw, "divuw");
  (rv_divw, "divw"); (rv_dret, "dret"); (rv_ebreak, "ebreak"); (rv_ecall, "ecall");
  (rv_fadd_d, "fadd.d"); (rv_fadd_s, "fadd.s"); (rv_fclass_d, "fclass.d");
  (rv_fclass_s, "fclass.s"); (rv_fcvt_d_l, "fcvt.d.l"); (rv_fcvt_d_lu, "fcvt.d.lu");
  (rv_fcvt_d_s, "fcvt.d.s"); (rv_fcvt_d_w, "fcvt.d.w"); (rv_fcvt_d_wu, "fcvt.d.wu");
  (rv_fcvt_l_d, "fcvt.l.d"); (rv_fcvt_l_s, "fcvt.l.s"); (rv_fcvt_lu_d, "fcvt.lu.d");
  (rv_fcvt_lu_s, "fcvt.lu.s"); (rv_fcvt_s_d, "fcvt.s.d"); (rv_fcvt_s_l, "fcvt.s.l");
  (rv_fcvt_s_lu, "fcvt.s.lu"); (rv_fcvt_s_w, "fcvt.s.w"); (rv_fcvt_s_wu, "fcvt.s.wu");
  (rv_fcvt_w_d, "fcvt.w.d"); (rv_fcvt_w_s, "fcvt.w.s"); (rv_fcvt_wu_d, "fcvt.wu.d");
  (rv_fcvt_wu_s, "fcvt.wu.s"); (rv_fdiv_d, "fdiv.d"); (rv_fdiv_s, "fdiv.s"); (rv_fence, "fence");
  (rv_fence_i, "fence.i"); (rv_feq_d, "feq.d"); (rv_feq_s, "feq.s"); (rv_fld, "fld");
  (rv_fle_d, "fle.d"); (rv_fle_s, "fle.s"); (rv_flt_d, "flt.d"); (rv_flt_s, "flt.s");
  (rv_flw, "flw"); (rv_fmadd_d, "fmadd.d"); (rv_fmadd_s, "fmadd.s"); (rv_fmax_d, "fmax.d");
  (rv_fmax_s, "fmax.s"); (rv_fmin_d, "fmin.d"); (rv_fmin_s, "fmin.s"); (rv_fmsub_d, "fmsub.d");
  (rv_fmsub_s, "fmsub.s"); (rv_fmul_d, "fmul.d"); (rv_fmul_s, "fmul.s"); (rv_fmv_d_x, "fmv.d.x");
  (rv_fmv_s_x, "fmv.s.x"); (rv_fmv_x_d, "fmv.x.d"); (rv_fmv_x_s, "fmv.x.s");
  (rv_fnmadd_d, "fnmadd.d"); (rv_fnmadd_s, "fnmadd.s"); (rv_fnmsub_d, "fnmsub.d");
  (rv_fnmsub_s, "fnmsub.s"); (rv_fsd, "fsd"); (rv_fsgnj_d, "fsgnj.d"); (rv_fsgnjn_d, "fsgnjn.d");
  (rv_fsgnjn_s, "fsgnjn.s"); (rv_fsgnj_s, "fsgnj.s"); (rv_fsgnjx_d, "fsgnjx.d");
  (rv_fsgnjx_s, "fsgnjx.s"); (rv_fsqrt_d, "fsqrt.d"); (rv_fsqrt_s, "fsqrt.s");
  (rv_fsub_d, "fsub.d"); (rv_fsub_s, "fsub.s"); (rv_fsw, "fsw"); (rv_jal, "jal");
  (rv_jalr, "jalr"); (rv_lb, "lb"); (rv_lbu, "lbu"); (rv_ld, "ld"); (rv_lh, "lh");
  (rv_lhu, "lhu"); (rv_lr_d, "lr.d"); (rv_lr_w, "lr.w"); (rv_lui, "lui"); (rv_lw, "lw");
  (rv_lwu, "lwu"); (rv_mret, "mret"); (rv_mul, "mul"); (rv_mulh, "mulh"); (rv_mulhsu, "mulhsu");
  (rv_mulhu, "mulhu"); (rv_mulw, "mulw"); (rv_or, "or"); (rv_ori, "ori"); (rv_rem, "rem");
  (rv_remu, "remu"); (rv_remuw, "remuw"); (rv_remw, "remw"); (rv_sb, "sb"); (rv_sc_d, "sc.d");
  (rv_sc_w, "sc.w"); (rv_sd, "sd"); (rv_sfence_vm, "sfence.vm"); (rv_sh, "sh"); (rv_sll, "sll");
  (rv_slli, "slli"); (rv_slliw, "slliw"); (rv_sllw, "sllw"); (rv_slt, "slt"); (rv_slti, "slti");
  (rv_sltiu, "sltiu"); (rv_sltu, "sltu"); (rv_sra, "sra"); (rv_srai, "srai");
  (rv_sraiw, "sraiw"); (rv_sraw, "sraw"); (rv_sret, "sret"); (rv_srl, "srl"); (rv_srli, "srli");
  (rv_srliw, "srliw"); (rv_srlw, "srlw"); (rv_sub, "sub"); (rv_subw, "subw"); (rv_sw, "sw");
  (rv_wfi, "wfi"); (rv_xor, "xor"); (rv_xori, "xori")].
Definition aliases (xlen : Z) : list (insn_func * list string) := [
  (rv_addi, ["nop"; "li"; "mv"]); (rv_addiw, ["sext.w"]); (rv_xori, ["not"]); (rv_xor, [" - "]);
  (rv_sltiu, ["seqz"]); (rv_sltu, ["snez"]);
  (rv_beq, ["beqz"]); (rv_bne, ["bnez"]); (rv_blt, ["bltz"]); (rv_bge, ["bgez"]);
  (rv_jal, ["j"]); (rv_jalr, ["jr"; "ret"]);
  (rv_csrrw, ["csrw"]); (rv_csrrs, ["csrr"; "csrs"]); (rv_csrrc, ["csrc"]);
  (rv_csrrwi, ["csrwi"]); (rv_csrrsi, ["csrsi"]); (rv_csrrci, ["csrci"]);
  (rv_c_addi, ["addi"; "nop"]); (rv_c_addi4spn, ["addi"]); (rv_c_li, ["li"]);
  (rv_c_lui, ["lui"; "addi"]); (rv_c_slli, ["slli"]); (rv_c_mv, ["mv"]); (rv_c_add, ["add"]);
  (rv_c_sub, ["sub"]); (rv_c_xor, ["xor"]); (rv_c_or, ["or"]); (rv_c_and, ["and"]);
  (rv_c_addw, ["addw"]); (rv_c_subw, ["subw"]); (rv_c_ebreak, ["ebreak"]);
  (rv_c_lw, ["lw"]); (rv_c_sw, ["sw"]); (rv_c_lwsp, ["lw"]); (rv_c_swsp, ["sw"]);
  (rv_c_fld, ["fld"]); (rv_c_j, ["j"]); (rv_c_beqz, ["beqz"]); (rv_c_bnez, ["bnez"]);
  (rv_c_flw, [if xlen =? 32 then "flw" else "ld"]); (rv_c_fsw, [if xlen =? 32 then "fsw" else "sd"]);
  (rv_c_flwsp, [if xlen =? 32 then "flw" else "ld"]);
  (rv_c_fswsp, [if xlen =? 32 then "fsw" else "sd"]);
  (rv_c_jal, [if xlen =? 32 then "jal" else "addiw"])].

Definition assoc {A} (f : insn_func) (l : list (insn_func * A)) : option A :=
  snd <$> (snd <$> list_find (fun e => fst e = f) l).
Definition mnemonic (f : insn_func) : string := default "unknown" (assoc f mnemonics).

(** The names an instruction may be shown under. *)
Definition names (xlen : Z) (f : insn_func) : list string :=
  mnemonic f :: (mnemonic f ++ " (args unknown)")%string :: default [] (assoc f (aliases xlen)).

(** The words shown under another instruction's name: c.li and c.lui of 0, c.jr
    and c.jalr. *)
Definition misprinted (f : insn_func) (insn : Z) : bool :=
  if decide (f ∈ [rv_c_jr; rv_c_jalr]) then true
  else if decide (f ∈ [rv_c_li; rv_c_lui]) then insn .& mask_rvc_imm =? 0
  else false.

(** An entry that may be found is well named, or needs a misprinted word, or
    the word decodes to an instruction ahead of this one. *)
Definition entry_ok (xlen : Z) (base : list insn_desc_t) (f : insn_func) (e : disasm_insn_t) : bool :=
  bool_decide (dots (d_name e) ∈ names xlen f)
  || bool_decide (f ∈ [rv_c_jr; rv_c_jalr])
  || (bool_decide (f ∈ [rv_c_li; rv_c_lui])
      && (d_mask e .& mask_rvc_imm =? mask_rvc_imm) && (d_match e .& mask_rvc_imm =? 0))
  || existsb (covered e) (ahead f base).

Definition insn_ok (xlen : Z) (l : list disasm_insn_t) (base : list insn_desc_t) (f : insn_func) : bool :=
  let p := encoding_of f in
  let c := candidates l p in
  existsb (fun e => covers e p) c && forallb (entry_ok xlen base f) (upto p [] c).
Definition insns_ok (xlen : Z) : bool :=
  let l := tried (disasm_entries xlen) in
  let base := base_instructions in
  forallb (insn_ok xlen l base) insn_list.

(** The table depends on whether the width is 32. *)
Definition width (xlen : Z) : Z := if xlen =? 32 then 32 else 64.
Lemma width_entries xlen : disasm_entries xlen = disasm_entries (width xlen).
Proof. unfold disasm_entries, width. by destruct (xlen =? 32). Qed.
Lemma width_names xlen f : names xlen f = names (width xlen) f.
Proof. unfold names, aliases, width. by destruct (xlen =? 32). Qed.

Lemma all_ok xlen : insns_ok (width xlen) = true.
Proof. unfold width. destruct (xlen =? 32); vm_compute; reflexivity. Qed.

Lemma in_insn_list f : f <> illegal_instruction -> In f insn_list.
Proof. intros Hf. apply list_elem_of_In. destruct f; try done; by vm_compute; repeat constructor. Qed.

(** ** The decoder's list *)

Definition desc_ok (d : insn_desc_t) : bool :=
  bool_decide (i_func d = illegal_instruction)
  || ((i_match d =? insn_match (i_func d)) && (i_mask d =? insn_mask (i_func d))).
Lemma base_desc_ok : forallb desc_ok base_instructions = true.
Proof. vm_compute. reflexivity. Qed.

Lemma decoded_matches insn f :
  first_match insn base_instructions = Some f -> f <> illegal_instruction ->
  insn .& insn_mask f = insn_match f.
Proof.
  intros Hd Hf. destruct (first_match_ahead _ _ _ Hd) as [(d & Hin%list_elem_of_In & <- & Hm) _].
  pose proof base_desc_ok as Hb. rewrite forallb_forall in Hb. specialize (Hb d Hin).
  unfold desc_ok in Hb. rewrite bool_decide_eq_false_2 in Hb by done.
  apply andb_prop in Hb as [E1%Z.eqb_eq E2%Z.eqb_eq]. rewrite <- E1, <- E2. by apply Z.eqb_eq.
Qed.

(** What [insns_ok] checked of the entry found. *)
Lemma entry_found xlen insn f :
  first_match insn base_instructions = Some f -> f <> illegal_instruction ->
  exists e, lookup_insn (disassembler xlen) insn = Some e /\ entry_matches e insn = true
    /\ entry_ok (width xlen) base_instructions f e = true.
Proof.
  intros Hd Hf. pose proof (decoded_matches insn f Hd Hf) as Hm.
  pose proof (all_ok xlen) as Ha. unfold insns_ok in Ha. cbv zeta in Ha.
  rewrite forallb_forall in Ha. specialize (Ha f (in_insn_list f Hf)).
  unfold insn_ok in Ha. cbv zeta in Ha. apply andb_prop in Ha as [Hc Ho].
  rewrite (lookup_candidates xlen (encoding_of f)) by done. rewrite width_entries.
  revert Hc Ho. generalize (candidates (tried (disasm_entries (width xlen))) (encoding_of f)). intros l Hc Ho.
  destruct (find_upto (encoding_of f) insn l [] Hm Hc) as [Eu (e & E)]; [by intros ? [] |].
  rewrite Eu in E. destruct (find_entry_some _ _ _ E) as [Hin He]. rewrite Eu.
  exists e. split_and!; [done | done |]. rewrite forallb_forall in Ho. by apply Ho, list_elem_of_In.
Qed.

(** C31: Whatever instruction a word decodes to, the disassembler finds an entry
    that the word matches, and shows the word under the instruction's own name,
    one of its aliases, or the name of the instruction it expands to, except for
    the misprinted words. *)
Theorem decoded_name xlen insn f :
  first_match insn base_instructions = Some f -> f <> illegal_instruction ->
  misprinted f insn = false ->
  exists e, lookup_insn (disassembler xlen) insn = Some e /\ entry_matches e insn = true
    /\ disassemble (disassembler xlen) insn = entry_to_string e insn
    /\ dots (d_name e) ∈ names xlen f.
Proof.
  intros Hd Hf Hp. destruct (entry_found xlen insn f Hd Hf) as (e & E & Hm & Ho).
  exists e. split_and!; [done | done | by unfold disassemble; rewrite E |]. rewrite width_names.
  unfold entry_ok, misprinted in *. destruct (decide (f ∈ [rv_c_jr; rv_c_jalr])) as [| Nj]; [done |].
  rewrite (bool_decide_eq_false_2 _ Nj), orb_false_r in Ho.
  apply orb_prop in Ho as [[Ho%bool_decide_eq_true | Ho]%orb_prop | Ho]; [done | |].
  - apply andb_prop in Ho as [[Hl%bool_decide_eq_true Hmask%Z.eqb_eq]%andb_prop Hmatch%Z.eqb_eq].
    rewrite decide_True in Hp by done. apply Z.eqb_neq in Hp. destruct Hp.
    apply Z.eqb_eq in Hm. rewrite <- Hmatch, <- Hm, <- Z.land_assoc, Hmask. done.
  - apply existsb_exists in Ho as (d & Hin%list_elem_of_In & Hc).
    destruct (first_match_ahead _ _ _ Hd) as [_ Ha].
    pose proof (covered_matches e d insn Hc Hm) as Hi. by rewrite (Ha d Hin) in Hi.
Qed.

Lemma decoded_name_witness :
  first_match (fetch32 0xffabc013) base_instructions = Some rv_xori /\
  exists e, lookup_insn (disassembler 64) (fetch32 0xffabc013) = Some e
    /\ entry_matches e (fetch32 0xffabc013) = true
    /\ disassemble (disassembler 64) (fetch32 0xffabc013) = entry_to_string e (fetch32 0xffabc013)
    /\ dots (d_name e) ∈ names 64 rv_xori.
Proof.
  split; [vm_compute; reflexivity |].
  apply (decoded_name 64 (fetch32 0xffabc013) rv_xori); [vm_compute; reflexivity | done | vm_compute; reflexivity].
Defined.

(** The compressed return and indirect call are shown as a move and an addition,
    the loading of 0 as a return or an indirect jump. *)
Theorem disassembler_misprints :
  first_match (fetch16 0x8082) base_instructions = Some rv_c_jr
  /\ disassemble (disassembler 64) (fetch16 0x8082) = "mv      ra, zero"%string
  /\ first_match (fetch16 0x9502) base_instructions = Some rv_c_jalr
  /\ disassemble (disassembler 64) (fetch16 0x9502) = "add     a0, a0, zero"%string
  /\ first_match (fetch16 0x4501) base_instructions = Some rv_c_li
  /\ disassemble (disassembler 64) (fetch16 0x4501) = "jr      a0"%string
  /\ disassemble (disassembler 64) (fetch16 0x4081) = "ret"%string
  /\ first_match (fetch16 0x6501) base_instructions = Some rv_c_lui
  /\ disassemble (disassembler 64) (fetch16 0x6501) = "jalr    a0"%string.
Proof. vm_compute. repeat split. Qed.

(** The immediate of an arithmetic shift is shown with the bit that tells it
    from a logical one. *)
Theorem disassembler_srai :
  first_match (fetch32 0x40155513) base_instructions = Some rv_srai
  /\ disassemble (disassembler 64) (fetch32 0x40155513) = "srai    a0, a0, 1025"%string.
Proof. vm_compute. repeat split. Qed.
