(* ===== verification/DisasmText.v ===== *)
(** The text of an instruction: an abstract syntax of the 32-bit instructions, as the
    assembler writes them, their encoding field by field in the formats of the ISA manual,
    and the proof that the encoded instruction decodes to the one encoded and is
    disassembled to its mnemonic, or that of the first alias its operands allow, and its
    operands. *)
From Stdlib Require Import Ascii String.
From stdpp Require Import strings.
From S2P Require Import Prelude Encoding Decode Decoder Disasm DisasmProps.
#[local] Open Scope string_scope.
#[local] Open Scope Z_scope.

(** ** Words as sequences of fields, from the low end *)

Fixpoint cat (l : list (Z * Z)) : Z :=
  match l with
  | [] => 0
  | (len, v) :: l => wrap len v + 2 ^ len * cat l
  end.
Fixpoint total (l : list (Z * Z)) : Z :=
  match l with [] => 0 | (len, _) :: l => len + total l end.

Lemma cat_range l : Forall (fun f => 0 < fst f) l -> 0 <= total l /\ 0 <= cat l < 2 ^ total l.
Proof.
  induction 1 as [| [len v] l Hl _ [IHt IH]]; cbn [cat total fst] in *; [done |].
  pose proof (wrap_range len v ltac:(lia)) as Hw. unfold in_range in Hw.
  rewrite Z.pow_add_r by lia. set (t := 2 ^ total l) in *. set (c := cat l) in *. set (p := 2 ^ len) in *.
  assert (p * c <= p * (t - 1)) by (apply Z.mul_le_mono_nonneg_l; lia). nia.
Qed.

(** A mask, field by field. *)
Lemma land_cat len v x mask :
  0 < len -> 0 <= x ->
  (wrap len v + 2 ^ len * x) .& mask = (wrap len v .& (mask mod 2 ^ len)) + 2 ^ len * (x .& (mask .>> len)).
Proof.
  intros Hl Hx. pose proof (wrap_range len v ltac:(lia)) as Hw. unfold in_range in Hw.
  assert (Hlow : forall i, len <= i -> Z.testbit (wrap len v) i = false).
  { intros i Hi. apply Z.mod_pow2_bits_high. lia. }
  rewrite !(Z.mul_comm (2 ^ len)).
  assert (E : forall a b, (forall i, len <= i -> Z.testbit a i = false) ->
    a + b * 2 ^ len = a .| (b .<< len)).
  { intros a b Ha. rewrite <- shl_mul by lia. symmetry. rewrite <- Z.lxor_lor.
    - symmetry. apply Z.add_nocarry_lxor, Z.bits_inj'. intros i Hi. rewrite Z.land_spec, Z.bits_0.
      destruct (Z.lt_ge_cases i len); [rewrite Z.shiftl_spec_low by lia; by apply andb_false_r | by rewrite Ha].
    - apply Z.bits_inj'. intros i Hi. rewrite Z.land_spec, Z.bits_0.
      destruct (Z.lt_ge_cases i len); [rewrite Z.shiftl_spec_low by lia; by apply andb_false_r | by rewrite Ha]. }
  rewrite !E.
  - apply Z.bits_inj'. intros i Hi. rewrite Z.lor_spec, !Z.land_spec, Z.lor_spec.
    destruct (Z.lt_ge_cases i len).
    + rewrite !Z.shiftl_spec_low, !orb_false_r, Z.mod_pow2_bits_low by lia. done.
    + rewrite Z.mod_pow2_bits_high, Hlow, !Z.shiftl_spec, Z.land_spec, Z.shiftr_spec by lia.
      cbn. by replace (i - len + len) with i by lia.
  - intros i Hi. rewrite Z.land_spec, Hlow by done. done.
  - done.
Qed.

Lemma pair_eq len a b x y :
  0 < len -> 0 <= a < 2 ^ len -> 0 <= x < 2 ^ len -> (a + 2 ^ len * b =? x + 2 ^ len * y) = (a =? x) && (b =? y).
Proof.
  intros Hl Ha Hx. destruct (Z.eqb_spec a x) as [<- |], (Z.eqb_spec b y) as [<- |]; cbn [andb].
  - apply Z.eqb_refl.
  - apply Z.eqb_neq. nia.
  - apply Z.eqb_neq. nia.
  - apply Z.eqb_neq. nia.
Qed.

(** ** Operands and formats *)

Record operands := Operands {
  o_rd : Z; o_rs1 : Z; o_rs2 : Z; o_rs3 : Z; o_rm : Z; o_aqrl : Z; o_imm : Z; o_csr : Z
}.

(** What a field of an instruction holds. *)
Inductive field :=
  | Fixed | Rd | Rs1 | Rs2 | Rs3 | Rm | Aqrl | CsrNo | Imm (lo len : Z).
#[export] Instance field_eq_dec : EqDecision field.
Proof. solve_decision. Defined.

Definition value (o : operands) (s : field) : Z :=
  match s with
  | Fixed => 0 | Rd => o_rd o | Rs1 => o_rs1 o | Rs2 => o_rs2 o | Rs3 => o_rs3 o
  | Rm => o_rm o | Aqrl => o_aqrl o | CsrNo => o_csr o
  | Imm lo len => bits (o_imm o) lo len
  end.

Inductive format := FmtR | FmtRm | FmtR1 | FmtR1m | FmtR4 | FmtI | FmtSh | FmtShw | FmtS | FmtSB
  | FmtU | FmtUJ | FmtCsr | FmtAmo | FmtNone.
#[export] Instance format_eq_dec : EqDecision format.
Proof. solve_decision. Defined.

Definition pattern (fmt : format) : list (Z * field) :=
  match fmt with
  | FmtR => [(7, Fixed); (5, Rd); (3, Fixed); (5, Rs1); (5, Rs2); (7, Fixed)]
  | FmtRm => [(7, Fixed); (5, Rd); (3, Rm); (5, Rs1); (5, Rs2); (7, Fixed)]
  | FmtR1 => [(7, Fixed); (5, Rd); (3, Fixed); (5, Rs1); (5, Fixed); (7, Fixed)]
  | FmtR1m => [(7, Fixed); (5, Rd); (3, Rm); (5, Rs1); (5, Fixed); (7, Fixed)]
  | FmtR4 => [(7, Fixed); (5, Rd); (3, Rm); (5, Rs1); (5, Rs2); (2, Fixed); (5, Rs3)]
  | FmtI => [(7, Fixed); (5, Rd); (3, Fixed); (5, Rs1); (12, Imm 0 12)]
  | FmtSh => [(7, Fixed); (5, Rd); (3, Fixed); (5, Rs1); (6, Imm 0 6); (6, Fixed)]
  | FmtShw => [(7, Fixed); (5, Rd); (3, Fixed); (5, Rs1); (5, Imm 0 5); (7, Fixed)]
  | FmtS => [(7, Fixed); (5, Imm 0 5); (3, Fixed); (5, Rs1); (5, Rs2); (7, Imm 5 7)]
  | FmtSB => [(7, Fixed); (1, Imm 11 1); (4, Imm 1 4); (3, Fixed); (5, Rs1); (5, Rs2);
              (6, Imm 5 6); (1, Imm 12 1)]
  | FmtU => [(7, Fixed); (5, Rd); (20, Imm 12 20)]
  | FmtUJ => [(7, Fixed); (5, Rd); (8, Imm 12 8); (1, Imm 11 1); (10, Imm 1 10); (1, Imm 20 1)]
  | FmtCsr => [(7, Fixed); (5, Rd); (3, Fixed); (5, Rs1); (12, CsrNo)]
  | FmtAmo => [(7, Fixed); (5, Rd); (3, Fixed); (5, Rs1); (5, Rs2); (2, Aqrl); (5, Fixed)]
  | FmtNone => [(32, Fixed)]
  end.

(** The fixed fields are those of the instruction's match [m]. *)
Fixpoint fill (m : Z) (pat : list (Z * field)) (o : operands) : list (Z * Z) :=
  match pat with
  | [] => []
  | (len, Fixed) :: pat => (len, m mod 2 ^ len) :: fill (m .>> len) pat o
  | (len, s) :: pat => (len, value o s) :: fill (m .>> len) pat o
  end.
Definition encode (f : insn_func) (fmt : format) (o : operands) : Z :=
  cat (fill (insn_match f) (pattern fmt) o).

(** The operands a format can encode. *)
Definition imm_ok (fmt : format) (i : Z) : Prop :=
  match fmt with
  | FmtI | FmtS => - 2 ^ 11 <= i < 2 ^ 11
  | FmtSB => - 2 ^ 12 <= i < 2 ^ 12 /\ i mod 2 = 0
  | FmtU => - 2 ^ 31 <= i < 2 ^ 31 /\ i mod 2 ^ 12 = 0
  | FmtUJ => - 2 ^ 20 <= i < 2 ^ 20 /\ i mod 2 = 0
  | FmtSh => 0 <= i < 2 ^ 6
  | FmtShw => 0 <= i < 2 ^ 5
  | _ => True
  end.
Record operands_ok (fmt : format) (o : operands) : Prop := {
  ok_rd : in_range 5 (o_rd o); ok_rs1 : in_range 5 (o_rs1 o); ok_rs2 : in_range 5 (o_rs2 o);
  ok_rs3 : in_range 5 (o_rs3 o); ok_rm : in_range 3 (o_rm o); ok_aqrl : in_range 2 (o_aqrl o);
  ok_csr : in_range 12 (o_csr o); ok_imm : imm_ok fmt (o_imm o)
}.

Lemma fill_positive m pat o : Forall (fun f => 0 < fst f) pat -> Forall (fun f => 0 < fst f) (fill m pat o).
Proof.
  intros H. revert m. induction H as [| [len s] pat Hl _ IH]; intros m; [constructor |].
  cbn in *. destruct s; constructor; (done || apply IH).
Qed.
Lemma pattern_positive fmt : Forall (fun f => 0 < fst f) (pattern fmt).
Proof. destruct fmt; cbn; repeat constructor; done. Qed.

(** ** Fields of an encoded instruction *)

Fixpoint at_offset (pat : list (Z * field)) (lo : Z) : option (Z * field) :=
  match pat with
  | [] => None
  | (len, s) :: pat => if lo =? 0 then Some (len, s) else if lo <? len then None else at_offset pat (lo - len)
  end.

Lemma bits_next len v x lo n :
  0 < len -> len <= lo -> bits (wrap len v + 2 ^ len * x) lo n = bits x (lo - len) n.
Proof.
  intros Hl Hlo. unfold bits. pose proof (wrap_range len v ltac:(lia)) as Hw. unfold in_range in Hw.
  replace (2 ^ lo) with (2 ^ len * 2 ^ (lo - len)) by (rewrite <- Z.pow_add_r by lia; f_equal; lia).
  pose proof (pow2_pos len ltac:(lia)). pose proof (pow2_pos (lo - len) ltac:(lia)).
  rewrite <- Z.div_div by lia. rewrite (Z.mul_comm (2 ^ len)), Z.div_add by lia.
  by rewrite (Z.div_small (wrap len v)) by lia.
Qed.

Lemma bits_first len v x : 0 < len -> bits (wrap len v + 2 ^ len * x) 0 len = wrap len v.
Proof.
  intros Hl. unfold bits. rewrite Z.div_1_r, Z.mul_comm, Z.mod_add by (pose proof (pow2_pos len); lia).
  apply wrap_idemp. lia.
Qed.

Lemma encoded_field m pat o lo len s :
  Forall (fun f => 0 < fst f) pat -> 0 <= lo -> at_offset pat lo = Some (len, s) -> s <> Fixed ->
  bits (cat (fill m pat o)) lo len = wrap len (value o s).
Proof.
  intros H. revert m lo. induction H as [| [n s'] pat Hn _ IH]; intros m lo Hlo; cbn [at_offset]; [done |].
  cbn [fst] in Hn. destruct (Z.eqb_spec lo 0) as [-> |].
  { intros [= -> ->] Hs. destruct s; try done; apply bits_first; done. }
  destruct (Z.ltb_spec lo n); [done |]. intros E Hs.
  destruct s'; cbn [fill cat]; rewrite bits_next by lia; apply IH; done || lia.
Qed.

(** ** Constraints on the operands *)

Definition constraint := (field * Z)%type.
Definition holds (o : operands) (c : constraint) : bool := value o (fst c) =? snd c.

(** What a mask and a match ask of the operands; [None]: the mask cuts a field, or the
    fixed fields do not match. *)
Fixpoint constraints (mask mt m : Z) (pat : list (Z * field)) : option (list constraint) :=
  match pat with
  | [] => if mt =? 0 then Some [] else None
  | (len, s) :: pat =>
      let mk := mask mod 2 ^ len in
      let v := mt mod 2 ^ len in
      cs ← constraints (mask .>> len) (mt .>> len) (m .>> len) pat;
      match s with
      | Fixed => if (m mod 2 ^ len) .& mk =? v then Some cs else None
      | _ => if (mk =? 0) && (v =? 0) then Some cs
             else if mk =? Z.ones len then Some ((s, v) :: cs) else None
      end
  end.

Definition fits (o : operands) (pat : list (Z * field)) : Prop :=
  Forall (fun f => 0 < fst f /\ (snd f <> Fixed -> in_range (fst f) (value o (snd f)))) pat.

Lemma fits_positive o pat : fits o pat -> Forall (fun f => 0 < fst f) pat.
Proof. intros H. eapply Forall_impl; [exact H |]. by intros f [Hf _]. Qed.

Lemma constraints_spec o mask mt m pat cs :
  fits o pat -> constraints mask mt m pat = Some cs ->
  (cat (fill m pat o) .& mask =? mt) = forallb (holds o) cs.
Proof.
  intros H. revert mask mt m cs. induction H as [| [len s] pat [Hl Hv] Hp IH]; intros mask mt m cs; cbn [constraints].
  { destruct (Z.eqb_spec mt 0) as [-> |]; [| done]. by intros [= <-]. }
  cbn [fst snd] in *. intros (cs' & Ec & E)%bind_Some. specialize (IH _ _ _ _ Ec).
  assert (forall v, (cat ((len, v) :: fill (m .>> len) pat o) .& mask =? mt)
            = (wrap len v .& (mask mod 2 ^ len) =? mt mod 2 ^ len) && forallb (holds o) cs') as Hstep.
  { intros v. cbn [cat]. pose proof (cat_range (fill (m .>> len) pat o)
      (fill_positive _ _ o (fits_positive o pat Hp))) as [_ Hc].
    rewrite land_cat by lia. rewrite (Z.div_mod mt (2 ^ len)) at 1 by (pose proof (pow2_pos len); lia).
    rewrite (Z.add_comm (2 ^ len * _)), <- IH, <- shr_div by lia. apply pair_eq; [done | |].
    - apply land_range; [lia | apply wrap_range; lia].
    - apply Z.mod_pos_bound, pow2_pos. lia. }
  assert (Hf : s <> Fixed -> forall c,
    (if (mask mod 2 ^ len =? 0) && (mt mod 2 ^ len =? 0) then Some cs'
     else if mask mod 2 ^ len =? Z.ones len then Some ((s, mt mod 2 ^ len) :: cs') else None) = Some c ->
    (cat ((len, value o s) :: fill (m .>> len) pat o) .& mask =? mt) = forallb (holds o) c).
  { intros Hs c. specialize (Hv Hs). rewrite Hstep.
    destruct (Z.eqb_spec (mask mod 2 ^ len) 0) as [-> |]; cbn [andb].
    { destruct (Z.eqb_spec (mt mod 2 ^ len) 0) as [-> |].
      { intros [= <-]. by rewrite Z.land_0_r. }
      destruct (Z.eqb_spec 0 (Z.ones len)) as [E0 |]; [| done].
      rewrite Z.ones_equiv in E0. pose proof (Z.pow_gt_1 2 len ltac:(lia)). lia. }
    destruct (Z.eqb_spec (mask mod 2 ^ len) (Z.ones len)) as [-> |]; [| done]. intros [= <-]. cbn [forallb].
    f_equal. unfold holds. cbn [fst snd]. rewrite Z.land_ones by lia. fold (wrap len (wrap len (value o s))).
    rewrite wrap_idemp, wrap_small by (done || lia). done. }
  destruct s; try (by apply Hf).
  cbn [fill]. rewrite Hstep. destruct (Z.eqb_spec ((m mod 2 ^ len) .& (mask mod 2 ^ len)) (mt mod 2 ^ len)) as [E' |]; [| done].
  injection E as ->. fold (wrap len m) in *. rewrite wrap_idemp by lia. by rewrite E', Z.eqb_refl.
Qed.

(** ** The assembly language *)

Definition reg_syntax : list (format * list arg_t * list insn_func) := [
  (FmtR, [xrd; xrs1; xrs2],
   [rv_add; rv_sub; rv_sll; rv_slt; rv_sltu; rv_xor; rv_srl; rv_sra; rv_or; rv_and;
    rv_mul; rv_mulh; rv_mulhu; rv_mulhsu; rv_div; rv_divu; rv_rem; rv_remu;
    rv_addw; rv_subw; rv_sllw; rv_srlw; rv_sraw; rv_mulw; rv_divw; rv_divuw; rv_remw; rv_remuw]);
  (FmtI, [xrd; xrs1; imm], [rv_addi; rv_slti; rv_sltiu; rv_xori; rv_ori; rv_andi; rv_addiw; rv_jalr]);
  (FmtSh, [xrd; xrs1; imm], [rv_slli; rv_srli]);
  (FmtShw, [xrd; xrs1; imm], [rv_slliw; rv_srliw]);
  (FmtI, [xrd; load_address], [rv_lb; rv_lbu; rv_lh; rv_lhu; rv_lw; rv_lwu; rv_ld]);
  (FmtS, [xrs2; store_address], [rv_sb; rv_sh; rv_sw; rv_sd]);
  (FmtSB, [xrs1; xrs2; branch_target], [rv_beq; rv_bne; rv_blt; rv_bge; rv_bltu; rv_bgeu]);
  (FmtU, [xrd; bigimm], [rv_lui; rv_auipc]);
  (FmtUJ, [xrd; jump_target], [rv_jal]);
  (FmtCsr, [xrd; csr; xrs1], [rv_csrrw; rv_csrrs; rv_csrrc]);
  (FmtCsr, [xrd; csr; zimm5], [rv_csrrwi; rv_csrrsi; rv_csrrci]);
  (FmtAmo, [xrd; xrs2; amo_address],
   [rv_amoadd_w; rv_amoswap_w; rv_amoand_w; rv_amoor_w; rv_amoxor_w; rv_amomin_w; rv_amomax_w;
    rv_amominu_w; rv_amomaxu_w; rv_amoadd_d; rv_amoswap_d; rv_amoand_d; rv_amoor_d; rv_amoxor_d;
    rv_amomin_d; rv_amomax_d; rv_amominu_d; rv_amomaxu_d; rv_sc_w; rv_sc_d]);
  (FmtNone, [], [rv_ecall; rv_ebreak; rv_sret; rv_mret])].
Definition fp_syntax : list (format * list arg_t * list insn_func) := [
  (FmtI, [frd; load_address], [rv_flw; rv_fld]);
  (FmtS, [frs2; store_address], [rv_fsw; rv_fsd]);
  (FmtRm, [frd; frs1; frs2],
   [rv_fadd_s; rv_fsub_s; rv_fmul_s; rv_fdiv_s; rv_fadd_d; rv_fsub_d; rv_fmul_d; rv_fdiv_d]);
  (FmtR, [frd; frs1; frs2],
   [rv_fmin_s; rv_fmax_s; rv_fsgnj_s; rv_fsgnjn_s; rv_fsgnjx_s;
    rv_fmin_d; rv_fmax_d; rv_fsgnj_d; rv_fsgnjn_d; rv_fsgnjx_d]);
  (FmtR4, [frd; frs1; frs2; frs3],
   [rv_fmadd_s; rv_fmsub_s; rv_fnmadd_s; rv_fnmsub_s; rv_fmadd_d; rv_fmsub_d; rv_fnmadd_d; rv_fnmsub_d]);
  (FmtR1m, [frd; frs1], [rv_fsqrt_s; rv_fsqrt_d; rv_fcvt_s_d; rv_fcvt_d_s]);
  (FmtR1m, [frd; xrs1],
   [rv_fcvt_s_l; rv_fcvt_s_lu; rv_fcvt_s_w; rv_fcvt_s_wu; rv_fcvt_d_l; rv_fcvt_d_lu; rv_fcvt_d_w; rv_fcvt_d_wu]);
  (FmtR1, [frd; xrs1], [rv_fmv_s_x; rv_fmv_d_x]);
  (FmtR1m, [xrd; frs1],
   [rv_fcvt_l_s; rv_fcvt_lu_s; rv_fcvt_w_s; rv_fcvt_wu_s; rv_fcvt_l_d; rv_fcvt_lu_d; rv_fcvt_w_d; rv_fcvt_wu_d]);
  (FmtR1, [xrd; frs1], [rv_fclass_s; rv_fclass_d; rv_fmv_x_s; rv_fmv_x_d])].

(** An alias: its name, what it asks of the operands, the operands it is written with. *)
Definition alias := (string * list constraint * list arg_t)%type.

Definition alias_rows : list (insn_func * list alias) := [
  (rv_addi, [("nop", [(Rd, 0); (Rs1, 0); (Imm 0 12, 0)], []);
             ("li", [(Rs1, 0)], [xrd; imm]);
             ("mv", [(Imm 0 12, 0)], [xrd; xrs1])]);
  (rv_addiw, [("sext.w", [(Imm 0 12, 0)], [xrd; xrs1])]);
  (rv_xori, [("not", [(Imm 0 12, 0xfff)], [xrd; xrs1])]);
  (rv_xor, [(" - ", [(Rd, 0); (Rs1, 0); (Rs2, 0)], [])]);
  (rv_sltiu, [("seqz", [(Imm 0 12, 1)], [xrd; xrs1])]);
  (rv_sltu, [("snez", [(Rs1, 0)], [xrd; xrs2])]);
  (rv_beq, [("beqz", [(Rs2, 0)], [xrs1; branch_target])]);
  (rv_bne, [("bnez", [(Rs2, 0)], [xrs1; branch_target])]);
  (rv_blt, [("bltz", [(Rs2, 0)], [xrs1; branch_target])]);
  (rv_bge, [("bgez", [(Rs2, 0)], [xrs1; branch_target])]);
  (rv_jal, [("j", [(Rd, 0)], [jump_target]);
            ("jal", [(Rd, 1)], [jump_target])]);
  (rv_jalr, [("ret", [(Rd, 0); (Rs1, 1); (Imm 0 12, 0)], []);
             ("jr", [(Rd, 0); (Imm 0 12, 0)], [xrs1]);
             ("jalr", [(Rd, 1); (Imm 0 12, 0)], [xrs1])]);
  (rv_csrrw, [("csrw", [(Rd, 0)], [csr; xrs1])]);
  (rv_csrrs, [("csrs", [(Rd, 0)], [csr; xrs1]);
              ("csrr", [(Rs1, 0)], [xrd; csr])]);
  (rv_csrrc, [("csrc", [(Rd, 0)], [csr; xrs1])]);
  (rv_csrrwi, [("csrwi", [(Rd, 0)], [csr; zimm5])]);
  (rv_csrrsi, [("csrsi", [(Rd, 0)], [csr; zimm5])]);
  (rv_csrrci, [("csrci", [(Rd, 0)], [csr; zimm5])])].

(** The forms of an instruction, the one with all its operands last. *)
Definition forms (f : insn_func) (args : list arg_t) : list alias :=
  (default [] (assoc f alias_rows) ++ [(mnemonic f, [], args)])%list.

Definition target (i : Z) (digits : Z -> string) : string :=
  if 0 <=? i then ("pc + " ++ digits i)%string else ("pc - " ++ digits (- i))%string.

(** An operand in assembly. *)
Definition show_arg (o : operands) (a : arg_t) : string :=
  match a with
  | load_address | store_address => based (to_dec (o_imm o)) (xpr (o_rs1 o))
  | amo_address => based EmptyString (xpr (o_rs1 o))
  | xrd => xpr (o_rd o) | xrs1 => xpr (o_rs1 o) | xrs2 => xpr (o_rs2 o)
  | frd => fpr (o_rd o) | frs1 => fpr (o_rs1 o) | frs2 => fpr (o_rs2 o) | frs3 => fpr (o_rs3 o)
  | csr => csr_name (o_csr o)
  | imm => to_dec (o_imm o)
  | bigimm => ("0x" ++ to_hex (bits (o_imm o) 12 20))%string
  | zimm5 => to_dec (o_rs1 o)
  | branch_target => target (o_imm o) to_dec
  | jump_target => target (o_imm o) (fun i => "0x" ++ to_hex i)%string
  | _ => EmptyString
  end.

(** A line: the mnemonic, in a column of eight, and the operands. *)
Definition line (name : string) (args : list string) : string :=
  match args with
  | [] => name
  | _ => (name ++ repeat_char (Nat.max 1 (8 - String.length name)%nat) " " ++ String.concat ", " args)%string
  end.

Definition assembly (f : insn_func) (args : list arg_t) (o : operands) : string :=
  match List.find (fun a => forallb (holds o) (snd (fst a))) (forms f args) with
  | Some (name, _, args) => line name (show_arg o <$> args)
  | None => EmptyString
  end.

(** ** The table gives these forms *)

#[export] Instance arg_eq_dec : EqDecision arg_t.
Proof. solve_decision. Defined.

Definition entry_form (m : Z) (fmt : format) (e : disasm_insn_t) : option alias :=
  if (0 <=? d_mask e) && (d_mask e <? 2 ^ 32) && (String.length (dots (d_name e)) =? String.length (d_name e))%nat
  then cs ← constraints (d_mask e) (d_match e) m (pattern fmt); Some (dots (d_name e), cs, d_args e)
  else None.

Definition field_at (fmt : format) (lo len : Z) (s : field) : bool :=
  bool_decide (at_offset (pattern fmt) lo = Some (len, s)).
(** The operand can be read off the format. *)
Definition arg_ok (m : Z) (fmt : format) (a : arg_t) : bool :=
  match a with
  | xrd | frd => field_at fmt 7 5 Rd
  | xrs1 | frs1 | amo_address | zimm5 => field_at fmt 15 5 Rs1
  | xrs2 | frs2 => field_at fmt 20 5 Rs2
  | frs3 => field_at fmt 27 5 Rs3
  | csr => field_at fmt 20 12 CsrNo
  | imm => bool_decide (fmt = FmtI)
           || bool_decide (fmt = FmtSh) && (m .>> 26 =? 0) || bool_decide (fmt = FmtShw) && (m .>> 25 =? 0)
  | load_address => bool_decide (fmt = FmtI)
  | store_address => bool_decide (fmt = FmtS)
  | branch_target => bool_decide (fmt = FmtSB)
  | bigimm => bool_decide (fmt = FmtU)
  | jump_target => bool_decide (fmt = FmtUJ)
  | _ => false
  end.

Definition form_ok (l : list disasm_insn_t) (base : list insn_desc_t)
    (fmt : format) (args : list arg_t) (f : insn_func) : bool :=
  let p := encoding_of f in
  let c := candidates l p in
  let main := forms f args in
  existsb (fun e => covers e p) c
  && bool_decide (mapM (entry_form (fst p) fmt) (upto p [] c) = Some main)
  && bool_decide (constraints (snd p) (fst p) (fst p) (pattern fmt) = Some [])
  && (0 <=? snd p) && (snd p <? 2 ^ 32)
  && forallb (fun a => forallb (arg_ok (fst p) fmt) (snd a)) main
  && existsb (fun d => bool_decide (i_func d = f)) base
  && forallb (fun d => disjoint_insns d (InsnDesc (fst p) (snd p) f)) (ahead f base).

Definition syntax : list (format * list arg_t * list insn_func) := (reg_syntax ++ fp_syntax)%list.
Definition syntax_ok (xlen : Z) : bool :=
  let l := tried (disasm_entries xlen) in
  let base := base_instructions in
  forallb (fun '(fmt, args, fs) => forallb (form_ok l base fmt args) fs) syntax.

Lemma width_syntax xlen : syntax_ok (width xlen) = true.
Proof. unfold width. destruct (xlen =? 32); vm_compute; reflexivity. Qed.

(** ** The operands are read back *)

Lemma in_range_wrap w x : in_range w x -> wrap w x = x.
Proof. apply wrap_small. Qed.

Lemma operands_fit fmt o : operands_ok fmt o -> fits o (pattern fmt).
Proof.
  intros []. assert (forall lo len, 0 < len -> in_range len (bits (o_imm o) lo len)) as Hb
    by (intros; by apply bits_range).
  destruct fmt; cbn; repeat (apply Forall_cons; split; [split; [done |]; cbn; try done; intros _; by apply Hb |]);
    apply Forall_nil_2.
Qed.

Lemma encode_x f fmt o lo len s :
  operands_ok fmt o -> field_at fmt lo len s = true -> 0 <= lo -> 0 < len -> lo + len <= 32 -> s <> Fixed ->
  (forall a b, s <> Imm a b) -> in_range len (value o s) ->
  insn_x (fetch32 (encode f fmt o)) lo len = value o s.
Proof.
  intros Ho Hf%bool_decide_eq_true Hlo Hlen Hs Hn _ Hv. unfold fetch32. rewrite fetch_x by lia.
  unfold encode. rewrite (encoded_field _ _ o lo len s) by (done || apply pattern_positive).
  by apply wrap_small.
Qed.

Lemma encode_I f fmt o :
  operands_ok fmt o ->
  fmt = FmtI \/ (fmt = FmtSh /\ insn_match f .>> 26 = 0) \/ (fmt = FmtShw /\ insn_match f .>> 25 = 0) ->
  i_imm (fetch32 (encode f fmt o)) = o_imm o.
Proof.
  intros [] Hfmt. set (m := insn_match f).
  assert (encode f fmt o = enc_I (o_imm o) (o_rs1 o) ((m .>> 7 .>> 5) mod 2 ^ 3) (o_rd o) (m mod 2 ^ 7)) as ->.
  { unfold encode, enc_I. fold m.
    assert (Hw : forall len v, in_range len v -> wrap len v = v) by (intros; by apply wrap_small).
    assert (Hm : forall len v, 0 <= len -> wrap len (v mod 2 ^ len) = v mod 2 ^ len) by (intros; by apply wrap_idemp).
    destruct Hfmt as [-> | [[-> E] | [-> E]]]; cbn [pattern fill cat value imm_ok] in *;
      rewrite !Hm, (Hw 5 (o_rd o)), (Hw 5 (o_rs1 o)) by (done || lia).
    - rewrite (Hw 12) by (apply bits_range; lia). lia.
    - fold m in E. assert (m .>> 7 .>> 5 .>> 3 .>> 5 .>> 6 = 0) as -> by (by rewrite !Z.shiftr_shiftr by lia).
      rewrite (Hw 6) by (apply bits_range; lia). unfold bits. rewrite !Z.div_1_r.
      rewrite (Z.mod_small _ (2 ^ 6) ok_imm0), (Z.mod_small (o_imm o) (2 ^ 12)) by (clear - ok_imm0; lia).
      change (0 mod 2 ^ 6) with 0. lia.
    - fold m in E. assert (m .>> 7 .>> 5 .>> 3 .>> 5 .>> 5 = 0) as -> by (by rewrite !Z.shiftr_shiftr by lia).
      rewrite (Hw 5 (bits _ _ _)) by (apply bits_range; lia). unfold bits. rewrite !Z.div_1_r.
      rewrite (Z.mod_small _ (2 ^ 5) ok_imm0), (Z.mod_small (o_imm o) (2 ^ 12)) by (clear - ok_imm0; lia).
      change (0 mod 2 ^ 7) with 0. lia. }
  apply i_imm_roundtrip; [| done | | done |]; try (apply Z.mod_pos_bound; lia).
  destruct Hfmt as [-> | [[-> _] | [-> _]]]; cbn in ok_imm0; lia.
Qed.

(** The encoders of [Decode] are these sequences of fields. *)
Lemma wrap_field o lo len : 0 < len -> wrap len (bits (o_imm o) lo len) = bits (o_imm o) lo len.
Proof. intros. by apply wrap_small, bits_range. Qed.
Lemma wrap_fixed len v : 0 <= len -> wrap len (v mod 2 ^ len) = v mod 2 ^ len.
Proof. intros. by apply wrap_idemp. Qed.

Lemma encode_S f o : operands_ok FmtS o -> s_imm (fetch32 (encode f FmtS o)) = o_imm o.
Proof.
  intros []. set (m := insn_match f). cbn in ok_imm0.
  assert (encode f FmtS o = enc_S (o_imm o) (o_rs2 o) (o_rs1 o) ((m .>> 7 .>> 5) mod 2 ^ 3) (m mod 2 ^ 7)) as ->.
  { unfold encode, enc_S. cbn [pattern fill cat value]. fold m.
    rewrite !wrap_fixed, !wrap_field, !(wrap_small 5 (o_rs1 o)), !(wrap_small 5 (o_rs2 o)) by (done || lia). lia. }
  apply s_imm_roundtrip; done || (apply Z.mod_pos_bound; lia).
Qed.

Lemma encode_SB f o : operands_ok FmtSB o -> sb_imm (fetch32 (encode f FmtSB o)) = o_imm o.
Proof.
  intros []. set (m := insn_match f). cbn in ok_imm0.
  assert (encode f FmtSB o = enc_SB (o_imm o) (o_rs2 o) (o_rs1 o) ((m .>> 7 .>> 1 .>> 4) mod 2 ^ 3) (m mod 2 ^ 7)) as ->.
  { unfold encode, enc_SB. cbn [pattern fill cat value]. fold m.
    rewrite !wrap_fixed, !wrap_field, !(wrap_small 5 (o_rs1 o)), !(wrap_small 5 (o_rs2 o)) by (done || lia). lia. }
  apply sb_imm_roundtrip; (done || apply ok_imm0 || (apply Z.mod_pos_bound; lia)).
Qed.

Lemma encode_U f o : operands_ok FmtU o -> u_imm (fetch32 (encode f FmtU o)) = o_imm o.
Proof.
  intros []. set (m := insn_match f). cbn in ok_imm0.
  assert (encode f FmtU o = enc_U (o_imm o) (o_rd o) (m mod 2 ^ 7)) as ->.
  { unfold encode, enc_U. cbn [pattern fill cat value]. fold m.
    rewrite !wrap_fixed, !wrap_field, !(wrap_small 5 (o_rd o)) by (done || lia). lia. }
  apply u_imm_roundtrip; (done || apply ok_imm0 || (apply Z.mod_pos_bound; lia)).
Qed.

Lemma encode_UJ f o : operands_ok FmtUJ o -> uj_imm (fetch32 (encode f FmtUJ o)) = o_imm o.
Proof.
  intros []. set (m := insn_match f). cbn in ok_imm0.
  assert (encode f FmtUJ o = enc_UJ (o_imm o) (o_rd o) (m mod 2 ^ 7)) as ->.
  { unfold encode, enc_UJ. cbn [pattern fill cat value]. fold m.
    rewrite !wrap_fixed, !wrap_field, !(wrap_small 5 (o_rd o)) by (done || lia). lia. }
  apply uj_imm_roundtrip; (done || apply ok_imm0 || (apply Z.mod_pos_bound; lia)).
Qed.

Lemma int_dec_small i : - 2 ^ 31 <= i < 2 ^ 31 -> int_dec i = to_dec i.
Proof. intros. unfold int_dec. by rewrite sext_small by lia. Qed.

(** A branch or jump target: a sign and the distance. *)
Lemma target_small i : - 2 ^ 20 <= i < 2 ^ 20 ->
  sign (s32 i) = (if 0 <=? i then "+"%string else "-"%string) /\ int_abs (s32 i) = if 0 <=? i then i else - i.
Proof.
  intros Hi. rewrite sext_small by lia. split; [done |]. unfold int_abs.
  destruct (Z.leb_spec 0 i); [rewrite Z.abs_eq by lia | rewrite Z.abs_neq by lia]; apply sext_small; lia.
Qed.

Lemma imm_bound fmt o : operands_ok fmt o ->
  fmt = FmtI \/ fmt = FmtS \/ fmt = FmtSh \/ fmt = FmtShw \/ fmt = FmtSB \/ fmt = FmtUJ -> - 2 ^ 20 <= o_imm o < 2 ^ 20.
Proof. intros [] H. destruct H as [-> | [-> | [-> | [-> | [-> | ->]]]]]; cbn in ok_imm0; lia. Qed.

Lemma bigimm_bits i : - 2 ^ 31 <= i < 2 ^ 31 -> u32 i .>> 12 = bits i 12 20.
Proof. intros Hi. rewrite shr_div by lia. unfold bits, wrap. zdm. Qed.

(** The text of every operand is that of the operand encoded. *)
Lemma arg_correct f fmt o a :
  operands_ok fmt o -> arg_ok (insn_match f) fmt a = true ->
  arg_to_string a (fetch32 (encode f fmt o)) = show_arg o a.
Proof.
  intros Ho Ha. pose proof Ho as [].
  pose proof (fun lo len s => encode_x f fmt o lo len s Ho) as Hx.
  assert (Hreg : forall lo s, field_at fmt lo 5 s = true -> 0 <= lo <= 27 -> s <> Fixed -> (forall a b, s <> Imm a b) ->
            in_range 5 (value o s) -> insn_x (fetch32 (encode f fmt o)) lo 5 = value o s).
  { intros lo s ?????. apply Hx; done || lia. }
  destruct a; cbn [arg_ok] in Ha; try done; cbn [arg_to_string show_arg]; unfold rd, rs1, rs2, rs3;
    try (by rewrite (Hreg _ _ Ha)).
  - apply bool_decide_eq_true in Ha as ->.
    assert (Hb : - 2 ^ 20 <= o_imm o < 2 ^ 20) by (apply (imm_bound FmtI); auto 10).
    rewrite (encode_I f), int_dec_small by (auto || lia).
    by rewrite (Hx 15 5 Rs1).
  - apply bool_decide_eq_true in Ha as ->.
    assert (Hb : - 2 ^ 20 <= o_imm o < 2 ^ 20) by (apply (imm_bound FmtS); auto 10).
    rewrite encode_S, int_dec_small by (done || lia).
    by rewrite (Hx 15 5 Rs1).
  - apply (f_equal csr_name). unfold Decode.csr. by rewrite (Hx 20 12 CsrNo).
  - assert (E : fmt = FmtI \/ (fmt = FmtSh /\ insn_match f .>> 26 = 0) \/ (fmt = FmtShw /\ insn_match f .>> 25 = 0)).
    { apply orb_prop in Ha as [[Ha%bool_decide_eq_true | Ha]%orb_prop | Ha]; [by left | |];
        apply andb_prop in Ha as [->%bool_decide_eq_true ?%Z.eqb_eq]; auto. }
    assert (Hb : - 2 ^ 20 <= o_imm o < 2 ^ 20) by (apply (imm_bound fmt); tauto).
    by rewrite (encode_I f), int_dec_small by (done || lia).
  - apply bool_decide_eq_true in Ha as ->. rewrite encode_U by done. cbn in ok_imm0. by rewrite bigimm_bits by apply ok_imm0.
  - apply bool_decide_eq_true in Ha as ->. rewrite encode_SB by done. unfold target_dec, target.
    destruct (target_small (o_imm o)) as [-> ->]; [apply (imm_bound FmtSB); auto 10 |]. by destruct (0 <=? o_imm o).
  - apply bool_decide_eq_true in Ha as ->. rewrite encode_UJ by done. unfold target.
    destruct (target_small (o_imm o)) as [-> ->]; [apply (imm_bound FmtUJ); auto 10 |]. by destruct (0 <=? o_imm o).
Qed.

(** ** The entry found *)

Lemma fetch_land w mask : 0 <= mask < 2 ^ 32 -> fetch32 w .& mask = w .& mask.
Proof.
  intros Hm. assert (forall x, wrap 32 x .& mask = x .& mask) as E.
  { intros x. apply Z.bits_inj'. intros i Hi. rewrite !Z.land_spec.
    destruct (Z.lt_ge_cases i 32); [unfold wrap; by rewrite Z.mod_pow2_bits_low by lia |].
    rewrite (testbit_above mask 32) by (unfold in_range; lia). by rewrite !andb_false_r. }
  unfold fetch32. rewrite <- E, wrap_narrow, wrap_sext by lia. apply E.
Qed.

Lemma find_form m fmt o l rows e :
  operands_ok fmt o -> mapM (entry_form m fmt) l = Some rows ->
  find_entry (fetch32 (cat (fill m (pattern fmt) o))) l = Some e ->
  exists cs, List.find (fun a => forallb (holds o) (snd (fst a))) rows = Some (dots (d_name e), cs, d_args e)
    /\ String.length (dots (d_name e)) = String.length (d_name e).
Proof.
  intros Ho. revert rows. induction l as [| e' l IH]; intros rows; [done |].
  cbn [mapM]. intros (r & Er & (rs & Ers & [= <-])%bind_Some)%bind_Some. unfold find_entry. cbn [List.find].
  unfold entry_form in Er.
  destruct (_ && _ && _) eqn:Eb; [| done]. apply andb_prop in Eb as [[H1%Z.leb_le H2%Z.ltb_lt]%andb_prop H3%Nat.eqb_eq].
  apply bind_Some in Er as (cs & Ec & [= <-]). cbn [fst snd].
  rewrite <- (constraints_spec o _ _ _ _ _ (operands_fit fmt o Ho) Ec).
  unfold entry_matches at 1. rewrite fetch_land by lia.
  destruct (_ =? d_match e'); [| by apply IH]. intros [= <-]. by exists cs.
Qed.

Lemma append_nil (s : string) : (s ++ EmptyString)%string = s.
Proof. induction s as [| c s IH]; [done |]. by apply (f_equal (String c)) in IH. Qed.

Lemma shown_line e insn : String.length (dots (d_name e)) = String.length (d_name e) ->
  entry_to_string e insn = line (dots (d_name e)) ((fun a => arg_to_string a insn) <$> d_args e).
Proof.
  intros E. unfold entry_to_string, line. rewrite <- E. destruct (d_args e); [| done].
  apply append_nil.
Qed.

(** The first match of a word that no entry ahead of its own can match. *)
Lemma first_match_intro insn f l :
  existsb (fun d => bool_decide (i_func d = f)) l = true ->
  (forall d, d ∈ ahead f l -> insn_matches insn d = false) ->
  (forall d, d ∈ l -> i_func d = f -> insn_matches insn d = true) -> first_match insn l = Some f.
Proof.
  induction l as [| d l IH]; cbn [existsb ahead first_match]; [done |]. intros He Ha Hm.
  destruct (decide (i_func d = f)) as [E | N].
  - rewrite (Hm d) by (done || left). by rewrite E.
  - rewrite bool_decide_eq_false_2 in He by done. rewrite (Ha d) by left.
    apply IH; [done | |]; intros d' Hd'; [apply Ha | apply Hm]; by right.
Qed.

(** The format and the operands of an instruction. *)
Definition syntax_in (t : list (format * list arg_t * list insn_func)) (f : insn_func)
    : option (format * list arg_t) :=
  fst <$> (snd <$> list_find (fun row => f ∈ snd row) t).
Definition syntax_of (f : insn_func) : option (format * list arg_t) := syntax_in syntax f.

Lemma syntax_in_row t f fmt args : syntax_in t f = Some (fmt, args) ->
  exists fs, In (fmt, args, fs) t /\ In f fs.
Proof.
  unfold syntax_in. destruct (list_find _ t) as [[i [[fmt' args'] fs]] |] eqn:El; [| done].
  cbn. intros [= -> ->]. apply list_find_Some in El as (El & Hf & _). exists fs. split.
  - apply list_elem_of_In, (list_elem_of_lookup_2 _ i _ El).
  - by apply list_elem_of_In.
Qed.

Lemma syntax_form l base t f fmt args :
  forallb (fun '(fmt, args, fs) => forallb (form_ok l base fmt args) fs) t = true ->
  syntax_in t f = Some (fmt, args) -> form_ok l base fmt args f = true.
Proof.
  intros Ht Hs. destruct (syntax_in_row t f fmt args Hs) as (fs & Hr & Hf).
  rewrite forallb_forall in Ht. specialize (Ht _ Hr). cbn beta iota in Ht.
  rewrite forallb_forall in Ht. by apply Ht.
Qed.

(** What [form_ok] checked. *)
Record form_spec (l : list disasm_insn_t) (base : list insn_desc_t)
    (fmt : format) (args : list arg_t) (f : insn_func) : Prop := {
  fs_covered : existsb (fun e => covers e (encoding_of f)) (candidates l (encoding_of f)) = true;
  fs_rows : mapM (entry_form (insn_match f) fmt) (upto (encoding_of f) [] (candidates l (encoding_of f)))
            = Some (forms f args);
  fs_fixed : constraints (insn_mask f) (insn_match f) (insn_match f) (pattern fmt) = Some [];
  fs_mask : 0 <= insn_mask f < 2 ^ 32;
  fs_args : forall form a, In form (forms f args) -> In a (snd form) -> arg_ok (insn_match f) fmt a = true;
  fs_base : existsb (fun d => bool_decide (i_func d = f)) base = true;
  fs_ahead : forall d, In d (ahead f base) -> disjoint_insns d (InsnDesc (insn_match f) (insn_mask f) f) = true
}.

Lemma form_ok_spec l base fmt args f : form_ok l base fmt args f = true -> form_spec l base fmt args f.
Proof.
  unfold form_ok. cbv zeta. fold (insn_match f) (insn_mask f). rewrite !andb_true_iff.
  intros (((((((Hc & Hrows%bool_decide_eq_true) & Hcs%bool_decide_eq_true) & H1%Z.leb_le) & H2%Z.ltb_lt) & Hargs) & Hin) & Hdis).
  split; try done.
  - intros form a Hf Ha. rewrite forallb_forall in Hargs. specialize (Hargs _ Hf).
    rewrite forallb_forall in Hargs. by apply Hargs.
  - by apply forallb_forall.
Qed.

(** An encoded instruction decodes to itself. *)
Lemma encoded_decodes l base fmt args f o :
  form_spec l base fmt args f -> operands_ok fmt o -> forallb desc_ok base = true -> f <> illegal_instruction ->
  let insn := fetch32 (encode f fmt o) in
  insn .& insn_mask f = insn_match f /\ first_match insn base = Some f.
Proof.
  intros Hs Ho Hb Hf insn.
  assert (Hm : insn .& insn_mask f = insn_match f).
  { unfold insn, encode. rewrite fetch_land by apply Hs. apply Z.eqb_eq.
    by rewrite (constraints_spec o _ _ _ _ _ (operands_fit fmt o Ho) (fs_fixed _ _ _ _ _ Hs)). }
  split; [done |]. rewrite forallb_forall in Hb. apply first_match_intro; [apply Hs | |].
  - intros d Hd%list_elem_of_In. destruct (insn_matches insn d) eqn:Ed; [| done].
    pose proof (fs_ahead _ _ _ _ _ Hs d Hd) as Hdis.
    rewrite (matches_not_disjoint insn d (InsnDesc (insn_match f) (insn_mask f) f) Ed) in Hdis; [done |].
    by apply Z.eqb_eq.
  - intros d Hd%list_elem_of_In E. specialize (Hb d Hd). unfold desc_ok in Hb. rewrite E in Hb.
    rewrite bool_decide_eq_false_2 in Hb by done. apply andb_prop in Hb as [E1%Z.eqb_eq E2%Z.eqb_eq].
    unfold insn_matches. by rewrite E1, E2, Hm, Z.eqb_refl.
Qed.

(** The entry found for it shows its assembly. *)
Lemma encoded_shown l base fmt args f o :
  form_spec l base fmt args f -> operands_ok fmt o ->
  let insn := fetch32 (encode f fmt o) in
  insn .& insn_mask f = insn_match f ->
  exists e, find_entry insn (candidates l (encoding_of f)) = Some e /\ entry_to_string e insn = assembly f args o.
Proof.
  intros Hs Ho insn Hm. destruct Hs as [Hc Hrows _ _ Hargs _ _].
  destruct (find_upto (encoding_of f) insn _ [] Hm Hc) as [Eu (e & E)]; [by intros ? [] |].
  exists e. split; [done |]. rewrite Eu in E. destruct (find_form _ _ _ _ _ _ Ho Hrows E) as (cs & Ef & Elen).
  rewrite shown_line by done. unfold assembly. rewrite Ef. f_equal.
  apply List.find_some in Ef as [Hr _]. cbn [snd] in Hr.
  apply list_fmap_ext. intros j a Ha. apply arg_correct; [done |].
  apply (Hargs _ a Hr), list_elem_of_In, (list_elem_of_lookup_2 _ j _ Ha).
Qed.

Lemma syntax_legal f fmt args : syntax_of f = Some (fmt, args) -> f <> illegal_instruction.
Proof. intros H ->. vm_compute in H. done. Qed.


