(* ===== verification/Machine.v ===== *)
(** The state of the simulator, as riscv/processor.h, riscv/mmu.h, riscv/trap.h
    and riscv/sim.h declare it, and the monad of the code that reads and
    changes it.  A C++ exception is a result of the monad: the state keeps what
    was written before the throw. *)
From S2P Require Import Prelude Encoding Decode Decoder SoftPrim.

(** ** Record update: [s <| field := v |>] *)

Class Setter {R T : Type} (proj : R -> T) := put : T -> R -> R.
Arguments put {R T} proj {_} v r : simpl nomatch.
Notation "r <| p := v |>" := (put p v r) (at level 1, left associativity, p at level 0) : Z_scope.

(** The setter of a projection: rebuild the record with the other projections.
    [eta] is the constructor applied to all of them. *)
Ltac setter eta proj :=
  intros v r;
  let e := eval cbv beta delta [eta] in (eta r) in
  let p := constr:(proj r) in
  lazymatch eval pattern p in e with
  | ?f _ => let t := eval cbv beta in (f v) in exact t
  end.

(** ** [dcsr_t], [mcontrol_t], [state_t] (riscv/processor.h) *)

Record dcsr_t := Dcsr {
  dcsr_prv : Z;
  dcsr_step : bool;
  dcsr_ebreakm : bool;
  dcsr_ebreakh : bool;
  dcsr_ebreaks : bool;
  dcsr_ebreaku : bool;
  dcsr_halt : bool;
  dcsr_cause : Z
}.

(** The enumerations [action] and [match] are stored as the field's value. *)
Record mcontrol_t := Mcontrol {
  mc_type : Z;
  mc_dmode : bool;
  mc_maskmax : Z;
  mc_select : bool;
  mc_timing : bool;
  mc_action : Z;
  mc_chain : bool;
  mc_match : Z;
  mc_m : bool;
  mc_h : bool;
  mc_s : bool;
  mc_u : bool;
  mc_execute : bool;
  mc_store : bool;
  mc_load : bool
}.

Inductive single_step_t := STEP_NONE | STEP_STEPPING | STEP_STEPPED.
#[export] Instance single_step_eq_dec : EqDecision single_step_t.
Proof. solve_decision. Defined.

Definition num_triggers : Z := 4.

Record state_t := State {
  pc : Z;
  XPR : regfile;
  FPR : regfile;
  prv : Z;
  mstatus : Z;
  mepc : Z;
  mbadaddr : Z;
  mscratch : Z;
  mtvec : Z;
  mcause : Z;
  minstret : Z;
  mie : Z;
  mip : Z;
  medeleg : Z;
  mideleg : Z;
  mucounteren : Z;
  mscounteren : Z;
  sepc : Z;
  sbadaddr : Z;
  sscratch : Z;
  stvec : Z;
  sptbr : Z;
  scause : Z;
  dpc : Z;
  dscratch : Z;
  dcsr : dcsr_t;
  tselect : Z;
  mcontrol : list mcontrol_t;
  tdata2 : list Z;
  fflags : Z;
  frm : Z;
  serialized : bool;
  single_step : single_step_t;
  load_reservation : Z
}.

Definition dcsr_t_eta (r : dcsr_t) : dcsr_t :=
  Dcsr (dcsr_prv r) (dcsr_step r) (dcsr_ebreakm r) (dcsr_ebreakh r) (dcsr_ebreaks r)
    (dcsr_ebreaku r) (dcsr_halt r) (dcsr_cause r).
#[export] Instance setter_dcsr_prv : Setter dcsr_prv. Proof. setter dcsr_t_eta dcsr_prv. Defined.
#[export] Instance setter_dcsr_step : Setter dcsr_step. Proof. setter dcsr_t_eta dcsr_step. Defined.
#[export] Instance setter_dcsr_ebreakm : Setter dcsr_ebreakm. Proof. setter dcsr_t_eta dcsr_ebreakm. Defined.
#[export] Instance setter_dcsr_ebreakh : Setter dcsr_ebreakh. Proof. setter dcsr_t_eta dcsr_ebreakh. Defined.
#[export] Instance setter_dcsr_ebreaks : Setter dcsr_ebreaks. Proof. setter dcsr_t_eta dcsr_ebreaks. Defined.
#[export] Instance setter_dcsr_ebreaku : Setter dcsr_ebreaku. Proof. setter dcsr_t_eta dcsr_ebreaku. Defined.
#[export] Instance setter_dcsr_halt : Setter dcsr_halt. Proof. setter dcsr_t_eta dcsr_halt. Defined.
#[export] Instance setter_dcsr_cause : Setter dcsr_cause. Proof. setter dcsr_t_eta dcsr_cause. Defined.

Definition mcontrol_t_eta (r : mcontrol_t) : mcontrol_t :=
  Mcontrol (mc_type r) (mc_dmode r) (mc_maskmax r) (mc_select r) (mc_timing r)
    (mc_action r) (mc_chain r) (mc_match r) (mc_m r) (mc_h r) (mc_s r) (mc_u r)
    (mc_execute r) (mc_store r) (mc_load r).
#[export] Instance setter_mc_type : Setter mc_type. Proof. setter mcontrol_t_eta mc_type. Defined.
#[export] Instance setter_mc_dmode : Setter mc_dmode. Proof. setter mcontrol_t_eta mc_dmode. Defined.
#[export] Instance setter_mc_maskmax : Setter mc_maskmax. Proof. setter mcontrol_t_eta mc_maskmax. Defined.
#[export] Instance setter_mc_select : Setter mc_select. Proof. setter mcontrol_t_eta mc_select. Defined.
#[export] Instance setter_mc_timing : Setter mc_timing. Proof. setter mcontrol_t_eta mc_timing. Defined.
#[export] Instance setter_mc_action : Setter mc_action. Proof. setter mcontrol_t_eta mc_action. Defined.
#[export] Instance setter_mc_chain : Setter mc_chain. Proof. setter mcontrol_t_eta mc_chain. Defined.
#[export] Instance setter_mc_match : Setter mc_match. Proof. setter mcontrol_t_eta mc_match. Defined.
#[export] Instance setter_mc_m : Setter mc_m. Proof. setter mcontrol_t_eta mc_m. Defined.
#[export] Instance setter_mc_h : Setter mc_h. Proof. setter mcontrol_t_eta mc_h. Defined.
#[export] Instance setter_mc_s : Setter mc_s. Proof. setter mcontrol_t_eta mc_s. Defined.
#[export] Instance setter_mc_u : Setter mc_u. Proof. setter mcontrol_t_eta mc_u. Defined.
#[export] Instance setter_mc_execute : Setter mc_execute. Proof. setter mcontrol_t_eta mc_execute. Defined.
#[export] Instance setter_mc_store : Setter mc_store. Proof. setter mcontrol_t_eta mc_store. Defined.
#[export] Instance setter_mc_load : Setter mc_load. Proof. setter mcontrol_t_eta mc_load. Defined.

Definition state_t_eta (r : state_t) : state_t :=
  State (pc r) (XPR r) (FPR r) (prv r) (mstatus r) (mepc r) (mbadaddr r) (mscratch r)
    (mtvec r) (mcause r) (minstret r) (mie r) (mip r) (medeleg r) (mideleg r)
    (mucounteren r) (mscounteren r) (sepc r) (sbadaddr r) (sscratch r) (stvec r)
    (sptbr r) (scause r) (dpc r) (dscratch r) (dcsr r) (tselect r) (mcontrol r)
    (tdata2 r) (fflags r) (frm r) (serialized r) (single_step r)
    (load_reservation r).
#[export] Instance setter_pc : Setter pc. Proof. setter state_t_eta pc. Defined.
#[export] Instance setter_XPR : Setter XPR. Proof. setter state_t_eta XPR. Defined.
#[export] Instance setter_FPR : Setter FPR. Proof. setter state_t_eta FPR. Defined.
#[export] Instance setter_prv : Setter prv. Proof. setter state_t_eta prv. Defined.
#[export] Instance setter_mstatus : Setter mstatus. Proof. setter state_t_eta mstatus. Defined.
#[export] Instance setter_mepc : Setter mepc. Proof. setter state_t_eta mepc. Defined.
#[export] Instance setter_mbadaddr : Setter mbadaddr. Proof. setter state_t_eta mbadaddr. Defined.
#[export] Instance setter_mscratch : Setter mscratch. Proof. setter state_t_eta mscratch. Defined.
#[export] Instance setter_mtvec : Setter mtvec. Proof. setter state_t_eta mtvec. Defined.
#[export] Instance setter_mcause : Setter mcause. Proof. setter state_t_eta mcause. Defined.
#[export] Instance setter_minstret : Setter minstret. Proof. setter state_t_eta minstret. Defined.
#[export] Instance setter_mie : Setter mie. Proof. setter state_t_eta mie. Defined.
#[export] Instance setter_mip : Setter mip. Proof. setter state_t_eta mip. Defined.
#[export] Instance setter_medeleg : Setter medeleg. Proof. setter state_t_eta medeleg. Defined.
#[export] Instance setter_mideleg : Setter mideleg. Proof. setter state_t_eta mideleg. Defined.
#[export] Instance setter_mucounteren : Setter mucounteren. Proof. setter state_t_eta mucounteren. Defined.
#[export] Instance setter_mscounteren : Setter mscounteren. Proof. setter state_t_eta mscounteren. Defined.
#[export] Instance setter_sepc : Setter sepc. Proof. setter state_t_eta sepc. Defined.
#[export] Instance setter_sbadaddr : Setter sbadaddr. Proof. setter state_t_eta sbadaddr. Defined.
#[export] Instance setter_sscratch : Setter sscratch. Proof. setter state_t_eta sscratch. Defined.
#[export] Instance setter_stvec : Setter stvec. Proof. setter state_t_eta stvec. Defined.
#[export] Instance setter_sptbr : Setter sptbr. Proof. setter state_t_eta sptbr. Defined.
#[export] Instance setter_scause : Setter scause. Proof. setter state_t_eta scause. Defined.
#[export] Instance setter_dpc : Setter dpc. Proof. setter state_t_eta dpc. Defined.
#[export] Instance setter_dscratch : Setter dscratch. Proof. setter state_t_eta dscratch. Defined.
#[export] Instance setter_dcsr : Setter dcsr. Proof. setter state_t_eta dcsr. Defined.
#[export] Instance setter_tselect : Setter tselect. Proof. setter state_t_eta tselect. Defined.
#[export] Instance setter_mcontrol : Setter mcontrol. Proof. setter state_t_eta mcontrol. Defined.
#[export] Instance setter_tdata2 : Setter tdata2. Proof. setter state_t_eta tdata2. Defined.
#[export] Instance setter_fflags : Setter fflags. Proof. setter state_t_eta fflags. Defined.
#[export] Instance setter_frm : Setter frm. Proof. setter state_t_eta frm. Defined.
#[export] Instance setter_serialized : Setter serialized. Proof. setter state_t_eta serialized. Defined.
#[export] Instance setter_single_step : Setter single_step. Proof. setter state_t_eta single_step. Defined.
#[export] Instance setter_load_reservation : Setter load_reservation. Proof. setter state_t_eta load_reservation. Defined.

(** ** [mmu_t] (riscv/mmu.h) *)

Inductive access_type := LOAD | STORE | FETCH.
#[export] Instance access_type_eq_dec : EqDecision access_type.
Proof. solve_decision. Defined.

Inductive trigger_operation_t := OPERATION_EXECUTE | OPERATION_STORE | OPERATION_LOAD.
#[export] Instance trigger_operation_eq_dec : EqDecision trigger_operation_t.
Proof. solve_decision. Defined.

Record trigger_matched_t := TriggerMatched {
  tm_index : Z;
  tm_operation : trigger_operation_t;
  tm_address : Z;
  tm_data : Z
}.

Record insn_fetch_t := InsnFetch { if_func : insn_func; if_insn : Z }.
Record icache_entry_t := IcacheEntry { ic_tag : Z; ic_data : insn_fetch_t }.

(** The arrays of [mmu_t] are lists.  [tlb_data] holds host addresses minus
    virtual addresses: here physical minus virtual ones, modulo 2^64.
    [has_proc] is [proc != NULL]. *)
Record mmu_t := Mmu {
  has_proc : bool;
  icache : list icache_entry_t;
  tlb_data : list Z;
  tlb_insn_tag : list Z;
  tlb_load_tag : list Z;
  tlb_store_tag : list Z;
  check_triggers_fetch : bool;
  check_triggers_load : bool;
  check_triggers_store : bool;
  matched_trigger : option trigger_matched_t
}.

(** ** [processor_t] (riscv/processor.h), and the rest of the machine

    The memory of [sim_t] is its bytes by physical address; absent bytes are
    zero, as [calloc] leaves them.  [fp] is the global state of SoftFloat.
    [world] is everything else outside the hart: the devices, the other harts
    and the memory tracers. *)
Record processor_t := Processor {
  max_xlen : Z;
  xlen : Z;
  isa : Z;
  max_isa : Z;
  ext : bool;
  id : Z;
  debug : bool;
  halt_on_reset : bool;
  decode_state : decoder
}.

Definition mmu_t_eta (r : mmu_t) : mmu_t :=
  Mmu (has_proc r) (icache r) (tlb_data r) (tlb_insn_tag r) (tlb_load_tag r)
    (tlb_store_tag r) (check_triggers_fetch r) (check_triggers_load r)
    (check_triggers_store r) (matched_trigger r).
#[export] Instance setter_has_proc : Setter has_proc. Proof. setter mmu_t_eta has_proc. Defined.
#[export] Instance setter_icache : Setter icache. Proof. setter mmu_t_eta icache. Defined.
#[export] Instance setter_tlb_data : Setter tlb_data. Proof. setter mmu_t_eta tlb_data. Defined.
#[export] Instance setter_tlb_insn_tag : Setter tlb_insn_tag. Proof. setter mmu_t_eta tlb_insn_tag. Defined.
#[export] Instance setter_tlb_load_tag : Setter tlb_load_tag. Proof. setter mmu_t_eta tlb_load_tag. Defined.
#[export] Instance setter_tlb_store_tag : Setter tlb_store_tag. Proof. setter mmu_t_eta tlb_store_tag. Defined.
#[export] Instance setter_check_triggers_fetch : Setter check_triggers_fetch. Proof. setter mmu_t_eta check_triggers_fetch. Defined.
#[export] Instance setter_check_triggers_load : Setter check_triggers_load. Proof. setter mmu_t_eta check_triggers_load. Defined.
#[export] Instance setter_check_triggers_store : Setter check_triggers_store. Proof. setter mmu_t_eta check_triggers_store. Defined.
#[export] Instance setter_matched_trigger : Setter matched_trigger. Proof. setter mmu_t_eta matched_trigger. Defined.

Definition processor_t_eta (r : processor_t) : processor_t :=
  Processor (max_xlen r) (xlen r) (isa r) (max_isa r) (ext r) (id r) (debug r)
    (halt_on_reset r) (decode_state r).
#[export] Instance setter_max_xlen : Setter max_xlen. Proof. setter processor_t_eta max_xlen. Defined.
#[export] Instance setter_xlen : Setter xlen. Proof. setter processor_t_eta xlen. Defined.
#[export] Instance setter_isa : Setter isa. Proof. setter processor_t_eta isa. Defined.
#[export] Instance setter_max_isa : Setter max_isa. Proof. setter processor_t_eta max_isa. Defined.
#[export] Instance setter_ext : Setter ext. Proof. setter processor_t_eta ext. Defined.
#[export] Instance setter_id : Setter id. Proof. setter processor_t_eta id. Defined.
#[export] Instance setter_debug : Setter debug. Proof. setter processor_t_eta debug. Defined.
#[export] Instance setter_halt_on_reset : Setter halt_on_reset. Proof. setter processor_t_eta halt_on_reset. Defined.
#[export] Instance setter_decode_state : Setter decode_state. Proof. setter processor_t_eta decode_state. Defined.

(** ** What lies outside the hart

    What the hart uses of the bus ([sim_t::mmio_load], [mmio_store]), of the
    debug module and of the memory tracers.  A store may reach a device that
    changes the hart's own state (its software interrupt).  [fetch_temp_addr] is
    what [mem_to_addr] makes of the host address of [fetch_temp], which the
    instruction tracer is given for code outside the memory. *)
Class Platform (W : Type) := {
  mmio_load : Z -> Z -> W -> option (list Z);
  mmio_store : Z -> list Z -> state_t -> W -> option (state_t * W);
  get_interrupt : Z -> W -> bool;
  fetch_temp_addr : Z;
  interested_in_range : Z -> Z -> access_type -> W -> bool;
  trace : Z -> Z -> access_type -> W -> W
}.

Section machine.
Context {W : Type}.

Record machine := Machine {
  state : state_t;
  proc : processor_t;
  mmu : mmu_t;
  fp : fpstate;
  mem : gmap Z Z;
  memsz : Z;
  world : W
}.

Definition machine_eta (r : machine) : machine :=
  Machine (state r) (proc r) (mmu r) (fp r) (mem r) (memsz r) (world r).
#[global] Instance setter_state : Setter state. Proof. setter machine_eta state. Defined.
#[global] Instance setter_proc : Setter proc. Proof. setter machine_eta proc. Defined.
#[global] Instance setter_mmu : Setter mmu. Proof. setter machine_eta mmu. Defined.
#[global] Instance setter_fp : Setter fp. Proof. setter machine_eta fp. Defined.
#[global] Instance setter_mem : Setter mem. Proof. setter machine_eta mem. Defined.
#[global] Instance setter_memsz : Setter memsz. Proof. setter machine_eta memsz. Defined.
#[global] Instance setter_world : Setter world. Proof. setter machine_eta world. Defined.

(** ** Exceptions and the monad *)

(** [trap_t], with the address of a [mem_trap_t] (riscv/trap.h);
    [trigger_matched_t]; and [abort()], a failed assertion or a search that
    runs off a list, after which there is no behaviour. *)
Inductive exn :=
  | Trap (cause : Z) (badaddr : option Z)
  | Trigger (t : trigger_matched_t)
  | Abort.

Definition M (A : Type) : Type := machine -> (A + exn) * machine.

#[global] Instance M_ret : MRet M := fun A a m => (inl a, m).
#[global] Instance M_bind : MBind M := fun A B k c m =>
  match c m with
  | (inl a, m) => k a m
  | (inr e, m) => (inr e, m)
  end.

Definition throw {A} (e : exn) : M A := fun m => (inr e, m).
Definition catch {A} (c : M A) (h : exn -> M A) : M A := fun m =>
  match c m with
  | (inl a, m) => (inl a, m)
  | (inr e, m) => h e m
  end.
Definition gets {A} (f : machine -> A) : M A := fun m => (inl (f m), m).
Definition modify (f : machine -> machine) : M unit := fun m => (inl tt, f m).
Definition modify_state (f : state_t -> state_t) : M unit :=
  modify (fun m => m <| state := f (state m) |>).

(** A SoftFloat operation, on the global floating-point state. *)
Definition fp_op {A} (c : FP A) : M A := fun m =>
  let '(a, s) := c (fp m) in (inl a, m <| fp := s |>).

Definition require (b : bool) : M unit :=
  if b then mret tt else throw (Trap CAUSE_ILLEGAL_INSTRUCTION None).

End machine.
Arguments machine : clear implicits.
Arguments M : clear implicits.
