(* ===== verification/Csr.v ===== *)
(** riscv/processor.cc and processor.h: reset, privilege, control and status
    registers, interrupts, traps and triggers. *)
From Stdlib Require Import Ascii.
From S2P Require Import Prelude Encoding Decode Machine.

(** A record of invariants most fields of which are hypotheses. *)
Ltac csr_leaf := split; cbn; try assumption.

Section csr.
Context {W : Type} `{Platform W}.
Implicit Types m : machine W.

(** ** Flushing (riscv/mmu.cc) *)

Definition invalid_tag : Z := u64 (-1).
Definition TLB_ENTRIES : Z := 256.
Definition ICACHE_ENTRIES : Z := 1024.

Definition flush_icache (u : mmu_t) : mmu_t :=
  u <| icache := (fun e => IcacheEntry invalid_tag (ic_data e)) <$> icache u |>.

Definition flush_tlb (u : mmu_t) : mmu_t :=
  let none := replicate (Z.to_nat TLB_ENTRIES) invalid_tag in
  flush_icache
    (u <| tlb_insn_tag := none |> <| tlb_load_tag := none |> <| tlb_store_tag := none |>).

Definition flush (m : machine W) : machine W := m <| mmu := flush_tlb (mmu m) |>.

(** ** Extensions, reset and privilege *)

Definition char_code (c : ascii) : Z := Z.of_nat (nat_of_ascii c).
Definition supports_extension (c : ascii) (p : processor_t) : bool :=
  let e := char_code c in
  let e := if (char_code "a" <=? e) && (e <=? char_code "z")
           then u8 (e + (char_code "A" - char_code "a")) else e in
  (char_code "A" <=? e) && (e <=? char_code "Z")
  && z2b ((isa p .>> (e - char_code "A")) .& 1).

Definition zero_mcontrol : mcontrol_t :=
  Mcontrol 0 false 0 false false 0 false 0 false false false false false false false.

Definition state_reset : state_t :=
  let zeros n := replicate (Z.to_nat n) 0 in
  State DEFAULT_RSTVEC (zeros 32) (zeros 32) PRV_M 0 0 0 0 DEFAULT_MTVEC 0 0 0 0 0 0 0 0 0 0 0 0 0
    0 0 0 (Dcsr 0 false false false false false false 0) 0
    (replicate (Z.to_nat num_triggers) (zero_mcontrol <| mc_type := 2 |>))
    (zeros num_triggers) 0 0 false STEP_NONE (u64 (-1)).

Definition set_privilege (prv' : Z) : M W unit :=
  if PRV_M <? prv' then throw Abort
  else
    let prv' := if prv' =? PRV_H then PRV_U else prv' in
    modify (fun m => (flush m) <| state := (state m) <| prv := prv' |> |>).

Definition yield_load_reservation (s : state_t) : state_t := s <| load_reservation := u64 (-1) |>.

(** ** Triggers *)

Definition mcontrol_at (s : state_t) (i : Z) : mcontrol_t :=
  default zero_mcontrol (mcontrol s !! Z.to_nat i).
Definition tdata2_at (s : state_t) (i : Z) : Z := default 0 (tdata2 s !! Z.to_nat i).

Definition trigger_updated (m : machine W) : machine W :=
  let mcs := mcontrol (state m) in
  m <| mmu := (flush_tlb (mmu m))
         <| check_triggers_fetch := existsb mc_execute mcs |>
         <| check_triggers_load := existsb mc_load mcs |>
         <| check_triggers_store := existsb mc_store mcs |> |>.

(** Contiguous 1 bits from the least significant one; 64 bits at most. *)
Fixpoint cto_loop (fuel : nat) (val : Z) : Z :=
  match fuel with
  | O => 0
  | S fuel => if (val .& 1) =? 1 then cto_loop fuel (val .>> 1) + 1 else 0
  end.
Definition cto (val : Z) : Z := cto_loop 64 val.

(** The guard of the loop of [trigger_match]: the trigger is not concerned. *)
Definition trigger_ignored (operation : trigger_operation_t) (s : state_t) (c : mcontrol_t) : bool :=
  (bool_decide (operation = OPERATION_EXECUTE) && negb (mc_execute c))
  || (bool_decide (operation = OPERATION_STORE) && negb (mc_store c))
  || (bool_decide (operation = OPERATION_LOAD) && negb (mc_load c))
  || ((prv s =? PRV_M) && negb (mc_m c))
  || ((prv s =? PRV_H) && negb (mc_h c))
  || ((prv s =? PRV_S) && negb (mc_s c))
  || ((prv s =? PRV_U) && negb (mc_u c)).

(** The comparison of the loop; the shift [1 << cto(...)] is of an [int]. *)
Definition trigger_compare (xlen : Z) (c : mcontrol_t) (value t2 : Z) : bool :=
  let mt := mc_match c in
  if mt =? MCONTROL_MATCH_EQUAL then value =? t2
  else if mt =? MCONTROL_MATCH_NAPOT then
    let mask := u64 (Z.lnot (s32 (s32 (1 .<< (cto t2 mod 32)) - 1))) in
    (value .& mask) =? (t2 .& mask)
  else if mt =? MCONTROL_MATCH_GE then t2 <=? value
  else if mt =? MCONTROL_MATCH_LT then value <? t2
  else if mt =? MCONTROL_MATCH_MASK_LOW then
    let mask := t2 .>> (xlen / 2) in (value .& mask) =? (t2 .& mask)
  else if mt =? MCONTROL_MATCH_MASK_HIGH then
    let mask := t2 .>> (xlen / 2) in ((value .>> (xlen / 2)) .& mask) =? (t2 .& mask)
  else true.

Fixpoint trigger_loop (operation : trigger_operation_t) (address data xlen : Z) (s : state_t)
    (chain_ok : bool) (i : Z) (mcs : list mcontrol_t) : Z :=
  match mcs with
  | [] => -1
  | c :: mcs =>
      let continue chain_ok := trigger_loop operation address data xlen s chain_ok (i + 1) mcs in
      if negb chain_ok then continue (chain_ok || negb (mc_chain c))
      else if trigger_ignored operation s c then continue chain_ok
      else
        let value := if mc_select c then data else address in
        let value := if xlen =? 32 then value .& 0xffffffff else value in
        if negb (trigger_compare xlen c value (tdata2_at s i)) then continue chain_ok
        else if negb (mc_chain c) then i
        else continue true
  end.

Definition trigger_match (operation : trigger_operation_t) (address data : Z) m : Z :=
  let s := state m in
  if z2b (dcsr_cause (dcsr s)) then -1
  else trigger_loop operation address data (xlen (proc m)) s true 0 (mcontrol s).

(** ** Debug mode *)

Definition DEBUG_ROM_START : Z := 0x800.
Definition DEBUG_ROM_EXCEPTION : Z := DEBUG_ROM_START + 8.

Definition enter_debug_mode (cause : Z) : M W unit :=
  modify_state (fun s => s <| dcsr := (dcsr s) <| dcsr_cause := cause |> <| dcsr_prv := u8 (prv s) |> |>) ;;
  set_privilege PRV_M ;;
  modify_state (fun s => s <| dpc := pc s |> <| pc := DEBUG_ROM_START |>).

(** ** Writing a control and status register *)

Definition PGSHIFT : Z := 12.
Definition FSR_AEXC_SHIFT : Z := 0.
Definition FSR_RD_SHIFT : Z := 5.
Definition FSR_AEXC : Z := 0x1f.
Definition FSR_RD : Z := 0x7 .<< FSR_RD_SHIFT.

Definition sd_bit (xlen : Z) : Z := if xlen =? 64 then MSTATUS64_SD else MSTATUS32_SD.
Definition dirty_fp_state (xlen : Z) (s : state_t) : state_t :=
  s <| mstatus := mstatus s .| (MSTATUS_FS .| sd_bit xlen) |>.

Definition validate_vm (max_xlen vm : Z) : bool :=
  ((max_xlen =? 64) && ((vm =? VM_SV39) || (vm =? VM_SV48)))
  || ((max_xlen =? 32) && (vm =? VM_SV32)) || (vm =? VM_MBARE).

(** The part of [val] under the mask, the rest of [old]. *)
Definition masked (old mask val : Z) : Z := (old .& Z.lnot mask) .| (val .& mask).

Definition delegable_ints : Z := MIP_SSIP .| MIP_STIP .| MIP_SEIP .| (1 .<< IRQ_COP).
Definition all_ints : Z := delegable_ints .| MIP_MSIP .| MIP_MTIP.

Definition mstatus_flush_mask : Z :=
  MSTATUS_VM .| MSTATUS_MPP .| MSTATUS_MPRV .| MSTATUS_PUM .| MSTATUS_MXR.
Definition mstatus_base_mask : Z :=
  MSTATUS_SIE .| MSTATUS_SPIE .| MSTATUS_MIE .| MSTATUS_MPIE .| MSTATUS_SPP
  .| MSTATUS_FS .| MSTATUS_MPRV .| MSTATUS_PUM .| MSTATUS_MPP .| MSTATUS_MXR.
Definition mstatus_mask (max_xlen : Z) (ext : bool) (val : Z) : Z :=
  let mask := mstatus_base_mask .| (if ext then MSTATUS_XS else 0) in
  if validate_vm max_xlen (get_field val MSTATUS_VM) then mask .| MSTATUS_VM else mask.

Definition set_mstatus (val : Z) (m : machine W) : machine W :=
  let p := proc m in
  let s := state m in
  let m := if z2b ((val .^ mstatus s) .& mstatus_flush_mask) then flush m else m in
  let v := masked (mstatus s) (mstatus_mask (max_xlen p) (ext p) val) val in
  let dirty := ((v .& MSTATUS_FS) =? MSTATUS_FS) || ((v .& MSTATUS_XS) =? MSTATUS_XS) in
  let sd := if max_xlen p =? 32 then MSTATUS32_SD else MSTATUS64_SD in
  m <| state := s <| mstatus := set_field v sd (b2z dirty) |> |>
    <| proc := p <| xlen := max_xlen p |> |>.

Definition medeleg_mask : Z := foldl (fun mask c => mask .| u64 (1 .<< c)) 0 declared_causes.

(** [1L << (c - 'A')] *)
Definition isa_bit (c : ascii) : Z := 1 .<< (char_code c - char_code "A").
Definition misa_mask : Z :=
  isa_bit "M" .| isa_bit "A" .| isa_bit "F" .| isa_bit "D" .| isa_bit "C".
Definition set_misa (val : Z) (p : processor_t) : processor_t :=
  let val := if negb (z2b (val .& isa_bit "F")) then val .& Z.lnot (isa_bit "D") else val in
  let mask := misa_mask .& max_isa p in
  p <| isa := (val .& mask) .| (isa p .& Z.lnot mask) |>.

Definition set_tdata1 (val : Z) (m : machine W) : machine W :=
  let s := state m in
  let x := xlen (proc m) in
  let mc := mcontrol_at s (tselect s) in
  if mc_dmode mc && negb (z2b (dcsr_cause (dcsr s))) then m
  else
    let bit mask := z2b (get_field val mask) in
    let mc := Mcontrol (mc_type mc) (bit (MCONTROL_DMODE x)) (mc_maskmax mc) (bit MCONTROL_SELECT)
      (bit MCONTROL_TIMING) (get_field val MCONTROL_ACTION) (bit MCONTROL_CHAIN)
      (get_field val MCONTROL_MATCH) (bit MCONTROL_M) (bit MCONTROL_H) (bit MCONTROL_S)
      (bit MCONTROL_U) (bit MCONTROL_EXECUTE) (bit MCONTROL_STORE) (bit MCONTROL_LOAD) in
    let mc := if mc_execute mc then mc <| mc_timing := false |> else mc in
    trigger_updated
      (m <| state := s <| mcontrol := <[Z.to_nat (tselect s) := mc]> (mcontrol s) |> |>).

Definition set_dcsr (val : Z) (d : dcsr_t) : dcsr_t :=
  let bit mask := z2b (get_field val mask) in
  Dcsr (get_field val DCSR_PRV) (bit DCSR_STEP) (bit DCSR_EBREAKM) (bit DCSR_EBREAKH)
    (bit DCSR_EBREAKS) (bit DCSR_EBREAKU) (bit DCSR_HALT) (dcsr_cause d).

(** The cases of [set_csr] that change [state] only and throw nothing. *)
Definition set_csr_state (xlen : Z) (which val : Z) (s : state_t) : state_t :=
  if which =? CSR_FFLAGS then
    (dirty_fp_state xlen s) <| fflags := u32 (val .& (FSR_AEXC .>> FSR_AEXC_SHIFT)) |>
  else if which =? CSR_FRM then
    (dirty_fp_state xlen s) <| frm := u32 (val .& (FSR_RD .>> FSR_RD_SHIFT)) |>
  else if which =? CSR_FCSR then
    (dirty_fp_state xlen s) <| fflags := u32 ((val .& FSR_AEXC) .>> FSR_AEXC_SHIFT) |>
      <| frm := u32 ((val .& FSR_RD) .>> FSR_RD_SHIFT) |>
  else if which =? CSR_MIP then s <| mip := masked (mip s) (MIP_SSIP .| MIP_STIP) val |>
  else if which =? CSR_MIE then s <| mie := masked (mie s) all_ints val |>
  else if which =? CSR_MIDELEG then s <| mideleg := masked (mideleg s) delegable_ints val |>
  else if which =? CSR_MEDELEG then s <| medeleg := masked (medeleg s) medeleg_mask val |>
  else if (which =? CSR_MINSTRET) || (which =? CSR_MCYCLE) then
    s <| minstret := if xlen =? 32
                     then (u64 ((minstret s .>> 32) .<< 32)) .| (val .& 0xffffffff) else val |>
  else if (which =? CSR_MINSTRETH) || (which =? CSR_MCYCLEH) then
    s <| minstret := u64 (val .<< 32) .| (u64 (minstret s .<< 32) .>> 32) |>
  else if which =? CSR_MUCOUNTEREN then s <| mucounteren := u32 val |>
  else if which =? CSR_MSCOUNTEREN then s <| mscounteren := u32 val |>
  else if which =? CSR_SEPC then s <| sepc := val |>
  else if which =? CSR_STVEC then s <| stvec := u64 ((val .>> 2) .<< 2) |>
  else if which =? CSR_SSCRATCH then s <| sscratch := val |>
  else if which =? CSR_SCAUSE then s <| scause := val |>
  else if which =? CSR_SBADADDR then s <| sbadaddr := val |>
  else if which =? CSR_MEPC then s <| mepc := val |>
  else if which =? CSR_MTVEC then s <| mtvec := u64 ((val .>> 2) .<< 2) |>
  else if which =? CSR_MSCRATCH then s <| mscratch := val |>
  else if which =? CSR_MCAUSE then s <| mcause := val |>
  else if which =? CSR_MBADADDR then s <| mbadaddr := val |>
  else if which =? CSR_TSELECT then if val <? num_triggers then s <| tselect := val |> else s
  else if which =? CSR_TDATA2 then
    if mc_dmode (mcontrol_at s (tselect s)) && negb (z2b (dcsr_cause (dcsr s))) then s
    else if tselect s <? num_triggers
    then s <| tdata2 := <[Z.to_nat (tselect s) := val]> (tdata2 s) |> else s
  else if which =? CSR_DCSR then s <| dcsr := set_dcsr val (dcsr s) |>
  else if which =? CSR_DPC then s <| dpc := val |>
  else if which =? CSR_DSCRATCH then s <| dscratch := val |>
  else s.

Definition paddr_bits (p : processor_t) : Z := if max_xlen p =? 64 then 50 else 34.

(** The cases that are not calls of [set_csr] itself. *)
Definition set_csr_direct (which val : Z) : M W unit := fun m =>
  let val := zext_xlen (xlen (proc m)) val in
  if which =? CSR_MSTATUS then (inl tt, set_mstatus val m)
  else if which =? CSR_SPTBR then
    if negb (xlen (proc m) =? max_xlen (proc m)) then (inr Abort, m)
    else
      let v := val .& ((1 .<< (paddr_bits (proc m) - PGSHIFT)) - 1) in
      (inl tt, m <| state := (state m) <| sptbr := v |> |>)
  else if which =? CSR_MISA then (inl tt, m <| proc := set_misa val (proc m) |>)
  else if which =? CSR_TDATA1 then (inl tt, set_tdata1 val m)
  else (inl tt, m <| state := set_csr_state (xlen (proc m)) which val (state m) |>).

Definition sstatus_write_mask : Z :=
  SSTATUS_SIE .| SSTATUS_SPIE .| SSTATUS_SPP .| SSTATUS_FS .| SSTATUS_XS .| SSTATUS_PUM.

Definition set_csr (which val : Z) : M W unit := fun m =>
  let s := state m in
  let v := zext_xlen (xlen (proc m)) val in
  if which =? CSR_SSTATUS then
    set_csr_direct CSR_MSTATUS (masked (mstatus s) sstatus_write_mask v) m
  else if which =? CSR_SIP then
    set_csr_direct CSR_MIP (masked (mip s) (MIP_SSIP .& mideleg s) v) m
  else if which =? CSR_SIE then
    set_csr_direct CSR_MIE (masked (mie s) (mideleg s) v) m
  else set_csr_direct which val m.

(** ** Reading a control and status register *)

Definition in_csrs (lo which hi : Z) : bool := (lo <=? which) && (which <=? hi).

Definition ctr_ok (which : Z) (s : state_t) : bool :=
  let ctr_en := if prv s =? PRV_U then mucounteren s
                else if prv s =? PRV_S then mscounteren s else u32 (-1) in
  z2b ((ctr_en .>> (which .& 31)) .& 1).

(** The performance-monitoring counters that read as zero. *)
Definition hpm_csr (which xlen : Z) (s : state_t) : bool :=
  (ctr_ok which s
   && (in_csrs CSR_HPMCOUNTER3 which CSR_HPMCOUNTER31
       || ((xlen =? 32) && in_csrs CSR_HPMCOUNTER3H which CSR_HPMCOUNTER31H)))
  || in_csrs CSR_MHPMCOUNTER3 which CSR_MHPMCOUNTER31
  || ((xlen =? 32) && in_csrs CSR_MHPMCOUNTER3 which CSR_MHPMCOUNTER31)
  || in_csrs CSR_MHPMEVENT3 which CSR_MHPMEVENT31.

Definition read_sstatus (xlen : Z) (s : state_t) : Z :=
  let sstatus := mstatus s .& sstatus_write_mask in
  if ((sstatus .& SSTATUS_FS) =? SSTATUS_FS) || ((sstatus .& SSTATUS_XS) =? SSTATUS_XS)
  then sstatus .| (if xlen =? 32 then SSTATUS32_SD else SSTATUS64_SD) else sstatus.

Definition read_tdata1 (xlen : Z) (s : state_t) : Z :=
  if tselect s <? num_triggers then
    let mc := mcontrol_at s (tselect s) in
    let v := set_field 0 (MCONTROL_TYPE xlen) (mc_type mc) in
    let v := set_field v (MCONTROL_DMODE xlen) (b2z (mc_dmode mc)) in
    let v := set_field v (MCONTROL_MASKMAX xlen) (mc_maskmax mc) in
    let v := set_field v MCONTROL_SELECT (b2z (mc_select mc)) in
    let v := set_field v MCONTROL_TIMING (b2z (mc_timing mc)) in
    let v := set_field v MCONTROL_ACTION (mc_action mc) in
    let v := set_field v MCONTROL_CHAIN (b2z (mc_chain mc)) in
    let v := set_field v MCONTROL_MATCH (mc_match mc) in
    let v := set_field v MCONTROL_M (b2z (mc_m mc)) in
    let v := set_field v MCONTROL_H (b2z (mc_h mc)) in
    let v := set_field v MCONTROL_S (b2z (mc_s mc)) in
    let v := set_field v MCONTROL_U (b2z (mc_u mc)) in
    let v := set_field v MCONTROL_EXECUTE (b2z (mc_execute mc)) in
    let v := set_field v MCONTROL_STORE (b2z (mc_store mc)) in
    set_field v MCONTROL_LOAD (b2z (mc_load mc))
  else 0.

Definition read_dcsr (debugint : bool) (d : dcsr_t) : Z :=
  let v := set_field 0 DCSR_XDEBUGVER 1 in
  let v := set_field v DCSR_NDRESET 0 in
  let v := set_field v DCSR_FULLRESET 0 in
  let v := set_field v DCSR_PRV (dcsr_prv d) in
  let v := set_field v DCSR_STEP (b2z (dcsr_step d)) in
  let v := set_field v DCSR_DEBUGINT (b2z debugint) in
  let v := set_field v DCSR_STOPCYCLE 0 in
  let v := set_field v DCSR_STOPTIME 0 in
  let v := set_field v DCSR_EBREAKM (b2z (dcsr_ebreakm d)) in
  let v := set_field v DCSR_EBREAKH (b2z (dcsr_ebreakh d)) in
  let v := set_field v DCSR_EBREAKS (b2z (dcsr_ebreaks d)) in
  let v := set_field v DCSR_EBREAKU (b2z (dcsr_ebreaku d)) in
  let v := set_field v DCSR_HALT (b2z (dcsr_halt d)) in
  set_field v DCSR_CAUSE (dcsr_cause d).

(** The value, or [None] where [get_csr] throws. *)
Definition csr_value (which : Z) m : option Z :=
  let s := state m in
  let p := proc m in
  let fp v := if z2b (mstatus s .& MSTATUS_FS) && supports_extension "F" p then Some v else None in
  if hpm_csr which (xlen p) s then Some 0
  else if which =? CSR_FFLAGS then fp (fflags s)
  else if which =? CSR_FRM then fp (frm s)
  else if which =? CSR_FCSR then
    fp (u32 (fflags s .<< FSR_AEXC_SHIFT) .| u32 (frm s .<< FSR_RD_SHIFT))
  else if (which =? CSR_INSTRET) || (which =? CSR_CYCLE) then
    if ctr_ok which s then Some (minstret s) else None
  else if (which =? CSR_MINSTRET) || (which =? CSR_MCYCLE) then Some (minstret s)
  else if (which =? CSR_MINSTRETH) || (which =? CSR_MCYCLEH) then
    if xlen p =? 32 then Some (minstret s .>> 32) else None
  else if which =? CSR_MUCOUNTEREN then Some (mucounteren s)
  else if which =? CSR_MSCOUNTEREN then Some (mscounteren s)
  else if which =? CSR_SSTATUS then Some (read_sstatus (xlen p) s)
  else if which =? CSR_SIP then Some (mip s .& mideleg s)
  else if which =? CSR_SIE then Some (mie s .& mideleg s)
  else if which =? CSR_SEPC then Some (sepc s)
  else if which =? CSR_SBADADDR then Some (sbadaddr s)
  else if which =? CSR_STVEC then Some (stvec s)
  else if which =? CSR_SCAUSE then
    if xlen p <? max_xlen p
    then Some (scause s .| u64 ((scause s .>> (max_xlen p - 1)) .<< (xlen p - 1)))
    else Some (scause s)
  else if which =? CSR_SPTBR then Some (sptbr s)
  else if which =? CSR_SSCRATCH then Some (sscratch s)
  else if which =? CSR_MSTATUS then Some (mstatus s)
  else if which =? CSR_MIP then Some (mip s)
  else if which =? CSR_MIE then Some (mie s)
  else if which =? CSR_MEPC then Some (mepc s)
  else if which =? CSR_MSCRATCH then Some (mscratch s)
  else if which =? CSR_MCAUSE then Some (mcause s)
  else if which =? CSR_MBADADDR then Some (mbadaddr s)
  else if which =? CSR_MISA then Some (isa p)
  else if (which =? CSR_MARCHID) || (which =? CSR_MIMPID) || (which =? CSR_MVENDORID) then Some 0
  else if which =? CSR_MHARTID then Some (id p)
  else if which =? CSR_MTVEC then Some (mtvec s)
  else if which =? CSR_MEDELEG then Some (medeleg s)
  else if which =? CSR_MIDELEG then Some (mideleg s)
  else if which =? CSR_TSELECT then Some (tselect s)
  else if which =? CSR_TDATA1 then Some (read_tdata1 (xlen p) s)
  else if which =? CSR_TDATA2 then
    Some (if tselect s <? num_triggers then tdata2_at s (tselect s) else 0)
  else if which =? CSR_TDATA3 then Some 0
  else if which =? CSR_DCSR then Some (read_dcsr (get_interrupt (id p) (world m)) (dcsr s))
  else if which =? CSR_DPC then Some (dpc s)
  else if which =? CSR_DSCRATCH then Some (dscratch s)
  else None.

Definition get_csr (which : Z) : M W Z := fun m =>
  match csr_value which m with
  | Some v => (inl v, m)
  | None => (inr (Trap CAUSE_ILLEGAL_INSTRUCTION None), m)
  end.

(** The macro [validate_csr], with what follows it as [k]: it returns from the
    instruction unless the pipeline has been serialized. *)
Definition validate_csr (which : Z) (write : bool) (k : Z -> M W Z) : M W Z :=
  s ← gets state;
  if negb (serialized s) then mret PC_SERIALIZE_BEFORE
  else
    modify_state (fun s => s <| serialized := false |>) ;;
    let csr_priv := get_field which 0x300 in
    let csr_read_only := get_field which 0xC00 =? 3 in
    if (write && csr_read_only) || (prv s <? csr_priv)
    then throw (Trap CAUSE_ILLEGAL_INSTRUCTION None)
    else k which.

(** ** Interrupts and traps *)

Fixpoint ctz_loop (fuel : nat) (val : Z) : Z :=
  match fuel with
  | O => 0
  | S fuel => if (val .& 1) =? 0 then ctz_loop fuel (val .>> 1) + 1 else 0
  end.
Definition ctz (val : Z) : Z := if z2b val then ctz_loop 64 val else 0.

Definition interrupt_bit (max_xlen : Z) : Z := u64 (1 .<< (max_xlen - 1)).

Definition raise_interrupt (which : Z) : M W unit := fun m =>
  (inr (Trap (interrupt_bit (max_xlen (proc m)) .| which) None), m).

Definition enabled_interrupts (s : state_t) : Z :=
  let pending := mip s .& mie s in
  let m_ie := z2b (get_field (mstatus s) MSTATUS_MIE) in
  let m_enabled := (prv s <? PRV_M) || ((prv s =? PRV_M) && m_ie) in
  let enabled := (pending .& Z.lnot (mideleg s)) .& u64 (- b2z m_enabled) in
  let s_ie := z2b (get_field (mstatus s) MSTATUS_SIE) in
  let s_enabled := (prv s <? PRV_S) || ((prv s =? PRV_S) && s_ie) in
  enabled .| ((pending .& mideleg s) .& u64 (- b2z s_enabled)).

Definition take_interrupt : M W unit :=
  s ← gets state;
  let e := enabled_interrupts s in
  if z2b e then raise_interrupt (ctz e) else mret tt.

(** The stack of privileges and interrupt enables, on a trap to M or to S. *)
Definition trap_mstatus_m (prv : Z) (s : Z) : Z :=
  let s := set_field s MSTATUS_MPIE (get_field s (MSTATUS_UIE .<< prv)) in
  let s := set_field s MSTATUS_MPP prv in
  set_field s MSTATUS_MIE 0.
Definition trap_mstatus_s (prv : Z) (s : Z) : Z :=
  let s := set_field s MSTATUS_SPIE (get_field s (MSTATUS_UIE .<< prv)) in
  let s := set_field s MSTATUS_SPP prv in
  set_field s MSTATUS_SIE 0.

Definition breakpoint_to_debug (s : state_t) : bool :=
  let d := dcsr s in
  ((prv s =? PRV_M) && dcsr_ebreakm d) || ((prv s =? PRV_H) && dcsr_ebreakh d)
  || ((prv s =? PRV_S) && dcsr_ebreaks d) || ((prv s =? PRV_U) && dcsr_ebreaku d).

Definition delegated (max_xlen cause : Z) (s : state_t) : bool :=
  let top := interrupt_bit max_xlen in
  let interrupt := z2b (cause .& top) in
  let deleg := if interrupt then mideleg s else medeleg s in
  let bit := if interrupt then cause .& Z.lnot top else cause in
  (prv s <=? PRV_S) && (bit <? max_xlen) && z2b ((deleg .>> bit) .& 1).

Definition trap_to_s (cause : Z) (badaddr : option Z) (epc : Z) (s : state_t) : state_t :=
  let s := s <| pc := stvec s |> <| scause := cause |> <| sepc := epc |> in
  match badaddr with Some a => s <| sbadaddr := a |> | None => s end.
Definition trap_to_m (cause : Z) (badaddr : option Z) (epc : Z) (s : state_t) : state_t :=
  let s := s <| pc := mtvec s |> <| mepc := epc |> <| mcause := cause |> in
  match badaddr with Some a => s <| mbadaddr := a |> | None => s end.

Definition take_trap (cause : Z) (badaddr : option Z) (epc : Z) : M W unit :=
  s ← gets state;
  p ← gets proc;
  if (cause =? CAUSE_BREAKPOINT) && breakpoint_to_debug s then enter_debug_mode DCSR_CAUSE_SWBP
  else if z2b (dcsr_cause (dcsr s)) then
    modify_state (fun s => s <| pc := DEBUG_ROM_EXCEPTION |>)
  else
    (if delegated (max_xlen p) cause s then
       modify_state (trap_to_s cause badaddr epc) ;;
       set_csr CSR_MSTATUS (trap_mstatus_s (prv s) (mstatus s)) ;;
       set_privilege PRV_S
     else
       modify_state (trap_to_m cause badaddr epc) ;;
       set_csr CSR_MSTATUS (trap_mstatus_m (prv s) (mstatus s)) ;;
       set_privilege PRV_M) ;;
    modify_state yield_load_reservation.

Definition processor_reset : M W unit :=
  modify (fun m => m <| state := state_reset <| dcsr := (dcsr state_reset)
                                  <| dcsr_halt := halt_on_reset (proc m) |> |> |>
                     <| proc := (proc m) <| halt_on_reset := false |> |>) ;;
  set_csr CSR_MSTATUS 0.

(** ** The invariant of the control and status registers *)

(** The privilege modes that exist: H does not. *)
Definition legal_prv (p : Z) : bool := (p =? PRV_U) || (p =? PRV_S) || (p =? PRV_M).

Definition has_bits (x mask : Z) : bool := (x .& mask) =? mask.
Definition only_bits (x mask : Z) : Prop := x .& Z.lnot mask = 0.

(** SD of [mstatus]: the floating-point or the extension state is dirty. *)
Definition sd_mask (max_xlen : Z) : Z := if max_xlen =? 32 then MSTATUS32_SD else MSTATUS64_SD.
Definition sd_summary (max_xlen ms : Z) : Prop :=
  get_field ms (sd_mask max_xlen) = b2z (has_bits ms MSTATUS_FS || has_bits ms MSTATUS_XS).

Record wf_proc (p : processor_t) : Prop := {
  wf_max_xlen : max_xlen p = 32 \/ max_xlen p = 64;
  wf_xlen : xlen p = max_xlen p;
  wf_isa_fd : Z.testbit (isa p) 3 = true -> Z.testbit (isa p) 5 = true;
  wf_isa_sub : Z.testbit (isa p) 3 = true -> Z.testbit (max_isa p) 3 = true;
  wf_max_isa_fd : Z.testbit (max_isa p) 3 = true -> Z.testbit (max_isa p) 5 = true
}.

Record wf_csrs (p : processor_t) (s : state_t) : Prop := {
  wf_prv : legal_prv (prv s) = true;
  wf_mstatus : in_range (max_xlen p) (mstatus s);
  wf_sd : sd_summary (max_xlen p) (mstatus s);
  wf_vm : validate_vm (max_xlen p) (get_field (mstatus s) MSTATUS_VM) = true;
  wf_mie : only_bits (mie s) all_ints;
  wf_mideleg : only_bits (mideleg s) delegable_ints;
  wf_medeleg : only_bits (medeleg s) medeleg_mask;
  wf_stvec : (stvec s) mod 4 = 0;
  wf_mtvec : (mtvec s) mod 4 = 0;
  wf_sptbr : in_range (paddr_bits p - PGSHIFT) (sptbr s);
  wf_fflags : in_range 5 (fflags s);
  wf_frm : in_range 3 (frm s);
  wf_tselect : 0 <= tselect s < num_triggers;
  wf_triggers : length (mcontrol s) = 4%nat /\ length (tdata2 s) = 4%nat
}.

Definition wf (m : machine W) : Prop := wf_proc (proc m) /\ wf_csrs (proc m) (state m).

(** *** Masked writes *)

Lemma masked_testbit old mask val i :
  0 <= i -> Z.testbit (masked old mask val) i
            = if Z.testbit mask i then Z.testbit val i else Z.testbit old i.
Proof.
  intros Hi. unfold masked. rewrite Z.lor_spec, !Z.land_spec, Z.lnot_spec by done.
  by destruct (Z.testbit mask i), (Z.testbit old i), (Z.testbit val i).
Qed.

Lemma only_bits_masked old mask val : only_bits old mask -> only_bits (masked old mask val) mask.
Proof.
  unfold only_bits. intros Ho. apply Z.bits_inj'. intros i Hi.
  pose proof (f_equal (fun x => Z.testbit x i) Ho) as Hb. cbn beta in Hb.
  rewrite Z.land_spec, Z.lnot_spec, Z.bits_0 in * by done. rewrite masked_testbit by done.
  by destruct (Z.testbit mask i), (Z.testbit old i), (Z.testbit val i).
Qed.

Lemma masked_range w old mask val :
  0 <= w -> in_range w old -> in_range w val -> in_range w (masked old mask val).
Proof.
  intros Hw Ho Hv. apply in_range_bits; [done|]. intros i Hi.
  rewrite masked_testbit, (testbit_above old w i), (testbit_above val w i) by (done || lia).
  by destruct (Z.testbit mask i).
Qed.

(** A field is written when the mask covers it, and kept when it does not. *)
Lemma get_field_masked old mask val fm k n :
  Field fm k n ->
  (fm .& mask = fm -> get_field (masked old mask val) fm = get_field val fm)
  /\ (fm .& mask = 0 -> get_field (masked old mask val) fm = get_field old fm).
Proof.
  intros F. unfold get_field.
  split; intros Hm; f_equal; apply Z.bits_inj'; intros i Hi;
    pose proof (f_equal (fun x => Z.testbit x i) Hm) as Hb; cbn beta in Hb;
    rewrite !Z.land_spec, masked_testbit by done; rewrite Z.land_spec in Hb;
    rewrite ?Z.bits_0 in Hb;
    destruct (Z.testbit fm i), (Z.testbit mask i); try discriminate Hb;
    by rewrite ?andb_true_r, ?andb_false_r.
Qed.

(** *** [mstatus] *)

#[global] Instance field_FS : Field MSTATUS_FS 13 2. Proof. solve_field. Qed.
#[global] Instance field_XS : Field MSTATUS_XS 15 2. Proof. solve_field. Qed.
#[global] Instance field_VM : Field MSTATUS_VM 24 5. Proof. solve_field. Qed.
#[global] Instance field_SD32 : Field MSTATUS32_SD 31 1. Proof. solve_field. Qed.
#[global] Instance field_SD64 : Field MSTATUS64_SD 63 1. Proof. solve_field. Qed.

Lemma has_bits_set_field ms mask v fm :
  mask .& fm = 0 -> has_bits (set_field ms mask v) fm = has_bits ms fm.
Proof.
  intros Hd. unfold has_bits. f_equal. apply Z.bits_inj'. intros i Hi.
  pose proof (f_equal (fun x => Z.testbit x i) Hd) as Hb. cbn beta in Hb.
  unfold set_field. rewrite Z.bits_0, !Z.land_spec in *.
  rewrite Z.lor_spec, !Z.land_spec, Z.lnot_spec by done.
  destruct (Z.testbit fm i), (Z.testbit mask i); try discriminate Hb;
    by rewrite ?andb_false_r, ?andb_true_r, ?orb_false_r.
Qed.

Lemma b2z_mod2 (b : bool) : b2z b mod 2 ^ 1 = b2z b.
Proof. by destruct b. Qed.

Lemma mstatus_mask_vm max_xlen e val :
  let mask := mstatus_mask max_xlen e val in
  if validate_vm max_xlen (get_field val MSTATUS_VM)
  then MSTATUS_VM .& mask = MSTATUS_VM else MSTATUS_VM .& mask = 0.
Proof.
  unfold mstatus_mask. cbv zeta.
  destruct (validate_vm max_xlen (get_field val MSTATUS_VM)), e; vm_compute; reflexivity.
Qed.

Definition mstatus_written (p : processor_t) (old val : Z) : Z :=
  let v := masked old (mstatus_mask (max_xlen p) (ext p) val) val in
  set_field v (sd_mask (max_xlen p)) (b2z (has_bits v MSTATUS_FS || has_bits v MSTATUS_XS)).

Lemma set_mstatus_state val (m : machine W) :
  state (set_mstatus val m) = (state m) <| mstatus := mstatus_written (proc m) (mstatus (state m)) val |>
  /\ proc (set_mstatus val m) = (proc m) <| xlen := max_xlen (proc m) |>.
Proof. done. Qed.

Lemma sd_summary_written p v :
  wf_proc p ->
  sd_summary (max_xlen p)
    (set_field v (sd_mask (max_xlen p)) (b2z (has_bits v MSTATUS_FS || has_bits v MSTATUS_XS))).
Proof.
  intros [Hx _ _ _ _]. unfold sd_summary, sd_mask.
  destruct Hx as [-> | ->]; cbn [Z.eqb Pos.eqb];
    rewrite !has_bits_set_field by (vm_compute; reflexivity).
  - by rewrite (get_set_field _ _ 31 1), b2z_mod2.
  - by rewrite (get_set_field _ _ 63 1), b2z_mod2.
Qed.

Lemma mstatus_written_wf p old val :
  wf_proc p -> in_range (max_xlen p) old -> in_range (max_xlen p) val ->
  validate_vm (max_xlen p) (get_field old MSTATUS_VM) = true ->
  in_range (max_xlen p) (mstatus_written p old val)
  /\ sd_summary (max_xlen p) (mstatus_written p old val)
  /\ validate_vm (max_xlen p) (get_field (mstatus_written p old val) MSTATUS_VM) = true.
Proof.
  intros Hp Ho Hv Hvm. pose proof Hp as [Hx _ _ _ _]. unfold mstatus_written.
  split; [|split].
  - apply set_field_range; [lia|apply masked_range; done || lia|].
    unfold sd_mask. destruct Hx as [-> | ->]; done.
  - by apply sd_summary_written.
  - rewrite get_set_field_other
      by (unfold sd_mask; destruct Hx as [-> | ->]; vm_compute; reflexivity).
    destruct (get_field_masked old (mstatus_mask (max_xlen p) (ext p) val) val MSTATUS_VM 24 5 _)
      as [H1 H2].
    pose proof (mstatus_mask_vm (max_xlen p) (ext p) val) as Hm. cbv zeta in Hm.
    destruct (validate_vm (max_xlen p) (get_field val MSTATUS_VM)) eqn:E.
    + by rewrite H1.
    + by rewrite H2.
Qed.

Lemma get_field_lor_other reg x mask : x .& mask = 0 -> get_field (reg .| x) mask = get_field reg mask.
Proof.
  intros Hd. unfold get_field. f_equal. by rewrite Z.land_lor_distr_l, Hd, Z.lor_0_r.
Qed.

Lemma has_bits_lor ms x fm : x .& fm = fm -> has_bits (ms .| x) fm = true.
Proof.
  intros Hx. unfold has_bits. apply Z.eqb_eq. rewrite Z.land_lor_distr_l, Hx.
  apply Z.bits_inj'. intros i Hi. rewrite Z.lor_spec, Z.land_spec.
  by destruct (Z.testbit ms i), (Z.testbit fm i).
Qed.

Lemma dirty_mstatus p ms :
  wf_proc p -> in_range (max_xlen p) ms ->
  validate_vm (max_xlen p) (get_field ms MSTATUS_VM) = true ->
  let ms' := ms .| (MSTATUS_FS .| sd_bit (xlen p)) in
  in_range (max_xlen p) ms' /\ sd_summary (max_xlen p) ms'
  /\ validate_vm (max_xlen p) (get_field ms' MSTATUS_VM) = true.
Proof.
  intros [Hx E _ _ _] Hr Hv. rewrite E. cbv zeta. split; [|split].
  - apply lor_range; [lia|done|]. unfold sd_bit. destruct Hx as [-> | ->]; done.
  - unfold sd_summary. rewrite (has_bits_lor _ _ MSTATUS_FS)
      by (unfold sd_bit; destruct Hx as [-> | ->]; vm_compute; reflexivity).
    cbn [orb Z.b2z]. unfold sd_mask, sd_bit. destruct Hx as [-> | ->]; cbn [Z.eqb Pos.eqb].
    + pose proof (has_bits_lor ms (MSTATUS_FS .| MSTATUS32_SD) MSTATUS32_SD
        ltac:(vm_compute; reflexivity)) as Hb%Z.eqb_eq.
      unfold get_field. by rewrite Hb.
    + pose proof (has_bits_lor ms (MSTATUS_FS .| MSTATUS64_SD) MSTATUS64_SD
        ltac:(vm_compute; reflexivity)) as Hb%Z.eqb_eq.
      unfold get_field. by rewrite Hb.
  - rewrite get_field_lor_other; [done|].
    unfold sd_bit. destruct Hx as [-> | ->]; vm_compute; reflexivity.
Qed.

(** *** Every write keeps the invariant *)

Lemma dirty_fp_wf p s : wf_proc p -> wf_csrs p s -> wf_csrs p (dirty_fp_state (xlen p) s).
Proof.
  intros Hp []. destruct (dirty_mstatus p (mstatus s)) as (? & ? & ?); [done..|].
  by split.
Qed.

Lemma aligned_write val : u64 ((val .>> 2) .<< 2) mod 4 = 0.
Proof. rewrite shl_mul by lia. unfold wrap. zdm. Qed.

Lemma field_of_mask val w mask : 0 <= w -> in_range w mask -> in_range w (u32 (val .& mask)).
Proof.
  intros Hw Hm. rewrite Z.land_comm. apply in_range_bits; [done|]. intros i Hi.
  by rewrite wrap_testbit, Z.land_spec, (testbit_above mask w i), andb_false_r by (done || lia).
Qed.

Lemma field_of_shift val w mask sh :
  0 <= w -> 0 <= sh -> in_range (w + sh) mask -> in_range w (u32 ((val .& mask) .>> sh)).
Proof.
  intros Hw Hs Hm. apply in_range_bits; [done|]. intros i Hi.
  rewrite wrap_testbit, Z.shiftr_spec, Z.land_spec, (testbit_above mask (w + sh) (i + sh)) by (done || lia).
  by rewrite !andb_false_r.
Qed.

(** A write to one register leaves the facts about the others. *)

Lemma fflags_wf p s v : in_range 5 v -> wf_csrs p s -> wf_csrs p (s <| fflags := v |>).
Proof. intros ? []. csr_leaf. Qed.
Lemma frm_wf p s v : in_range 3 v -> wf_csrs p s -> wf_csrs p (s <| frm := v |>).
Proof. intros ? []. csr_leaf. Qed.

Lemma set_csr_state_wf p which val s :
  wf_proc p -> in_range (max_xlen p) val -> wf_csrs p s ->
  wf_csrs p (set_csr_state (xlen p) which val s).
Proof.
  intros Hp Hv Hs. unfold set_csr_state.
  destruct (which =? CSR_FFLAGS);
    [by apply fflags_wf; [apply field_of_mask|apply dirty_fp_wf]|].
  destruct (which =? CSR_FRM);
    [by apply frm_wf; [apply field_of_mask|apply dirty_fp_wf]|].
  destruct (which =? CSR_FCSR);
    [by apply frm_wf; [apply field_of_shift|apply fflags_wf; [apply field_of_shift|apply dirty_fp_wf]]|].
  pose proof Hs as [].
  repeat match goal with
  | |- wf_csrs _ (if ?b then _ else _) => destruct b eqn:?; [first [assumption | by csr_leaf | idtac]|]
  end; try assumption; try (by csr_leaf).
  - csr_leaf. by apply only_bits_masked.
  - csr_leaf. by apply only_bits_masked.
  - csr_leaf. by apply only_bits_masked.
  - csr_leaf. apply aligned_write.
  - csr_leaf. apply aligned_write.
  - csr_leaf. split; [apply Hv|].
    match goal with E : (val <? num_triggers) = true |- _ => by apply Z.ltb_lt end.
  - csr_leaf. by rewrite length_insert.
Qed.

Lemma mstatus_update_wf p s ms :
  wf_csrs p s -> in_range (max_xlen p) ms -> sd_summary (max_xlen p) ms ->
  validate_vm (max_xlen p) (get_field ms MSTATUS_VM) = true ->
  wf_csrs p (s <| mstatus := ms |>).
Proof. intros []. by split. Qed.

Lemma set_mstatus_wf m val :
  wf m -> in_range (max_xlen (proc m)) val -> wf (set_mstatus val m).
Proof.
  intros [Hp Hs] Hv. destruct (set_mstatus_state val m) as [E1 E2]. unfold wf. rewrite E1, E2.
  assert ((proc m) <| xlen := max_xlen (proc m) |> = proc m) as ->.
  { pose proof (wf_xlen _ Hp) as E. rewrite <- E. by destruct (proc m). }
  split; [done|].
  destruct (mstatus_written_wf (proc m) (mstatus (state m)) val) as (? & ? & ?);
    [done|by destruct Hs|done|by destruct Hs|].
  by apply mstatus_update_wf.
Qed.

Lemma set_misa_bits val p :
  let mask := misa_mask .& max_isa p in
  Z.testbit (isa (set_misa val p)) 5
  = Z.testbit val 5 && Z.testbit (max_isa p) 5 || Z.testbit (isa p) 5 && negb (Z.testbit (max_isa p) 5)
  /\ Z.testbit (isa (set_misa val p)) 3
  = Z.testbit val 3 && Z.testbit val 5 && Z.testbit (max_isa p) 3
    || Z.testbit (isa p) 3 && negb (Z.testbit (max_isa p) 3).
Proof.
  unfold set_misa. cbn -[Z.testbit]. change (isa_bit "D") with (2 ^ 3). change (isa_bit "F") with (2 ^ 5).
  assert (z2b (val .& 2 ^ 5) = Z.testbit val 5) as ->.
  { unfold z2b. destruct (Z.testbit val 5) eqn:Ev.
    - apply negb_true_iff, Z.eqb_neq. intros E.
      pose proof (f_equal (fun x => Z.testbit x 5) E) as Hb. cbn beta in Hb.
      by rewrite Z.land_spec, Ev in Hb.
    - apply negb_false_iff, Z.eqb_eq, Z.bits_inj'. intros i Hi.
      rewrite Z.land_spec, Z.pow2_bits_eqb, Z.bits_0 by lia.
      destruct (Z.eqb_spec 5 i) as [<-|]; [by rewrite Ev|apply andb_false_r]. }
  rewrite !Z.lor_spec, !Z.land_spec, !Z.lnot_spec, !Z.land_spec by lia.
  change (Z.testbit misa_mask 3) with true. change (Z.testbit misa_mask 5) with true.
  cbn [andb]. destruct (Z.testbit val 5) eqn:Ev; cbn [negb].
  - by rewrite Ev, andb_true_r.
  - rewrite !Z.land_spec, !Z.lnot_spec, Ev by lia.
    change (Z.testbit (2 ^ 3) 3) with true. cbn [negb andb]. by rewrite andb_false_r.
Qed.

Lemma set_misa_wf p val : wf_proc p -> wf_proc (set_misa val p).
Proof.
  intros [H1 H2 H3 H4 H5]. destruct (set_misa_bits val p) as [E5 E3]. split; [done|done|..];
    change (max_isa (set_misa val p)) with (max_isa p); rewrite ?E5, ?E3; [..|done];
    destruct (Z.testbit (isa p) 3), (Z.testbit (isa p) 5), (Z.testbit (max_isa p) 3),
      (Z.testbit (max_isa p) 5), (Z.testbit val 3), (Z.testbit val 5); cbn; tauto.
Qed.

Lemma wf_csrs_same_max p p' s : max_xlen p' = max_xlen p -> wf_csrs p s -> wf_csrs p' s.
Proof. intros E []. split; unfold paddr_bits in *; rewrite ?E; done. Qed.

Lemma set_csr_direct_wf m which val :
  wf m -> exists m', set_csr_direct which val m = (inl tt, m') /\ wf m'.
Proof.
  intros Hwf. pose proof Hwf as [Hp Hs]. pose proof Hp as [Hx Ex _ _ _].
  unfold set_csr_direct. rewrite zext_xlen_spec, Ex, Z.eqb_refl by lia. cbn [negb].
  set (v := wrap (max_xlen (proc m)) val).
  assert (in_range (max_xlen (proc m)) v) as Hv by (apply wrap_range; lia).
  repeat match goal with
  | |- context [if ?b then _ else _] => destruct b eqn:?
  end; eexists; (split; [done|]).
  - by apply set_mstatus_wf.
  - split; [done|]. cbn. destruct Hs. split; cbn; try done.
    assert (0 <= paddr_bits (proc m) - PGSHIFT)
      by (unfold paddr_bits, PGSHIFT; destruct (_ =? 64); lia).
    rewrite shl_mul, Z.mul_1_l, land_mask by done. by apply wrap_range.
  - split; cbn; [by apply set_misa_wf|]. by apply (wf_csrs_same_max (proc m)).
  - unfold set_tdata1. destruct (mc_dmode _ && _); [done|]. split; cbn; [done|].
    destruct Hs. split; cbn; try done. by rewrite length_insert.
  - split; cbn; [done|]. rewrite <- Ex. by apply set_csr_state_wf.
Qed.

Lemma set_csr_wf m which val : wf m -> exists m', set_csr which val m = (inl tt, m') /\ wf m'.
Proof. intros Hwf. unfold set_csr. case_match; [|case_match; [|case_match]]; by apply set_csr_direct_wf. Qed.

Lemma flush_wf m : wf m -> wf (flush m).
Proof. done. Qed.

Lemma set_privilege_wf m p :
  wf m -> 0 <= p <= PRV_M -> exists m', set_privilege p m = (inl tt, m') /\ wf m'.
Proof.
  intros [Hp Hs] Hr. unfold set_privilege. rewrite (proj2 (Z.ltb_ge _ _)) by lia.
  eexists. split; [done|]. split; [done|]. cbn. destruct Hs. split; cbn; try done.
  unfold PRV_M, PRV_H, PRV_U, legal_prv, PRV_S in *.
  assert (p = 0 \/ p = 1 \/ p = 2 \/ p = 3) as [-> |[-> |[-> | ->]]] by lia; done.
Qed.

(** ** Taking a trap *)

(** Two words that agree outside a mask. *)
Definition agree_off (mask a b : Z) : Prop :=
  forall i, 0 <= i -> Z.testbit mask i = false -> Z.testbit a i = Z.testbit b i.

Lemma set_field_agree mask reg fm k n v :
  Field fm k n -> fm .& mask = fm -> agree_off mask (set_field reg fm v) reg.
Proof.
  intros F Hm i Hi Hn. rewrite (set_field_testbit reg fm k n) by done.
  rewrite <- (field_testbit fm k n) by done.
  pose proof (f_equal (fun x => Z.testbit x i) Hm) as Hb. cbn beta in Hb.
  rewrite Z.land_spec, Hn, andb_false_r in Hb. by rewrite <- Hb.
Qed.

Lemma agree_off_trans mask a b c : agree_off mask a b -> agree_off mask b c -> agree_off mask a c.
Proof. intros H1 H2 i Hi Hn. by rewrite H1, H2. Qed.

#[global] Instance field_SIE : Field MSTATUS_SIE 1 1. Proof. solve_field. Qed.
#[global] Instance field_MIE : Field MSTATUS_MIE 3 1. Proof. solve_field. Qed.
#[global] Instance field_SPIE : Field MSTATUS_SPIE 5 1. Proof. solve_field. Qed.
#[global] Instance field_MPIE : Field MSTATUS_MPIE 7 1. Proof. solve_field. Qed.
#[global] Instance field_SPP : Field MSTATUS_SPP 8 1. Proof. solve_field. Qed.
#[global] Instance field_MPP : Field MSTATUS_MPP 11 2. Proof. solve_field. Qed.

(** A field of [mstatus] that software may change freely. *)
Definition plain_field (fm : Z) : Prop :=
  fm .& MSTATUS_FS = 0 /\ fm .& MSTATUS_XS = 0 /\ fm .& MSTATUS_VM = 0
  /\ fm .& MSTATUS32_SD = 0 /\ fm .& MSTATUS64_SD = 0
  /\ in_range 31 fm /\ fm .& mstatus_base_mask = fm.

Lemma plain_field_mask fm x e val : plain_field fm -> fm .& mstatus_mask x e val = fm.
Proof.
  intros (_ & _ & _ & _ & _ & _ & Hm).
  assert (mstatus_base_mask .& mstatus_mask x e val = mstatus_base_mask) as E.
  { unfold mstatus_mask. destruct (validate_vm x _), e; vm_compute; reflexivity. }
  by rewrite <- Hm, <- Z.land_assoc, E.
Qed.

(** What [mstatus] must satisfy to be written as it is. *)
Record wf_mstatus_value (p : processor_t) (ms : Z) : Prop := {
  wfm_range : in_range (max_xlen p) ms;
  wfm_sd : sd_summary (max_xlen p) ms;
  wfm_vm : validate_vm (max_xlen p) (get_field ms MSTATUS_VM) = true
}.

Lemma set_field_wf_mstatus p ms fm v :
  wf_proc p -> plain_field fm -> wf_mstatus_value p ms -> wf_mstatus_value p (set_field ms fm v).
Proof.
  intros [Hx _ _ _ _] (H1 & H2 & H3 & H4 & H5 & H6 & _) [R S V]. split.
  - apply set_field_range; [lia|done|]. unfold in_range in *. pose proof (pow2_le 31 (max_xlen p)). lia.
  - unfold sd_summary in *. rewrite !has_bits_set_field by done.
    rewrite get_set_field_other; [done|]. unfold sd_mask. by destruct (_ =? 32).
  - by rewrite get_set_field_other.
Qed.

(** A value that satisfies this and changes only writable bits is stored
    unchanged. *)
Lemma mstatus_written_id p old val :
  wf_proc p -> wf_mstatus_value p val -> agree_off (mstatus_mask (max_xlen p) (ext p) val) val old ->
  mstatus_written p old val = val.
Proof.
  intros [Hx _ _ _ _] [_ S _] Ha. unfold mstatus_written.
  assert (masked old (mstatus_mask (max_xlen p) (ext p) val) val = val) as ->.
  { apply Z.bits_inj'. intros i Hi. rewrite masked_testbit by done.
    destruct (Z.testbit (mstatus_mask _ _ _) i) eqn:E; [done|]. by rewrite Ha. }
  unfold sd_summary in S. rewrite <- S. unfold sd_mask.
  destruct Hx as [-> | ->]; cbn [Z.eqb Pos.eqb].
  - by apply (set_get_field val _ 31 1).
  - by apply (set_get_field val _ 63 1).
Qed.

Lemma set_csr_mstatus_id m val :
  wf m -> wf_mstatus_value (proc m) val ->
  agree_off (mstatus_mask (max_xlen (proc m)) (ext (proc m)) val) val (mstatus (state m)) ->
  exists u, set_csr CSR_MSTATUS val m
    = (inl tt, m <| state := (state m) <| mstatus := val |> |> <| mmu := u |>).
Proof.
  intros [Hp Hs] Hv Ha. pose proof Hp as [Hx Ex _ _ _]. pose proof (wfm_range _ _ Hv) as Hr.
  unfold set_csr, set_csr_direct. cbn [Z.eqb Pos.eqb CSR_MSTATUS CSR_SSTATUS CSR_SIP CSR_SIE].
  rewrite !zext_xlen_spec, Ex by lia. rewrite wrap_small by done.
  pose proof (mstatus_written_id (proc m) (mstatus (state m)) val Hp Hv Ha) as E.
  destruct (set_mstatus_state val m) as [E1 E2]. rewrite E in E1.
  exists (mmu (set_mstatus val m)). f_equal.
  assert ((proc m) <| xlen := max_xlen (proc m) |> = proc m) as E3.
  { rewrite <- Ex. by destruct (proc m). }
  rewrite E3 in E2. unfold set_mstatus in *. destruct (z2b _); cbn in *; by rewrite E1, E2.
Qed.

Ltac solve_plain := repeat split; vm_compute; try reflexivity; discriminate.

Lemma plain_SIE : plain_field MSTATUS_SIE. Proof. solve_plain. Qed.
Lemma plain_MIE : plain_field MSTATUS_MIE. Proof. solve_plain. Qed.
Lemma plain_SPIE : plain_field MSTATUS_SPIE. Proof. solve_plain. Qed.
Lemma plain_MPIE : plain_field MSTATUS_MPIE. Proof. solve_plain. Qed.
Lemma plain_SPP : plain_field MSTATUS_SPP. Proof. solve_plain. Qed.
Lemma plain_MPP : plain_field MSTATUS_MPP. Proof. solve_plain. Qed.

(** Three fields written one after the other. *)
Lemma three_fields p ms f1 k1 n1 v1 f2 k2 n2 v2 f3 k3 n3 v3 e val :
  wf_proc p -> wf_mstatus_value p ms ->
  Field f1 k1 n1 -> Field f2 k2 n2 -> Field f3 k3 n3 ->
  plain_field f1 -> plain_field f2 -> plain_field f3 ->
  let ms' := set_field (set_field (set_field ms f1 v1) f2 v2) f3 v3 in
  wf_mstatus_value p ms' /\ agree_off (mstatus_mask (max_xlen p) e val) ms' ms.
Proof.
  intros Hp Hm F1 F2 F3 P1 P2 P3. split.
  - by repeat apply set_field_wf_mstatus.
  - eapply agree_off_trans; [by apply (set_field_agree _ _ f3 k3 n3), plain_field_mask|].
    eapply agree_off_trans; [by apply (set_field_agree _ _ f2 k2 n2), plain_field_mask|].
    by apply (set_field_agree _ _ f1 k1 n1), plain_field_mask.
Qed.

Lemma wf_mstatus_of p s : wf_csrs p s -> wf_mstatus_value p (mstatus s).
Proof. intros []. by split. Qed.

Lemma trap_mstatus_ok p prv ms e val :
  wf_proc p -> wf_mstatus_value p ms ->
  (wf_mstatus_value p (trap_mstatus_s prv ms)
   /\ agree_off (mstatus_mask (max_xlen p) e val) (trap_mstatus_s prv ms) ms)
  /\ (wf_mstatus_value p (trap_mstatus_m prv ms)
      /\ agree_off (mstatus_mask (max_xlen p) e val) (trap_mstatus_m prv ms) ms).
Proof.
  intros Hp Hm. split.
  - by apply (three_fields p ms MSTATUS_SPIE 5 1 _ MSTATUS_SPP 8 1 _ MSTATUS_SIE 1 1 0 e val Hp Hm _ _ _
      plain_SPIE plain_SPP plain_SIE).
  - by apply (three_fields p ms MSTATUS_MPIE 7 1 _ MSTATUS_MPP 11 2 _ MSTATUS_MIE 3 1 0 e val Hp Hm _ _ _
      plain_MPIE plain_MPP plain_MIE).
Qed.

(** The state of a trap that enters neither debug mode nor is in it. *)
Definition trapped (max_xlen cause : Z) (badaddr : option Z) (epc : Z) (s : state_t) : state_t :=
  let s' :=
    if delegated max_xlen cause s
    then (trap_to_s cause badaddr epc s) <| mstatus := trap_mstatus_s (prv s) (mstatus s) |>
           <| prv := PRV_S |>
    else (trap_to_m cause badaddr epc s) <| mstatus := trap_mstatus_m (prv s) (mstatus s) |>
           <| prv := PRV_M |> in
  yield_load_reservation s'.

Lemma trap_to_wf cause badaddr epc p s :
  wf_csrs p s -> wf_csrs p (trap_to_s cause badaddr epc s) /\ wf_csrs p (trap_to_m cause badaddr epc s).
Proof. intros []. destruct badaddr; split; by csr_leaf. Qed.

Lemma take_trap_spec cause badaddr epc m :
  wf m -> dcsr_cause (dcsr (state m)) = 0 ->
  (cause =? CAUSE_BREAKPOINT) && breakpoint_to_debug (state m) = false ->
  exists u, take_trap cause badaddr epc m
    = (inl tt, m <| state := trapped (max_xlen (proc m)) cause badaddr epc (state m) |>
                 <| mmu := flush_tlb u |>).
Proof.
  intros [Hp Hs] Hd Hb. unfold take_trap, trapped. unfold mbind, M_bind, gets at 1 2.
  rewrite Hb, Hd. cbn [z2b Z.eqb negb].
  pose proof (wf_mstatus_of _ _ Hs) as Hms.
  destruct (trap_to_wf cause badaddr epc _ _ Hs) as [Hws Hwm].
  destruct (delegated _ _ _); unfold modify_state, modify at 1.
  - set (m1 := m <| state := trap_to_s cause badaddr epc (state m) |>).
    set (ms := trap_mstatus_s _ _).
    destruct (trap_mstatus_ok (proc m) (prv (state m)) _ (ext (proc m)) ms Hp Hms) as [[H1 H2] _].
    destruct (set_csr_mstatus_id m1 ms) as [u E]; [done|done| |rewrite E; by exists u].
    assert (mstatus (state m1) = mstatus (state m)) as -> by (unfold m1; by destruct badaddr). done.
  - set (m1 := m <| state := trap_to_m cause badaddr epc (state m) |>).
    set (ms := trap_mstatus_m _ _).
    destruct (trap_mstatus_ok (proc m) (prv (state m)) _ (ext (proc m)) ms Hp Hms) as [_ [H1 H2]].
    destruct (set_csr_mstatus_id m1 ms) as [u E]; [done|done| |rewrite E; by exists u].
    assert (mstatus (state m1) = mstatus (state m)) as -> by (unfold m1; by destruct badaddr). done.
Qed.

(** ** Interrupts *)

(** Interrupt [i] is pending, enabled, and not masked by the privilege mode of
    the mode that handles it. *)
Definition interrupt_ready (s : state_t) (i : Z) : bool :=
  Z.testbit (mip s) i && Z.testbit (mie s) i
  && (if Z.testbit (mideleg s) i
      then (prv s <? PRV_S) || ((prv s =? PRV_S) && z2b (get_field (mstatus s) MSTATUS_SIE))
      else (prv s <? PRV_M) || ((prv s =? PRV_M) && z2b (get_field (mstatus s) MSTATUS_MIE))).

Lemma only_bits_range x mask w : 0 <= w -> in_range w mask -> only_bits x mask -> in_range w x.
Proof.
  intros Hw Hm Ho. apply in_range_bits; [done|]. intros i Hi.
  pose proof (f_equal (fun x => Z.testbit x i) Ho) as Hb. cbn beta in Hb.
  rewrite Z.land_spec, Z.lnot_spec, Z.bits_0, (testbit_above mask w i), andb_true_r in Hb by (done || lia).
  done.
Qed.

Lemma enable_mask_testbit (b : bool) i : 0 <= i < 64 -> Z.testbit (u64 (- b2z b)) i = b.
Proof.
  intros Hi. rewrite wrap_testbit by lia. rewrite (proj2 (Z.ltb_lt i 64)) by lia.
  destruct b; [|apply Z.bits_0]. by rewrite Z.bits_m1 by lia.
Qed.

Lemma enabled_interrupts_testbit p s i :
  wf_csrs p s -> 0 <= i -> Z.testbit (enabled_interrupts s) i = interrupt_ready s i.
Proof.
  intros Hs Hi. unfold enabled_interrupts, interrupt_ready.
  rewrite Z.lor_spec, !Z.land_spec, Z.lnot_spec by done.
  destruct (Z.ltb_spec i 64).
  - rewrite !enable_mask_testbit by lia.
    destruct (Z.testbit (mip s) i), (Z.testbit (mie s) i), (Z.testbit (mideleg s) i); cbn [andb negb orb];
      by rewrite ?orb_false_r.
  - assert (in_range 64 (mie s)) as Hr
      by (apply (only_bits_range _ all_ints); [done|done|by destruct Hs]).
    rewrite (testbit_above (mie s) 64 i) by (done || lia). by rewrite !andb_false_r.
Qed.

Lemma enabled_interrupts_range p s : wf_csrs p s -> in_range 64 (enabled_interrupts s).
Proof.
  intros Hs. apply in_range_bits; [done|]. intros i Hi.
  rewrite (enabled_interrupts_testbit p) by (done || lia). unfold interrupt_ready.
  assert (in_range 64 (mie s)) as Hr
    by (apply (only_bits_range _ all_ints); [done|done|by destruct Hs]).
  by rewrite (testbit_above (mie s) 64 i), andb_false_r by done.
Qed.

(** [ctz]: the lowest set bit. *)
Lemma ctz_loop_spec fuel val i :
  0 <= i < Z.of_nat fuel -> Z.testbit val i = true -> (forall j, 0 <= j < i -> Z.testbit val j = false) ->
  ctz_loop fuel val = i.
Proof.
  revert val i. induction fuel as [|fuel IH]; intros val i Hi Hb Hl; [lia|]. cbn [ctz_loop].
  change 1 with (2 ^ 1 - 1) at 1. rewrite land_mask by lia. change (2 ^ 1) with 2.
  rewrite <- Z.bit0_mod. destruct (decide (i = 0)) as [->|].
  - by rewrite Hb.
  - rewrite (Hl 0) by lia. cbn [Z.b2z Z.eqb].
    rewrite (IH (val .>> 1) (i - 1)); [lia|lia| |].
    + rewrite Z.shiftr_spec by lia. by replace (i - 1 + 1) with i by lia.
    + intros j Hj. rewrite Z.shiftr_spec by lia. apply Hl. lia.
Qed.

Lemma ctz_spec val i :
  0 <= i < 64 -> Z.testbit val i = true -> (forall j, 0 <= j < i -> Z.testbit val j = false) ->
  ctz val = i.
Proof.
  intros Hi Hb Hl. unfold ctz. assert (z2b val = true) as ->; [|by apply ctz_loop_spec].
  unfold z2b. apply negb_true_iff, Z.eqb_neq. intros ->. by rewrite Z.bits_0 in Hb.
Qed.

Lemma take_interrupt_unfold m :
  take_interrupt m
  = if z2b (enabled_interrupts (state m))
    then raise_interrupt (ctz (enabled_interrupts (state m))) m else (inl tt, m).
Proof. unfold take_interrupt, mbind, M_bind, gets. by destruct (z2b _). Qed.

Lemma take_interrupt_none m :
  wf m -> (forall i, 0 <= i -> interrupt_ready (state m) i = false) -> take_interrupt m = (inl tt, m).
Proof.
  intros [_ Hs] Hn. rewrite take_interrupt_unfold.
  assert (enabled_interrupts (state m) = 0) as ->; [|done].
  apply Z.bits_inj'. intros i Hi. rewrite (enabled_interrupts_testbit (proc m)), Z.bits_0 by done.
  by apply Hn.
Qed.

Lemma take_interrupt_lowest m i :
  wf m -> 0 <= i -> interrupt_ready (state m) i = true ->
  (forall j, 0 <= j < i -> interrupt_ready (state m) j = false) ->
  take_interrupt m = (inr (Trap (interrupt_bit (max_xlen (proc m)) .| i) None), m).
Proof.
  intros [_ Hs] Hi Hr Hl. pose proof (enabled_interrupts_range (proc m) (state m) Hs) as Hrange.
  assert (Z.testbit (enabled_interrupts (state m)) i = true) as Hb
    by (by rewrite (enabled_interrupts_testbit (proc m))).
  assert (i < 64).
  { destruct (Z.ltb_spec i 64); [done|]. by rewrite (testbit_above _ 64 i) in Hb by done. }
  rewrite take_interrupt_unfold.
  assert (z2b (enabled_interrupts (state m)) = true) as ->.
  { unfold z2b. apply negb_true_iff, Z.eqb_neq. intros E. by rewrite E, Z.bits_0 in Hb. }
  unfold raise_interrupt. rewrite (ctz_spec _ i); [done|lia|done|].
  intros j Hj. rewrite (enabled_interrupts_testbit (proc m)) by (done || lia). by apply Hl.
Qed.

(** ** Triggers

    A trigger that is not the head of a chain fires by itself: [chain_ok] is
    true on entry and no step of the loop clears it. *)
Definition trigger_fires (operation : trigger_operation_t) (address data xlen : Z) (s : state_t)
    (i : Z) (c : mcontrol_t) : bool :=
  let value := if mc_select c then data else address in
  let value := if xlen =? 32 then value .& 0xffffffff else value in
  negb (trigger_ignored operation s c) && trigger_compare xlen c value (tdata2_at s i).

(** ** Reading back what was written *)

(** The value a register holds after a write of [v] (already cut to [xlen]
    bits): the writable bits of [v] and the other bits as they were. *)
Definition csr_written (which v : Z) (p : processor_t) (s : state_t) : option Z :=
  if which =? CSR_MIE then Some (masked (mie s) all_ints v)
  else if which =? CSR_MIP then Some (masked (mip s) (MIP_SSIP .| MIP_STIP) v)
  else if which =? CSR_MIDELEG then Some (masked (mideleg s) delegable_ints v)
  else if which =? CSR_MEDELEG then Some (masked (medeleg s) medeleg_mask v)
  else if which =? CSR_SPTBR then Some (v mod 2 ^ (paddr_bits p - PGSHIFT))
  else if (which =? CSR_STVEC) || (which =? CSR_MTVEC) then Some (4 * (v / 4))
  else if (which =? CSR_FFLAGS) && supports_extension "F" p then Some (v mod 2 ^ 5)
  else if (which =? CSR_FRM) && supports_extension "F" p then Some (v mod 2 ^ 3)
  else if (which =? CSR_FCSR) && supports_extension "F" p then Some (v mod 2 ^ 8)
  else if existsb (Z.eqb which)
    [CSR_MEPC; CSR_MSCRATCH; CSR_MCAUSE; CSR_MBADADDR; CSR_SEPC; CSR_SSCRATCH; CSR_SCAUSE;
     CSR_SBADADDR; CSR_DPC; CSR_DSCRATCH] then Some v
  else None.

Lemma not_hpm which x s :
  in_csrs CSR_HPMCOUNTER3 which CSR_HPMCOUNTER31 = false ->
  in_csrs CSR_HPMCOUNTER3H which CSR_HPMCOUNTER31H = false ->
  in_csrs CSR_MHPMCOUNTER3 which CSR_MHPMCOUNTER31 = false ->
  in_csrs CSR_MHPMEVENT3 which CSR_MHPMEVENT31 = false -> hpm_csr which x s = false.
Proof. intros H1 H2 H3 H4. unfold hpm_csr. rewrite H1, H2, H3, H4. by rewrite !andb_false_r. Qed.

Lemma dirty_fp_on x s : z2b (mstatus (dirty_fp_state x s) .& MSTATUS_FS) = true.
Proof.
  unfold z2b. apply negb_true_iff, Z.eqb_neq. intros E.
  pose proof (f_equal (fun x => Z.testbit x 13) E) as Hb. cbn -[Z.testbit] in Hb.
  rewrite Z.land_spec, !Z.lor_spec in Hb. change (Z.testbit MSTATUS_FS 13) with true in Hb.
  by rewrite !orb_true_r in Hb.
Qed.

Lemma land_low_u32 v n mask :
  0 <= n <= 32 -> mask = 2 ^ n - 1 -> u32 (v .& mask) = v mod 2 ^ n.
Proof.
  intros Hn ->. rewrite land_mask by lia. pose proof (pow2_pos n ltac:(lia)).
  pose proof (pow2_le n 32 ltac:(lia)). pose proof (Z.mod_pos_bound v (2 ^ n)).
  apply wrap_small. lia.
Qed.

(** The two fields of [fcsr]. *)
Lemma fcsr_fields v :
  u32 (u32 ((v .& FSR_AEXC) .>> FSR_AEXC_SHIFT) .<< FSR_AEXC_SHIFT)
  .| u32 (u32 ((v .& FSR_RD) .>> FSR_RD_SHIFT) .<< FSR_RD_SHIFT) = v mod 2 ^ 8.
Proof.
  unfold FSR_AEXC_SHIFT, FSR_RD_SHIFT. rewrite Z.shiftr_0_r, Z.shiftl_0_r, wrap_idemp by lia.
  rewrite (land_low_u32 v 5) by done.
  assert (u32 ((v .& FSR_RD) .>> 5) = (v / 2 ^ 5) mod 2 ^ 3) as ->.
  { change FSR_RD with ((2 ^ 3 - 1) * 2 ^ 5). rewrite land_field, shr_div by lia.
    rewrite Z.div_mul, wrap_small by zdm. done. }
  rewrite shl_mul, wrap_small by zdm. rewrite Z.lor_comm, (lor_add _ _ 5); [zdm|lia| |zdm].
  by apply Z.mod_mul.
Qed.

Ltac solve_not_hpm := rewrite not_hpm by reflexivity.

Lemma csr_write_read m which val r :
  wf m -> csr_written which (zext_xlen (xlen (proc m)) val) (proc m) (state m) = Some r ->
  exists m', set_csr which val m = (inl tt, m') /\ csr_value which m' = Some r.
Proof.
  intros [Hp Hs]. pose proof Hp as [Hx Ex _ _ _]. 
  unfold csr_written, set_csr, set_csr_direct, csr_value. cbv zeta.
  set (v := zext_xlen _ val).
  assert (in_range 64 v) as Hv.
  { unfold v. rewrite zext_xlen_spec by lia. pose proof (wrap_range (xlen (proc m)) val ltac:(lia)).
    unfold in_range in *. pose proof (pow2_le (xlen (proc m)) 64 ltac:(lia)). lia. }
  unfold in_range in Hv.
  destruct (Z.eqb_spec which CSR_MIE) as [->|_].
  { intros [= <-]. eexists. split; [reflexivity|]. by solve_not_hpm. }
  destruct (Z.eqb_spec which CSR_MIP) as [->|_].
  { intros [= <-]. eexists. split; [reflexivity|]. by solve_not_hpm. }
  destruct (Z.eqb_spec which CSR_MIDELEG) as [->|_].
  { intros [= <-]. eexists. split; [reflexivity|]. by solve_not_hpm. }
  destruct (Z.eqb_spec which CSR_MEDELEG) as [->|_].
  { intros [= <-]. eexists. split; [reflexivity|]. by solve_not_hpm. }
  destruct (Z.eqb_spec which CSR_SPTBR) as [->|_].
  { intros [= <-]. rewrite Ex, (Z.eqb_refl (max_xlen (proc m))). eexists. split; [reflexivity|]. solve_not_hpm. cbn.
    assert (0 <= paddr_bits (proc m) - PGSHIFT)
      by (unfold paddr_bits, PGSHIFT; destruct (_ =? 64); lia).
    by rewrite shl_mul, Z.mul_1_l, land_mask by done. }
  destruct (Z.eqb_spec which CSR_STVEC) as [->|_].
  { intros [= <-]. eexists. split; [reflexivity|]. solve_not_hpm. cbn -[Z.mul Z.div].
    rewrite shl_mul, shr_div by lia. rewrite wrap_small by zdm. f_equal. zdm. }
  destruct (Z.eqb_spec which CSR_MTVEC) as [->|_].
  { intros [= <-]. eexists. split; [reflexivity|]. solve_not_hpm. cbn -[Z.mul Z.div].
    rewrite shl_mul, shr_div by lia. rewrite wrap_small by zdm. f_equal. zdm. }
  cbn [orb]. destruct (Z.eqb_spec which CSR_FFLAGS) as [->|_].
  { destruct (supports_extension "F" (proc m)) eqn:F; intros [= <-].
    eexists. split; [reflexivity|]. solve_not_hpm. cbn -[dirty_fp_state].
    rewrite dirty_fp_on, F. by rewrite (land_low_u32 v 5). }
  destruct (Z.eqb_spec which CSR_FRM) as [->|_].
  { destruct (supports_extension "F" (proc m)) eqn:F; intros [= <-].
    eexists. split; [reflexivity|]. solve_not_hpm. cbn -[dirty_fp_state].
    rewrite dirty_fp_on, F. by rewrite (land_low_u32 v 3). }
  destruct (Z.eqb_spec which CSR_FCSR) as [->|_].
  { destruct (supports_extension "F" (proc m)) eqn:F; intros [= <-].
    eexists. split; [reflexivity|]. solve_not_hpm. cbn -[dirty_fp_state].
    rewrite dirty_fp_on, F. cbn [andb]. f_equal. by apply fcsr_fields. }
  cbn [andb existsb orb].
  repeat (let E := fresh in
    match goal with |- context [which =? ?c] => destruct (Z.eqb_spec which c) as [->|E] end;
    [intros [= <-]; eexists; split; [reflexivity|]; solve_not_hpm; cbn;
     rewrite ?Ex, ?Z.ltb_irrefl; reflexivity|]).
  done.
Qed.

End csr.
