(* ===== verification/Isa.v ===== *)
(** riscv/processor.cc: the constructor of [processor_t] and the [--isa] option
    ([parse_isa_string], [register_extension]), and that what they build satisfies
    the invariant of the control and status registers. *)
From Stdlib Require Import Ascii String.
From S2P Require Import Prelude SoftPrim Encoding Decode Decoder Machine Csr.

(** ** [parse_isa_string]

    A string is the list of its characters.  [find_extension] looks an extension up
    in those registered or loaded from a shared library: what is used of the result
    is the instructions it adds, and [None] is its exit when there is none. *)

Definition chars := list ascii.
Definition tolower (c : ascii) : ascii :=
  if (char_code "A" <=? char_code c) && (char_code c <=? char_code "Z")
  then ascii_of_nat (nat_of_ascii c + 32) else c.
Definition islower (c : ascii) : bool :=
  (char_code "a" <=? char_code c) && (char_code c <=? char_code "z").

(** [strncmp(p, s, strlen(s)) == 0], with what follows the prefix. *)
Fixpoint strip_prefix (s p : chars) : option chars :=
  match s, p with
  | [], _ => Some p
  | a :: s, b :: p => if bool_decide (a = b) then strip_prefix s p else None
  | _, _ => None
  end.

(** [strchr(s, c)], as what follows the character. *)
Fixpoint after_char (c : ascii) (s : chars) : option chars :=
  match s with
  | [] => None
  | d :: s => if bool_decide (c = d) then Some s else after_char c s
  end.

(** The loop over the lower-case letters of an extension's name. *)
Fixpoint span_lower (p : chars) : chars * chars :=
  match p with
  | c :: p' => if islower c then let '(a, b) := span_lower p' in (c :: a, b) else ([], p)
  | [] => ([], [])
  end.

Definition isa_letter (c : ascii) : Z := 1 .<< (char_code c - char_code "a").

(** What [parse_isa_string] computes: [max_xlen], [isa] (and [max_isa]), [ext] and
    the instructions of the extension. *)
Record isa_option := IsaOption {
  io_max_xlen : Z;
  io_isa : Z;
  io_ext : bool;
  io_insns : list insn_desc_t
}.

Section isa.
Variable find_extension : chars -> option (list insn_desc_t).

(** [register_extension]: the instructions go to the list, and there may be only
    one extension. *)
Definition register_extension (insns : list insn_desc_t) (o : isa_option) : option isa_option :=
  if io_ext o then None
  else
    let l := foldl (fun l d => register_insn d l) (io_insns o) insns in
    Some (IsaOption (io_max_xlen o) (io_isa o) true (instructions (build_opcode_map l))).

Definition add_letter (c : ascii) (o : isa_option) : isa_option :=
  IsaOption (io_max_xlen o) (io_isa o .| isa_letter c) (io_ext o) (io_insns o).

(** The loop over the subsets: every round consumes a character. *)
Fixpoint parse_subsets (fuel : nat) (all_subsets p : chars) (o : isa_option) : option isa_option :=
  match fuel, p with
  | _, [] => Some o
  | O, _ => None
  | S fuel, c :: p =>
      let o := add_letter c o in
      match after_char c all_subsets with
      | Some next => parse_subsets fuel next p o
      | None =>
          if bool_decide (c = "x"%char) then
            let '(name, rest) := span_lower p in
            insns ← find_extension name;
            o ← register_extension insns o;
            parse_subsets fuel all_subsets rest o
          else None
      end
  end.

Definition all_subsets : chars := list_ascii_of_string "imafdc".

Definition has_letter (c : ascii) (isa : Z) : bool :=
  z2b ((isa .>> (char_code c - char_code "A")) .& 1).

Definition parse_isa_string (str : chars) : option isa_option :=
  let p := tolower <$> str in
  let '(max_xlen, isa, p) :=
    match strip_prefix (list_ascii_of_string "rv32") p with
    | Some p => (32, u64 (1 .<< 30), p)
    | None =>
        match strip_prefix (list_ascii_of_string "rv64") p with
        | Some p => (64, u64 (2 .<< 62), p)
        | None =>
            (64, u64 (2 .<< 62), default p (strip_prefix (list_ascii_of_string "rv") p))
        end
    end in
  p ← match p with
      | [] => Some all_subsets
      | c :: rest =>
          if bool_decide (c = "g"%char) then Some (list_ascii_of_string "imafd" ++ rest)
          else if bool_decide (c = "i"%char) then Some p
          else None
      end;
  let o := add_letter "u" (add_letter "s" (IsaOption max_xlen isa false [])) in
  o ← parse_subsets (List.length p) all_subsets p o;
  if has_letter "D" (io_isa o) && negb (has_letter "F" (io_isa o)) then None
  else Some (add_letter "u" (add_letter "s" o)).
End isa.

(** ** The constructors of [mmu_t] and [processor_t]

    The arrays of [mmu_t] are not initialised, except for the tags: here the rest is
    zero.  [xlen] is not initialised either before [reset] writes it; the write of
    [mstatus] in [reset] reads it, and the value written is zero whatever it is. *)

Section construct.
Context {W : Type} `{Platform W}.
Variable find_extension : chars -> option (list insn_desc_t).
Implicit Types m : machine W.

Definition new_mmu : mmu_t :=
  let zeros := replicate (Z.to_nat TLB_ENTRIES) 0 in
  flush_tlb
    (Mmu true
       (replicate (Z.to_nat ICACHE_ENTRIES) (IcacheEntry 0 (InsnFetch illegal_instruction 0)))
       zeros zeros zeros zeros false false false None).

Definition new_processor (isa_string : chars) (i : Z) (halted : bool) (size : Z) (w : W)
    : option (machine W) :=
  o ← parse_isa_string find_extension isa_string;
  let p := Processor (io_max_xlen o) (io_max_xlen o) (io_isa o) (io_isa o) (io_ext o) i false
             halted (register_base_instructions (io_insns o)) in
  let m := Machine state_reset p new_mmu softfloat_init ∅ size w in
  match processor_reset m with
  | (inl _, m) => Some m
  | (inr _, _) => None
  end.

(** ** What is accepted is well formed *)

Lemma has_letter_add c l o :
  char_code "A" <= char_code c <= char_code "Z" -> char_code "a" <= char_code l <= char_code "z" ->
  char_code l <> char_code c + 32 ->
  has_letter c (io_isa (add_letter l o)) = has_letter c (io_isa o).
Proof.
  intros Hc Hl Hn. unfold has_letter, add_letter, isa_letter. cbn [io_isa].
  assert (char_code "A" = 65) as EA by done. assert (char_code "a" = 97) as Ea by done.
  rewrite Z.shiftr_lor, Z.land_lor_distr_l. unfold z2b. f_equal. f_equal.
  rewrite <- (Z.lor_0_r (Z.land _ 1)) at 2. f_equal.
  apply Z.bits_inj'. intros i Hi. rewrite Z.land_spec, Z.bits_0, Z.shiftr_spec by done.
  destruct (Z.eqb_spec i 0) as [->|];
    [|rewrite andb_comm, (testbit_above 1 1) by (unfold in_range; lia); done].
  rewrite Z.shiftl_spec by lia. rewrite andb_false_intro1; [done|].
  destruct (Z.lt_ge_cases (char_code c - char_code "A") (char_code l - char_code "a"));
    [by rewrite Z.testbit_neg_r by lia|apply (testbit_above 1 1); lia].
Qed.

Lemma has_letter_bit c isa :
  char_code "A" <= char_code c ->
  has_letter c isa = Z.testbit isa (char_code c - char_code "A").
Proof.
  intros Hc. unfold has_letter, z2b. change 1 with (Z.ones 1). rewrite Z.land_ones by lia.
  rewrite <- Z.bit0_mod, Z.shiftr_spec, Z.add_0_l by lia.
  by destruct (Z.testbit _ _).
Qed.

Lemma parse_subsets_xlen fuel all p o o' :
  parse_subsets find_extension fuel all p o = Some o' -> io_max_xlen o' = io_max_xlen o.
Proof.
  revert all p o. induction fuel as [|fuel IH]; intros all p o; destruct p as [|c p]; cbn; try congruence.
  destruct (after_char c all) as [next|]; [by intros ->%IH|].
  case_match; [|done]. destruct (span_lower p) as [name rest].
  destruct (find_extension name) as [l|]; cbn; [|done].
  unfold register_extension. case_match; cbn; [done|]. by intros ->%IH.
Qed.

Lemma parse_isa_string_wf str o :
  parse_isa_string find_extension str = Some o ->
  (io_max_xlen o = 32 \/ io_max_xlen o = 64)
  /\ (Z.testbit (io_isa o) 3 = true -> Z.testbit (io_isa o) 5 = true).
Proof.
  unfold parse_isa_string. 
  set (start := match strip_prefix _ _ with Some _ => _ | None => _ end).
  assert (fst (fst start) = 32 \/ fst (fst start) = 64) as Hx
    by (unfold start; repeat case_match; cbn; auto).
  destruct start as [[x isa0] p]. cbn [fst] in Hx.
  intros (p' & _ & H2)%bind_Some. apply bind_Some in H2 as (o1 & H1 & H2).
  apply parse_subsets_xlen in H1. cbn in H1.
  destruct (has_letter "D" (io_isa o1)) eqn:ED, (has_letter "F" (io_isa o1)) eqn:EF;
    cbn [andb negb] in H2; try discriminate H2; injection H2 as <-.
  all: split; [cbn [add_letter io_max_xlen]; lia|].
  all: pose proof (has_letter_bit "D" (io_isa (add_letter "u" (add_letter "s" o1))) ltac:(by vm_compute)) as HD.
  all: pose proof (has_letter_bit "F" (io_isa (add_letter "u" (add_letter "s" o1))) ltac:(by vm_compute)) as HF.
  all: change (char_code "D" - char_code "A") with 3 in HD.
  all: change (char_code "F" - char_code "A") with 5 in HF.
  all: rewrite <- HD, <- HF, !has_letter_add by (vm_compute; first [intros E; discriminate E|split; intros E; discriminate E]).
  all: congruence.
Qed.

Lemma processor_reset_wf m :
  wf_proc (proc m) -> exists m', processor_reset m = (inl tt, m') /\ wf m'.
Proof.
  intros Hp. unfold processor_reset, mbind, M_bind, modify. apply set_csr_wf.
  destruct Hp as [Hx H1 H2 H3 H4]. split; [by split|].
  assert (forall x, x = 32 \/ x = 64 -> in_range x 0 /\ sd_summary x 0 /\ validate_vm x (get_field 0 MSTATUS_VM) = true) as H0.
  { intros x [-> | ->]; concrete. }
  destruct (H0 _ Hx) as (? & ? & ?). csr_leaf; try concrete. unfold paddr_bits. cbn. destruct Hx as [-> | ->]; concrete.
Qed.

Lemma new_processor_wf str i halted size w m :
  new_processor str i halted size w = Some m -> wf m.
Proof.
  unfold new_processor. intros (o & Ho & Hm)%bind_Some.
  destruct (parse_isa_string_wf str o Ho) as [Hx Hf].
  revert Hm. case_match eqn:E. intros Hm. revert E.
  match goal with |- processor_reset ?m0 = _ -> _ => destruct (processor_reset_wf m0) as (m' & -> & Hw) end.
  - by split; cbn.
  - intros [= <- <-]. by injection Hm as <-.
Qed.

(** ** Every history of the hart *)

(** Debug mode, entered whatever the privilege. *)
Lemma enter_debug_mode_wf m cause :
  wf m -> exists m', enter_debug_mode cause m = (inl tt, m') /\ wf m'.
Proof.
  intros [Hp Hs]. unfold enter_debug_mode, mbind, M_bind, modify_state, modify.
  match goal with |- context [set_privilege PRV_M ?m1] =>
    destruct (set_privilege_wf m1 PRV_M) as (m2 & -> & Hp2 & Hs2) end.
  - split; [done|]. destruct Hs. by csr_leaf.
  - done.
  - eexists. split; [done|]. split; [done|]. destruct Hs2. by csr_leaf.
Qed.

Lemma take_trap_wf m cause badaddr epc :
  wf m -> exists m', take_trap cause badaddr epc m = (inl tt, m') /\ wf m'.
Proof.
  intros Hw. pose proof Hw as [Hp Hs]. unfold take_trap, mbind, M_bind, gets at 1 2.
  destruct (_ && breakpoint_to_debug _); [by apply enter_debug_mode_wf|].
  destruct (z2b _).
  { eexists. split; [done|]. split; [done|]. cbn. destruct Hs. by csr_leaf. }
  destruct (trap_to_wf cause badaddr epc _ _ Hs) as [Hws Hwm].
  destruct (delegated _ _ _); unfold modify_state, modify at 1.
  all: match goal with |- context [set_csr CSR_MSTATUS ?v ?m1] =>
    destruct (set_csr_wf m1 CSR_MSTATUS v) as (m2 & E & Hw2); [by split|rewrite E] end.
  all: match goal with Hw2 : wf ?m2 |- context [set_privilege ?p ?m2] =>
    destruct (set_privilege_wf m2 p Hw2) as (m3 & -> & Hp3 & Hs3); [done|] end.
  all: eexists; split; [done|]; split; [done|]; destruct Hs3; by csr_leaf.
Qed.

(** The operations on the control and status registers, as the simulator makes
    them: writes, changes of privilege (0 to 3, as [mret], [sret] and [dret] ask
    for), traps, entries in debug mode, and resets. *)
Inductive hart_op :=
  | WriteCsr (which val : Z)
  | Privilege (p : Z)
  | TakeTrap (cause : Z) (badaddr : option Z) (epc : Z)
  | EnterDebug (cause : Z)
  | Reset.

Definition hart_run (op : hart_op) : M W unit :=
  match op with
  | WriteCsr which val => set_csr which val
  | Privilege p => set_privilege (p .& 3)
  | TakeTrap cause badaddr epc => take_trap cause badaddr epc
  | EnterDebug cause => enter_debug_mode cause
  | Reset => processor_reset
  end.

Lemma hart_run_wf op m : wf m -> exists m', hart_run op m = (inl tt, m') /\ wf m'.
Proof.
  intros Hw. destruct op; cbn.
  - by apply set_csr_wf.
  - apply set_privilege_wf; [done|]. change 3 with (2 ^ 2 - 1). rewrite land_mask by lia. unfold PRV_M. zdm.
  - by apply take_trap_wf.
  - by apply enter_debug_mode_wf.
  - by apply processor_reset_wf, Hw.
Qed.

Fixpoint hart_history (ops : list hart_op) : M W unit :=
  match ops with [] => mret tt | op :: ops => hart_run op ;; hart_history ops end.

(** C9: A hart built from any accepted [--isa] string, after any sequence of operations
    on its control and status registers, has not aborted and satisfies the
    invariant: a legal privilege mode, SD the summary of FS and XS, a supported
    addressing mode, the delegation and interrupt-enable registers within their
    masks, aligned trap vectors, D only with F, and the trigger selector in range. *)
Theorem hart_history_wf str i halted size w m ops :
  new_processor str i halted size w = Some m ->
  exists m', hart_history ops m = (inl tt, m') /\ wf m'.
Proof.
  intros Hw%new_processor_wf. revert m Hw.
  induction ops as [|op ops IH]; intros m Hw; [by exists m|].
  destruct (hart_run_wf op m Hw) as (m1 & E & Hw1). destruct (IH m1 Hw1) as (m2 & E2 & Hw2).
  exists m2. split; [|done]. cbn. unfold mbind, M_bind. by rewrite E.
Qed.
End construct.
