(* ===== verification/CsrProps.v ===== *)
(** What the control and status registers guarantee as a whole: traps and
    interrupts, what supervisor mode can reach, and the triggers; with a concrete
    hart on which the theorems are instantiated. *)
From Stdlib Require Import Ascii String.
From S2P Require Import Prelude SoftPrim Encoding Decode Decoder Machine Csr Isa.

(** ** A concrete hart: no device, no tracer, no memory *)

Definition no_devices : Platform unit := {|
  mmio_load _ _ _ := None;
  mmio_store _ _ _ _ := None;
  get_interrupt _ _ := false;
  fetch_temp_addr := 0;
  interested_in_range _ _ _ _ := false;
  trace _ _ _ w := w
|}.
Definition hart0 : machine unit :=
  Machine (state_reset <| tselect := 0 |>) (Processor 64 64 0x8000000000141105 0x8000000000141105
    false 0 false false (Decoder [] ∅)) new_mmu softfloat_init ∅ 0 tt.

Section csr_props.
Context {W : Type} `{Platform W}.
Implicit Types m : machine W.

(** ** Supervisor mode cannot reach machine state *)

(** The fields of [mstatus] that belong to machine mode. *)
Definition mstatus_m_fields : Z :=
  MSTATUS_MIE .| MSTATUS_MPIE .| MSTATUS_MPP .| MSTATUS_MPRV .| MSTATUS_MXR .| MSTATUS_VM.

(** What machine mode keeps for itself: its fields of [mstatus], the interrupts it
    has not delegated, its own registers and the debug ones. *)
Definition machine_view (m : machine W) :=
  let s := state m in
  ((prv s, mstatus s .& mstatus_m_fields, mie s .& Z.lnot (mideleg s), mip s .& Z.lnot (mideleg s),
    mepc s, mbadaddr s, mscratch s, mtvec s, mcause s),
   (minstret s, medeleg s, mideleg s, mucounteren s, mscounteren s, dpc s, dscratch s, dcsr s,
    (tselect s, mcontrol s, tdata2 s), isa (proc m), mem m)).

Lemma masked_off old mask v d : mask .& d = 0 -> masked old mask v .& d = old .& d.
Proof.
  intros Hd. apply Z.bits_inj'. intros i Hi.
  pose proof (f_equal (fun x => Z.testbit x i) Hd) as Hb. cbn beta in Hb.
  rewrite Z.bits_0 in Hb. rewrite !Z.land_spec, masked_testbit in * by done.
  destruct (Z.testbit mask i), (Z.testbit d i); try discriminate Hb; by rewrite ?andb_false_r.
Qed.

Lemma sstatus_confined p old v :
  wf_proc p -> in_range (max_xlen p) old ->
  mstatus_written p old (zext_xlen (xlen p) (masked old sstatus_write_mask v)) .& mstatus_m_fields
  = old .& mstatus_m_fields.
Proof.
  intros Hp Ho. unfold mstatus_written.
  set (val := zext_xlen _ _). set (mask := mstatus_mask _ _ _).
  apply Z.bits_inj'. intros i Hi. rewrite !Z.land_spec.
  destruct (Z.testbit mstatus_m_fields i) eqn:Em; [|by rewrite !andb_false_r]. rewrite !andb_true_r.
  assert (i < 29) as Hi29.
  { destruct (Z.lt_ge_cases i 29); [done|].
    rewrite (testbit_above mstatus_m_fields 29) in Em by (done || (vm_compute; split; congruence)). done. }
  assert (Z.testbit sstatus_write_mask i = false) as Es.
  { assert (sstatus_write_mask .& mstatus_m_fields = 0) as Hd by (vm_compute; reflexivity).
    apply (f_equal (fun x => Z.testbit x i)) in Hd. by rewrite Z.land_spec, Em, andb_true_r, Z.bits_0 in Hd. }
  assert (Z.testbit val i = Z.testbit old i) as Ev.
  { unfold val. destruct Hp as [Hx Hx' _ _ _]. rewrite zext_xlen_spec by lia. unfold wrap.
    rewrite Z.mod_pow2_bits_low by lia. by rewrite masked_testbit, Es. }
  assert (Z.testbit (masked old mask val) i = Z.testbit old i) as Hm
    by (rewrite masked_testbit, Ev by done; by destruct (Z.testbit mask i)).
  unfold sd_mask. destruct Hp as [[-> | ->] _ _ _ _]; cbn [Z.eqb Pos.eqb].
  - rewrite (set_field_testbit _ MSTATUS32_SD 31 1) by (done || solve_field).
    rewrite (proj2 (Z.leb_gt 31 i)) by lia. exact Hm.
  - rewrite (set_field_testbit _ MSTATUS64_SD 63 1) by (done || solve_field).
    rewrite (proj2 (Z.leb_gt 63 i)) by lia. exact Hm.
Qed.

(** A write of the delegated bits through a register that is itself masked. *)
Lemma delegated_off x old mask sub d v :
  32 <= x <= 64 -> in_range 32 mask -> sub .& Z.lnot d = 0 ->
  masked old mask (zext_xlen x (masked old sub v)) .& Z.lnot d = old .& Z.lnot d.
Proof.
  intros Hx Hm Hs. apply Z.bits_inj'. intros i Hi.
  pose proof (f_equal (fun x => Z.testbit x i) Hs) as Hb. cbn beta in Hb.
  rewrite Z.bits_0 in Hb. rewrite !Z.land_spec, !Z.lnot_spec, masked_testbit in * by done.
  destruct (Z.testbit mask i) eqn:Em; [|done].
  assert (i < 32) as Hi32
    by (destruct (Z.lt_ge_cases i 32) as [|Hg]; [done|]; pose proof (testbit_above mask 32 i Hm Hg); congruence).
  rewrite zext_xlen_spec, wrap_testbit by lia. rewrite (proj2 (Z.ltb_lt _ _)) by lia.
  rewrite masked_testbit by done.
  destruct (Z.testbit sub i), (Z.testbit d i); try discriminate Hb; by rewrite ?andb_false_r.
Qed.

Definition user_or_supervisor (which : Z) : bool := get_field which 0x300 <=? PRV_S.

(** A machine register is none of those. *)
Lemma not_machine which c b :
  user_or_supervisor which = true -> user_or_supervisor c = false ->
  (which =? c) = b -> b = false.
Proof. intros Hw Hc <-. case_bool; [|done]. subst. congruence. Qed.

Lemma set_csr_state_confined x which v s :
  user_or_supervisor which = true ->
  let s' := set_csr_state x which v s in
  prv s' = prv s /\ mstatus s' .& mstatus_m_fields = mstatus s .& mstatus_m_fields
  /\ s' = s <| mstatus := mstatus s' |> <| fflags := fflags s' |> <| frm := frm s' |>
           <| sepc := sepc s' |> <| stvec := stvec s' |> <| sscratch := sscratch s' |>
           <| scause := scause s' |> <| sbadaddr := sbadaddr s' |>.
Proof.
  intros Hw. cbv zeta. unfold set_csr_state.
  assert (forall s : state_t, (dirty_fp_state x s) .(mstatus) .& mstatus_m_fields
                              = mstatus s .& mstatus_m_fields) as Hd.
  { intros s0. cbn. rewrite Z.land_lor_distr_l. unfold sd_bit. destruct (x =? 64);
      [change ((MSTATUS_FS .| MSTATUS64_SD) .& mstatus_m_fields) with 0
      |change ((MSTATUS_FS .| MSTATUS32_SD) .& mstatus_m_fields) with 0]; by rewrite Z.lor_0_r. }
  repeat match goal with
  | |- context [which =? ?c] => rewrite (not_machine which c _ Hw eq_refl eq_refl)
  end. cbn [orb].
  repeat match goal with
  | |- context [if which =? ?c then _ else _] =>
      destruct (which =? c);
        [split; [done|]; split; [first [done|apply Hd]|destruct s; reflexivity]|]
  end.
  split; [done|]. split; [done|]. destruct s; reflexivity.
Qed.

Lemma set_mstatus_mem v m : mem (set_mstatus v m) = mem m.
Proof. unfold set_mstatus. cbn. by destruct (z2b _). Qed.

Lemma set_csr_mip v m :
  set_csr_direct CSR_MIP v m
  = (inl tt, m <| state := (state m)
       <| mip := masked (mip (state m)) (MIP_SSIP .| MIP_STIP) (zext_xlen (xlen (proc m)) v) |> |>).
Proof. reflexivity. Qed.
Lemma set_csr_mie v m :
  set_csr_direct CSR_MIE v m
  = (inl tt, m <| state := (state m)
       <| mie := masked (mie (state m)) all_ints (zext_xlen (xlen (proc m)) v) |> |>).
Proof. reflexivity. Qed.

Lemma land_lnot_sub a b : (a .& b) .& Z.lnot b = 0.
Proof. by rewrite <- Z.land_assoc, Z.land_lnot_diag, Z.land_0_r. Qed.

(** C16: A write of any register that user or supervisor mode may name leaves machine
    mode's view untouched: its fields of [mstatus], the interrupts it has not
    delegated, its own registers, the triggers and the debug registers, the
    instruction set and the privilege mode. *)
Theorem supervisor_confined m which val :
  wf m -> user_or_supervisor which = true ->
  exists m', set_csr which val m = (inl tt, m') /\ machine_view m' = machine_view m.
Proof.
  intros [Hp Hs] Hw. unfold set_csr. pose proof Hp as [Hx Hx' _ _ _].
  set (v := zext_xlen _ val).
  destruct (which =? CSR_SSTATUS).
  { eexists. split; [reflexivity|]. unfold machine_view.
    set (v' := zext_xlen _ (masked _ _ _)). rewrite set_mstatus_mem.
    destruct (set_mstatus_state v' m) as [-> ->].
    cbn -[Z.land Z.lnot mstatus_written mstatus_m_fields].
    unfold v'. rewrite sstatus_confined by (done || apply Hs). done. }
  destruct (which =? CSR_SIP).
  { rewrite set_csr_mip. eexists. split; [reflexivity|]. unfold machine_view. cbn -[Z.land Z.lnot masked].
    rewrite delegated_off; [done|lia|by vm_compute|apply land_lnot_sub]. }
  destruct (which =? CSR_SIE).
  { rewrite set_csr_mie. eexists. split; [reflexivity|]. unfold machine_view. cbn -[Z.land Z.lnot masked].
    rewrite delegated_off; [done|lia|by vm_compute|apply Z.land_lnot_diag]. }
  unfold set_csr_direct.
  rewrite (not_machine which CSR_MSTATUS _ Hw eq_refl eq_refl),
    (not_machine which CSR_MISA _ Hw eq_refl eq_refl),
    (not_machine which CSR_TDATA1 _ Hw eq_refl eq_refl).
  destruct (which =? CSR_SPTBR).
  { rewrite Hx', Z.eqb_refl. eexists. by split. }
  eexists. split; [reflexivity|].
  destruct (set_csr_state_confined (xlen (proc m)) which (zext_xlen (xlen (proc m)) val) (state m) Hw)
    as (_ & Hms & E).
  unfold machine_view. cbn [state proc mem]. cbn -[Z.land Z.lnot set_csr_state mstatus_m_fields].
  rewrite Hms. rewrite E. reflexivity.
Qed.

(** ** Traps *)


Lemma field_xIE p : legal_prv p = true -> Field (MSTATUS_UIE .<< p) p 1.
Proof.
  unfold legal_prv. intros [[->%Z.eqb_eq| ->%Z.eqb_eq]%orb_prop| ->%Z.eqb_eq]%orb_prop; split; concrete.
Qed.

Lemma bit_field_mod ms p : legal_prv p = true ->
  get_field ms (MSTATUS_UIE .<< p) mod 2 ^ 1 = get_field ms (MSTATUS_UIE .<< p).
Proof. intros F%field_xIE. apply Z.mod_small. exact (get_field_range ms _ p 1 F). Qed.

(** What a trap to machine mode, and one to supervisor mode, make of [mstatus]. *)
Definition pushed (pie pp ie : Z) (p ms ms' : Z) : Prop :=
  get_field ms' pie = get_field ms (MSTATUS_UIE .<< p)
  /\ get_field ms' pp = p /\ get_field ms' ie = 0
  /\ ms' .& Z.lnot (pie .| pp .| ie) = ms .& Z.lnot (pie .| pp .| ie).

Lemma set_field_off reg mask k n v d :
  Field mask k n -> mask .& d = 0 -> set_field reg mask v .& d = reg .& d.
Proof.
  intros F Hd. change (set_field reg mask v) with (masked reg mask (v * lowbit mask)).
  by apply masked_off.
Qed.

Lemma pushed_fields pie kp pp kq nq ie ki p ms :
  Field pie kp 1 -> Field pp kq nq -> Field ie ki 1 ->
  pie .& pp = 0 -> pie .& ie = 0 -> pp .& ie = 0 ->
  legal_prv p = true -> 0 <= p < 2 ^ nq ->
  pushed pie pp ie p ms
    (set_field (set_field (set_field ms pie (get_field ms (MSTATUS_UIE .<< p))) pp p) ie 0).
Proof.
  intros F1 F2 F3 D1 D2 D3 Hl Hp. unfold pushed.
  assert (forall a b, a .& b = 0 -> b .& a = 0) as Hc by (intros; by rewrite Z.land_comm).
  rewrite !get_set_field_other by auto. rewrite (get_set_field _ pie kp 1), (get_set_field _ ie ki 1) by done.
  rewrite get_set_field_other, (get_set_field _ pp kq nq) by auto.
  rewrite (Z.mod_small p), Z.mod_0_l by lia.
  split; [by apply bit_field_mod|]. split; [done|]. split; [done|].
  assert (forall a b c, a .& Z.lnot (a .| b .| c) = 0 /\ a .& Z.lnot (b .| a .| c) = 0
                        /\ a .& Z.lnot (b .| c .| a) = 0) as Hl0.
  { intros a b c. split; [|split]; apply Z.bits_inj'; intros i Hi;
      rewrite Z.land_spec, Z.lnot_spec, !Z.lor_spec, Z.bits_0 by done;
      by destruct (Z.testbit a i), (Z.testbit b i), (Z.testbit c i). }
  rewrite (set_field_off _ ie ki 1), (set_field_off _ pp kq nq), (set_field_off _ pie kp 1);
    try done; apply Hl0.
Qed.

Lemma trap_push_m p ms : legal_prv p = true ->
  pushed MSTATUS_MPIE MSTATUS_MPP MSTATUS_MIE p ms (trap_mstatus_m p ms).
Proof.
  intros Hl. apply (pushed_fields _ 7 _ 11 2 _ 3); try apply _; try reflexivity; try done.
  revert Hl. unfold legal_prv, PRV_U, PRV_S, PRV_M. case_bool; cbn; lia || done.
Qed.

Lemma trap_push_s p ms : legal_prv p = true -> (p <=? PRV_S) = true ->
  pushed MSTATUS_SPIE MSTATUS_SPP MSTATUS_SIE p ms (trap_mstatus_s p ms).
Proof.
  intros Hl Hp. apply (pushed_fields _ 5 _ 8 1 _ 1); try apply _; try reflexivity; try done.
  revert Hl Hp. unfold legal_prv, PRV_U, PRV_S, PRV_M. case_bool; cbn; lia || done.
Qed.

(** What the handler of a trap finds, in the mode it runs in. *)
Definition in_supervisor (cause : Z) (badaddr : option Z) (epc : Z) (s s' : state_t) : Prop :=
  prv s' = PRV_S /\ pc s' = stvec s /\ sepc s' = epc /\ scause s' = cause
  /\ sbadaddr s' = default (sbadaddr s) badaddr
  /\ pushed MSTATUS_SPIE MSTATUS_SPP MSTATUS_SIE (prv s) (mstatus s) (mstatus s')
  /\ (mepc s', mcause s', mbadaddr s') = (mepc s, mcause s, mbadaddr s).
Definition in_machine (cause : Z) (badaddr : option Z) (epc : Z) (s s' : state_t) : Prop :=
  prv s' = PRV_M /\ pc s' = mtvec s /\ mepc s' = epc /\ mcause s' = cause
  /\ mbadaddr s' = default (mbadaddr s) badaddr
  /\ pushed MSTATUS_MPIE MSTATUS_MPP MSTATUS_MIE (prv s) (mstatus s) (mstatus s')
  /\ (sepc s', scause s', sbadaddr s') = (sepc s, scause s, sbadaddr s).
Definition in_debug (s s' : state_t) : Prop :=
  prv s' = PRV_M /\ pc s' = DEBUG_ROM_START /\ dpc s' = pc s
  /\ dcsr_cause (dcsr s') = DCSR_CAUSE_SWBP /\ dcsr_prv (dcsr s') = prv s
  /\ mstatus s' = mstatus s.

(** C10: A trap always ends in exactly one of four ways: in debug mode for a breakpoint
    [dcsr] sends there; at the exception vector of the debug ROM, with nothing else
    changed, when already in debug mode; otherwise in supervisor mode when the cause
    is delegated and the hart is not in machine mode, and in machine mode when not,
    with the interrupt enable and the privilege pushed on the handler's stack and
    the load reservation dropped. *)
Theorem take_trap_correct cause badaddr epc m :
  wf m ->
  exists m', take_trap cause badaddr epc m = (inl tt, m')
  /\ let s := state m in
     let s' := state m' in
     if (cause =? CAUSE_BREAKPOINT) && breakpoint_to_debug s then in_debug s s'
     else if z2b (dcsr_cause (dcsr s)) then m' = (m <| state := (s <| pc := DEBUG_ROM_EXCEPTION |>) |>)
     else load_reservation s' = u64 (-1)
          /\ if delegated (max_xlen (proc m)) cause s
             then in_supervisor cause badaddr epc s s' else in_machine cause badaddr epc s s'.
Proof.
  intros Hw. pose proof (wf_prv _ _ (proj2 Hw)) as Hl.
  destruct ((cause =? CAUSE_BREAKPOINT) && breakpoint_to_debug (state m)) eqn:Eb.
  { unfold take_trap, mbind, M_bind, gets at 1 2. rewrite Eb. eexists. split; [reflexivity|].
    cbv zeta. unfold in_debug. cbn -[u8]. repeat (split; [reflexivity|]). split; [|done].
    revert Hl. unfold legal_prv. by intros [[->%Z.eqb_eq| ->%Z.eqb_eq]%orb_prop| ->%Z.eqb_eq]%orb_prop. }
  destruct (z2b (dcsr_cause (dcsr (state m)))) eqn:Ed.
  { unfold take_trap, mbind, M_bind, gets at 1 2. rewrite Eb, Ed. eexists. by split. }
  pose proof (proj1 (Z.eqb_eq _ _) (proj1 (negb_false_iff _) Ed)) as Ed'.
  destruct (take_trap_spec cause badaddr epc m Hw Ed' Eb) as [u ->]. eexists. split; [reflexivity|].
  cbv zeta. rewrite Eb, Ed. unfold trapped. split; [done|].

  destruct (delegated _ _ _) eqn:Edel.
  - unfold delegated in Edel. cbv zeta in Edel. apply andb_prop in Edel as [[Hp _]%andb_prop _].
    unfold in_supervisor. destruct badaddr; cbn -[pushed trap_mstatus_s];
      (repeat (split; [reflexivity|]); split; [by apply trap_push_s|done]).
  - unfold in_machine. destruct badaddr; cbn -[pushed trap_mstatus_m];
      (repeat (split; [reflexivity|]); split; [by apply trap_push_m|done]).
Qed.

(** ** Interrupts *)

(** C11: An interrupt is taken exactly when one is ready, that is pending, enabled, and
    let through by the mode that handles it; it is then the one of the lowest
    number, and the hart's state has not changed. *)
Theorem take_interrupt_correct m :
  wf m ->
  ((forall i, 0 <= i -> interrupt_ready (state m) i = false) -> take_interrupt m = (inl tt, m))
  /\ (forall i, 0 <= i -> interrupt_ready (state m) i = true ->
      (forall j, 0 <= j < i -> interrupt_ready (state m) j = false) ->
      take_interrupt m = (inr (Trap (interrupt_bit (max_xlen (proc m)) .| i) None), m)).
Proof.
  intros Hw. split; [by apply take_interrupt_none|]. intros i ? ? ?. by apply take_interrupt_lowest.
Qed.

(** ** Triggers *)

(** The first trigger that fires and is not chained to the next one. *)
Fixpoint first_unchained (operation : trigger_operation_t) (address data xlen : Z) (s : state_t)
    (i : Z) (mcs : list mcontrol_t) : Z :=
  match mcs with
  | [] => -1
  | c :: mcs =>
      if trigger_fires operation address data xlen s i c && negb (mc_chain c) then i
      else first_unchained operation address data xlen s (i + 1) mcs
  end.

Lemma trigger_loop_unchained operation address data xlen s mcs i :
  trigger_loop operation address data xlen s true i mcs
  = first_unchained operation address data xlen s i mcs.
Proof.
  revert i. induction mcs as [|c mcs IH]; intros i; [done|]. cbn. unfold trigger_fires.
  destruct (trigger_ignored operation s c); [apply IH|]. cbn [negb andb].
  destruct (trigger_compare _ _ _ _); [|apply IH]. cbn [negb andb].
  destruct (mc_chain c); [apply IH|done].
Qed.

(** A match is the first trigger of the four that concerns the access, whose
    comparison holds and that has no chain bit; in debug mode there is none.  A
    trigger with the chain bit has no effect on those after it. *)
Theorem trigger_match_first operation address data m :
  trigger_match operation address data m
  = if z2b (dcsr_cause (dcsr (state m))) then -1
    else first_unchained operation address data (xlen (proc m)) (state m) 0 (mcontrol (state m)).
Proof. unfold trigger_match. by rewrite trigger_loop_unchained. Qed.

(** ** Writing and reading back *)

(** C32: A register of [csr_written] (the interrupt enables and pendings of machine mode, the
    delegations, sptbr, the trap vectors, the floating-point registers, and the registers
    that hold any value), written in a well-formed state, reads back as the value its own
    width and writable bits make of the one written. *)
Theorem csr_readback m which val r :
  wf m -> csr_written which (zext_xlen (xlen (proc m)) val) (proc m) (state m) = Some r ->
  exists m', set_csr which val m = (inl tt, m') /\ get_csr which m' = (inl r, m').
Proof.
  intros Hw Hr. destruct (csr_write_read m which val r Hw Hr) as (m' & E & Ev).
  exists m'. split; [done|]. unfold get_csr. by rewrite Ev.
Qed.
End csr_props.

(** ** The theorems on the concrete hart *)

Lemma hart0_wf (P : Platform unit) : wf hart0.
Proof. split; split; concrete || (cbn; auto) || idtac; vm_compute; auto; split; congruence. Qed.

#[local] Existing Instance no_devices.

Lemma hart_history_wf_witness :
  match new_processor (fun _ => None) (list_ascii_of_string "RV32IMAFDC") 0 false 0 tt with
  | Some m =>
      exists m', hart_history [WriteCsr CSR_MSTATUS (2 ^ 32 - 1); WriteCsr CSR_MISA 0;
                               TakeTrap CAUSE_BREAKPOINT None 0x80000000; Privilege 2; Reset] m
                 = (inl tt, m') /\ wf m'
  | None => False
  end.
Proof.
  destruct (new_processor _ _ _ _ _ _) as [m|] eqn:E; [|vm_compute in E; discriminate E].
  exact (hart_history_wf (fun _ => None) (list_ascii_of_string "RV32IMAFDC") 0 false 0 tt m _ E).
Defined.

Lemma supervisor_confined_witness :
  exists m', set_csr CSR_SSTATUS (2 ^ 64 - 1) hart0 = (inl tt, m')
             /\ machine_view m' = machine_view hart0.
Proof. exact (supervisor_confined hart0 CSR_SSTATUS (2 ^ 64 - 1) (hart0_wf _) eq_refl). Defined.

(** The delegated breakpoint of a hart in user mode: its handler runs in supervisor
    mode. *)
Definition hart1 : machine unit :=
  hart0 <| state := (state hart0) <| prv := PRV_U |> <| medeleg := 1 .<< CAUSE_BREAKPOINT |>
                      <| stvec := 0x1000 |> |>.
Lemma hart1_wf : wf hart1.
Proof. destruct (hart0_wf no_devices) as [Hp []]. split; [exact Hp|]. csr_leaf; concrete. Qed.

Lemma take_trap_correct_witness :
  exists m', take_trap CAUSE_BREAKPOINT None 0x2000 hart1 = (inl tt, m')
             /\ load_reservation (state m') = u64 (-1)
             /\ in_supervisor CAUSE_BREAKPOINT None 0x2000 (state hart1) (state m').
Proof.
  destruct (take_trap_correct CAUSE_BREAKPOINT None 0x2000 hart1 hart1_wf) as (m' & E & H).
  exists m'. split; [exact E|exact H].
Defined.

(** A pending, enabled and undelegated timer interrupt in user mode. *)
Definition hart2 : machine unit :=
  hart1 <| state := (state hart1) <| mip := MIP_MTIP .| MIP_SSIP |> <| mie := MIP_MTIP |> |>.
Lemma hart2_wf : wf hart2.
Proof. destruct hart1_wf as [Hp []]. split; [exact Hp|]. csr_leaf; concrete. Qed.

Lemma take_interrupt_correct_witness :
  take_interrupt hart2 = (inr (Trap (2 ^ 63 + 7) None), hart2).
Proof.
  change (2 ^ 63 + 7) with (interrupt_bit (max_xlen (proc hart2)) .| 7).
  apply (proj2 (take_interrupt_correct hart2 hart2_wf)); [lia|reflexivity|].
  intros j Hj. assert (j = 0 \/ j = 1 \/ j = 2 \/ j = 3 \/ j = 4 \/ j = 5 \/ j = 6) as Hi by lia.
  by repeat destruct Hi as [-> |Hi]; subst.
Defined.

Lemma csr_readback_witness :
  exists m', set_csr CSR_MTVEC 0x80000007 hart1 = (inl tt, m')
             /\ get_csr CSR_MTVEC m' = (inl 0x80000004, m').
Proof. exact (csr_readback hart1 CSR_MTVEC 0x80000007 0x80000004 hart1_wf eq_refl). Defined.
