(* ===== verification/Mmu.v ===== *)
(** riscv/mmu.h and mmu.cc: address translation, the page-table walk, the TLB,
    loads, stores and atomic operations, and instruction fetch with its cache. *)
From S2P Require Import Prelude Encoding Decode Decoder Machine Csr.

Section mmu.
Context {W : Type} `{Platform W}.
Implicit Types m : machine W.

(** ** Memory (riscv/sim.h) and bytes *)

Definition addr_is_mem (addr : Z) m : bool :=
  (DRAM_BASE <=? addr) && (addr <? u64 (DRAM_BASE + memsz m)).

Definition mem_byte (mm : gmap Z Z) (a : Z) : Z := default 0 (mm !! a).
Fixpoint read_bytes (mm : gmap Z Z) (a : Z) (n : nat) : list Z :=
  match n with O => [] | S n => mem_byte mm a :: read_bytes mm (a + 1) n end.
Fixpoint write_bytes (mm : gmap Z Z) (a : Z) (bs : list Z) : gmap Z Z :=
  match bs with [] => mm | b :: bs => <[a := b]> (write_bytes mm (a + 1) bs) end.

(** The bytes of a value in memory, and back: [reg_from_bytes] is defined for
    the lengths 1, 2, 4 and 8. *)
Fixpoint bytes_of (n : nat) (v : Z) : list Z :=
  match n with O => [] | S n => u8 v :: bytes_of n (v .>> 8) end.
Fixpoint bytes_to (bs : list Z) : Z :=
  match bs with [] => 0 | b :: bs => b .| (bytes_to bs .<< 8) end.
Definition reg_from_bytes (len : Z) (bs : list Z) : M W Z :=
  if existsb (Z.eqb len) [1; 2; 4; 8] then mret (bytes_to bs) else throw Abort.

Definition mem_read (n : nat) (a : Z) m : Z := bytes_to (read_bytes (mem m) a n).
Definition mem_write (n : nat) (a v : Z) m : machine W :=
  m <| mem := write_bytes (mem m) a (bytes_of n v) |>.

(** ** The page-table walk *)

Definition PGSIZE : Z := 1 .<< PGSHIFT.
Definition no_translation : Z := u64 (-1).

(** What a valid leaf is refused for: [pte & PTE_U ? supervisor && pum :
    !supervisor], then validity, then the access. *)
Definition pte_user_fault (supervisor pum : bool) (pte : Z) : bool :=
  if z2b (pte .& PTE_U) then supervisor && pum else negb supervisor.
Definition pte_invalid (pte : Z) : bool :=
  negb (z2b (pte .& PTE_V)) || (negb (z2b (pte .& PTE_R)) && z2b (pte .& PTE_W)).
Definition pte_access_fault (type : access_type) (mxr : bool) (pte : Z) : bool :=
  match type with
  | FETCH => negb (z2b (pte .& PTE_X))
  | LOAD => negb (z2b (pte .& PTE_R)) && negb (mxr && z2b (pte .& PTE_X))
  | STORE => negb (z2b (pte .& PTE_R) && z2b (pte .& PTE_W))
  end.

Definition pte_set (type : access_type) : Z :=
  PTE_A .| (if bool_decide (type = STORE) then PTE_D else 0).

Fixpoint walk_loop (n : nat) (ptshift ptidxbits ptesize : Z) (supervisor pum mxr : bool)
    (type : access_type) (addr base : Z) (m : machine W) : Z * machine W :=
  match n with
  | O => (no_translation, m)
  | S n =>
      let idx := (addr .>> (PGSHIFT + ptshift)) .& ((1 .<< ptidxbits) - 1) in
      let pte_addr := u64 (base + idx * ptesize) in
      if negb (addr_is_mem pte_addr m) then (no_translation, m)
      else
        let pte := mem_read (Z.to_nat ptesize) pte_addr m in
        let ppn := pte .>> PTE_PPN_SHIFT in
        if PTE_TABLE pte then
          walk_loop n (ptshift - ptidxbits) ptidxbits ptesize supervisor pum mxr type addr
            (u64 (ppn .<< PGSHIFT)) m
        else if pte_user_fault supervisor pum pte then (no_translation, m)
        else if pte_invalid pte then (no_translation, m)
        else if pte_access_fault type mxr pte then (no_translation, m)
        else
          let m := mem_write 4 pte_addr (mem_read 4 pte_addr m .| pte_set type) m in
          let vpn := addr .>> PGSHIFT in
          (u64 ((ppn .| (vpn .& ((1 .<< ptshift) - 1))) .<< PGSHIFT), m)
  end.

(** [levels], [ptidxbits], [ptesize] by addressing mode. *)
Definition vm_geometry (vm : Z) : option (Z * Z * Z) :=
  if vm =? VM_SV32 then Some (2, 10, 4)
  else if vm =? VM_SV39 then Some (3, 9, 8)
  else if vm =? VM_SV48 then Some (4, 9, 8)
  else None.

Definition walk (addr : Z) (type : access_type) (mode : Z) : M W Z := fun m =>
  let ms := mstatus (state m) in
  match vm_geometry (get_field ms MSTATUS_VM) with
  | None => (inr Abort, m)
  | Some (levels, ptidxbits, ptesize) =>
      let supervisor := mode =? PRV_S in
      let pum := z2b (get_field ms MSTATUS_PUM) in
      let mxr := z2b (get_field ms MSTATUS_MXR) in
      let va_bits := PGSHIFT + levels * ptidxbits in
      let mask := u64 (u64 (1 .<< (xlen (proc m) - (va_bits - 1))) - 1) in
      let masked_msbs := (addr .>> (va_bits - 1)) .& mask in
      if negb (masked_msbs =? 0) && negb (masked_msbs =? mask) then (inl no_translation, m)
      else
        let base := u64 (sptbr (state m) .<< PGSHIFT) in
        let '(r, m) := walk_loop (Z.to_nat levels) ((levels - 1) * ptidxbits) ptidxbits ptesize
                         supervisor pum mxr type addr base m in
        (inl r, m)
  end.

(** The mode an access is made in. *)
Definition access_mode (type : access_type) (s : state_t) : Z :=
  let ms := mstatus s in
  let mode :=
    if negb (bool_decide (type = FETCH)) && (dcsr_cause (dcsr s) =? 0)
       && z2b (get_field ms MSTATUS_MPRV)
    then get_field ms MSTATUS_MPP else prv s in
  if get_field ms MSTATUS_VM =? VM_MBARE then PRV_M else mode.

Definition translate (addr : Z) (type : access_type) : M W Z := fun m =>
  if negb (has_proc (mmu m)) then (inl addr, m)
  else
    let mode := access_mode type (state m) in
    if mode =? PRV_M then
      (inl (addr .& u64 (u64 (2 .<< (xlen (proc m) - 1)) - 1)), m)
    else
      (v ← walk addr type mode; mret (v .| (addr .& (PGSIZE - 1)))) m.

(** ** The TLB *)

Definition TLB_CHECK_TRIGGERS : Z := 1 .<< 63.
Definition tag_at (tags : list Z) (idx : Z) : Z := default 0 (tags !! Z.to_nat idx).
Definition set_at (tags : list Z) (idx v : Z) : list Z := <[Z.to_nat idx := v]> tags.
Definition tlb_index (addr : Z) : Z := (addr .>> PGSHIFT) mod TLB_ENTRIES.

Definition refill_tlb (vaddr paddr : Z) (type : access_type) (u : mmu_t) : mmu_t :=
  let idx := tlb_index vaddr in
  let expected_tag := vaddr .>> PGSHIFT in
  let keep tags :=
    if negb (tag_at tags idx .& Z.lnot TLB_CHECK_TRIGGERS =? expected_tag)
    then set_at tags idx invalid_tag else tags in
  let u := u <| tlb_load_tag := keep (tlb_load_tag u) |> in
  let u := u <| tlb_store_tag := keep (tlb_store_tag u) |> in
  let u := u <| tlb_insn_tag := keep (tlb_insn_tag u) |> in
  let check := (check_triggers_fetch u && bool_decide (type = FETCH))
    || (check_triggers_load u && bool_decide (type = LOAD))
    || (check_triggers_store u && bool_decide (type = STORE)) in
  let tag := if check then expected_tag .| TLB_CHECK_TRIGGERS else expected_tag in
  let u := match type with
           | FETCH => u <| tlb_insn_tag := set_at (tlb_insn_tag u) idx tag |>
           | STORE => u <| tlb_store_tag := set_at (tlb_store_tag u) idx tag |>
           | LOAD => u <| tlb_load_tag := set_at (tlb_load_tag u) idx tag |>
           end in
  u <| tlb_data := set_at (tlb_data u) idx (u64 (paddr - vaddr)) |>.

Definition tlb_refill (vaddr paddr : Z) (type : access_type) : M W unit :=
  modify (fun m => m <| mmu := refill_tlb vaddr paddr type (mmu m) |>).

(** The host address that a TLB hit accesses, as a physical address. *)
Definition tlb_paddr (addr : Z) m : Z := u64 (tag_at (tlb_data (mmu m)) (tlb_index addr) + addr).

(** ** Triggers on memory accesses *)

Definition trigger_exception (op : trigger_operation_t) (address data : Z)
    : M W (option trigger_matched_t) := fun m =>
  if negb (has_proc (mmu m)) then (inl None, m)
  else
    let i := trigger_match op address data m in
    let t := TriggerMatched i op address data in
    if i =? -1 then (inl None, m)
    else if negb (mc_timing (mcontrol_at (state m) i)) then (inr (Trigger t), m)
    else (inl (Some t), m).

Definition check_trigger (op : trigger_operation_t) (address data : Z) : M W unit :=
  mt ← gets (fun m => matched_trigger (mmu m));
  match mt with
  | Some _ => mret tt
  | None =>
      t ← trigger_exception op address data;
      modify (fun m => m <| mmu := (mmu m) <| matched_trigger := t |> |>) ;;
      match t with Some t => throw (Trigger t) | None => mret tt end
  end.

(** ** Loads, stores and atomic operations

    A load of [len] bytes, signed or not: the value is what the load function's type
    holds, converted to a register. *)

Definition typed (signed : bool) (len v : Z) : Z := if signed then u64 (sext (8 * len) v) else v.

Definition trace_access (addr len : Z) (type : access_type) : M W unit :=
  modify (fun m => m <| world := trace addr len type (world m) |>).
Definition interested (paddr : Z) (type : access_type) m : bool :=
  interested_in_range paddr (u64 (paddr + PGSIZE)) type (world m).

(** What follows a memory access in the two slow paths: the tracer, or else the
    TLB. *)
Definition trace_or_refill (addr paddr len : Z) (type : access_type) : M W unit := fun m =>
  if interested paddr type m then trace_access paddr len type m else tlb_refill addr paddr type m.

Definition load_slow_path (addr len : Z) : M W (list Z) :=
  paddr ← translate addr LOAD;
  is_mem ← gets (addr_is_mem paddr);
  bytes ←
    (if is_mem : bool then
       bytes ← gets (fun m => read_bytes (mem m) paddr (Z.to_nat len));
       trace_or_refill addr paddr len LOAD ;; mret bytes
     else
       r ← gets (fun m => mmio_load paddr len (world m));
       match r with
       | Some bytes => mret bytes
       | None => throw (Trap CAUSE_FAULT_LOAD (Some addr))
       end);
  mt ← gets (fun m => matched_trigger (mmu m));
  match mt with
  | Some _ => mret bytes
  | None =>
      data ← reg_from_bytes len bytes;
      check_trigger OPERATION_LOAD addr data ;; mret bytes
  end.

Definition load (signed : bool) (len addr : Z) : M W Z :=
  if z2b (addr .& (len - 1)) then throw (Trap CAUSE_MISALIGNED_LOAD (Some addr))
  else
    let vpn := addr .>> PGSHIFT in
    tag ← gets (fun m => tag_at (tlb_load_tag (mmu m)) (vpn mod TLB_ENTRIES));
    let hit := gets (fun m => typed signed len (mem_read (Z.to_nat len) (tlb_paddr addr m) m)) in
    if tag =? vpn then hit
    else if tag =? vpn .| TLB_CHECK_TRIGGERS then
      data ← hit; check_trigger OPERATION_LOAD addr data ;; mret data
    else
      bytes ← load_slow_path addr len; mret (typed signed len (bytes_to bytes)).

Definition store_slow_path (addr len : Z) (bytes : list Z) : M W unit :=
  paddr ← translate addr STORE;
  mt ← gets (fun m => matched_trigger (mmu m));
  match mt with
  | Some _ => mret tt
  | None => data ← reg_from_bytes len bytes; check_trigger OPERATION_STORE addr data
  end ;;
  is_mem ← gets (addr_is_mem paddr);
  if is_mem : bool then
    modify (fun m => m <| mem := write_bytes (mem m) paddr bytes |>) ;;
    trace_or_refill addr paddr len STORE
  else fun m =>
    match mmio_store paddr bytes (state m) (world m) with
    | Some (s, w) => (inl tt, m <| state := s |> <| world := w |>)
    | None => (inr (Trap CAUSE_FAULT_STORE (Some addr)), m)
    end.

Definition store (len addr val : Z) : M W unit :=
  if z2b (addr .& (len - 1)) then throw (Trap CAUSE_MISALIGNED_STORE (Some addr))
  else
    let vpn := addr .>> PGSHIFT in
    let val := wrap (8 * len) val in
    tag ← gets (fun m => tag_at (tlb_store_tag (mmu m)) (vpn mod TLB_ENTRIES));
    let hit := modify (fun m => mem_write (Z.to_nat len) (tlb_paddr addr m) val m) in
    if tag =? vpn then hit
    else if tag =? vpn .| TLB_CHECK_TRIGGERS then
      check_trigger OPERATION_STORE addr val ;; hit
    else store_slow_path addr len (bytes_of (Z.to_nat len) val).

(** Access faults of the load are reported as store faults. *)
Definition as_store_fault {A} (e : exn) : M W A :=
  match e with
  | Trap cause badaddr => throw (Trap (if cause =? CAUSE_FAULT_LOAD then CAUSE_FAULT_STORE else cause) badaddr)
  | _ => throw e
  end.

Definition amo (len addr : Z) (f : Z -> Z) : M W Z :=
  if z2b (addr .& (len - 1)) then throw (Trap CAUSE_MISALIGNED_STORE (Some addr))
  else catch (lhs ← load false len addr; store len addr (f lhs) ;; mret lhs) as_store_fault.

(** ** Instruction fetch

    A pointer to code is the physical address [mem_to_addr] makes of it, with the 16
    bits there: outside the memory, the address of [fetch_temp] and its contents. *)

Definition fetch_slow_path (vaddr : Z) : M W (Z * Z) :=
  paddr ← translate vaddr FETCH;
  if (paddr =? u64 (Z.lnot 0)) && negb (vaddr =? u64 (Z.lnot 0))
  then throw (Trap CAUSE_FAULT_FETCH (Some vaddr))
  else
    is_mem ← gets (addr_is_mem paddr);
    if is_mem : bool then
      tlb_refill vaddr paddr FETCH ;; v ← gets (mem_read 2 paddr); mret (paddr, v)
    else
      r ← gets (fun m => mmio_load paddr 2 (world m));
      match r with
      | Some bytes => mret (fetch_temp_addr, bytes_to bytes)
      | None => throw (Trap CAUSE_FAULT_FETCH (Some vaddr))
      end.

Definition translate_insn_addr (addr : Z) : M W (Z * Z) :=
  let vpn := addr .>> PGSHIFT in
  tag ← gets (fun m => tag_at (tlb_insn_tag (mmu m)) (vpn mod TLB_ENTRIES));
  let hit := gets (fun m => (tlb_paddr addr m, mem_read 2 (tlb_paddr addr m) m)) in
  if tag =? vpn then hit
  else if tag =? vpn .| TLB_CHECK_TRIGGERS then
    '(a, v) ← hit;
    i ← gets (trigger_match OPERATION_EXECUTE addr v);
    if 0 <=? i then throw (Trigger (TriggerMatched i OPERATION_EXECUTE addr v)) else mret (a, v)
  else fetch_slow_path addr.

(** The parts of an instruction, in the order they are fetched: the last one
    sign-extended to 64 bits. *)
Definition insn_part (signed : bool) (addr shift : Z) : M W Z :=
  '(_, v) ← translate_insn_addr addr;
  mret (u64 ((if signed then u64 (s16 v) else v) .<< shift)).

Definition fetch_parts (addr insn : Z) : M W Z :=
  let length := insn_length insn in
  if length =? 4 then hi ← insn_part true (u64 (addr + 2)) 16; mret (insn .| hi)
  else if length =? 2 then mret (u64 (s16 insn))
  else if length =? 6 then
    p4 ← insn_part true (u64 (addr + 4)) 32;
    p2 ← insn_part false (u64 (addr + 2)) 16;
    mret (insn .| p4 .| p2)
  else
    p6 ← insn_part true (u64 (addr + 6)) 48;
    p4 ← insn_part false (u64 (addr + 4)) 32;
    p2 ← insn_part false (u64 (addr + 2)) 16;
    mret (insn .| p6 .| p4 .| p2).

Definition decode (insn : Z) : M W insn_func := fun m =>
  match decode_insn insn (decode_state (proc m)) with
  | Some (f, d) => (inl f, m <| proc := (proc m) <| decode_state := d |> |>)
  | None => (inr Abort, m)
  end.

Definition PC_ALIGN : Z := 2.
Definition icache_index (addr : Z) : Z := (addr / PC_ALIGN) mod ICACHE_ENTRIES.

(** The entry [refill_icache] fills. *)
Definition refill_icache (addr : Z) : M W icache_entry_t :=
  '(iaddr, insn) ← translate_insn_addr addr;
  let length := insn_length insn in
  insn ← fetch_parts addr insn;
  f ← decode insn;
  let fetch := InsnFetch f insn in
  traced ← gets (fun m => interested_in_range iaddr (u64 (iaddr + 1)) FETCH (world m));
  if traced : bool
  then trace_access iaddr length FETCH ;; mret (IcacheEntry (u64 (-1)) fetch)
  else mret (IcacheEntry addr fetch).

Definition icache_at (m : machine W) (i : Z) : icache_entry_t :=
  default (IcacheEntry invalid_tag (InsnFetch illegal_instruction 0)) (icache (mmu m) !! Z.to_nat i).

Definition access_icache (addr : Z) : M W insn_fetch_t :=
  e ← gets (fun m => icache_at m (icache_index addr));
  if ic_tag e =? addr then mret (ic_data e)
  else
    e ← refill_icache addr;
    modify (fun m => m <| mmu := (mmu m) <| icache :=
                       <[Z.to_nat (icache_index addr) := e]> (icache (mmu m)) |> |>) ;;
    mret (ic_data e).

Definition load_insn (addr : Z) : M W insn_fetch_t := e ← refill_icache addr; mret (ic_data e).
End mmu.
