(* ===== verification/Tlb.v ===== *)
(** The TLB is not observable where translation is the identity: in machine mode, or
    with translation off, and with no trigger or tracer armed, the loads and stores of
    mmu.h and mmu.cc do what the same accesses do on a flat memory and bus. *)
From S2P Require Import Prelude SoftPrim Encoding Decode Decoder Machine Csr Mmu CsrProps.

Section tlb.
Context {W : Type} `{Platform W}.
Implicit Types m : machine W.

(** ** Arrays *)

Lemma tag_at_set tags i j v :
  0 <= i < Z.of_nat (length tags) -> 0 <= j ->
  tag_at (set_at tags i v) j = if i =? j then v else tag_at tags j.
Proof.
  intros Hi Hj. unfold tag_at, set_at. destruct (Z.eqb_spec i j) as [->|].
  - rewrite list_lookup_insert_eq by lia. done.
  - rewrite list_lookup_insert_ne by lia. done.
Qed.

Lemma length_set_at tags i v : length (set_at tags i v) = length tags.
Proof. apply length_insert. Qed.

(** ** Where translation is the identity *)

(** The physical address: [xlen] bits of the virtual one. *)
Definition phys m (addr : Z) : Z := wrap (xlen (proc m)) addr.

Record bare m : Prop := {
  bare_proc : has_proc (mmu m) = true;
  bare_xlen : xlen (proc m) = 32 \/ xlen (proc m) = 64;
  bare_mode : forall type, access_mode type (state m) = PRV_M;
  bare_triggers : forall op address data, trigger_match op address data m = -1;
  bare_checks : check_triggers_fetch (mmu m) = false /\ check_triggers_load (mmu m) = false
                /\ check_triggers_store (mmu m) = false;
  bare_matched : matched_trigger (mmu m) = None;
  bare_tracers : forall lo hi type w, interested_in_range lo hi type w = false;
  bare_memory : memsz m mod PGSIZE = 0 /\ 0 <= memsz m < 2 ^ 63
}.

(** A tag that is not the invalid one names a page of the memory, and the data of
    its index maps that page to its physical address. *)
Definition tag_ok m (tags : list Z) (idx : Z) : Prop :=
  let t := tag_at tags idx in
  t = invalid_tag
  \/ (in_range 52 t /\ t mod TLB_ENTRIES = idx
      /\ tag_at (tlb_data (mmu m)) idx = u64 (phys m (t * 2 ^ 12) - t * 2 ^ 12)
      /\ addr_is_mem (phys m (t * 2 ^ 12)) m = true).

Definition tags_of (type : access_type) (u : mmu_t) : list Z :=
  match type with LOAD => tlb_load_tag u | STORE => tlb_store_tag u | FETCH => tlb_insn_tag u end.

Record tlb_ok m : Prop := {
  tlb_lengths : length (tlb_data (mmu m)) = 256%nat
                /\ forall type, length (tags_of type (mmu m)) = 256%nat;
  tlb_tags : forall type idx, 0 <= idx < TLB_ENTRIES -> tag_ok m (tags_of type (mmu m)) idx
}.

Lemma translate_bare m addr type :
  bare m -> translate addr type m = (inl (phys m addr), m).
Proof.
  intros [Hp Hx Hm _ _ _ _ _]. unfold translate, phys. rewrite Hp, Hm. cbn [negb].
  rewrite Z.eqb_refl. do 2 f_equal.
  destruct Hx as [-> | ->];
    [change (u64 (u64 (2 .<< (32 - 1)) - 1)) with (2 ^ 32 - 1)
    |change (u64 (u64 (2 .<< (64 - 1)) - 1)) with (2 ^ 64 - 1)]; by rewrite land_mask by lia.
Qed.

(** A page and its offset. *)
Lemma page_split addr : addr = addr .>> PGSHIFT * 2 ^ 12 + addr mod 2 ^ 12.
Proof. unfold PGSHIFT. rewrite shr_div by lia. pose proof (Z.div_mod addr (2 ^ 12)). lia. Qed.

Lemma phys_page m addr :
  xlen (proc m) = 32 \/ xlen (proc m) = 64 ->
  phys m addr = phys m (addr .>> PGSHIFT * 2 ^ 12) + addr mod 2 ^ 12.
Proof.
  intros Hx. unfold phys, wrap, PGSHIFT. rewrite shr_div by lia.
  destruct Hx as [-> | ->]; Z.div_mod_to_equations; lia.
Qed.

Lemma phys_data m addr :
  xlen (proc m) = 32 \/ xlen (proc m) = 64 ->
  u64 (phys m addr - addr) = u64 (phys m (addr .>> PGSHIFT * 2 ^ 12) - addr .>> PGSHIFT * 2 ^ 12).
Proof. intros Hx. rewrite phys_page by done. f_equal. pose proof (page_split addr). lia. Qed.

Lemma is_mem_page m addr :
  bare m -> addr_is_mem (phys m (addr .>> PGSHIFT * 2 ^ 12)) m = addr_is_mem (phys m addr) m.
Proof.
  intros Hb. destruct (bare_memory m Hb) as [Hz Hr]. rewrite (phys_page m addr) by apply Hb.
  assert (phys m (addr .>> PGSHIFT * 2 ^ 12) mod 2 ^ 12 = 0) as Ha.
  { unfold phys, wrap. destruct (bare_xlen m Hb) as [-> | ->]; Z.div_mod_to_equations; lia. }
  pose proof (Z.mod_pos_bound addr (2 ^ 12) ltac:(lia)).
  unfold addr_is_mem. change PGSIZE with (2 ^ 12) in Hz. change DRAM_BASE with (2 ^ 31).
  rewrite (wrap_small 64) by lia. f_equal; case_bool; auto; Z.div_mod_to_equations; lia.
Qed.

Lemma vpn_range addr : in_range 64 addr -> in_range 52 (addr .>> PGSHIFT).
Proof. unfold in_range, PGSHIFT. intros. rewrite shr_div by lia. zdm. Qed.

Lemma tlb_index_range addr : 0 <= tlb_index addr < TLB_ENTRIES.
Proof. unfold tlb_index, TLB_ENTRIES. apply Z.mod_pos_bound. lia. Qed.

(** A hit accesses the physical address, in the memory. *)
Lemma hit_spec m addr type :
  bare m -> tlb_ok m -> in_range 64 addr ->
  tag_at (tags_of type (mmu m)) (tlb_index addr) = addr .>> PGSHIFT ->
  tlb_paddr addr m = phys m addr /\ addr_is_mem (phys m addr) m = true.
Proof.
  intros Hb Ht Ha E. destruct (tlb_tags m Ht type _ (tlb_index_range addr)) as [Hi|(Hr & _ & Hd & Hm)].
  - pose proof (vpn_range addr Ha) as Hv. rewrite <- E, Hi in Hv. exfalso. destruct Hv as [_ Hv]. vm_compute in Hv. discriminate Hv.
  - rewrite E in *. split; [|by rewrite <- is_mem_page].
    unfold tlb_paddr. rewrite Hd, <- phys_data by apply Hb. rewrite wrap_add_idemp_l.
    replace (phys m addr - addr + addr) with (phys m addr) by lia. apply wrap_small.
    unfold phys. destruct (bare_xlen m Hb) as [-> | ->]; pose proof (wrap_range 32 addr ltac:(lia));
      pose proof (wrap_range 64 addr ltac:(lia)); unfold in_range in *; lia.
Qed.

(** Neither the invalid tag nor that of a page has the trigger bit. *)
Lemma no_check_tag m type idx v :
  tlb_ok m -> 0 <= idx < TLB_ENTRIES -> in_range 52 v ->
  (tag_at (tags_of type (mmu m)) idx =? v .| TLB_CHECK_TRIGGERS) = false.
Proof.
  intros Ht Hi Hv. apply Z.eqb_neq. intros E.
  assert (v .| TLB_CHECK_TRIGGERS = v + 2 ^ 63) as Hc.
  { change TLB_CHECK_TRIGGERS with (2 ^ 63). unfold in_range in Hv.
    rewrite Z.lor_comm, (lor_add _ _ 63) by (lia || reflexivity). lia. }
  rewrite Hc in E. unfold in_range in *.
  destruct (tlb_tags m Ht type idx Hi) as [Hn|(Hr & _)]; rewrite E in *.
  - change invalid_tag with (2 ^ 64 - 1) in Hn. lia.
  - unfold in_range in Hr. lia.
Qed.

Lemma clear_check t : in_range 52 t -> t .& Z.lnot TLB_CHECK_TRIGGERS = t.
Proof.
  intros Ht. apply Z.bits_inj'. intros i Hi. rewrite Z.land_spec, Z.lnot_spec by done.
  change TLB_CHECK_TRIGGERS with (2 ^ 63). rewrite Z.pow2_bits_eqb by done.
  destruct (Z.eqb_spec 63 i) as [<-|]; [|by rewrite andb_true_r].
  rewrite (testbit_above t 52) by (done || lia). done.
Qed.

(** *** Refilling *)

Definition same_machine m m' : Prop :=
  state m' = state m /\ proc m' = proc m /\ mem m' = mem m /\ memsz m' = memsz m.

Lemma refill_tags u vaddr paddr type :
  check_triggers_fetch u = false -> check_triggers_load u = false -> check_triggers_store u = false ->
  let idx := tlb_index vaddr in
  let vpn := vaddr .>> PGSHIFT in
  let keep tags :=
    if negb (tag_at tags idx .& Z.lnot TLB_CHECK_TRIGGERS =? vpn)
    then set_at tags idx invalid_tag else tags in
  let u' := refill_tlb vaddr paddr type u in
  (forall t, tags_of t u' = if bool_decide (t = type) then set_at (keep (tags_of t u)) idx vpn
                            else keep (tags_of t u))
  /\ tlb_data u' = set_at (tlb_data u) idx (u64 (paddr - vaddr)).
Proof.
  intros Hf Hl Hs. cbv zeta. unfold refill_tlb. cbn [check_triggers_fetch check_triggers_load check_triggers_store].
  split; [|by destruct type]. intros t.
  destruct type, t; cbn; rewrite ?Hf, ?Hl, ?Hs; cbn; done.
Qed.

Lemma refill_frame u vaddr paddr type :
  let u' := refill_tlb vaddr paddr type u in
  has_proc u' = has_proc u /\ icache u' = icache u
  /\ check_triggers_fetch u' = check_triggers_fetch u /\ check_triggers_load u' = check_triggers_load u
  /\ check_triggers_store u' = check_triggers_store u /\ matched_trigger u' = matched_trigger u.
Proof. by destruct type. Qed.

Lemma bare_mmu m u :
  bare m -> has_proc u = true ->
  check_triggers_fetch u = false -> check_triggers_load u = false -> check_triggers_store u = false ->
  matched_trigger u = None -> bare (m <| mmu := u |>).
Proof. intros [] ? ? ? ? ?. by split. Qed.

(** At the index refilled, every tag is the invalid one or the new page's. *)
Lemma kept_tag m addr type :
  tlb_ok m -> in_range 64 addr ->
  let idx := tlb_index addr in
  let tags := tags_of type (mmu m) in
  let kept := if negb (tag_at tags idx .& Z.lnot TLB_CHECK_TRIGGERS =? addr .>> PGSHIFT)
              then set_at tags idx invalid_tag else tags in
  length kept = 256%nat
  /\ (tag_at kept idx = invalid_tag \/ tag_at kept idx = addr .>> PGSHIFT)
  /\ (forall j, 0 <= j -> j <> idx -> tag_at kept j = tag_at tags j).
Proof.
  intros Ht Ha. cbv zeta. pose proof (tlb_index_range addr) as Hi. unfold TLB_ENTRIES in Hi.
  pose proof (proj2 (tlb_lengths m Ht) type) as Hl.
  destruct (Z.eqb_spec (tag_at (tags_of type (mmu m)) (tlb_index addr) .& Z.lnot TLB_CHECK_TRIGGERS)
              (addr .>> PGSHIFT)) as [E|E]; cbn [negb].
  - split; [done|]. split; [|done].
    destruct (tlb_tags m Ht type (tlb_index addr) Hi) as [Hn|[Hr _]]; [by left|right].
    by rewrite clear_check in E.
  - split; [by rewrite length_set_at|]. split.
    + left. rewrite tag_at_set, Z.eqb_refl by lia. done.
    + intros j Hj Hne. rewrite tag_at_set, (proj2 (Z.eqb_neq _ _)) by (lia || done). done.
Qed.

Lemma refill_ok m addr type :
  bare m -> tlb_ok m -> in_range 64 addr -> addr_is_mem (phys m addr) m = true ->
  let m' := m <| mmu := refill_tlb addr (phys m addr) type (mmu m) |> in
  bare m' /\ tlb_ok m'.
Proof.
  intros Hb Ht Ha Hm. cbv zeta. pose proof (tlb_index_range addr) as Hi.
  destruct (bare_checks m Hb) as (Hf & Hl & Hs).
  destruct (refill_frame (mmu m) addr (phys m addr) type) as (F1 & _ & F2 & F3 & F4 & F5).
  destruct (refill_tags (mmu m) addr (phys m addr) type Hf Hl Hs) as [Et Ed].
  set (u := refill_tlb addr (phys m addr) type (mmu m)) in *.
  split; [apply bare_mmu; try congruence; [by rewrite F1; apply Hb|by rewrite F5; apply Hb]|].
  destruct (tlb_lengths m Ht) as [Ld Lt]. unfold TLB_ENTRIES in Hi.
  split; change (mmu (m <| mmu := u |>)) with u.
  - split; [by rewrite Ed, length_set_at|]. intros t. rewrite Et.
    destruct (kept_tag m addr t Ht Ha) as (Lk & _). case_bool_decide; [by rewrite length_set_at|done].
  - intros t j Hj. unfold tag_ok. change (phys (m <| mmu := u |>)) with (phys m).
    change (fun a => addr_is_mem a (m <| mmu := u |>)) with (fun a => addr_is_mem a m).
    change (mmu (m <| mmu := u |>)) with u.
    rewrite Ed, Et. destruct (kept_tag m addr t Ht Ha) as (Lk & Hk & Hother).
    destruct (decide (j = tlb_index addr)) as [->|Hne].
    + rewrite (tag_at_set (tlb_data (mmu m))), Z.eqb_refl, phys_data by (lia || apply Hb).
      assert (forall t0, t0 = addr .>> PGSHIFT -> in_range 52 t0 /\ t0 mod TLB_ENTRIES = tlb_index addr
        /\ u64 (phys m (addr .>> PGSHIFT * 2 ^ 12) - addr .>> PGSHIFT * 2 ^ 12)
           = u64 (phys m (t0 * 2 ^ 12) - t0 * 2 ^ 12)
        /\ addr_is_mem (phys m (t0 * 2 ^ 12)) m = true) as Hnew.
      { intros t0 ->. split; [by apply vpn_range|]. split; [done|]. split; [done|]. by rewrite is_mem_page. }
      case_bool_decide.
      * right. apply Hnew. rewrite tag_at_set, Z.eqb_refl by lia. done.
      * destruct Hk as [Hk|Hk]; [by left|right; by apply Hnew].
    + assert ((tlb_index addr =? j) = false) as Hji by (apply Z.eqb_neq; congruence).
      rewrite (tag_at_set (tlb_data (mmu m))), Hji by lia.
      match goal with |- ?t0 = _ \/ _ =>
        assert (t0 = tag_at (tags_of t (mmu m)) j) as -> end.
      { case_bool_decide; [rewrite tag_at_set, Hji by lia|]; apply Hother; done || lia. }
      exact (tlb_tags m Ht t j Hj).
Qed.

(** ** The flat memory and bus *)

Definition len_ok (len : Z) : Prop := len = 1 \/ len = 2 \/ len = 4 \/ len = 8.

Definition flat_load (signed : bool) (len addr : Z) m : Z + exn :=
  if negb (addr mod len =? 0) then inr (Trap CAUSE_MISALIGNED_LOAD (Some addr))
  else
    let p := phys m addr in
    if addr_is_mem p m then inl (typed signed len (mem_read (Z.to_nat len) p m))
    else match mmio_load p len (world m) with
         | Some bytes => inl (typed signed len (bytes_to bytes))
         | None => inr (Trap CAUSE_FAULT_LOAD (Some addr))
         end.

Definition flat_store (len addr val : Z) m : (unit + exn) * machine W :=
  if negb (addr mod len =? 0) then (inr (Trap CAUSE_MISALIGNED_STORE (Some addr)), m)
  else
    let p := phys m addr in
    let val := wrap (8 * len) val in
    if addr_is_mem p m then (inl tt, mem_write (Z.to_nat len) p val m)
    else match mmio_store p (bytes_of (Z.to_nat len) val) (state m) (world m) with
         | Some (s, w) => (inl tt, m <| state := s |> <| world := w |>)
         | None => (inr (Trap CAUSE_FAULT_STORE (Some addr)), m)
         end.

Definition flat_amo (len addr : Z) (f : Z -> Z) m : (Z + exn) * machine W :=
  if negb (addr mod len =? 0) then (inr (Trap CAUSE_MISALIGNED_STORE (Some addr)), m)
  else
    match flat_load false len addr m with
    | inl v => match flat_store len addr (f v) m with
               | (inl _, m') => (inl v, m')
               | (inr e, m') => (inr e, m')
               end
    | inr _ => (inr (Trap CAUSE_FAULT_STORE (Some addr)), m)
    end.

Lemma aligned_spec addr len : len_ok len -> z2b (addr .& (len - 1)) = negb (addr mod len =? 0).
Proof.
  intros Hl. assert (exists k, 0 <= k /\ len = 2 ^ k) as (k & Hk & ->).
  { destruct Hl as [-> |[-> |[-> | ->]]]; [by exists 0|by exists 1|by exists 2|by exists 3]. }
  by rewrite land_mask.
Qed.

Lemma check_trigger_bare m op a d : bare m -> check_trigger op a d m = (inl tt, m).
Proof.
  intros Hb. unfold check_trigger, trigger_exception, mbind, M_bind, gets.
  rewrite (bare_matched m Hb), (bare_proc m Hb), (bare_triggers m Hb). cbn [negb].
  rewrite Z.eqb_refl. unfold modify, mret, M_ret. f_equal.
  pose proof (bare_matched m Hb) as Hn. clear Hb. destruct m as [s p u f mm z w], u. cbn in *. by subst.
Qed.

Lemma reg_from_bytes_ok len bs m : len_ok len -> reg_from_bytes len bs m = (inl (bytes_to bs), m).
Proof. by intros [-> |[-> |[-> | ->]]]. Qed.

Lemma trace_or_refill_bare m addr paddr len type :
  bare m -> trace_or_refill addr paddr len type m = (inl tt, m <| mmu := refill_tlb addr paddr type (mmu m) |>).
Proof. intros Hb. unfold trace_or_refill, interested. by rewrite (bare_tracers m Hb). Qed.

Lemma with_mmu_id m : m <| mmu := mmu m |> = m.
Proof. by destruct m. Qed.

(** A state reached by an access: well-formed, and the flat one up to the MMU. *)
Definition kept m1 m2 : Prop := exists u, m1 = m2 <| mmu := u |> /\ bare m1 /\ tlb_ok m1.

Lemma kept_refl m : bare m -> tlb_ok m -> kept m m.
Proof. intros. exists (mmu m). by rewrite with_mmu_id. Qed.

Lemma load_bare m signed len addr :
  bare m -> tlb_ok m -> len_ok len -> in_range 64 addr ->
  exists m', load signed len addr m = (flat_load signed len addr m, m') /\ kept m' m.
Proof.
  intros Hb Ht Hl Ha. unfold load, flat_load. rewrite aligned_spec by done.
  destruct (negb (addr mod len =? 0)); [eexists; split; [done|by apply kept_refl]|].
  unfold mbind, M_bind, gets at 1. fold (tlb_index addr). change (tlb_load_tag (mmu m)) with (tags_of LOAD (mmu m)).
  destruct (Z.eqb_spec (tag_at (tags_of LOAD (mmu m)) (tlb_index addr)) (addr .>> PGSHIFT)) as [E|E].
  { destruct (hit_spec m addr LOAD Hb Ht Ha E) as [Hp Hm]. unfold gets. rewrite Hp, Hm.
    eexists. split; [done|by apply kept_refl]. }
  rewrite no_check_tag by (done || apply tlb_index_range || by apply vpn_range).
  unfold load_slow_path, mbind, M_bind. rewrite translate_bare by done. unfold gets at 1.
  destruct (addr_is_mem (phys m addr) m) eqn:Em.
  - unfold gets at 1. rewrite trace_or_refill_bare by done.
    destruct (refill_ok m addr LOAD Hb Ht Ha Em) as [Hb' Ht'].
    set (m' := m <| mmu := _ |>) in *. unfold mret at 1, M_ret, gets at 1.
    rewrite (bare_matched m' Hb'), reg_from_bytes_ok, check_trigger_bare by done.
    eexists. split; [done|]. eexists. by split.
  - unfold gets at 1. destruct (mmio_load (phys m addr) len (world m)) as [bs|];
      [|eexists; split; [done|by apply kept_refl]].
    unfold mret at 1, M_ret, gets at 1. rewrite (bare_matched m Hb), reg_from_bytes_ok, check_trigger_bare by done.
    eexists. split; [done|by apply kept_refl].
Qed.

(** The only register of the hart a device writes is [mip] ([processor_t::store]). *)
Hypothesis mmio_store_mip : forall a bs s w s' w',
  mmio_store a bs s w = Some (s', w') -> s' = s <| mip := mip s' |>.

Lemma bare_mem_write m n a v : bare m -> tlb_ok m -> bare (mem_write n a v m) /\ tlb_ok (mem_write n a v m).
Proof. intros [] []. split; by split. Qed.

Lemma trigger_loop_mip op a d x s v ok i mcs :
  trigger_loop op a d x (s <| mip := v |>) ok i mcs = trigger_loop op a d x s ok i mcs.
Proof.
  revert ok i. induction mcs as [|c mcs IH]; intros ok i; [done|]. cbn [trigger_loop].
  rewrite !IH. by change (trigger_ignored op (s <| mip := v |>) c) with (trigger_ignored op s c).
Qed.

Lemma bare_device m s w :
  bare m -> tlb_ok m -> s = (state m) <| mip := mip s |> ->
  bare (m <| state := s |> <| world := w |>) /\ tlb_ok (m <| state := s |> <| world := w |>).
Proof.
  intros Hb Ht E. assert (exists v, s = (state m) <| mip := v |>) as [v ->] by eauto.
  destruct Hb as [? ? ? Htr], Ht. split; split; try done.
  intros op a d. rewrite <- (Htr op a d). unfold trigger_match. cbn -[trigger_loop]. by rewrite trigger_loop_mip.
Qed.

Lemma store_bare m len addr val :
  bare m -> tlb_ok m -> len_ok len -> in_range 64 addr ->
  exists m', store len addr val m = (fst (flat_store len addr val m), m')
             /\ kept m' (snd (flat_store len addr val m)).
Proof.
  intros Hb Ht Hl Ha. unfold store, flat_store. rewrite aligned_spec by done.
  destruct (negb (addr mod len =? 0)); [eexists; split; [done|by apply kept_refl]|].
  unfold mbind, M_bind, gets at 1. fold (tlb_index addr). change (tlb_store_tag (mmu m)) with (tags_of STORE (mmu m)).
  destruct (Z.eqb_spec (tag_at (tags_of STORE (mmu m)) (tlb_index addr)) (addr .>> PGSHIFT)) as [E|E].
  { destruct (hit_spec m addr STORE Hb Ht Ha E) as [Hp Hm]. unfold modify. rewrite Hp, Hm.
    eexists. split; [done|]. by apply kept_refl; apply bare_mem_write. }
  rewrite no_check_tag by (done || apply tlb_index_range || by apply vpn_range).
  unfold store_slow_path, mbind, M_bind. rewrite translate_bare by done. unfold gets at 1.
  rewrite (bare_matched m Hb), reg_from_bytes_ok, check_trigger_bare by done. unfold gets at 1.
  destruct (addr_is_mem (phys m addr) m) eqn:Em.
  - unfold modify at 1.
    set (v := wrap (8 * len) val).
    destruct (bare_mem_write m (Z.to_nat len) (phys m addr) v Hb Ht) as [Hb1 Ht1].
    change (m <| mem := write_bytes (mem m) (phys m addr) (bytes_of (Z.to_nat len) v) |>)
      with (mem_write (Z.to_nat len) (phys m addr) v m).
    rewrite trace_or_refill_bare by done.
    destruct (refill_ok (mem_write (Z.to_nat len) (phys m addr) v m) addr STORE Hb1 Ht1 Ha Em) as [Hb' Ht'].
    eexists. split; [done|]. eexists. by split.
  - destruct (mmio_store _ _ _ _) as [[s w]|] eqn:Es; [|eexists; split; [done|by apply kept_refl]].
    apply mmio_store_mip in Es. destruct (bare_device m s w Hb Ht Es).
    eexists. split; [done|by apply kept_refl].
Qed.

Lemma flat_load_mmu m u signed len addr : flat_load signed len addr (m <| mmu := u |>) = flat_load signed len addr m.
Proof. done. Qed.
Lemma flat_store_mmu m u len addr val :
  flat_store len addr val (m <| mmu := u |>)
  = (fst (flat_store len addr val m), (snd (flat_store len addr val m)) <| mmu := u |>).
Proof.
  unfold flat_store. change (phys (m <| mmu := u |>)) with (phys m).
  destruct (negb _); [done|]. change (addr_is_mem (phys m addr) (m <| mmu := u |>)) with (addr_is_mem (phys m addr) m).
  destruct (addr_is_mem _ m); [done|]. cbn. by destruct (mmio_store _ _ _ _) as [[s w]|].
Qed.

Lemma flat_load_error signed len addr m e :
  addr mod len = 0 -> flat_load signed len addr m = inr e -> e = Trap CAUSE_FAULT_LOAD (Some addr).
Proof.
  unfold flat_load. intros ->. cbn [Z.eqb negb]. destruct (addr_is_mem _ _); [done|].
  destruct (mmio_load _ _ _); [done|]. by intros [= <-].
Qed.
Lemma flat_store_error len addr val m e m' :
  addr mod len = 0 -> flat_store len addr val m = (inr e, m') ->
  e = Trap CAUSE_FAULT_STORE (Some addr) /\ m' = m.
Proof.
  unfold flat_store. intros ->. cbn [Z.eqb negb]. destruct (addr_is_mem _ _); [done|].
  destruct (mmio_store _ _ _ _) as [[]|]; [done|]. by intros [= <- <-].
Qed.

Lemma amo_bare m len addr f :
  bare m -> tlb_ok m -> len_ok len -> in_range 64 addr ->
  exists m', amo len addr f m = (fst (flat_amo len addr f m), m')
             /\ kept m' (snd (flat_amo len addr f m)).
Proof.
  intros Hb Ht Hl Ha. unfold amo, flat_amo. rewrite aligned_spec by done.
  destruct (Z.eqb_spec (addr mod len) 0) as [Eal|]; cbn [negb];
    [|eexists; split; [done|by apply kept_refl]].
  unfold catch, mbind, M_bind.
  destruct (load_bare m false len addr Hb Ht Hl Ha) as (m1 & -> & u1 & E1 & Hb1 & Ht1).
  destruct (flat_load false len addr m) as [v|e] eqn:El.
  - destruct (store_bare m1 len addr (f v) Hb1 Ht1 Hl Ha) as (m2 & -> & u2 & E2 & Hb2 & Ht2).
    subst m1. rewrite flat_store_mmu in *. cbn [fst snd] in *.
    destruct (flat_store len addr (f v) m) as [[[]|e] m'] eqn:Es; cbn [fst snd] in *.
    + eexists. split; [done|]. exists u2. by split.
    + destruct (flat_store_error _ _ _ _ _ _ Eal Es) as [-> ->].
      eexists. split; [done|]. exists u2. by split.
  - apply flat_load_error in El as ->; [|done].
    eexists. split; [done|]. exists u1. by split.
Qed.

(** ** Sequences of accesses *)

Inductive access :=
  | Load (signed : bool) (len addr : Z)
  | Store (len addr val : Z)
  | Amo (len addr : Z) (f : Z -> Z).

Definition access_ok (a : access) : Prop :=
  match a with Load _ len addr | Store len addr _ | Amo len addr _ => len_ok len /\ in_range 64 addr end.

Definition run_access (a : access) : M W Z :=
  match a with
  | Load signed len addr => load signed len addr
  | Store len addr val => store len addr val ;; mret 0
  | Amo len addr f => amo len addr f
  end.

Definition flat_access (a : access) m : (Z + exn) * machine W :=
  match a with
  | Load signed len addr => (flat_load signed len addr m, m)
  | Store len addr val => match flat_store len addr val m with
                          | (inl _, m') => (inl 0, m')
                          | (inr e, m') => (inr e, m')
                          end
  | Amo len addr f => flat_amo len addr f m
  end.

(** The results of a sequence of accesses, values or traps, and the last state. *)
Fixpoint run_all (run : access -> M W Z) (l : list access) m : list (Z + exn) * machine W :=
  match l with
  | [] => ([], m)
  | a :: l => let '(r, m) := run a m in let '(rs, m) := run_all run l m in (r :: rs, m)
  end.

Lemma flat_access_mmu a m u :
  flat_access a (m <| mmu := u |>) = (fst (flat_access a m), (snd (flat_access a m)) <| mmu := u |>).
Proof.
  destruct a as [signed len addr|len addr val|len addr f]; cbn [flat_access].
  - done.
  - rewrite flat_store_mmu. by destruct (flat_store len addr val m) as [[]].
  - unfold flat_amo. rewrite flat_load_mmu. destruct (negb _); [done|].
    destruct (flat_load false len addr m) as [v|]; [|done]. rewrite flat_store_mmu.
    by destruct (flat_store len addr (f v) m) as [[]].
Qed.

Lemma run_access_bare a m :
  bare m -> tlb_ok m -> access_ok a ->
  exists m', run_access a m = (fst (flat_access a m), m') /\ kept m' (snd (flat_access a m)).
Proof.
  intros Hb Ht. destruct a as [signed len addr|len addr val|len addr f]; intros [Hl Ha]; cbn [run_access flat_access].
  - by apply load_bare.
  - destruct (store_bare m len addr val Hb Ht Hl Ha) as (m' & E & Hk).
    exists m'. unfold mbind, M_bind. rewrite E.
    by destruct (flat_store len addr val m) as [[]].
  - by apply amo_bare.
Qed.

(** C4: In machine mode (or with translation off), with no trigger or tracer armed, any
    sequence of loads, stores and atomic operations of 1, 2, 4 or 8 bytes gives the
    results, values and traps alike, that it gives on the flat memory and bus, and
    leaves the same memory, devices and registers: the TLB is not observable. *)
Theorem tlb_transparent l m :
  bare m -> tlb_ok m -> Forall access_ok l ->
  exists u, run_all run_access l m
            = (fst (run_all flat_access l m), (snd (run_all flat_access l m)) <| mmu := u |>).
Proof.
  intros Hb Ht Hl. enough (forall m1, kept m1 m -> exists u, run_all run_access l m1
    = (fst (run_all flat_access l m), (snd (run_all flat_access l m)) <| mmu := u |>)) as He
    by (by apply He, kept_refl).
  clear Hb Ht. revert m. induction Hl as [|a l Ha Hl IH]; intros m m1 (u & -> & Hb & Ht); [by exists u|].
  cbn [run_all]. destruct (run_access_bare a _ Hb Ht Ha) as (m2 & -> & u2 & E2 & Hb2 & Ht2).
  rewrite flat_access_mmu in *. cbn [fst snd] in *.
  destruct (flat_access a m) as [r m'] eqn:Ef. cbn [fst snd] in *.
  destruct (IH m' m2) as [u3 E3]; [by exists u2|].
  exists u3. rewrite E3. by destruct (run_all flat_access l m').
Qed.

(** ** Instruction fetch *)

(** The 16-bit parcel at an address, and the instruction made of the first [n]
    parcels, sign-extended to 64 bits. *)
Definition parcel m (addr : Z) : Z := mem_read 2 (phys m addr) m.
Fixpoint parcels m (addr : Z) (n : nat) : Z :=
  match n with O => 0 | S n => parcel m addr + 2 ^ 16 * parcels m (u64 (addr + 2)) n end.
Definition insn_at m (addr : Z) : Z :=
  let length := insn_length (parcel m addr) in
  u64 (sext (8 * length) (parcels m addr (Z.to_nat (length / 2)))).

Fixpoint code_in_memory m (addr : Z) (n : nat) : Prop :=
  match n with
  | O => True
  | S n => addr_is_mem (phys m addr) m = true /\ code_in_memory m (u64 (addr + 2)) n
  end.

Lemma translate_insn_bare m addr :
  bare m -> tlb_ok m -> in_range 64 addr -> addr_is_mem (phys m addr) m = true ->
  phys m addr <> 2 ^ 64 - 1 ->
  exists m', translate_insn_addr addr m = (inl (phys m addr, parcel m addr), m') /\ kept m' m.
Proof.
  intros Hb Ht Ha Hm Hp. unfold translate_insn_addr, mbind, M_bind, gets at 1. fold (tlb_index addr).
  change (tlb_insn_tag (mmu m)) with (tags_of FETCH (mmu m)).
  destruct (Z.eqb_spec (tag_at (tags_of FETCH (mmu m)) (tlb_index addr)) (addr .>> PGSHIFT)) as [E|E].
  { destruct (hit_spec m addr FETCH Hb Ht Ha E) as [Hpa _]. unfold gets. rewrite Hpa.
    eexists. split; [done|by apply kept_refl]. }
  rewrite no_check_tag by (done || apply tlb_index_range || by apply vpn_range).
  unfold fetch_slow_path, mbind, M_bind. rewrite translate_bare by done.
  change (u64 (Z.lnot 0)) with (2 ^ 64 - 1). rewrite (proj2 (Z.eqb_neq _ _) Hp). cbn [andb].
  unfold gets at 1. rewrite Hm. unfold tlb_refill, modify at 1, gets at 1.
  destruct (refill_ok m addr FETCH Hb Ht Ha Hm) as [Hb' Ht'].
  eexists. split; [done|]. eexists. by split.
Qed.

Lemma bytes_to_range bs : Forall (in_range 8) bs -> in_range (8 * Z.of_nat (length bs)) (bytes_to bs).
Proof.
  unfold in_range. induction 1 as [|b bs Hb _ IH]; [done|]. cbn [bytes_to length].
  rewrite Nat2Z.inj_succ, shl_mul, Z.lor_comm, (lor_add _ _ 8) by (lia || (apply Z.mod_mul; lia)).
  replace (8 * Z.succ (Z.of_nat (length bs))) with (8 * Z.of_nat (length bs) + 8) by lia.
  rewrite Z.pow_add_r by lia. nia.
Qed.

(** The memory holds bytes. *)
Definition bytes_only m : Prop := forall a, in_range 8 (mem_byte (mem m) a).

Lemma mem_read_range m n a : bytes_only m -> in_range (8 * Z.of_nat n) (mem_read n a m).
Proof.
  intros Hm. unfold mem_read.
  assert (Forall (in_range 8) (read_bytes (mem m) a n)) as Hf
    by (revert a; induction n; intros a; constructor; auto).
  assert (length (read_bytes (mem m) a n) = n) as Hl
    by (clear Hf; revert a; induction n as [|n IH]; intros a; cbn; [done|by rewrite IH]).
  apply bytes_to_range in Hf. by rewrite Hl in Hf.
Qed.

(** Placing a sign-extended last parcel above what was fetched before it. *)
Lemma last_part k x w :
  0 < k -> k + 16 <= 64 -> in_range k x -> in_range 16 w ->
  x .| u64 (u64 (s16 w) .<< k) = u64 (sext (k + 16) (x + 2 ^ k * w)).
Proof.
  intros Hk Hk' Hx Hw. unfold in_range in *.
  rewrite (shl_mul _ k), wrap_mul_idemp_l by lia.
  pose proof (pow2_pos k ltac:(lia)) as Hp. pose proof (pow2_le k 48 ltac:(lia)) as Hp'.
  assert (2 ^ (k + 16) = 2 ^ k * 2 ^ 16) as E1 by (rewrite Z.pow_add_r by lia; done).
  assert (2 ^ (k + 16 - 1) = 2 ^ k * 2 ^ 15) as E2
    by (replace (k + 16 - 1) with (k + 15) by lia; rewrite Z.pow_add_r by lia; done).
  assert (2 ^ 64 = 2 ^ k * 2 ^ (64 - k)) as E3 by (rewrite <- Z.pow_add_r by lia; f_equal; lia).
  pose proof (pow2_le 16 (64 - k) ltac:(lia)) as Hq.
  rewrite (sext_cases (k + 16)) by (unfold in_range; nia).
  rewrite (sext_cases 16) by (unfold in_range; lia). rewrite E1, E2.
  rewrite Z.lor_comm, (lor_add _ _ k); [|lia| |lia].
  - change (2 ^ (16 - 1)) with (2 ^ 15).
    assert ((x + 2 ^ k * w <? 2 ^ k * 2 ^ 15) = (w <? 2 ^ 15)) as -> by (case_bool; auto; nia).
    unfold wrap. destruct (Z.ltb_spec w (2 ^ 15)).
    + rewrite !Z.mod_small by nia. lia.
    + rewrite <- (Z.mod_unique ((w - 2 ^ 16) * 2 ^ k) (2 ^ 64) (-1) ((w - 2 ^ 16) * 2 ^ k + 2 ^ 64)) by nia.
      rewrite <- (Z.mod_unique (x + 2 ^ k * w - 2 ^ k * 2 ^ 16) (2 ^ 64) (-1)
                    (x + 2 ^ k * w - 2 ^ k * 2 ^ 16 + 2 ^ 64)) by nia. lia.
  - unfold wrap. rewrite E3, (Z.mul_comm _ (2 ^ k)), Z.mul_mod_distr_l by lia.
    rewrite Z.mul_comm. apply Z.mod_mul. lia.
Qed.

Lemma mid_part k x w :
  0 < k -> k + 16 <= 64 -> in_range k x -> in_range 16 w ->
  x .| u64 (w .<< k) = x + 2 ^ k * w /\ in_range (k + 16) (x + 2 ^ k * w).
Proof.
  intros Hk Hk' Hx Hw. unfold in_range in *.
  pose proof (pow2_pos k ltac:(lia)) as Hp. pose proof (pow2_le 16 (64 - k) ltac:(lia)) as Hq.
  assert (2 ^ (k + 16) = 2 ^ k * 2 ^ 16) as E1 by (rewrite Z.pow_add_r by lia; done).
  assert (2 ^ 64 = 2 ^ k * 2 ^ (64 - k)) as E3 by (rewrite <- Z.pow_add_r by lia; f_equal; lia).
  rewrite shl_mul, wrap_small by nia.
  rewrite Z.lor_comm, (lor_add _ _ k) by (lia || (apply Z.mod_mul; lia)). rewrite E1. split; nia.
Qed.

Lemma lor_swap a b c d : a .| b .| c .| d = a .| d .| c .| b.
Proof.
  apply Z.bits_inj'. intros i Hi. rewrite !Z.lor_spec.
  by destruct (Z.testbit a i), (Z.testbit b i), (Z.testbit c i), (Z.testbit d i).
Qed.

Lemma in_memory_phys m a : bare m -> addr_is_mem (phys m a) m = true -> phys m a <> 2 ^ 64 - 1.
Proof.
  intros Hb Hm E. destruct (bare_memory m Hb) as [_ Hz]. rewrite E in Hm. unfold addr_is_mem in Hm.
  apply andb_prop in Hm as [_ Hm%Z.ltb_lt]. change DRAM_BASE with (2 ^ 31) in Hm.
  rewrite wrap_small in Hm by lia. lia.
Qed.

Lemma insn_part_bare m m1 signed addr k :
  kept m1 m -> in_range 64 addr -> addr_is_mem (phys m addr) m = true -> bare m ->
  exists m', insn_part signed addr k m1
             = (inl (u64 ((if signed then u64 (s16 (parcel m addr)) else parcel m addr) .<< k)), m')
             /\ kept m' m.
Proof.
  intros (u & -> & Hb & Ht) Ha Hm Hbm. unfold insn_part, mbind, M_bind.
  destruct (translate_insn_bare (m <| mmu := u |>) addr Hb Ht Ha Hm) as (m' & -> & u' & -> & Hb' & Ht').
  { by apply (in_memory_phys m). }
  eexists. split; [reflexivity|]. exists u'. by split.
Qed.

Ltac next_part :=
  match goal with
  | Hk : kept ?m1 ?m0 |- context [insn_part ?s ?a ?k ?m1] =>
      let E := fresh in let m' := fresh "m" in let Hk' := fresh "Hk" in
      destruct (insn_part_bare m0 m1 s a k Hk) as (m' & E & Hk');
        [apply wrap_range; lia|assumption|assumption|];
      rewrite E; clear E
  end.

Lemma fetch_parts_bare m m1 addr :
  kept m1 m -> bare m -> bytes_only m -> in_range 64 addr ->
  code_in_memory m addr (Z.to_nat (insn_length (parcel m addr) / 2)) ->
  exists m', fetch_parts addr (parcel m addr) m1 = (inl (insn_at m addr), m') /\ kept m' m.
Proof.
  intros Hk Hb Hby Ha Hc. unfold fetch_parts, insn_at. set (len := insn_length (parcel m addr)) in *.
  assert (forall a, in_range 16 (parcel m a)) as Hp by (intros a; exact (mem_read_range m 2 (phys m a) Hby)).
  assert (u64 (u64 (addr + 2) + 2) = u64 (addr + 4) /\ u64 (u64 (addr + 4) + 2) = u64 (addr + 6)) as [A4 A6].
  { split; rewrite wrap_add_idemp_l; f_equal; lia. }
  assert (len = 2 \/ len = 4 \/ len = 6 \/ len = 8) as Hl by (unfold len, insn_length; repeat case_match; auto).
  unfold mbind, M_bind.
  destruct Hl as [Hl|[Hl|[Hl|Hl]]]; rewrite Hl in *; cbn [Z.eqb Pos.eqb].
  - eexists. split; [|exact Hk]. change (Z.to_nat (2 / 2)) with 1%nat. cbn [parcels].
    by rewrite Z.mul_0_r, Z.add_0_r.
  - change (Z.to_nat (4 / 2)) with 2%nat in *. cbn [code_in_memory parcels] in *. destruct Hc as (_ & H2 & _).
    next_part. eexists. split; [|eassumption]. unfold mret, M_ret. do 2 f_equal.
    rewrite (last_part 16) by (done || lia). do 2 f_equal. lia.
  - change (Z.to_nat (6 / 2)) with 3%nat in *. cbn [code_in_memory parcels] in *.
    rewrite A4 in *. destruct Hc as (_ & H2 & H4 & _).
    next_part. next_part. eexists. split; [|eassumption]. unfold mret, M_ret. do 2 f_equal.
    destruct (mid_part 16 (parcel m addr) (parcel m (u64 (addr + 2)))) as [E2 R2]; try done.
    rewrite <- Z.lor_assoc, (Z.lor_comm (u64 (u64 (s16 _) .<< 32))), Z.lor_assoc, E2.
    rewrite (last_part 32) by (done || lia). do 2 f_equal. lia.
  - change (Z.to_nat (8 / 2)) with 4%nat in *. cbn [code_in_memory parcels] in *.
    rewrite A4, A6 in *. destruct Hc as (_ & H2 & H4 & H6 & _).
    next_part. next_part. next_part. eexists. split; [|eassumption]. unfold mret, M_ret. do 2 f_equal.
    destruct (mid_part 16 (parcel m addr) (parcel m (u64 (addr + 2)))) as [E2 R2]; try done.
    destruct (mid_part 32 _ (parcel m (u64 (addr + 4))) ltac:(lia) ltac:(lia) R2) as [E4 R4]; [done|].
    rewrite lor_swap, E2, E4, (last_part 48) by (done || lia). do 2 f_equal. lia.
Qed.

(** C21: On a hart whose accesses are in machine mode without translation, triggers or tracers
    ([bare]) and whose TLB is right, the fetch of an instruction that lies in the memory
    gives the instruction there: its length from its low bits, its 16-bit parcels in
    little-endian order even across a page, sign-extended to 64 bits, decoded, and kept
    under its address. *)
Theorem fetch_correct m addr :
  bare m -> tlb_ok m -> bytes_only m -> in_range 64 addr ->
  code_in_memory m addr (Z.to_nat (insn_length (parcel m addr) / 2)) ->
  exists u, refill_icache addr m
    = match decode_insn (insn_at m addr) (decode_state (proc m)) with
      | Some (f, d) => (inl (IcacheEntry addr (InsnFetch f (insn_at m addr))),
                        m <| mmu := u |> <| proc := (proc m) <| decode_state := d |> |>)
      | None => (inr Abort, m <| mmu := u |>)
      end.
Proof.
  intros Hb Ht Hby Ha Hc. unfold refill_icache, mbind, M_bind.
  assert (addr_is_mem (phys m addr) m = true) as Hm.
  { revert Hc. unfold insn_length. repeat case_match; by intros [? _]. }
  destruct (translate_insn_bare m addr Hb Ht Ha Hm) as (m1 & -> & Hk); [by apply in_memory_phys|].
  destruct (fetch_parts_bare m m1 addr Hk Hb Hby Ha Hc) as (m2 & -> & u & -> & Hb2 & _).
  exists u. unfold decode. change (proc (m <| mmu := u |>)) with (proc m).
  destruct (decode_insn _ _) as [[f d]|]; [|done]. unfold gets. by rewrite (bare_tracers m Hb).
Qed.

(** A flush, which every change of privilege, of translation mode or of the triggers
    makes, leaves a TLB that is right whatever it was. *)
Lemma flush_tlb_ok m u : length (tlb_data u) = 256%nat -> tlb_ok (m <| mmu := flush_tlb u |>).
Proof.
  intros Hl. split.
  - split; [done|]. by intros [].
  - intros type idx Hi. left. unfold tag_at. 
    change (mmu (m <| mmu := flush_tlb u |>)) with (flush_tlb u).
    assert (tags_of type (flush_tlb u) = replicate 256 invalid_tag) as -> by (by destruct type).
    rewrite lookup_replicate_2; [done|]. unfold TLB_ENTRIES in Hi. lia.
Qed.
End tlb.

(** ** The theorems on a concrete hart *)

#[local] Existing Instance no_devices.

(** A hart in machine mode with 16 kB of memory: a 4-byte instruction, which crosses
    a page, and data. *)
Definition bytes3 : gmap Z Z :=
  {[0x80000FFE := 0x13; 0x80000FFF := 0x05; 0x80001000 := 0xF0; 0x80001001 := 0xFF;
    0x80002000 := 0x80]}.
Definition hart3 : machine unit := hart0 <| memsz := 0x4000 |> <| mem := bytes3 |>.

Lemma hart3_bare : bare hart3 /\ tlb_ok hart3.
Proof.
  split.
  - split; try reflexivity; try concrete.
    + by right.
    + by intros [].
  - by apply (flush_tlb_ok hart3 (mmu hart3)).
Qed.

Lemma tlb_transparent_witness :
  let l := [Store 4 0x80003FFC 0x12345678; Load true 2 0x80003FFE; Load false 8 0x80004000;
            Amo 4 0x80003FFC (fun v => v + 1); Load true 1 0x80002000; Load false 4 0x80003FFD] in
  exists u, run_all run_access l hart3
            = ([inl 0; inl 0x1234; inr (Trap CAUSE_FAULT_LOAD (Some 0x80004000)); inl 0x12345678;
                inl 0xFFFFFFFFFFFFFF80; inr (Trap CAUSE_MISALIGNED_LOAD (Some 0x80003FFD))],
               (snd (run_all flat_access l hart3)) <| mmu := u |>).
Proof.
  intros l. destruct hart3_bare as [Hb Ht].
  assert (forall a bs s w s' w', mmio_store (W := unit) a bs s w = Some (s', w') -> s' = s <| mip := mip s' |>)
    as Hst by (intros; discriminate).
  destruct (tlb_transparent Hst l hart3 Hb Ht) as [u E].
  - repeat (constructor; [split; [unfold len_ok; lia|concrete]|]). constructor.
  - exists u. rewrite E. reflexivity.
Defined.

Lemma fetch_correct_witness :
  exists u, refill_icache 0x80000FFE hart3
    = match decode_insn 0xFFFFFFFFFFF00513 (decode_state (proc hart3)) with
      | Some (f, d) => (inl (IcacheEntry 0x80000FFE (InsnFetch f 0xFFFFFFFFFFF00513)),
                        hart3 <| mmu := u |> <| proc := (proc hart3) <| decode_state := d |> |>)
      | None => (inr Abort, hart3 <| mmu := u |>)
      end.
Proof.
  destruct hart3_bare as [Hb Ht].
  refine (fetch_correct hart3 0x80000FFE Hb Ht _ _ _).
  - intros a. change (mem hart3) with bytes3. unfold mem_byte, bytes3.
    repeat (rewrite lookup_insert; case_decide; [concrete|]). rewrite lookup_singleton. case_decide; concrete.
  - concrete.
  - concrete.
Defined.
