(* ===== verification/MmuProps.v ===== *)
(** What the memory system guarantees: the page-table walk implements the translation
    relation of the privileged specification; and what it does not: the kinds of access
    share the data of a TLB entry. *)
From S2P Require Import Prelude SoftPrim Encoding Decode Decoder Machine Csr Isa Mmu CsrProps.
From S2P Require Import Tlb.

Section mmu_props.
Context {W : Type} `{Platform W}.
Implicit Types m : machine W.

(** ** The page-table walk *)

(** [leaf m addr bits size n shift base a p s]: from the table at [base], of [n]
    levels, following the entries that point to a table leads to the entry [p] at
    [a], which does not, where [s] bits of page number are left to translate. *)
Definition pte_address (addr ptidxbits ptesize ptshift base : Z) : Z :=
  u64 (base + (addr .>> (PGSHIFT + ptshift)) .& ((1 .<< ptidxbits) - 1) * ptesize).

Inductive leaf m (addr ptidxbits ptesize : Z) : nat -> Z -> Z -> Z -> Z -> Z -> Prop :=
  | leaf_here n ptshift base a p :
      a = pte_address addr ptidxbits ptesize ptshift base ->
      addr_is_mem a m = true -> p = mem_read (Z.to_nat ptesize) a m -> PTE_TABLE p = false ->
      leaf m addr ptidxbits ptesize (S n) ptshift base a p ptshift
  | leaf_next n ptshift base a p a' p' s :
      a = pte_address addr ptidxbits ptesize ptshift base ->
      addr_is_mem a m = true -> p = mem_read (Z.to_nat ptesize) a m -> PTE_TABLE p = true ->
      leaf m addr ptidxbits ptesize n (ptshift - ptidxbits) (u64 ((p .>> PTE_PPN_SHIFT) .<< PGSHIFT)) a' p' s ->
      leaf m addr ptidxbits ptesize (S n) ptshift base a' p' s.

(** The bits of an entry: valid, readable, writable, executable, user. *)
Definition v_bit (p : Z) : bool := Z.testbit p 0.
Definition r_bit (p : Z) : bool := Z.testbit p 1.
Definition w_bit (p : Z) : bool := Z.testbit p 2.
Definition x_bit (p : Z) : bool := Z.testbit p 3.
Definition u_bit (p : Z) : bool := Z.testbit p 4.

(** An access is allowed: the entry is valid and not write-only; the page belongs to
    the mode, or to user mode with supervisor access to it not barred; and the
    permission for the access is there, execution counting as reading under MXR. *)
Definition allowed (supervisor pum mxr : bool) (type : access_type) (p : Z) : Prop :=
  v_bit p = true /\ (w_bit p = true -> r_bit p = true)
  /\ (if supervisor then u_bit p = true -> pum = false else u_bit p = true)
  /\ match type with
     | FETCH => x_bit p = true
     | LOAD => r_bit p = true \/ (mxr = true /\ x_bit p = true)
     | STORE => r_bit p = true /\ w_bit p = true
     end.

Lemma z2b_bit p i : 0 <= i -> z2b (p .& 2 ^ i) = Z.testbit p i.
Proof.
  intros Hi. unfold z2b. destruct (Z.testbit p i) eqn:E.
  - apply negb_true_iff, Z.eqb_neq. intros H0. apply (f_equal (fun x => Z.testbit x i)) in H0.
    rewrite Z.land_spec, E, Z.pow2_bits_true, Z.bits_0 in H0 by done. done.
  - apply negb_false_iff, Z.eqb_eq. apply Z.bits_inj'. intros j Hj.
    rewrite Z.land_spec, Z.pow2_bits_eqb, Z.bits_0 by done.
    destruct (Z.eqb_spec i j) as [->|]; [by rewrite E|apply andb_false_r].
Qed.

Lemma refused_spec supervisor pum mxr type p :
  pte_user_fault supervisor pum p || pte_invalid p || pte_access_fault type mxr p = false
  <-> allowed supervisor pum mxr type p.
Proof.
  unfold pte_user_fault, pte_invalid, pte_access_fault, allowed, v_bit, r_bit, w_bit, x_bit, u_bit.
  change PTE_U with (2 ^ 4). change PTE_V with (2 ^ 0). change PTE_R with (2 ^ 1).
  change PTE_W with (2 ^ 2). change PTE_X with (2 ^ 3).
  rewrite !z2b_bit by lia.
  destruct (Z.testbit p 0), (Z.testbit p 1), (Z.testbit p 2), (Z.testbit p 3), (Z.testbit p 4),
    supervisor, pum, mxr, type; cbn; intuition congruence.
Qed.

(** The page of a leaf, the low bits of the page number of a superpage coming from
    the address. *)
Definition leaf_page (addr p shift : Z) : Z :=
  u64 (((p .>> PTE_PPN_SHIFT) .| ((addr .>> PGSHIFT) .& ((1 .<< shift) - 1))) .<< PGSHIFT).

Lemma walk_loop_spec m addr bits size supervisor pum mxr type n shift base :
  let walked := walk_loop n shift bits size supervisor pum mxr type addr base m in
  (forall a p s, leaf m addr bits size n shift base a p s -> allowed supervisor pum mxr type p ->
     walked = (leaf_page addr p s, mem_write 4 a (mem_read 4 a m .| pte_set type) m))
  /\ ((forall a p s, leaf m addr bits size n shift base a p s -> ~ allowed supervisor pum mxr type p) ->
     walked = (no_translation, m)).
Proof.
  cbv zeta. revert shift base. induction n as [|n IH]; intros shift base.
  { split; [|done]. intros a p s Hl. inversion Hl. }
  cbn [walk_loop]. fold (pte_address addr bits size shift base).
  remember (pte_address addr bits size shift base) as a0 eqn:Ea0.
  remember (mem_read (Z.to_nat size) a0 m) as p0 eqn:Ep0.
  destruct (addr_is_mem a0 m) eqn:Em; cbn [negb].
  2: { split; [|done]. intros a p s Hl. inversion Hl; congruence. }
  destruct (PTE_TABLE p0) eqn:Et.
  { destruct (IH (shift - bits) (u64 ((p0 .>> PTE_PPN_SHIFT) .<< PGSHIFT))) as [IH1 IH2]. split.
    - intros a p s Hl Ha. inversion Hl as [? ? ? a1 p1 E1 E2 E3 E4|? ? ? a1 p1 a2 p2 s2 E1 E2 E3 E4 Hl'].
      { congruence. }
      assert (p1 = p0) as -> by congruence. by apply IH1.
    - intros Hn. apply IH2. intros a p s Hl. by apply (Hn a p s), (leaf_next _ _ _ _ _ _ _ a0 p0). }
  pose proof (refused_spec supervisor pum mxr type p0) as Hr.
  split.
  - intros a p s Hl Ha. inversion Hl as [? ? ? a1 p1 E1 E2 E3 E4|? ? ? a1 p1 a2 p2 s2 E1 E2 E3 E4 Hl'].
    2: { congruence. }
    assert (a = a0) as -> by congruence. assert (p = p0) as -> by congruence.
    apply Hr in Ha. apply orb_false_iff in Ha as [[-> ->]%orb_false_iff ->]. done.
  - intros Hn. assert (~ allowed supervisor pum mxr type p0) as Hna
      by (by eapply Hn, leaf_here).
    rewrite <- Hr in Hna. apply not_false_iff_true in Hna.
    destruct (pte_user_fault _ _ _), (pte_invalid _), (pte_access_fault _ _ _); done.
Qed.

(** The check on the upper bits of the address: it is the sign extension of its low
    [va] bits. *)
Lemma canonical_spec x va addr :
  0 < va <= x -> x <= 64 ->
  let msbs := (addr .>> (va - 1)) .& u64 (u64 (1 .<< (x - (va - 1))) - 1) in
  x - (va - 1) < 64 ->
  negb (msbs =? 0) && negb (msbs =? u64 (u64 (1 .<< (x - (va - 1))) - 1)) = false
  <-> - 2 ^ (va - 1) <= sext x addr < 2 ^ (va - 1).
Proof.
  intros Hva Hx msbs Hk. unfold msbs. clear msbs. set (k := x - (va - 1)) in *.
  pose proof (pow2_le k 63 ltac:(lia)) as Hp. pose proof (pow2_pos k ltac:(lia)) as Hp0.
  rewrite (shl_mul 1), Z.mul_1_l, (wrap_small 64 (2 ^ k)), wrap_small, land_mask, shr_div by lia.
  rewrite <- (sext_wrap x addr), sext_cases by (lia || (apply wrap_range; lia)). unfold wrap.
  assert (2 ^ x = 2 ^ k * 2 ^ (va - 1)) as Ex by (rewrite <- Z.pow_add_r by lia; f_equal; lia).
  assert (2 ^ (x - 1) = 2 ^ (k - 1) * 2 ^ (va - 1)) as Ex1
    by (rewrite <- Z.pow_add_r by lia; f_equal; lia).
  assert (2 ^ k = 2 * 2 ^ (k - 1)) as Ek by (rewrite <- Z.pow_succ_r by lia; f_equal; lia).
  pose proof (pow2_pos (va - 1) ltac:(lia)) as Hv. pose proof (pow2_pos (k - 1) ltac:(lia)) as Hk1.
  assert (addr mod 2 ^ x = (addr / 2 ^ (va - 1)) mod 2 ^ k * 2 ^ (va - 1) + addr mod 2 ^ (va - 1)) as ->.
  { rewrite Ex, (Z.mul_comm (2 ^ k) (2 ^ (va - 1))), Z.rem_mul_r by lia. lia. }
  pose proof (Z.mod_pos_bound addr (2 ^ (va - 1)) Hv). rewrite Ex1, Ex, Ek.
  pose proof (Z.mod_pos_bound (addr / 2 ^ (va - 1)) (2 ^ k) Hp0) as Hq. rewrite Ek in Hq.
  revert Hq. generalize ((addr / 2 ^ (va - 1)) mod (2 * 2 ^ (k - 1))) as q. intros q Hq.
  generalize dependent (2 ^ (va - 1)). generalize dependent (2 ^ (k - 1)).
  intros K. intros. case_bool; cbn; split; intros; try done; try nia.
Qed.

Lemma vm_geometry_wf p s levels bits size :
  wf_proc p -> wf_csrs p s -> vm_geometry (get_field (mstatus s) MSTATUS_VM) = Some (levels, bits, size) ->
  let va := PGSHIFT + levels * bits in 0 < va <= xlen p /\ xlen p <= 64 /\ xlen p - (va - 1) < 64.
Proof.
  intros [Hx -> _ _ _] Hs. pose proof (wf_vm _ _ Hs) as Hv. revert Hv.
  unfold validate_vm, vm_geometry, PGSHIFT. generalize (get_field (mstatus s) MSTATUS_VM) as vm.
  intros vm. destruct Hx as [-> | ->];
    destruct (Z.eqb_spec vm VM_SV32) as [->|]; [intros _ [= <- <- <-]; lia| |done|];
    (destruct (Z.eqb_spec vm VM_SV39) as [->|]; [try done; intros _ [= <- <- <-]; lia|]);
    (destruct (Z.eqb_spec vm VM_SV48) as [->|]; [try done; intros _ [= <- <- <-]; lia|done]).
Qed.

(** C5: The page-table walk implements the translation of the privileged
    specification: an address that is the sign extension of its low bits, and from
    which the table entries lead to a leaf that allows the access, is translated to
    the leaf's page, whose accessed bit (and dirty bit, for a store) is set and
    nothing else of the machine is changed; in all other cases there is no
    translation and nothing changes. *)
Theorem walk_correct m addr type mode levels bits size :
  wf m -> vm_geometry (get_field (mstatus (state m)) MSTATUS_VM) = Some (levels, bits, size) ->
  let pum := z2b (get_field (mstatus (state m)) MSTATUS_PUM) in
  let mxr := z2b (get_field (mstatus (state m)) MSTATUS_MXR) in
  let leaf_of := leaf m addr bits size (Z.to_nat levels) ((levels - 1) * bits)
                   (u64 (sptbr (state m) .<< PGSHIFT)) in
  let allows := allowed (mode =? PRV_S) pum mxr type in
  let va := PGSHIFT + levels * bits in
  let canonical := - 2 ^ (va - 1) <= sext (xlen (proc m)) addr < 2 ^ (va - 1) in
  (canonical -> forall a p s, leaf_of a p s -> allows p ->
     walk addr type mode m
     = (inl (leaf_page addr p s), mem_write 4 a (mem_read 4 a m .| pte_set type) m))
  /\ (~ canonical \/ (forall a p s, leaf_of a p s -> ~ allows p) ->
     walk addr type mode m = (inl no_translation, m)).
Proof.
  intros [Hp Hs] Hg. cbv zeta. unfold walk. rewrite Hg. cbv zeta.
  destruct (vm_geometry_wf _ _ _ _ _ Hp Hs Hg) as (Hva & Hx & Hk).
  pose proof (canonical_spec _ _ addr Hva Hx Hk) as Hc. cbv zeta in Hc.
  destruct (walk_loop_spec m addr bits size (mode =? PRV_S)
              (z2b (get_field (mstatus (state m)) MSTATUS_PUM))
              (z2b (get_field (mstatus (state m)) MSTATUS_MXR)) type (Z.to_nat levels)
              ((levels - 1) * bits) (u64 (sptbr (state m) .<< PGSHIFT))) as [H1 H2].
  destruct (negb _ && negb _) eqn:E.
  - split; [|done]. intros Hcan. exfalso. apply Hc in Hcan. discriminate.
  - pose proof (proj1 Hc eq_refl) as Hcan. split.
    + intros _ a p s Hl Ha. by rewrite (H1 a p s).
    + intros [Hn|Hn]; [done|]. by rewrite H2.
Qed.

(** ** The TLB's data is shared *)

(** The three tags of an index share one data word.  After a refill for one kind of
    access, an entry of another kind for the same page stays valid and leads to the
    new physical address, whatever it led to before: data accesses translated under
    MPRV redirect the instruction fetches of the page, and the other way round. *)
Theorem refill_redirects m vaddr paddr type other :
  tlb_ok m -> in_range 64 vaddr -> in_range 64 paddr -> type <> other ->
  check_triggers_fetch (mmu m) = false -> check_triggers_load (mmu m) = false ->
  check_triggers_store (mmu m) = false ->
  tag_at (tags_of other (mmu m)) (tlb_index vaddr) = vaddr .>> PGSHIFT ->
  let m' := m <| mmu := refill_tlb vaddr paddr type (mmu m) |> in
  tag_at (tags_of other (mmu m')) (tlb_index vaddr) = vaddr .>> PGSHIFT
  /\ tlb_paddr vaddr m' = paddr.
Proof.
  intros Ht Hv Hp Hne Hf Hl Hs Etag m'. pose proof (tlb_index_range vaddr) as Hi. unfold TLB_ENTRIES in Hi.
  destruct (refill_tags (mmu m) vaddr paddr type Hf Hl Hs) as [Et Ed].
  change (mmu m') with (refill_tlb vaddr paddr type (mmu m)). unfold tlb_paddr.
  change (mmu m') with (refill_tlb vaddr paddr type (mmu m)).
  rewrite Et, Ed, bool_decide_eq_false_2 by congruence.
  rewrite Etag, clear_check, Z.eqb_refl by (by apply vpn_range). cbn [negb]. split; [done|].
  pose proof (proj1 (tlb_lengths m Ht)).
  rewrite tag_at_set, Z.eqb_refl, wrap_add_idemp_l by lia.
  replace (paddr - vaddr + vaddr) with paddr by lia. by apply wrap_small.
Qed.
End mmu_props.

(** ** The theorems on a concrete hart *)

#[local] Existing Instance no_devices.

(** A hart in supervisor mode under Sv39: the root table at 0x80000000 leads to one
    at 0x80001000, whose first entry maps 2 MB, readable, writable and executable. *)
Definition hart4 : machine unit :=
  mem_write 8 0x80000000 ((0x80001 .<< 10) .| PTE_V)
    (mem_write 8 0x80001000 ((0x80200 .<< 10) .| 0xF)
      (hart0 <| memsz := 0x4000 |>
             <| state := (state hart0) <| prv := PRV_S |> <| mstatus := VM_SV39 .<< 24 |>
                                       <| sptbr := 0x80000 |> |>)).

Lemma hart4_wf : wf hart4.
Proof.
  destruct (hart0_wf no_devices) as [Hp []]. split; [exact Hp|].
  change (state hart4) with ((state hart0) <| prv := PRV_S |> <| mstatus := VM_SV39 .<< 24 |>
                                           <| sptbr := 0x80000 |>).
  csr_leaf; concrete.
Qed.

Lemma walk_correct_witness :
  walk 0x12345 STORE PRV_S hart4
  = (inl 0x80212000, mem_write 4 0x80001000 ((0x80200 .<< 10) .| 0xCF) hart4).
Proof.
  pose proof (walk_correct hart4 0x12345 STORE PRV_S 3 9 8 hart4_wf eq_refl) as [Hw _].
  rewrite (Hw ltac:(concrete) 0x80001000 ((0x80200 .<< 10) .| 0xF) 9); [reflexivity| |].
  - eapply leaf_next; [reflexivity|reflexivity|reflexivity|reflexivity|].
    apply leaf_here; reflexivity.
  - by apply refused_spec.
Defined.

Lemma refill_redirects_witness :
  let m := hart3 <| mmu := refill_tlb 0x80001000 0x80001000 FETCH (mmu hart3) |> in
  let m' := m <| mmu := refill_tlb 0x80001000 0x80003000 LOAD (mmu m) |> in
  tag_at (tags_of FETCH (mmu m')) (tlb_index 0x80001000) = 0x80001
  /\ tlb_paddr 0x80001000 m = 0x80001000 /\ tlb_paddr 0x80001000 m' = 0x80003000.
Proof.
  intros m m'. destruct hart3_bare as [Hb Ht].
  assert (tlb_ok m) as Htm
    by (apply (refill_ok hart3 0x80001000 FETCH Hb Ht); [concrete|reflexivity]).
  destruct (refill_redirects m 0x80001000 0x80003000 LOAD FETCH Htm) as [H1 H2];
    [concrete|concrete|discriminate|reflexivity..|].
  split; [exact H1|]. split; [reflexivity|exact H2].
Defined.
