(* ===== verification/Insns.v ===== *)
(** The instructions: one definition per file of riscv/insns/, with the macros of
    riscv/decode.h they are written with, and the template of
    riscv/insn_template.cc that makes functions of them. *)
From Stdlib Require Import Ascii.
From S2P Require Import Prelude Encoding Decode Decoder Mulhi SoftPrim SoftF32 SoftF64.
From S2P Require Import SoftDiv64 SoftCmp32 SoftCmp64 SoftConv SoftToInt SoftFma32 SoftFma64.
From S2P Require Import SoftSqrt Machine Csr Mmu.

Definition X_RA : Z := 1.
Definition X_SP : Z := 2.
Definition UINT64_MAX : Z := 2 ^ 64 - 1.
Definition INT64_MIN : Z := - 2 ^ 63.
(** [(uint32_t)INT32_MIN] and [(uint64_t)INT64_MIN]. *)
Definition INT32_SIGN : Z := u32 (- 2 ^ 31).
Definition INT64_SIGN : Z := u64 INT64_MIN.

(** The [mstatus] that [mret] and [sret] write. *)
Definition mret_mstatus (s : Z) : Z :=
  let prev_prv := get_field s MSTATUS_MPP in
  let s := set_field s (MSTATUS_UIE .<< prev_prv) (get_field s MSTATUS_MPIE) in
  let s := set_field s MSTATUS_MPIE 0 in
  set_field s MSTATUS_MPP PRV_U.
Definition sret_mstatus (s : Z) : Z :=
  let prev_prv := get_field s MSTATUS_SPP in
  let s := set_field s (MSTATUS_UIE .<< prev_prv) (get_field s MSTATUS_SPIE) in
  let s := set_field s MSTATUS_SPIE 0 in
  set_field s MSTATUS_SPP PRV_U.

Section insns.
Context {W : Type} `{Platform W}.

(** What the body of an instruction refers to.  A body returns the new [npc]. *)
Context (insn pc npc xlen : Z).

(** ** Macros (riscv/decode.h) *)

Definition READ_REG (reg : Z) : M W Z := gets (fun m => regfile_read (XPR (state m)) reg).
Definition READ_FREG (reg : Z) : M W Z := gets (fun m => regfile_read (FPR (state m)) reg).
Definition WRITE_REG (reg value : Z) : M W unit :=
  modify_state (fun s => s <| XPR := regfile_write true reg (u64 value) (XPR s) |>).
Definition DO_WRITE_FREG (reg value : Z) : M W unit :=
  modify_state (fun s =>
    dirty_fp_state xlen (s <| FPR := regfile_write false reg (u64 value) (FPR s) |>)).

Definition RS1 : M W Z := READ_REG (rs1 insn).
Definition RS2 : M W Z := READ_REG (rs2 insn).
Definition WRITE_RD (value : Z) : M W unit := WRITE_REG (rd insn) value.
Definition FRS1 : M W Z := READ_FREG (rs1 insn).
Definition FRS2 : M W Z := READ_FREG (rs2 insn).
Definition FRS3 : M W Z := READ_FREG (rs3 insn).
Definition WRITE_FRD (value : Z) : M W unit := DO_WRITE_FREG (rd insn) value.

Definition RVC_RS1 : M W Z := READ_REG (rvc_rs1 insn).
Definition RVC_RS2 : M W Z := READ_REG (rvc_rs2 insn).
Definition RVC_RS1S : M W Z := READ_REG (rvc_rs1s insn).
Definition RVC_RS2S : M W Z := READ_REG (rvc_rs2s insn).
Definition RVC_FRS2 : M W Z := READ_FREG (rvc_rs2 insn).
Definition RVC_FRS2S : M W Z := READ_FREG (rvc_rs2s insn).
Definition RVC_SP : M W Z := READ_REG X_SP.
Definition WRITE_RVC_RS1S (value : Z) : M W unit := WRITE_REG (rvc_rs1s insn) value.
Definition WRITE_RVC_RS2S (value : Z) : M W unit := WRITE_REG (rvc_rs2s insn) value.
Definition WRITE_RVC_FRS2S (value : Z) : M W unit := DO_WRITE_FREG (rvc_rs2s insn) value.

Definition require_privilege (p : Z) : M W unit := s ← gets state; require (p <=? prv s).
Definition require_rv64 : M W unit := require (xlen =? 64).
Definition require_extension (c : ascii) : M W unit :=
  p ← gets proc; require (supports_extension c p).
Definition require_fp : M W unit := s ← gets state; require (z2b (mstatus s .& MSTATUS_FS)).

Definition RM : M W Z :=
  s ← gets state;
  let r := if rm insn =? 7 then frm s else rm insn in
  if 4 <? r then throw (Trap CAUSE_ILLEGAL_INSTRUCTION None) else mret r.
Definition set_roundingMode (mode : Z) : M W unit :=
  modify (fun m => m <| fp := FpState mode (softfloat_detectTininess (fp m))
                                (softfloat_exceptionFlags (fp m)) |>).
Definition set_fp_exceptions : M W unit :=
  modify (fun m =>
    let flags := softfloat_exceptionFlags (fp m) in
    let m :=
      if z2b flags then
        m <| state := (dirty_fp_state xlen (state m)) <| fflags := fflags (state m) .| flags |> |>
      else m in
    m <| fp := FpState (softfloat_roundingMode (fp m)) (softfloat_detectTininess (fp m)) 0 |>).

(** The new [npc]. *)
Definition set_pc (x : Z) : M W Z :=
  let x := u64 x in
  p ← gets proc;
  if z2b (x .& 2) && negb (supports_extension "C" p)
  then throw (Trap CAUSE_MISALIGNED_FETCH (Some x))
  else mret (u64 (sext_xlen xlen x)).
Definition set_pc_and_serialize (x : Z) : M W Z :=
  set_pc x ;;
  modify_state (fun s => s <| Machine.pc := x |>) ;;
  mret PC_SERIALIZE_AFTER.

(** ** Integer computation *)

Definition exec_lui : M W Z := WRITE_RD (u_imm insn) ;; mret npc.
Definition exec_auipc : M W Z := WRITE_RD (sext_xlen xlen (u_imm insn + pc)) ;; mret npc.
Definition exec_add : M W Z :=
  a ← RS1; b ← RS2; WRITE_RD (sext_xlen xlen (a + b)) ;; mret npc.
Definition exec_addi : M W Z :=
  a ← RS1; WRITE_RD (sext_xlen xlen (a + i_imm insn)) ;; mret npc.
Definition exec_sub : M W Z :=
  a ← RS1; b ← RS2; WRITE_RD (sext_xlen xlen (a - b)) ;; mret npc.
Definition exec_and : M W Z := a ← RS1; b ← RS2; WRITE_RD (a .& b) ;; mret npc.
Definition exec_andi : M W Z := a ← RS1; WRITE_RD (i_imm insn .& a) ;; mret npc.
Definition exec_or : M W Z := a ← RS1; b ← RS2; WRITE_RD (a .| b) ;; mret npc.
Definition exec_ori : M W Z := a ← RS1; WRITE_RD (i_imm insn .| a) ;; mret npc.
Definition exec_xor : M W Z := a ← RS1; b ← RS2; WRITE_RD (a .^ b) ;; mret npc.
Definition exec_xori : M W Z := a ← RS1; WRITE_RD (i_imm insn .^ a) ;; mret npc.
Definition exec_slt : M W Z :=
  a ← RS1; b ← RS2; WRITE_RD (b2z (s64 a <? s64 b)) ;; mret npc.
Definition exec_slti : M W Z := a ← RS1; WRITE_RD (b2z (s64 a <? i_imm insn)) ;; mret npc.
Definition exec_sltu : M W Z := a ← RS1; b ← RS2; WRITE_RD (b2z (a <? b)) ;; mret npc.
Definition exec_sltiu : M W Z :=
  a ← RS1; WRITE_RD (b2z (a <? u64 (i_imm insn))) ;; mret npc.
Definition exec_sll : M W Z :=
  a ← RS1; b ← RS2; WRITE_RD (sext_xlen xlen (u64 (a .<< (b .& (xlen - 1))))) ;; mret npc.
Definition exec_slli : M W Z :=
  require (SHAMT insn <? xlen) ;; a ← RS1;
  WRITE_RD (sext_xlen xlen (u64 (a .<< SHAMT insn))) ;; mret npc.
Definition exec_srl : M W Z :=
  a ← RS1; b ← RS2; WRITE_RD (sext_xlen xlen (zext_xlen xlen a .>> (b .& (xlen - 1)))) ;;
  mret npc.
Definition exec_srli : M W Z :=
  require (SHAMT insn <? xlen) ;; a ← RS1;
  WRITE_RD (sext_xlen xlen (zext_xlen xlen a .>> SHAMT insn)) ;; mret npc.
Definition exec_sra : M W Z :=
  a ← RS1; b ← RS2; WRITE_RD (sext_xlen xlen (sext_xlen xlen a .>> (b .& (xlen - 1)))) ;;
  mret npc.
Definition exec_srai : M W Z :=
  require (SHAMT insn <? xlen) ;; a ← RS1;
  WRITE_RD (sext_xlen xlen (sext_xlen xlen a .>> SHAMT insn)) ;; mret npc.
Definition exec_addw : M W Z :=
  require_rv64 ;; a ← RS1; b ← RS2; WRITE_RD (sext32 (a + b)) ;; mret npc.
Definition exec_addiw : M W Z :=
  require_rv64 ;; a ← RS1; WRITE_RD (sext32 (i_imm insn + a)) ;; mret npc.
Definition exec_subw : M W Z :=
  require_rv64 ;; a ← RS1; b ← RS2; WRITE_RD (sext32 (a - b)) ;; mret npc.
Definition exec_sllw : M W Z :=
  require_rv64 ;; a ← RS1; b ← RS2; WRITE_RD (sext32 (u64 (a .<< (b .& 0x1F)))) ;; mret npc.
Definition exec_slliw : M W Z :=
  require_rv64 ;; a ← RS1; WRITE_RD (sext32 (u64 (a .<< SHAMT insn))) ;; mret npc.
Definition exec_srlw : M W Z :=
  require_rv64 ;; a ← RS1; b ← RS2; WRITE_RD (sext32 (u32 a .>> (b .& 0x1F))) ;; mret npc.
Definition exec_srliw : M W Z :=
  require_rv64 ;; a ← RS1; WRITE_RD (sext32 (u32 a .>> SHAMT insn)) ;; mret npc.
Definition exec_sraw : M W Z :=
  require_rv64 ;; a ← RS1; b ← RS2; WRITE_RD (sext32 (s32 a .>> (b .& 0x1F))) ;; mret npc.
Definition exec_sraiw : M W Z :=
  require_rv64 ;; a ← RS1; WRITE_RD (sext32 (s32 a .>> SHAMT insn)) ;; mret npc.

(** ** Branches and jumps *)

Definition exec_beq : M W Z :=
  a ← RS1; b ← RS2;
  if a =? b then set_pc (pc + sb_imm insn) else mret npc.
Definition exec_bne : M W Z :=
  a ← RS1; b ← RS2;
  if negb (a =? b) then set_pc (pc + sb_imm insn) else mret npc.
Definition exec_blt : M W Z :=
  a ← RS1; b ← RS2;
  if s64 a <? s64 b then set_pc (pc + sb_imm insn) else mret npc.
Definition exec_bge : M W Z :=
  a ← RS1; b ← RS2;
  if s64 b <=? s64 a then set_pc (pc + sb_imm insn) else mret npc.
Definition exec_bltu : M W Z :=
  a ← RS1; b ← RS2;
  if a <? b then set_pc (pc + sb_imm insn) else mret npc.
Definition exec_bgeu : M W Z :=
  a ← RS1; b ← RS2;
  if b <=? a then set_pc (pc + sb_imm insn) else mret npc.
Definition exec_jal : M W Z :=
  target ← set_pc (pc + uj_imm insn); WRITE_RD npc ;; mret target.
Definition exec_jalr : M W Z :=
  a ← RS1; target ← set_pc (u64 (a + i_imm insn) .& Z.lnot 1); WRITE_RD npc ;; mret target.

(** ** Loads and stores *)

Definition exec_lb : M W Z :=
  a ← RS1; v ← load true 1 (u64 (a + i_imm insn)); WRITE_RD v ;; mret npc.
Definition exec_lh : M W Z :=
  a ← RS1; v ← load true 2 (u64 (a + i_imm insn)); WRITE_RD v ;; mret npc.
Definition exec_lw : M W Z :=
  a ← RS1; v ← load true 4 (u64 (a + i_imm insn)); WRITE_RD v ;; mret npc.
Definition exec_ld : M W Z :=
  require_rv64 ;; a ← RS1; v ← load true 8 (u64 (a + i_imm insn)); WRITE_RD v ;; mret npc.
Definition exec_lbu : M W Z :=
  a ← RS1; v ← load false 1 (u64 (a + i_imm insn)); WRITE_RD v ;; mret npc.
Definition exec_lhu : M W Z :=
  a ← RS1; v ← load false 2 (u64 (a + i_imm insn)); WRITE_RD v ;; mret npc.
Definition exec_lwu : M W Z :=
  require_rv64 ;; a ← RS1; v ← load false 4 (u64 (a + i_imm insn)); WRITE_RD v ;; mret npc.
Definition exec_sb : M W Z :=
  a ← RS1; b ← RS2; store 1 (u64 (a + s_imm insn)) b ;; mret npc.
Definition exec_sh : M W Z :=
  a ← RS1; b ← RS2; store 2 (u64 (a + s_imm insn)) b ;; mret npc.
Definition exec_sw : M W Z :=
  a ← RS1; b ← RS2; store 4 (u64 (a + s_imm insn)) b ;; mret npc.
Definition exec_sd : M W Z :=
  require_rv64 ;; a ← RS1; b ← RS2; store 8 (u64 (a + s_imm insn)) b ;; mret npc.

(** ** Multiplication and division *)

Definition exec_mul : M W Z :=
  require_extension "M" ;; a ← RS1; b ← RS2; WRITE_RD (sext_xlen xlen (a * b)) ;; mret npc.
Definition exec_mulh : M W Z :=
  require_extension "M" ;; a ← RS1; b ← RS2;
  WRITE_RD (if xlen =? 64 then mulh (s64 a) (s64 b) else sext32 ((sext32 a * sext32 b) .>> 32)) ;;
  mret npc.
Definition exec_mulhsu : M W Z :=
  require_extension "M" ;; a ← RS1; b ← RS2;
  WRITE_RD (if xlen =? 64 then mulhsu (s64 a) b else sext32 (u64 (sext32 a * u32 b) .>> 32)) ;;
  mret npc.
Definition exec_mulhu : M W Z :=
  require_extension "M" ;; a ← RS1; b ← RS2;
  WRITE_RD (if xlen =? 64 then mulhu a b else sext32 (u64 (u32 a * u32 b) .>> 32)) ;;
  mret npc.
Definition exec_mulw : M W Z :=
  require_extension "M" ;; require_rv64 ;; a ← RS1; b ← RS2; WRITE_RD (sext32 (a * b)) ;;
  mret npc.
Definition exec_div : M W Z :=
  require_extension "M" ;; a ← RS1; b ← RS2;
  let lhs := sext_xlen xlen a in
  let rhs := sext_xlen xlen b in
  if rhs =? 0 then WRITE_RD UINT64_MAX ;; mret npc
  else if (lhs =? INT64_MIN) && (rhs =? -1) then WRITE_RD lhs ;; mret npc
  else WRITE_RD (sext_xlen xlen (Z.quot lhs rhs)) ;; mret npc.
Definition exec_divu : M W Z :=
  require_extension "M" ;; a ← RS1; b ← RS2;
  let lhs := zext_xlen xlen a in
  let rhs := zext_xlen xlen b in
  if rhs =? 0 then WRITE_RD UINT64_MAX ;; mret npc
  else WRITE_RD (sext_xlen xlen (lhs / rhs)) ;; mret npc.
Definition exec_divw : M W Z :=
  require_extension "M" ;; require_rv64 ;; a ← RS1; b ← RS2;
  let lhs := sext32 a in
  let rhs := sext32 b in
  if rhs =? 0 then WRITE_RD UINT64_MAX ;; mret npc
  else WRITE_RD (sext32 (Z.quot lhs rhs)) ;; mret npc.
Definition exec_divuw : M W Z :=
  require_extension "M" ;; require_rv64 ;; a ← RS1; b ← RS2;
  let lhs := zext32 a in
  let rhs := zext32 b in
  if rhs =? 0 then WRITE_RD UINT64_MAX ;; mret npc
  else WRITE_RD (sext32 (lhs / rhs)) ;; mret npc.
Definition exec_rem : M W Z :=
  require_extension "M" ;; a ← RS1; b ← RS2;
  let lhs := sext_xlen xlen a in
  let rhs := sext_xlen xlen b in
  if rhs =? 0 then WRITE_RD lhs ;; mret npc
  else if (lhs =? INT64_MIN) && (rhs =? -1) then WRITE_RD 0 ;; mret npc
  else WRITE_RD (sext_xlen xlen (Z.rem lhs rhs)) ;; mret npc.
Definition exec_remu : M W Z :=
  require_extension "M" ;; a ← RS1; b ← RS2;
  let lhs := zext_xlen xlen a in
  let rhs := zext_xlen xlen b in
  if rhs =? 0 then WRITE_RD (sext_xlen xlen a) ;; mret npc
  else WRITE_RD (sext_xlen xlen (lhs mod rhs)) ;; mret npc.
Definition exec_remw : M W Z :=
  require_extension "M" ;; require_rv64 ;; a ← RS1; b ← RS2;
  let lhs := sext32 a in
  let rhs := sext32 b in
  if rhs =? 0 then WRITE_RD lhs ;; mret npc
  else WRITE_RD (sext32 (Z.rem lhs rhs)) ;; mret npc.
Definition exec_remuw : M W Z :=
  require_extension "M" ;; require_rv64 ;; a ← RS1; b ← RS2;
  let lhs := zext32 a in
  let rhs := zext32 b in
  if rhs =? 0 then WRITE_RD (sext32 lhs) ;; mret npc
  else WRITE_RD (sext32 (lhs mod rhs)) ;; mret npc.

(** ** Atomic operations *)

Definition exec_amoadd_d : M W Z :=
  require_extension "A" ;; require_rv64 ;; a ← RS1; b ← RS2;
  v ← amo 8 a (fun lhs => u64 (lhs + b)); WRITE_RD v ;; mret npc.
Definition exec_amoadd_w : M W Z :=
  require_extension "A" ;; a ← RS1; b ← RS2; v ← amo 4 a (fun lhs => u64 (lhs + b));
  WRITE_RD (sext32 v) ;; mret npc.
Definition exec_amoand_d : M W Z :=
  require_extension "A" ;; require_rv64 ;; a ← RS1; b ← RS2;
  v ← amo 8 a (fun lhs => lhs .& b); WRITE_RD v ;; mret npc.
Definition exec_amoand_w : M W Z :=
  require_extension "A" ;; a ← RS1; b ← RS2; v ← amo 4 a (fun lhs => lhs .& b);
  WRITE_RD (sext32 v) ;; mret npc.
Definition exec_amomax_d : M W Z :=
  require_extension "A" ;; require_rv64 ;; a ← RS1; b ← RS2;
  v ← amo 8 a (fun lhs => Z.max (s64 lhs) (s64 b)); WRITE_RD v ;; mret npc.
Definition exec_amomax_w : M W Z :=
  require_extension "A" ;; a ← RS1; b ← RS2;
  v ← amo 4 a (fun lhs => Z.max (s32 lhs) (s32 b)); WRITE_RD (sext32 v) ;; mret npc.
Definition exec_amomaxu_d : M W Z :=
  require_extension "A" ;; require_rv64 ;; a ← RS1; b ← RS2;
  v ← amo 8 a (fun lhs => Z.max lhs b); WRITE_RD v ;; mret npc.
Definition exec_amomaxu_w : M W Z :=
  require_extension "A" ;; a ← RS1; b ← RS2; v ← amo 4 a (fun lhs => Z.max lhs (u32 b));
  WRITE_RD (sext32 v) ;; mret npc.
Definition exec_amomin_d : M W Z :=
  require_extension "A" ;; require_rv64 ;; a ← RS1; b ← RS2;
  v ← amo 8 a (fun lhs => Z.min (s64 lhs) (s64 b)); WRITE_RD v ;; mret npc.
Definition exec_amomin_w : M W Z :=
  require_extension "A" ;; a ← RS1; b ← RS2;
  v ← amo 4 a (fun lhs => Z.min (s32 lhs) (s32 b)); WRITE_RD (sext32 v) ;; mret npc.
Definition exec_amominu_d : M W Z :=
  require_extension "A" ;; require_rv64 ;; a ← RS1; b ← RS2;
  v ← amo 8 a (fun lhs => Z.min lhs b); WRITE_RD v ;; mret npc.
Definition exec_amominu_w : M W Z :=
  require_extension "A" ;; a ← RS1; b ← RS2; v ← amo 4 a (fun lhs => Z.min lhs (u32 b));
  WRITE_RD (sext32 v) ;; mret npc.
Definition exec_amoor_d : M W Z :=
  require_extension "A" ;; require_rv64 ;; a ← RS1; b ← RS2;
  v ← amo 8 a (fun lhs => lhs .| b); WRITE_RD v ;; mret npc.
Definition exec_amoor_w : M W Z :=
  require_extension "A" ;; a ← RS1; b ← RS2; v ← amo 4 a (fun lhs => lhs .| b);
  WRITE_RD (sext32 v) ;; mret npc.
Definition exec_amoswap_d : M W Z :=
  require_extension "A" ;; require_rv64 ;; a ← RS1; b ← RS2; v ← amo 8 a (fun lhs => b);
  WRITE_RD v ;; mret npc.
Definition exec_amoswap_w : M W Z :=
  require_extension "A" ;; a ← RS1; b ← RS2; v ← amo 4 a (fun lhs => b);
  WRITE_RD (sext32 v) ;; mret npc.
Definition exec_amoxor_d : M W Z :=
  require_extension "A" ;; require_rv64 ;; a ← RS1; b ← RS2;
  v ← amo 8 a (fun lhs => lhs .^ b); WRITE_RD v ;; mret npc.
Definition exec_amoxor_w : M W Z :=
  require_extension "A" ;; a ← RS1; b ← RS2; v ← amo 4 a (fun lhs => lhs .^ b);
  WRITE_RD (sext32 v) ;; mret npc.
Definition exec_lr_w : M W Z :=
  require_extension "A" ;; a ← RS1; modify_state (fun s => s <| load_reservation := a |>) ;;
  v ← load true 4 a; WRITE_RD v ;; mret npc.
Definition exec_lr_d : M W Z :=
  require_extension "A" ;; require_rv64 ;; a ← RS1;
  modify_state (fun s => s <| load_reservation := a |>) ;; v ← load true 8 a; WRITE_RD v ;;
  mret npc.
Definition exec_sc_w : M W Z :=
  require_extension "A" ;; a ← RS1; s ← gets state;
  if a =? load_reservation s then b ← RS2; store 4 a b ;; WRITE_RD 0 ;; mret npc
  else WRITE_RD 1 ;; mret npc.
Definition exec_sc_d : M W Z :=
  require_extension "A" ;; require_rv64 ;; a ← RS1; s ← gets state;
  if a =? load_reservation s then b ← RS2; store 8 a b ;; WRITE_RD 0 ;; mret npc
  else WRITE_RD 1 ;; mret npc.

(** ** System *)

Definition exec_fence : M W Z := mret npc.
Definition exec_fence_i : M W Z :=
  modify (fun m => m <| mmu := flush_icache (mmu m) |>) ;; mret npc.
Definition exec_sfence_vm : M W Z := require_privilege PRV_S ;; modify flush ;; mret npc.
Definition exec_wfi : M W Z := mret npc.
Definition exec_ecall : M W Z :=
  s ← gets state;
  if prv s =? PRV_U then throw (Trap CAUSE_USER_ECALL None)
  else if prv s =? PRV_S then throw (Trap CAUSE_SUPERVISOR_ECALL None)
  else if prv s =? PRV_H then throw (Trap CAUSE_HYPERVISOR_ECALL None)
  else if prv s =? PRV_M then throw (Trap CAUSE_MACHINE_ECALL None) else mret npc.
Definition exec_ebreak : M W Z := throw (Trap CAUSE_BREAKPOINT None).
Definition exec_csrrw : M W Z :=
  validate_csr (csr insn) true (fun csr =>
    old ← get_csr csr; a ← RS1; set_csr csr a ;; WRITE_RD (sext_xlen xlen old) ;; mret npc).
Definition exec_csrrs : M W Z :=
  let write := negb (rs1 insn =? 0) in
  validate_csr (csr insn) write (fun csr =>
    old ← get_csr csr; (if write then a ← RS1; set_csr csr (old .| a) else mret tt) ;;
    WRITE_RD (sext_xlen xlen old) ;; mret npc).
Definition exec_csrrc : M W Z :=
  let write := negb (rs1 insn =? 0) in
  validate_csr (csr insn) write (fun csr =>
    old ← get_csr csr;
    (if write then a ← RS1; set_csr csr (old .& Z.lnot a) else mret tt) ;;
    WRITE_RD (sext_xlen xlen old) ;; mret npc).
Definition exec_csrrwi : M W Z :=
  validate_csr (csr insn) true (fun csr =>
    old ← get_csr csr; set_csr csr (rs1 insn) ;; WRITE_RD (sext_xlen xlen old) ;; mret npc).
Definition exec_csrrsi : M W Z :=
  let write := negb (rs1 insn =? 0) in
  validate_csr (csr insn) write (fun csr =>
    old ← get_csr csr; (if write then set_csr csr (old .| rs1 insn) else mret tt) ;;
    WRITE_RD (sext_xlen xlen old) ;; mret npc).
Definition exec_csrrci : M W Z :=
  let write := negb (rs1 insn =? 0) in
  validate_csr (csr insn) write (fun csr =>
    old ← get_csr csr;
    (if write then set_csr csr (old .& Z.lnot (rs1 insn)) else mret tt) ;;
    WRITE_RD (sext_xlen xlen old) ;; mret npc).
Definition exec_mret : M W Z :=
  require_privilege PRV_M ;; s ← gets state; target ← set_pc_and_serialize (mepc s);
  let prev_prv := get_field (mstatus s) MSTATUS_MPP in
  set_privilege prev_prv ;; set_csr CSR_MSTATUS (mret_mstatus (mstatus s)) ;; mret target.
Definition exec_sret : M W Z :=
  require_privilege PRV_S ;; s ← gets state; target ← set_pc_and_serialize (sepc s);
  let prev_prv := get_field (mstatus s) MSTATUS_SPP in
  set_privilege prev_prv ;; set_csr CSR_MSTATUS (sret_mstatus (mstatus s)) ;; mret target.
Definition exec_dret : M W Z :=
  require_privilege PRV_M ;; s ← gets state; target ← set_pc_and_serialize (dpc s);
  set_privilege (dcsr_prv (dcsr s)) ;;
  modify_state (fun s => s <| dcsr := (dcsr s) <| dcsr_cause := 0 |> |>) ;;
  modify_state (fun s => if dcsr_step (dcsr s) then s <| single_step := STEP_STEPPING |> else s) ;;
  mret target.

(** ** Compressed instructions *)

Definition exec_c_add : M W Z :=
  require_extension "C" ;; require (negb (rvc_rs2 insn =? 0)) ;; a ← RVC_RS1; b ← RVC_RS2;
  WRITE_RD (sext_xlen xlen (a + b)) ;; mret npc.
Definition exec_c_addi : M W Z :=
  require_extension "C" ;; a ← RVC_RS1; WRITE_RD (sext_xlen xlen (a + rvc_imm insn)) ;;
  mret npc.
Definition exec_c_addi4spn : M W Z :=
  require_extension "C" ;; require (negb (rvc_addi4spn_imm insn =? 0)) ;; a ← RVC_SP;
  WRITE_RVC_RS2S (sext_xlen xlen (a + rvc_addi4spn_imm insn)) ;; mret npc.
Definition exec_c_addw : M W Z :=
  require_extension "C" ;; require_rv64 ;; a ← RVC_RS1S; b ← RVC_RS2S;
  WRITE_RVC_RS1S (sext32 (a + b)) ;; mret npc.
Definition exec_c_and : M W Z :=
  require_extension "C" ;; a ← RVC_RS1S; b ← RVC_RS2S; WRITE_RVC_RS1S (a .& b) ;; mret npc.
Definition exec_c_andi : M W Z :=
  require_extension "C" ;; a ← RVC_RS1S; WRITE_RVC_RS1S (a .& rvc_imm insn) ;; mret npc.
Definition exec_c_beqz : M W Z :=
  require_extension "C" ;; a ← RVC_RS1S;
  if a =? 0 then set_pc (pc + rvc_b_imm insn) else mret npc.
Definition exec_c_bnez : M W Z :=
  require_extension "C" ;; a ← RVC_RS1S;
  if negb (a =? 0) then set_pc (pc + rvc_b_imm insn) else mret npc.
Definition exec_c_ebreak : M W Z :=
  require_extension "C" ;; throw (Trap CAUSE_BREAKPOINT None).
Definition exec_c_fld : M W Z :=
  require_extension "C" ;; require_extension "D" ;; require_fp ;; a ← RVC_RS1S;
  v ← load true 8 (u64 (a + rvc_ld_imm insn)); WRITE_RVC_FRS2S v ;; mret npc.
Definition exec_c_fldsp : M W Z :=
  require_extension "C" ;; require_extension "D" ;; require_fp ;; a ← RVC_SP;
  v ← load true 8 (u64 (a + rvc_ldsp_imm insn)); WRITE_FRD v ;; mret npc.
Definition exec_c_flw : M W Z :=
  require_extension "C" ;;
  if xlen =? 32 then
    require_extension "F" ;; require_fp ;; a ← RVC_RS1S;
    v ← load true 4 (u64 (a + rvc_lw_imm insn)); WRITE_RVC_FRS2S v ;; mret npc
  else
    a ← RVC_RS1S; v ← load true 8 (u64 (a + rvc_ld_imm insn)); WRITE_RVC_RS2S v ;; mret npc.
Definition exec_c_flwsp : M W Z :=
  require_extension "C" ;;
  if xlen =? 32 then
    require_extension "F" ;; require_fp ;; a ← RVC_SP;
    v ← load true 4 (u64 (a + rvc_lwsp_imm insn)); WRITE_FRD v ;; mret npc
  else
    require (negb (rvc_rd insn =? 0)) ;; a ← RVC_SP;
    v ← load true 8 (u64 (a + rvc_ldsp_imm insn)); WRITE_RD v ;; mret npc.
Definition exec_c_fsd : M W Z :=
  require_extension "C" ;; require_extension "D" ;; require_fp ;; a ← RVC_RS1S;
  b ← RVC_FRS2S; store 8 (u64 (a + rvc_ld_imm insn)) b ;; mret npc.
Definition exec_c_fsdsp : M W Z :=
  require_extension "C" ;; require_extension "D" ;; require_fp ;; a ← RVC_SP; b ← RVC_FRS2;
  store 8 (u64 (a + rvc_sdsp_imm insn)) b ;; mret npc.
Definition exec_c_fsw : M W Z :=
  require_extension "C" ;;
  if xlen =? 32 then
    require_extension "F" ;; require_fp ;; a ← RVC_RS1S; b ← RVC_FRS2S;
    store 4 (u64 (a + rvc_lw_imm insn)) b ;; mret npc
  else a ← RVC_RS1S; b ← RVC_RS2S; store 8 (u64 (a + rvc_ld_imm insn)) b ;; mret npc.
Definition exec_c_fswsp : M W Z :=
  require_extension "C" ;;
  if xlen =? 32 then
    require_extension "F" ;; require_fp ;; a ← RVC_SP; b ← RVC_FRS2;
    store 4 (u64 (a + rvc_swsp_imm insn)) b ;; mret npc
  else a ← RVC_SP; b ← RVC_RS2; store 8 (u64 (a + rvc_sdsp_imm insn)) b ;; mret npc.
Definition exec_c_j : M W Z := require_extension "C" ;; set_pc (pc + rvc_j_imm insn).
Definition exec_c_jal : M W Z :=
  require_extension "C" ;;
  if xlen =? 32 then
    target ← set_pc (pc + rvc_j_imm insn); WRITE_REG X_RA npc ;; mret target
  else
    require (negb (rvc_rd insn =? 0)) ;; a ← RVC_RS1;
    WRITE_RD (sext32 (a + rvc_imm insn)) ;; mret npc.
Definition exec_c_jalr : M W Z :=
  require_extension "C" ;; require (negb (rvc_rs1 insn =? 0)) ;; a ← RVC_RS1;
  target ← set_pc (a .& Z.lnot 1); WRITE_REG X_RA npc ;; mret target.
Definition exec_c_jr : M W Z :=
  require_extension "C" ;; require (negb (rvc_rs1 insn =? 0)) ;; a ← RVC_RS1;
  set_pc (a .& Z.lnot 1).
Definition exec_c_li : M W Z :=
  require_extension "C" ;; require (negb (rvc_rd insn =? 0)) ;; WRITE_RD (rvc_imm insn) ;;
  mret npc.
Definition exec_c_lui : M W Z :=
  require_extension "C" ;;
  if rvc_rd insn =? 2 then
    require (negb (rvc_addi16sp_imm insn =? 0)) ;; a ← RVC_SP;
    WRITE_REG X_SP (sext_xlen xlen (a + rvc_addi16sp_imm insn)) ;; mret npc
  else require (negb (rvc_rd insn =? 0)) ;; WRITE_RD (rvc_imm insn .<< 12) ;; mret npc.
Definition exec_c_lw : M W Z :=
  require_extension "C" ;; a ← RVC_RS1S; v ← load true 4 (u64 (a + rvc_lw_imm insn));
  WRITE_RVC_RS2S v ;; mret npc.
Definition exec_c_lwsp : M W Z :=
  require_extension "C" ;; require (negb (rvc_rd insn =? 0)) ;; a ← RVC_SP;
  v ← load true 4 (u64 (a + rvc_lwsp_imm insn)); WRITE_RD v ;; mret npc.
Definition exec_c_mv : M W Z :=
  require_extension "C" ;; require (negb (rvc_rs2 insn =? 0)) ;; b ← RVC_RS2; WRITE_RD b ;;
  mret npc.
Definition exec_c_or : M W Z :=
  require_extension "C" ;; a ← RVC_RS1S; b ← RVC_RS2S; WRITE_RVC_RS1S (a .| b) ;; mret npc.
Definition exec_c_slli : M W Z :=
  require_extension "C" ;; require (rvc_zimm insn <? xlen) ;; a ← RVC_RS1;
  WRITE_RD (sext_xlen xlen (u64 (a .<< rvc_zimm insn))) ;; mret npc.
Definition exec_c_srai : M W Z :=
  require_extension "C" ;; require (rvc_zimm insn <? xlen) ;; a ← RVC_RS1S;
  WRITE_RVC_RS1S (sext_xlen xlen (sext_xlen xlen a .>> rvc_zimm insn)) ;; mret npc.
Definition exec_c_srli : M W Z :=
  require_extension "C" ;; require (rvc_zimm insn <? xlen) ;; a ← RVC_RS1S;
  WRITE_RVC_RS1S (sext_xlen xlen (zext_xlen xlen a .>> rvc_zimm insn)) ;; mret npc.
Definition exec_c_sub : M W Z :=
  require_extension "C" ;; a ← RVC_RS1S; b ← RVC_RS2S;
  WRITE_RVC_RS1S (sext_xlen xlen (a - b)) ;; mret npc.
Definition exec_c_subw : M W Z :=
  require_extension "C" ;; require_rv64 ;; a ← RVC_RS1S; b ← RVC_RS2S;
  WRITE_RVC_RS1S (sext32 (a - b)) ;; mret npc.
Definition exec_c_sw : M W Z :=
  require_extension "C" ;; a ← RVC_RS1S; b ← RVC_RS2S;
  store 4 (u64 (a + rvc_lw_imm insn)) b ;; mret npc.
Definition exec_c_swsp : M W Z :=
  require_extension "C" ;; a ← RVC_SP; b ← RVC_RS2;
  store 4 (u64 (a + rvc_swsp_imm insn)) b ;; mret npc.
Definition exec_c_xor : M W Z :=
  require_extension "C" ;; a ← RVC_RS1S; b ← RVC_RS2S; WRITE_RVC_RS1S (a .^ b) ;; mret npc.

(** ** Floating point *)

Definition exec_fadd_d : M W Z :=
  require_extension "D" ;; require_fp ;; RM ≫= set_roundingMode ;; a ← FRS1; b ← FRS2;
  v ← fp_op (f64_add a b); WRITE_FRD v ;; set_fp_exceptions ;; mret npc.
Definition exec_fadd_s : M W Z :=
  require_extension "F" ;; require_fp ;; RM ≫= set_roundingMode ;; a ← FRS1; b ← FRS2;
  v ← fp_op (f32_add (u32 a) (u32 b)); WRITE_FRD v ;; set_fp_exceptions ;; mret npc.
Definition exec_fclass_d : M W Z :=
  require_extension "D" ;; require_fp ;; a ← FRS1; WRITE_RD (f64_classify a) ;; mret npc.
Definition exec_fclass_s : M W Z :=
  require_extension "F" ;; require_fp ;; a ← FRS1; WRITE_RD (f32_classify (u32 a)) ;;
  mret npc.
Definition exec_fcvt_d_l : M W Z :=
  require_extension "D" ;; require_rv64 ;; require_fp ;; RM ≫= set_roundingMode ;; a ← RS1;
  v ← fp_op (i64_to_f64 (s64 a)); WRITE_FRD v ;; set_fp_exceptions ;; mret npc.
Definition exec_fcvt_d_lu : M W Z :=
  require_extension "D" ;; require_rv64 ;; require_fp ;; RM ≫= set_roundingMode ;; a ← RS1;
  v ← fp_op (ui64_to_f64 a); WRITE_FRD v ;; set_fp_exceptions ;; mret npc.
Definition exec_fcvt_d_s : M W Z :=
  require_extension "D" ;; require_fp ;; RM ≫= set_roundingMode ;; a ← FRS1;
  v ← fp_op (f32_to_f64 (u32 a)); WRITE_FRD v ;; set_fp_exceptions ;; mret npc.
Definition exec_fcvt_d_w : M W Z :=
  require_extension "D" ;; require_fp ;; RM ≫= set_roundingMode ;; a ← RS1;
  v ← fp_op (i32_to_f64 (s32 a)); WRITE_FRD v ;; set_fp_exceptions ;; mret npc.
Definition exec_fcvt_d_wu : M W Z :=
  require_extension "D" ;; require_fp ;; RM ≫= set_roundingMode ;; a ← RS1;
  v ← fp_op (ui32_to_f64 (u32 a)); WRITE_FRD v ;; set_fp_exceptions ;; mret npc.
Definition exec_fcvt_l_d : M W Z :=
  require_extension "D" ;; require_rv64 ;; require_fp ;; RM ≫= set_roundingMode ;; a ← FRS1;
  rm ← RM; v ← fp_op (f64_to_i64 a rm true); WRITE_RD v ;; set_fp_exceptions ;; mret npc.
Definition exec_fcvt_l_s : M W Z :=
  require_extension "F" ;; require_rv64 ;; require_fp ;; RM ≫= set_roundingMode ;; a ← FRS1;
  rm ← RM; v ← fp_op (f32_to_i64 (u32 a) rm true); WRITE_RD v ;; set_fp_exceptions ;;
  mret npc.
Definition exec_fcvt_lu_d : M W Z :=
  require_extension "D" ;; require_rv64 ;; require_fp ;; RM ≫= set_roundingMode ;; a ← FRS1;
  rm ← RM; v ← fp_op (f64_to_ui64 a rm true); WRITE_RD v ;; set_fp_exceptions ;; mret npc.
Definition exec_fcvt_lu_s : M W Z :=
  require_extension "F" ;; require_rv64 ;; require_fp ;; RM ≫= set_roundingMode ;; a ← FRS1;
  rm ← RM; v ← fp_op (f32_to_ui64 (u32 a) rm true); WRITE_RD v ;; set_fp_exceptions ;;
  mret npc.
Definition exec_fcvt_s_d : M W Z :=
  require_extension "D" ;; require_fp ;; RM ≫= set_roundingMode ;; a ← FRS1;
  v ← fp_op (f64_to_f32 a); WRITE_FRD v ;; set_fp_exceptions ;; mret npc.
Definition exec_fcvt_s_l : M W Z :=
  require_extension "F" ;; require_rv64 ;; require_fp ;; RM ≫= set_roundingMode ;; a ← RS1;
  v ← fp_op (i64_to_f32 (s64 a)); WRITE_FRD v ;; set_fp_exceptions ;; mret npc.
Definition exec_fcvt_s_lu : M W Z :=
  require_extension "F" ;; require_rv64 ;; require_fp ;; RM ≫= set_roundingMode ;; a ← RS1;
  v ← fp_op (ui64_to_f32 a); WRITE_FRD v ;; set_fp_exceptions ;; mret npc.
Definition exec_fcvt_s_w : M W Z :=
  require_extension "F" ;; require_fp ;; RM ≫= set_roundingMode ;; a ← RS1;
  v ← fp_op (i32_to_f32 (s32 a)); WRITE_FRD v ;; set_fp_exceptions ;; mret npc.
Definition exec_fcvt_s_wu : M W Z :=
  require_extension "F" ;; require_fp ;; RM ≫= set_roundingMode ;; a ← RS1;
  v ← fp_op (ui32_to_f32 (u32 a)); WRITE_FRD v ;; set_fp_exceptions ;; mret npc.
Definition exec_fcvt_w_d : M W Z :=
  require_extension "D" ;; require_fp ;; RM ≫= set_roundingMode ;; a ← FRS1; rm ← RM;
  v ← fp_op (f64_to_i32 a rm true); WRITE_RD (sext32 v) ;; set_fp_exceptions ;; mret npc.
Definition exec_fcvt_w_s : M W Z :=
  require_extension "F" ;; require_fp ;; RM ≫= set_roundingMode ;; a ← FRS1; rm ← RM;
  v ← fp_op (f32_to_i32 (u32 a) rm true); WRITE_RD (sext32 v) ;; set_fp_exceptions ;;
  mret npc.
Definition exec_fcvt_wu_d : M W Z :=
  require_extension "D" ;; require_fp ;; RM ≫= set_roundingMode ;; a ← FRS1; rm ← RM;
  v ← fp_op (f64_to_ui32 a rm true); WRITE_RD (sext32 v) ;; set_fp_exceptions ;; mret npc.
Definition exec_fcvt_wu_s : M W Z :=
  require_extension "F" ;; require_fp ;; RM ≫= set_roundingMode ;; a ← FRS1; rm ← RM;
  v ← fp_op (f32_to_ui32 (u32 a) rm true); WRITE_RD (sext32 v) ;; set_fp_exceptions ;;
  mret npc.
Definition exec_fdiv_d : M W Z :=
  require_extension "D" ;; require_fp ;; RM ≫= set_roundingMode ;; a ← FRS1; b ← FRS2;
  v ← fp_op (f64_div a b); WRITE_FRD v ;; set_fp_exceptions ;; mret npc.
Definition exec_fdiv_s : M W Z :=
  require_extension "F" ;; require_fp ;; RM ≫= set_roundingMode ;; a ← FRS1; b ← FRS2;
  v ← fp_op (f32_div (u32 a) (u32 b)); WRITE_FRD v ;; set_fp_exceptions ;; mret npc.
Definition exec_feq_d : M W Z :=
  require_extension "D" ;; require_fp ;; a ← FRS1; b ← FRS2; v ← fp_op (f64_eq a b);
  WRITE_RD (b2z v) ;; set_fp_exceptions ;; mret npc.
Definition exec_feq_s : M W Z :=
  require_extension "F" ;; require_fp ;; a ← FRS1; b ← FRS2;
  v ← fp_op (f32_eq (u32 a) (u32 b)); WRITE_RD (b2z v) ;; set_fp_exceptions ;; mret npc.
Definition exec_fld : M W Z :=
  require_extension "D" ;; require_fp ;; a ← RS1; v ← load true 8 (u64 (a + i_imm insn));
  WRITE_FRD v ;; mret npc.
Definition exec_fle_d : M W Z :=
  require_extension "D" ;; require_fp ;; a ← FRS1; b ← FRS2; v ← fp_op (f64_le a b);
  WRITE_RD (b2z v) ;; set_fp_exceptions ;; mret npc.
Definition exec_fle_s : M W Z :=
  require_extension "F" ;; require_fp ;; a ← FRS1; b ← FRS2;
  v ← fp_op (f32_le (u32 a) (u32 b)); WRITE_RD (b2z v) ;; set_fp_exceptions ;; mret npc.
Definition exec_flt_d : M W Z :=
  require_extension "D" ;; require_fp ;; a ← FRS1; b ← FRS2; v ← fp_op (f64_lt a b);
  WRITE_RD (b2z v) ;; set_fp_exceptions ;; mret npc.
Definition exec_flt_s : M W Z :=
  require_extension "F" ;; require_fp ;; a ← FRS1; b ← FRS2;
  v ← fp_op (f32_lt (u32 a) (u32 b)); WRITE_RD (b2z v) ;; set_fp_exceptions ;; mret npc.
Definition exec_flw : M W Z :=
  require_extension "F" ;; require_fp ;; a ← RS1; v ← load false 4 (u64 (a + i_imm insn));
  WRITE_FRD v ;; mret npc.
Definition exec_fmadd_d : M W Z :=
  require_extension "D" ;; require_fp ;; RM ≫= set_roundingMode ;; a ← FRS1; b ← FRS2;
  c ← FRS3; v ← fp_op (f64_mulAdd a b c); WRITE_FRD v ;; set_fp_exceptions ;; mret npc.
Definition exec_fmadd_s : M W Z :=
  require_extension "F" ;; require_fp ;; RM ≫= set_roundingMode ;; a ← FRS1; b ← FRS2;
  c ← FRS3; v ← fp_op (f32_mulAdd (u32 a) (u32 b) (u32 c)); WRITE_FRD v ;;
  set_fp_exceptions ;; mret npc.
Definition exec_fmax_d : M W Z :=
  require_extension "D" ;; require_fp ;; a ← FRS1; b ← FRS2;
  c ← (if isNaNF64UI b then mret true else fp_op (f64_le_quiet b a));
  WRITE_FRD (if c : bool then a else b) ;; set_fp_exceptions ;; mret npc.
Definition exec_fmax_s : M W Z :=
  require_extension "F" ;; require_fp ;; a ← FRS1; b ← FRS2;
  c ← (if isNaNF32UI b then mret true else fp_op (f32_le_quiet (u32 b) (u32 a)));
  WRITE_FRD (if c : bool then a else b) ;; set_fp_exceptions ;; mret npc.
Definition exec_fmin_d : M W Z :=
  require_extension "D" ;; require_fp ;; a ← FRS1; b ← FRS2;
  c ← (if isNaNF64UI b then mret true else fp_op (f64_lt_quiet a b));
  WRITE_FRD (if c : bool then a else b) ;; set_fp_exceptions ;; mret npc.
Definition exec_fmin_s : M W Z :=
  require_extension "F" ;; require_fp ;; a ← FRS1; b ← FRS2;
  c ← (if isNaNF32UI b then mret true else fp_op (f32_lt_quiet (u32 a) (u32 b)));
  WRITE_FRD (if c : bool then a else b) ;; set_fp_exceptions ;; mret npc.
Definition exec_fmsub_d : M W Z :=
  require_extension "D" ;; require_fp ;; RM ≫= set_roundingMode ;; a ← FRS1; b ← FRS2;
  c ← FRS3; v ← fp_op (f64_mulAdd a b (c .^ INT64_SIGN)); WRITE_FRD v ;;
  set_fp_exceptions ;; mret npc.
Definition exec_fmsub_s : M W Z :=
  require_extension "F" ;; require_fp ;; RM ≫= set_roundingMode ;; a ← FRS1; b ← FRS2;
  c ← FRS3; v ← fp_op (f32_mulAdd (u32 a) (u32 b) (u32 (c .^ INT32_SIGN))); WRITE_FRD v ;;
  set_fp_exceptions ;; mret npc.
Definition exec_fmul_d : M W Z :=
  require_extension "D" ;; require_fp ;; RM ≫= set_roundingMode ;; a ← FRS1; b ← FRS2;
  v ← fp_op (f64_mul a b); WRITE_FRD v ;; set_fp_exceptions ;; mret npc.
Definition exec_fmul_s : M W Z :=
  require_extension "F" ;; require_fp ;; RM ≫= set_roundingMode ;; a ← FRS1; b ← FRS2;
  v ← fp_op (f32_mul (u32 a) (u32 b)); WRITE_FRD v ;; set_fp_exceptions ;; mret npc.
Definition exec_fmv_d_x : M W Z :=
  require_extension "D" ;; require_rv64 ;; require_fp ;; a ← RS1; WRITE_FRD a ;; mret npc.
Definition exec_fmv_s_x : M W Z :=
  require_extension "F" ;; require_fp ;; a ← RS1; WRITE_FRD (zext32 a) ;; mret npc.
Definition exec_fmv_x_d : M W Z :=
  require_extension "D" ;; require_rv64 ;; require_fp ;; a ← FRS1; WRITE_RD a ;; mret npc.
Definition exec_fmv_x_s : M W Z :=
  require_extension "F" ;; require_fp ;; a ← FRS1; WRITE_RD (sext32 a) ;; mret npc.
Definition exec_fnmadd_d : M W Z :=
  require_extension "D" ;; require_fp ;; RM ≫= set_roundingMode ;; a ← FRS1; b ← FRS2;
  c ← FRS3; v ← fp_op (f64_mulAdd (a .^ INT64_SIGN) b (c .^ INT64_SIGN)); WRITE_FRD v ;;
  set_fp_exceptions ;; mret npc.
Definition exec_fnmadd_s : M W Z :=
  require_extension "F" ;; require_fp ;; RM ≫= set_roundingMode ;; a ← FRS1; b ← FRS2;
  c ← FRS3; v ← fp_op (f32_mulAdd (u32 (a .^ INT32_SIGN)) (u32 b) (u32 (c .^ INT32_SIGN)));
  WRITE_FRD v ;; set_fp_exceptions ;; mret npc.
Definition exec_fnmsub_d : M W Z :=
  require_extension "D" ;; require_fp ;; RM ≫= set_roundingMode ;; a ← FRS1; b ← FRS2;
  c ← FRS3; v ← fp_op (f64_mulAdd (a .^ INT64_SIGN) b c); WRITE_FRD v ;;
  set_fp_exceptions ;; mret npc.
Definition exec_fnmsub_s : M W Z :=
  require_extension "F" ;; require_fp ;; RM ≫= set_roundingMode ;; a ← FRS1; b ← FRS2;
  c ← FRS3; v ← fp_op (f32_mulAdd (u32 (a .^ INT32_SIGN)) (u32 b) (u32 c)); WRITE_FRD v ;;
  set_fp_exceptions ;; mret npc.
Definition exec_fsd : M W Z :=
  require_extension "D" ;; require_fp ;; a ← RS1; b ← FRS2;
  store 8 (u64 (a + s_imm insn)) b ;; mret npc.
Definition exec_fsgnj_d : M W Z :=
  require_extension "D" ;; require_fp ;; a ← FRS1; b ← FRS2;
  WRITE_FRD ((a .& Z.lnot INT64_SIGN) .| (b .& INT64_SIGN)) ;; mret npc.
Definition exec_fsgnj_s : M W Z :=
  require_extension "F" ;; require_fp ;; a ← FRS1; b ← FRS2;
  WRITE_FRD ((a .& u32 (Z.lnot INT32_SIGN)) .| (b .& INT32_SIGN)) ;; mret npc.
Definition exec_fsgnjn_d : M W Z :=
  require_extension "D" ;; require_fp ;; a ← FRS1; b ← FRS2;
  WRITE_FRD ((a .& Z.lnot INT64_SIGN) .| (Z.lnot b .& INT64_SIGN)) ;; mret npc.
Definition exec_fsgnjn_s : M W Z :=
  require_extension "F" ;; require_fp ;; a ← FRS1; b ← FRS2;
  WRITE_FRD ((a .& u32 (Z.lnot INT32_SIGN)) .| (Z.lnot b .& INT32_SIGN)) ;; mret npc.
Definition exec_fsgnjx_d : M W Z :=
  require_extension "D" ;; require_fp ;; a ← FRS1; b ← FRS2;
  WRITE_FRD (a .^ (b .& INT64_SIGN)) ;; mret npc.
Definition exec_fsgnjx_s : M W Z :=
  require_extension "F" ;; require_fp ;; a ← FRS1; b ← FRS2;
  WRITE_FRD (a .^ (b .& INT32_SIGN)) ;; mret npc.
Definition exec_fsqrt_d : M W Z :=
  require_extension "D" ;; require_fp ;; RM ≫= set_roundingMode ;; a ← FRS1;
  v ← fp_op (f64_sqrt a); WRITE_FRD v ;; set_fp_exceptions ;; mret npc.
Definition exec_fsqrt_s : M W Z :=
  require_extension "F" ;; require_fp ;; RM ≫= set_roundingMode ;; a ← FRS1;
  v ← fp_op (f32_sqrt (u32 a)); WRITE_FRD v ;; set_fp_exceptions ;; mret npc.
Definition exec_fsub_d : M W Z :=
  require_extension "D" ;; require_fp ;; RM ≫= set_roundingMode ;; a ← FRS1; b ← FRS2;
  v ← fp_op (f64_sub a b); WRITE_FRD v ;; set_fp_exceptions ;; mret npc.
Definition exec_fsub_s : M W Z :=
  require_extension "F" ;; require_fp ;; RM ≫= set_roundingMode ;; a ← FRS1; b ← FRS2;
  v ← fp_op (f32_sub (u32 a) (u32 b)); WRITE_FRD v ;; set_fp_exceptions ;; mret npc.
Definition exec_fsw : M W Z :=
  require_extension "F" ;; require_fp ;; a ← RS1; b ← FRS2;
  store 4 (u64 (a + s_imm insn)) b ;; mret npc.

(** ** The table of instructions *)

Definition insn_body (f : insn_func) : M W Z :=
  match f with
  | rv_lui => exec_lui | rv_auipc => exec_auipc | rv_add => exec_add | rv_addi => exec_addi
  | rv_sub => exec_sub | rv_and => exec_and | rv_andi => exec_andi | rv_or => exec_or
  | rv_ori => exec_ori | rv_xor => exec_xor | rv_xori => exec_xori | rv_slt => exec_slt
  | rv_slti => exec_slti | rv_sltu => exec_sltu | rv_sltiu => exec_sltiu
  | rv_sll => exec_sll | rv_slli => exec_slli | rv_srl => exec_srl | rv_srli => exec_srli
  | rv_sra => exec_sra | rv_srai => exec_srai | rv_addw => exec_addw
  | rv_addiw => exec_addiw | rv_subw => exec_subw | rv_sllw => exec_sllw
  | rv_slliw => exec_slliw | rv_srlw => exec_srlw | rv_srliw => exec_srliw
  | rv_sraw => exec_sraw | rv_sraiw => exec_sraiw | rv_beq => exec_beq | rv_bne => exec_bne
  | rv_blt => exec_blt | rv_bge => exec_bge | rv_bltu => exec_bltu | rv_bgeu => exec_bgeu
  | rv_jal => exec_jal | rv_jalr => exec_jalr | rv_lb => exec_lb | rv_lh => exec_lh
  | rv_lw => exec_lw | rv_ld => exec_ld | rv_lbu => exec_lbu | rv_lhu => exec_lhu
  | rv_lwu => exec_lwu | rv_sb => exec_sb | rv_sh => exec_sh | rv_sw => exec_sw
  | rv_sd => exec_sd | rv_mul => exec_mul | rv_mulh => exec_mulh | rv_mulhsu => exec_mulhsu
  | rv_mulhu => exec_mulhu | rv_mulw => exec_mulw | rv_div => exec_div
  | rv_divu => exec_divu | rv_divw => exec_divw | rv_divuw => exec_divuw
  | rv_rem => exec_rem | rv_remu => exec_remu | rv_remw => exec_remw
  | rv_remuw => exec_remuw | rv_amoadd_d => exec_amoadd_d | rv_amoadd_w => exec_amoadd_w
  | rv_amoand_d => exec_amoand_d | rv_amoand_w => exec_amoand_w
  | rv_amomax_d => exec_amomax_d | rv_amomax_w => exec_amomax_w
  | rv_amomaxu_d => exec_amomaxu_d | rv_amomaxu_w => exec_amomaxu_w
  | rv_amomin_d => exec_amomin_d | rv_amomin_w => exec_amomin_w
  | rv_amominu_d => exec_amominu_d | rv_amominu_w => exec_amominu_w
  | rv_amoor_d => exec_amoor_d | rv_amoor_w => exec_amoor_w
  | rv_amoswap_d => exec_amoswap_d | rv_amoswap_w => exec_amoswap_w
  | rv_amoxor_d => exec_amoxor_d | rv_amoxor_w => exec_amoxor_w | rv_lr_w => exec_lr_w
  | rv_lr_d => exec_lr_d | rv_sc_w => exec_sc_w | rv_sc_d => exec_sc_d
  | rv_fence => exec_fence | rv_fence_i => exec_fence_i | rv_sfence_vm => exec_sfence_vm
  | rv_wfi => exec_wfi | rv_ecall => exec_ecall | rv_ebreak => exec_ebreak
  | rv_csrrw => exec_csrrw | rv_csrrs => exec_csrrs | rv_csrrc => exec_csrrc
  | rv_csrrwi => exec_csrrwi | rv_csrrsi => exec_csrrsi | rv_csrrci => exec_csrrci
  | rv_mret => exec_mret | rv_sret => exec_sret | rv_dret => exec_dret
  | rv_c_add => exec_c_add | rv_c_addi => exec_c_addi | rv_c_addi4spn => exec_c_addi4spn
  | rv_c_addw => exec_c_addw | rv_c_and => exec_c_and | rv_c_andi => exec_c_andi
  | rv_c_beqz => exec_c_beqz | rv_c_bnez => exec_c_bnez | rv_c_ebreak => exec_c_ebreak
  | rv_c_fld => exec_c_fld | rv_c_fldsp => exec_c_fldsp | rv_c_flw => exec_c_flw
  | rv_c_flwsp => exec_c_flwsp | rv_c_fsd => exec_c_fsd | rv_c_fsdsp => exec_c_fsdsp
  | rv_c_fsw => exec_c_fsw | rv_c_fswsp => exec_c_fswsp | rv_c_j => exec_c_j
  | rv_c_jal => exec_c_jal | rv_c_jalr => exec_c_jalr | rv_c_jr => exec_c_jr
  | rv_c_li => exec_c_li | rv_c_lui => exec_c_lui | rv_c_lw => exec_c_lw
  | rv_c_lwsp => exec_c_lwsp | rv_c_mv => exec_c_mv | rv_c_or => exec_c_or
  | rv_c_slli => exec_c_slli | rv_c_srai => exec_c_srai | rv_c_srli => exec_c_srli
  | rv_c_sub => exec_c_sub | rv_c_subw => exec_c_subw | rv_c_sw => exec_c_sw
  | rv_c_swsp => exec_c_swsp | rv_c_xor => exec_c_xor | rv_fadd_d => exec_fadd_d
  | rv_fadd_s => exec_fadd_s | rv_fclass_d => exec_fclass_d | rv_fclass_s => exec_fclass_s
  | rv_fcvt_d_l => exec_fcvt_d_l | rv_fcvt_d_lu => exec_fcvt_d_lu
  | rv_fcvt_d_s => exec_fcvt_d_s | rv_fcvt_d_w => exec_fcvt_d_w
  | rv_fcvt_d_wu => exec_fcvt_d_wu | rv_fcvt_l_d => exec_fcvt_l_d
  | rv_fcvt_l_s => exec_fcvt_l_s | rv_fcvt_lu_d => exec_fcvt_lu_d
  | rv_fcvt_lu_s => exec_fcvt_lu_s | rv_fcvt_s_d => exec_fcvt_s_d
  | rv_fcvt_s_l => exec_fcvt_s_l | rv_fcvt_s_lu => exec_fcvt_s_lu
  | rv_fcvt_s_w => exec_fcvt_s_w | rv_fcvt_s_wu => exec_fcvt_s_wu
  | rv_fcvt_w_d => exec_fcvt_w_d | rv_fcvt_w_s => exec_fcvt_w_s
  | rv_fcvt_wu_d => exec_fcvt_wu_d | rv_fcvt_wu_s => exec_fcvt_wu_s
  | rv_fdiv_d => exec_fdiv_d | rv_fdiv_s => exec_fdiv_s | rv_feq_d => exec_feq_d
  | rv_feq_s => exec_feq_s | rv_fld => exec_fld | rv_fle_d => exec_fle_d
  | rv_fle_s => exec_fle_s | rv_flt_d => exec_flt_d | rv_flt_s => exec_flt_s
  | rv_flw => exec_flw | rv_fmadd_d => exec_fmadd_d | rv_fmadd_s => exec_fmadd_s
  | rv_fmax_d => exec_fmax_d | rv_fmax_s => exec_fmax_s | rv_fmin_d => exec_fmin_d
  | rv_fmin_s => exec_fmin_s | rv_fmsub_d => exec_fmsub_d | rv_fmsub_s => exec_fmsub_s
  | rv_fmul_d => exec_fmul_d | rv_fmul_s => exec_fmul_s | rv_fmv_d_x => exec_fmv_d_x
  | rv_fmv_s_x => exec_fmv_s_x | rv_fmv_x_d => exec_fmv_x_d | rv_fmv_x_s => exec_fmv_x_s
  | rv_fnmadd_d => exec_fnmadd_d | rv_fnmadd_s => exec_fnmadd_s
  | rv_fnmsub_d => exec_fnmsub_d | rv_fnmsub_s => exec_fnmsub_s | rv_fsd => exec_fsd
  | rv_fsgnj_d => exec_fsgnj_d | rv_fsgnj_s => exec_fsgnj_s | rv_fsgnjn_d => exec_fsgnjn_d
  | rv_fsgnjn_s => exec_fsgnjn_s | rv_fsgnjx_d => exec_fsgnjx_d
  | rv_fsgnjx_s => exec_fsgnjx_s | rv_fsqrt_d => exec_fsqrt_d | rv_fsqrt_s => exec_fsqrt_s
  | rv_fsub_d => exec_fsub_d | rv_fsub_s => exec_fsub_s | rv_fsw => exec_fsw
  | illegal_instruction => throw (Trap CAUSE_ILLEGAL_INSTRUCTION None)
  end.

End insns.

(** ** The template (riscv/insn_template.cc): [rv32_NAME] and [rv64_NAME] *)

Definition rv_NAME {W} `{Platform W} (xlen : Z) (f : insn_func) (insn pc : Z) : M W Z :=
  let npc := u64 (sext_xlen xlen (pc + insn_length (insn_match f))) in
  insn_body insn pc npc xlen f.
