(* ===== verification/Safe.v ===== *)
(** The invariant of a running hart and its memory, and rules to prove that code
    keeps it and never aborts: one rule for each thing the instructions do.

    A register of a 32-bit hart holds the sign extension of a 32-bit value; the
    instruction bodies, which compute on 64 bits, rely on it. *)
From Stdlib Require Import Ascii.
From S2P Require Import Prelude Encoding Decode Decoder SoftPrim FpFlags Machine Csr Isa Mmu.
From S2P Require Import Tlb.

(** ** Values of a register *)

Definition srange (n x : Z) : Prop := - 2 ^ (n - 1) <= x < 2 ^ (n - 1).

(** [x], converted to a register, is a sign-extended [xl]-bit value. *)
Definition canonical (xl x : Z) : Prop := exists s, srange xl s /\ u64 x = u64 s.

Section canonical.
Context (xl : Z).
Hypothesis Hxl : xl = 32 \/ xl = 64.

Lemma canonical_srange x : srange xl x -> canonical xl x.
Proof. intros. by exists x. Qed.

Lemma canonical_s32 x : srange 32 x -> canonical xl x.
Proof. unfold srange. intros. apply canonical_srange. unfold srange. destruct Hxl as [-> | ->]; lia. Qed.

Lemma canonical_64 x : xl = 64 -> canonical xl x.
Proof.
  intros E. exists (s64 x). rewrite wrap_sext by lia. split; [|done].
  rewrite E. by apply sext_range.
Qed.

Lemma canonical_sext x : canonical xl (sext_xlen xl x).
Proof.
  apply canonical_srange. rewrite sext_xlen_spec by lia. apply sext_range. lia.
Qed.

Lemma canonical_sext32 x : canonical xl (sext32 x).
Proof. apply canonical_s32, sext_range. lia. Qed.

Lemma canonical_u64 x : canonical xl x -> canonical xl (u64 x).
Proof. intros (s & Hs & E). exists s. by rewrite wrap_idemp by lia. Qed.

Lemma canonical_b2z b : canonical xl (b2z b).
Proof. apply canonical_s32. destruct b; cbn; unfold srange; lia. Qed.

Lemma srange_shr n x : 0 < n -> srange n x <-> x .>> (n - 1) = 0 \/ x .>> (n - 1) = -1.
Proof.
  intros Hn. unfold srange. rewrite shr_div by lia. pose proof (pow2_pos (n - 1) ltac:(lia)).
  set (q := 2 ^ (n - 1)) in *. clearbody q. split.
  - intros Hr. destruct (Z.lt_ge_cases x 0).
    + right. symmetry. apply (Z.div_unique _ _ _ (x + q)); lia.
    + left. apply Z.div_small. lia.
  - intros [E|E]; Z.div_mod_to_equations; nia.
Qed.

Lemma wrap_land w x y : 0 <= w -> wrap w (x .& y) = wrap w x .& wrap w y.
Proof.
  intros Hw. apply Z.bits_inj'. intros i Hi.
  rewrite wrap_testbit, !Z.land_spec, !wrap_testbit by done. by destruct (i <? w), (Z.testbit x i).
Qed.
Lemma wrap_lor w x y : 0 <= w -> wrap w (x .| y) = wrap w x .| wrap w y.
Proof.
  intros Hw. apply Z.bits_inj'. intros i Hi.
  rewrite wrap_testbit, !Z.lor_spec, !wrap_testbit by done. by destruct (i <? w), (Z.testbit x i).
Qed.
Lemma wrap_lxor w x y : 0 <= w -> wrap w (x .^ y) = wrap w x .^ wrap w y.
Proof.
  intros Hw. apply Z.bits_inj'. intros i Hi.
  rewrite wrap_testbit, !Z.lxor_spec, !wrap_testbit by done. by destruct (i <? w), (Z.testbit x i).
Qed.

(** The bitwise operations on 64 bits are the operations on [xl] bits. *)
Lemma canonical_land x y : canonical xl x -> canonical xl y -> canonical xl (x .& y).
Proof.
  intros (s & Hs & Es) (t & Ht & Et). exists (s .& t).
  split; [|by rewrite !wrap_land, Es, Et by lia].
  rewrite srange_shr in Hs, Ht |- * by lia. rewrite Z.shiftr_land.
  destruct Hs as [-> | ->], Ht as [-> | ->]; auto.
Qed.
Lemma canonical_lor x y : canonical xl x -> canonical xl y -> canonical xl (x .| y).
Proof.
  intros (s & Hs & Es) (t & Ht & Et). exists (s .| t).
  split; [|by rewrite !wrap_lor, Es, Et by lia].
  rewrite srange_shr in Hs, Ht |- * by lia. rewrite Z.shiftr_lor.
  destruct Hs as [-> | ->], Ht as [-> | ->]; auto.
Qed.
Lemma canonical_lxor x y : canonical xl x -> canonical xl y -> canonical xl (x .^ y).
Proof.
  intros (s & Hs & Es) (t & Ht & Et). exists (s .^ t).
  split; [|by rewrite !wrap_lxor, Es, Et by lia].
  rewrite srange_shr in Hs, Ht |- * by lia. rewrite Z.shiftr_lxor.
  destruct Hs as [-> | ->], Ht as [-> | ->]; auto.
Qed.

(** A loaded value. *)
Lemma canonical_typed (signed : bool) len v :
  len_ok len -> in_range (8 * len) v -> (if signed then 8 * len <= xl else 8 * len < xl) ->
  canonical xl (typed signed len v).
Proof.
  intros Hl Hv Hb. unfold typed. destruct signed.
  - apply canonical_u64, canonical_srange.
    pose proof (sext_range (8 * len) v ltac:(unfold len_ok in Hl; lia)) as Hr.
    pose proof (pow2_le (8 * len - 1) (xl - 1) ltac:(unfold len_ok in Hl; lia)). unfold srange. lia.
  - apply canonical_srange. unfold in_range, srange in *.
    pose proof (pow2_le (8 * len) (xl - 1) ltac:(unfold len_ok in Hl; lia)). lia.
Qed.
End canonical.

(** ** The invariant *)

(** [x0] is zero, and every register canonical. *)
Record xregs_ok (xl : Z) (r : list Z) : Prop := {
  xr_length : length r = 32%nat;
  xr_zero : r !! 0%nat = Some 0;
  xr_values : Forall (fun v => in_range 64 v /\ canonical xl v) r
}.

Record state_ok (p : processor_t) (s : state_t) : Prop := {
  st_csrs : wf_csrs p s;
  st_xpr : xregs_ok (max_xlen p) (XPR s);
  st_fpr : length (FPR s) = 32%nat /\ Forall (in_range 64) (FPR s);
  st_dcsr : 0 <= dcsr_prv (dcsr s) <= PRV_M
}.

(** What [fetch] makes of an instruction of at most 32 bits, and an entry of the
    instruction cache: a longer instruction is illegal.  The tag is an even address or
    the invalid one, and so none of the sentinels of the program counter. *)
Definition insn_ok (insn : Z) : Prop := srange 32 (s64 insn).
Definition fetch_ok (f : insn_fetch_t) : Prop :=
  insn_ok (if_insn f) \/ if_func f = illegal_instruction.
Definition entry_ok (e : icache_entry_t) : Prop :=
  fetch_ok (ic_data e) /\ (ic_tag e mod 2 = 0 \/ ic_tag e = invalid_tag).
Definition icache_ok (l : list icache_entry_t) : Prop :=
  length l = Z.to_nat ICACHE_ENTRIES /\ Forall entry_ok l.

Lemma icache_flush l : icache_ok l ->
  icache_ok ((fun e => IcacheEntry invalid_tag (ic_data e)) <$> l).
Proof.
  intros [HL HF]. split; [by rewrite length_fmap|]. apply Forall_fmap, (Forall_impl _ _ _ HF).
  intros e [He _]. split; [exact He|by right].
Qed.

Lemma icache_empty : icache_ok (icache new_mmu).
Proof.
  split; [done|]. apply Forall_fmap, Forall_replicate. split; [by right|by right].
Qed.

Section safe.
Context {W : Type} `{Platform W}.
Implicit Types m : machine W.
Context (xl : Z).

Record hart_ok m : Prop := {
  ok_proc : wf_proc (proc m);
  ok_xlen : max_xlen (proc m) = xl;
  ok_state : state_ok (proc m) (state m);
  ok_fp : flags_ok (fp m);
  ok_mem : bytes_only m;
  ok_decoder : wf_decoder base_instructions (decode_state (proc m));
  ok_icache : icache_ok (icache (mmu m))
}.

Lemma ok_xl m : hart_ok m -> xl = 32 \/ xl = 64.
Proof. intros [[Hx _ _ _ _] <- _ _ _]. done. Qed.

(** Code that keeps the invariant, does not abort, and if it returns a value
    returns one that satisfies [P]. *)
Definition safe {A} (P : A -> Prop) (c : M W A) : Prop :=
  forall m, hart_ok m ->
  match c m with
  | (inl a, m') => P a /\ hart_ok m'
  | (inr e, m') => e <> Abort /\ hart_ok m'
  end.

Lemma safe_bind {A B} (P : A -> Prop) (Q : B -> Prop) (c : M W A) (k : A -> M W B) :
  safe P c -> (forall a, P a -> safe Q (k a)) -> safe Q (c ≫= k).
Proof.
  intros Hc Hk m Hm. specialize (Hc m Hm). unfold mbind, M_bind.
  destruct (c m) as [[a|e] m1]; [|done]. destruct Hc as [Ha Hm1]. by apply Hk.
Qed.

Lemma safe_weaken {A} (P Q : A -> Prop) (c : M W A) :
  safe P c -> (forall a, P a -> Q a) -> safe Q c.
Proof.
  intros Hc HPQ m Hm. specialize (Hc m Hm).
  destruct (c m) as [[a|e] m1]; [|done]. destruct Hc. auto.
Qed.

Lemma safe_ret {A} (P : A -> Prop) a : P a -> safe P (mret a).
Proof. by intros Ha m Hm. Qed.

Lemma safe_throw {A} (P : A -> Prop) e : e <> Abort -> safe (A := A) P (throw e).
Proof. by intros He m Hm. Qed.

Lemma safe_gets {A} (P : A -> Prop) (f : machine W -> A) :
  (forall m, hart_ok m -> P (f m)) -> safe P (gets f).
Proof. intros Hf m Hm. split; auto. Qed.

Lemma safe_modify (f : machine W -> machine W) :
  (forall m, hart_ok m -> hart_ok (f m)) -> safe (fun _ => True) (modify f).
Proof. intros Hf m Hm. split; auto. Qed.

Lemma safe_modify_state (f : state_t -> state_t) :
  (forall p s, wf_proc p -> state_ok p s -> state_ok p (f s)) ->
  safe (fun _ => True) (modify_state f).
Proof. intros Hf. apply safe_modify. intros m []. split; try done. cbn. auto. Qed.

Lemma safe_catch {A} (P : A -> Prop) (c : M W A) (h : exn -> M W A) :
  safe P c -> (forall e, e <> Abort -> safe P (h e)) -> safe P (catch c h).
Proof.
  intros Hc Hh m Hm. specialize (Hc m Hm). unfold catch.
  destruct (c m) as [[a|e] m1]; [done|]. destruct Hc. by apply Hh.
Qed.

Lemma safe_require b : safe (fun _ => b = true) (require b).
Proof. destruct b; [by apply safe_ret|by apply safe_throw]. Qed.

Lemma safe_if {A} (P : A -> Prop) (b : bool) (c d : M W A) :
  (b = true -> safe P c) -> (b = false -> safe P d) -> safe P (if b then c else d).
Proof. destruct b; auto. Qed.

(** Changes to what the invariant does not mention. *)
Lemma hart_ok_mmu m u : icache_ok (icache u) -> hart_ok m -> hart_ok (m <| mmu := u |>).
Proof. by intros ? []. Qed.
Lemma hart_ok_world m w : hart_ok m -> hart_ok (m <| world := w |>).
Proof. by intros []. Qed.
Lemma hart_ok_mem m mm : (forall a, in_range 8 (mem_byte mm a)) -> hart_ok m -> hart_ok (m <| mem := mm |>).
Proof. by intros ? []. Qed.
Lemma hart_ok_state m s : state_ok (proc m) s -> hart_ok m -> hart_ok (m <| state := s |>).
Proof. by intros ? []. Qed.

(** ** Registers *)

Lemma Forall_default {A} (P : A -> Prop) l i d : Forall P l -> P d -> P (default d (l !! i)).
Proof.
  intros Hl Hd. destruct (l !! i) as [v|] eqn:E; [|done]. cbn. by apply (Forall_lookup_1 P l i v).
Qed.

Lemma xregs_write p reg v (r : list Z) :
  0 <= reg -> canonical p v -> xregs_ok p r -> xregs_ok p (regfile_write true reg (u64 v) r).
Proof.
  intros Hr Hv [HL H0 HF]. unfold regfile_write. change regfile with (list Z) in *. cbn [negb orb].
  destruct (Z.eqb_spec reg 0); cbn [negb]; [done|]. split.
  - by rewrite length_insert.
  - by rewrite list_lookup_insert_ne by lia.
  - apply Forall_insert; [done|]. split; [apply wrap_range; lia|by apply canonical_u64].
Qed.

Lemma safe_WRITE_REG reg v : 0 <= reg -> canonical xl v ->
  safe (fun _ => True) (modify_state (fun s => s <| XPR := regfile_write true reg (u64 v) (XPR s) |>)).
Proof.
  intros Hr Hv m Hm. split; [done|]. destruct Hm as [Hp <- [Hs Hx Hf Hd] Hfl Hmm].
  split; try done. split; [|by apply xregs_write|done|done]. destruct Hs. by csr_leaf.
Qed.

Lemma state_ok_xpr p s r : xregs_ok (max_xlen p) r -> state_ok p s -> state_ok p (s <| XPR := r |>).
Proof. intros Hr [Hs Hx Hf Hd]. split; [|done..]. destruct Hs. by csr_leaf. Qed.

Lemma dirty_fp_ok p s : wf_proc p -> state_ok p s -> state_ok p (dirty_fp_state (xlen p) s).
Proof. intros Hp [Hs Hx Hf Hd]. split; [by apply dirty_fp_wf|done..]. Qed.

Lemma fregs_write reg v (r : list Z) :
  length r = 32%nat /\ Forall (in_range 64) r ->
  length (regfile_write false reg (u64 v) r) = 32%nat
  /\ Forall (in_range 64) (regfile_write false reg (u64 v) r).
Proof.
  intros [HL HF]. unfold regfile_write. change regfile with (list Z). cbn [negb orb].
  split; [by rewrite length_insert|]. apply Forall_insert; [done|apply wrap_range; lia].
Qed.

Lemma safe_read_xreg reg : safe (canonical xl) (gets (fun m => regfile_read (XPR (state m)) reg)).
Proof.
  intros m Hm. split; [|done]. pose proof (ok_xl m Hm) as Hxl. destruct Hm as [_ <- [_ [_ _ HF] _ _] _ _].
  unfold regfile_read. apply (Forall_default (canonical _)).
  - apply (Forall_impl _ _ _ HF). by intros ? [].
  - apply canonical_s32; [done|]. unfold srange. lia.
Qed.

(** ** Control and status registers *)

(** What a write leaves alone. *)
Record csr_frame m m' : Prop := {
  cf_xpr : XPR (state m') = XPR (state m);
  cf_fpr : FPR (state m') = FPR (state m);
  cf_dcsr : 0 <= dcsr_prv (dcsr (state m)) <= PRV_M -> 0 <= dcsr_prv (dcsr (state m')) <= PRV_M;
  cf_fp : fp m' = fp m;
  cf_mem : mem m' = mem m;
  cf_xlen : max_xlen (proc m') = max_xlen (proc m);
  cf_decoder : decode_state (proc m') = decode_state (proc m);
  cf_icache : icache_ok (icache (mmu m)) -> icache_ok (icache (mmu m'))
}.

Lemma dcsr_prv_range val d : 0 <= dcsr_prv (set_dcsr val d) <= PRV_M.
Proof.
  unfold set_dcsr, PRV_M. cbn [dcsr_prv]. unfold get_field. change (lowbit DCSR_PRV) with (2 ^ 0).
  change DCSR_PRV with (2 ^ 2 - 1). rewrite land_mask by lia. zdm.
Qed.

Lemma set_csr_state_frame x which val s :
  let s' := set_csr_state x which val s in
  XPR s' = XPR s /\ FPR s' = FPR s
  /\ (0 <= dcsr_prv (dcsr s) <= PRV_M -> 0 <= dcsr_prv (dcsr s') <= PRV_M).
Proof.
  cbv zeta. unfold set_csr_state.
  repeat case_match; done || (split; [done|]; split; [done|]; intros _; apply dcsr_prv_range).
Qed.

(** The instruction cache is left alone, or flushed. *)
Ltac frame_leaf := split; done || by intros; apply icache_flush.

Lemma set_csr_direct_frame which val m m' :
  set_csr_direct which val m = (inl tt, m') -> csr_frame m m'.
Proof.
  unfold set_csr_direct.
  destruct (which =? CSR_MSTATUS).
  { intros [= <-]. unfold set_mstatus. destruct (z2b _); frame_leaf. }
  destruct (which =? CSR_SPTBR); [case_match; [done|intros [= <-]; frame_leaf]|].
  destruct (which =? CSR_MISA); [intros [= <-]; by split|].
  destruct (which =? CSR_TDATA1).
  { intros [= <-]. unfold set_tdata1. case_match; frame_leaf. }
  intros [= <-].
  destruct (set_csr_state_frame (xlen (proc m)) which (zext_xlen (xlen (proc m)) val) (state m))
    as (? & ? & ?). frame_leaf.
Qed.

Lemma set_csr_frame which val m m' : set_csr which val m = (inl tt, m') -> csr_frame m m'.
Proof. unfold set_csr. repeat case_match; by apply set_csr_direct_frame. Qed.

Lemma hart_ok_frame m m' : hart_ok m -> csr_frame m m' -> wf m' -> hart_ok m'.
Proof.
  intros [Hp Hx [Hs Hr Hf Hd] Hfl Hm HD HI] [E1 E2 E3 E4 E5 E6 E7 E8] [Hp' Hs'].
  split; [done|congruence| |by rewrite E4|unfold bytes_only; by rewrite E5|by rewrite E7|auto].
  split; [done|by rewrite E1, E6|by rewrite E2|auto].
Qed.

Lemma hart_ok_wf m : hart_ok m -> wf m.
Proof. by intros [Hp _ [Hs _ _ _] _ _]. Qed.

Lemma safe_set_csr which val : safe (fun _ => True) (set_csr which val).
Proof.
  intros m Hm. destruct (set_csr_wf m which val (hart_ok_wf m Hm)) as (m' & E & Hw). rewrite E.
  split; [done|]. by apply (hart_ok_frame m); [|apply (set_csr_frame which val)|].
Qed.

Lemma safe_set_privilege p : 0 <= p <= PRV_M -> safe (fun _ => True) (set_privilege p).
Proof.
  intros Hr m Hm. destruct (set_privilege_wf m p (hart_ok_wf m Hm) Hr) as (m' & E & Hw). rewrite E.
  split; [done|]. apply (hart_ok_frame m); [done| |done]. revert E. unfold set_privilege.
  rewrite (proj2 (Z.ltb_ge _ _)) by lia. intros [= <-]. frame_leaf.
Qed.

Lemma safe_get_csr which : safe (fun _ => True) (get_csr which).
Proof. intros m Hm. unfold get_csr. by destruct (csr_value which m). Qed.

Lemma safe_validate_csr (P : Z -> Prop) which write (k : Z -> M W Z) :
  P PC_SERIALIZE_BEFORE -> (forall c, safe P (k c)) -> safe P (validate_csr which write k).
Proof.
  intros HP Hk. unfold validate_csr. eapply safe_bind; [by apply (safe_gets (fun _ => True))|].
  intros s _. apply safe_if; intros _; [by apply safe_ret|].
  eapply safe_bind; [|intros _ _; apply safe_if; intros _; [by apply safe_throw|apply Hk]].
  apply safe_modify_state. intros p s0 Hp [Hs Hx Hf Hd]. split; [|done..]. destruct Hs. by csr_leaf.
Qed.

(** ** Memory accesses *)

(** What is relied on of the devices: they write no register of the hart but [mip]
    ([processor_t::store]), and give as many bytes as they are asked for. *)
Hypothesis mmio_store_mip : forall a bs s w s' w',
  mmio_store a bs s w = Some (s', w') -> s' = s <| mip := mip s' |>.
Hypothesis mmio_load_bytes : forall a len w bs, 0 <= len ->
  mmio_load a len w = Some bs -> Z.of_nat (length bs) = len /\ Forall (in_range 8) bs.

Lemma write_bytes_range mm a bs :
  (forall b, in_range 8 (mem_byte mm b)) -> Forall (in_range 8) bs ->
  forall b, in_range 8 (mem_byte (write_bytes mm a bs) b).
Proof.
  intros Hm Hb. revert a. induction Hb as [|v bs Hv _ IH]; intros a b; [apply Hm|].
  cbn [write_bytes]. unfold mem_byte. destruct (decide (a = b)) as [->|].
  - by rewrite lookup_insert_eq.
  - rewrite lookup_insert_ne by done. apply IH.
Qed.

Lemma bytes_of_range n v : Forall (in_range 8) (bytes_of n v).
Proof. revert v. induction n; intros v; constructor; [apply wrap_range; lia|done]. Qed.

Lemma length_bytes_of n v : length (bytes_of n v) = n.
Proof. revert v. induction n as [|n IH]; intros v; [done|]. cbn. by rewrite IH. Qed.

Lemma hart_ok_write m n a v : hart_ok m -> hart_ok (mem_write n a v m).
Proof.
  intros Hm. apply hart_ok_mem; [|done]. apply write_bytes_range; [apply Hm|apply bytes_of_range].
Qed.

Lemma read_bytes_range m a n : hart_ok m ->
  length (read_bytes (mem m) a n) = n /\ Forall (in_range 8) (read_bytes (mem m) a n).
Proof.
  intros Hm. revert a. induction n as [|n IH]; intros a; [done|]. destruct (IH (a + 1)) as [HL HF].
  cbn. rewrite HL. split; [done|]. constructor; [apply Hm|done].
Qed.

Lemma walk_loop_ok n sh bits size su pum mxr type addr base m :
  hart_ok m -> hart_ok (snd (walk_loop n sh bits size su pum mxr type addr base m)).
Proof.
  intros Hm. revert sh base. induction n as [|n IH]; intros sh base; [done|]. cbn [walk_loop].
  cbv zeta. repeat case_match; cbn [snd]; first [done|apply IH|by apply hart_ok_write].
Qed.

Lemma safe_translate addr type : safe (fun _ => True) (translate addr type).
Proof.
  intros m Hm. unfold translate. destruct (has_proc (mmu m)); [|done]. cbn [negb].
  destruct (Z.eqb_spec (access_mode type (state m)) PRV_M) as [E|E]; [done|].
  unfold mbind, M_bind, walk. destruct (vm_geometry _) as [[[l b] z]|] eqn:Eg.
  - destruct (negb _ && negb _); [done|]. destruct (walk_loop _ _ _ _ _ _ _ _ _ _ m) as [r m1] eqn:El.
    split; [done|]. pose proof (walk_loop_ok (Z.to_nat l) ((l - 1) * b) b z) as Hl.
    match type of El with walk_loop _ _ _ _ ?su ?pum ?mxr _ _ ?base _ = _ =>
      specialize (Hl su pum mxr type addr base m Hm) end. by rewrite El in Hl.
  - exfalso. destruct Hm as [[Hx _ _ _ _] _ [Hs _ _ _] _ _]. pose proof (wf_vm _ _ Hs) as Hv.
    revert E Hv Eg. unfold access_mode, validate_vm, vm_geometry. cbv zeta.
    generalize (get_field (mstatus (state m)) MSTATUS_VM) as vm. intros vm.
    destruct Hx as [-> | ->], (vm =? VM_MBARE), (vm =? VM_SV32), (vm =? VM_SV39), (vm =? VM_SV48);
      cbn; done.
Qed.

Lemma safe_tlb_refill v p t : safe (fun _ => True) (tlb_refill v p t).
Proof.
  apply safe_modify. intros m Hm. apply hart_ok_mmu; [|done].
  destruct (refill_frame (mmu m) v p t) as (_ & E & _). rewrite E. apply Hm.
Qed.

Lemma safe_trace_or_refill a p len t : safe (fun _ => True) (trace_or_refill a p len t).
Proof.
  intros m Hm. unfold trace_or_refill. destruct (interested p t m).
  - split; [done|]. by apply hart_ok_world.
  - by apply (safe_tlb_refill a p t).
Qed.

Lemma safe_check_trigger op a d : safe (fun _ => True) (check_trigger op a d).
Proof.
  unfold check_trigger. eapply safe_bind; [by apply (safe_gets (fun _ => True))|].
  intros [t|] _; [by apply safe_ret|].
  eapply (safe_bind (fun _ => True)).
  - intros m Hm. unfold trigger_exception. cbv zeta.
    destruct (negb (has_proc _)); [done|]. destruct (_ =? -1); [done|].
    by destruct (negb (mc_timing _)).
  - intros t _. eapply safe_bind; [apply safe_modify; intros m Hm; apply hart_ok_mmu; [apply Hm|done]|].
    intros _ _. destruct t; [by apply safe_throw|by apply safe_ret].
Qed.

Lemma safe_reg_from_bytes len bs : len_ok len -> safe (fun _ => True) (reg_from_bytes len bs).
Proof. intros Hl m Hm. by rewrite reg_from_bytes_ok. Qed.

(** A loaded value: [len] bytes, extended. *)
Definition loaded (signed : bool) (len v : Z) : Prop :=
  exists u, in_range (8 * len) u /\ v = typed signed len u.

Definition bytes_len (len : Z) (bs : list Z) : Prop :=
  Z.of_nat (length bs) = len /\ Forall (in_range 8) bs.

Lemma bytes_loaded signed len bs : bytes_len len bs -> loaded signed len (typed signed len (bytes_to bs)).
Proof. intros [<- HF]. exists (bytes_to bs). split; [by apply bytes_to_range|done]. Qed.

Lemma read_loaded m signed len a : hart_ok m -> len_ok len ->
  loaded signed len (typed signed len (mem_read (Z.to_nat len) a m)).
Proof.
  intros Hm Hl. apply bytes_loaded. destruct (read_bytes_range m a (Z.to_nat len) Hm). split; [|done].
  unfold len_ok in Hl. lia.
Qed.

Lemma safe_load_slow_path addr len : len_ok len -> safe (bytes_len len) (load_slow_path addr len).
Proof.
  intros Hl. unfold load_slow_path. eapply safe_bind; [apply safe_translate|intros paddr _].
  eapply safe_bind; [by apply (safe_gets (fun _ => True))|intros is_mem _].
  eapply (safe_bind (bytes_len len)).
  - apply safe_if; intros _.
    + eapply (safe_bind (bytes_len len)).
      * apply safe_gets. intros m Hm. destruct (read_bytes_range m paddr (Z.to_nat len) Hm).
        split; [|done]. unfold len_ok in Hl. lia.
      * intros bs Hbs. eapply safe_bind; [apply safe_trace_or_refill|intros _ _]. by apply safe_ret.
    + eapply (safe_bind (fun r => forall bs, r = Some bs -> bytes_len len bs)).
      * apply safe_gets. intros m Hm bs Hbs. apply (mmio_load_bytes paddr len (world m)); [unfold len_ok in Hl; lia|done].
      * intros [bs|] Hbs; [apply safe_ret; auto|by apply safe_throw].
  - intros bs Hbs. eapply safe_bind; [by apply (safe_gets (fun _ => True))|].
    intros [t|] _; [by apply safe_ret|].
    eapply safe_bind; [by apply safe_reg_from_bytes|intros d _].
    eapply safe_bind; [apply safe_check_trigger|intros _ _]. by apply safe_ret.
Qed.

Lemma safe_load signed len addr : len_ok len -> safe (loaded signed len) (load signed len addr).
Proof.
  intros Hl. unfold load. apply safe_if; intros _; [by apply safe_throw|].
  assert (safe (loaded signed len)
            (gets (fun m => typed signed len (mem_read (Z.to_nat len) (tlb_paddr addr m) m)))) as Hhit
    by (apply safe_gets; intros; by apply read_loaded).
  eapply safe_bind; [by apply (safe_gets (fun _ => True))|intros tag _].
  apply safe_if; intros _; [done|]. apply safe_if; intros _.
  - eapply safe_bind; [exact Hhit|intros d Hd].
    eapply safe_bind; [apply safe_check_trigger|intros _ _]. by apply safe_ret.
  - eapply safe_bind; [by apply safe_load_slow_path|intros bs Hbs]. apply safe_ret.
    by apply bytes_loaded.
Qed.

Lemma safe_store_slow_path addr len bs :
  len_ok len -> Forall (in_range 8) bs -> safe (fun _ => True) (store_slow_path addr len bs).
Proof.
  intros Hl Hbs. unfold store_slow_path. eapply safe_bind; [apply safe_translate|intros paddr _].
  eapply safe_bind; [by apply (safe_gets (fun _ => True))|intros mt _].
  eapply (safe_bind (fun _ => True)).
  - destruct mt; [by apply safe_ret|].
    eapply safe_bind; [by apply safe_reg_from_bytes|intros d _]. apply safe_check_trigger.
  - intros _ _. eapply safe_bind; [by apply (safe_gets (fun _ => True))|intros is_mem _].
    apply safe_if; intros _.
    + eapply safe_bind; [|intros _ _; apply safe_trace_or_refill]. apply safe_modify. intros m Hm.
      apply hart_ok_mem; [|done]. apply write_bytes_range; [apply Hm|done].
    + intros m Hm. destruct (mmio_store _ _ _ _) as [[s w]|] eqn:E; [|done].
      split; [done|]. apply mmio_store_mip in E. apply hart_ok_world. apply hart_ok_state; [|done].
      destruct Hm as [_ _ [Hs Hx Hf Hd] _ _]. rewrite E. split; [|done..]. destruct Hs. by csr_leaf.
Qed.

Lemma safe_store len addr v : len_ok len -> safe (fun _ => True) (store len addr v).
Proof.
  intros Hl. unfold store. apply safe_if; intros _; [by apply safe_throw|].
  assert (safe (fun _ => True) (modify (fun m =>
            mem_write (Z.to_nat len) (tlb_paddr addr m) (wrap (8 * len) v) m))) as Hhit
    by (apply safe_modify; intros; by apply hart_ok_write).
  eapply safe_bind; [by apply (safe_gets (fun _ => True))|intros tag _].
  apply safe_if; intros _; [done|]. apply safe_if; intros _.
  - eapply safe_bind; [apply safe_check_trigger|intros _ _]. done.
  - apply safe_store_slow_path; [done|apply bytes_of_range].
Qed.

Lemma safe_amo len addr f : len_ok len -> safe (loaded false len) (amo len addr f).
Proof.
  intros Hl. unfold amo. apply safe_if; intros _; [by apply safe_throw|]. apply safe_catch.
  - eapply safe_bind; [by apply safe_load|intros v Hv].
    eapply safe_bind; [by apply safe_store|intros _ _]. by apply safe_ret.
  - intros e He. destruct e; by apply safe_throw.
Qed.
End safe.
