(* ===== verification/InsnProps.v ===== *)
(** Every instruction keeps the invariant of the hart, aborts never, and goes to an
    even address or to a serialization point. *)
From Stdlib Require Import Ascii.
From S2P Require Import Prelude Encoding Decode Decoder Mulhi SoftPrim SoftF32 SoftF64.
From S2P Require Import SoftDiv64 SoftCmp32 SoftCmp64 SoftConv SoftToInt SoftFma32 SoftFma64.
From S2P Require Import SoftSqrt FpFlags Machine Csr Isa Mmu Tlb Safe Insns.

(** ** Operands *)

Lemma insn_x_nonneg b lo len : 0 <= len < 64 -> 0 <= insn_x b lo len.
Proof.
  intros Hl. unfold insn_x. apply Z.land_nonneg. right. apply wrap_range. lia.
Qed.

Lemma insn_x_bound b lo len : 0 <= lo -> 0 < len < 64 -> in_range len (insn_x b lo len).
Proof. intros. rewrite insn_x_spec by lia. apply Z.mod_pos_bound, pow2_pos. lia. Qed.

Lemma i_imm_range insn : insn_ok insn -> srange 32 (i_imm insn).
Proof. unfold insn_ok, srange, i_imm. intros. rewrite shr_div by lia. zdm. Qed.
Lemma u_imm_range insn : insn_ok insn -> srange 32 (u_imm insn).
Proof. unfold insn_ok, srange, u_imm. intros. rewrite shr_div, shl_mul by lia. zdm. Qed.
Lemma rvc_imm_range insn : srange 6 (rvc_imm insn).
Proof.
  unfold rvc_imm. pose proof (insn_x_bound insn 2 5 ltac:(lia) ltac:(lia)) as Hx.
  rewrite insn_xs_spec by lia. pose proof (sext_range 1 (insn / 2 ^ 12) ltac:(lia)) as Hs.
  set (q := sext 1 _) in *. unfold in_range, srange in *. rewrite shl_mul by lia.
  rewrite (sext_eq_wrap 64 _ (insn_x insn 2 5 + q * 2 ^ 5)).
  - rewrite sext_small by lia. lia.
  - lia.
  - by rewrite <- wrap_add_idemp_r, wrap_mul_idemp_l, wrap_add_idemp_r.
Qed.

Lemma even_s64 x : x mod 2 = 0 -> s64 x mod 2 = 0.
Proof. unfold sext. intros. zdm. Qed.

Ltac even_imm := apply even_s64; rewrite !shl_mul by lia; zdm.
Lemma sb_imm_even insn : sb_imm insn mod 2 = 0.
Proof. unfold sb_imm. even_imm. Qed.
Lemma uj_imm_even insn : uj_imm insn mod 2 = 0.
Proof. unfold uj_imm. even_imm. Qed.
Lemma rvc_j_imm_even insn : rvc_j_imm insn mod 2 = 0.
Proof. unfold rvc_j_imm. even_imm. Qed.
Lemma rvc_b_imm_even insn : rvc_b_imm insn mod 2 = 0.
Proof. unfold rvc_b_imm. even_imm. Qed.

(** ** Rules for the macros *)

Section macros.
Context {W : Type} `{Platform W}.
Context (insn pc npc xl : Z).
Hypothesis Hxl : xl = 32 \/ xl = 64.

Lemma safe_READ_REG reg : safe (W := W) xl (canonical xl) (READ_REG reg).
Proof. apply safe_read_xreg. Qed.
Lemma safe_READ_FREG reg : safe (W := W) xl (fun _ => True) (READ_FREG reg).
Proof. by apply safe_gets. Qed.
Lemma safe_WRITE_RD v : canonical xl v -> safe (W := W) xl (fun _ => True) (WRITE_RD insn v).
Proof. apply safe_WRITE_REG. apply insn_x_nonneg. lia. Qed.
Lemma safe_WRITE_RVC_RS1S v : canonical xl v -> safe (W := W) xl (fun _ => True) (WRITE_RVC_RS1S insn v).
Proof.
  apply safe_WRITE_REG. unfold rvc_rs1s. pose proof (insn_x_nonneg insn 7 3 ltac:(lia)). lia.
Qed.
Lemma safe_WRITE_RVC_RS2S v : canonical xl v -> safe (W := W) xl (fun _ => True) (WRITE_RVC_RS2S insn v).
Proof.
  apply safe_WRITE_REG. unfold rvc_rs2s. pose proof (insn_x_nonneg insn 2 3 ltac:(lia)). lia.
Qed.
Lemma safe_WRITE_RA v : canonical xl v -> safe (W := W) xl (fun _ => True) (WRITE_REG X_RA v).
Proof. apply safe_WRITE_REG. by vm_compute. Qed.
Lemma safe_WRITE_SP v : canonical xl v -> safe (W := W) xl (fun _ => True) (WRITE_REG X_SP v).
Proof. apply safe_WRITE_REG. by vm_compute. Qed.

Lemma safe_DO_WRITE_FREG reg v : safe (W := W) xl (fun _ => True) (DO_WRITE_FREG xl reg v).
Proof.
  intros m Hm. split; [done|]. destruct Hm as [Hp Hx [Hs Hr Hf Hd] Hfl Hmm].
  assert (xl = xlen (proc m)) as -> by (rewrite <- Hx; by destruct Hp).
  split; try done. apply dirty_fp_ok; [done|]. split; [destruct Hs; by csr_leaf|done| |done].
  by apply fregs_write.
Qed.

Lemma safe_require_privilege p : safe (W := W) xl (fun _ => True) (require_privilege p).
Proof.
  eapply safe_bind; [by apply (safe_gets xl (fun _ => True))|intros s _].
  by eapply safe_weaken; [apply safe_require|].
Qed.
Lemma safe_require_rv64 : safe (W := W) xl (fun _ => xl = 64) (require_rv64 xl).
Proof. eapply safe_weaken; [apply safe_require|]. by intros _ E%Z.eqb_eq. Qed.
Lemma safe_require_extension c : safe (W := W) xl (fun _ => True) (require_extension c).
Proof.
  eapply safe_bind; [by apply (safe_gets xl (fun _ => True))|intros p _].
  by eapply safe_weaken; [apply safe_require|].
Qed.
Lemma safe_require_fp : safe (W := W) xl (fun _ => True) require_fp.
Proof.
  eapply safe_bind; [by apply (safe_gets xl (fun _ => True))|intros s _].
  by eapply safe_weaken; [apply safe_require|].
Qed.

Lemma safe_RM : safe (W := W) xl (fun _ => True) (RM insn).
Proof.
  eapply safe_bind; [by apply (safe_gets xl (fun _ => True))|intros s _]. cbv zeta.
  apply safe_if; intros _; [by apply safe_throw|by apply safe_ret].
Qed.
Lemma safe_set_roundingMode r : safe (W := W) xl (fun _ => True) (set_roundingMode r).
Proof. apply safe_modify. by intros m []. Qed.
Lemma safe_set_fp_exceptions : safe (W := W) xl (fun _ => True) (set_fp_exceptions xl).
Proof.
  apply safe_modify. intros m [Hp Hx Hs Hfl Hmm]. cbv zeta.
  assert (xl = xlen (proc m)) as -> by (rewrite <- Hx; by destruct Hp).
  destruct (z2b (softfloat_exceptionFlags (fp m))); split; try done. cbn.
  destruct (dirty_fp_ok (proc m) (state m) Hp Hs) as [Hc Hr Hf Hd]. split; [|done..].
  apply fflags_wf; [|done]. apply lor_range; [lia| |done]. by destruct Hc.
Qed.
Lemma safe_fp_op {A} (c : FP A) : keeps_flags c -> safe (W := W) xl (fun _ => True) (fp_op c).
Proof.
  intros Hc m Hm. unfold fp_op. pose proof (Hc (fp m)) as Hf. destruct (c (fp m)) as [a s].
  split; [done|]. destruct Hm. split; try done. by apply Hf.
Qed.

(** Where an instruction at [pc] may go next. *)
Definition npc_after (a : Z) : Prop := pc mod 2 = 0 -> a mod 2 = 0 \/ a = PC_SERIALIZE_AFTER.
Definition npc_ok (a : Z) : Prop := a = PC_SERIALIZE_BEFORE \/ npc_after a.

Lemma sext_even x : x mod 2 = 0 -> u64 (sext_xlen xl (u64 x)) mod 2 = 0.
Proof.
  intros Hx. rewrite sext_xlen_spec by lia. destruct Hxl as [-> | ->]; unfold sext, wrap; zdm.
Qed.

Lemma safe_set_pc x : (pc mod 2 = 0 -> x mod 2 = 0) -> safe (W := W) xl npc_after (set_pc xl x).
Proof.
  intros Hx. eapply safe_bind; [by apply (safe_gets xl (fun _ => True))|intros p _].
  apply safe_if; intros _; [by apply safe_throw|]. apply safe_ret. intros He. left. by apply sext_even, Hx.
Qed.
Lemma safe_set_pc_and_serialize x : safe (W := W) xl npc_after (set_pc_and_serialize xl x).
Proof.
  eapply (safe_bind xl (fun _ => True)).
  - eapply safe_bind; [by apply (safe_gets xl (fun _ => True))|intros p _]. cbv zeta.
    apply safe_if; intros _; [by apply safe_throw|by apply safe_ret].
  - intros _ _. eapply safe_bind; [|intros _ _; apply safe_ret; intros ?; by right].
    apply safe_modify_state. intros p s _ [Hs Hx Hf Hd]. split; [|done..]. destruct Hs. by csr_leaf.
Qed.
End macros.

Lemma clear_bit0_even x : (x .& Z.lnot 1) mod 2 = 0.
Proof.
  change 2 with (2 ^ 1). rewrite <- Z.land_ones by lia. rewrite <- Z.land_assoc.
  change (Z.land (Z.lnot 1) (Z.ones 1)) with 0. apply Z.land_0_r.
Qed.

Lemma get_field_prv ms mask k n : Field mask k n -> n <= 2 -> 0 <= get_field ms mask <= PRV_M.
Proof.
  intros F Hn. pose proof (get_field_range ms mask k n F) as Hr.
  pose proof (pow2_le n 2 ltac:(destruct F; lia)). unfold in_range, PRV_M in *. lia.
Qed.

Lemma canonical_small xl x : xl = 32 \/ xl = 64 -> in_range 31 x -> canonical xl x.
Proof. intros Hxl Hx. apply canonical_s32; [done|]. unfold srange, in_range in *. lia. Qed.

Lemma canonical_classify32 xl a : xl = 32 \/ xl = 64 -> canonical xl (f32_classify a).
Proof.
  intros Hxl. apply canonical_small; [done|]. unfold f32_classify. cbv zeta.
  repeat (apply lor_range; [lia| |]);
    match goal with |- context [b2z ?b] => destruct b end; vm_compute; split; congruence || discriminate.
Qed.
Lemma canonical_classify64 xl a : xl = 32 \/ xl = 64 -> canonical xl (f64_classify a).
Proof.
  intros Hxl. apply canonical_small; [done|]. unfold f64_classify. cbv zeta.
  repeat (apply lor_range; [lia| |]);
    match goal with |- context [b2z ?b] => destruct b end; vm_compute; split; congruence || discriminate.
Qed.

Lemma canonical_loaded xl (signed : bool) len v :
  xl = 32 \/ xl = 64 -> len_ok len -> (if signed then 8 * len <= xl else 8 * len < xl) ->
  loaded signed len v -> canonical xl v.
Proof. intros Hxl Hl Hb (u & Hu & ->). by apply canonical_typed. Qed.

(** ** The tactic *)

Ltac side_len := unfold len_ok; lia.

(** That a value written to a register is canonical. *)
Ltac canonical_step :=
  match goal with
  | |- canonical ?xl (if ?a =? ?b then _ else _) => destruct (Z.eqb_spec a b)
  | H : canonical ?xl ?v |- canonical ?xl ?v => exact H
  | H : loaded ?s ?l ?v |- canonical ?xl ?v =>
      solve [apply (canonical_loaded xl s l v); [assumption|side_len|lia|exact H]]
  | |- canonical _ (sext_xlen _ _) => apply canonical_sext; assumption
  | |- canonical _ (sext32 _) => apply canonical_sext32; assumption
  | |- canonical _ (b2z _) => apply canonical_b2z; assumption
  | |- canonical _ (f32_classify _) => apply canonical_classify32; assumption
  | |- canonical _ (f64_classify _) => apply canonical_classify64; assumption
  | |- canonical _ (u_imm _) => apply canonical_s32; [assumption|by apply u_imm_range]
  | |- canonical _ (i_imm _) => apply canonical_s32; [assumption|by apply i_imm_range]
  | |- canonical _ (rvc_imm ?i) =>
      apply canonical_s32; [assumption|pose proof (rvc_imm_range i); unfold srange in *; lia]
  | |- canonical _ (rvc_imm ?i .<< 12) =>
      apply canonical_s32; [assumption|];
      pose proof (rvc_imm_range i); unfold srange in *; rewrite shl_mul by lia; lia
  | |- canonical _ (Z.land _ _) => apply canonical_land; [assumption| |]
  | |- canonical _ (Z.lor _ _) => apply canonical_lor; [assumption| |]
  | |- canonical _ (Z.lxor _ _) => apply canonical_lxor; [assumption| |]
  | |- canonical _ UINT64_MAX =>
      apply (canonical_u64 _ (-1)), canonical_s32; [assumption|unfold srange; lia]
  | |- canonical _ 0 => apply canonical_s32; [assumption|unfold srange; lia]
  | |- canonical _ 1 => apply canonical_s32; [assumption|unfold srange; lia]
  | |- canonical _ _ => solve [apply canonical_64; lia]
  end.

(** That a change of the state keeps the invariant on it. *)
Ltac state_ok_tac :=
  let Hs := fresh in
  intros ? ? ? [Hs ? ? ?]; cbn; case_match || idtac; (split; [destruct Hs; csr_leaf|assumption..]).

(** That a jump or branch target is even. *)
Ltac even_target :=
  intros ?;
  match goal with
  | |- (_ .& Z.lnot 1) mod 2 = 0 => apply clear_bit0_even
  | |- (_ + sb_imm ?i) mod 2 = 0 => pose proof (sb_imm_even i); zdm
  | |- (_ + uj_imm ?i) mod 2 = 0 => pose proof (uj_imm_even i); zdm
  | |- (_ + rvc_j_imm ?i) mod 2 = 0 => pose proof (rvc_j_imm_even i); zdm
  | |- (_ + rvc_b_imm ?i) mod 2 = 0 => pose proof (rvc_b_imm_even i); zdm
  end.

Ltac safe_step :=
  match goal with
  | |- safe _ _ ((if _ then _ else _) ≫= _) => apply (safe_bind _ (fun _ => True)); [|intros ? _]
  | |- safe _ _ (gets state ≫= _) =>
      apply (safe_bind _ (fun s => 0 <= dcsr_prv (dcsr s) <= PRV_M));
        [apply safe_gets; intros ? [? ? [] ? ?]; assumption|intros ? ?]
  | |- safe _ _ (_ ≫= _) => eapply safe_bind; [|intros ? ?; cbv beta in *]
  | |- safe _ _ (let _ := _ in _) => cbv zeta
  | |- safe _ _ (if ?a =? ?b then _ else _) => destruct (Z.eqb_spec a b)
  | |- safe _ _ (if _ then _ else _) => apply safe_if; intros ?
  | |- safe _ _ (throw _) => apply safe_throw; discriminate
  | |- safe _ _ (mret _) => apply safe_ret
  | |- safe _ _ (READ_REG _) => apply safe_READ_REG; assumption
  | |- safe _ _ (READ_FREG _) => apply safe_READ_FREG
  | |- safe _ _ (WRITE_RD _ _) => apply safe_WRITE_RD
  | |- safe _ _ (WRITE_RVC_RS1S _ _) => apply safe_WRITE_RVC_RS1S
  | |- safe _ _ (WRITE_RVC_RS2S _ _) => apply safe_WRITE_RVC_RS2S
  | |- safe _ _ (WRITE_REG X_RA _) => apply safe_WRITE_RA
  | |- safe _ _ (WRITE_REG X_SP _) => apply safe_WRITE_SP
  | |- safe _ _ (DO_WRITE_FREG _ _ _) => apply safe_DO_WRITE_FREG
  | |- safe _ _ (require_privilege _) => apply safe_require_privilege
  | |- safe _ _ (require_rv64 _) => apply safe_require_rv64
  | |- safe _ _ (require_extension _) => apply safe_require_extension
  | |- safe _ _ require_fp => apply safe_require_fp
  | |- safe _ _ (require _) => apply safe_require
  | |- safe _ _ (RM _) => apply safe_RM
  | |- safe _ _ (set_roundingMode _) => apply safe_set_roundingMode
  | |- safe _ _ (set_fp_exceptions _) => apply safe_set_fp_exceptions
  | |- safe _ _ (fp_op _) => apply safe_fp_op; auto with flags nocore
  | H : npc_after ?p _ |- safe _ _ (set_pc _ _) =>
      apply safe_set_pc with (pc := p); [assumption|even_target]
  | H : npc_after ?p _ |- safe _ _ (set_pc_and_serialize _ _) =>
      apply safe_set_pc_and_serialize with (pc := p)
  | |- safe _ _ (set_csr _ _) => apply safe_set_csr
  | |- safe _ _ (get_csr _) => apply safe_get_csr
  | |- safe _ _ (set_privilege _) => apply safe_set_privilege
  | |- safe _ _ (load _ _ _) => eapply safe_load; [eassumption|side_len]
  | |- safe _ _ (store _ _ _) => eapply safe_store; [eassumption|side_len]
  | |- safe _ _ (amo _ _ _) => eapply safe_amo; [eassumption|eassumption|side_len]
  | |- canonical _ _ => canonical_step
  | |- npc_after _ _ => assumption
  | |- safe _ _ (modify flush) =>
      apply safe_modify; intros ? []; apply hart_ok_mmu; [by apply icache_flush|done]
  | |- safe _ _ (modify (fun m => m <| mmu := _ |>)) =>
      apply safe_modify; intros ? []; apply hart_ok_mmu; [by apply icache_flush|done]
  | |- safe _ _ (modify_state _) => apply safe_modify_state; by state_ok_tac
  | |- 0 <= get_field _ MSTATUS_MPP <= PRV_M => apply (get_field_prv _ _ 11 2 _); lia
  | |- 0 <= get_field _ MSTATUS_SPP <= PRV_M => apply (get_field_prv _ _ 8 1 _); lia
  | |- 0 <= dcsr_prv _ <= PRV_M => assumption
  | |- _ = 32 \/ _ = 64 => assumption
  | |- True => exact I
  end.

(** ** The bodies *)

Section bodies.
Context {W : Type} `{Platform W}.
Context (xl : Z).
Hypothesis mmio_store_mip : forall a bs s w s' w',
  mmio_store a bs s w = Some (s', w') -> s' = s <| mip := mip s' |>.
Hypothesis mmio_load_bytes : forall a len w bs, 0 <= len ->
  mmio_load a len w = Some bs -> Z.of_nat (length bs) = len /\ Forall (in_range 8) bs.
Hypothesis Hxl : xl = 32 \/ xl = 64.

Context (insn pc npc : Z).
Hypothesis Hinsn : insn_ok insn.
Hypothesis Hnpc : npc_after pc npc.
Hypothesis Hcn : canonical xl npc.

Ltac unfold_macros :=
  unfold RS1, RS2, FRS1, FRS2, FRS3, RVC_RS1, RVC_RS2, RVC_RS1S, RVC_RS2S, RVC_FRS2, RVC_FRS2S,
    RVC_SP, WRITE_FRD, WRITE_RVC_FRS2S.
Ltac unfold_head :=
  match goal with
  | |- safe _ _ ?c => let h := get_head c in unfold h
  | |- ?c = _ => let h := get_head c in unfold h
  end.
Ltac safe_body :=
  unfold_head;
  unfold_macros; repeat safe_step.

(** The body of an instruction that accesses no control and status register, or what
    one that does makes of the register once the pipeline is serialized. *)
Lemma insn_body_cases f :
  safe (W := W) xl (npc_after pc) (insn_body insn pc npc xl f)
  \/ exists which write k, insn_body insn pc npc xl f = validate_csr which write k
     /\ forall c, safe (W := W) xl (npc_after pc) (k c).
Proof.
  destruct f; cbn [insn_body];
    try (left; solve [by apply safe_throw|safe_body]);
    right; do 3 eexists; (split; [unfold_head; cbv zeta; reflexivity|]); intros c; unfold_macros; repeat safe_step.
Qed.

Lemma insn_body_safe f : safe (W := W) xl (npc_ok pc) (insn_body insn pc npc xl f).
Proof.
  destruct (insn_body_cases f) as [Hf|(which & write & k & -> & Hk)].
  - eapply safe_weaken; [exact Hf|]. intros a Ha. by right.
  - apply safe_validate_csr; [by left|]. intros c. eapply safe_weaken; [apply Hk|].
    intros a Ha. by right.
Qed.

Lemma validate_csr_serialized which write k m :
  (forall c, safe (W := W) xl (npc_after pc) (k c)) -> hart_ok xl m -> serialized (state m) = true ->
  match validate_csr which write k m with
  | (inl a, m') => npc_after pc a /\ hart_ok xl m'
  | (inr e, m') => e <> Abort /\ hart_ok xl m'
  end.
Proof.
  intros Hk Hm Hs. unfold validate_csr, mbind, M_bind, gets. rewrite Hs. cbn [negb].
  match goal with |- context [modify_state ?g m] =>
    pose proof (safe_modify_state (W := W) xl g) as Hg end.
  unfold safe in Hg. specialize (Hg ltac:(state_ok_tac) m Hm). 
  destruct (modify_state _ m) as [[u|e] m1]; [|done]. destruct Hg as [_ Hm1].
  destruct (_ || _); [done|]. by apply Hk.
Qed.

(** With the pipeline serialized, an instruction does not ask for it again. *)
Lemma insn_body_serialized f m : hart_ok xl m -> serialized (state m) = true ->
  match insn_body insn pc npc xl f m with
  | (inl a, m') => npc_after pc a /\ hart_ok xl m'
  | (inr e, m') => e <> Abort /\ hart_ok xl m'
  end.
Proof.
  intros Hm Hs. destruct (insn_body_cases f) as [Hf|(which & write & k & -> & Hk)].
  - by apply Hf.
  - by apply validate_csr_serialized.
Qed.
End bodies.

Lemma insn_length_even x : insn_length x mod 2 = 0.
Proof. unfold insn_length. by repeat case_match. Qed.

Section insn_safe.
Context {W : Type} `{Platform W}.
Hypothesis mmio_store_mip : forall a bs s w s' w',
  mmio_store a bs s w = Some (s', w') -> s' = s <| mip := mip s' |>.
Hypothesis mmio_load_bytes : forall a len w bs, 0 <= len ->
  mmio_load a len w = Some bs -> Z.of_nat (length bs) = len /\ Forall (in_range 8) bs.

Lemma next_pc_even xl f pc : xl = 32 \/ xl = 64 ->
  npc_after pc (u64 (sext_xlen xl (pc + insn_length (insn_match f)))).
Proof.
  intros Hxl He. left. pose proof (insn_length_even (insn_match f)) as Hl.
  rewrite sext_xlen_spec by lia. destruct Hxl as [-> | ->]; unfold sext, wrap; zdm.
Qed.

Lemma rv_NAME_safe xl f insn pc :
  xl = 32 \/ xl = 64 -> insn_ok insn -> safe (W := W) xl (npc_ok pc) (rv_NAME xl f insn pc).
Proof.
  intros Hxl Hi. apply insn_body_safe; try done; [by apply next_pc_even|].
  by apply canonical_u64, canonical_sext.
Qed.

Lemma rv_NAME_serialized xl f insn pc m :
  insn_ok insn -> hart_ok xl m -> serialized (state m) = true ->
  match rv_NAME xl f insn pc m with
  | (inl a, m') => npc_after pc a /\ hart_ok xl m'
  | (inr e, m') => e <> Abort /\ hart_ok xl m'
  end.
Proof.
  intros Hi Hm Hs. pose proof (ok_xl xl m Hm) as Hxl. unfold rv_NAME.
  apply insn_body_serialized; try done; [by apply next_pc_even|].
  by apply canonical_u64, canonical_sext.
Qed.

(** C3: Every instruction, on a well-formed hart, ends without an abort, by a trap or at
    an even address or serialization point, in a well-formed hart again: [x0] zero,
    every register the sign extension of a value of the hart's width, the floating
    point registers and flags and the memory within their ranges, and the control and
    status registers as they must be. *)
Theorem insn_safe xl m f insn pc :
  hart_ok xl m -> insn_ok insn ->
  match rv_NAME xl f insn pc m with
  | (inl npc, m') => npc_ok pc npc /\ hart_ok xl m'
  | (inr e, m') => e <> Abort /\ hart_ok xl m'
  end.
Proof. intros Hm Hi. by apply (rv_NAME_safe xl f insn pc (ok_xl xl m Hm) Hi). Qed.
End insn_safe.

(** A new hart satisfies the invariant, if no extension adds instructions. *)
Lemma new_processor_ok {W} `{Platform W} fe str i halted size (w : W) m :
  new_processor fe str i halted size w = Some m -> decode_state (proc m) = base_decoder ->
  hart_ok (max_xlen (proc m)) m.
Proof.
  intros Hn HD. pose proof (new_processor_wf fe str i halted size w m Hn) as [Hp Hs].
  revert Hn. unfold new_processor. intros (o & Ho & Hm)%bind_Some.
  destruct (parse_isa_string_wf fe str o Ho) as [Hx _]. revert Hm.
  case_match eqn:E. case_match; [|done]. intros [= ->].
  unfold processor_reset, mbind, M_bind, modify in E. subst.
  match type of E with set_csr _ _ ?m0 = _ => destruct u; pose proof (set_csr_frame CSR_MSTATUS 0 m0 m E) as F end.
  destruct F as [F1 F2 F3 F4 F5 F6 F7 F8]. cbn in F1, F2, F3, F4, F5, F6.
  assert (forall xl, xl = 32 \/ xl = 64 -> xregs_ok xl (replicate 32 0)) as Hr.
  { intros xl Hxl. split; [done|done|]. apply Forall_replicate. split; [done|].
    apply canonical_s32; [done|]. unfold srange. lia. }
  split; [done|done| |unfold flags_ok; by rewrite F4|intros a; rewrite F5; by vm_compute|rewrite HD; apply base_wf|].
  2: apply F8, icache_empty.
  split; [done| |rewrite F2; by split; [|apply Forall_replicate]|apply F3; by vm_compute].
  rewrite F1. apply Hr. by rewrite F6.
Qed.

(** ** The decoder and the instructions

    An empty entry of the opcode cache is a hit for word 0, the defined illegal
    instruction, whose first match is c.addi4spn with an immediate of 0: it raises the
    same exception. *)
Lemma word_zero {W} `{Platform W} xl pc (m : machine W) :
  rv_NAME xl illegal_instruction 0 pc m = rv_NAME xl rv_c_addi4spn 0 pc m.
Proof.
  unfold rv_NAME, insn_body, exec_c_addi4spn, require_extension, mbind, M_bind, gets.
  by destruct (supports_extension "C" (proc m)).
Qed.

(** C20: Whatever was decoded before, every word decodes to an instruction that does what
    its first match in the sorted list does, in every state and at every pc, and is its
    first match unless the word is 0: the hash table and the reordering are not
    observable. *)
Theorem decode_transparent {W} `{Platform W} ws :
  exists fs d, decode_seq ws base_decoder = Some (fs, d) /\
    Forall2 (fun w f => exists f', first_match w base_instructions = Some f' /\ (w <> 0 -> f = f') /\
               forall xl pc (m : machine W), rv_NAME xl f w pc m = rv_NAME xl f' w pc m) ws fs.
Proof.
  destruct (decode_seq_base ws) as (fs & d & E & Hfs). exists fs, d. split; [done |].
  eapply Forall2_impl; [exact Hfs |]. intros w f [Hf | [-> ->]]; [by exists f |].
  exists rv_c_addi4spn. split; [vm_compute; reflexivity |]. split; [done | intros; apply word_zero].
Qed.
