(* ===== verification/Alu.v ===== *)
(** The integer computations of the instruction set: one body serves the 32-bit and
    the 64-bit hart, and computes the operation of the hart's width (or of 32 bits,
    for the W instructions). *)
From Stdlib Require Import Ascii.
From S2P Require Import Prelude Encoding Decode Decoder Mulhi SoftPrim FpFlags Machine Csr Isa.
From S2P Require Import Mmu CsrProps Tlb Safe Insns InsnProps.

Inductive alu_op :=
  | OpAdd | OpSub | OpAnd | OpOr | OpXor | OpSll | OpSrl | OpSra | OpSlt | OpSltu
  | OpMul | OpMulh | OpMulhsu | OpMulhu | OpDiv | OpDivu | OpRem | OpRemu.

(** The operation on [w]-bit words [a] and [b], as the manual defines it. *)
Definition alu_value (w : Z) (o : alu_op) (a b : Z) : Z :=
  let sa := sext w a in
  let sb := sext w b in
  match o with
  | OpAdd => a + b
  | OpSub => a - b
  | OpAnd => Z.land a b
  | OpOr => Z.lor a b
  | OpXor => Z.lxor a b
  | OpSll => a * 2 ^ (b mod w)
  | OpSrl => a / 2 ^ (b mod w)
  | OpSra => sa / 2 ^ (b mod w)
  | OpSlt => if sa <? sb then 1 else 0
  | OpSltu => if a <? b then 1 else 0
  | OpMul => a * b
  | OpMulh => sa * sb / 2 ^ w
  | OpMulhsu => sa * b / 2 ^ w
  | OpMulhu => a * b / 2 ^ w
  | OpDiv => if sb =? 0 then -1 else Z.quot sa sb
  | OpDivu => if b =? 0 then -1 else a / b
  | OpRem => if sb =? 0 then sa else Z.rem sa sb
  | OpRemu => if b =? 0 then a else a mod b
  end.

(** What an instruction computes: the operation, whether on 32 bits of a 64-bit
    hart, and whether the second operand is the immediate. *)
Definition alu_of (f : insn_func) : option (alu_op * bool * bool) :=
  match f with
  | rv_add => Some (OpAdd, false, false) | rv_addi => Some (OpAdd, false, true)
  | rv_addw => Some (OpAdd, true, false) | rv_addiw => Some (OpAdd, true, true)
  | rv_sub => Some (OpSub, false, false) | rv_subw => Some (OpSub, true, false)
  | rv_and => Some (OpAnd, false, false) | rv_andi => Some (OpAnd, false, true)
  | rv_or => Some (OpOr, false, false) | rv_ori => Some (OpOr, false, true)
  | rv_xor => Some (OpXor, false, false) | rv_xori => Some (OpXor, false, true)
  | rv_sll => Some (OpSll, false, false) | rv_slli => Some (OpSll, false, true)
  | rv_sllw => Some (OpSll, true, false) | rv_slliw => Some (OpSll, true, true)
  | rv_srl => Some (OpSrl, false, false) | rv_srli => Some (OpSrl, false, true)
  | rv_srlw => Some (OpSrl, true, false) | rv_srliw => Some (OpSrl, true, true)
  | rv_sra => Some (OpSra, false, false) | rv_srai => Some (OpSra, false, true)
  | rv_sraw => Some (OpSra, true, false) | rv_sraiw => Some (OpSra, true, true)
  | rv_slt => Some (OpSlt, false, false) | rv_slti => Some (OpSlt, false, true)
  | rv_sltu => Some (OpSltu, false, false) | rv_sltiu => Some (OpSltu, false, true)
  | rv_mul => Some (OpMul, false, false) | rv_mulw => Some (OpMul, true, false)
  | rv_mulh => Some (OpMulh, false, false) | rv_mulhsu => Some (OpMulhsu, false, false)
  | rv_mulhu => Some (OpMulhu, false, false)
  | rv_div => Some (OpDiv, false, false) | rv_divw => Some (OpDiv, true, false)
  | rv_divu => Some (OpDivu, false, false) | rv_divuw => Some (OpDivu, true, false)
  | rv_rem => Some (OpRem, false, false) | rv_remw => Some (OpRem, true, false)
  | rv_remu => Some (OpRemu, false, false) | rv_remuw => Some (OpRemu, true, false)
  | _ => None
  end.

Definition is_shift (o : alu_op) : bool := match o with OpSll | OpSrl | OpSra => true | _ => false end.
Definition is_muldiv (o : alu_op) : bool :=
  match o with
  | OpMul | OpMulh | OpMulhsu | OpMulhu | OpDiv | OpDivu | OpRem | OpRemu => true
  | _ => false
  end.

(** ** The values *)

Section values.
Context (xl : Z).
Hypothesis Hxl : xl = 32 \/ xl = 64.

Lemma wrap_xl_u64 x : wrap xl (u64 x) = wrap xl x.
Proof. apply wrap_narrow. lia. Qed.

Lemma canonical_s64 x : canonical xl x -> s64 x = sext xl x.
Proof.
  intros (s & Hs & E). rewrite <- (sext_wrap 64 x), E, sext_wrap by lia.
  rewrite <- (sext_wrap xl x), <- wrap_xl_u64, E, wrap_xl_u64, sext_wrap by lia.
  unfold srange in Hs. rewrite (sext_small xl s) by lia. apply sext_small; [lia|].
  destruct Hxl as [-> | ->]; lia.
Qed.

Lemma sext_of_wrap x : sext xl (wrap xl x) = sext xl x.
Proof. apply sext_wrap. lia. Qed.

Lemma canonical_ltu x y : canonical xl x -> canonical xl y ->
  (u64 x <? u64 y) = (wrap xl x <? wrap xl y).
Proof.
  intros (s & Hs & Es) (t & Ht & Et).
  rewrite <- (wrap_xl_u64 x), <- (wrap_xl_u64 y), Es, Et, !wrap_xl_u64.
  unfold srange, wrap in *. destruct Hxl as [-> | ->]; case_bool; try done; zdm.
Qed.

Lemma xl_mask b : b .& (xl - 1) = b mod xl.
Proof.
  destruct Hxl as [-> | ->]; [change (32 - 1) with (2 ^ 5 - 1)|change (64 - 1) with (2 ^ 6 - 1)];
    by rewrite land_mask by lia.
Qed.

Lemma mod_xl x : wrap xl x mod xl = x mod xl.
Proof. unfold wrap. destruct Hxl as [-> | ->]; zdm. Qed.

Lemma wrap_mul_r x y : wrap xl (wrap xl x * y) = wrap xl (x * y).
Proof. by rewrite wrap_mul_idemp_l. Qed.

Lemma value_of x y : wrap xl x = wrap xl y -> sext_xlen xl x = sext xl y.
Proof. intros E. rewrite sext_xlen_spec by lia. apply sext_eq_wrap; [lia|done]. Qed.

Lemma value_add x y : sext_xlen xl (x + y) = sext xl (wrap xl x + wrap xl y).
Proof. apply value_of. by rewrite wrap_add_idemp_l, wrap_add_idemp_r. Qed.
Lemma value_sub x y : sext_xlen xl (x - y) = sext xl (wrap xl x - wrap xl y).
Proof. apply value_of. by rewrite wrap_sub_idemp. Qed.
Lemma value_mul x y : sext_xlen xl (x * y) = sext xl (wrap xl x * wrap xl y).
Proof. apply value_of. by rewrite wrap_mul_idemp. Qed.

Lemma value_sll x k n : 0 <= n -> k = n -> sext_xlen xl (u64 (x .<< k)) = sext xl (wrap xl x * 2 ^ n).
Proof.
  intros Hn ->. rewrite shl_mul by lia. apply value_of. by rewrite wrap_xl_u64, wrap_mul_r.
Qed.
Lemma value_srl x k n : 0 <= n -> k = n ->
  sext_xlen xl (zext_xlen xl x .>> k) = sext xl (wrap xl x / 2 ^ n).
Proof. intros Hn ->. rewrite zext_xlen_spec, shr_div by lia. by apply value_of. Qed.
Lemma value_sra x k n : 0 <= n -> k = n ->
  sext_xlen xl (sext_xlen xl x .>> k) = sext xl (sext xl (wrap xl x) / 2 ^ n).
Proof.
  intros Hn ->. rewrite (sext_xlen_spec xl x), shr_div, sext_of_wrap by lia. by apply value_of.
Qed.

(** The bitwise operations do not truncate: the operands are canonical. *)
Lemma value_bitwise (op : Z -> Z -> Z) x y :
  (forall u v, canonical xl u -> canonical xl v -> canonical xl (op u v)) ->
  (forall w u v, 0 <= w -> wrap w (op u v) = op (wrap w u) (wrap w v)) ->
  canonical xl x -> canonical xl y ->
  u64 (op x y) = u64 (sext xl (op (wrap xl x) (wrap xl y))).
Proof.
  intros Hc Hw Hx Hy. rewrite <- Hw, sext_of_wrap by lia.
  rewrite <- canonical_s64 by auto. by rewrite wrap_sext by lia.
Qed.

Lemma b2z_small (b : bool) : b2z b = sext xl (if b then 1 else 0).
Proof. destruct Hxl as [-> | ->]; by destruct b. Qed.

Lemma value_slt x y : canonical xl x -> canonical xl y ->
  b2z (s64 x <? s64 y)
  = sext xl (if sext xl (wrap xl x) <? sext xl (wrap xl y) then 1 else 0).
Proof. intros Hx Hy. by rewrite !canonical_s64, !sext_of_wrap, b2z_small. Qed.
Lemma value_sltu x y : canonical xl x -> canonical xl y ->
  b2z (u64 x <? u64 y) = sext xl (if wrap xl x <? wrap xl y then 1 else 0).
Proof. intros Hx Hy. by rewrite canonical_ltu, b2z_small. Qed.
End values.

(** The multiplications and divisions, whatever the width. *)
Section muldiv.
Context (xl : Z).
Hypothesis Hxl : xl = 32 \/ xl = 64.

Lemma div_one_zero x : Z.quot x (-1) = - x /\ Z.rem x (-1) = 0.
Proof.
  change (-1) with (- (1)). split; [by rewrite Z.quot_opp_r, Z.quot_1_r by lia|].
  by rewrite Z.rem_opp_r, Z.rem_1_r by lia.
Qed.

Lemma high_half z : u32 (u64 z / 2 ^ 32) = u32 (z / 2 ^ 32).
Proof. unfold wrap. zdm. Qed.

Lemma value_mulh x y :
  u64 (if xl =? 64 then mulh (s64 x) (s64 y) else sext32 ((sext32 x * sext32 y) .>> 32))
  = u64 (sext xl (alu_value xl OpMulh (wrap xl x) (wrap xl y))).
Proof.
  unfold alu_value. rewrite !sext_of_wrap by done. destruct Hxl as [-> | ->]; cbn [Z.eqb Pos.eqb].
  - by rewrite shr_div by lia.
  - pose proof (sext_range 64 x). pose proof (sext_range 64 y).
    rewrite mulh_spec by lia. by rewrite wrap_sext by lia.
Qed.
Lemma value_mulhsu x y : in_range 64 y ->
  u64 (if xl =? 64 then mulhsu (s64 x) y else sext32 (u64 (sext32 x * u32 y) .>> 32))
  = u64 (sext xl (alu_value xl OpMulhsu (wrap xl x) (wrap xl y))).
Proof.
  intros Hy. unfold alu_value. rewrite !sext_of_wrap by done.
  destruct Hxl as [-> | ->]; cbn [Z.eqb Pos.eqb].
  - rewrite shr_div by lia. f_equal. apply sext_eq_wrap; [lia|]. apply high_half.
  - pose proof (sext_range 64 x). rewrite mulhsu_spec by (done || lia).
    by rewrite (wrap_small 64 y), wrap_sext by (done || lia).
Qed.
Lemma value_mulhu x y : in_range 64 x -> in_range 64 y ->
  u64 (if xl =? 64 then mulhu x y else sext32 (u64 (u32 x * u32 y) .>> 32))
  = u64 (sext xl (alu_value xl OpMulhu (wrap xl x) (wrap xl y))).
Proof.
  intros Hx Hy. unfold alu_value. destruct Hxl as [-> | ->]; cbn [Z.eqb Pos.eqb].
  - pose proof (wrap_range 32 x ltac:(lia)). pose proof (wrap_range 32 y ltac:(lia)).
    unfold in_range in *. rewrite shr_div, (wrap_small 64 (_ * _)) by nia. done.
  - rewrite mulhu_spec, (wrap_small 64 x), (wrap_small 64 y), wrap_sext by (done || lia). done.
Qed.

(** [div] and [rem] test for the one quotient that overflows 64 bits; the one that
    overflows 32 bits is truncated. *)
Lemma value_div x y :
  let lhs := sext_xlen xl x in
  let rhs := sext_xlen xl y in
  u64 (if rhs =? 0 then UINT64_MAX
       else if (lhs =? INT64_MIN) && (rhs =? -1) then lhs else sext_xlen xl (Z.quot lhs rhs))
  = u64 (sext xl (alu_value xl OpDiv (wrap xl x) (wrap xl y))).
Proof.
  cbv zeta. unfold alu_value. rewrite !(sext_xlen_spec xl), !sext_of_wrap by (done || lia).
  destruct (Z.eqb_spec (sext xl y) 0); [destruct Hxl as [-> | ->]; done|].
  destruct (Z.eqb_spec (sext xl x) INT64_MIN) as [E|]; [|done].
  destruct (Z.eqb_spec (sext xl y) (-1)) as [-> |]; [|done]. cbn [andb].
  rewrite (proj1 (div_one_zero _)), E. unfold INT64_MIN in *.
  destruct Hxl as [-> | ->]; [|by vm_compute]. pose proof (sext_range 32 x). lia.
Qed.
Lemma value_rem x y :
  let lhs := sext_xlen xl x in
  let rhs := sext_xlen xl y in
  u64 (if rhs =? 0 then lhs
       else if (lhs =? INT64_MIN) && (rhs =? -1) then 0 else sext_xlen xl (Z.rem lhs rhs))
  = u64 (sext xl (alu_value xl OpRem (wrap xl x) (wrap xl y))).
Proof.
  cbv zeta. unfold alu_value. rewrite !(sext_xlen_spec xl), !sext_of_wrap by (done || lia).
  pose proof (sext_range xl x ltac:(lia)).
  destruct (Z.eqb_spec (sext xl y) 0); [by rewrite (sext_small xl (sext xl x)) by lia|].
  destruct (Z.eqb_spec (sext xl y) (-1)) as [-> |]; [|by rewrite andb_false_r].
  rewrite (proj2 (div_one_zero _)). destruct (_ && _); destruct Hxl as [-> | ->]; done.
Qed.
Lemma value_divu x y :
  let lhs := zext_xlen xl x in
  let rhs := zext_xlen xl y in
  u64 (if rhs =? 0 then UINT64_MAX else sext_xlen xl (lhs / rhs))
  = u64 (sext xl (alu_value xl OpDivu (wrap xl x) (wrap xl y))).
Proof.
  cbv zeta. unfold alu_value. rewrite !zext_xlen_spec, sext_xlen_spec by lia.
  destruct (_ =? 0); [destruct Hxl as [-> | ->]; done|done].
Qed.
Lemma value_remu x y :
  let lhs := zext_xlen xl x in
  let rhs := zext_xlen xl y in
  u64 (if rhs =? 0 then sext_xlen xl x else sext_xlen xl (lhs mod rhs))
  = u64 (sext xl (alu_value xl OpRemu (wrap xl x) (wrap xl y))).
Proof.
  cbv zeta. unfold alu_value. rewrite !zext_xlen_spec, !sext_xlen_spec by lia.
  destruct (_ =? 0); [by rewrite sext_of_wrap|done].
Qed.

(** The W forms have no test. *)
Lemma value_divw x y :
  u64 (if sext32 y =? 0 then UINT64_MAX else sext32 (Z.quot (sext32 x) (sext32 y)))
  = u64 (sext 32 (alu_value 32 OpDiv (u32 x) (u32 y))).
Proof. unfold alu_value, sext32. rewrite !sext_wrap by lia. by destruct (_ =? 0). Qed.
Lemma value_remw x y :
  u64 (if sext32 y =? 0 then sext32 x else sext32 (Z.rem (sext32 x) (sext32 y)))
  = u64 (sext 32 (alu_value 32 OpRem (u32 x) (u32 y))).
Proof.
  unfold alu_value, sext32. rewrite !sext_wrap by lia. destruct (_ =? 0); [|done].
  by rewrite (sext_small 32 (s32 x)) by (lia || apply (sext_range 32 x); lia).
Qed.
Lemma value_remuw x y :
  u64 (if zext32 y =? 0 then sext32 (zext32 x) else sext32 (zext32 x mod zext32 y))
  = u64 (sext 32 (alu_value 32 OpRemu (u32 x) (u32 y))).
Proof. unfold alu_value, zext32, sext32. by destruct (_ =? 0). Qed.

(** Comparisons with the immediate, which is a number of its own sign. *)
Lemma value_slti x i : canonical xl x -> srange 32 i ->
  b2z (s64 x <? i) = sext xl (if sext xl (wrap xl x) <? sext xl (wrap xl i) then 1 else 0).
Proof.
  intros Hx Hi. rewrite <- value_slt by (done || by apply canonical_s32).
  unfold srange in Hi. by rewrite (sext_small 64 i) by lia.
Qed.
Lemma value_sltiu x y : in_range 64 x -> canonical xl x -> canonical xl y ->
  b2z (x <? u64 y) = sext xl (if wrap xl x <? wrap xl y then 1 else 0).
Proof. intros Hr Hx Hy. by rewrite <- value_sltu, (wrap_small 64 x) by done. Qed.
End muldiv.

(** ** The instructions *)

Section alu.
Context {W : Type} `{Platform W}.
Implicit Types m : machine W.

Definition xreg m (r : Z) : Z := regfile_read (XPR (state m)) r.
Definition write_xreg (r v : Z) m : machine W :=
  m <| state := (state m) <| XPR := regfile_write true r (u64 v) (XPR (state m)) |> |>.
Definition next_pc (xl : Z) (f : insn_func) (pc : Z) : Z :=
  u64 (sext_xlen xl (pc + insn_length (insn_match f))).

Lemma xreg_ok xl m r : hart_ok xl m -> canonical xl (xreg m r) /\ in_range 64 (xreg m r).
Proof.
  intros Hm. pose proof (ok_xl xl m Hm) as Hxl. destruct Hm as [_ <- [_ [_ _ HF] _ _] _ _].
  unfold xreg, regfile_read.
  apply (Forall_default (fun v => canonical (max_xlen (proc m)) v /\ in_range 64 v)).
  - apply (Forall_impl _ _ _ HF). by intros ? [].
  - split; [|done]. apply canonical_s32; [done|]. unfold srange. lia.
Qed.

Lemma pull_if (insn npc : Z) (c : bool) x y :
  (if c then WRITE_RD insn x ;; mret npc else WRITE_RD insn y ;; mret npc : M W Z)
  = (WRITE_RD insn (if c then x else y) ;; mret npc).
Proof. by destruct c. Qed.

Lemma run_write insn npc v v' m : u64 v = u64 v' ->
  (WRITE_RD insn v ;; mret npc : M W Z) m = (inl npc, write_xreg (rd insn) v' m).
Proof. intros E. unfold write_xreg. by rewrite <- E. Qed.

Lemma run_require_extension {A} c (k : M W A) m :
  supports_extension c (proc m) = true -> (require_extension c ;; k) m = k m.
Proof. intros E. unfold require_extension, mbind, M_bind, gets. by rewrite E. Qed.
Lemma run_require {A} b (k : M W A) m : b = true -> (require b ;; k) m = k m.
Proof. by intros ->. Qed.

(** SHAMT, and the amount the specification shifts by. *)
Lemma shamt_spec w insn : w = 32 \/ w = 64 -> SHAMT insn < w ->
  SHAMT insn = wrap w (i_imm insn) mod w /\ 0 <= SHAMT insn.
Proof.
  intros Hw. unfold SHAMT. change 0x3F with (2 ^ 6 - 1). rewrite land_mask by lia.
  intros Hs. destruct Hw as [-> | ->]; unfold wrap in *; split; zdm.
Qed.

Lemma shift_amount w b : w = 32 \/ w = 64 -> b .& (w - 1) = wrap w b mod w /\ 0 <= wrap w b mod w.
Proof. intros Hw. rewrite xl_mask, mod_xl by done. split; [done|]. apply Z.mod_pos_bound. lia. Qed.

Lemma sext32_eq x : sext32 x = sext_xlen 32 x.
Proof. by rewrite sext_xlen_spec by lia. Qed.
Lemma zext32_eq x : zext32 x = zext_xlen 32 x.
Proof. by rewrite zext_xlen_spec by lia. Qed.

Lemma run_RS1 {A} insn (k : Z -> M W A) m : (RS1 insn ≫= k) m = k (xreg m (rs1 insn)) m.
Proof. done. Qed.
Lemma run_RS2 {A} insn (k : Z -> M W A) m : (RS2 insn ≫= k) m = k (xreg m (rs2 insn)) m.
Proof. done. Qed.

(** The value that an instruction computes is the one of its operation, by the lemma
    of the operation. *)
Ltac bitwise_value w Hxl :=
  by auto using canonical_land, canonical_lor, canonical_lxor, wrap_land, wrap_lor, wrap_lxor.
Ltac shift_value lem w Hsh :=
  apply (f_equal u64), lem; [lia| |];
  first [apply (shift_amount w); lia | apply (shamt_spec w); [lia|exact Hsh]
        | rewrite <- (proj1 (shamt_spec w _ ltac:(lia) Hsh)); apply (shamt_spec w); [lia|exact Hsh]].
Ltac alu_step w Hxl Hsh :=
  lazymatch goal with
  | |- _ = u64 (sext _ (alu_value _ OpAdd _ _)) =>
      first [by rewrite (value_add w) by lia
            |by rewrite (Z.add_comm (i_imm _)), (value_add w) by lia]
  | |- _ = u64 (sext _ (alu_value _ OpSub _ _)) => by rewrite (value_sub w) by lia
  | |- _ = u64 (sext _ (alu_value _ OpMul _ _)) => by rewrite (value_mul w) by lia
  | |- u64 (i_imm _ .& _) = _ => rewrite Z.land_comm; apply (value_bitwise w Hxl Z.land); bitwise_value w Hxl
  | |- u64 (i_imm _ .| _) = _ => rewrite Z.lor_comm; apply (value_bitwise w Hxl Z.lor); bitwise_value w Hxl
  | |- u64 (i_imm _ .^ _) = _ => rewrite Z.lxor_comm; apply (value_bitwise w Hxl Z.lxor); bitwise_value w Hxl
  | |- _ = u64 (sext _ (alu_value _ OpAnd _ _)) => apply (value_bitwise w Hxl Z.land); bitwise_value w Hxl
  | |- _ = u64 (sext _ (alu_value _ OpOr _ _)) => apply (value_bitwise w Hxl Z.lor); bitwise_value w Hxl
  | |- _ = u64 (sext _ (alu_value _ OpXor _ _)) => apply (value_bitwise w Hxl Z.lxor); bitwise_value w Hxl
  | |- _ = u64 (sext _ (alu_value _ OpSll _ _)) => shift_value (value_sll w) w Hsh
  | |- _ = u64 (sext _ (alu_value _ OpSrl _ _)) => shift_value (value_srl w) w Hsh
  | |- _ = u64 (sext _ (alu_value _ OpSra _ _)) => shift_value (value_sra w) w Hsh
  | |- u64 (b2z (s64 _ <? i_imm ?i)) = _ =>
      apply (f_equal u64), (value_slti w); [assumption|assumption|by apply i_imm_range]
  | |- u64 (b2z (_ <? u64 _)) = _ => apply (f_equal u64), (value_sltiu w); assumption
  | |- u64 (b2z (_ <? ?y)) = u64 (sext _ (alu_value _ OpSltu _ _)) =>
      rewrite <- (wrap_small 64 y) at 1 by assumption;
      apply (f_equal u64), (value_sltiu w); assumption
  | |- _ = u64 (sext _ (alu_value _ OpSlt _ _)) => apply (f_equal u64), (value_slt w); assumption
  | |- _ = u64 (sext _ (alu_value _ OpMulh _ _)) => apply (value_mulh w); assumption
  | |- _ = u64 (sext _ (alu_value _ OpMulhsu _ _)) => apply (value_mulhsu w); assumption
  | |- _ = u64 (sext _ (alu_value _ OpMulhu _ _)) => apply (value_mulhu w); assumption
  | |- _ = u64 (sext _ (alu_value _ OpDiv _ _)) => apply (value_div w); lia
  | |- _ = u64 (sext _ (alu_value _ OpDivu _ _)) => apply (value_divu w); lia
  | |- _ = u64 (sext _ (alu_value _ OpRem _ _)) => apply (value_rem w); lia
  | |- _ = u64 (sext _ (alu_value _ OpRemu _ _)) => apply (value_remu w); lia
  end.

(** C6: The integer computations of the base instruction set and of the M extension
    write to [rd] the operation of the hart's width, or of 32 bits for a W
    instruction, on the low bits of their operands, sign-extended to the register;
    they change nothing else and go to the next instruction. *)
Theorem alu_correct xl m f insn pc o (word imm : bool) :
  hart_ok xl m -> insn_ok insn -> alu_of f = Some (o, word, imm) ->
  (word = true -> xl = 64) ->
  (is_muldiv o = true -> supports_extension "M" (proc m) = true) ->
  let w := if word then 32 else xl in
  (imm && is_shift o = true -> SHAMT insn < w) ->
  let a := wrap w (xreg m (rs1 insn)) in
  let b := wrap w (if imm then i_imm insn else xreg m (rs2 insn)) in
  rv_NAME xl f insn pc m
  = (inl (next_pc xl f pc), write_xreg (rd insn) (sext w (alu_value w o a b)) m).
Proof.
  intros Hm Hi Hf Hword HM w Hsh a b. pose proof (ok_xl xl m Hm) as Hxl.
  destruct (xreg_ok xl m (rs1 insn) Hm) as [Ca Ra]. destruct (xreg_ok xl m (rs2 insn) Hm) as [Cb Rb].
  assert (canonical xl (i_imm insn)) as Ci by (by apply canonical_s32, i_imm_range).
  unfold rv_NAME. fold (next_pc xl f pc). generalize (next_pc xl f pc) as npc. intros npc.
  destruct f; try discriminate Hf; injection Hf as <- <- <-; subst a b w;
    cbn [insn_body is_muldiv is_shift andb] in *; try (specialize (HM eq_refl));
    try (specialize (Hsh eq_refl)); try (specialize (Hword eq_refl); subst xl).
  all: match goal with |- ?c _ = _ => let h := get_head c in unfold h end.
  all: unfold require_rv64; rewrite ?(run_require_extension "M" _ _ HM), ?run_require by done || lia.

  all: rewrite run_RS1; rewrite ?run_RS2; rewrite ?pull_if; apply run_write;
    generalize dependent (xreg m (rs1 insn)); intros x Cx Rx;
    generalize dependent (xreg m (rs2 insn)); intros y Cy Ry.
  all: match goal with
       | |- _ = u64 (sext ?w _) =>
           first [ apply value_divw | apply value_remw | apply value_remuw
                 | solve [alu_step w Hxl Hsh]
                 | match goal with |- _ = u64 ?r => set (R := r) end;
                   rewrite ?sext32_eq, ?zext32_eq; subst R; alu_step w Hxl Hsh ]
       end.
Qed.
End alu.

(** ** The theorems on a concrete hart *)

(** In machine mode, with the most negative number in x1 and -1 in x2. *)
Definition hart5 : machine unit :=
  hart0 <| state := (state hart0) <| XPR := 0 :: 2 ^ 63 :: (2 ^ 64 - 1) :: replicate 29 0 |> |>
        <| proc := (proc hart0) <| decode_state := base_decoder |> |>.

Lemma hart5_ok (P : Platform unit) : hart_ok 64 hart5.
Proof.
  destruct (hart0_wf P) as [Hp Hs].
  assert (forall v, in_range 64 v /\ canonical 64 v <-> in_range 64 v) as Hc
    by (intros v; split; [tauto|split; [done|by apply canonical_64; auto]]).
  split; [by destruct Hp|reflexivity| |concrete|by intros a|apply base_wf|].
  2: apply icache_empty.
  split; [destruct Hs; by csr_leaf| |by split; [|apply Forall_replicate]|concrete].
  split; [reflexivity|reflexivity|]. repeat (apply Forall_cons; split; [apply Hc; concrete|]).
  apply Forall_nil_2.
Qed.

#[local] Existing Instance no_devices.

(** [div x3, x1, x2] overflows. *)
Lemma alu_correct_witness :
  exists m', rv_NAME 64 rv_div 0x0220C1B3 0x80000000 hart5 = (inl 0x80000004, m')
             /\ xreg m' 3 = 2 ^ 63.
Proof.
  eexists. split.
  - refine (alu_correct 64 hart5 rv_div 0x0220C1B3 0x80000000 OpDiv false false (hart5_ok _) _
              eq_refl _ _ _); [concrete|discriminate|reflexivity|discriminate].
  - vm_compute. reflexivity.
Defined.

(** A store at a misaligned address traps, and leaves a well-formed hart. *)
Lemma insn_safe_witness :
  exists m', rv_NAME 64 rv_sd 0x0020B0A3 0x80000000 hart5
             = (inr (Trap CAUSE_MISALIGNED_STORE (Some (2 ^ 63 + 1))), m') /\ hart_ok 64 m'.
Proof.
  assert (forall a bs s w s' w', mmio_store (W := unit) a bs s w = Some (s', w') -> s' = s <| mip := mip s' |>)
    as Hst by (intros; discriminate).
  assert (forall a len w bs, 0 <= len -> mmio_load (W := unit) a len w = Some bs
            -> Z.of_nat (length bs) = len /\ Forall (in_range 8) bs) as Hld by (intros; discriminate).
  pose proof (insn_safe Hst Hld 64 hart5 rv_sd 0x0020B0A3 0x80000000 (hart5_ok _) ltac:(concrete))
    as Hs.
  destruct (rv_NAME 64 rv_sd 0x0020B0A3 0x80000000 hart5) as [r m'] eqn:E.
  assert (r = inr (Trap CAUSE_MISALIGNED_STORE (Some (2 ^ 63 + 1)))) as ->
    by (apply (f_equal fst) in E; cbn [fst] in E; rewrite <- E; vm_compute; reflexivity).
  exists m'. split; [reflexivity|]. by destruct Hs.
Defined.
