(* ===== verification/Control.v ===== *)
(** Control flow: the branches and jumps go where the comparison of the operands says,
    and a return from a trap goes back to where, and to the mode in which, the trap
    was taken. *)
From Stdlib Require Import Ascii.
From S2P Require Import Prelude Encoding Decode Decoder SoftPrim FpFlags Machine Csr Isa.
From S2P Require Import CsrProps Mmu Tlb MmuProps Insns Safe InsnProps Alu.

Section control.
Context {W : Type} `{Platform W}.
Implicit Types m : machine W.

(** ** Branches and jumps *)

(** Where an instruction goes: on, or to a target, with or without a link. *)
Inductive flow := Next | Goto (target : Z) (link : bool).

Definition branch (taken : bool) (target : Z) : flow := if taken then Goto target false else Next.

(** The comparisons are those of [xl]-bit numbers; the target of [jalr] is the sum with
    its lowest bit cleared. *)
Definition flow_of (xl : Z) (f : insn_func) (insn pc : Z) m : option flow :=
  let a := xreg m (rs1 insn) in
  let ua := wrap xl a in
  let ub := wrap xl (xreg m (rs2 insn)) in
  let dest := pc + sb_imm insn in
  match f with
  | rv_beq => Some (branch (ua =? ub) dest)
  | rv_bne => Some (branch (negb (ua =? ub)) dest)
  | rv_blt => Some (branch (sext xl ua <? sext xl ub) dest)
  | rv_bge => Some (branch (sext xl ub <=? sext xl ua) dest)
  | rv_bltu => Some (branch (ua <? ub) dest)
  | rv_bgeu => Some (branch (ub <=? ua) dest)
  | rv_jal => Some (Goto (pc + uj_imm insn) true)
  | rv_jalr => Some (Goto (2 * ((a + i_imm insn) / 2)) true)
  | _ => None
  end.

(** Without the compressed instructions, a target that is not a multiple of four traps
    and nothing is written; otherwise the program counter is the target, as an
    address of the hart's width. *)
Definition run_flow (xl next insn : Z) (fl : flow) m : (Z + exn) * machine W :=
  match fl with
  | Next => (inl next, m)
  | Goto target link =>
      if Z.testbit target 1 && negb (supports_extension "C" (proc m))
      then (inr (Trap CAUSE_MISALIGNED_FETCH (Some (u64 target))), m)
      else (inl (u64 (sext xl target)), if link then write_xreg (rd insn) next m else m)
  end.

Lemma bit1_of x : z2b (u64 x .& 2) = Z.testbit x 1.
Proof.
  change 2 with (2 ^ 1) at 1. rewrite z2b_bit by lia. rewrite wrap_testbit by lia. done.
Qed.

Lemma set_pc_spec xl target m : xl = 32 \/ xl = 64 ->
  set_pc (W := W) xl target m
  = (if Z.testbit target 1 && negb (supports_extension "C" (proc m))
     then (inr (Trap CAUSE_MISALIGNED_FETCH (Some (u64 target))), m)
     else (inl (u64 (sext xl target)), m)).
Proof.
  intros Hx. unfold set_pc, mbind, M_bind, gets. cbv zeta. rewrite bit1_of.
  rewrite sext_xlen_spec by lia.
  assert (sext xl (u64 target) = sext xl target) as -> by (destruct Hx as [-> | ->]; unfold sext, wrap; zdm).
  by destruct (_ && _).
Qed.

(** The link is written when the jump was possible. *)
Lemma run_link xl insn npc target m : xl = 32 \/ xl = 64 ->
  (target ← set_pc xl target; WRITE_RD insn npc ;; mret target : M W Z) m
  = run_flow xl npc insn (Goto target true) m.
Proof.
  intros Hx. unfold run_flow, mbind at 1, M_bind. rewrite set_pc_spec by done. by destruct (_ && _).
Qed.

Lemma run_branch xl insn npc (c c' : bool) target m : xl = 32 \/ xl = 64 -> c = c' ->
  (if c then set_pc xl target else mret npc : M W Z) m = run_flow xl npc insn (branch c' target) m.
Proof.
  intros Hx ->. unfold run_flow, branch. destruct c'; [by apply set_pc_spec|done].
Qed.

(** Registers of a well-formed hart are equal, or in order, when their low [xl] bits
    are. *)
Lemma xreg_compare xl m a b : hart_ok xl m ->
  let x := xreg m a in
  let y := xreg m b in
  (x =? y) = (wrap xl x =? wrap xl y)
  /\ s64 x = sext xl (wrap xl x) /\ s64 y = sext xl (wrap xl y)
  /\ (x <? y) = (wrap xl x <? wrap xl y) /\ (y <=? x) = (wrap xl y <=? wrap xl x).
Proof.
  intros Hm x y. pose proof (ok_xl xl m Hm) as Hxl.
  destruct (xreg_ok xl m a Hm) as [Cx Rx]. destruct (xreg_ok xl m b Hm) as [Cy Ry].
  fold x in Cx, Rx. fold y in Cy, Ry.
  assert (forall z, canonical xl z -> s64 z = sext xl (wrap xl z)) as Hs
    by (intros; by rewrite (canonical_s64 xl Hxl), (sext_of_wrap xl Hxl)).
  assert (forall u v, canonical xl u -> canonical xl v -> in_range 64 u -> in_range 64 v ->
            (u <? v) = (wrap xl u <? wrap xl v)) as Hlt.
  { intros u v Cu Cv Ru Rv. rewrite <- (canonical_ltu xl Hxl u v) by done.
    by rewrite !(wrap_small 64) by done. }
  split; [|split; [by apply Hs|split; [by apply Hs|split; [by apply Hlt|]]]].
  - destruct (Z.eqb_spec x y) as [->|Hn]; [by rewrite Z.eqb_refl|]. symmetry. apply Z.eqb_neq.
    intros E. apply Hn. rewrite <- (wrap_small 64 x), <- (wrap_small 64 y) by done.
    rewrite <- (wrap_sext 64 x), <- (wrap_sext 64 y) by lia. by rewrite (Hs x), (Hs y), E.
  - rewrite !Z.leb_antisym. f_equal. by apply Hlt.
Qed.

Lemma clear_bit0 x : x .& Z.lnot 1 = 2 * (x / 2).
Proof.
  rewrite <- Z.ldiff_land. change (Z.ldiff x 1) with (Z.ldiff x (Z.ones 1)).
  rewrite Z.ldiff_ones_r, shl_mul, shr_div by lia. change (2 ^ 1) with 2. lia.
Qed.

Lemma run_flow_u64 xl npc insn x m : xl = 32 \/ xl = 64 ->
  run_flow xl npc insn (Goto (2 * (u64 x / 2)) true) m = run_flow xl npc insn (Goto (2 * (x / 2)) true) m.
Proof.
  intros Hx. unfold run_flow.
  assert (u64 (2 * (u64 x / 2)) = u64 (2 * (x / 2))) as Eu by (unfold wrap; zdm).
  assert (Z.testbit (2 * (u64 x / 2)) 1 = Z.testbit (2 * (x / 2)) 1) as -> by (by rewrite <- !bit1_of, Eu).
  assert (sext xl (2 * (u64 x / 2)) = sext xl (2 * (x / 2))) as ->
    by (destruct Hx as [-> | ->]; unfold sext, wrap; zdm).
  by rewrite Eu.
Qed.

(** C7: A branch is taken exactly when the comparison of the xlen-bit operands holds;
    jal and jalr go to their target and link the next pc; a target that is not 4-byte
    aligned traps without the C extension, and then nothing is written. *)
Theorem branch_jump_correct xl m f insn pc fl :
  hart_ok xl m -> flow_of xl f insn pc m = Some fl ->
  rv_NAME xl f insn pc m = run_flow xl (next_pc xl f pc) insn fl m.
Proof.
  intros Hm Hf. pose proof (ok_xl xl m Hm) as Hxl.
  destruct (xreg_compare xl m (rs1 insn) (rs2 insn) Hm) as (He & Hsx & Hsy & Hl & Hg).
  unfold rv_NAME. fold (next_pc xl f pc). generalize (next_pc xl f pc) as npc. intros npc.
  destruct f; try discriminate Hf; injection Hf as <-; cbn [insn_body];
    match goal with |- ?c _ = _ => let h := get_head c in unfold h end;
    rewrite ?run_RS1, ?run_RS2.
  1-6: apply run_branch; [done|]; congruence.
  - by apply run_link.
  - rewrite run_link by done. rewrite clear_bit0. by apply run_flow_u64.
Qed.

(** ** Returns from traps *)

(** What a return makes of [mstatus], with [pie] and [pp] the fields of the handler's
    mode: the interrupt enable of the mode [p] returned to is [v]. *)
Definition popped (pie pp p v ms ms' : Z) : Prop :=
  get_field ms' (MSTATUS_UIE .<< p) = v /\ get_field ms' pie = 0 /\ get_field ms' pp = PRV_U
  /\ ms' .& Z.lnot (pie .| pp .| (MSTATUS_UIE .<< p)) = ms .& Z.lnot (pie .| pp .| (MSTATUS_UIE .<< p)).

Lemma lnot_lor_disjoint a b c : a .& Z.lnot (a .| b .| c) = 0 /\ b .& Z.lnot (a .| b .| c) = 0
  /\ c .& Z.lnot (a .| b .| c) = 0.
Proof.
  split; [|split]; apply Z.bits_inj'; intros i Hi;
    rewrite Z.land_spec, Z.lnot_spec, !Z.lor_spec, Z.bits_0 by done;
    by destruct (Z.testbit a i), (Z.testbit b i), (Z.testbit c i).
Qed.

Lemma pop_fields pie kp pp kq nq p v ms :
  Field pie kp 1 -> Field pp kq nq -> legal_prv p = true -> 0 <= v < 2 ->
  pie .& pp = 0 -> pie .& (MSTATUS_UIE .<< p) = 0 -> pp .& (MSTATUS_UIE .<< p) = 0 ->
  popped pie pp p v ms
    (set_field (set_field (set_field ms (MSTATUS_UIE .<< p) v) pie 0) pp PRV_U).
Proof.
  intros F1 F2 Hl Hv D1 D2 D3. pose proof (field_xIE p Hl) as F3. unfold popped.
  assert (forall a b, a .& b = 0 -> b .& a = 0) as Hc by (intros; by rewrite Z.land_comm).
  rewrite (get_set_field_other _ pp (_ .<< _)), (get_set_field_other _ pie (_ .<< _)) by auto.
  rewrite (get_set_field _ (_ .<< _) p 1), Z.mod_small by done.
  rewrite (get_set_field_other _ pp pie), (get_set_field _ pie kp 1), (get_set_field _ pp kq nq) by auto.
  rewrite !Z.mod_0_l by (apply Z.pow_nonzero; destruct F2; lia).
  split; [done|]. split; [done|]. split; [done|].
  destruct (lnot_lor_disjoint pie pp (MSTATUS_UIE .<< p)) as (E1 & E2 & E3).
  by rewrite (set_field_off _ pp kq nq), (set_field_off _ pie kp 1), (set_field_off _ _ p 1).
Qed.

(** The value a return writes is stored as it is, if the enable it restores is the one
    that is there or may be written. *)
Lemma pop_ok pr pie kp pp kq nq p v ms e val :
  wf_proc pr -> wf_mstatus_value pr ms -> legal_prv p = true ->
  Field pie kp 1 -> Field pp kq nq -> plain_field pie -> plain_field pp ->
  (p = PRV_U -> v = get_field ms (MSTATUS_UIE .<< p)) ->
  let ms' := set_field (set_field (set_field ms (MSTATUS_UIE .<< p) v) pie 0) pp PRV_U in
  wf_mstatus_value pr ms' /\ agree_off (mstatus_mask (max_xlen pr) e val) ms' ms.
Proof.
  intros Hp Hm Hl F1 F2 P1 P2 Hv. cbv zeta.
  assert (wf_mstatus_value pr (set_field ms (MSTATUS_UIE .<< p) v)
          /\ agree_off (mstatus_mask (max_xlen pr) e val) (set_field ms (MSTATUS_UIE .<< p) v) ms) as [H1 H2].
  { pose proof (field_xIE p Hl) as F3. destruct (Z.eqb_spec p PRV_U) as [E|Hn].
    - rewrite (Hv E), (set_get_field ms _ p 1 F3). split; [done|]. by intros ???.
    - assert (plain_field (MSTATUS_UIE .<< p)) as P3.
      { revert Hl Hn. unfold legal_prv.
        intros [[->%Z.eqb_eq| ->%Z.eqb_eq]%orb_prop| ->%Z.eqb_eq]%orb_prop Hn;
          [done|exact plain_SIE|exact plain_MIE]. }
      split; [by apply set_field_wf_mstatus|]. by apply (set_field_agree _ _ _ p 1), plain_field_mask. }
  split; [by apply set_field_wf_mstatus, set_field_wf_mstatus|].
  eapply agree_off_trans; [by apply (set_field_agree _ _ pp kq nq), plain_field_mask|].
  eapply agree_off_trans; [by apply (set_field_agree _ _ pie kp 1), plain_field_mask|done].
Qed.

Lemma set_privilege_legal p m : legal_prv p = true ->
  set_privilege (W := W) p m = (inl tt, (flush m) <| state := (state m) <| prv := p |> |>).
Proof.
  unfold legal_prv. by intros [[->%Z.eqb_eq| ->%Z.eqb_eq]%orb_prop| ->%Z.eqb_eq]%orb_prop.
Qed.

(** The common part of [mret] and [sret]: back to [target], in mode [p], with the
    status [ms]. *)
Definition return_to (xl target p ms : Z) : M W Z :=
  npc ← set_pc_and_serialize xl target;
  set_privilege p ;; set_csr CSR_MSTATUS ms ;; mret npc.

Lemma return_to_spec xl target p ms m :
  xl = 32 \/ xl = 64 -> wf m -> legal_prv p = true ->
  Z.testbit target 1 = false \/ supports_extension "C" (proc m) = true ->
  wf_mstatus_value (proc m) ms ->
  agree_off (mstatus_mask (max_xlen (proc m)) (ext (proc m)) ms) ms (mstatus (state m)) ->
  exists u, return_to xl target p ms m
  = (inl PC_SERIALIZE_AFTER,
     m <| state := (state m) <| Machine.pc := target |> <| prv := p |> <| mstatus := ms |> |>
       <| mmu := u |>).
Proof.
  intros Hx [Hp Hs] Hl Hc Hms Ha. unfold return_to, set_pc_and_serialize.
  unfold mbind, M_bind. rewrite set_pc_spec by done.
  assert (Z.testbit target 1 && negb (supports_extension "C" (proc m)) = false) as ->
    by (destruct Hc as [-> | ->]; [done|apply andb_false_r]).
  unfold modify_state, modify. cbn [mret M_ret]. rewrite set_privilege_legal by done.
  set (m1 := m <| state := (state m) <| Machine.pc := target |> |>).
  set (m2 := (flush m1) <| state := (state m1) <| prv := p |> |>).
  assert (wf m2) as Hw by (split; [exact Hp|]; destruct Hs; by csr_leaf).
  destruct (set_csr_mstatus_id m2 ms Hw Hms Ha) as [u E]. exists u. by rewrite E.
Qed.

(** What is left of a trap after the return. *)
Definition resumed (epc : Z) m m' : Prop :=
  let s := state m in
  let s' := state m' in
  let ie := MSTATUS_UIE .<< prv s in
  pc s' = epc /\ prv s' = prv s /\ get_field (mstatus s') ie = get_field (mstatus s) ie
  /\ XPR s' = XPR s /\ FPR s' = FPR s /\ mem m' = mem m /\ fp m' = fp m
  /\ fflags s' = fflags s /\ frm s' = frm s.

Lemma field_bit ms p : legal_prv p = true -> 0 <= get_field ms (MSTATUS_UIE .<< p) < 2.
Proof. intros F%field_xIE. exact (get_field_range ms _ p 1 F). Qed.

Lemma get_field_off a b f d : f .& d = f -> a .& d = b .& d -> get_field a f = get_field b f.
Proof.
  intros Hf E. unfold get_field. f_equal.
  by rewrite <- Hf, (Z.land_comm f d), !Z.land_assoc, E.
Qed.

(** A return after a trap, for the stack of one handler mode. *)
Lemma push_pop xl pr pie kp pp kq nq ie target p ms m1 :
  xl = 32 \/ xl = 64 -> wf m1 -> proc m1 = pr -> legal_prv p = true ->
  Field pie kp 1 -> Field pp kq nq -> plain_field pie -> plain_field pp ->
  pie .& pp = 0 -> pie .& (MSTATUS_UIE .<< p) = 0 -> pp .& (MSTATUS_UIE .<< p) = 0 ->
  (MSTATUS_UIE .<< PRV_U) .& Z.lnot (pie .| pp .| ie) = MSTATUS_UIE .<< PRV_U ->
  Z.testbit target 1 = false \/ supports_extension "C" pr = true ->
  pushed pie pp ie p ms (mstatus (state m1)) ->
  let ms1 := mstatus (state m1) in
  let q := get_field ms1 pp in
  let ms2 := set_field (set_field (set_field ms1 (MSTATUS_UIE .<< q) (get_field ms1 pie)) pie 0) pp PRV_U in
  q = p /\ get_field ms2 (MSTATUS_UIE .<< p) = get_field ms (MSTATUS_UIE .<< p)
  /\ exists u, return_to xl target q ms2 m1
  = (inl PC_SERIALIZE_AFTER,
     m1 <| state := (state m1) <| Machine.pc := target |> <| prv := q |> <| mstatus := ms2 |> |>
        <| mmu := u |>).
Proof.
  intros Hx Hw Epr Hl F1 F2 P1 P2 D1 D2 D3 D4 Hc (Epie & Epp & _ & Eoff) ms1 q ms2. subst pr.
  assert (q = p) as Eq by done. unfold ms2. rewrite Eq. clear ms2 Eq q.
  fold ms1 in Epie, Epp, Eoff. pose proof (field_bit ms p Hl) as Hb. rewrite Epie.
  assert (wf_mstatus_value (proc m1) ms1) as Hms by apply wf_mstatus_of, Hw.
  split; [done|]. split; [by apply (pop_fields pie kp pp kq nq)|].
  assert (p = PRV_U -> get_field ms (MSTATUS_UIE .<< p) = get_field ms1 (MSTATUS_UIE .<< p)) as HU.
  { intros ->. symmetry. by apply (get_field_off _ _ _ _ D4). }
  destruct (pop_ok (proc m1) pie kp pp kq nq p _ ms1 (ext (proc m1))
              (set_field (set_field (set_field ms1 (MSTATUS_UIE .<< p)
                 (get_field ms (MSTATUS_UIE .<< p))) pie 0) pp PRV_U)
              (proj1 Hw) Hms Hl F1 F2 P1 P2 HU) as [H1 H2].
  apply return_to_spec; done.
Qed.

Lemma mret_return xl insn pc m : prv (state m) = PRV_M ->
  rv_NAME xl rv_mret insn pc m
  = return_to xl (mepc (state m)) (get_field (mstatus (state m)) MSTATUS_MPP)
      (mret_mstatus (mstatus (state m))) m.
Proof.
  intros E. unfold rv_NAME. cbn [insn_body].
  unfold exec_mret, require_privilege, return_to, require, mbind, M_bind, gets. by rewrite E.
Qed.
Lemma sret_return xl insn pc m : prv (state m) = PRV_S ->
  rv_NAME xl rv_sret insn pc m
  = return_to xl (sepc (state m)) (get_field (mstatus (state m)) MSTATUS_SPP)
      (sret_mstatus (mstatus (state m))) m.
Proof.
  intros E. unfold rv_NAME. cbn [insn_body].
  unfold exec_sret, require_privilege, return_to, require, mbind, M_bind, gets. by rewrite E.
Qed.

(** C8: A trap followed by the return of the mode that handles it (mret, or sret when
    delegated) resumes at the saved pc in the interrupted mode with its interrupt
    enable, registers, memory and floating-point state as they were. *)
Theorem trap_return xl cause badaddr epc insn pc m :
  wf m -> xl = max_xlen (proc m) -> dcsr_cause (dcsr (state m)) = 0 ->
  (cause =? CAUSE_BREAKPOINT) && breakpoint_to_debug (state m) = false ->
  Z.testbit epc 1 = false \/ supports_extension "C" (proc m) = true ->
  let ret := if delegated xl cause (state m) then rv_sret else rv_mret in
  exists m1 m2, take_trap cause badaddr epc m = (inl tt, m1)
    /\ rv_NAME xl ret insn pc m1 = (inl PC_SERIALIZE_AFTER, m2) /\ resumed epc m m2.
Proof.
  intros Hw -> Hd Hb Hc. set (xl := max_xlen (proc m)).
  assert (xl = 32 \/ xl = 64) as Hx by apply Hw.
  pose proof (wf_prv _ _ (proj2 Hw)) as Hl.
  destruct (take_trap_wf m cause badaddr epc Hw) as (m1 & E & Hw1).
  destruct (take_trap_spec cause badaddr epc m Hw Hd Hb) as [u Eu].
  rewrite E in Eu. injection Eu as Em. exists m1.
  assert (proc m1 = proc m) as Ep by (by rewrite Em).
  unfold trapped in Em. destruct (delegated (max_xlen (proc m)) cause (state m)) eqn:Edel;
    subst xl; rewrite ?Edel; cbv zeta.
  - unfold delegated in Edel. cbv zeta in Edel. apply andb_prop in Edel as [[Hs _]%andb_prop _].
    destruct (push_pop (max_xlen (proc m)) (proc m) MSTATUS_SPIE 5 MSTATUS_SPP 8 1 MSTATUS_SIE epc
                (prv (state m)) (mstatus (state m)) m1) as (Eq & Eg & u2 & E2); try done; try apply _;
      [| |by rewrite Em; destruct badaddr; apply trap_push_s|].
    1-2: revert Hl; unfold legal_prv;
      by intros [[->%Z.eqb_eq| ->%Z.eqb_eq]%orb_prop| ->%Z.eqb_eq]%orb_prop.
    eexists. split; [done|]. rewrite sret_return by (by rewrite Em; destruct badaddr).
    assert (sepc (state m1) = epc) as -> by (by rewrite Em; destruct badaddr).
    split; [exact E2|]. split; [done|]. split; [exact Eq|]. split; [exact Eg|].
    rewrite Em. by destruct badaddr.
  - destruct (push_pop (max_xlen (proc m)) (proc m) MSTATUS_MPIE 7 MSTATUS_MPP 11 2 MSTATUS_MIE epc
                (prv (state m)) (mstatus (state m)) m1) as (Eq & Eg & u2 & E2); try done; try apply _;
      [| |by rewrite Em; destruct badaddr; apply trap_push_m|].
    1-2: revert Hl; unfold legal_prv;
      by intros [[->%Z.eqb_eq| ->%Z.eqb_eq]%orb_prop| ->%Z.eqb_eq]%orb_prop.
    eexists. split; [done|]. rewrite mret_return by (by rewrite Em; destruct badaddr).
    assert (mepc (state m1) = epc) as -> by (by rewrite Em; destruct badaddr).
    split; [exact E2|]. split; [done|]. split; [exact Eq|]. split; [exact Eg|].
    rewrite Em. by destruct badaddr.
Qed.

End control.

(** ** The theorems on concrete harts *)

#[local] Existing Instance no_devices.

(** [beq x0, x3, 8] is taken. *)
Lemma branch_jump_correct_witness :
  rv_NAME 64 rv_beq 0x00300463 0x80000000 hart5 = (inl 0x80000008, hart5).
Proof.
  refine (branch_jump_correct 64 hart5 rv_beq 0x00300463 0x80000000 (Goto 0x80000008 false)
            (hart5_ok _) _). vm_compute. reflexivity.
Defined.

(** A breakpoint of user mode that supervisor mode handles. *)
Lemma trap_return_witness :
  exists m1 m2, take_trap CAUSE_BREAKPOINT None 0x2002 hart1 = (inl tt, m1)
    /\ rv_NAME 64 rv_sret 0 0x1000 m1 = (inl PC_SERIALIZE_AFTER, m2) /\ resumed 0x2002 hart1 m2.
Proof.
  apply (trap_return 64 CAUSE_BREAKPOINT None 0x2002 0 0x1000 hart1 hart1_wf); try reflexivity.
  right. reflexivity.
Defined.
