(* ===== verification/FetchProps.v ===== *)
(** Instruction fetch on a well-formed hart: it ends by a trap, by the match of a
    trigger or with an instruction the bodies can be given, whatever the program counter
    and the translation. *)
From S2P Require Import Prelude SoftPrim FpFlags Encoding Decode Decoder Machine Csr Isa Mmu.
From S2P Require Import Tlb Insns Safe InsnProps.

(** ** Long instructions *)

(** An encoding of at most 32 bits, or the illegal instruction. *)
Definition short_desc (d : insn_desc_t) : bool :=
  match i_func d with
  | illegal_instruction => true
  | _ => ((i_mask d .& 3 =? 3) && (i_match d .& 3 <? 3))
         || ((i_mask d .& 0x1f =? 0x1f) && (i_match d .& 0x1f <? 0x1f))
  end.

Lemma base_short : forallb short_desc base_instructions = true.
Proof. vm_compute. reflexivity. Qed.

Lemma matches_low bits d mask : insn_matches bits d = true -> i_mask d .& mask = mask ->
  bits .& mask = i_match d .& mask.
Proof.
  intros E%Z.eqb_eq Hm. by rewrite <- E, <- Z.land_assoc, Hm.
Qed.

Lemma short_length bits d : short_desc d = true -> insn_matches bits d = true ->
  insn_length bits <= 4 \/ i_func d = illegal_instruction.
Proof.
  intros Hs Hm. unfold short_desc in Hs.
  assert (forall b, (match i_func d with illegal_instruction => true | _ => b end) = true ->
            b = true \/ i_func d = illegal_instruction) as Hcase by (intros b; destruct (i_func d); auto).
  apply Hcase in Hs as [Hs|]; [left|by right]. unfold insn_length.
  apply orb_prop in Hs as [[E L]%andb_prop|[E L]%andb_prop]; apply Z.eqb_eq in E;
    rewrite <- (matches_low bits d _ Hm E) in L.
  - rewrite L. lia.
  - rewrite L. clear. destruct (_ <? _); lia.
Qed.

Lemma decodes_long bits f : decodes_to base_instructions bits f ->
  insn_length bits <= 4 \/ f = illegal_instruction.
Proof.
  intros [Hf|[_ ->]]; [|by right].
  pose proof base_short as Hb. revert Hb Hf. generalize base_instructions as l.
  induction l as [|d l IH]; [done|]. cbn [forallb first_match].
  intros [Hd Hl]%andb_prop. destruct (insn_matches bits d) eqn:E; [|by apply IH].
  intros [= <-]. by apply short_length.
Qed.

Lemma insn_length_low x y : wrap 16 x = wrap 16 y -> insn_length x = insn_length y.
Proof.
  intros E. unfold insn_length.
  assert (forall k, 0 <= k <= 16 -> x .& (2 ^ k - 1) = y .& (2 ^ k - 1)) as Hl.
  { intros k Hk. rewrite !land_mask by lia.
    change (wrap k x = wrap k y). rewrite <- (wrap_narrow k 16 x), <- (wrap_narrow k 16 y) by lia.
    by rewrite E. }
  change 0x03 with (2 ^ 2 - 1). change 0x1f with (2 ^ 5 - 1). change 0x3f with (2 ^ 6 - 1).
  by rewrite !Hl by lia.
Qed.

(** The low parcel of a word that more parcels were added to. *)
Lemma low_parcel x y k : 16 <= k -> wrap 16 (x .| u64 (y .<< k)) = wrap 16 x.
Proof.
  intros Hk. rewrite wrap_lor by lia. apply Z.bits_inj'. intros i Hi.
  rewrite Z.lor_spec, !wrap_testbit by done. destruct (Z.ltb_spec i 16); [|done]. cbn [andb].
  rewrite (Z.shiftl_spec_low y k i) by lia. by rewrite andb_false_r, orb_false_r.
Qed.

Section fetch.
Context {W : Type} `{Platform W}.
Context (xl : Z).
Hypothesis mmio_load_bytes : forall a len w bs, 0 <= len ->
  mmio_load a len w = Some bs -> Z.of_nat (length bs) = len /\ Forall (in_range 8) bs.

(** ** Parcels *)

Lemma safe_read_parcel (f : machine W -> Z) :
  safe xl (fun av => in_range 16 (snd av)) (gets (fun m => (f m, mem_read 2 (f m) m))).
Proof. apply safe_gets. intros m Hm. apply (mem_read_range m 2), Hm. Qed.

Lemma safe_fetch_slow_path addr :
  safe (W := W) xl (fun av => in_range 16 (snd av)) (fetch_slow_path addr).
Proof.
  unfold fetch_slow_path. eapply safe_bind; [apply safe_translate|intros paddr _].
  apply safe_if; intros _; [by apply safe_throw|].
  eapply safe_bind; [by apply (safe_gets xl (fun _ => True))|intros is_mem _]. apply safe_if; intros _.
  - eapply safe_bind; [apply safe_tlb_refill|intros _ _].
    eapply (safe_bind xl (in_range 16)); [|intros v Hv; by apply safe_ret].
    apply safe_gets. intros m Hm. apply (mem_read_range m 2), Hm.
  - eapply (safe_bind xl (fun r => forall bs, r = Some bs -> in_range 16 (bytes_to bs))).
    + apply safe_gets. intros m Hm bs Hbs. apply mmio_load_bytes in Hbs as [HL HF]; [|lia].
      change 16 with (8 * 2). rewrite <- HL. by apply bytes_to_range.
    + intros [bs|] Hbs; [apply safe_ret; by apply Hbs|by apply safe_throw].
Qed.

Lemma safe_translate_insn_addr addr :
  safe (W := W) xl (fun av => in_range 16 (snd av)) (translate_insn_addr addr).
Proof.
  unfold translate_insn_addr. cbv zeta.
  eapply safe_bind; [by apply (safe_gets xl (fun _ => True))|intros tag _].
  apply safe_if; intros _; [by apply safe_read_parcel|].
  apply safe_if; intros _; [|apply safe_fetch_slow_path].
  eapply safe_bind; [apply safe_read_parcel|intros [a v] Hv].
  eapply safe_bind; [by apply (safe_gets xl (fun _ => True))|intros i _].
  apply safe_if; intros _; [by apply safe_throw|by apply safe_ret].
Qed.

Lemma safe_insn_part signed addr k :
  safe (W := W) xl (fun x => exists v, in_range 16 v /\ x = u64 ((if signed : bool then u64 (s16 v) else v) .<< k))
    (insn_part signed addr k).
Proof.
  unfold insn_part. eapply safe_bind; [apply safe_translate_insn_addr|intros [a v] Hv].
  apply safe_ret. by exists v.
Qed.

(** ** The instruction *)

(** A word of at most four bytes is sign-extended; the others keep their length. *)
Definition fetched (insn : Z) : Prop := insn_ok insn \/ 4 < insn_length insn.

Lemma insn_ok_sext w x : 0 < w <= 32 -> insn_ok (u64 (sext w x)).
Proof.
  intros Hw. unfold insn_ok, srange. rewrite sext_wrap by lia.
  pose proof (sext_range w x ltac:(lia)) as Hr. pose proof (pow2_le (w - 1) 31 ltac:(lia)).
  rewrite sext_small by lia. lia.
Qed.

Lemma safe_fetch_parts addr insn : in_range 16 insn ->
  safe (W := W) xl fetched (fetch_parts addr insn).
Proof.
  intros Hi. unfold fetch_parts. cbv zeta.
  destruct (Z.eqb_spec (insn_length insn) 4) as [E4|N4].
  { eapply safe_bind; [apply safe_insn_part|intros hi (v & Hv & ->)]. apply safe_ret. left.
    rewrite last_part by (done || lia). apply insn_ok_sext. lia. }
  destruct (Z.eqb_spec (insn_length insn) 2) as [E2|N2].
  { apply safe_ret. left. apply insn_ok_sext. lia. }
  assert (4 < insn_length insn) as Hl by (revert N4 N2; unfold insn_length; repeat case_match; lia).
  destruct (Z.eqb_spec (insn_length insn) 6) as [E6|N6].
  - eapply safe_bind; [apply safe_insn_part|intros p4 (v4 & _ & ->)].
    eapply safe_bind; [apply safe_insn_part|intros p2 (v2 & _ & ->)]. apply safe_ret. right.
    rewrite (insn_length_low _ insn); [done|]. by rewrite !low_parcel by lia.
  - eapply safe_bind; [apply safe_insn_part|intros p6 (v6 & _ & ->)].
    eapply safe_bind; [apply safe_insn_part|intros p4 (v4 & _ & ->)].
    eapply safe_bind; [apply safe_insn_part|intros p2 (v2 & _ & ->)]. apply safe_ret. right.
    rewrite (insn_length_low _ insn); [done|]. by rewrite !low_parcel by lia.
Qed.

Lemma safe_decode insn : fetched insn ->
  safe (W := W) xl (fun f => fetch_ok (InsnFetch f insn)) (decode insn).
Proof.
  intros Hi m Hm. unfold decode. pose proof (ok_decoder xl m Hm) as Hd.
  destruct (decode_insn_spec base_instructions _ insn Hd) as (f & d' & -> & Hf & Hd').
  destruct Hm as [Hp Hx Hs Hfl Hmm _ Hic]. split.
  - destruct Hi as [Hi|Hl]; [by left|right]. apply decodes_long in Hf as [?|]; [lia|done].
  - split; try done; [by destruct Hp|]. destruct Hs as [[] ? ? ?]. by split.
Qed.

Lemma safe_refill_icache addr :
  safe (W := W) xl (fun e => fetch_ok (ic_data e) /\ (ic_tag e = addr \/ ic_tag e = invalid_tag))
    (refill_icache addr).
Proof.
  unfold refill_icache. eapply safe_bind; [apply safe_translate_insn_addr|intros [a v] Hv].
  cbv zeta. eapply safe_bind; [by apply safe_fetch_parts|intros insn Hi].
  eapply safe_bind; [by apply safe_decode|intros f Hf].
  eapply safe_bind; [by apply (safe_gets xl (fun _ => True))|intros traced _].
  apply safe_if; intros _; [|apply safe_ret; split; [done|by left]].
  eapply (safe_bind xl (fun _ => True)); [|intros _ _; apply safe_ret; split; [done|by right]].
  apply safe_modify. intros m Hm. by apply hart_ok_world.
Qed.

Lemma safe_load_insn addr : safe (W := W) xl fetch_ok (load_insn addr).
Proof. eapply safe_bind; [apply safe_refill_icache|intros e [He _]]. by apply safe_ret. Qed.

(** An entry refilled for an even address. *)
Lemma safe_refill_entry addr (k : icache_entry_t -> nat) : addr mod 2 = 0 ->
  safe (W := W) xl fetch_ok
    (e ← refill_icache addr;
     modify (fun m => m <| mmu := (mmu m) <| icache := <[k e := e]> (icache (mmu m)) |> |>) ;;
     mret (ic_data e)).
Proof.
  intros Ha. eapply safe_bind; [apply safe_refill_icache|intros e [He Ht]].
  eapply (safe_bind xl (fun _ => True)); [|intros _ _; by apply safe_ret].
  apply safe_modify. intros m Hm. apply hart_ok_mmu; [|done].
  destruct (ok_icache xl m Hm) as [HL HF]. split; [by cbn; rewrite length_insert|].
  apply Forall_insert; [done|]. split; [done|]. destruct Ht as [-> | ->]; [by left|by right].
Qed.

Lemma icache_at_ok (m : machine W) i : hart_ok xl m -> entry_ok (icache_at m i).
Proof.
  intros Hm. unfold icache_at. apply Forall_default; [apply (ok_icache xl m Hm)|].
  split; [by right|by right].
Qed.

Lemma safe_access_icache addr : addr mod 2 = 0 ->
  safe (W := W) xl fetch_ok (access_icache addr).
Proof.
  intros Ha. unfold access_icache. eapply (safe_bind xl entry_ok).
  - apply safe_gets. intros m Hm. by apply icache_at_ok.
  - intros e [He _]. apply safe_if; intros _; [by apply safe_ret|].
    by apply (safe_refill_entry addr (fun _ => Z.to_nat (icache_index addr))).
Qed.
End fetch.

(** ** A fetch leaves the registers alone *)

Section same.
Context {W : Type} `{Platform W}.

Definition same_state {A} (c : M W A) : Prop := forall m, state (snd (c m)) = state m.

Lemma same_ret {A} (a : A) : same_state (mret a). Proof. done. Qed.
Lemma same_throw {A} e : same_state (A := A) (throw e). Proof. done. Qed.
Lemma same_gets {A} (f : machine W -> A) : same_state (gets f). Proof. done. Qed.
Lemma same_bind {A B} (c : M W A) (k : A -> M W B) :
  same_state c -> (forall a, same_state (k a)) -> same_state (c ≫= k).
Proof.
  intros Hc Hk m. unfold mbind, M_bind. specialize (Hc m). destruct (c m) as [[a|e] m1]; [|done].
  by rewrite Hk.
Qed.
Lemma same_modify (f : machine W -> machine W) :
  (forall m, state (f m) = state m) -> same_state (modify f).
Proof. done. Qed.

Lemma walk_loop_state n sh bits size su pum mxr type addr base (m : machine W) :
  state (snd (walk_loop n sh bits size su pum mxr type addr base m)) = state m.
Proof.
  revert sh base. induction n as [|n IH]; intros sh base; [done|]. cbn [walk_loop].
  cbv zeta. by repeat case_match.
Qed.

Lemma same_translate addr type : same_state (translate addr type).
Proof.
  intros m. unfold translate, mbind, M_bind, walk. repeat case_match; simplify_eq; try done; cbn.
  all: match goal with E : walk_loop ?n ?sh ?b ?z ?su ?pum ?mxr ?t ?a ?base ?m0 = _ |- _ =>
         pose proof (walk_loop_state n sh b z su pum mxr t a base m0) as Hs; by rewrite E in Hs end.
Qed.

End same.

Ltac same_step :=
  match goal with
  | |- same_state (_ ≫= _) => apply same_bind; [|intros ?]
  | |- same_state (if ?c then _ else _) => destruct c
  | |- same_state (match ?c with Some _ => _ | None => _ end) => destruct c
  | |- same_state (let '(_, _) := ?c in _) => destruct c
  | |- same_state (let _ := _ in _) => cbv zeta
  | |- same_state (mret _) => apply same_ret
  | |- same_state (throw _) => apply same_throw
  | |- same_state (gets _) => apply same_gets
  | |- same_state (translate _ _) => apply same_translate
  | |- same_state (modify _) => by apply same_modify
  | |- same_state (tlb_refill _ _ _) => by apply same_modify
  | |- same_state (trace_access _ _ _) => by apply same_modify
  end.

Section same_fetch.
Context {W : Type} `{Platform W}.

Lemma same_translate_insn_addr addr : same_state (W := W) (translate_insn_addr addr).
Proof. unfold translate_insn_addr, fetch_slow_path. repeat same_step. Qed.

Lemma same_insn_part signed addr k : same_state (W := W) (insn_part signed addr k).
Proof. unfold insn_part. apply same_bind; [apply same_translate_insn_addr|]. intros [a v]. by apply same_ret. Qed.

Lemma same_refill_icache addr : same_state (W := W) (refill_icache addr).
Proof.
  unfold refill_icache, fetch_parts.
  repeat first [apply same_translate_insn_addr|apply same_insn_part|same_step].
  intros m. unfold decode. by destruct (decode_insn _ _) as [[f d]|].
Qed.

Lemma same_access_icache addr : same_state (W := W) (access_icache addr).
Proof. unfold access_icache. repeat first [apply same_refill_icache|same_step]. Qed.
Lemma same_load_insn addr : same_state (W := W) (load_insn addr).
Proof. unfold load_insn. repeat first [apply same_refill_icache|same_step]. Qed.
End same_fetch.
