(* ===== verification/Step.v ===== *)
(** The fetch, decode and execute loop: [processor_t::step] of riscv/execute.cc.

    The commit log and the histogram are not compiled in by default, and [disasm] only
    prints: neither is modelled. *)
From S2P Require Import Prelude Encoding Decode Decoder Machine Csr Mmu Insns.

Definition ACTION_DEBUG_EXCEPTION : Z := MCONTROL_ACTION_DEBUG_EXCEPTION.
Definition ACTION_DEBUG_MODE : Z := MCONTROL_ACTION_DEBUG_MODE.
Definition MAX_INSN_LENGTH : Z := 8.

(** The variables of an iteration of [step]'s loop, which its exception handlers read. *)
Record locals := Locals { l_pc : Z; l_instret : Z }.

Section step.
Context {W : Type} `{Platform W}.

(** ** Code with these variables

    An exception leaves the variables and the machine as they were at the throw. *)
Definition B (A : Type) : Type := locals -> machine W -> (A + exn) * locals * machine W.

#[global] Instance B_ret : MRet B := fun A a l m => (inl a, l, m).
#[global] Instance B_bind : MBind B := fun A B k c l m =>
  match c l m with
  | (inl a, l, m) => k a l m
  | (inr e, l, m) => (inr e, l, m)
  end.
Definition lift {A} (c : M W A) : B A := fun l m => let '(r, m) := c m in (r, l, m).
Definition get_locals : B locals := fun l m => (inl l, l, m).
Definition set_pc_local (pc : Z) : B unit := fun l m => (inl tt, Locals pc (l_instret l), m).
Definition incr_instret : B unit := fun l m => (inl tt, Locals (l_pc l) (l_instret l + 1), m).

(** ** Executing one instruction *)

Definition execute_insn (pc : Z) (fetch : insn_fetch_t) : M W Z := fun m =>
  rv_NAME (xlen (proc m)) (if_func fetch) (if_insn fetch) pc m.

(** The body of [pc = execute_insn(this, pc, fetch)]. *)
Definition execute_next (fetch : insn_fetch_t) : B unit :=
  l ← get_locals;
  pc ← lift (execute_insn (l_pc l) fetch);
  set_pc_local pc.

Definition slow_path (m : machine W) : bool :=
  debug (proc m) || negb (bool_decide (single_step (state m) = STEP_NONE))
  || z2b (dcsr_cause (dcsr (state m))).

(** The macro [advance_pc]: [true] where it breaks out of the loop around it. *)
Definition advance_pc : B bool :=
  l ← get_locals;
  if invalid_pc (l_pc l) then
    (if l_pc l =? PC_SERIALIZE_BEFORE then lift (modify_state (fun s => s <| serialized := true |>))
     else if l_pc l =? PC_SERIALIZE_AFTER then incr_instret
     else lift (throw Abort)) ;;
    s ← lift (gets state);
    set_pc_local (Machine.pc s) ;; mret true
  else
    lift (modify_state (fun s => s <| Machine.pc := l_pc l |>)) ;; incr_instret ;; mret false.

(** ** The slow path *)

Definition start_stepping (s : state_t) : state_t :=
  if bool_decide (single_step s = STEP_STEPPING) then s <| single_step := STEP_STEPPED |> else s.

Definition end_stepping : M W unit :=
  modify_state (fun s => s <| single_step := STEP_NONE |>) ;; enter_debug_mode DCSR_CAUSE_STEP.

Fixpoint slow_loop (fuel : nat) (n : Z) : B unit :=
  match fuel with
  | O => mret tt
  | S fuel =>
      l ← get_locals;
      if l_instret l <? n then
        lift (modify_state start_stepping) ;;
        fetch ← lift (load_insn (l_pc l));
        execute_next fetch ;;
        l ← get_locals;
        let serialize_before := l_pc l =? PC_SERIALIZE_BEFORE in
        stop ← advance_pc;
        if stop : bool then mret tt
        else
          s ← lift (gets state);
          if bool_decide (single_step s = STEP_STEPPED) && negb serialize_before
          then lift end_stepping
          else slow_loop fuel n
      else mret tt
  end.

(** ** The fast path

    [ICACHE_ACCESS(i)] for [i] from the entry of the program counter: the cases of the
    [switch] fall through as long as the next entry of the instruction cache is the next
    instruction.  [Some j]: [goto miss] with [ic_entry] at [j]; [None]: out of the
    [switch]. *)
Fixpoint icache_run (fuel : nat) (n i : Z) : B (option Z) :=
  match fuel with
  | O => mret None
  | S fuel =>
      e ← lift (gets (fun m => icache_at m i));
      execute_next (ic_data e) ;;
      l ← get_locals;
      if i =? ICACHE_ENTRIES - 1 then mret None
      else
        e ← lift (gets (fun m => icache_at m (i + 1)));
        if negb (ic_tag e =? l_pc l) then mret (Some (i + 1))
        else if l_instret l + 1 =? n then mret None
        else
          incr_instret ;;
          lift (modify_state (fun s => s <| Machine.pc := l_pc l |>)) ;;
          icache_run fuel n (i + 1)
  end.

(** [refill_icache(pc, ic_entry)] *)
Definition refill_entry (pc j : Z) : M W unit :=
  e ← refill_icache pc;
  modify (fun m => m <| mmu := (mmu m) <| icache := <[Z.to_nat j := e]> (icache (mmu m)) |> |>).

(** After a miss: the entry before [j] is of the instruction that has just run. *)
Definition refill_after_miss (j : Z) : B unit :=
  l ← get_locals;
  e ← lift (gets (fun m => icache_at m (j - 1)));
  if (ic_tag e <? l_pc l) && (l_pc l <=? u64 (ic_tag e + MAX_INSN_LENGTH))
  then lift (refill_entry (l_pc l) j) else mret tt.

Fixpoint fast_loop (fuel : nat) (n : Z) : B unit :=
  match fuel with
  | O => mret tt
  | S fuel =>
      l ← get_locals;
      if l_instret l <? n then
        let idx := icache_index (l_pc l) in
        lift (access_icache (l_pc l)) ;;
        miss ← icache_run (Z.to_nat (ICACHE_ENTRIES - idx)) n idx;
        stop ← advance_pc;
        if stop : bool then mret tt
        else
          match miss with Some j => refill_after_miss j | None => mret tt end ;;
          fast_loop fuel n
      else mret tt
  end.

(** The body of the [try]. *)
Definition try_block (n : Z) : B unit :=
  lift take_interrupt ;;
  slow ← lift (gets slow_path);
  if slow : bool then slow_loop (Z.to_nat n) n else fast_loop (Z.to_nat n) n.

(** ** The handlers *)

Definition on_trap (cause : Z) (badaddr : option Z) (pc : Z) : M W unit :=
  take_trap cause badaddr pc ;;
  s ← gets state;
  if bool_decide (single_step s = STEP_STEPPED) then end_stepping else mret tt.

(** [true] where [advance_pc] breaks, here out of the loop of [step]. *)
Definition on_trigger (t : trigger_matched_t) : B bool :=
  mt ← lift (gets (fun m => matched_trigger (mmu m)));
  stop ←
    match mt with
    | None => mret false
    | Some _ =>
        l ← get_locals;
        fetch ← lift (load_insn (l_pc l));
        execute_next fetch ;;
        stop ← advance_pc;
        if stop : bool then mret true
        else
          lift (modify (fun m => m <| mmu := (mmu m) <| matched_trigger := None |> |>)) ;;
          mret false
    end;
  if stop : bool then mret true
  else
    l ← get_locals;
    s ← lift (gets state);
    let action := mc_action (mcontrol_at s (tm_index t)) in
    (if action =? ACTION_DEBUG_MODE then lift (enter_debug_mode DCSR_CAUSE_HWBP)
     else if action =? ACTION_DEBUG_EXCEPTION
     then lift (take_trap CAUSE_BREAKPOINT (Some (tm_address t)) (l_pc l))
     else lift (throw Abort)) ;;
    mret false.

(** ** The loop of [step]

    [Continue n]: [n] instructions are left; [Return]: [step] returns; [Uncaught e]: an
    exception leaves it. *)
Inductive step_result := Continue (n : Z) | Return | Uncaught (e : exn).

Definition retire (n : Z) (l : locals) (m : machine W) : step_result * machine W :=
  (Continue (u64 (n - l_instret l)),
   m <| state := (state m) <| minstret := u64 (minstret (state m) + l_instret l) |> |>).

Definition step_once (n : Z) (m : machine W) : step_result * machine W :=
  match try_block n (Locals (Machine.pc (state m)) 0) m with
  | (inl _, l, m) => retire n l m
  | (inr (Trap cause badaddr), l, m) =>
      match on_trap cause badaddr (l_pc l) m with
      | (inl _, m) => retire (l_instret l) l m
      | (inr e, m) => (Uncaught e, m)
      end
  | (inr (Trigger t), l, m) =>
      match on_trigger t l m with
      | (inl true, l, m) => (Return, m)
      | (inl false, l, m) => retire n l m
      | (inr e, l, m) => (Uncaught e, m)
      end
  | (inr Abort, l, m) => (Uncaught Abort, m)
  end.

(** The fuel bounds the iterations: [Continue] of a positive number is a loop that has
    not ended yet. *)
Fixpoint step_loop (fuel : nat) (n : Z) (m : machine W) : step_result * machine W :=
  if n <=? 0 then (Return, m)
  else
    match fuel with
    | O => (Continue n, m)
    | S fuel =>
        match step_once n m with
        | (Continue n, m) => step_loop fuel n m
        | r => r
        end
    end.

(** Requests of the debugger come first; in debug mode only a few instructions run. *)
Definition step_begin (n : Z) : M W Z :=
  s ← gets state;
  if dcsr_cause (dcsr s) =? DCSR_CAUSE_NONE then
    interrupt ← gets (fun m => get_interrupt (id (proc m)) (world m));
    (if interrupt : bool then enter_debug_mode DCSR_CAUSE_DEBUGINT
     else if dcsr_halt (dcsr s) then enter_debug_mode DCSR_CAUSE_HALT else mret tt) ;;
    mret n
  else mret (Z.min n 11).

Definition step (fuel : nat) (n : Z) (m : machine W) : step_result * machine W :=
  match step_begin n m with
  | (inl n, m) => step_loop fuel n m
  | (inr e, m) => (Uncaught e, m)
  end.

End step.
