(* ===== verification/StepProps.v ===== *)
(** The loop of [processor_t::step] ends, and leaves a well-formed hart. *)
From S2P Require Import Prelude SoftPrim FpFlags Encoding Decode Decoder Machine Csr Isa Mmu.
From S2P Require Import Tlb Insns Safe InsnProps FetchProps Step.

Section step_props.
Context {W : Type} `{Platform W}.
Implicit Types m : machine W.
Context (xl : Z).
Hypothesis mmio_store_mip : forall a bs s w s' w',
  mmio_store a bs s w = Some (s', w') -> s' = s <| mip := mip s' |>.
Hypothesis mmio_load_bytes : forall a len w bs, 0 <= len ->
  mmio_load a len w = Some bs -> Z.of_nat (length bs) = len /\ Forall (in_range 8) bs.

(** ** Traps and debug mode *)

Lemma safe_enter_debug_mode cause : safe (W := W) xl (fun _ => True) (enter_debug_mode cause).
Proof.
  unfold enter_debug_mode. eapply safe_bind; [|intros _ _].
  - apply safe_modify_state. intros p s Hp [Hs ? ? Hd]. split; [destruct Hs; csr_leaf|done|done|].
    cbn. destruct Hs as [Hl _ _ _ _ _ _ _ _ _ _ _ _ _]. revert Hl. unfold legal_prv.
    by intros [[->%Z.eqb_eq| ->%Z.eqb_eq]%orb_prop| ->%Z.eqb_eq]%orb_prop.
  - eapply safe_bind; [by apply safe_set_privilege|intros _ _].
    apply safe_modify_state. by state_ok_tac.
Qed.

Lemma safe_take_trap cause badaddr epc :
  safe (W := W) xl (fun _ => True) (take_trap cause badaddr epc).
Proof.
  unfold take_trap. eapply safe_bind; [by apply (safe_gets xl (fun _ => True))|intros s _].
  eapply safe_bind; [by apply (safe_gets xl (fun _ => True))|intros p _].
  apply safe_if; intros _; [apply safe_enter_debug_mode|].
  apply safe_if; intros _; [apply safe_modify_state; by state_ok_tac|].
  eapply (safe_bind xl (fun _ => True)); [|intros _ _; apply safe_modify_state; by state_ok_tac].
  apply safe_if; intros _; (eapply safe_bind; [|intros _ _]);
    try (eapply safe_bind; [apply safe_set_csr|intros _ _; by apply safe_set_privilege]).
  all: apply safe_modify_state; destruct badaddr; by state_ok_tac.
Qed.

Lemma safe_end_stepping : safe (W := W) xl (fun _ => True) end_stepping.
Proof.
  eapply safe_bind; [apply safe_modify_state; by state_ok_tac|intros _ _; apply safe_enter_debug_mode].
Qed.

Lemma safe_take_interrupt : safe (W := W) xl (fun _ => True) take_interrupt.
Proof.
  unfold take_interrupt. eapply safe_bind; [by apply (safe_gets xl (fun _ => True))|intros s _].
  cbv zeta. apply safe_if; intros _; [|by apply safe_ret].
  intros m Hm. unfold raise_interrupt. by split.
Qed.

Lemma safe_on_trap cause badaddr pc : safe (W := W) xl (fun _ => True) (on_trap cause badaddr pc).
Proof.
  eapply safe_bind; [apply safe_take_trap|intros _ _].
  eapply safe_bind; [by apply (safe_gets xl (fun _ => True))|intros s _].
  apply safe_if; intros _; [apply safe_end_stepping|by apply safe_ret].
Qed.

(** ** Rules for code with the locals of [step]

    [holds P c Q E]: from [P], [c] ends in [Q] or throws in [E]. *)
Definition assn := locals -> machine W -> Prop.
Definition holds {A} (P : assn) (c : B A) (Q : A -> assn) (E : exn -> assn) : Prop :=
  forall l m, P l m ->
  match c l m with
  | (inl a, l', m') => Q a l' m'
  | (inr e, l', m') => E e l' m'
  end.

Lemma holds_bind {A C} (P : assn) (Q : A -> assn) (R : C -> assn) E (c : B A) (k : A -> B C) :
  holds P c Q E -> (forall a, holds (Q a) (k a) R E) -> holds P (c ≫= k) R E.
Proof.
  intros Hc Hk l m Hp. specialize (Hc l m Hp). unfold mbind, B_bind.
  destruct (c l m) as [[[a|e] l1] m1]; [|done]. by apply Hk.
Qed.

Lemma holds_ret {A} (P : assn) (a : A) (Q : A -> assn) E :
  (forall l m, P l m -> Q a l m) -> holds P (mret a) Q E.
Proof. intros HPQ l m Hp. by apply HPQ. Qed.

Lemma holds_pre {A} (P P' : assn) (c : B A) Q E :
  (forall l m, P l m -> P' l m) -> holds P' c Q E -> holds P c Q E.
Proof. intros HP Hc l m Hp. by apply Hc, HP. Qed.

Lemma holds_if {A} (b : bool) (P : assn) (c d : B A) Q E :
  (b = true -> holds P c Q E) -> (b = false -> holds P d Q E) -> holds P (if b then c else d) Q E.
Proof. destruct b; auto. Qed.

(** The locals are read once: a rule for all that follows. *)
Lemma holds_locals {A} (P : assn) (k : locals -> B A) Q E :
  (forall l0, holds (fun l m => l = l0 /\ P l m) (k l0) Q E) -> holds P (get_locals ≫= k) Q E.
Proof. intros Hk l m Hp. by apply (Hk l l m). Qed.

Lemma holds_gets {A C} (f : machine W -> A) (P : assn) (k : A -> B C) Q E :
  (forall a, holds (fun l m => f m = a /\ P l m) (k a) Q E) -> holds P (lift (gets f) ≫= k) Q E.
Proof. intros Hk l m Hp. by apply (Hk (f m) l m). Qed.

(** A change of the machine and of the locals. *)
Lemma holds_modify {C} (f : machine W -> machine W) (P P' : assn) (k : unit -> B C) Q E :
  (forall l m, P l m -> P' l (f m)) -> holds P' (k tt) Q E -> holds P (lift (modify f) ≫= k) Q E.
Proof. intros Hf Hk l m Hp. by apply (Hk l (f m)), Hf. Qed.

Lemma holds_incr {C} (P P' : assn) (k : unit -> B C) Q E :
  (forall l m, P l m -> P' (Locals (l_pc l) (l_instret l + 1)) m) ->
  holds P' (k tt) Q E -> holds P (incr_instret ≫= k) Q E.
Proof. intros Hf Hk l m Hp. by apply (Hk _ m), Hf. Qed.

(** ** The loops

    [n] instructions are to be run by an iteration, which started with the pipeline
    serialized or not ([s0]). *)
Section loops.
Context (n : Z) (s0 : bool).
Hypothesis Hn : 0 < n.

(** Before an instruction, when at least [k] have run: at an even address. *)
Definition at_head (k : Z) : assn := fun l m =>
  hart_ok xl m /\ 0 <= k <= l_instret l /\ l_instret l <= n /\ l_pc l mod 2 = 0
  /\ (l_instret l = 0 -> serialized (state m) = s0).
Definition at_insn (k : Z) : assn := fun l m => at_head k l m /\ l_instret l < n.
(** After it: at an even address or a sentinel. *)
Definition has_run (k : Z) : assn := fun l m =>
  hart_ok xl m /\ 0 <= k <= l_instret l /\ l_instret l < n
  /\ (l_pc l = PC_SERIALIZE_BEFORE /\ (l_instret l = 0 -> s0 = false)
      \/ l_pc l mod 2 = 0 \/ l_pc l = PC_SERIALIZE_AFTER).
(** At the end: something has run, or the pipeline is now serialized and was not. *)
Definition finished : assn := fun l m =>
  hart_ok xl m /\ 0 <= l_instret l <= n
  /\ (1 <= l_instret l \/ s0 = false /\ serialized (state m) = true).
Definition thrown (e : exn) : assn := fun l m =>
  e <> Abort /\ hart_ok xl m /\ 0 <= l_instret l <= n.

Lemma holds_execute k fetch : fetch_ok fetch ->
  holds (at_insn k) (execute_next fetch) (fun _ => has_run k) thrown.
Proof.
  intros Hf l m [(Hm & Hi & _ & He & Hs) Hl]. pose proof (ok_xl xl m Hm) as Hxl.
  assert (xlen (proc m) = xl) as Ex by (destruct Hm as [[] <- _ _ _]; done).
  unfold execute_next, mbind, B_bind, get_locals, lift, execute_insn, set_pc_local. rewrite Ex.
  destruct Hf as [Hf|Hf].
  2: { rewrite Hf. unfold thrown. cbn. split; [done|]. split; [done|lia]. }
  assert (match rv_NAME xl (if_func fetch) (if_insn fetch) (l_pc l) m with
          | (inl a, m') => (a = PC_SERIALIZE_BEFORE /\ (l_instret l = 0 -> s0 = false)
                            \/ npc_after (l_pc l) a) /\ hart_ok xl m'
          | (inr e, m') => e <> Abort /\ hart_ok xl m' end) as Hr.
  { destruct (serialized (state m)) eqn:Es.
    - pose proof (rv_NAME_serialized mmio_store_mip mmio_load_bytes xl (if_func fetch) (if_insn fetch)
                    (l_pc l) m Hf Hm Es) as Hr.
      destruct (rv_NAME _ _ _ _ m) as [[a|e] m1]; [|done]. destruct Hr. by split; [right|].
    - pose proof (rv_NAME_safe mmio_store_mip mmio_load_bytes xl (if_func fetch) (if_insn fetch)
                    (l_pc l) Hxl Hf m Hm) as Hr.
      destruct (rv_NAME _ _ _ _ m) as [[a|e] m1]; [|done]. destruct Hr as [[->|Ha] Hm1]; (split; [|done]).
      + left. split; [done|]. intros E0. by rewrite <- (Hs E0).
      + by right. }
  destruct (rv_NAME _ _ _ _ m) as [[a|e] m1]; destruct Hr as [Ha Hm1].
  - split; [done|]. cbn. split; [lia|]. split; [lia|]. destruct Ha as [Ha|Ha]; [by left|right; by apply Ha].
  - split; [done|]. split; [done|lia].
Qed.

Lemma invalid_even pc : pc mod 2 = 0 -> invalid_pc pc = false.
Proof.
  intros Hp. unfold invalid_pc. change 1 with (2 ^ 1 - 1). rewrite land_mask by lia.
  change (2 ^ 1) with 2. by rewrite Hp.
Qed.

Lemma hart_ok_set_pc m pc : hart_ok xl m -> hart_ok xl (m <| state := (state m) <| Machine.pc := pc |> |>).
Proof. intros Hm. apply hart_ok_state; [|done]. destruct Hm as [_ _ [[] ? ? ?] _ _]. by split; [csr_leaf|..]. Qed.
Lemma hart_ok_serialize m : hart_ok xl m -> hart_ok xl (m <| state := (state m) <| serialized := true |> |>).
Proof. intros Hm. apply hart_ok_state; [|done]. destruct Hm as [_ _ [[] ? ? ?] _ _]. by split; [csr_leaf|..]. Qed.

Lemma holds_advance k : holds (has_run k) advance_pc
  (fun stop l m => if stop : bool then finished l m else at_head (k + 1) l m) thrown.
Proof.
  intros l m (Hm & Hi & Hl & Hp). unfold advance_pc, mbind, B_bind, get_locals.
  destruct Hp as [[Hp Hs]|[Hp|Hp]].
  - rewrite Hp. cbn. split; [by apply hart_ok_serialize|]. cbn. split; [lia|].
    destruct (Z.eqb_spec (l_instret l) 0); [right; auto|left; lia].
  - rewrite (invalid_even _ Hp). cbn. split; [by apply hart_ok_set_pc|].
    cbn. repeat split; done || lia.
  - rewrite Hp. cbn. split; [done|]. cbn. split; [lia|]. left. lia.
Qed.

(** Fetching keeps all of this. *)
Lemma holds_fetch_head {A} k (Q : A -> Prop) (c : M W A) :
  safe xl Q c -> same_state c ->
  holds (at_head k) (lift c) (fun a l m => Q a /\ at_head k l m) thrown.
Proof.
  intros Hc Hs l m (Hm & Hi & Hn' & Hp & H0). specialize (Hc m Hm). specialize (Hs m). unfold lift.
  destruct (c m) as [[a|e] m1]; cbn in Hs; destruct Hc as [Ha Hm1].
  - split; [done|]. rewrite <- Hs in H0. by repeat (split; [done|]).
  - split; [done|]. split; [done|lia].
Qed.

Lemma holds_fetch {A} k (Q : A -> Prop) (c : M W A) :
  safe xl Q c -> same_state c ->
  holds (at_insn k) (lift c) (fun a l m => Q a /\ at_insn k l m) thrown.
Proof.
  intros Hc Hs l m [Hh Hl]. pose proof (holds_fetch_head k Q c Hc Hs l m Hh) as Hr.
  revert Hr. unfold lift. destruct (c m) as [[a|e] m1]; [|done]. intros [Ha Hh']. by split.
Qed.

Lemma finished_of_head k l m : at_head k l m -> 1 <= l_instret l -> finished l m.
Proof. intros (Hm & Hi & Hl & _) H1. split; [done|]. split; [lia|by left]. Qed.

Lemma start_stepping_ok k l m : at_insn k l m -> at_insn k l (m <| state := start_stepping (state m) |>).
Proof.
  intros [(Hm & Hi & Hl' & Hp & H0) Hl]. split; [|done]. split; [|repeat (split; [done|])].
  - apply hart_ok_state; [|done]. unfold start_stepping. case_bool_decide; [|by destruct Hm].
    destruct Hm as [_ _ [[] ? ? ?] _ _]. by split; [csr_leaf|..].
  - cbn. unfold start_stepping. by case_bool_decide.
Qed.

Lemma holds_end_stepping k : 0 <= k ->
  holds (at_head (k + 1)) (lift end_stepping) (fun _ => finished) thrown.
Proof.
  intros Hk l m (Hm & Hi & Hl & _). pose proof (safe_end_stepping m Hm) as Hs. unfold lift.
  destruct (end_stepping m) as [[a|e] m1]; destruct Hs as [? Hm1].
  - split; [done|]. split; [lia|left; lia].
  - split; [done|]. split; [done|lia].
Qed.

(** The loops have the fuel for the instructions that are left. *)
Lemma slow_loop_holds fuel k : 0 <= k -> n - k <= Z.of_nat fuel ->
  holds (at_head k) (slow_loop fuel n) (fun _ => finished) thrown.
Proof.
  revert k. induction fuel as [|fuel IH]; intros k Hk Hf.
  { apply holds_ret. intros l m Hh. apply (finished_of_head k); [done|]. destruct Hh as (_ & Hi & _). lia. }
  cbn [slow_loop]. apply holds_locals. intros l0.
  destruct (Z.ltb_spec (l_instret l0) n) as [Hlt|Hge].
  2: { apply holds_ret. intros l m [-> Hh]. apply (finished_of_head k); [done|lia]. }
  apply (holds_modify _ _ (at_insn k)).
  { intros l m [-> Hh]. by apply start_stepping_ok. }
  eapply holds_bind; [by apply (holds_fetch k fetch_ok); [apply safe_load_insn|apply same_load_insn]|].
  intros fetch l m [Hfe Hi]. revert l m Hi. apply (holds_bind (at_insn k) (fun _ => has_run k));
    [by apply holds_execute|intros _].
  apply holds_locals. intros l1. cbv zeta.
  eapply holds_bind; [eapply holds_pre; [|apply (holds_advance k)]; by intros l m [-> Hh]|].
  intros [|]; [by apply holds_ret|]. apply holds_gets. intros s.
  apply (holds_pre _ (at_head (k + 1))); [by intros l m [_ Hh]|].
  apply holds_if; intros _; [by apply holds_end_stepping|apply IH; lia].
Qed.

Lemma icache_run_holds fuel k i :
  holds (at_insn k) (icache_run fuel n i) (fun _ => has_run k) thrown.
Proof.
  revert i. induction fuel as [|fuel IH]; intros i.
  { apply holds_ret. intros l m [(Hm & Hi & _ & Hp & _) Hl]. split; [done|]. by split; [|split; [|auto]]. }
  cbn [icache_run]. intros l m Hi. revert l m Hi.
  apply (holds_gets _ (at_insn k)). intros e.
  apply (holds_pre _ (fun l m => fetch_ok (ic_data e) /\ at_insn k l m)).
  { intros l m [<- Hi]. split; [|done]. apply (icache_at_ok xl m i), Hi. }
  intros l m [He Hi]. revert l m Hi.
  apply (holds_bind (at_insn k) (fun _ => has_run k)); [by apply holds_execute|intros _].
  apply holds_locals. intros l0. apply holds_if; intros _.
  { apply holds_ret. by intros l m [_ Hr]. }
  apply holds_gets. intros e'. destruct (Z.eqb_spec (ic_tag e') (l_pc l0)) as [Et|_]; cbn [negb].
  2: { apply holds_ret. by intros l m (_ & _ & Hr). }
  destruct (Z.eqb_spec (l_instret l0 + 1) n) as [|Hne].
  { apply holds_ret. by intros l m (_ & _ & Hr). }
  apply (holds_incr _ (fun l m => l_pc l = l_pc l0 /\ at_insn k l m)); [|eapply holds_modify; [|apply IH]].
  - intros l m (He' & -> & Hm & Hi & Hl & Hp). split; [done|].
    assert (l_pc l0 mod 2 = 0) as Heven.
    { destruct (icache_at_ok xl m (i + 1) Hm) as [_ Htag]. rewrite He', Et in Htag.
      destruct Htag as [|Htag]; [done|]. destruct Hp as [[Hp _]|[|Hp]]; [|done|]; by rewrite Hp in Htag. }
    split; [|cbn; lia]. split; [done|]. cbn. split; [lia|]. split; [lia|]. split; [done|lia].
  - intros l m [<- [(Hm & Hi & Hl & Hp & H0) Hlt]]. split; [|done]. split; [by apply hart_ok_set_pc|done].
Qed.

Lemma same_refill_entry addr j : same_state (W := W) (refill_entry addr j).
Proof. apply same_bind; [apply same_refill_icache|intros e]. by apply same_modify. Qed.

Lemma safe_refill_at addr j : addr mod 2 = 0 -> safe (W := W) xl (fun _ => True) (refill_entry addr j).
Proof.
  intros Ha m Hm. pose proof (safe_refill_entry xl mmio_load_bytes addr (fun _ => Z.to_nat j) Ha m Hm) as Hr.
  unfold refill_entry. revert Hr. unfold mbind, M_bind.
  destruct (refill_icache addr m) as [[e|e] m1]; [|done]. intros [_ Hr]. by split.
Qed.

Lemma refill_after_miss_holds k j :
  holds (at_head k) (refill_after_miss j) (fun _ => at_head k) thrown.
Proof.
  apply holds_locals. intros l0. apply holds_gets. intros e. apply holds_if; intros _.
  2: { apply holds_ret. by intros l m (_ & _ & Hh). }
  intros l m (_ & -> & Hh).
  pose proof (holds_fetch_head k (fun _ => True) (refill_entry (l_pc l0) j)) as Hf.
  pose proof Hh as (_ & _ & _ & Hp & _).
  specialize (Hf (safe_refill_at _ _ Hp) (same_refill_entry _ _) l0 m Hh).
  destruct (lift _ l0 m) as [[[a|er] l1] m1]; [by destruct Hf|done].
Qed.

Lemma fast_loop_holds fuel k : 0 <= k -> n - k <= Z.of_nat fuel ->
  holds (at_head k) (fast_loop fuel n) (fun _ => finished) thrown.
Proof.
  revert k. induction fuel as [|fuel IH]; intros k Hk Hf.
  { apply holds_ret. intros l m Hh. apply (finished_of_head k); [done|]. destruct Hh as (_ & Hi & _). lia. }
  cbn [fast_loop]. apply holds_locals. intros l0.
  destruct (Z.ltb_spec (l_instret l0) n) as [Hlt|Hge].
  2: { apply holds_ret. intros l m [-> Hh]. apply (finished_of_head k); [done|lia]. }
  cbv zeta. apply (holds_bind _ (fun _ => at_insn k));
    [|intros _; eapply holds_bind; [apply (icache_run_holds _ k)|intros miss]].
  { intros l m [-> Hh]. pose proof Hh as (_ & _ & _ & Hp & _).
    pose proof (holds_fetch k fetch_ok (access_icache (l_pc l0)) (safe_access_icache xl mmio_load_bytes _ Hp)
                  (same_access_icache _) l0 m (conj Hh Hlt)) as Hf'.
    destruct (lift _ l0 m) as [[[a|er] l1] m1]; [by destruct Hf'|done]. }
  eapply holds_bind; [apply (holds_advance k)|]. intros [|]; [by apply holds_ret|].
  apply (holds_bind _ (fun _ => at_head (k + 1))); [|intros _; apply IH; lia].
  destruct miss; [apply refill_after_miss_holds|by apply holds_ret].
Qed.

Lemma try_block_holds :
  holds (at_head 0) (try_block n) (fun _ => finished) thrown.
Proof.
  eapply holds_bind; [apply (holds_fetch_head 0 (fun _ => True)); [apply safe_take_interrupt|]|].
  { unfold take_interrupt. repeat same_step. by intros m. }
  intros u. apply holds_gets. intros slow.
  apply (holds_pre _ (at_head 0)); [by intros l m (_ & _ & Hh)|].
  apply holds_if; intros _; [apply slow_loop_holds; lia|apply fast_loop_holds; lia].
Qed.
End loops.

(** ** Iterations of [step] *)

(** Whether the run only starts iterations at even addresses, and fires no trigger. *)
Definition fires_trigger n m : bool :=
  match try_block n (Locals (Machine.pc (state m)) 0) m with (inr (Trigger _), _, _) => true | _ => false end.

Fixpoint regular (fuel : nat) (n : Z) m : bool :=
  if n <=? 0 then true
  else
    match fuel with
    | O => true
    | S fuel =>
        (Machine.pc (state m) mod 2 =? 0) && negb (fires_trigger n m)
        && match step_once n m with (Continue n, m) => regular fuel n m | _ => true end
    end.

(** An iteration runs an instruction, or takes a trap, which ends the loop, or else only
    serializes the pipeline. *)
Definition progress (n n' : Z) m m' : Prop :=
  n' < n \/ n' = n /\ serialized (state m) = false /\ serialized (state m') = true.

Lemma retire_ok n l m : hart_ok xl m -> 0 <= l_instret l <= n -> n < 2 ^ 64 ->
  exists m', retire n l m = (Continue (n - l_instret l), m') /\ hart_ok xl m'
             /\ serialized (state m') = serialized (state m).
Proof.
  intros Hm Hl Hn. unfold retire. rewrite wrap_small by (unfold in_range; lia).
  eexists. split; [done|]. split; [|done]. apply hart_ok_state; [|done].
  destruct Hm as [_ _ [[] ? ? ?] _ _]. by split; [csr_leaf|..].
Qed.

(** The handler of a trap returns. *)
Lemma on_trap_returns cause badaddr pc m :
  wf m -> exists m', on_trap cause badaddr pc m = (inl tt, m').
Proof.
  intros Hw. unfold on_trap, mbind, M_bind.
  destruct (take_trap_wf m cause badaddr pc Hw) as (m1 & -> & Hp1 & Hs1). unfold gets at 1.
  case_bool_decide; [|by eexists]. unfold end_stepping, mbind, M_bind, modify_state, modify.
  match goal with |- context [enter_debug_mode ?c ?m2] =>
    destruct (enter_debug_mode_wf m2 c) as (m3 & -> & _) end; [|by eexists].
  split; [done|]. destruct Hs1. by csr_leaf.
Qed.

Lemma step_once_ok n m :
  hart_ok xl m -> 0 < n < 2 ^ 64 -> Machine.pc (state m) mod 2 = 0 -> fires_trigger n m = false ->
  exists n' m', step_once n m = (Continue n', m') /\ hart_ok xl m' /\ 0 <= n' /\ progress n n' m m'.
Proof.
  intros Hm Hn Hp Ht. unfold step_once. unfold fires_trigger in Ht.
  pose proof (try_block_holds n (serialized (state m)) ltac:(lia) (Locals (Machine.pc (state m)) 0) m) as Hb.
  unfold at_head in Hb. cbn [l_pc l_instret] in Hb. specialize (Hb ltac:(split; [done|]; lia || auto 6 with lia)).
  destruct (try_block n _ m) as [[[a|e] l] m1].
  - destruct Hb as (Hm1 & Hl & Hs). destruct (retire_ok n l m1 Hm1 Hl ltac:(lia)) as (m2 & -> & Hm2 & Es).
    eexists _, _. split; [done|]. split; [done|]. split; [lia|]. unfold progress. rewrite Es.
    destruct (Z.eq_dec (l_instret l) 0); [right|left; lia]. destruct Hs as [|[? ?]]; [lia|]. split; [lia|done].
  - destruct Hb as (He & Hm1 & Hl). destruct e as [cause badaddr|t|]; [|done|done].
    pose proof (safe_on_trap cause badaddr (l_pc l) m1 Hm1) as Hs. revert Hs.
    destruct (on_trap_returns cause badaddr (l_pc l) m1 (hart_ok_wf xl m1 Hm1)) as [m2 ->].
    intros [_ Hm2].
    destruct (retire_ok (l_instret l) l m2 Hm2 ltac:(lia) ltac:(lia)) as (m3 & -> & Hm3 & _).
    eexists _, _. split; [done|]. split; [done|]. split; [lia|]. left. lia.
Qed.

(** Twice the instructions left, and one while the pipeline is not serialized, bound the
    iterations. *)
Definition measure n m : Z := 2 * n + (if serialized (state m) then 0 else 1).

Lemma step_loop_total fuel n m :
  hart_ok xl m -> 0 <= n < 2 ^ 64 -> measure n m <= Z.of_nat fuel -> regular fuel n m = true ->
  exists m', step_loop fuel n m = (Return, m') /\ hart_ok xl m'.
Proof.
  revert n m. induction fuel as [|fuel IH]; intros n m Hm Hn Hf Hr; cbn [step_loop regular] in *.
  { destruct (Z.leb_spec n 0); [by eexists|]. unfold measure in Hf. destruct (serialized _); lia. }
  destruct (Z.leb_spec n 0) as [|Hpos]; [by eexists|].
  apply andb_prop in Hr as [[Hp%Z.eqb_eq Ht%negb_true_iff]%andb_prop Hr].
  destruct (step_once_ok n m Hm ltac:(lia) Hp Ht) as (n' & m' & E & Hm' & Hn' & Hpr). rewrite E in Hr |- *.
  apply IH; [done| | |done]; unfold measure, progress in *.
  - lia.
  - destruct Hpr as [?|(-> & Es & Es')]; [|rewrite Es, Es' in *; lia].
    destruct (serialized (state m)), (serialized (state m')); lia.
Qed.

Definition regular_run (fuel : nat) (n : Z) m : bool :=
  match step_begin n m with (inl n, m) => regular fuel n m | (inr _, _) => true end.

(** What comes before the loop: debug mode may be entered. *)
Lemma step_begin_ok n m : hart_ok xl m -> 0 <= n ->
  exists n1 m1, step_begin n m = (inl n1, m1) /\ hart_ok xl m1 /\ 0 <= n1 <= n.
Proof.
  intros Hm Hn.
  assert (forall cause, exists m1, enter_debug_mode cause m = (inl tt, m1) /\ hart_ok xl m1) as Hd.
  { intros cause. destruct (enter_debug_mode_wf m cause (hart_ok_wf xl m Hm)) as (m1 & E & _).
    pose proof (safe_enter_debug_mode cause m Hm) as Hs. rewrite E in Hs. exists m1. by destruct Hs. }
  unfold step_begin, mbind, M_bind, gets. destruct (_ =? DCSR_CAUSE_NONE); cycle 1.
  { eexists _, _. split; [done|]. split; [done|lia]. }
  destruct (get_interrupt _ _).
  { destruct (Hd DCSR_CAUSE_DEBUGINT) as (m1 & -> & ?). eexists _, _. split; [done|]. split; [done|lia]. }
  destruct (dcsr_halt _).
  { destruct (Hd DCSR_CAUSE_HALT) as (m1 & -> & ?). eexists _, _. split; [done|]. split; [done|lia]. }
  eexists _, _. split; [done|]. split; [done|lia].
Qed.

(** Any fuel that is enough for the instructions asked for. *)
Lemma step_enough fuel n m :
  hart_ok xl m -> 0 <= n < 2 ^ 64 -> 2 * n + 1 <= Z.of_nat fuel -> regular_run fuel n m = true ->
  exists m', step fuel n m = (Return, m') /\ hart_ok xl m'.
Proof.
  intros Hm Hn Hf Hr. unfold step, regular_run in *.
  destruct (step_begin_ok n m Hm ltac:(lia)) as (n1 & m1 & E & Hm1 & Hn1).
  rewrite E in Hr |- *. apply step_loop_total; [done|lia| |done].
  unfold measure. destruct (serialized _); lia.
Qed.

(** C2: step(n) on a well-formed hart ends within 2n+1 iterations of its loop, returns
    without an uncaught exception or abort and leaves a well-formed hart, if no
    iteration starts at an odd pc or fires a trigger. *)
Theorem step_total n m :
  hart_ok xl m -> 0 <= n < 2 ^ 64 ->
  let fuel := Z.to_nat (2 * n + 1) in
  regular_run fuel n m = true ->
  exists m', step fuel n m = (Return, m') /\ hart_ok xl m'.
Proof. intros Hm Hn fuel Hr. apply step_enough; [done | done | lia | done]. Qed.
End step_props.
