(* ===== verification/StepRuns.v ===== *)
(** Runs of [step] on concrete programs: the theorem on [step] applied to one of them,
    and three guest programs that stop the simulator. *)
From S2P Require Import Prelude SoftPrim FpFlags Encoding Decode Decoder Machine Csr Isa.
From S2P Require Import CsrProps Mmu Tlb Insns Safe InsnProps Alu FetchProps Step StepProps.

#[local] Existing Instance no_devices.

(** The hart in machine mode, at the start of a program in its memory. *)
Definition boot (program : list Z) : machine unit :=
  hart5 <| memsz := 0x1000 |> <| mem := write_bytes ∅ DRAM_BASE (program ≫= bytes_of 4) |>
        <| state := (state hart5) <| Machine.pc := DRAM_BASE |> |>.

(** [addi x1,x0,5; addi x2,x1,-2; csrrw x3,mscratch,x1; csrrw x4,mscratch,x2; ecall] *)
Definition csr_program : list Z := [0x500093; 0xffe08113; 0x340091f3; 0x34011273; 0x73].

Lemma boot_ok program : hart_ok 64 (boot program).
Proof.
  destruct (hart5_ok _) as [Hp Hx [Hs Hr Hf Hd] Hfl Hm HD HI].
  split; [done|done| |done| |done|done].
  - split; [|done..]. destruct Hs. by csr_leaf.
  - intros a. apply write_bytes_range; [by intros b|]. cbn [mem boot put setter_mem setter_memsz].
    induction program as [|w p IH]; [constructor|]. repeat (apply Forall_cons; split; [apply wrap_range; lia|]). exact IH.
Qed.

(** Four instructions, two of which serialize the pipeline first. *)
Lemma step_total_witness :
  exists m', step 9 4 (boot csr_program) = (Return, m') /\ hart_ok 64 m'
             /\ xreg m' 4 = 5 /\ Machine.pc (state m') = 0x80000010.
Proof.
  assert (forall a bs s w s' w', mmio_store (W := unit) a bs s w = Some (s', w') -> s' = s <| mip := mip s' |>)
    as Hst by (intros; discriminate).
  assert (forall a len w bs, 0 <= len -> mmio_load (W := unit) a len w = Some bs
            -> Z.of_nat (length bs) = len /\ Forall (in_range 8) bs) as Hld by (intros; discriminate).
  destruct (step_total 64 Hst Hld 4 (boot csr_program) (boot_ok _)) as (m' & E & Hm');
    [lia|vm_compute; reflexivity|].
  exists m'. split; [exact E|]. split; [exact Hm'|]. apply (f_equal snd) in E. cbn [snd] in E.
  rewrite <- E. vm_compute. by split.
Defined.

(** ** Programs that stop the simulator *)

(** [auipc x1,0; addi x1,x1,17; csrrw x0,mepc,x1; mret], and an [addi] at the odd
    address the return goes to. *)
Definition odd_program : list Z := [0x97; 0x1108093; 0x34109073; 0x30200073; 0x1300; 0x0].

(** [auipc x1,0; addi x1,x1,28; csrrw x0,tdata2,x1; lui x2,2; addi x2,x2,0x44;
    csrrw x0,tdata1,x2; addi x0,x0,0; addi x3,x0,1]: an execution trigger with action 2 on
    the last instruction. *)
Definition action_program : list Z :=
  [0x97; 0x1c08093; 0x7a209073; 0x2137; 0x4410113; 0x7a111073; 0x13; 0x100193].

(** [lui x1,1; csrrw x0,tdata2,x1; lui x2,0x40; addi x2,x2,0x42; csrrw x0,tdata1,x2;
    sw x2,0(x1)]: a trigger after the store, which is to an address without a device. *)
Definition store_program : list Z :=
  [0x10b7; 0x7a209073; 0x40137; 0x4210113; 0x7a111073; 0x20a023].

(** Three guest programs of a few instructions stop the simulator: by a return to
    an odd mepc, by a trigger with an undefined action, and by a trap raised while the
    instruction of a matched trigger is run again. *)
Theorem guest_stops_simulator :
  let run program := step 16 8 (boot program) in
  (fst (run odd_program) = Uncaught Abort
   /\ Machine.pc (state (snd (run odd_program))) = 0x80000011)
  /\ fst (run action_program) = Uncaught Abort
  /\ fst (run store_program) = Uncaught (Trap CAUSE_FAULT_STORE (Some 0x1000)).
Proof. vm_compute. by repeat split. Qed.
