(* ===== verification/OrdMap.v ===== *)
(** [std::map] with integer keys: the entries in the order of their keys, with the operations
    the cache and the bus use and the laws of a finite map. *)
From Stdlib Require Import Sorting.Sorted.
From S2P Require Import Prelude.

Abbreviation ord_map V := (list (Z * V)).

Section ord_map.
Context {V : Type}.
Implicit Types (m : ord_map V) (v w : V).

Fixpoint map_find (k : Z) m : option V :=
  match m with
  | [] => None
  | (k', v) :: m => if k =? k' then Some v else map_find k m
  end.
Fixpoint map_set (k : Z) (v : V) m : ord_map V :=
  match m with
  | [] => [(k, v)]
  | (k', v') :: m' =>
      if k <? k' then (k, v) :: m else if k =? k' then (k, v) :: m' else (k', v') :: map_set k v m'
  end.

(** The first entry whose key is not below [k]. *)
Fixpoint lower_bound (k : Z) m : option (Z * V) :=
  match m with
  | [] => None
  | (k', v) :: m => if k <=? k' then Some (k', v) else lower_bound k m
  end.

Definition below (a b : Z * V) : Prop := a.1 < b.1.

Lemma map_find_set j k v m :
  map_find j (map_set k v m) = if j =? k then Some v else map_find j m.
Proof.
  induction m as [| [k' v'] m IH]; cbn [map_set map_find]; [done |].
  destruct (Z.ltb_spec k k'); cbn [map_find]; [by case_match |].
  destruct (Z.eqb_spec k k') as [<- |]; cbn [map_find]; [by case_match |].
  rewrite IH. destruct (Z.eqb_spec j k') as [-> |]; [| done]. by destruct (Z.eqb_spec k' k).
Qed.

Lemma elem_of_map_set k v m e : e ∈ map_set k v m -> e = (k, v) \/ e ∈ m.
Proof.
  induction m as [| [k' v'] m IH]; cbn [map_set].
  { rewrite list_elem_of_singleton. by left. }
  destruct (k <? k'), (k =? k'); rewrite ?elem_of_cons; [tauto.. | tauto |].
  intros [-> | [-> | ?]%IH]; auto.
Qed.

Lemma length_map_set k v m :
  map_find k m = None -> length (map_set k v m) = S (length m).
Proof.
  induction m as [| [k' v'] m IH]; cbn [map_set map_find]; [done |].
  destruct (Z.eqb_spec k k') as [<- |]; [done |]. intros F.
  destruct (Z.ltb_spec k k'); [done |]. cbn. by rewrite IH.
Qed.

Lemma length_map_set_present k v v0 m :
  StronglySorted below m -> map_find k m = Some v0 -> length (map_set k v m) = length m.
Proof.
  induction 1 as [| [k' v'] m Hs IH Hb]; cbn [map_set map_find]; [done |].
  destruct (Z.eqb_spec k k') as [<- |].
  - by destruct (Z.ltb_spec k k); [lia |].
  - intros F. destruct (Z.ltb_spec k k'); [exfalso | cbn; by rewrite IH].
    assert (exists v, (k, v) ∈ m) as [w Hw].
    { clear -F. induction m as [| [k1 v1] m IH]; [done |]. cbn in F.
      destruct (Z.eqb_spec k k1) as [-> |]; [exists v1; by left |].
      destruct (IH F) as [w Hw]. exists w. by right. }
    apply Forall_forall with (x := (k, w)) in Hb; [| done]. unfold below in Hb. cbn in Hb. lia.
Qed.

Lemma map_set_sorted k v m : StronglySorted below m -> StronglySorted below (map_set k v m).
Proof.
  induction 1 as [| [k' v'] m Hs IH Hb]; cbn [map_set].
  { by repeat constructor. }
  destruct (Z.ltb_spec k k').
  - constructor; [by constructor |]. constructor; [done |].
    eapply Forall_impl; [exact Hb |]. unfold below. cbn. lia.
  - destruct (Z.eqb_spec k k') as [<- |]; constructor; [done | done | done |].
    apply Forall_forall. intros e [-> | He]%elem_of_map_set; [unfold below; cbn; lia |].
    by apply Forall_forall with (x := e) in Hb.
Qed.

Lemma map_find_elem k v m : StronglySorted below m -> map_find k m = Some v <-> (k, v) ∈ m.
Proof.
  induction 1 as [| [k' v'] m Hs IH Hb]; cbn [map_find]; [by split; [| intros ?%not_elem_of_nil] |].
  rewrite elem_of_cons. destruct (Z.eqb_spec k k') as [<- |].
  - split; [intros [= <-]; by left |]. intros [[= ->] | He]; [done |].
    apply Forall_forall with (x := (k, v)) in Hb; [| done]. unfold below in Hb. cbn in Hb. lia.
  - rewrite IH. split; [by right |]. by intros [[= ? ?] |].
Qed.

Lemma delete_sorted n m : StronglySorted below m -> StronglySorted below (delete n m).
Proof.
  intros H. revert n. induction H as [| e m Hs IH Hb]; intros n; [by destruct n; constructor |].
  destruct n as [| n]; cbn; [done |]. constructor; [apply IH | by apply Forall_delete].
Qed.

(** The erased entry is gone, and no other. *)
Lemma map_find_delete n k v j m :
  StronglySorted below m -> m !! n = Some (k, v) ->
  map_find j (delete n m) = if j =? k then None else map_find j m.
Proof.
  intros Hs Hn. pose proof (delete_sorted n m Hs) as Hs'. apply option_eq. intros w.
  rewrite map_find_elem by done. pose proof (delete_Permutation m n _ Hn) as Hperm.
  assert (Hin : forall e, e ∈ m <-> e = (k, v) \/ e ∈ delete n m).
  { intros e. rewrite Hperm at 1. by rewrite elem_of_cons. }
  destruct (Z.eqb_spec j k) as [-> | Hne].
  - split; [| done]. intros Hw. exfalso.
    assert (Hnd : NoDup (fst <$> m)).
    { clear -Hs. induction Hs as [| e m Hs IH Hb]; [constructor |]. cbn. constructor; [| done].
      intros (e' & E & He')%list_elem_of_fmap.
      apply Forall_forall with (x := e') in Hb; [| done]. unfold below in Hb. lia. }
    rewrite Hperm in Hnd. cbn in Hnd. apply NoDup_cons in Hnd as [Hnd _]. apply Hnd.
    apply list_elem_of_fmap. by exists (k, w).
  - rewrite map_find_elem, Hin by done. split; [by right |]. by intros [[= ? ?] |].
Qed.


Lemma lower_bound_spec k m :
  StronglySorted below m ->
  match lower_bound k m with
  | Some (k', v) => map_find k' m = Some v /\ k <= k' /\
      forall j w, map_find j m = Some w -> k <= j -> k' <= j
  | None => forall j w, map_find j m = Some w -> j < k
  end.
Proof.
  induction 1 as [| [k1 v1] m Hs IH Hb]; cbn [lower_bound map_find]; [done |].
  assert (Hk1 : forall j w, map_find j m = Some w -> k1 < j).
  { intros j w E%map_find_elem; [| done]. eapply Forall_forall in Hb; [| exact E]. exact Hb. }
  destruct (Z.leb_spec k k1).
  - rewrite Z.eqb_refl. split; [done |]. split; [done |]. intros j w. 
    destruct (Z.eqb_spec j k1) as [-> |]; [lia |]. intros E%Hk1. lia.
  - destruct (lower_bound k m) as [[k' v] |].
    + destruct IH as (E & Hk & Hmin). pose proof (Hk1 _ _ E). split; [| split; [done |]].
      * by destruct (Z.eqb_spec k' k1); [lia |].
      * intros j w. destruct (Z.eqb_spec j k1) as [-> |]; [lia | by apply Hmin].
    + intros j w. destruct (Z.eqb_spec j k1) as [-> |]; [lia | by apply IH].
Qed.

End ord_map.
