(* ===== verification/OramSim.v ===== *)
(** riscv/oramsim.cc and oramsim.h: the model of an ORAM controller, a binary tree of
    blocks with a stash.  An access to a block loads the path to the leaf it is mapped to,
    maps it to a random leaf and writes the path back.

    [rand()] is an argument of the access; the requests to the DRAM, a model outside this
    program, are recorded in order. *)
From S2P Require Import Prelude.

Record request := Request { rq_addr : Z; rq_bytes : Z; rq_store : bool }.

(** [oram_sim_t].  [stash] is allocated with eight times its size; what lies beyond
    [stashsz] is not initialised, and zero here.  The maps give zero for a key they do not
    have, as [operator[]] does. *)
Record oram_sim := OramSim {
  stashsz : Z;
  cacheline_sz : Z;
  num_of_blocks : Z;
  tree_height : Z;
  tree_leaves : Z;
  tree_nodes : Z;
  stash : list Z;
  position_map : gmap Z Z;
  oram_tree : gmap Z Z;
  oram_accesses : Z;
  stash_hit : Z;
  stash_miss : Z;
  dram_requests : list request
}.

(** [(uint64_t)-1]: no block. *)
Definition no_block : Z := u64 (-1).

Definition stash_at (st : list Z) (i : Z) : Z := default 0 (st !! Z.to_nat i).
Definition set_stash (st : list Z) (i v : Z) : list Z := <[Z.to_nat i := v]> st.
Definition map_at (m : gmap Z Z) (k : Z) : Z := default 0 (m !! k).

(** Fields replaced. *)
Definition with_stash (st : list Z) (o : oram_sim) : oram_sim :=
  OramSim (stashsz o) (cacheline_sz o) (num_of_blocks o) (tree_height o) (tree_leaves o)
    (tree_nodes o) st (position_map o) (oram_tree o) (oram_accesses o) (stash_hit o)
    (stash_miss o) (dram_requests o).
Definition with_tree (t : gmap Z Z) (o : oram_sim) : oram_sim :=
  OramSim (stashsz o) (cacheline_sz o) (num_of_blocks o) (tree_height o) (tree_leaves o)
    (tree_nodes o) (stash o) (position_map o) t (oram_accesses o) (stash_hit o)
    (stash_miss o) (dram_requests o).
Definition with_position (p : gmap Z Z) (o : oram_sim) : oram_sim :=
  OramSim (stashsz o) (cacheline_sz o) (num_of_blocks o) (tree_height o) (tree_leaves o)
    (tree_nodes o) (stash o) p (oram_tree o) (oram_accesses o) (stash_hit o)
    (stash_miss o) (dram_requests o).
Definition dram_access (addr : Z) (store : bool) (o : oram_sim) : oram_sim :=
  OramSim (stashsz o) (cacheline_sz o) (num_of_blocks o) (tree_height o) (tree_leaves o)
    (tree_nodes o) (stash o) (position_map o) (oram_tree o) (oram_accesses o) (stash_hit o)
    (stash_miss o) (dram_requests o ++ [Request addr (cacheline_sz o) store]).
Definition count_access (hit : bool) (o : oram_sim) : oram_sim :=
  OramSim (stashsz o) (cacheline_sz o) (num_of_blocks o) (tree_height o) (tree_leaves o)
    (tree_nodes o) (stash o) (position_map o) (oram_tree o) (u64 (oram_accesses o + 1))
    (u64 (stash_hit o + (if hit then 1 else 0))) (u64 (stash_miss o + (if hit then 0 else 1))) (dram_requests o).

(** ** Construction *)

Fixpoint init_nodes (n : nat) (i : Z) (t : gmap Z Z) : gmap Z Z :=
  match n with O => t | S n => init_nodes n (i + 1) (<[i := no_block]> t) end.
Fixpoint init_leaves (n : nat) (leafid bid : Z) (t p : gmap Z Z) : gmap Z Z * gmap Z Z :=
  match n with
  | O => (t, p)
  | S n => init_leaves n (leafid + 1) (bid + 1) (<[leafid := bid]> t) (<[bid := leafid]> p)
  end.

(** The number of blocks is positive: the logarithm of zero has no integer value. *)
Definition oram_init (bucketsz stashsz mem_mb cacheline_sz : Z) : oram_sim :=
  let blocks := u64 (mem_mb * 1024 * 1024) / cacheline_sz / bucketsz in
  let height := Z.log2 blocks in
  let leaves := 2 ^ height in
  let nodes := 2 ^ (height + 1) - 1 in
  let t := init_nodes (Z.to_nat (leaves - 1)) 1 ∅ in
  let '(t, p) := init_leaves (Z.to_nat (nodes - leaves + 1)) leaves 0 t ∅ in
  OramSim stashsz cacheline_sz blocks height leaves nodes
    (replicate (Z.to_nat stashsz) no_block ++ replicate (Z.to_nat (7 * stashsz)) 0) p t 0 0 0 [].

(** ** Blocks and addresses *)

Definition get_block_id (addr : Z) (o : oram_sim) : Z := u64 (addr - 0x80000000) / cacheline_sz o.
Definition block_id_to_addr (block_id : Z) (o : oram_sim) : Z :=
  u64 (block_id * cacheline_sz o + 0x80000000).
Definition is_leaf (leaf : Z) (o : oram_sim) : bool :=
  (tree_leaves o <=? leaf) && (leaf <=? tree_nodes o).

Fixpoint in_stash (n : nat) (i block_id : Z) (st : list Z) : bool :=
  match n with
  | O => false
  | S n => if stash_at st i =? block_id then true else in_stash n (i + 1) block_id st
  end.
Definition block_is_in_stash (block_id : Z) (o : oram_sim) : bool :=
  in_stash (Z.to_nat (s32 (stashsz o))) 0 block_id (stash o).

(** ** Loading a path *)

(** From level [s] up to the root; [cur] is an [int]. *)
Fixpoint load_path (s : nat) (cur : Z) (o : oram_sim) : oram_sim :=
  let block := map_at (oram_tree o) (u64 cur) in
  let o := with_stash (set_stash (stash o) (Z.of_nat s) block) o in
  let o := dram_access (block_id_to_addr block o) false o in
  match s with O => o | S s => load_path s (Z.quot cur 2) o end.

(** The assertion fails: [None]. *)
Definition load_path_to_stash (leaf : Z) (o : oram_sim) : option oram_sim :=
  if is_leaf leaf o then Some (load_path (Z.to_nat (tree_height o)) (s32 leaf) o) else None.

(** ** Writing a path back *)

(** The level of the nearest common ancestor, or -1. *)
Fixpoint ancestor_height (s : nat) (from_new from_cur : Z) : Z :=
  if from_new =? from_cur then Z.of_nat s
  else match s with
       | O => -1
       | S s => ancestor_height s (Z.quot from_new 2) (Z.quot from_cur 2)
       end.

(** The block leaves the first slot it is in. *)
Fixpoint remove_block (n : nat) (i bid : Z) (st : list Z) : list Z :=
  match n with
  | O => st
  | S n => if stash_at st i =? bid then set_stash st i no_block else remove_block n (i + 1) bid st
  end.

(** Down from level [s], the first empty slot. *)
Fixpoint place_block (s : nat) (bid : Z) (st : list Z) : option (list Z) :=
  if stash_at st (Z.of_nat s) =? no_block then Some (set_stash st (Z.of_nat s) bid)
  else match s with O => None | S s => place_block s bid st end.

(** The inner loop of the eviction: [n] slots from [i] on. *)
Fixpoint first_empty (n : nat) (i v : Z) (st : list Z) : list Z :=
  match n with
  | O => st
  | S n => if stash_at st i =? no_block then set_stash st i v else first_empty n (i + 1) v st
  end.

(** [n] entries of the stash from [sid] on that are mapped to the leaf are copied to the
    path; [stash[sid] == (uint64_t) -1] is a comparison and changes nothing. *)
Fixpoint evict (n : nat) (sid leaf height : Z) (pos : gmap Z Z) (st : list Z) : list Z :=
  match n with
  | O => st
  | S n =>
      let st :=
        if map_at pos (stash_at st sid) =? leaf
        then first_empty (Z.to_nat height) 0 (stash_at st sid) st else st in
      evict n (sid + 1) leaf height pos st
  end.

(** The block stays in the stash; [None]: the assertion that it has not overflowed
    fails. *)
Fixpoint keep_block (n : nat) (sid bid stashsz : Z) (st : list Z) : option (list Z) :=
  match n with
  | O => Some st
  | S n =>
      if stash_at st sid =? no_block then Some (set_stash st sid bid)
      else if sid =? stashsz - 1 then None
      else keep_block n (sid + 1) bid stashsz st
  end.

(** From level [s] up to the root. *)
Fixpoint write_path (s : nat) (cur : Z) (o : oram_sim) : oram_sim :=
  let block := stash_at (stash o) (Z.of_nat s) in
  let o := with_tree (<[cur := block]> (oram_tree o)) o in
  let o := dram_access (block_id_to_addr block o) true o in
  let o := with_stash (set_stash (stash o) (Z.of_nat s) no_block) o in
  match s with O => o | S s => write_path s (cur / 2) o end.

(** The stash to be written back.  The nodes of two leaves have a common ancestor, the
    root: the search for it does not end at -1. *)
Definition reshuffle (leaf bid new_leaf : Z) (o : oram_sim) : option (list Z) :=
  let h := Z.to_nat (tree_height o) in
  let cur_height := ancestor_height h (s32 new_leaf) (s32 leaf) in
  let st := remove_block (Z.to_nat (stashsz o)) 0 bid (stash o) in
  if cur_height <? 0 then None
  else
    let placed := place_block (Z.to_nat cur_height) bid st in
    let st := default st placed in
    let overflow := Z.to_nat (stashsz o - (tree_height o + 1)) in
    let st := evict overflow (tree_height o + 1) leaf (tree_height o) (position_map o) st in
    match placed with
    | Some _ => Some st
    | None => keep_block overflow (tree_height o + 1) bid (stashsz o) st
    end.

Definition stash_write_back (leaf bid new_leaf : Z) (o : oram_sim) : option oram_sim :=
  st ← reshuffle leaf bid new_leaf o;
  Some (write_path (Z.to_nat (tree_height o)) leaf (with_stash st o)).

(** ** An access *)

Definition oram_access (rand addr : Z) (o : oram_sim) : option oram_sim :=
  let block_id := get_block_id addr o in
  if negb (block_id <? num_of_blocks o) then None
  else if block_is_in_stash block_id o then Some (count_access true o)
  else
    let o := count_access false o in
    let leaf := map_at (position_map o) block_id in
    let new_leaf := rand mod tree_leaves o + tree_leaves o in
    let o := with_position (<[block_id := new_leaf]> (position_map o)) o in
    o ← load_path_to_stash leaf o;
    stash_write_back leaf block_id new_leaf o.

(** A run, with the addresses accessed and the random numbers drawn. *)
Fixpoint oram_run (accesses : list (Z * Z)) (o : oram_sim) : option oram_sim :=
  match accesses with
  | [] => Some o
  | (rand, addr) :: accesses => o ← oram_access rand addr o; oram_run accesses o
  end.

(** ** The stash *)

Lemma length_set_stash st i v : length (set_stash st i v) = length st.
Proof. apply length_insert. Qed.

Lemma stash_at_set st i j v :
  0 <= i < Z.of_nat (length st) -> 0 <= j ->
  stash_at (set_stash st i v) j = if i =? j then v else stash_at st j.
Proof.
  intros Hi Hj. unfold stash_at, set_stash. destruct (Z.eqb_spec i j) as [-> | Hne].
  - rewrite list_lookup_insert_eq by lia. done.
  - by rewrite list_lookup_insert_ne by lia.
Qed.

(** [st'] is [st] with the block put in an empty slot that satisfies [P]. *)
Definition stored (bid : Z) (P : Z -> Prop) (st st' : list Z) : Prop :=
  exists k, P k /\ stash_at st k = no_block /\ st' = set_stash st k bid.

(** Slots that hold a block keep it, and so do all slots outside [P]. *)
Definition fills (P : Z -> Prop) (st st' : list Z) : Prop :=
  length st' = length st /\
  forall i, 0 <= i -> stash_at st i <> no_block \/ ~ P i -> stash_at st' i = stash_at st i.

#[export] Instance fills_reflexive P : Reflexive (fills P).
Proof. by intros st. Qed.

Lemma fills_trans P st1 st2 st3 : fills P st1 st2 -> fills P st2 st3 -> fills P st1 st3.
Proof.
  intros [L1 H1] [L2 H2]. split; [lia |]. intros i Hi H.
  assert (E : stash_at st2 i = stash_at st1 i) by auto.
  rewrite H2, E; [done | done |]. by rewrite E.
Qed.

Lemma fills_set (P : Z -> Prop) st k v :
  0 <= k < Z.of_nat (length st) -> P k -> stash_at st k = no_block ->
  fills P st (set_stash st k v).
Proof.
  intros Hk HP Hst. split; [apply length_set_stash |]. intros i Hi H.
  rewrite stash_at_set by lia. destruct (Z.eqb_spec k i) as [-> |]; [| done].
  by destruct H.
Qed.

Lemma first_empty_fills n i v st :
  0 <= i -> i + Z.of_nat n <= Z.of_nat (length st) ->
  fills (fun k => i <= k < i + Z.of_nat n) st (first_empty n i v st).
Proof.
  revert i. induction n as [| n IH]; intros i Hi Hn; [reflexivity |]. cbn [first_empty].
  destruct (Z.eqb_spec (stash_at st i) no_block).
  - apply fills_set; [lia | lia | done].
  - destruct (IH (i + 1)) as [L H]; [lia | lia |]. split; [done |].
    intros j Hj Hs. apply H; [done |]. destruct Hs; [by left | right; lia].
Qed.

Lemma evict_fills n sid leaf height pos st :
  0 <= height <= Z.of_nat (length st) ->
  fills (fun k => 0 <= k < height) st (evict n sid leaf height pos st).
Proof.
  intros Hh. revert sid st Hh. induction n as [| n IH]; intros sid st Hh; [reflexivity |].
  cbn [evict].
  assert (F : fills (fun k => 0 <= k < height) st
    (if map_at pos (stash_at st sid) =? leaf
     then first_empty (Z.to_nat height) 0 (stash_at st sid) st else st)).
  { case_match; [| reflexivity].
    pose proof (first_empty_fills (Z.to_nat height) 0 (stash_at st sid) st) as [L K];
      [lia | lia |]. split; [done |]. intros i Hi Hs. apply K; [done |].
    destruct Hs; [by left | right; lia]. }
  eapply fills_trans; [exact F |]. apply IH. rewrite (proj1 F). lia.
Qed.

Lemma place_block_stored s bid st st' :
  place_block s bid st = Some st' -> stored bid (fun k => 0 <= k <= Z.of_nat s) st st'.
Proof.
  induction s as [| s IH]; cbn [place_block]; intros H;
    match type of H with context [if ?b then _ else _] => destruct b eqn:E end; simplify_eq.
  - exists 0. by apply Z.eqb_eq in E.
  - exists (Z.of_nat (S s)). apply Z.eqb_eq in E. repeat split; [lia | lia | done].
  - destruct (IH H) as (k & Hk & ? & ->). exists k. repeat split; [lia | lia | done].
Qed.

(** The first empty slot of the overflow; with [u] slots in use at most, the ones from
    [sid + u] on are empty, and one more is in use after. *)
Lemma keep_block_stored n sid bid size st u :
  0 <= sid -> sid + Z.of_nat n = size -> 0 <= u ->
  (forall i, sid + u <= i < size -> stash_at st i = no_block) ->
  match keep_block n sid bid size st with
  | Some st' =>
      n = 0%nat \/ stored bid (fun k => sid <= k <= sid + u /\ k < size) st st'
  | None => Z.of_nat n <= u
  end.
Proof.
  revert sid u. induction n as [| n IH]; intros sid u Hs Hn Hu Hempty; cbn [keep_block].
  { by left. }
  destruct (Z.eqb_spec (stash_at st sid) no_block) as [E | E].
  { right. exists sid. repeat split; [lia | lia | lia | done]. }
  assert (Hu' : 0 < u).
  { destruct (Z.eq_dec u 0) as [-> |]; [| lia]. by rewrite Hempty in E by lia. }
  destruct (Z.eqb_spec sid (size - 1)); [lia |].
  specialize (IH (sid + 1) (u - 1)). destruct (keep_block n _ _ _ _).
  - right. destruct IH as [-> | (k & Hk & ? & ->)]; [lia | lia | lia | | lia |].
    + intros i Hi. apply Hempty. lia.
    + exists k. repeat split; [lia | lia | lia | done].
  - assert (Z.of_nat n <= u - 1); [| lia]. apply IH; [lia | lia | lia |].
    intros i Hi. apply Hempty. lia.
Qed.

(** The assertion fails only when every slot of the overflow holds a block. *)
Lemma keep_block_full n sid bid size st i :
  keep_block n sid bid size st = None -> sid <= i < size -> stash_at st i <> no_block.
Proof.
  revert sid. induction n as [| n IH]; intros sid; cbn [keep_block]; [done |].
  destruct (Z.eqb_spec (stash_at st sid) no_block) as [| Hne]; [done |].
  intros Hk Hi. destruct (Z.eq_dec i sid) as [-> |]; [done |].
  destruct (Z.eqb_spec sid (size - 1)); [lia |]. apply (IH (sid + 1)); [done | lia].
Qed.

(** A slot from which the block may have been removed was not empty if it is not. *)
Lemma remove_block_nonempty n i bid st j :
  0 <= i -> i + Z.of_nat n <= Z.of_nat (length st) -> 0 <= j ->
  stash_at (remove_block n i bid st) j <> no_block -> stash_at st j <> no_block.
Proof.
  revert i. induction n as [| n IH]; intros i Hi Hn Hj; cbn [remove_block]; [done |].
  destruct (Z.eqb_spec (stash_at st i) bid) as [E | E]; [| apply IH; lia].
  rewrite stash_at_set by lia. by destruct (Z.eqb_spec i j).
Qed.

(** Slots that do not hold the block keep what they hold. *)
Lemma remove_block_keeps n i bid st j :
  0 <= i -> i + Z.of_nat n <= Z.of_nat (length st) -> 0 <= j ->
  length (remove_block n i bid st) = length st /\
  (stash_at st j <> bid -> stash_at (remove_block n i bid st) j = stash_at st j).
Proof.
  revert i. induction n as [| n IH]; intros i Hi Hn Hj; cbn [remove_block]; [done |].
  destruct (Z.eqb_spec (stash_at st i) bid) as [E | E]; [| apply IH; lia].
  split; [apply length_set_stash |]. intros Hj'. rewrite stash_at_set by lia.
  by destruct (Z.eqb_spec i j) as [-> |].
Qed.

Lemma in_stash_false n i bid st j :
  in_stash n i bid st = false -> i <= j < i + Z.of_nat n -> stash_at st j <> bid.
Proof.
  revert i. induction n as [| n IH]; intros i H Hj; [lia |]. cbn [in_stash] in H.
  destruct (Z.eqb_spec (stash_at st i) bid) as [E | E]; [done |].
  destruct (Z.eq_dec i j) as [-> |]; [done |]. apply (IH (i + 1)); [done | lia].
Qed.

(** ** Paths *)

(** The node at level [k] of the path from the root, at level 0, to a leaf at level
    [h]. *)
Definition path_node (h leaf k : Z) : Z := leaf / 2 ^ (h - k).

Lemma path_node_leaf h leaf : path_node h leaf h = leaf.
Proof. unfold path_node. rewrite Z.sub_diag. apply Z.div_1_r. Qed.

Lemma path_node_parent h leaf k :
  k < h -> path_node (h - 1) (leaf / 2) k = path_node h leaf k.
Proof.
  intros Hk. unfold path_node. rewrite Z.div_div by lia. f_equal.
  replace (h - k) with (1 + (h - 1 - k)) by lia. by rewrite Z.pow_add_r by lia.
Qed.

Lemma path_node_range h leaf k :
  0 <= k <= h -> 2 ^ h <= leaf < 2 ^ (h + 1) -> 2 ^ k <= path_node h leaf k < 2 ^ (k + 1).
Proof.
  intros Hk Hl. unfold path_node.
  assert (E1 : 2 ^ h = 2 ^ k * 2 ^ (h - k)) by (rewrite <- Z.pow_add_r by lia; f_equal; lia).
  assert (E2 : 2 ^ (h + 1) = 2 ^ (k + 1) * 2 ^ (h - k))
    by (rewrite <- Z.pow_add_r by lia; f_equal; lia).
  pose proof (Z.pow_pos_nonneg 2 (h - k) ltac:(lia) ltac:(lia)).
  split; [apply Z.div_le_lower_bound; lia | apply Z.div_lt_upper_bound; lia].
Qed.

(** The nodes of a path are on different levels. *)
Lemma path_node_inj h leaf leaf' j k :
  0 <= j <= h -> 0 <= k <= h ->
  2 ^ h <= leaf < 2 ^ (h + 1) -> 2 ^ h <= leaf' < 2 ^ (h + 1) ->
  path_node h leaf j = path_node h leaf' k -> j = k.
Proof.
  intros Hj Hk Hl Hl' E. pose proof (path_node_range h leaf j Hj Hl).
  pose proof (path_node_range h leaf' k Hk Hl').
  destruct (Z.lt_trichotomy j k) as [L | [-> | L]]; [| done |].
  - pose proof (Z.pow_le_mono_r 2 (j + 1) k ltac:(lia) ltac:(lia)). lia.
  - pose proof (Z.pow_le_mono_r 2 (k + 1) j ltac:(lia) ltac:(lia)). lia.
Qed.

Lemma halve_range h leaf :
  0 <= h -> 2 ^ (h + 1) <= leaf < 2 ^ (h + 1 + 1) -> 2 ^ h <= leaf / 2 < 2 ^ (h + 1).
Proof.
  intros Hh Hl. rewrite (Z.pow_add_r 2 (h + 1) 1), (Z.pow_add_r 2 h 1) in Hl by lia.
  rewrite Z.pow_add_r by lia. pose proof (Z.div_mod leaf 2). pose proof (Z.mod_pos_bound leaf 2).
  lia.
Qed.

(** The search for the common ancestor ends at a level both paths share. *)
Lemma ancestor_height_common s a b :
  2 ^ Z.of_nat s <= a < 2 ^ (Z.of_nat s + 1) -> 2 ^ Z.of_nat s <= b < 2 ^ (Z.of_nat s + 1) ->
  0 <= ancestor_height s a b <= Z.of_nat s /\
  forall k, k <= ancestor_height s a b ->
    path_node (Z.of_nat s) a k = path_node (Z.of_nat s) b k.
Proof.
  revert a b. induction s as [| s IH]; intros a b Ha Hb; cbn [ancestor_height];
    destruct (Z.eqb_spec a b) as [<- | Hne]; try (split; [lia | done]).
  - change (2 ^ Z.of_nat 0) with 1 in *. change (2 ^ (Z.of_nat 0 + 1)) with 2 in *. lia.
  - replace (Z.of_nat (S s)) with (Z.of_nat s + 1) in * by lia.
    rewrite !Z.quot_div_nonneg by lia.
    destruct (IH (a / 2) (b / 2)) as [Hr Hp]; [apply halve_range; lia.. |].
    split; [lia |]. intros k Hk.
    rewrite <- (path_node_parent _ a), <- (path_node_parent _ b) by lia.
    rewrite Z.add_simpl_r. by apply Hp.
Qed.

(** ** Loading and writing a path *)

(** What the construction fixes. *)
Definition oram_config (o : oram_sim) : Z * Z * Z * Z * Z * Z :=
  (stashsz o, cacheline_sz o, num_of_blocks o, tree_height o, tree_leaves o, tree_nodes o).

(** The requests for the nodes of a path, from the leaf up. *)
Definition path_requests (s : nat) (leaf : Z) (store : bool) (t : gmap Z Z) (o : oram_sim)
    : list request :=
  map (fun k => Request (block_id_to_addr (map_at t (path_node (Z.of_nat s) leaf (Z.of_nat k))) o)
                  (cacheline_sz o) store) (rev (seq 0 (S s))).

Lemma path_requests_S s leaf store t o :
  path_requests (S s) leaf store t o =
  Request (block_id_to_addr (map_at t leaf) o) (cacheline_sz o) store ::
  path_requests s (leaf / 2) store t o.
Proof.
  unfold path_requests. rewrite (seq_S (S s)), rev_app_distr. cbn [rev app map].
  rewrite Nat.add_0_l, path_node_leaf. f_equal. apply map_ext_in. intros k Hk%in_rev%in_seq.
  rewrite <- (path_node_parent _ leaf) by lia. do 4 f_equal. lia.
Qed.

Lemma load_path_spec s leaf o :
  2 ^ Z.of_nat s <= leaf < 2 ^ (Z.of_nat s + 1) -> (s < length (stash o))%nat ->
  leaf < 2 ^ 64 ->
  let o' := load_path s leaf o in
  oram_config o' = oram_config o /\ oram_tree o' = oram_tree o /\
  position_map o' = position_map o /\ length (stash o') = length (stash o) /\
  (forall k, 0 <= k <= Z.of_nat s ->
     stash_at (stash o') k = map_at (oram_tree o) (path_node (Z.of_nat s) leaf k)) /\
  (forall k, Z.of_nat s < k -> stash_at (stash o') k = stash_at (stash o) k) /\
  dram_requests o' = dram_requests o ++ path_requests s leaf false (oram_tree o) o.
Proof.
  revert leaf o. induction s as [| s IH]; intros leaf o Hl Hs H64; cbn [load_path];
    rewrite (wrap_small 64 leaf) by lia.
  - repeat split; cbn.
    + apply length_set_stash.
    + intros k Hk. assert (k = 0) as -> by lia. rewrite stash_at_set by lia. cbn.
      by rewrite (path_node_leaf 0).
    + intros k Hk. rewrite stash_at_set by lia. by destruct (Z.eqb_spec (Z.of_nat 0) k); [lia |].
    + by rewrite (path_node_leaf 0).
  - replace (Z.of_nat (S s)) with (Z.of_nat s + 1) in * by lia.
    rewrite Z.quot_div_nonneg by lia.
    pose proof (halve_range (Z.of_nat s) leaf ltac:(lia) Hl) as Hl'.
    set (o1 := dram_access _ _ _).
    assert (L1 : length (stash o1) = length (stash o)) by apply length_set_stash.
    destruct (IH (leaf / 2) o1) as (? & -> & -> & -> & Hload & Hrest & Hreq);
      [done | rewrite L1; lia | apply Z.div_lt_upper_bound; lia |].
    repeat split; [done | done | | |].
    + intros k Hk. destruct (Z.eq_dec k (Z.of_nat s + 1)) as [-> |].
      * rewrite Hrest, path_node_leaf by lia. cbn [o1 dram_access with_stash stash].
        rewrite stash_at_set, Z.eqb_refl by lia. done.
      * rewrite Hload by lia. by rewrite <- (path_node_parent _ leaf), Z.add_simpl_r by lia.
    + intros k Hk. rewrite Hrest by lia. cbn [o1 dram_access with_stash stash].
      rewrite stash_at_set by lia. by destruct (Z.eqb_spec (Z.of_nat s + 1) k); [lia |].
    + rewrite Hreq, path_requests_S. cbn [o1 dram_access dram_requests with_stash].
      by rewrite <- app_assoc.
Qed.

Lemma map_at_insert t k v j : map_at (<[k := v]> t) j = if k =? j then v else map_at t j.
Proof.
  unfold map_at. destruct (Z.eqb_spec k j) as [-> |];
    [by rewrite lookup_insert_eq | by rewrite lookup_insert_ne].
Qed.

Lemma write_path_spec s leaf o :
  2 ^ Z.of_nat s <= leaf < 2 ^ (Z.of_nat s + 1) -> (s < length (stash o))%nat ->
  let o' := write_path s leaf o in
  oram_config o' = oram_config o /\ position_map o' = position_map o /\
  length (stash o') = length (stash o) /\
  (forall k, 0 <= k <= Z.of_nat s -> stash_at (stash o') k = no_block) /\
  (forall k, Z.of_nat s < k -> stash_at (stash o') k = stash_at (stash o) k) /\
  (forall k, 0 <= k <= Z.of_nat s ->
     map_at (oram_tree o') (path_node (Z.of_nat s) leaf k) = stash_at (stash o) k) /\
  (forall n, (forall k, 0 <= k <= Z.of_nat s -> n <> path_node (Z.of_nat s) leaf k) ->
     map_at (oram_tree o') n = map_at (oram_tree o) n).
Proof.
  revert leaf o. induction s as [| s IH]; intros leaf o Hl Hs; cbn [write_path].
  - repeat split; cbn.
    + apply length_set_stash.
    + intros k Hk. rewrite stash_at_set by lia. by destruct (Z.eqb_spec (Z.of_nat 0) k); [| lia].
    + intros k Hk. rewrite stash_at_set by lia. by destruct (Z.eqb_spec (Z.of_nat 0) k); [lia |].
    + intros k Hk. assert (k = 0) as -> by lia.
      by rewrite (path_node_leaf 0), map_at_insert, Z.eqb_refl.
    + intros n Hn. rewrite map_at_insert. destruct (Z.eqb_spec leaf n) as [-> |]; [| done].
      destruct (Hn 0); [lia |]. by rewrite (path_node_leaf 0).
  - replace (Z.of_nat (S s)) with (Z.of_nat s + 1) in * by lia.
    pose proof (halve_range (Z.of_nat s) leaf ltac:(lia) Hl) as Hl'.
    assert (Hpar : forall k, k <= Z.of_nat s ->
      path_node (Z.of_nat s) (leaf / 2) k = path_node (Z.of_nat s + 1) leaf k).
    { intros k Hk. by rewrite <- (path_node_parent _ leaf), Z.add_simpl_r by lia. }
    set (o1 := with_stash _ _).
    assert (L1 : length (stash o1) = length (stash o)) by apply length_set_stash.
    destruct (IH (leaf / 2) o1) as (? & -> & -> & Hclear & Hrest & Htree & Hother);
      [done | rewrite L1; lia |].
    assert (Hleaf : map_at (oram_tree (write_path s (leaf / 2) o1)) leaf =
                    stash_at (stash o) (Z.of_nat s + 1)).
    { rewrite Hother; [cbn; by rewrite map_at_insert, Z.eqb_refl |].
      intros k Hk E. rewrite Hpar, <- (path_node_leaf (Z.of_nat s + 1) leaf) in E by lia.
      rewrite path_node_leaf in E. rewrite <- (path_node_leaf (Z.of_nat s + 1) leaf) in E at 1.
      apply path_node_inj in E; lia. }
    repeat split; [done | done | | | |].
    + intros k Hk. destruct (Z.eq_dec k (Z.of_nat s + 1)) as [-> |]; [| apply Hclear; lia].
      rewrite Hrest by lia. cbn [o1 with_stash stash].
      by rewrite stash_at_set, Z.eqb_refl by (cbn; lia).
    + intros k Hk. rewrite Hrest by lia. cbn [o1 with_stash stash].
      rewrite stash_at_set by (cbn; lia). by destruct (Z.eqb_spec (Z.of_nat s + 1) k); [lia |].
    + intros k Hk. destruct (Z.eq_dec k (Z.of_nat s + 1)) as [-> |].
      * by rewrite path_node_leaf.
      * rewrite <- Hpar, Htree by lia. cbn [o1 with_stash stash].
        rewrite stash_at_set by (cbn; lia).
        by destruct (Z.eqb_spec (Z.of_nat s + 1) k); [lia |].
    + intros n Hn. rewrite Hother.
      * cbn. rewrite map_at_insert. destruct (Z.eqb_spec leaf n) as [-> |]; [| done].
        destruct (Hn (Z.of_nat s + 1)); [lia |]. by rewrite path_node_leaf.
      * intros k Hk. rewrite Hpar by lia. apply Hn. lia.
Qed.

Lemma write_path_requests s leaf o :
  2 ^ Z.of_nat s <= leaf < 2 ^ (Z.of_nat s + 1) -> (s < length (stash o))%nat ->
  dram_requests (write_path s leaf o) =
  dram_requests o ++ path_requests s leaf true (oram_tree (write_path s leaf o)) o.
Proof.
  intros Hl Hs.
  assert (G : forall t, (forall k, 0 <= k <= Z.of_nat s ->
      map_at t (path_node (Z.of_nat s) leaf k) = stash_at (stash o) k) ->
    dram_requests (write_path s leaf o) = dram_requests o ++ path_requests s leaf true t o);
    [| by apply G, write_path_spec].
  intros t Ht. revert leaf o Hl Hs Ht. induction s as [| s IH]; intros leaf o Hl Hs Ht; cbn [write_path].
  - cbn. by rewrite Ht by (cbn; lia).
  - replace (Z.of_nat (S s)) with (Z.of_nat s + 1) in * by lia.
    set (o1 := with_stash _ _).
    assert (L1 : length (stash o1) = length (stash o)) by apply length_set_stash.
    rewrite IH; [| by apply halve_range; [lia |] | rewrite L1; lia |].
    + rewrite path_requests_S. cbn [o1 dram_access dram_requests with_stash with_tree].
      rewrite <- app_assoc. cbn [app]. do 2 f_equal. unfold block_id_to_addr.
      by rewrite <- (Ht (Z.of_nat s + 1)), path_node_leaf by lia.
    + intros k Hk. cbn [o1 with_stash stash dram_access with_tree]. rewrite stash_at_set by (cbn; lia).
      destruct (Z.eqb_spec (Z.of_nat s + 1) k); [lia |]. rewrite <- (Ht k) by lia.
      by rewrite <- (path_node_parent _ leaf), Z.add_simpl_r by lia.
Qed.

(** ** Where the blocks are *)

(** A block can be found: in the stash, beyond the slots a path is loaded to, or on the
    path to the leaf it is mapped to. *)
Definition found_in_stash (h bid : Z) (o : oram_sim) : Prop :=
  exists i, h < i < stashsz o /\ stash_at (stash o) i = bid.
Definition found_on_path (h bid : Z) (o : oram_sim) : Prop :=
  exists k, 0 <= k <= h /\
    map_at (oram_tree o) (path_node h (map_at (position_map o) bid) k) = bid.
Definition available (bid : Z) (o : oram_sim) : Prop :=
  found_in_stash (tree_height o) bid o \/ found_on_path (tree_height o) bid o.

Definition leaf_of (h leaf : Z) : Prop := 2 ^ h <= leaf < 2 ^ (h + 1).

(** The state between two accesses: [u] slots of the stash at most are in use. *)
Record oram_ok (h u : Z) (o : oram_sim) : Prop := {
  ok_config : 0 <= h <= 30 /\ tree_height o = h /\ tree_leaves o = 2 ^ h /\
    tree_nodes o = 2 ^ (h + 1) - 1 /\ num_of_blocks o = 2 ^ h;
  ok_stash : h + 1 < stashsz o < 2 ^ 31 /\ stashsz o <= Z.of_nat (length (stash o));
  ok_clear : forall i, 0 <= i <= h -> stash_at (stash o) i = no_block;
  ok_free : forall i, h + 1 + u <= i < stashsz o -> stash_at (stash o) i = no_block;
  ok_position : forall b, 0 <= b < 2 ^ h -> leaf_of h (map_at (position_map o) b);
  ok_available : forall b, 0 <= b < 2 ^ h -> available b o
}.

Lemma leaf_of_bound h leaf : 0 <= h <= 30 -> leaf_of h leaf -> 0 < leaf < 2 ^ 31.
Proof.
  intros Hh [L U]. pose proof (pow2_pos h ltac:(lia)).
  pose proof (pow2_le (h + 1) 31 ltac:(lia)). lia.
Qed.

Lemma block_not_none h b : 0 <= h <= 30 -> 0 <= b < 2 ^ h -> b <> no_block.
Proof.
  intros Hh Hb. pose proof (pow2_le h 30 ltac:(lia)).
  change no_block with 18446744073709551615. lia.
Qed.

(** The stash that is written back keeps every other block where it was, and has the
    accessed one on both paths or in the overflow. *)
Record reshuffled (h u bid leaf new_leaf size : Z) (st st' : list Z) : Prop := {
  sh_length : length st' = length st;
  sh_keeps : forall i, 0 <= i -> stash_at st i <> no_block -> stash_at st i <> bid ->
    stash_at st' i = stash_at st i;
  sh_free : forall i, h + 1 + u + 1 <= i < size -> stash_at st' i = no_block;
  sh_block : (exists k, 0 <= k <= h /\ stash_at st' k = bid /\
                path_node h leaf k = path_node h new_leaf k) \/
             (exists i, h < i < size /\ stash_at st' i = bid)
}.

(** Every slot of the overflow, beyond the path, holds a block. *)
Definition stash_full (o : oram_sim) : Prop :=
  forall i, tree_height o < i < stashsz o -> stash_at (stash o) i <> no_block.

Lemma reshuffle_spec h u bid leaf new_leaf o :
  0 <= h <= 30 -> tree_height o = h -> leaf_of h leaf -> leaf_of h new_leaf ->
  h + 1 < stashsz o <= Z.of_nat (length (stash o)) -> 0 <= u -> bid <> no_block ->
  (forall i, h + 1 + u <= i < stashsz o -> stash_at (stash o) i = no_block) ->
  match reshuffle leaf bid new_leaf o with
  | Some st => reshuffled h u bid leaf new_leaf (stashsz o) (stash o) st
  | None => stash_full o
  end.
Proof.
  intros Hh Eh Hl Hn Hs Hu Hbid Hfree. unfold reshuffle. rewrite Eh.
  pose proof (leaf_of_bound _ _ Hh Hl). pose proof (leaf_of_bound _ _ Hh Hn).
  rewrite !sext_small by lia.
  destruct (ancestor_height_common (Z.to_nat h) new_leaf leaf) as [Hr Hpath];
    [rewrite Z2Nat.id by lia; done.. |].
  rewrite Z2Nat.id in Hpath, Hr by lia.
  set (r := ancestor_height _ _ _) in *. destruct (Z.ltb_spec r 0); [lia |].
  set (st := remove_block _ _ _ _).
  assert (Hrem : forall j, 0 <= j -> length st = length (stash o) /\
    (stash_at (stash o) j <> bid -> stash_at st j = stash_at (stash o) j)).
  { intros j Hj. apply remove_block_keeps; lia. }
  pose proof (proj1 (Hrem 0 ltac:(lia))) as Lst.
  set (n := Z.to_nat (stashsz o - (h + 1))).
  destruct (place_block (Z.to_nat r) bid st) as [st1 |] eqn:Eplace; cbn [default].
  - apply place_block_stored in Eplace as (k & Hk & Ek & Est1).
    assert (F : fills (fun i => 0 <= i <= h) st st1) by (subst st1; apply fills_set; [lia | lia | done]).
    destruct (evict_fills n (h + 1) leaf h (position_map o) st1) as [L2 F2];
      [rewrite (proj1 F); lia |].
    set (st2 := evict _ _ _ _ _ _) in *. destruct F as [L1 F1]. split.
    + lia.
    + intros i Hi Hne Hnb. destruct (Hrem i Hi) as [_ Ei]. specialize (Ei Hnb).
      assert (stash_at st1 i = stash_at st i) as E1 by (apply F1; [done | left; by rewrite Ei]).
      rewrite F2; [by rewrite E1 | done |]. left. by rewrite E1, Ei.
    + intros i Hi. destruct (Hrem i) as [_ Ei]; [lia |].
      rewrite F2, F1, Ei by (try lia; try (right; lia); rewrite Hfree by lia; done).
      apply Hfree. lia.
    + left. exists k. split; [lia |]. split.
      * rewrite F2; [| lia |]; subst st1; rewrite stash_at_set, Z.eqb_refl by lia; [done | by left].
      * symmetry. apply Hpath. lia.
  - destruct (evict_fills n (h + 1) leaf h (position_map o) st) as [L2 F2]; [lia |].
    set (st2 := evict _ _ _ _ _ _) in *.
    assert (Hfree2 : forall i, h + 1 + u <= i < stashsz o -> stash_at st2 i = no_block).
    { intros i Hi. destruct (Hrem i) as [_ Ei]; [lia |].
      rewrite F2, Ei by (try lia; try (right; lia); rewrite Hfree by lia; done).
      by apply Hfree. }
    pose proof (keep_block_stored n (h + 1) bid (stashsz o) st2 u ltac:(lia) ltac:(lia) Hu Hfree2) as K.
    destruct (keep_block _ _ _ _ _) as [st3 |] eqn:Ekeep.
    2:{ intros i Hi. rewrite Eh in Hi. apply (remove_block_nonempty (Z.to_nat (stashsz o)) 0 bid); [lia | lia | lia |].
        fold st. rewrite <- F2 by (lia || right; lia). apply (keep_block_full _ _ _ _ _ i Ekeep). lia. }
    destruct K as [? | (k & Hk & Ek & ->)]; [lia |]. split.
    + rewrite length_set_stash. lia.
    + intros i Hi Hne Hnb. destruct (Hrem i Hi) as [_ Ei]. specialize (Ei Hnb).
      assert (stash_at st2 i = stash_at st i) as E2 by (apply F2; [done | left; by rewrite Ei]).
      rewrite stash_at_set by lia. destruct (Z.eqb_spec k i) as [-> |]; congruence.
    + intros i Hi. rewrite stash_at_set by lia. destruct (Z.eqb_spec k i); [lia |].
      apply Hfree2. lia.
    + right. exists k. split; [lia |]. by rewrite stash_at_set, Z.eqb_refl by lia.
Qed.

(** ** An access keeps every block *)

(** What an access that misses goes through: the blocks of the path are loaded, the stash
    is reshuffled, the path is written back. *)
Record accessed (h u bid new_leaf : Z) (o o' : oram_sim) (st : list Z) : Prop := {
  ac_config : oram_config o' = oram_config o;
  ac_position : position_map o' = <[bid := new_leaf]> (position_map o);
  ac_length : length (stash o') = length (stash o);
  ac_clear : forall i, 0 <= i <= h -> stash_at (stash o') i = no_block;
  ac_rest : forall i, h < i -> stash_at (stash o') i = stash_at st i;
  ac_stash : forall i, h < i -> stash_at (stash o) i <> no_block ->
    stash_at (stash o) i <> bid -> stash_at st i = stash_at (stash o) i;
  ac_path : forall k b, 0 <= k <= h -> b <> no_block -> b <> bid ->
    map_at (oram_tree o) (path_node h (map_at (position_map o) bid) k) = b ->
    stash_at st k = b;
  ac_written : forall k, 0 <= k <= h ->
    map_at (oram_tree o') (path_node h (map_at (position_map o) bid) k) = stash_at st k;
  ac_other : forall n,
    (forall k, 0 <= k <= h -> n <> path_node h (map_at (position_map o) bid) k) ->
    map_at (oram_tree o') n = map_at (oram_tree o) n;
  ac_free : forall i, h + 1 + (u + 1) <= i < stashsz o -> stash_at st i = no_block;
  ac_block : (exists k, 0 <= k <= h /\ stash_at st k = bid /\
                path_node h (map_at (position_map o) bid) k = path_node h new_leaf k) \/
             (exists i, h < i < stashsz o /\ stash_at st i = bid);
  ac_requests : let leaf := map_at (position_map o) bid in
    dram_requests o' = dram_requests o ++ path_requests (Z.to_nat h) leaf false (oram_tree o) o ++
      path_requests (Z.to_nat h) leaf true (oram_tree o') o
}.

Lemma miss_accessed h u rand addr o :
  let bid := get_block_id addr o in
  let new_leaf := rand mod tree_leaves o + tree_leaves o in
  oram_ok h u o -> 0 <= u -> 0 <= bid < num_of_blocks o -> block_is_in_stash bid o = false ->
  match oram_access rand addr o with
  | Some o' => exists st, accessed h u bid new_leaf o o' st
  | None => stash_full o
  end.
Proof.
  intros bid new_leaf [(Hh & Eh & El & En & Eb) (Hs & Hlen) Hclear Hfree Hpos _] Hu Hbid Hmiss.
  assert (Hleaf : leaf_of h (map_at (position_map o) bid)) by (apply Hpos; lia).
  assert (Hnew : leaf_of h new_leaf).
  { unfold leaf_of, new_leaf. rewrite El, Z.pow_add_r by lia.
    pose proof (Z.mod_pos_bound rand (2 ^ h)). pose proof (pow2_pos h). lia. }
  pose proof (leaf_of_bound _ _ Hh Hleaf). unfold oram_access. fold bid new_leaf.
  destruct (Z.ltb_spec bid (num_of_blocks o)); [| lia]. cbn [negb]. rewrite Hmiss.
  change (position_map (count_access false o)) with (position_map o).
  change (tree_leaves (count_access false o)) with (tree_leaves o). fold new_leaf.
  set (leaf := map_at (position_map o) bid) in *.
  set (o1 := with_position _ _). unfold load_path_to_stash, is_leaf.
  change (tree_leaves o1) with (tree_leaves o). change (tree_nodes o1) with (tree_nodes o).
  change (tree_height o1) with (tree_height o). rewrite El, En, Eh.
  destruct (Z.leb_spec (2 ^ h) leaf); [| unfold leaf_of in Hleaf; lia].
  destruct (Z.leb_spec leaf (2 ^ (h + 1) - 1)); [| unfold leaf_of in Hleaf; lia].
  cbn [andb mbind option_bind]. rewrite sext_small by lia.
  destruct (load_path_spec (Z.to_nat h) leaf o1) as (Ec & Et & Ep & Elen & Hload & Hrest & Hreq);
    [rewrite Z2Nat.id by lia; done | cbn; lia | lia |].
  rewrite Z2Nat.id in Hload, Hrest by lia. set (o2 := load_path _ _ _) in *.
  change (oram_config o1) with (oram_config o) in Ec. cbn in Et, Ep, Elen, Hload, Hrest.
  assert (Es2 : stashsz o2 = stashsz o) by (by injection Ec).
  assert (Eh2 : tree_height o2 = tree_height o) by (by injection Ec).
  pose proof (reshuffle_spec h u bid leaf new_leaf o2 Hh ltac:(lia) Hleaf Hnew ltac:(lia) Hu
    (block_not_none h bid Hh ltac:(lia))) as Hsh.
  unfold stash_write_back. destruct (reshuffle _ _ _ _) as [st |]; cbn [mbind option_bind];
    [| intros i Hi; rewrite <- Hrest by lia; apply Hsh; [| lia]; intros j Hj; rewrite Hrest by lia;
       apply Hfree; lia].
  destruct Hsh as [SL SK SF SB].
  { intros i Hi. rewrite Hrest by lia. apply Hfree. lia. }
  exists st. rewrite Eh2, Eh.
  destruct (write_path_spec (Z.to_nat h) leaf (with_stash st o2))
    as (Wc & Wp & Wl & Wclear & Wrest & Wtree & Wother);
    [rewrite Z2Nat.id by lia; done | cbn; lia |].
  rewrite Z2Nat.id in Wclear, Wrest, Wtree, Wother by lia.
  cbn in Wc, Wp, Wl, Wclear, Wrest, Wtree, Wother. split; fold leaf.
  - rewrite Wc. exact Ec.
  - by rewrite Wp, Ep.
  - lia.
  - done.
  - done.
  - intros i Hi Hn Hb. rewrite <- (Hrest i) in * by lia. apply SK; [lia | done | done].
  - intros k b Hk Hn Hb E. rewrite <- (Hload k) in E by lia. rewrite SK; congruence || lia.
  - done.
  - intros n Hn. rewrite Wother by done. by rewrite Et.
  - intros i Hi. apply SF. lia.
  - by rewrite <- Es2.
  - cbv zeta. rewrite write_path_requests; [| rewrite Z2Nat.id by lia; done | cbn; lia].
    change (dram_requests (with_stash st o2)) with (dram_requests o2). rewrite Hreq.
    rewrite <- app_assoc. unfold path_requests, block_id_to_addr. cbn.
    change (cacheline_sz (with_stash st o2)) with (cacheline_sz o2).
    injection Ec as _ -> _ _ _ _. done.
Qed.

Lemma accessed_ok h u bid new_leaf o o' st :
  oram_ok h u o -> 0 <= u -> 0 <= bid < num_of_blocks o -> leaf_of h new_leaf ->
  accessed h u bid new_leaf o o' st -> oram_ok h (u + 1) o'.
Proof.
  intros [(Hh & Eh & El & En & Eb) (Hs & Hlen) Hclear Hfree Hpos Havail] Hu Hbid Hnew A.
  pose proof (ac_config _ _ _ _ _ _ _ A) as [= C1 C2 C3 C4 C5 C6].
  assert (Hpos' : forall b, map_at (position_map o') b =
                            if bid =? b then new_leaf else map_at (position_map o) b).
  { intros b. rewrite (ac_position _ _ _ _ _ _ _ A). apply map_at_insert. }
  split.
  - repeat split; lia.
  - rewrite (ac_length _ _ _ _ _ _ _ A). lia.
  - apply (ac_clear _ _ _ _ _ _ _ A).
  - intros i Hi. rewrite (ac_rest _ _ _ _ _ _ _ A) by lia.
    apply (ac_free _ _ _ _ _ _ _ A). lia.
  - intros b Hb. rewrite Hpos'. case_match; [done | by apply Hpos].
  - intros b Hb. pose proof (block_not_none h b Hh Hb) as Hnone.
    unfold available, found_in_stash, found_on_path. rewrite C4, C1, Eh, Hpos'.
    destruct (Z.eqb_spec bid b) as [<- | Hne].
    + destruct (ac_block _ _ _ _ _ _ _ A) as [(k & Hk & E & Ep) | (i & Hi & E)].
      * right. exists k. split; [done |]. by rewrite <- Ep, (ac_written _ _ _ _ _ _ _ A).
      * left. exists i. split; [done |]. by rewrite (ac_rest _ _ _ _ _ _ _ A) by lia.
    + destruct (Havail b Hb) as [(i & Hi & E) | (k & Hk & E)]; rewrite Eh in *.
      * left. exists i. split; [done |].
        rewrite (ac_rest _ _ _ _ _ _ _ A), (ac_stash _ _ _ _ _ _ _ A) by (lia || congruence).
        done.
      * right. exists k. split; [done |].
        destruct (decide (path_node h (map_at (position_map o) b) k =
                          path_node h (map_at (position_map o) bid) k)) as [Ep | Ep].
        -- rewrite Ep, (ac_written _ _ _ _ _ _ _ A) by done.
           apply (ac_path _ _ _ _ _ _ _ A); [done | done | done | by rewrite <- Ep].
        -- rewrite (ac_other _ _ _ _ _ _ _ A); [done |]. intros j Hj Ej.
           assert (j = k) as ->; [| done].
           symmetry. eapply (path_node_inj h _ _ k j); [lia | lia | by apply Hpos | | exact Ej].
           apply Hpos. lia.
Qed.

(** ** Accesses and runs *)

Lemma get_block_id_nonneg addr o : 0 < cacheline_sz o -> 0 <= get_block_id addr o.
Proof. intros H. apply Z.div_pos; [apply (wrap_range 64); lia | done]. Qed.

Lemma in_stash_true n i bid st :
  in_stash n i bid st = true <-> exists j, i <= j < i + Z.of_nat n /\ stash_at st j = bid.
Proof.
  revert i. induction n as [| n IH]; intros i; cbn [in_stash].
  { split; [done |]. intros (j & Hj & _). lia. }
  destruct (Z.eqb_spec (stash_at st i) bid) as [E | E].
  - split; [| done]. intros _. exists i. by split; [lia |].
  - rewrite IH. split; intros (j & Hj & Ej); exists j; (split; [| done]).
    + lia.
    + destruct (Z.eq_dec i j) as [-> |]; [done | lia].
Qed.

(** A hit only counts. *)
Lemma hit_access rand addr o :
  get_block_id addr o < num_of_blocks o -> block_is_in_stash (get_block_id addr o) o = true ->
  oram_access rand addr o = Some (count_access true o).
Proof.
  intros Hb Hit. unfold oram_access. destruct (Z.ltb_spec (get_block_id addr o) (num_of_blocks o));
    [| lia]. by rewrite Hit.
Qed.

Lemma hit_ok h u o : oram_ok h u o -> 0 <= u -> oram_ok h (u + 1) (count_access true o).
Proof. intros [] Hu. split; try done. intros i Hi. apply ok_free0. cbn in Hi. lia. Qed.

Lemma access_ok h u rand addr o :
  oram_ok h u o -> 0 <= u -> 0 <= get_block_id addr o < num_of_blocks o ->
  match oram_access rand addr o with
  | Some o' =>
      oram_ok h (u + 1) o' /\ oram_config o' = oram_config o /\
      (forall i, h < i < stashsz o -> stash_at (stash o) i <> no_block ->
         stash_at (stash o') i = stash_at (stash o) i)
  | None => stash_full o
  end.
Proof.
  intros Hok Hu Hb. destruct (block_is_in_stash (get_block_id addr o) o) eqn:Hit.
  { rewrite hit_access by (done || lia). split; [by apply hit_ok | done]. }
  pose proof (miss_accessed h u rand addr o Hok Hu Hb Hit) as M. cbv zeta in M.
  destruct (oram_access rand addr o) as [o' |]; [| done]. destruct M as (st & A).
  assert (Hnew : leaf_of h (rand mod tree_leaves o + tree_leaves o)).
  { destruct (ok_config _ _ _ Hok) as (Hh & _ & El & _). unfold leaf_of.
    rewrite El, Z.pow_add_r by lia. pose proof (Z.mod_pos_bound rand (2 ^ h)).
    pose proof (pow2_pos h). lia. }
  split; [by eapply accessed_ok |]. split; [apply A |]. intros i Hi Hn.
  rewrite (ac_rest _ _ _ _ _ _ _ A) by lia. apply (ac_stash _ _ _ _ _ _ _ A); [lia | done |].
  destruct (ok_config _ _ _ Hok) as (Hh & _). destruct (ok_stash _ _ _ Hok).
  unfold block_is_in_stash in Hit. rewrite sext_small in Hit by lia.
  apply (in_stash_false _ _ _ _ _ Hit). lia.
Qed.

Definition in_memory (o : oram_sim) (access : Z * Z) : Prop :=
  get_block_id access.2 o < num_of_blocks o.

(** A full stash has been filled by as many accesses as it has slots beyond a path. *)
Lemma full_used h u o : oram_ok h u o -> 0 <= u -> stash_full o -> stashsz o - (h + 1) <= u.
Proof.
  intros Hok Hu Hf. destruct (Z.le_gt_cases (stashsz o - (h + 1)) u) as [| L]; [done |].
  destruct (ok_config _ _ _ Hok) as (Hh & Eh & _).
  destruct (Hf (h + 1 + u)); [lia |]. apply (ok_free _ _ _ Hok). lia.
Qed.

(** The run stops at an access that finds the stash full; [u] slots may be in use at its
    start. *)
Definition overflows (u : Z) (accesses : list (Z * Z)) (o : oram_sim) : Prop :=
  exists before rand addr after o1, accesses = before ++ (rand, addr) :: after /\
    oram_run before o = Some o1 /\ oram_access rand addr o1 = None /\ stash_full o1 /\
    stashsz o - (tree_height o + 1) <= u + Z.of_nat (length before).

Lemma run_ok h u accesses o :
  oram_ok h u o -> 0 <= u -> 0 < cacheline_sz o -> Forall (in_memory o) accesses ->
  match oram_run accesses o with
  | Some o' =>
      oram_ok h (u + Z.of_nat (length accesses)) o' /\ oram_config o' = oram_config o /\
      (forall i, h < i < stashsz o -> stash_at (stash o) i <> no_block ->
         stash_at (stash o') i = stash_at (stash o) i)
  | None => overflows u accesses o
  end.
Proof.
  revert u o. induction accesses as [| [rand addr] accesses IH]; intros u o Hok Hu Hc Hin;
    cbn [oram_run length].
  { by rewrite Z.add_0_r. }
  apply Forall_cons in Hin as [Hb Hin].
  pose proof (access_ok h u rand addr o Hok Hu (conj (get_block_id_nonneg addr o Hc) Hb)) as A.
  destruct (oram_access rand addr o) as [o1 |] eqn:Ea; cbn [mbind option_bind].
  2:{ exists [], rand, addr, accesses, o. split_and!; [done | done | done | done |].
      pose proof (full_used h u o Hok Hu A). destruct (ok_config _ _ _ Hok) as (_ & -> & _). cbn. lia. }
  destruct A as (Hok1 & Ec & Hst). pose proof Ec as [= C1 C2 C3 C4 C5 C6].
  specialize (IH (u + 1) o1 Hok1). destruct (oram_run accesses o1) as [o2 |].
  - destruct IH as (Hok2 & Ec2 & Hst2).
    + lia.
    + lia.
    + eapply Forall_impl; [exact Hin |]. intros [r a]. unfold in_memory, get_block_id. cbn.
      by rewrite C2, C3.
    + split; [| split].
      * by replace (u + Z.of_nat (S (length accesses))) with (u + 1 + Z.of_nat (length accesses)) by lia.
      * congruence.
      * intros i Hi Hn. rewrite Hst2, Hst; [done | done | done | lia |]. by rewrite Hst.
  - destruct IH as (before & rand' & addr' & after & o2 & -> & R & En & Hf & Hl); [lia | lia | |].
    { eapply Forall_impl; [exact Hin |]. intros [r a]. unfold in_memory, get_block_id. cbn.
      by rewrite C2, C3. }
    exists ((rand, addr) :: before), rand', addr', after, o2. split_and!; [done | | done | done |].
    + cbn [oram_run]. by rewrite Ea.
    + cbn [length]. rewrite C1, C4 in Hl. lia.
Qed.

(** ** Construction *)

Lemma init_leaves_spec n leafid bid t p :
  let '(t', p') := init_leaves n leafid bid t p in
  (forall b, bid <= b < bid + Z.of_nat n -> map_at p' b = leafid + (b - bid)) /\
  (forall b, b < bid -> map_at p' b = map_at p b) /\
  (forall l, leafid <= l < leafid + Z.of_nat n -> map_at t' l = bid + (l - leafid)) /\
  (forall l, l < leafid -> map_at t' l = map_at t l).
Proof.
  revert leafid bid t p. induction n as [| n IH]; intros leafid bid t p; cbn [init_leaves].
  { repeat split; done || lia. }
  specialize (IH (leafid + 1) (bid + 1) (<[leafid := bid]> t) (<[bid := leafid]> p)).
  destruct (init_leaves n _ _ _ _) as [t' p']. destruct IH as (Hp & Hp' & Ht & Ht').
  assert (Eb : forall b, map_at (<[bid := leafid]> p) b = if bid =? b then leafid else map_at p b)
    by apply map_at_insert.
  assert (El : forall l, map_at (<[leafid := bid]> t) l = if leafid =? l then bid else map_at t l)
    by apply map_at_insert.
  repeat split.
  - intros b Hb. destruct (Z.eqb_spec bid b) as [-> |].
    + rewrite Hp', Eb, Z.eqb_refl by lia. lia.
    + rewrite Hp by lia. lia.
  - intros b Hb. rewrite Hp', Eb by lia. by destruct (Z.eqb_spec bid b); [lia |].
  - intros l Hl. destruct (Z.eqb_spec leafid l) as [-> |].
    + rewrite Ht', El, Z.eqb_refl by lia. lia.
    + rewrite Ht by lia. lia.
  - intros l Hl. rewrite Ht', El by lia. by destruct (Z.eqb_spec leafid l); [lia |].
Qed.

(** The configurations the controller works for: a power of two of blocks, and a stash
    with room beyond a path. *)
Definition sound_config (o : oram_sim) : Prop :=
  0 < cacheline_sz o /\ num_of_blocks o = 2 ^ tree_height o /\ 0 <= tree_height o <= 30 /\
  tree_height o + 1 < stashsz o < 2 ^ 31.

Lemma oram_init_ok bucketsz size mem_mb line :
  let o := oram_init bucketsz size mem_mb line in
  sound_config o -> oram_ok (tree_height o) 0 o.
Proof.
  cbv zeta. unfold oram_init.
  set (blocks := _ / bucketsz) in *. set (h := Z.log2 blocks) in *.
  set (t0 := init_nodes _ _ _) in *.
  assert (En : 2 ^ (h + 1) - 1 - 2 ^ h + 1 = 2 ^ h)
    by (rewrite Z.pow_add_r by (try apply Z.log2_nonneg; lia); lia).
  rewrite En.
  pose proof (init_leaves_spec (Z.to_nat (2 ^ h)) (2 ^ h) 0 t0 ∅) as L.
  destruct (init_leaves _ _ _ _ _) as [t p]. intros (Hcl & Eb & Hh & Hs).
  cbn in Hcl, Eb, Hh, Hs. cbn [tree_height].
  destruct L as (Hp & _ & Ht & _). pose proof (pow2_pos h ltac:(lia)).
  assert (Hst : forall i, 0 <= i < size ->
    stash_at (replicate (Z.to_nat size) no_block ++ replicate (Z.to_nat (7 * size)) 0) i = no_block).
  { intros i Hi. unfold stash_at. rewrite lookup_app_l by (rewrite length_replicate; lia).
    by rewrite lookup_replicate_2 by lia. }
  split; cbn [tree_height stashsz tree_leaves tree_nodes num_of_blocks stash
    position_map].
  - repeat split; lia.
  - split; [lia |]. rewrite length_app, !length_replicate. lia.
  - intros i Hi. apply Hst. lia.
  - intros i Hi. apply Hst. lia.
  - intros b Hb. rewrite Hp by lia. unfold leaf_of. rewrite Z.pow_add_r by lia. lia.
  - intros b Hb. right. exists h. split; [cbn; lia |]. cbn.
    rewrite path_node_leaf, Hp, Ht by lia. lia.
Qed.

(** ** Runs from the initial state *)

Lemma init_run bucketsz size mem_mb line accesses o' :
  let o := oram_init bucketsz size mem_mb line in
  sound_config o -> Forall (in_memory o) accesses -> oram_run accesses o = Some o' ->
  oram_ok (tree_height o) (Z.of_nat (length accesses)) o' /\ oram_config o' = oram_config o.
Proof.
  intros o Hc Hin R. assert (Hok : oram_ok (tree_height o) 0 o) by by apply oram_init_ok.
  pose proof (run_ok _ _ accesses o Hok (Z.le_refl 0) (proj1 Hc) Hin) as H. rewrite R in H.
  rewrite Z.add_0_l in H. by destruct H as (? & ? & _).
Qed.

(** C24: For a power of two of blocks and a stash larger than a path, whatever addresses in
    the memory are accessed and whatever random leaves are drawn, no block is lost: after
    the accesses each block is in the stash or on the path to the leaf it is mapped to;
    and a run that stops does so at an access that finds every slot of the stash beyond a
    path taken, after at least as many accesses as there are such slots. *)
Theorem oram_available bucketsz size mem_mb line accesses :
  let o := oram_init bucketsz size mem_mb line in
  sound_config o -> Forall (in_memory o) accesses ->
  match oram_run accesses o with
  | Some o' => forall b, 0 <= b < num_of_blocks o' -> available b o'
  | None => overflows 0 accesses o
  end.
Proof.
  intros o Hc Hin. assert (Hok : oram_ok (tree_height o) 0 o) by by apply oram_init_ok.
  pose proof (run_ok _ _ accesses o Hok (Z.le_refl 0) (proj1 Hc) Hin) as R.
  destruct (oram_run accesses o) as [o' |]; [| done]. destruct R as (Hok' & _).
  intros b Hb. apply (ok_available _ _ _ Hok').
  destruct (ok_config _ _ _ Hok') as (_ & _ & _ & _ & <-). done.
Qed.

(** C39: A block that stays in the stash never leaves it: the entry the eviction copies to
    the path is compared to the empty mark, not set to it.  Every later access to the block
    is a hit that issues no request, so the stash only fills up. *)
Theorem stash_never_drains bucketsz size mem_mb line before after o1 o2 b :
  let o := oram_init bucketsz size mem_mb line in
  sound_config o -> Forall (in_memory o) before -> Forall (in_memory o) after ->
  oram_run before o = Some o1 -> oram_run after o1 = Some o2 -> 0 <= b < num_of_blocks o ->
  found_in_stash (tree_height o) b o1 ->
  found_in_stash (tree_height o) b o2 /\
  forall rand addr, get_block_id addr o2 = b -> oram_access rand addr o2 = Some (count_access true o2).
Proof.
  intros o Hc Hin1 Hin2 R1 R2 Hb (i & Hi & Eb).
  destruct (init_run bucketsz size mem_mb line before o1 Hc Hin1 R1) as (Hok1 & C1).
  fold o in Hok1, C1. injection C1 as C1 C2 C3 C4 C5 C6.
  pose proof (run_ok _ _ after o1 Hok1 ltac:(lia)) as H2. rewrite R2 in H2.
  destruct H2 as (_ & C1' & Hst); [rewrite C2; apply Hc | |].
  { eapply Forall_impl; [exact Hin2 |]. intros [r a]. unfold in_memory, get_block_id. cbn.
    by rewrite C2, C3. }
  injection C1' as D1 D2 D3 D4 D5 D6. destruct Hc as (Hcl & En & Hh & Hs).
  assert (Ei : stash_at (stash o2) i = b).
  { rewrite Hst; [done | done |]. rewrite Eb. apply (block_not_none (tree_height o)); lia. }
  split; [exists i; split; [lia | done] |]. intros rand addr E. apply hit_access; rewrite E; [lia |].
  apply in_stash_true. exists i. split; [| done]. rewrite sext_small by lia. lia.
Qed.

(** An access that misses reads the blocks on the path to the leaf its block is mapped
    to and writes the path back, at the addresses of the blocks the nodes hold, not of the
    nodes: the read of the accessed block itself is on the bus. *)
Theorem miss_requests bucketsz size mem_mb line accesses o1 o2 rand addr :
  let o := oram_init bucketsz size mem_mb line in
  let bid := get_block_id addr o1 in
  let leaf := map_at (position_map o1) bid in
  sound_config o -> Forall (in_memory o) ((rand, addr) :: accesses) ->
  oram_run accesses o = Some o1 -> block_is_in_stash bid o1 = false ->
  oram_access rand addr o1 = Some o2 ->
  let reads := path_requests (Z.to_nat (tree_height o)) leaf false (oram_tree o1) o1 in
  let writes := path_requests (Z.to_nat (tree_height o)) leaf true (oram_tree o2) o1 in
  dram_requests o2 = dram_requests o1 ++ reads ++ writes /\
  In (Request (block_id_to_addr bid o1) line false) reads.
Proof.
  intros o bid leaf Hc [Hb Hin]%Forall_cons R Hmiss A reads writes.
  destruct (init_run bucketsz size mem_mb line accesses o1 Hc Hin R) as (Hok1 & C1).
  fold o in Hok1, C1. injection C1 as C1 C2 C3 C4 C5 C6.
  destruct (Hc) as (Hcl & En & Hh & Hs).
  assert (Hbid : 0 <= bid < num_of_blocks o1).
  { split; [apply get_block_id_nonneg; by rewrite C2 |]. unfold in_memory, get_block_id in Hb.
    cbn [snd] in Hb. unfold bid, get_block_id. by rewrite C2, C3. }
  pose proof (miss_accessed _ _ rand addr o1 Hok1 ltac:(lia) Hbid Hmiss) as M.
  cbv zeta in M. rewrite A in M. destruct M as (st & M). split; [apply M |].
  destruct (ok_available _ _ _ Hok1 bid) as [(i & Hi & E) | (k & Hk & E)]; [lia | exfalso |].
  - unfold block_is_in_stash in Hmiss. rewrite sext_small in Hmiss by lia.
    apply (in_stash_false _ _ _ _ i Hmiss); [lia | done].
  - unfold reads, path_requests. apply in_map_iff. exists (Z.to_nat k).
    rewrite C4 in *. rewrite !Z2Nat.id by lia. split.
    + unfold leaf. rewrite E. f_equal. rewrite C2. unfold o, oram_init. by case_match.
    + apply in_rev. rewrite rev_involutive. apply in_seq. lia.
Qed.

(** A controller of four blocks, a tree of height 2 and a stash of 10. *)
Definition small_oram : oram_sim := oram_init 4 10 1 65536.
Definition block_addr (b : Z) : Z := 0x80000000 + b * 65536.

Lemma small_oram_config : sound_config small_oram.
Proof. repeat split; by vm_compute. Defined.

Lemma small_oram_memory accesses :
  forallb (fun '(_, addr) => get_block_id addr small_oram <? num_of_blocks small_oram) accesses = true ->
  Forall (in_memory small_oram) accesses.
Proof.
  intros H. apply Forall_forall. intros [r a] Hin%list_elem_of_In.
  by apply forallb_forall with (x := (r, a)), Z.ltb_lt in H.
Defined.

(** Block 0 moves to the root; block 1 finds no slot and stays in the stash. *)
Definition small_run : list (Z * Z) := [(3, block_addr 0); (2, block_addr 1)].

Lemma oram_available_witness :
  match oram_run small_run small_oram with
  | Some o' => forall b, 0 <= b < num_of_blocks o' -> available b o'
  | None => False
  end.
Proof.
  pose proof (oram_available 4 10 1 65536 small_run small_oram_config) as H.
  specialize (H (small_oram_memory small_run (eq_refl true))). revert H.
  change (oram_init 4 10 1 65536) with small_oram.
  destruct (oram_run small_run small_oram) eqn:E; [tauto |]. by vm_compute in E.
Defined.

Lemma stash_never_drains_witness :
  exists o1 o2, oram_run small_run small_oram = Some o1 /\
    oram_run [(0, block_addr 0); (1, block_addr 1); (1, block_addr 2)] o1 = Some o2 /\
    found_in_stash 2 1 o2.
Proof.
  eexists _, _. split; [by vm_compute |]. split; [by vm_compute |].
  refine (proj1 (stash_never_drains 4 10 1 65536 small_run
    [(0, block_addr 0); (1, block_addr 1); (1, block_addr 2)] _ _ 1
    small_oram_config (small_oram_memory _ _) (small_oram_memory _ _) _ _ _ _)).
  - by vm_compute.
  - by vm_compute.
  - by vm_compute.
  - by vm_compute.
  - by vm_compute.
  - exists 3. by vm_compute.
Defined.

Definition small_state : oram_sim := default small_oram (oram_run small_run small_oram).
Definition small_next : oram_sim :=
  default small_state (oram_access 1 (block_addr 2) small_state).

Lemma miss_requests_witness :
  length (dram_requests small_next) = 18%nat /\
  In (Request (block_addr 2) 65536 false) (dram_requests small_next).
Proof.
  split; [by vm_compute |].
  destruct (miss_requests 4 10 1 65536 small_run small_state small_next 1 (block_addr 2)
    small_oram_config (small_oram_memory ((1, block_addr 2) :: small_run) (eq_refl true)))
    as [E I]; [by vm_compute.. |].
  rewrite E. apply in_or_app. right. apply in_or_app. left. exact I.
Defined.
