(* ===== verification/CacheSim.v ===== *)
(** riscv/cachesim.cc and cachesim.h: the cache models that trace the fetches and the data
    accesses of the harts.  A cache keeps the tags of its lines, in [sets] of [ways] or fully
    associative; which of the two is a virtual method of the source and an instance of the
    class [TagStore] here.  What a cache asks of the next level, another cache or the ORAM
    controller, is the list of its requests, in order. *)
From Stdlib Require Import Sorting.Sorted.
From S2P Require Import Prelude OrdMap OramSim.

(** ** The pseudo-random generator *)

(** [lfsr_t::next] *)
Definition lfsr_next (reg : Z) : Z :=
  (reg .>> 1) .^ (u32 (- (reg .& 1)) .& 0xd0000001).

(** ** A cache *)

Definition VALID : Z := 1 .<< 63.
Definition DIRTY : Z := 1 .<< 62.

Record geometry := Geometry { sets : Z; ways : Z; linesz : Z; idx_shift : Z }.

Definition line_of (g : geometry) (addr : Z) : Z := addr .>> idx_shift g.

(** The virtual methods.  [P] is what stands for the pointer to a tag that [check_tag]
    returns; [tag_at] reads and [or_dirty] writes through it.  [victimize] gives the tag it
    replaces and the next state of the generator; it divides by the number of ways. *)
Class TagStore (T P : Type) := {
  check_tag : geometry -> Z -> T -> option P;
  tag_at : P -> T -> Z;
  or_dirty : P -> T -> T;
  victimize : geometry -> Z -> Z -> T -> option (Z * Z * T)
}.

(** *** [cache_sim_t]: sets and ways *)

Fixpoint find_way (n : nat) (i tag : Z) (tags : list Z) : option Z :=
  match n with
  | O => None
  | S n =>
      if tag =? (default 0 (tags !! Z.to_nat i) .& u64 (Z.lnot DIRTY)) then Some i
      else find_way n (i + 1) tag tags
  end.

Definition set_check_tag (g : geometry) (addr : Z) (tags : list Z) : option Z :=
  let idx := line_of g addr .& (sets g - 1) in
  let tag := line_of g addr .| VALID in
  find_way (Z.to_nat (ways g)) (idx * ways g) tag tags.

Definition set_victimize (g : geometry) (addr reg : Z) (tags : list Z) : option (Z * Z * list Z) :=
  let idx := line_of g addr .& (sets g - 1) in
  if ways g =? 0 then None
  else
    let reg := lfsr_next reg in
    let way := reg mod ways g in
    let victim := default 0 (tags !! Z.to_nat (idx * ways g + way)) in
    Some (victim, reg, <[Z.to_nat (idx * ways g + way) := line_of g addr .| VALID]> tags).

#[export] Instance set_tags : TagStore (list Z) Z := {
  check_tag := set_check_tag;
  tag_at p tags := default 0 (tags !! Z.to_nat p);
  or_dirty p tags := <[Z.to_nat p := default 0 (tags !! Z.to_nat p) .| DIRTY]> tags;
  victimize := set_victimize
}.

(** *** [fa_cache_sim_t]: fully associative *)

Abbreviation tag_map := (ord_map Z).

Definition fa_victimize (g : geometry) (addr reg : Z) (m : tag_map) : option (Z * Z * tag_map) :=
  if Z.of_nat (length m) =? ways g then
    if ways g =? 0 then None
    else
      let reg := lfsr_next reg in
      let n := Z.to_nat (reg mod ways g) in
      match m !! n with
      | Some (_, old_tag) =>
          Some (old_tag, reg, map_set (line_of g addr) (line_of g addr .| VALID) (delete n m))
      | None => None
      end
  else Some (0, reg, map_set (line_of g addr) (line_of g addr .| VALID) m).

#[export] Instance fa_tags : TagStore tag_map Z := {
  check_tag g addr m :=
    match map_find (line_of g addr) m with Some _ => Some (line_of g addr) | None => None end;
  tag_at k m := default 0 (map_find k m);
  or_dirty k m := map_set k (default 0 (map_find k m) .| DIRTY) m;
  victimize := fa_victimize
}.

(** *** The access, common to both *)

Record statistics := Statistics {
  read_accesses : Z; read_misses : Z; bytes_read : Z;
  write_accesses : Z; write_misses : Z; bytes_written : Z;
  writebacks : Z; cache_oram_accesses : Z
}.

(** [miss_handler] and [oram_handler]: there is one. *)
Record cache_sim (T : Type) := CacheSim {
  geo : geometry;
  tags : T;
  lfsr : Z;
  miss_handler : bool;
  oram_handler : bool;
  stats : statistics
}.
Arguments CacheSim {T}.
Arguments geo {T}.
Arguments tags {T}.
Arguments lfsr {T}.
Arguments miss_handler {T}.
Arguments oram_handler {T}.
Arguments stats {T}.

Inductive downstream := ToMissHandler (r : request) | ToOram (r : request).

Definition count_one (store : bool) (bytes : Z) (s : statistics) : statistics :=
  let rd := if store then 0 else 1 in
  let wr := if store then 1 else 0 in
  Statistics (u64 (read_accesses s + rd)) (read_misses s) (u64 (bytes_read s + rd * bytes))
    (u64 (write_accesses s + wr)) (write_misses s) (u64 (bytes_written s + wr * bytes))
    (writebacks s) (cache_oram_accesses s).
Definition count_miss (store writeback oram : bool) (s : statistics) : statistics :=
  let rd := if store then 0 else 1 in
  let wr := if store then 1 else 0 in
  Statistics (read_accesses s) (u64 (read_misses s + rd)) (bytes_read s)
    (write_accesses s) (u64 (write_misses s + wr)) (bytes_written s)
    (u64 (writebacks s + b2z writeback)) (u64 (cache_oram_accesses s + b2z oram)).

Definition is_dirty_victim (victim : Z) : bool :=
  (victim .& (VALID .| DIRTY)) =? (VALID .| DIRTY).

Section cache.
Context {T P : Type} `{TagStore T P}.

(** [None]: a division by zero, or a pointer that is null. *)
Definition cache_access (addr bytes : Z) (store : bool) (c : cache_sim T)
    : option (cache_sim T * list downstream) :=
  let g := geo c in
  let s := count_one store bytes (stats c) in
  match check_tag g addr (tags c) with
  | Some hit_way =>
      let t := if store then or_dirty hit_way (tags c) else tags c in
      Some (CacheSim g t (lfsr c) (miss_handler c) (oram_handler c) s, [])
  | None =>
      '(victim, reg, t) ← victimize g addr (lfsr c) (tags c);
      let writeback := is_dirty_victim victim in
      let dirty_addr := u64 ((victim .& u64 (Z.lnot (VALID .| DIRTY))) .<< idx_shift g) in
      let out1 := if writeback && miss_handler c
                  then [ToMissHandler (Request dirty_addr (linesz g) true)] else [] in
      let oram := negb (miss_handler c) && oram_handler c &&
                  (0x80000000 <=? addr) && (addr <? 0x80000000 + 4194304) in
      let out2 :=
        if miss_handler c
        then [ToMissHandler (Request (addr .& u64 (Z.lnot (linesz g - 1))) (linesz g) false)]
        else if oram then [ToOram (Request addr (linesz g) false)] else [] in
      t ← if store then p ← check_tag g addr t; Some (or_dirty p t) else Some t;
      Some (CacheSim g t reg (miss_handler c) (oram_handler c) (count_miss store writeback oram s),
            out1 ++ out2)
  end.

End cache.

(** ** Construction *)

Fixpoint shift_of (n : nat) (x : Z) : Z :=
  match n with O => 0 | S n => if 1 <? x then 1 + shift_of n (x .>> 1) else 0 end.

(** [None]: the help text, and the end of the program. *)
Definition cache_geometry (sets ways linesz : Z) : option geometry :=
  if (sets =? 0) || z2b (sets .& (sets - 1)) then None
  else if (linesz <? 8) || z2b (linesz .& (linesz - 1)) then None
  else Some (Geometry sets ways linesz (shift_of 64 linesz)).

Definition no_statistics : statistics := Statistics 0 0 0 0 0 0 0 0.

Inductive any_cache :=
  | SetAssociative (c : cache_sim (list Z))
  | FullyAssociative (c : cache_sim tag_map).

Definition construct (sets ways linesz : Z) : option any_cache :=
  g ← cache_geometry sets ways linesz;
  Some (if (4 <? ways) && (sets =? 1)
        then FullyAssociative (CacheSim g [] 1 false false no_statistics)
        else SetAssociative
               (CacheSim g (replicate (Z.to_nat (sets * ways)) 0) 1 false false no_statistics)).

Definition any_access (addr bytes : Z) (store : bool) (c : any_cache)
    : option (any_cache * list downstream) :=
  match c with
  | SetAssociative c => '(c, out) ← cache_access addr bytes store c; Some (SetAssociative c, out)
  | FullyAssociative c => '(c, out) ← cache_access addr bytes store c; Some (FullyAssociative c, out)
  end.

Definition connect {T} (miss oram : bool) (c : cache_sim T) : cache_sim T :=
  CacheSim (geo c) (tags c) (lfsr c) miss oram (stats c).
(** [set_miss_handler] and [set_oram_handler]. *)
Definition set_handlers (miss oram : bool) (c : any_cache) : any_cache :=
  match c with
  | SetAssociative c => SetAssociative (connect miss oram c)
  | FullyAssociative c => FullyAssociative (connect miss oram c)
  end.

(** ** Tags *)

Definition is_line (l : Z) : Prop := in_range 61 l.
Definition entry (l : Z) (dirty : bool) : Z := l .| (if dirty then DIRTY else 0) .| VALID.

Lemma line_testbit l i : is_line l -> 61 <= i -> Z.testbit l i = false.
Proof. intros Hl Hi. by apply (testbit_above l 61). Qed.

(** Bit by bit: the two flags are bits 62 and 63, a line has the bits below 61. *)
Ltac flag_bits i :=
  apply Z.bits_inj'; intros i ?;
  rewrite ?Z.land_spec, ?Z.lor_spec, ?wrap_testbit, ?Z.lnot_spec, ?Z.lor_spec by lia;
  unfold VALID, DIRTY; rewrite ?Z.shiftl_1_l, ?Z.pow2_bits_eqb, ?Z.bits_0 by lia;
  destruct (Z.eqb_spec 62 i), (Z.eqb_spec 63 i), (Z.ltb_spec i 64); try lia;
  rewrite ?line_testbit by (done || lia).

Lemma entry_clean l d : is_line l -> entry l d .& u64 (Z.lnot DIRTY) = l .| VALID.
Proof.
  intros Hl. unfold entry. destruct d; flag_bits i; cbn; rewrite ?andb_true_r, ?orb_false_r; done.
Qed.

Lemma entry_or_dirty l d : entry l d .| DIRTY = entry l true.
Proof. unfold entry. destruct d; flag_bits i; cbn; by destruct (Z.testbit l i). Qed.

Lemma entry_dirty l d : is_line l -> Z.testbit (entry l d) 62 = d.
Proof.
  intros Hl. unfold entry. rewrite !Z.lor_spec, line_testbit by (done || lia). by destruct d.
Qed.

Lemma entry_line l d : is_line l -> entry l d .& u64 (Z.lnot (VALID .| DIRTY)) = l.
Proof.
  intros Hl. unfold entry. destruct d; flag_bits i; cbn; rewrite ?andb_true_r, ?orb_false_r; done.
Qed.

Lemma entry_victim l d : is_line l -> is_dirty_victim (entry l d) = d.
Proof.
  intros Hl. unfold is_dirty_victim.
  assert (entry l d .& (VALID .| DIRTY) = if d then VALID .| DIRTY else VALID) as ->.
  { unfold entry. destruct d; flag_bits i; cbn; rewrite ?andb_false_r; done. }
  by destruct d.
Qed.

Lemma entry_inj l d l' d' :
  is_line l -> is_line l' -> entry l d = entry l' d' -> l = l' /\ d = d'.
Proof.
  intros Hl Hl' E. split.
  - by rewrite <- (entry_line l d), <- (entry_line l' d'), E by done.
  - by rewrite <- (entry_dirty l d), <- (entry_dirty l' d'), E by done.
Qed.

Lemma entry_clean_eq l : l .| VALID = entry l false.
Proof. unfold entry. by rewrite Z.lor_0_r. Qed.

(** The comparison of [check_tag] finds the line, dirty or not. *)
Lemma tag_match l l' d :
  is_line l -> is_line l' -> l .| VALID = entry l' d .& u64 (Z.lnot DIRTY) <-> l = l'.
Proof.
  intros Hl Hl'. rewrite entry_clean by done. split; [| by intros ->].
  rewrite !entry_clean_eq. by intros [? _]%entry_inj.
Qed.

Lemma tag_match_invalid l : is_line l -> l .| VALID <> 0 .& u64 (Z.lnot DIRTY).
Proof.
  intros Hl E. apply (f_equal (fun x => Z.testbit x 63)) in E.
  rewrite Z.lor_spec, orb_true_r in E. done.
Qed.

(** ** What a store of tags promises to the cache *)

Record geometry_ok (g : geometry) : Prop := {
  go_sets : exists s, 0 <= s /\ sets g = 2 ^ s;
  go_shift : 3 <= idx_shift g < 64;
  go_linesz : linesz g = 2 ^ idx_shift g;
  go_ways : 0 < ways g
}.

Definition set_of (g : geometry) (l : Z) : Z := l .& (sets g - 1).

(** The line of an address, and the address of a line. *)
Definition line_in (g : geometry) (l : Z) : Prop := in_range (64 - idx_shift g) l.
Definition line_addr (g : geometry) (l : Z) : Z := u64 (l .<< idx_shift g).

Lemma line_of_in g addr : geometry_ok g -> in_range 64 addr -> line_in g (line_of g addr).
Proof.
  intros G Ha. pose proof (go_shift g G). apply shr_range; [lia | lia |].
  by replace (64 - idx_shift g + idx_shift g) with 64 by lia.
Qed.

Lemma line_addr_of g l : geometry_ok g -> line_in g l -> line_of g (line_addr g l) = l.
Proof.
  intros G Hl. pose proof (go_shift g G). unfold line_in, in_range in Hl.
  pose proof (pow2_split 64 (idx_shift g) ltac:(lia)). pose proof (pow2_pos (idx_shift g) ltac:(lia)).
  unfold line_of, line_addr. rewrite shl_mul, wrap_small, shr_div by (lia || nia).
  apply Z.div_mul. lia.
Qed.

Lemma line_addr_fill g addr :
  geometry_ok g -> in_range 64 addr ->
  addr .& u64 (Z.lnot (linesz g - 1)) = line_addr g (line_of g addr).
Proof.
  intros G Ha. pose proof (go_shift g G). rewrite (go_linesz g G), (land_lnot_mask 64) by (done || lia).
  unfold line_addr, line_of. rewrite shl_mul, shr_div by lia. symmetry. apply wrap_small.
  unfold in_range in Ha. pose proof (pow2_pos (idx_shift g) ltac:(lia)).
  pose proof (Z.mul_div_le addr (2 ^ idx_shift g) ltac:(lia)).
  pose proof (Z.div_pos addr (2 ^ idx_shift g) ltac:(lia) ltac:(lia)). nia.
Qed.

Lemma line_of_is_line g addr : geometry_ok g -> in_range 64 addr -> is_line (line_of g addr).
Proof.
  intros G Ha. pose proof (go_shift g G). apply shr_range; [lia | lia |].
  unfold in_range in Ha. pose proof (pow2_le 64 (61 + idx_shift g) ltac:(lia)). lia.
Qed.

(** The tag [v] that made room for the line: none, or the one of a line of the set. *)
Definition victim_spec (g : geometry) (line v : Z) (c c' : Z -> option bool) : Prop :=
  (is_dirty_victim v = false /\
   forall l, is_line l -> c' l = if l =? line then Some false else c l) \/
  (exists l0 d, v = entry l0 d /\ is_line l0 /\ line_in g l0 /\ c l0 = Some d /\ set_of g l0 = set_of g line /\
   forall l, is_line l -> c' l = if l =? line then Some false else if l =? l0 then None else c l).

(** [contents]: the lines that are present, and whether they are dirty. *)
Class TagStoreLaws (T P : Type) `{TagStore T P} := {
  tags_ok : geometry -> T -> Prop;
  contents : geometry -> T -> Z -> option bool;
  check_tag_spec g addr t :
    geometry_ok g -> in_range 64 addr -> tags_ok g t ->
    match check_tag g addr t with
    | Some p => exists d, contents g t (line_of g addr) = Some d
    | None => contents g t (line_of g addr) = None
    end;
  or_dirty_spec g addr t p :
    geometry_ok g -> in_range 64 addr -> tags_ok g t -> check_tag g addr t = Some p ->
    tags_ok g (or_dirty p t) /\
    forall l, is_line l ->
      contents g (or_dirty p t) l = if l =? line_of g addr then Some true else contents g t l;
  victimize_spec g addr reg t :
    geometry_ok g -> in_range 64 addr -> tags_ok g t -> check_tag g addr t = None ->
    exists v reg' t', victimize g addr reg t = Some (v, reg', t') /\ tags_ok g t' /\
      victim_spec g (line_of g addr) v (contents g t) (contents g t')
}.

(** ** Sets and ways *)

Lemma find_way_spec n i tag t :
  match find_way n i tag t with
  | Some p => i <= p < i + Z.of_nat n /\
      tag = (default 0 (t !! Z.to_nat p) .& u64 (Z.lnot DIRTY))
  | None => forall p, i <= p < i + Z.of_nat n ->
      tag <> (default 0 (t !! Z.to_nat p) .& u64 (Z.lnot DIRTY))
  end.
Proof.
  revert i. induction n as [| n IH]; intros i; cbn [find_way]; [lia |].
  destruct (Z.eqb_spec tag (default 0 (t !! Z.to_nat i) .& u64 (Z.lnot DIRTY))) as [E | E].
  { split; [lia | done]. }
  specialize (IH (i + 1)). destruct (find_way n (i + 1) tag t) as [p |].
  - destruct IH. split; [lia | done].
  - intros p Hp. destruct (Z.eq_dec p i) as [-> |]; [done |]. apply IH. lia.
Qed.

(** A way of set [s] holds the line. *)
Definition holds (g : geometry) (t : list Z) (l : Z) (d : bool) (p : Z) : Prop :=
  set_of g l * ways g <= p < set_of g l * ways g + ways g /\ t !! Z.to_nat p = Some (entry l d).

Record set_tags_ok (g : geometry) (t : list Z) : Prop := {
  st_length : Z.of_nat (length t) = sets g * ways g;
  st_entry : forall i v, t !! i = Some v ->
    v = 0 \/ exists l d, v = entry l d /\ is_line l /\ holds g t l d (Z.of_nat i);
  st_range : forall l d p, is_line l -> holds g t l d p -> line_in g l;
  st_unique : forall l d d' p p', is_line l -> holds g t l d p -> holds g t l d' p' -> p = p'
}.

Definition set_contents (g : geometry) (t : list Z) (l : Z) : option bool :=
  match find_way (Z.to_nat (ways g)) (set_of g l * ways g) (l .| VALID) t with
  | Some p => Some (Z.testbit (default 0 (t !! Z.to_nat p)) 62)
  | None => None
  end.

Lemma set_of_range g l : geometry_ok g -> 0 <= set_of g l < sets g.
Proof.
  intros G. destruct (go_sets g G) as (s & Hs & E). unfold set_of. rewrite E, land_mask by done.
  apply Z.mod_pos_bound, pow2_pos. done.
Qed.

Lemma holds_bound g t l d p :
  geometry_ok g -> set_tags_ok g t -> holds g t l d p -> 0 <= p < Z.of_nat (length t).
Proof.
  intros G K [Hp _]. pose proof (set_of_range g l G). pose proof (go_ways g G).
  rewrite (st_length g t K). nia.
Qed.

Lemma holds_entry g t l d p :
  holds g t l d p -> default 0 (t !! Z.to_nat p) = entry l d.
Proof. by intros [_ ->]. Qed.

(** [check_tag] finds the way that holds the line. *)
Lemma find_way_holds g t l :
  geometry_ok g -> set_tags_ok g t -> is_line l ->
  match find_way (Z.to_nat (ways g)) (set_of g l * ways g) (l .| VALID) t with
  | Some p => exists d, holds g t l d p
  | None => forall d p, ~ holds g t l d p
  end.
Proof.
  intros G K Hl. pose proof (go_ways g G). pose proof (set_of_range g l G).
  pose proof (find_way_spec (Z.to_nat (ways g)) (set_of g l * ways g) (l .| VALID) t) as S.
  destruct (find_way _ _ _ _) as [p |].
  - destruct S as [Hp E]. destruct (t !! Z.to_nat p) as [v |] eqn:Ev; cbn in E.
    + destruct (st_entry g t K _ _ Ev) as [-> | (l' & d & -> & Hl' & _)].
      { by apply tag_match_invalid in E. }
      apply tag_match in E as <-; [| done | done]. exists d. split; [lia | done].
    + by apply tag_match_invalid in E.
  - intros d p Hh. apply (S p); [destruct Hh; lia |].
    rewrite (holds_entry g t l d p Hh). by apply tag_match.
Qed.

Lemma set_contents_spec g t l d :
  geometry_ok g -> set_tags_ok g t -> is_line l ->
  set_contents g t l = Some d <-> exists p, holds g t l d p.
Proof.
  intros G K Hl. unfold set_contents. pose proof (find_way_holds g t l G K Hl) as S.
  destruct (find_way _ _ _ _) as [p |].
  - destruct S as [d' Hh]. rewrite (holds_entry g t l d' p Hh), entry_dirty by done. split.
    + intros [= <-]. by exists p.
    + intros [p' Hh']. pose proof (st_unique g t K _ _ _ _ _ Hl Hh Hh') as <-.
      destruct Hh as [_ E], Hh' as [_ E']. rewrite E in E'.
      by injection E' as [_ ->]%entry_inj.
  - split; [done |]. intros [p Hh]. by destruct (S d p).
Qed.

(** A way of the line's set, or the one it was in, is given the line. *)
Lemma holds_insert g t q v l d p :
  0 <= q < Z.of_nat (length t) -> 0 <= p ->
  holds g (<[Z.to_nat q := v]> t) l d p <->
  if p =? q
  then v = entry l d /\ set_of g l * ways g <= p < set_of g l * ways g + ways g
  else holds g t l d p.
Proof.
  intros Hq Hp. unfold holds. destruct (Z.eqb_spec p q) as [-> |].
  - rewrite list_lookup_insert_eq by lia. split; [by intros [? [= ->]] | by intros [-> ?]].
  - by rewrite list_lookup_insert_ne by lia.
Qed.

(** A tag replaced by one of a line that no other way holds. *)
Lemma set_tags_insert g t q line d :
  geometry_ok g -> set_tags_ok g t -> is_line line -> line_in g line ->
  set_of g line * ways g <= q < set_of g line * ways g + ways g ->
  (forall d' p, holds g t line d' p -> p = q) ->
  let t' := <[Z.to_nat q := entry line d]> t in
  set_tags_ok g t' /\
  forall l d' p, is_line l -> holds g t' l d' p <->
    if p =? q then l = line /\ d' = d else holds g t l d' p.
Proof.
  intros G K Hl Hin Hq Hone t'. pose proof (set_of_range g line G).
  assert (Hq' : 0 <= q < Z.of_nat (length t)) by (rewrite (st_length g t K); nia).
  assert (Hh : forall l d' p, is_line l -> holds g t' l d' p <->
    if p =? q then l = line /\ d' = d else holds g t l d' p).
  { intros l d' p Hl'. destruct (Z.ltb_spec p 0).
    - split; [intros [Hp _] | destruct (Z.eqb_spec p q); [lia | intros [Hp _]]];
        pose proof (set_of_range g l G); pose proof (go_ways g G); nia.
    - unfold t'. rewrite holds_insert by lia. destruct (Z.eqb_spec p q) as [-> |]; [| done].
      split; [intros [[-> ->]%entry_inj _]; done | by intros [-> ->]]. }
  split; [| exact Hh]. split.
  - unfold t'. rewrite length_insert. apply K.
  - intros i v Hi. unfold t' in Hi.
    destruct (Z.eq_dec (Z.of_nat i) q) as [E | E].
    + rewrite <- E, Nat2Z.id, list_lookup_insert_eq in Hi by lia. injection Hi as <-.
      right. exists line, d. split; [done |]. split; [done |]. apply Hh; [done |].
      by rewrite E, Z.eqb_refl.
    + rewrite list_lookup_insert_ne in Hi by lia.
      destruct (st_entry g t K i v Hi) as [-> | (l & d' & -> & Hl' & Hhi)]; [by left |].
      right. exists l, d'. split; [done |]. split; [done |]. apply Hh; [done |].
      by destruct (Z.eqb_spec (Z.of_nat i) q).
  - intros l d' p Hl' Hp. apply Hh in Hp; [| done].
    destruct (Z.eqb_spec p q); [by destruct Hp as [-> _] | by eapply (st_range g t K)].
  - intros l d1 d2 p1 p2 Hl' H1 H2. apply Hh in H1, H2; [| done..].
    destruct (Z.eqb_spec p1 q) as [-> |], (Z.eqb_spec p2 q) as [-> |].
    + done.
    + destruct H1 as [-> _]. symmetry. by eapply Hone.
    + destruct H2 as [-> _]. by eapply Hone.
    + by eapply (st_unique g t K).
Qed.

Lemma set_check_holds g addr t :
  geometry_ok g -> in_range 64 addr -> set_tags_ok g t ->
  match set_check_tag g addr t with
  | Some p => exists d, holds g t (line_of g addr) d p
  | None => forall d p, ~ holds g t (line_of g addr) d p
  end.
Proof.
  intros G Ha K. apply find_way_holds; [done | done |]. by apply line_of_is_line.
Qed.

Lemma set_check_spec g addr t :
  geometry_ok g -> in_range 64 addr -> set_tags_ok g t ->
  match set_check_tag g addr t with
  | Some p => exists d, set_contents g t (line_of g addr) = Some d
  | None => set_contents g t (line_of g addr) = None
  end.
Proof.
  intros G Ha K. pose proof (line_of_is_line g addr G Ha).
  pose proof (set_check_holds g addr t G Ha K) as S. destruct (set_check_tag g addr t) as [p |].
  - destruct S as [d S]. exists d. apply set_contents_spec; [done | done | done |]. by exists p.
  - destruct (set_contents _ _ _) as [d |] eqn:E; [| done].
    apply set_contents_spec in E as [p E]; [| done | done | done]. by destruct (S d p).
Qed.

Lemma set_or_dirty_spec g addr t p :
  geometry_ok g -> in_range 64 addr -> set_tags_ok g t -> set_check_tag g addr t = Some p ->
  set_tags_ok g (or_dirty p t) /\
  forall l, is_line l ->
    set_contents g (or_dirty p t) l = if l =? line_of g addr then Some true else set_contents g t l.
Proof.
  intros G Ha K E. pose proof (line_of_is_line g addr G Ha) as Hl.
  pose proof (line_of_in g addr G Ha) as Hin.
  pose proof (set_check_holds g addr t G Ha K) as S. rewrite E in S. destruct S as [d S].
  cbn [or_dirty set_tags]. rewrite (holds_entry g t _ d p S), entry_or_dirty.
  destruct (set_tags_insert g t p (line_of g addr) true G K Hl Hin) as [K' Hh]; [apply S | |].
  { intros d' p' S'. by eapply (st_unique g t K). }
  split; [done |]. intros l Hl'. apply option_eq. intros d'.
  rewrite set_contents_spec by done. destruct (Z.eqb_spec l (line_of g addr)) as [-> | Hne].
  - split.
    + intros [q Hq]. apply Hh in Hq; [| done]. destruct (Z.eqb_spec q p) as [_ | Hn].
      * by destruct Hq as [_ ->].
      * destruct Hn. by eapply (st_unique g t K).
    + intros [= <-]. exists p. apply Hh; [done |]. by rewrite Z.eqb_refl.
  - rewrite set_contents_spec by done. split; intros [q Hq]; exists q.
    + apply Hh in Hq; [| done]. by destruct (Z.eqb_spec q p); [destruct Hq |].
    + apply Hh; [done |]. destruct (Z.eqb_spec q p) as [-> |]; [| done].
      destruct Hq as [_ Eq]. rewrite (proj2 S) in Eq. injection Eq as [Eq _]%entry_inj; [by destruct Hne | done | done].
Qed.

(** Two lines whose sets share a way have the same set. *)
Lemma set_of_way g l l' p :
  set_of g l * ways g <= p < set_of g l * ways g + ways g ->
  set_of g l' * ways g <= p < set_of g l' * ways g + ways g -> set_of g l = set_of g l'.
Proof. intros. nia. Qed.

Lemma set_victimize_spec g addr reg t :
  geometry_ok g -> in_range 64 addr -> set_tags_ok g t -> set_check_tag g addr t = None ->
  exists v reg' t', set_victimize g addr reg t = Some (v, reg', t') /\ set_tags_ok g t' /\
    victim_spec g (line_of g addr) v (set_contents g t) (set_contents g t').
Proof.
  intros G Ha K E. pose proof (line_of_is_line g addr G Ha) as Hl.
  pose proof (line_of_in g addr G Ha) as Hin.
  pose proof (set_check_holds g addr t G Ha K) as Habs. rewrite E in Habs.
  pose proof (go_ways g G) as Hw. unfold set_victimize.
  destruct (Z.eqb_spec (ways g) 0); [lia |].
  set (q := _ + lfsr_next reg mod ways g).
  assert (Hq : set_of g (line_of g addr) * ways g <= q <
               set_of g (line_of g addr) * ways g + ways g).
  { pose proof (Z.mod_pos_bound (lfsr_next reg) (ways g) Hw). unfold q, set_of. lia. }
  pose proof (set_of_range g (line_of g addr) G) as Hr.
  assert (Hq' : 0 <= q < Z.of_nat (length t)) by (rewrite (st_length g t K); nia).
  rewrite entry_clean_eq.
  destruct (set_tags_insert g t q (line_of g addr) false G K Hl Hin Hq) as [K' Hh].
  { intros d p Hp. by destruct (Habs d p). }
  destruct (lookup_lt_is_Some_2 t (Z.to_nat q)) as [v Ev]; [lia |].
  eexists _, _, _. split; [done |]. split; [done |]. rewrite Ev. cbn [default].
  assert (Hnew : set_contents g (<[Z.to_nat q := entry (line_of g addr) false]> t) (line_of g addr) =
                 Some false).
  { apply set_contents_spec; [done | done | done |]. exists q. apply Hh; [done |].
    by rewrite Z.eqb_refl. }
  assert (Hother : forall l d, is_line l -> l <> line_of g addr ->
    set_contents g (<[Z.to_nat q := entry (line_of g addr) false]> t) l = Some d <->
    exists p, p <> q /\ holds g t l d p).
  { intros l d Hl' Hne. rewrite set_contents_spec by done. split; intros [p Hp]; exists p.
    - apply Hh in Hp; [| done]. destruct (Z.eqb_spec p q); [by destruct Hp | done].
    - destruct Hp. apply Hh; [done |]. by destruct (Z.eqb_spec p q). }
  destruct (st_entry g t K _ _ Ev) as [-> | (l0 & d0 & -> & Hl0 & H0)].
  - left. split; [done |]. intros l Hl'. destruct (Z.eqb_spec l (line_of g addr)) as [-> | Hne]; [done |].
    apply option_eq. intros d. rewrite Hother, set_contents_spec by done.
    split; [intros (p & _ & Hp); by exists p |]. intros [p Hp]. exists p. split; [| done].
    intros ->. rewrite (proj2 Hp) in Ev. injection Ev as Ev.
    apply (f_equal (fun x => Z.testbit x 63)) in Ev. unfold entry in Ev.
    rewrite Z.lor_spec, orb_true_r in Ev. done.
  - rewrite Z2Nat.id in H0 by lia. right. exists l0, d0. split; [done |]. split; [done |].
    split; [by eapply (st_range g t K) |].
    split; [apply set_contents_spec; [done | done | done | by exists q] |].
    split; [eapply set_of_way; [apply H0 | exact Hq] |]. intros l Hl'.
    destruct (Z.eqb_spec l (line_of g addr)) as [-> | Hne]; [done |].
    apply option_eq. intros d. rewrite Hother by done. destruct (Z.eqb_spec l l0) as [-> | Hne0].
    + split; [| done]. intros (p & Hpq & Hp). destruct Hpq. by eapply (st_unique g t K).
    + rewrite set_contents_spec by done.
      split; [intros (p & _ & Hp); by exists p |]. intros [p Hp]. exists p. split; [| done].
      intros ->. rewrite (proj2 Hp) in Ev. by injection Ev as [-> _]%entry_inj.
Qed.

#[export] Instance set_tags_laws : TagStoreLaws (list Z) Z := {
  tags_ok := set_tags_ok;
  contents := set_contents;
  check_tag_spec := set_check_spec;
  or_dirty_spec := set_or_dirty_spec;
  victimize_spec := set_victimize_spec
}.

(** ** Fully associative *)

Record fa_tags_ok (g : geometry) (m : tag_map) : Prop := {
  fa_sets : sets g = 1;
  fa_sorted : StronglySorted below m;
  fa_entry : forall k v, (k, v) ∈ m -> is_line k /\ exists d, v = entry k d;
  fa_range : forall k v, (k, v) ∈ m -> line_in g k;
  fa_length : Z.of_nat (length m) <= ways g
}.

Definition fa_contents (g : geometry) (m : tag_map) (l : Z) : option bool :=
  match map_find l m with Some v => Some (Z.testbit v 62) | None => None end.

Lemma fa_check_find g addr m p :
  check_tag (T := tag_map) g addr m = Some p ->
  p = line_of g addr /\ exists v, map_find (line_of g addr) m = Some v.
Proof.
  cbn. destruct (map_find (line_of g addr) m) as [v |]; [| done]. intros [= <-]. eauto.
Qed.

Lemma fa_entry_find g m k v :
  fa_tags_ok g m -> map_find k m = Some v -> is_line k /\ exists d, v = entry k d.
Proof. intros K F%map_find_elem; [by apply (fa_entry g m K) | apply K]. Qed.

Lemma fa_check_spec g addr m :
  geometry_ok g -> in_range 64 addr -> fa_tags_ok g m ->
  match check_tag g addr m with
  | Some p => exists d, fa_contents g m (line_of g addr) = Some d
  | None => fa_contents g m (line_of g addr) = None
  end.
Proof. intros. cbn. unfold fa_contents. destruct (map_find _ m); [by eexists | done]. Qed.

Lemma fa_or_dirty_spec g addr m p :
  geometry_ok g -> in_range 64 addr -> fa_tags_ok g m -> check_tag g addr m = Some p ->
  fa_tags_ok g (or_dirty p m) /\
  forall l, is_line l ->
    fa_contents g (or_dirty p m) l = if l =? line_of g addr then Some true else fa_contents g m l.
Proof.
  intros G Ha K (-> & v & F)%fa_check_find. cbn [or_dirty fa_tags]. rewrite F. cbn [default from_option id].
  destruct (fa_entry_find g m _ v K F) as [Hl [d ->]].
  pose proof (line_of_in g addr G Ha). rewrite entry_or_dirty. split.
  - split; [apply K | apply map_set_sorted, K | | |].
    + intros k w [[= -> ->] | He]%elem_of_map_set; [by eauto | by apply (fa_entry g m K)].
    + intros k w [[= -> ->] | He]%elem_of_map_set; [done | by eapply (fa_range g m K)].
    + erewrite length_map_set_present; [apply K | apply K | exact F].
  - intros l Hl'. unfold fa_contents. rewrite map_find_set.
    destruct (Z.eqb_spec l (line_of g addr)) as [-> |]; [by rewrite entry_dirty | done].
Qed.

Lemma fa_victimize_spec g addr reg m :
  geometry_ok g -> in_range 64 addr -> fa_tags_ok g m -> check_tag g addr m = None ->
  exists v reg' m', fa_victimize g addr reg m = Some (v, reg', m') /\ fa_tags_ok g m' /\
    victim_spec g (line_of g addr) v (fa_contents g m) (fa_contents g m').
Proof.
  intros G Ha K F. pose proof (line_of_is_line g addr G Ha) as Hl. pose proof (go_ways g G).
  pose proof (line_of_in g addr G Ha).
  assert (F' : map_find (line_of g addr) m = None) by (cbn in F; by destruct (map_find _ m)).
  unfold fa_victimize. rewrite entry_clean_eq.
  destruct (Z.eqb_spec (Z.of_nat (length m)) (ways g)) as [Ew | Ew].
  - destruct (Z.eqb_spec (ways g) 0); [lia |].
    pose proof (Z.mod_pos_bound (lfsr_next reg) (ways g) ltac:(lia)).
    cbv zeta. set (slot := Z.to_nat (lfsr_next reg mod ways g)).
    destruct (lookup_lt_is_Some_2 m slot) as [[k v] En]; [unfold slot; lia |]. rewrite En.
    assert (Fk : map_find k m = Some v)
      by (apply map_find_elem; [apply K | by eapply list_elem_of_lookup_2]).
    destruct (fa_entry_find g m k v K Fk) as [Hk [d ->]].
    assert (Fd : forall j, map_find j (delete slot m) = if j =? k then None else map_find j m)
      by (intros j; apply map_find_delete with (v := entry k d); [apply K | done]).
    eexists _, _, _. split; [done |]. split.
    + split; [apply K | by apply map_set_sorted, delete_sorted, K | | |].
      * intros j w [[= -> ->] | He]%elem_of_map_set; [by eauto |].
        apply (fa_entry g m K). by apply list_elem_of_delete_inv in He.
      * intros j w [[= -> ->] | He]%elem_of_map_set; [done |].
        eapply (fa_range g m K). by eapply list_elem_of_delete_inv.
      * rewrite length_map_set; [| rewrite Fd, F'; by case_match].
        rewrite length_delete by done. lia.
    + right. exists k, d. split; [done |]. split; [done |].
      split; [by eapply (fa_range g m K), list_elem_of_lookup_2 |].
      split; [unfold fa_contents; by rewrite Fk, entry_dirty |].
      split; [unfold set_of; by rewrite (fa_sets g m K), !Z.land_0_r |].
      intros l Hl'. unfold fa_contents. rewrite map_find_set, Fd.
      destruct (Z.eqb_spec l (line_of g addr)) as [-> |]; [by rewrite entry_dirty |].
      by destruct (l =? k).
  - eexists _, _, _. split; [done |]. split.
    + split; [apply K | by apply map_set_sorted, K | | |].
      * intros j w [[= -> ->] | He]%elem_of_map_set; [by eauto | by apply (fa_entry g m K)].
      * intros j w [[= -> ->] | He]%elem_of_map_set; [done | by eapply (fa_range g m K)].
      * rewrite length_map_set by done. pose proof (fa_length g m K). lia.
    + left. split; [done |]. intros l Hl'. unfold fa_contents. rewrite map_find_set.
      destruct (Z.eqb_spec l (line_of g addr)) as [-> |]; [by rewrite entry_dirty | done].
Qed.

#[export] Instance fa_tags_laws : TagStoreLaws tag_map Z := {
  tags_ok := fa_tags_ok;
  contents := fa_contents;
  check_tag_spec := fa_check_spec;
  or_dirty_spec := fa_or_dirty_spec;
  victimize_spec := fa_victimize_spec
}.

(** ** An access, abstractly

    What an access to a line does to the lines that are present and what it asks of the next
    level: nothing on a hit; on a miss the line, after the one that made room for it if that
    was dirty.  The line is dirty after if it was, or if the access is a store. *)
Inductive line_access (g : geometry) (c : Z -> option bool) (line : Z) (store : bool)
    (c' : Z -> option bool) : list (Z * bool) -> Prop :=
  | access_hit d :
      c line = Some d ->
      (forall l, is_line l -> c' l = if l =? line then Some (d || store) else c l) ->
      line_access g c line store c' []
  | access_fill :
      c line = None ->
      (forall l, is_line l -> c' l = if l =? line then Some store else c l) ->
      line_access g c line store c' [(line, false)]
  | access_evict l0 d :
      c line = None -> c l0 = Some d -> is_line l0 -> line_in g l0 -> set_of g l0 = set_of g line ->
      (forall l, is_line l ->
         c' l = if l =? line then Some store else if l =? l0 then None else c l) ->
      line_access g c line store c' ((if d then [(l0, true)] else []) ++ [(line, false)]).

(** The requests to the next level, for a line to be written back or to be filled. *)
Definition to_next (g : geometry) (r : Z * bool) : downstream :=
  ToMissHandler (Request (line_addr g r.1) (linesz g) r.2).

Section access.
Context {T P : Type} `{TagStoreLaws T P}.

Definition cache_ok (c : cache_sim T) : Prop :=
  geometry_ok (geo c) /\ tags_ok (geo c) (tags c).
Definition cache_lines (c : cache_sim T) : Z -> option bool := contents (geo c) (tags c).

(** The tag of the line is found again, to be marked. *)
Lemma mark_stored g addr t (store : bool) c :
  geometry_ok g -> in_range 64 addr -> tags_ok g t ->
  contents g t (line_of g addr) = Some false ->
  (forall l, is_line l -> l <> line_of g addr -> contents g t l = c l) ->
  exists t', (if store then p ← check_tag g addr t; Some (or_dirty p t) else Some t) = Some t' /\
    tags_ok g t' /\
    forall l, is_line l -> contents g t' l = if l =? line_of g addr then Some store else c l.
Proof.
  intros G Ha K E Hc. destruct store.
  - pose proof (check_tag_spec g addr t G Ha K) as S.
    destruct (check_tag g addr t) as [p |] eqn:Ep; [| congruence].
    destruct (or_dirty_spec g addr t p G Ha K Ep) as [K' Hd]. eexists. split; [done |].
    split; [done |]. intros l Hl. rewrite Hd by done. destruct (Z.eqb_spec l (line_of g addr)); auto.
  - eexists. split; [done |]. split; [done |]. intros l Hl.
    destruct (Z.eqb_spec l (line_of g addr)) as [-> |]; auto.
Qed.

Lemma access_refines addr bytes store (c : cache_sim T) :
  cache_ok c -> in_range 64 addr ->
  exists c' out requests,
    cache_access addr bytes store c = Some (c', out) /\ cache_ok c' /\
    geo c' = geo c /\ miss_handler c' = miss_handler c /\
    line_access (geo c) (cache_lines c) (line_of (geo c) addr) store (cache_lines c') requests /\
    (miss_handler c = true -> out = map (to_next (geo c)) requests).
Proof.
  intros [G K] Ha. unfold cache_access, cache_lines. set (g := geo c) in *.
  pose proof (check_tag_spec g addr (tags c) G Ha K) as S.
  destruct (check_tag g addr (tags c)) as [p |] eqn:Ep.
  - destruct S as [d S]. eexists _, _, []. split; [done |].
    destruct (or_dirty_spec g addr (tags c) p G Ha K Ep) as [K' Hd].
    split; [split; [done |]; by destruct store |]. split; [done |]. split; [done |]. split; [| done].
    apply access_hit with d; [done |]. intros l Hl. destruct store; cbn [tags geo].
    + by rewrite Hd, orb_true_r by done.
    + rewrite orb_false_r. destruct (Z.eqb_spec l (line_of g addr)) as [-> |]; done.
  - destruct (victimize_spec g addr (lfsr c) (tags c) G Ha K Ep) as (v & reg & t & -> & Kt & V).
    pose proof (line_of_is_line g addr G Ha) as Hline. cbn [mbind option_bind].
    rewrite line_addr_fill by done.
    destruct V as [[Hv Hc] | (l0 & d & -> & Hl0 & Hin0 & Hc0 & Hset & Hc)].
    + edestruct (mark_stored g addr t store (contents g (tags c)) G Ha Kt) as (t' & -> & Kt' & Hc').
      { rewrite Hc, Z.eqb_refl by done. done. }
      { intros l Hl Hne. rewrite Hc by done. by destruct (Z.eqb_spec l (line_of g addr)). }
      eexists _, _, [(_, false)]. split; [done |]. split; [by split |].
      split; [done |]. split; [done |]. split; [by apply access_fill |].
      intros ->. by rewrite Hv.
    + edestruct (mark_stored g addr t store (fun l => if l =? l0 then None else contents g (tags c) l)
        G Ha Kt) as (t' & -> & Kt' & Hc').
      { rewrite Hc, Z.eqb_refl by done. done. }
      { intros l Hl Hne. rewrite Hc by done. by destruct (Z.eqb_spec l (line_of g addr)). }
      eexists _, _, ((if d then [(l0, true)] else []) ++ [(_, false)]).
      split; [done |]. split; [by split |]. split; [done |]. split; [done |].
      split; [by apply access_evict |]. intros ->.
      rewrite entry_victim, entry_line by done. by destruct d.
Qed.

End access.

(** ** Construction *)

Lemma power_of_two x : 0 < x -> x .& (x - 1) = 0 -> x = 2 ^ Z.log2 x.
Proof.
  intros Hx E. destruct (Z.log2_spec x Hx) as [L U]. destruct (Z.eq_dec x (2 ^ Z.log2 x)) as [|Hne]; [done |].
  exfalso. apply (f_equal (fun y => Z.testbit y (Z.log2 x))) in E.
  rewrite Z.land_spec, Z.bits_0, Z.bit_log2 in E by done.
  rewrite <- (Z.log2_unique (x - 1) (Z.log2 x)) in E at 1 by (try apply Z.log2_nonneg; lia).
  by rewrite Z.bit_log2 in E by (pose proof (pow2_pos (Z.log2 x) (Z.log2_nonneg x)); lia).
Qed.

Lemma shift_of_pow2 n k : 0 <= k <= Z.of_nat n -> shift_of n (2 ^ k) = k.
Proof.
  revert k. induction n as [| n IH]; intros k Hk; cbn [shift_of]; [lia |].
  destruct (Z.eq_dec k 0) as [-> |]; [done |].
  assert (E : 2 ^ k = 2 ^ (k - 1) * 2) by (rewrite (pow2_split k 1) by lia; lia).
  pose proof (pow2_pos (k - 1) ltac:(lia)). destruct (Z.ltb_spec 1 (2 ^ k)); [| lia].
  rewrite shr_div, E by lia. change (2 ^ 1) with 2. rewrite Z.div_mul by lia.
  rewrite IH by lia. lia.
Qed.

Lemma cache_geometry_ok s w z g :
  cache_geometry s w z = Some g -> 0 <= s -> 0 < w -> z < 2 ^ 64 ->
  geometry_ok g /\ sets g = s /\ ways g = w.
Proof.
  unfold cache_geometry. intros E Hs Hw Hz. destruct (Z.eqb_spec s 0); [done |]. cbn [orb] in E.
  unfold z2b in E. destruct (Z.eqb_spec (s .& (s - 1)) 0) as [Es |]; [| done]. cbn [negb] in E.
  destruct (Z.ltb_spec z 8); [done |]. cbn [orb] in E.
  destruct (Z.eqb_spec (z .& (z - 1)) 0) as [Ez |]; [| done].
  apply (inj Some) in E as <-.
  apply power_of_two in Es, Ez; [| lia | lia]. pose proof (Z.log2_nonneg z).
  assert (Hl : 3 <= Z.log2 z < 64).
  { split; [apply Z.log2_le_pow2; lia | apply Z.log2_lt_pow2; lia]. }
  assert (Esh : shift_of 64 z = Z.log2 z) by (rewrite Ez at 1; apply shift_of_pow2; lia).
  split; [| done]. split; cbn [sets ways linesz idx_shift].
  - exists (Z.log2 s). split; [apply Z.log2_nonneg | done].
  - by rewrite Esh.
  - by rewrite Esh.
  - done.
Qed.

Lemma entry_not_zero l d : 0 <> entry l d.
Proof.
  intros E. apply (f_equal (fun x => Z.testbit x 63)) in E. unfold entry in E.
  by rewrite Z.lor_spec, orb_true_r in E.
Qed.

Lemma empty_set_tags g :
  geometry_ok g -> set_tags_ok g (replicate (Z.to_nat (sets g * ways g)) 0).
Proof.
  intros G. pose proof (go_ways g G). destruct (go_sets g G) as (s & Hs & Es).
  pose proof (pow2_pos s Hs).
  assert (Hno : forall l d p, ~ holds g (replicate (Z.to_nat (sets g * ways g)) 0) l d p).
  { intros l d p [_ [E _]%lookup_replicate]. by apply (entry_not_zero l d). }
  split.
  - rewrite length_replicate. nia.
  - intros i v [-> _]%lookup_replicate. by left.
  - intros l d p _ Hp. by destruct (Hno l d p).
  - intros l d d' p p' _ Hp. by destruct (Hno l d p).
Qed.

Lemma empty_set_contents g l :
  geometry_ok g -> is_line l ->
  set_contents g (replicate (Z.to_nat (sets g * ways g)) 0) l = None.
Proof.
  intros G Hl. destruct (set_contents _ _ _) as [d |] eqn:E; [| done].
  apply set_contents_spec in E as (p & _ & [E _]%lookup_replicate);
    [by symmetry in E; apply entry_not_zero in E | done | by apply empty_set_tags | done].
Qed.

Lemma empty_fa_tags g : geometry_ok g -> sets g = 1 -> fa_tags_ok g [].
Proof.
  intros G Es. pose proof (go_ways g G). split; [done | constructor | | | cbn; lia];
    by intros k v ?%not_elem_of_nil.
Qed.

(** ** Either kind of cache *)

Definition any_geo (c : any_cache) : geometry :=
  match c with SetAssociative c => geo c | FullyAssociative c => geo c end.
Definition any_lines (c : any_cache) : Z -> option bool :=
  match c with SetAssociative c => cache_lines c | FullyAssociative c => cache_lines c end.
Definition any_ok (c : any_cache) : Prop :=
  match c with SetAssociative c => cache_ok c | FullyAssociative c => cache_ok c end.
Definition forwards (c : any_cache) : bool :=
  match c with SetAssociative c => miss_handler c | FullyAssociative c => miss_handler c end.

Lemma any_access_refines addr bytes store c :
  any_ok c -> in_range 64 addr ->
  exists c' out requests,
    any_access addr bytes store c = Some (c', out) /\ any_ok c' /\
    any_geo c' = any_geo c /\ forwards c' = forwards c /\
    line_access (any_geo c) (any_lines c) (line_of (any_geo c) addr) store (any_lines c') requests /\
    (forwards c = true -> out = map (to_next (any_geo c)) requests).
Proof.
  intros K Ha. destruct c as [c | c];
    destruct (access_refines addr bytes store c K Ha) as (c' & out & rs & E & HK); cbn [any_access];
    rewrite E; cbn [mbind option_bind].
  - by exists (SetAssociative c'), out, rs.
  - by exists (FullyAssociative c'), out, rs.
Qed.

Lemma construct_ok s w z c miss oram :
  construct s w z = Some c -> 0 <= s -> 0 < w -> z < 2 ^ 64 ->
  any_ok (set_handlers miss oram c) /\ forwards (set_handlers miss oram c) = miss /\
  forall l, is_line l -> any_lines (set_handlers miss oram c) l = None.
Proof.
  unfold construct. intros E Hs Hw Hz. destruct (cache_geometry s w z) as [g |] eqn:Eg; [| done].
  cbn [mbind option_bind] in E. destruct (cache_geometry_ok s w z g Eg Hs Hw Hz) as (G & Es & Ew).
  destruct (_ && _) eqn:Ek; injection E as <-; cbn.
  - apply andb_prop in Ek as [_ E1%Z.eqb_eq]. split; [| done]. split; [done |].
    apply (empty_fa_tags g); [done | congruence].
  - rewrite <- Es, <- Ew. split; [split; [done | by apply empty_set_tags] |]. split; [done |].
    intros l Hl. by apply empty_set_contents.
Qed.

(** ** Histories *)

(** What happens at a cache: a store by the hart, a request to the next level. *)
Inductive event := Stored (addr : Z) | Requested (d : downstream).

Fixpoint cache_run (accesses : list (Z * Z * bool)) (c : any_cache) : option (any_cache * list event) :=
  match accesses with
  | [] => Some (c, [])
  | (addr, bytes, store) :: accesses =>
      '(c, out) ← any_access addr bytes store c;
      '(c, events) ← cache_run accesses c;
      Some (c, map Requested out ++ (if store : bool then [Stored addr] else []) ++ events)
  end.

(** The line has been stored to since it was last written back. *)
Definition after_event (g : geometry) (l : Z) (pending : bool) (e : event) : bool :=
  match e with
  | Stored addr => if line_of g addr =? l then true else pending
  | Requested (ToMissHandler r) =>
      if rq_store r && (line_of g (rq_addr r) =? l) then false else pending
  | Requested (ToOram r) => pending
  end.
Definition pending (g : geometry) (l : Z) (before : bool) (events : list event) : bool :=
  fold_left (after_event g l) events before.

Definition is_dirty (c : Z -> option bool) (l : Z) : bool := default false (c l).

Lemma access_pending g c line store c' requests l :
  geometry_ok g -> line_in g line -> is_line l -> line_access g c line store c' requests ->
  is_dirty c' l =
  (if store && (line =? l) then true
   else pending g l (is_dirty c l) (map Requested (map (to_next g) requests))).
Proof.
  intros G Hin Hl A. unfold is_dirty, pending.
  destruct A as [d Hc Hc' | Hc Hc' | l0 d Hc H0 Hl0 Hin0 _ Hc']; rewrite Hc' by done;
    rewrite (Z.eqb_sym line l).
  - destruct (Z.eqb_spec l line) as [-> |]; [| by rewrite andb_false_r].
    rewrite Hc. cbn. by destruct store, d.
  - cbn. destruct (Z.eqb_spec l line) as [-> |]; [| by rewrite andb_false_r].
    rewrite Hc. by destruct store.
  - rewrite map_app, map_app, fold_left_app. cbn.
    destruct (Z.eqb_spec l line) as [-> |].
    + destruct (Z.eqb_spec line l0) as [-> | Hne]; [congruence |]. rewrite Hc. destruct store; [done |].
      destruct d; cbn; [| done]. rewrite line_addr_of by done. by case_match.
    + rewrite andb_false_r. destruct d; cbn; rewrite ?line_addr_of, ?(Z.eqb_sym l0 l) by done;
        destruct (Z.eqb_spec l l0) as [-> |]; by rewrite ?H0.
Qed.

Lemma run_pending accesses c :
  any_ok c -> forwards c = true -> Forall (fun a => in_range 64 a.1.1) accesses ->
  exists c' events, cache_run accesses c = Some (c', events) /\ any_ok c' /\
    any_geo c' = any_geo c /\ forwards c' = true /\
    forall l, is_line l ->
      is_dirty (any_lines c') l = pending (any_geo c) l (is_dirty (any_lines c) l) events.
Proof.
  revert c. induction accesses as [| [[addr bytes] store] accesses IH]; intros c K F Hin.
  { by exists c, []. }
  apply Forall_cons in Hin as [Ha Hin]. cbn in Ha.
  destruct (any_access_refines addr bytes store c K Ha) as (c1 & out & rs & E & K1 & G1 & F1 & A & Ho).
  specialize (Ho F) as ->. destruct (IH c1) as (c2 & events & R & K2 & G2 & F2 & D); [done | congruence | done |].
  exists c2. eexists. cbn [cache_run]. rewrite E. cbn [mbind option_bind]. rewrite R.
  split; [done |]. split; [done |]. split; [congruence |]. split; [done |].
  intros l Hl. rewrite D, G1 by done.
  assert (G : geometry_ok (any_geo c)) by (destruct c; apply K).
  rewrite (access_pending _ _ _ _ _ _ l G (line_of_in _ addr G Ha) Hl A).
  unfold pending. rewrite fold_left_app, fold_left_app. f_equal. destruct store; cbn; [| done].
  by destruct (line_of (any_geo c) addr =? l).
Qed.

(** ** The claim *)

(** C23: A cache of any accepted configuration with at least one way, of either kind, serves any
    sequence of accesses: it never uses a null pointer; each access hits exactly when the line
    is present and otherwise asks the next level for the line, after it has written back the
    line of the same set that makes room if that is dirty; and at the end a line is dirty
    exactly when it has been stored to since it was last written back, so that no store is
    lost on the way to the next level. *)
Theorem cache_correct s w z accesses c0 :
  construct s w z = Some c0 -> 0 <= s -> 0 < w -> z < 2 ^ 64 ->
  Forall (fun a => in_range 64 a.1.1) accesses ->
  exists c events,
    cache_run accesses (set_handlers true false c0) = Some (c, events) /\
    (forall l, is_line l -> is_dirty (any_lines c) l = pending (any_geo c) l false events) /\
    forall addr bytes store, in_range 64 addr ->
      exists c' requests,
        any_access addr bytes store c = Some (c', map (to_next (any_geo c)) requests) /\
        line_access (any_geo c) (any_lines c) (line_of (any_geo c) addr) store (any_lines c') requests.
Proof.
  intros E Hs Hw Hz Hin. destruct (construct_ok s w z c0 true false E Hs Hw Hz) as (K & F & Hnone).
  destruct (run_pending accesses _ K F Hin) as (c & events & R & Kc & Gc & Fc & D).
  exists c, events. split; [done |]. split.
  - intros l Hl. rewrite D, Gc by done. unfold is_dirty at 1. by rewrite Hnone.
  - intros addr bytes store Ha.
    destruct (any_access_refines addr bytes store c Kc Ha) as (c' & out & rs & Ea & _ & _ & _ & A & Ho).
    exists c', rs. by rewrite <- Ho.
Qed.

(** Four sets of two ways of 64 bytes, and stores to three lines of one set. *)
Lemma cache_correct_witness :
  exists c0 c events, construct 4 2 64 = Some c0 /\
    cache_run [(0x1000, 8, true); (0x2000, 8, true); (0x3000, 8, false)]
      (set_handlers true false c0) = Some (c, events) /\
    is_dirty (any_lines c) (0x1000 / 64) = pending (any_geo c) (0x1000 / 64) false events.
Proof.
  destruct (construct 4 2 64) as [c0 |] eqn:E; [| by vm_compute in E].
  destruct (cache_correct 4 2 64 [(0x1000, 8, true); (0x2000, 8, true); (0x3000, 8, false)] c0 E)
    as (c & events & R & D & _); [lia | lia | lia | by repeat constructor; vm_compute |].
  exists c0, c, events. split; [done |]. split; [done |]. apply D. by split; vm_compute.
Defined.

(** The help text asks for a positive number of ways; none is accepted, and the first access
    divides by zero. *)
Lemma cache_without_ways :
  exists c, construct 1 0 64 = Some c /\ any_access 0 4 false c = None.
Proof. eexists. split; [by vm_compute |]. by vm_compute. Qed.

(** A cache over the ORAM controller sends it the fills only: a dirty line that is replaced is
    counted and dropped. *)
Lemma oram_is_never_written addr bytes store c c' out :
  forwards c = false -> any_access addr bytes store c = Some (c', out) ->
  Forall (fun d => exists r, d = ToOram r /\ rq_store r = false) out.
Proof.
  destruct c as [c | c]; cbn; intros F E; destruct (cache_access _ _ _ _) as [[c1 o1] |] eqn:A;
    try done; injection E as <- <-; unfold cache_access in A; rewrite F in A;
    (destruct (check_tag _ _ _); [by injection A as <- <-; constructor |]);
    destruct (victimize _ _ _ _) as [[[v reg] t] |]; try done; cbn [mbind option_bind] in A;
    rewrite andb_false_r in A;
    (destruct (if store then _ else _); [| done]); cbn [mbind option_bind] in A;
    injection A as <- <-; cbn [negb andb app]; case_match; repeat constructor; by eexists.
Qed.
