(* ===== verification/Devices.v ===== *)
(** riscv/devices.h and devices.cc, rom.cc, rtc.cc, debug_module.cc, and what [processor_t]
    and [sim_t] add to them: the bus of the simulated machine and the devices on it, the
    boot ROM with its reset vector and configuration string, the real-time clock with its
    timer interrupts, the debug module, and the software interrupt of every hart.

    Together they are what lies outside a hart, the instance of [Platform] at the end. *)
From Stdlib Require Import Ascii String Sorting.Sorted.
From S2P Require Import Prelude Encoding OrdMap Machine Csr Mmu.

(** ** Bytes in arrays *)

(** [memcpy] out of an array at a position, and into it. *)
Definition copy_from (data : list Z) (addr len : Z) : list Z :=
  (fun i => u8 (default 0 (data !! i))) <$> seq (Z.to_nat addr) (Z.to_nat len).
Definition copy_to (data : list Z) (addr : Z) (bytes : list Z) : list Z :=
  take (Z.to_nat addr) data ++ bytes ++ drop (Z.to_nat addr + length bytes) data.

(** The bytes of an array of 64-bit integers, and back. *)
Definition bytes_of_regs (regs : list Z) : list Z := regs ≫= bytes_of 8.
Fixpoint regs_of_bytes (n : nat) (bytes : list Z) : list Z :=
  match n with O => [] | S n => bytes_to (take 8 bytes) :: regs_of_bytes n (drop 8 bytes) end.

(** ** The state outside the harts

    The devices reach the harts through [mip] alone: the one of the running hart is in its
    state, those of the others are here. *)
Inductive device := DebugModule | Rtc | Hart (i : nat) | BootRom.

Record platform := PlatformState {
  bus : ord_map device;
  boot_rom : list Z;
  rtc_regs : list Z;
  debug_ram : list Z;
  debug_interrupt : gset Z;
  halt_notification : gset Z;
  current : nat;
  mips : list Z
}.

Definition with_rtc (regs : list Z) (w : platform) : platform :=
  PlatformState (bus w) (boot_rom w) regs (debug_ram w) (debug_interrupt w) (halt_notification w)
    (current w) (mips w).
Definition with_debug_ram (ram : list Z) (w : platform) : platform :=
  PlatformState (bus w) (boot_rom w) (rtc_regs w) ram (debug_interrupt w) (halt_notification w)
    (current w) (mips w).
Definition with_debug_interrupt (ints : gset Z) (w : platform) : platform :=
  PlatformState (bus w) (boot_rom w) (rtc_regs w) (debug_ram w) ints (halt_notification w)
    (current w) (mips w).
Definition with_halt_notification (nots : gset Z) (w : platform) : platform :=
  PlatformState (bus w) (boot_rom w) (rtc_regs w) (debug_ram w) (debug_interrupt w) nots
    (current w) (mips w).
Definition with_mips (l : list Z) (w : platform) : platform :=
  PlatformState (bus w) (boot_rom w) (rtc_regs w) (debug_ram w) (debug_interrupt w)
    (halt_notification w) (current w) l.
Definition with_current (i : nat) (w : platform) : platform :=
  PlatformState (bus w) (boot_rom w) (rtc_regs w) (debug_ram w) (debug_interrupt w)
    (halt_notification w) i (mips w).

(** [procs[i]->state.mip], where [s] is the state of the running hart. *)
Definition hart_mip (i : nat) (s : state_t) (w : platform) : Z :=
  if bool_decide (i = current w) then mip s else default 0 (mips w !! i).
Definition set_hart_mip (i : nat) (v : Z) (s : state_t) (w : platform) : state_t * platform :=
  if bool_decide (i = current w) then (s <| mip := v |>, w)
  else (s, with_mips (<[i := v]> (mips w)) w).

(** ** The real-time clock (rtc.cc) *)

Definition rtc_size (w : platform) : Z := u64 (Z.of_nat (length (rtc_regs w)) * 8).

Definition rtc_load (addr len : Z) (w : platform) : option (list Z) :=
  if rtc_size w <? u64 (addr + len) then None
  else Some (copy_from (bytes_of_regs (rtc_regs w)) addr len).

Definition timer_mip (time timecmp v : Z) : Z :=
  let v := v .& Z.lnot MIP_MTIP in
  if timecmp <=? time then v .| MIP_MTIP else v.

(** The loop over the harts: [n] of them from [i] on. *)
Fixpoint update_timers (n i : nat) (s : state_t) (w : platform) : state_t * platform :=
  match n with
  | O => (s, w)
  | S n =>
      let time := default 0 (rtc_regs w !! 0%nat) in
      let timecmp := default 0 (rtc_regs w !! S i) in
      let '(s, w) := set_hart_mip i (timer_mip time timecmp (hart_mip i s w)) s w in
      update_timers n (S i) s w
  end.

Definition rtc_increment (inc : Z) (s : state_t) (w : platform) : state_t * platform :=
  let time := u64 (default 0 (rtc_regs w !! 0%nat) + inc) in
  let w := with_rtc (<[0%nat := time]> (rtc_regs w)) w in
  update_timers (length (mips w)) 0 s w.

Definition rtc_store (addr : Z) (bytes : list Z) (s : state_t) (w : platform)
    : option (state_t * platform) :=
  if (rtc_size w <? u64 (addr + Z.of_nat (length bytes))) || (addr <? 8) then None
  else
    let regs := regs_of_bytes (length (rtc_regs w)) (copy_to (bytes_of_regs (rtc_regs w)) addr bytes) in
    Some (rtc_increment 0 s (with_rtc regs w)).

(** ** The boot ROM (rom.cc) *)

Definition rom_load (addr len : Z) (w : platform) : option (list Z) :=
  if Z.of_nat (length (boot_rom w)) <? u64 (addr + len) then None
  else Some (copy_from (boot_rom w) addr len).

(** ** The software interrupt of a hart ([processor_t::store]) *)

Definition hart_store (i : nat) (addr : Z) (bytes : list Z) (s : state_t) (w : platform)
    : option (state_t * platform) :=
  if addr =? 0 then
    let v := hart_mip i s w .& Z.lnot MIP_MSIP in
    let v := if z2b (default 0 (bytes !! 0%nat) .& 1) then v .| MIP_MSIP else v in
    Some (set_hart_mip i v s w)
  else None.

(** ** The debug module (debug_module.cc) *)

Definition debug_rom_raw : list Z :=
  [0x6f; 0x00; 0xc0; 0x04; 0x6f; 0x00; 0xc0; 0x00; 0x13; 0x04; 0xf0; 0xff;
   0x6f; 0x00; 0x80; 0x00; 0x13; 0x04; 0x00; 0x00; 0x0f; 0x00; 0xf0; 0x0f;
   0xf3; 0x24; 0x10; 0x30; 0x63; 0xc6; 0x04; 0x00; 0x83; 0x24; 0xc0; 0x43;
   0x6f; 0x00; 0x80; 0x00; 0x83; 0x34; 0x80; 0x43; 0x23; 0x2e; 0x80; 0x42;
   0x73; 0x24; 0x40; 0xf1; 0x23; 0x20; 0x80; 0x10; 0x73; 0x24; 0x00; 0x7b;
   0x13; 0x74; 0x84; 0x00; 0x63; 0x12; 0x04; 0x04; 0x73; 0x24; 0x20; 0x7b;
   0x73; 0x00; 0x20; 0x7b; 0x73; 0x10; 0x24; 0x7b; 0x73; 0x24; 0x00; 0x7b;
   0x13; 0x74; 0x04; 0x1c; 0x13; 0x04; 0x04; 0xf4; 0x63; 0x1e; 0x04; 0x00;
   0x73; 0x24; 0x10; 0x30; 0x63; 0x46; 0x04; 0x00; 0x23; 0x2e; 0x90; 0x42;
   0x67; 0x00; 0x00; 0x40; 0x23; 0x3c; 0x90; 0x42; 0x67; 0x00; 0x00; 0x40;
   0x73; 0x24; 0x40; 0xf1; 0x23; 0x26; 0x80; 0x10; 0x73; 0x60; 0x04; 0x7b;
   0x73; 0x24; 0x00; 0x7b; 0x13; 0x74; 0x04; 0x02; 0xe3; 0x0c; 0x04; 0xfe;
   0x6f; 0xf0; 0x1f; 0xfd].
Definition debug_rom_raw_len : Z := 148.
Definition DEBUG_START : Z := 0x100.
Definition DEBUG_ROM_END : Z := DEBUG_ROM_START + debug_rom_raw_len.
Definition DEBUG_RAM_START : Z := 0x400.
Definition DEBUG_RAM_SIZE : Z := 64.
Definition DEBUG_RAM_END : Z := DEBUG_RAM_START + DEBUG_RAM_SIZE.
Definition DEBUG_CLEARDEBINT : Z := 0x100.
Definition DEBUG_SETHALTNOT : Z := 0x10c.

Definition debug_load (addr len : Z) (w : platform) : option (list Z) :=
  let addr := u64 (DEBUG_START + addr) in
  if (DEBUG_RAM_START <=? addr) && (u64 (addr + len) <=? DEBUG_RAM_END)
  then Some (copy_from (debug_ram w) (addr - DEBUG_RAM_START) len)
  else if (DEBUG_ROM_START <=? addr) && (u64 (addr + len) <=? DEBUG_ROM_END)
  then Some (copy_from debug_rom_raw (addr - DEBUG_ROM_START) len)
  else None.

Definition debug_store (addr : Z) (bytes : list Z) (w : platform) : option platform :=
  let len := Z.of_nat (length bytes) in
  let addr := u64 (DEBUG_START + addr) in
  if z2b (addr .& u64 (len - 1)) then None
  else if (DEBUG_RAM_START <=? addr) && (u64 (addr + len) <=? DEBUG_RAM_END)
  then Some (with_debug_ram (copy_to (debug_ram w) (addr - DEBUG_RAM_START) bytes) w)
  else if (len =? 4) && (addr =? DEBUG_CLEARDEBINT)
  then Some (with_debug_interrupt (debug_interrupt w ∖ {[ bytes_to bytes ]}) w)
  else if (len =? 4) && (addr =? DEBUG_SETHALTNOT)
  then Some (with_halt_notification (halt_notification w ∪ {[ bytes_to bytes ]}) w)
  else None.

(** What the debugger does with it. *)
Definition ram_write32 (index value : Z) (w : platform) : platform :=
  with_debug_ram (copy_to (debug_ram w) (index * 4) (bytes_of 4 value)) w.
Definition ram_read32 (index : Z) (w : platform) : Z :=
  bytes_to (copy_from (debug_ram w) (index * 4) 4).
Definition set_interrupt (hartid : Z) (w : platform) : platform :=
  with_debug_interrupt (debug_interrupt w ∪ {[ hartid ]}) w.
Definition debug_get_interrupt (hartid : Z) (w : platform) : bool :=
  bool_decide (u32 hartid ∈ debug_interrupt w).
Definition clear_halt_notification (hartid : Z) (w : platform) : platform :=
  with_halt_notification (halt_notification w ∖ {[ hartid ]}) w.
Definition get_halt_notification (hartid : Z) (w : platform) : bool :=
  bool_decide (hartid ∈ halt_notification w).

(** ** The bus (devices.cc)

    The devices are kept under the opposite of their addresses, so that the first one not
    below the opposite of an address is the nearest one at or below it. *)

Definition add_device (addr : Z) (dev : device) (b : ord_map device) : ord_map device :=
  map_set (u64 (- addr)) dev b.

Definition bus_find (addr : Z) (b : ord_map device) : option (device * Z) :=
  '(key, dev) ← lower_bound (u64 (- addr)) b;
  Some (dev, u64 (addr - u64 (- key))).

Definition device_load (dev : device) (addr len : Z) (w : platform) : option (list Z) :=
  match dev with
  | DebugModule => debug_load addr len w
  | Rtc => rtc_load addr len w
  | Hart _ => None
  | BootRom => rom_load addr len w
  end.
Definition device_store (dev : device) (addr : Z) (bytes : list Z) (s : state_t) (w : platform)
    : option (state_t * platform) :=
  match dev with
  | DebugModule => w ← debug_store addr bytes w; Some (s, w)
  | Rtc => rtc_store addr bytes s w
  | Hart i => hart_store i addr bytes s w
  | BootRom => None
  end.

Definition bus_load (addr len : Z) (w : platform) : option (list Z) :=
  '(dev, offset) ← bus_find addr (bus w); device_load dev offset len w.
Definition bus_store (addr : Z) (bytes : list Z) (s : state_t) (w : platform)
    : option (state_t * platform) :=
  '(dev, offset) ← bus_find addr (bus w); device_store dev offset bytes s w.

(** [sim_t::mmio_load] and [mmio_store] *)
Definition sim_mmio_load (addr len : Z) (w : platform) : option (list Z) :=
  if u64 (addr + len) <? addr then None else bus_load addr len w.
Definition sim_mmio_store (addr : Z) (bytes : list Z) (s : state_t) (w : platform)
    : option (state_t * platform) :=
  if u64 (addr + Z.of_nat (length bytes)) <? addr then None else bus_store addr bytes s w.

(** ** The configuration string and the layout of the bus ([sim_t::make_config_string]) *)

Definition align : Z := 0x1000.

(** [std::hex] *)
Definition hex_digit (d : Z) : Z := if d <? 10 then 48 + d else 87 + d.
Fixpoint hex_digits (fuel : nat) (x : Z) : list Z :=
  match fuel with
  | O => []
  | S fuel => (if x <? 16 then [] else hex_digits fuel (x .>> 4)) ++ [hex_digit (x .& 15)]
  end.
Definition hex (x : Z) : list Z := hex_digits 16 x.
Definition text (s : string) : list Z := (fun c => Z.of_nat (nat_of_ascii c)) <$> list_ascii_of_string s.
Definition newline : list Z := [10].
Definition line (s : string) : list Z := text s ++ newline.

(** One hart per core: its entry in the configuration string, and its address on the bus. *)
Fixpoint config_cores (i : nat) (isa_strings : list (list Z)) (rtc_addr cpu_addr : Z) : list Z :=
  match isa_strings with
  | [] => []
  | isa :: isas =>
      text "  " ++ hex (Z.of_nat i) ++ line " {" ++ text "    " ++ line "0 {" ++
      text "      isa " ++ isa ++ line ";" ++
      text "      timecmp 0x" ++ hex (rtc_addr + 8 * (1 + Z.of_nat i)) ++ line ";" ++
      text "      ipi 0x" ++ hex cpu_addr ++ line ";" ++
      line "    };" ++ line "  };" ++
      config_cores (S i) isas rtc_addr (cpu_addr + align)
  end.
Fixpoint add_harts (n i : nat) (cpu_addr : Z) (b : ord_map device) : ord_map device :=
  match n with
  | O => b
  | S n => add_harts n (S i) (cpu_addr + align) (add_device cpu_addr (Hart i) b)
  end.

Definition reset_vec : list Z :=
  [0x297 + DRAM_BASE - DEFAULT_RSTVEC; 0x28067; 0; DEFAULT_RSTVEC + 32; 0; 0; 0; 0].

Definition config_string (memsz rtc_addr cpu_addr : Z) (isa_strings : list (list Z)) : list Z :=
  line "platform {" ++ line "  vendor ucb;" ++ line "  arch spike;" ++ line "};" ++
  line "rtc {" ++ text "  addr 0x" ++ hex rtc_addr ++ line ";" ++ line "};" ++
  line "ram {" ++ line "  0 {" ++ text "    addr 0x" ++ hex DRAM_BASE ++ line ";" ++
  text "    size 0x" ++ hex memsz ++ line ";" ++ line "  };" ++ line "};" ++ line "core {" ++
  config_cores 0 isa_strings rtc_addr cpu_addr ++ line "};".

(** [resize] to the next multiple of the page, at least one byte further. *)
Definition pad (rom : list Z) : list Z :=
  let size := (Z.of_nat (length rom) / align + 1) * align in
  rom ++ replicate (Z.to_nat (size - Z.of_nat (length rom))) 0.

Definition new_platform (memsz : Z) (isa_strings : list (list Z)) : platform :=
  let n := length isa_strings in
  let regs := replicate (S n) 0 in
  let rtc_addr := EXT_IO_BASE in
  let cpu_addr := rtc_addr + ((Z.of_nat (S n) * 8 - 1) / align + 1) * align in
  let rom := pad ((reset_vec ≫= bytes_of 4) ++ config_string memsz rtc_addr cpu_addr isa_strings) in
  let b := add_device DEBUG_START DebugModule [] in
  let b := add_device rtc_addr Rtc b in
  let b := add_harts n 0 cpu_addr b in
  let b := add_device DEFAULT_RSTVEC BootRom b in
  PlatformState b rom regs (replicate (Z.to_nat DEBUG_RAM_SIZE) 0) ∅ ∅ 0%nat (replicate n 0).

(** ** What a hart sees of all this

    No memory tracer is registered; the host address of [fetch_temp] is arbitrary. *)
Definition sim_platform (temp : Z) : Platform platform := {|
  mmio_load := sim_mmio_load;
  mmio_store := sim_mmio_store;
  get_interrupt := debug_get_interrupt;
  fetch_temp_addr := temp;
  interested_in_range _ _ _ _ := false;
  trace _ _ _ w := w
|}.

(** ** The bus *)

(** The device added at an address. *)
Definition mapped (b : ord_map device) (base : Z) (dev : device) : Prop :=
  0 < base < 2 ^ 64 /\ map_find (u64 (- base)) b = Some dev.

Record bus_ok (b : ord_map device) : Prop := {
  bo_sorted : StronglySorted below b;
  bo_keys : forall key dev, map_find key b = Some dev -> 0 < key < 2 ^ 64
}.

Lemma opposite a : 0 < a < 2 ^ 64 -> u64 (- a) = 2 ^ 64 - a.
Proof. intros Ha. unfold wrap. symmetry. apply (Z.mod_unique _ _ (-1)); lia. Qed.

Lemma opposite_involutive a : 0 < a < 2 ^ 64 -> u64 (- u64 (- a)) = a.
Proof. intros Ha. rewrite (opposite a), opposite; lia. Qed.

Lemma mapped_add b addr dev base dev' :
  0 < addr < 2 ^ 64 ->
  mapped (add_device addr dev b) base dev' <->
  if base =? addr then dev' = dev /\ 0 < base < 2 ^ 64 else mapped b base dev'.
Proof.
  intros Ha. unfold mapped, add_device. rewrite map_find_set.
  destruct (Z.eqb_spec base addr) as [-> | Hne].
  - rewrite Z.eqb_refl. split; [by intros [? [= ->]] | by intros [-> ?]].
  - destruct (Z.eqb_spec (u64 (- base)) (u64 (- addr))) as [E |]; [| done].
    split; intros [Hb _]; rewrite !opposite in E by lia; lia.
Qed.

Lemma bus_ok_add b addr dev : 0 < addr < 2 ^ 64 -> bus_ok b -> bus_ok (add_device addr dev b).
Proof.
  intros Ha [Hs Hk]. split; [by apply map_set_sorted |]. intros key dev'. unfold add_device.
  rewrite map_find_set. destruct (Z.eqb_spec key (u64 (- addr))) as [-> |]; [| apply Hk].
  intros _. rewrite opposite; lia.
Qed.

(** An access goes to the nearest device at or below its address, at the offset from
    there.  Address 0 is its own opposite: it is taken for [2^64], above every device. *)
Lemma bus_find_nearest b a :
  bus_ok b -> 0 < a <= 2 ^ 64 ->
  match bus_find (u64 a) b with
  | Some (dev, offset) =>
      exists base, mapped b base dev /\ base <= a /\ offset = a - base /\
        forall base' dev', mapped b base' dev' -> base' <= a -> base' <= base
  | None => forall base dev, mapped b base dev -> a < base
  end.
Proof.
  intros [Hs Hk] Ha. unfold bus_find.
  assert (Eo : u64 (- u64 a) = 2 ^ 64 - a).
  { destruct (Z.eq_dec a (2 ^ 64)) as [-> |]; [done |]. rewrite (wrap_small 64 a) by lia.
    apply opposite. lia. }
  rewrite Eo. pose proof (lower_bound_spec (2 ^ 64 - a) b Hs) as L.
  destruct (lower_bound _ b) as [[key dev] |]; cbn [mbind option_bind].
  - destruct L as (Ef & Hle & Hmin). pose proof (Hk _ _ Ef) as Hkey.
    exists (u64 (- key)).
    assert (Eb : u64 (- key) = 2 ^ 64 - key) by (apply opposite; lia).
    split; [| split; [lia | split]].
    + split; [lia |]. by rewrite opposite_involutive.
    + rewrite wrap_sub_idemp_l, Eb. apply wrap_small. lia.
    + intros base' dev' [Hb' E'] Hle'. pose proof (Hmin _ _ E') as Hmin'.
      rewrite !opposite in Hmin' by lia. lia.
  - intros base dev [Hb E]. apply L in E. rewrite !opposite in E by lia. lia.
Qed.

(** Between a device and the next one the bus finds the first. *)
Lemma bus_find_between b a base dev :
  bus_ok b -> mapped b base dev -> base <= a <= 2 ^ 64 ->
  (forall base' dev', mapped b base' dev' -> base < base' -> a < base') ->
  bus_find (u64 a) b = Some (dev, a - base).
Proof.
  intros Hb Hm Ha Hnext. pose proof (proj1 Hm).
  pose proof (bus_find_nearest b a Hb ltac:(lia)) as N.
  destruct (bus_find (u64 a) b) as [[dev' offset] |].
  - destruct N as (base' & Hm' & Hle & -> & Hmax). pose proof (Hmax _ _ Hm ltac:(lia)).
    destruct (Z.eq_dec base base') as [<- |].
    + destruct Hm as [_ Hm], Hm' as [_ Hm']. congruence.
    + specialize (Hnext _ _ Hm' ltac:(lia)). lia.
  - specialize (N _ _ Hm). lia.
Qed.

(** ** The memory map of the simulated machine *)

Definition cpu_base (n : nat) : Z := EXT_IO_BASE + ((Z.of_nat (S n) * 8 - 1) / align + 1) * align.

Lemma mapped_harts n i cpu_addr b base dev :
  0 < cpu_addr -> cpu_addr + Z.of_nat n * align <= 2 ^ 64 ->
  mapped (add_harts n i cpu_addr b) base dev <->
  (exists j, (j < n)%nat /\ base = cpu_addr + Z.of_nat j * align /\ dev = Hart (i + j)) \/
  (mapped b base dev /\ forall j, (j < n)%nat -> base <> cpu_addr + Z.of_nat j * align).
Proof.
  change align with 4096. revert i cpu_addr b. induction n as [| n IH]; intros i cpu_addr b Hc Hn; cbn [add_harts].
  { split; [intros H; right; split; [done | lia] | intros [(j & ? & _) | [? _]]; [lia | done]]. }
  change align with 4096. rewrite IH, mapped_add by lia. split.
  - intros [(j & Hj & -> & ->) | [Hb Hne]].
    + left. exists (S j). split; [lia |]. split; [lia | f_equal; lia].
    + destruct (Z.eqb_spec base cpu_addr) as [-> |].
      * left. exists 0%nat. split; [lia |]. split; [lia |]. destruct Hb as [-> _]. f_equal. lia.
      * right. split; [done |]. intros [| j] Hj; [lia |]. specialize (Hne j ltac:(lia)). lia.
  - intros [([| j] & Hj & -> & ->) | [Hb Hne]].
    + right. split; [| intros j Hj'; lia]. rewrite (proj2 (Z.eqb_eq _ _)) by lia.
      split; [f_equal; lia | lia].
    + left. exists j. split; [lia |]. split; [lia | f_equal; lia].
    + right. split.
      * specialize (Hne 0%nat ltac:(lia)). by rewrite (proj2 (Z.eqb_neq _ _)) by lia.
      * intros j Hj. specialize (Hne (S j) ltac:(lia)). lia.
Qed.

Lemma bus_ok_harts n i cpu_addr b :
  0 < cpu_addr -> cpu_addr + Z.of_nat n * align <= 2 ^ 64 -> bus_ok b ->
  bus_ok (add_harts n i cpu_addr b).
Proof.
  change align with 4096. revert i cpu_addr b. induction n as [| n IH]; intros i cpu_addr b Hc Hn Hb; cbn [add_harts]; [done |].
  change align with 4096. apply IH; [lia | lia |]. apply bus_ok_add; [lia | done].
Qed.

Lemma cpu_base_above n : EXT_IO_BASE < cpu_base n.
Proof.
  unfold cpu_base. change align with 4096.
  pose proof (Z.div_pos (Z.of_nat (S n) * 8 - 1) 4096 ltac:(lia) ltac:(lia)). lia.
Qed.

Section map.
Variables (memsz : Z) (isa_strings : list (list Z)).
Let n := length isa_strings.
Let b := bus (new_platform memsz isa_strings).
Hypothesis room : cpu_base n + Z.of_nat n * align <= 2 ^ 64.

Lemma new_bus_ok : bus_ok b.
Proof using room.
  pose proof (cpu_base_above n) as Hc. change EXT_IO_BASE with 0x40000000 in Hc.
  apply bus_ok_add; [done |]. apply (bus_ok_harts n 0 (cpu_base n)); [lia | done |].
  apply bus_ok_add; [done |]. apply bus_ok_add; [done |]. split; [constructor | done].
Qed.

Lemma new_bus_mapped base dev :
  mapped b base dev <->
  (base = DEFAULT_RSTVEC /\ dev = BootRom) \/
  (base = EXT_IO_BASE /\ dev = Rtc) \/ (base = DEBUG_START /\ dev = DebugModule) \/
  exists i, (i < n)%nat /\ base = cpu_base n + Z.of_nat i * align /\ dev = Hart i.
Proof using room.
  pose proof (cpu_base_above n) as Hc. change EXT_IO_BASE with 0x40000000 in *.
  unfold b, new_platform. cbn [bus]. fold n. cbv zeta. change EXT_IO_BASE with 0x40000000.
  replace (0x40000000 + ((Z.of_nat (S n) * 8 - 1) / align + 1) * align) with (cpu_base n) by done.
  change align with 4096 in *. change DEFAULT_RSTVEC with 0x1000. change DEBUG_START with 0x100.
  assert (Hno : ~ mapped [] base dev) by (by intros [_ ?]).
  rewrite mapped_add by lia. destruct (Z.eqb_spec base 4096) as [-> |].
  { split; [intros [-> _]; by left |].
    intros [[_ ->] | [[? _] | [[? _] | (i & _ & ? & _)]]]; [by split | lia..]. }
  rewrite mapped_harts, mapped_add by (change align with 4096; lia).
  change align with 4096. destruct (Z.eqb_spec base 0x40000000) as [-> |].
  { split.
    - intros [(j & _ & ? & _) | [[-> _] _]]; [lia | by right; left].
    - intros [[? _] | [[_ ->] | [[? _] | (i & _ & ? & _)]]]; [lia | | lia | lia].
      right. split; [by split | lia]. }
  rewrite mapped_add by lia. destruct (Z.eqb_spec base 256) as [-> |].
  { split.
    - intros [(j & _ & ? & _) | [[-> _] _]]; [lia | by right; right; left].
    - intros [[? _] | [[? _] | [[_ ->] | (i & _ & ? & _)]]]; [lia | lia | | lia].
      right. split; [by split | lia]. }
  split.
  - intros [(j & ? & -> & ->) | [? _]]; [| done]. right; right; right. by exists j.
  - intros [[? _] | [[? _] | [[? _] | (i & ? & -> & ->)]]]; [done | done | done |].
    left. by exists i.
Qed.

Lemma new_bases base dev : mapped b base dev ->
  base = DEFAULT_RSTVEC \/ base = EXT_IO_BASE \/ base = DEBUG_START \/
  exists i, (i < n)%nat /\ base = cpu_base n + Z.of_nat i * align.
Proof using room. intros [[-> _] | [[-> _] | [[-> _] | (i & ? & -> & _)]]]%new_bus_mapped; eauto 6. Qed.

(** Every base that may be in the way, as a number. *)
#[local] Ltac bases Hm :=
  pose proof (cpu_base_above n); apply new_bases in Hm as [? | [? | [? | (? & ? & ?)]]];
  change EXT_IO_BASE with 0x40000000 in *; change align with 4096 in *;
  change DEFAULT_RSTVEC with 0x1000 in *; change DEBUG_START with 0x100 in *; lia.

(** The regions of the map. *)
Lemma debug_region a : DEBUG_START <= a < DEFAULT_RSTVEC -> bus_find (u64 a) b = Some (DebugModule, a - DEBUG_START).
Proof using room.
  intros Ha. apply (bus_find_between b a _ DebugModule new_bus_ok).
  - apply new_bus_mapped. by right; right; left.
  - change DEBUG_START with 0x100 in *. change DEFAULT_RSTVEC with 0x1000 in *. lia.
  - intros base dev Hm ?. bases Hm.
Qed.
Lemma rom_region a : DEFAULT_RSTVEC <= a < EXT_IO_BASE -> bus_find (u64 a) b = Some (BootRom, a - DEFAULT_RSTVEC).
Proof using room.
  intros Ha. apply (bus_find_between b a _ BootRom new_bus_ok).
  - apply new_bus_mapped. by left.
  - change DEFAULT_RSTVEC with 0x1000 in *. change EXT_IO_BASE with 0x40000000 in *. lia.
  - intros base dev Hm ?. bases Hm.
Qed.
Lemma clock_region a : EXT_IO_BASE <= a < cpu_base n -> a <= 2 ^ 64 -> bus_find (u64 a) b = Some (Rtc, a - EXT_IO_BASE).
Proof using room.
  intros Ha Ha'. apply (bus_find_between b a _ Rtc new_bus_ok).
  - apply new_bus_mapped. by right; left.
  - change EXT_IO_BASE with 0x40000000 in *. lia.
  - intros base dev Hm ?. bases Hm.
Qed.
(** The page of the last hart has no end. *)
Lemma hart_region (i : nat) a :
  (i < n)%nat -> cpu_base n + Z.of_nat i * align <= a <= 2 ^ 64 ->
  a < cpu_base n + (Z.of_nat i + 1) * align \/ n = S i ->
  bus_find (u64 a) b = Some (Hart i, a - (cpu_base n + Z.of_nat i * align)).
Proof using room.
  intros Hi Ha Hend. pose proof (cpu_base_above n) as Hc. apply (bus_find_between b a _ (Hart i) new_bus_ok).
  - apply new_bus_mapped. right; right; right. by exists i.
  - change align with 4096 in *. change EXT_IO_BASE with 0x40000000 in *. lia.
  - intros base dev Hm ?. bases Hm.
Qed.

(** C33: The memory map of a machine: nothing below 0x100; the debug module, the boot ROM from
    0x1000, the real-time clock from 0x40000000, and a page per hart above it, each up to the
    next one and the last to the end.  Address 0 is taken for the end. *)
Theorem memory_map a :
  (0 < n)%nat -> 0 < a <= 2 ^ 64 ->
  bus_find (u64 a) b =
    if a <? DEBUG_START then None
    else if a <? DEFAULT_RSTVEC then Some (DebugModule, a - DEBUG_START)
    else if a <? EXT_IO_BASE then Some (BootRom, a - DEFAULT_RSTVEC)
    else if a <? cpu_base n then Some (Rtc, a - EXT_IO_BASE)
    else let i := Z.min ((a - cpu_base n) / align) (Z.of_nat n - 1) in
         Some (Hart (Z.to_nat i), a - (cpu_base n + i * align)).
Proof using room.
  intros Hn Ha.
  repeat match goal with |- context [?x <? ?y] => destruct (Z.ltb_spec x y) end.
  - pose proof (bus_find_nearest b a new_bus_ok Ha) as N. destruct (bus_find _ b) as [[dev o] |]; [| done].
    destruct N as (base & Hm & ? & _). bases Hm.
  - by apply debug_region.
  - by apply rom_region.
  - apply clock_region; lia.
  - cbv zeta. remember (Z.min _ _) as i eqn:Ei. assert (Hal : 0 < align) by done.
    pose proof (Z.mul_div_le (a - cpu_base n) align Hal).
    pose proof (Z.mul_succ_div_gt (a - cpu_base n) align Hal).
    pose proof (Z.div_pos (a - cpu_base n) align ltac:(lia) Hal).
    rewrite (hart_region (Z.to_nat i) a); rewrite ?Z2Nat.id by lia; [done | ..]; change align with 4096 in *; lia.
Qed.

End map.

(** ** What the bus promises to the harts *)

Lemma copy_from_bytes data addr len :
  0 <= len ->
  Z.of_nat (length (copy_from data addr len)) = len /\ Forall (in_range 8) (copy_from data addr len).
Proof.
  intros Hl. unfold copy_from. rewrite length_fmap, length_seq. split; [lia |].
  apply Forall_fmap, Forall_forall. intros i _. by apply (wrap_range 8).
Qed.

(** A load gives as many bytes as were asked for. *)
Lemma sim_mmio_load_bytes a len w bs :
  0 <= len -> sim_mmio_load a len w = Some bs ->
  Z.of_nat (length bs) = len /\ Forall (in_range 8) bs.
Proof.
  intros Hl. unfold sim_mmio_load, bus_load. case_match; [done |].
  destruct (bus_find a (bus w)) as [[dev o] |]; [| done]. cbn [mbind option_bind].
  destruct dev; cbn [device_load]; unfold debug_load, rtc_load, rom_load; cbv zeta; intros E;
    repeat case_match; simplify_eq; by apply copy_from_bytes.
Qed.

Lemma set_hart_mip_own i v s w s' w' :
  set_hart_mip i v s w = (s', w') -> s' = s <| mip := mip s' |>.
Proof. unfold set_hart_mip. destruct s. case_match; by intros [= <- <-]. Qed.

Lemma update_timers_own n i s w s' w' :
  update_timers n i s w = (s', w') -> s' = s <| mip := mip s' |>.
Proof.
  revert i s w. induction n as [| n IH]; intros i s w; cbn [update_timers].
  { destruct s. by intros [= <- <-]. }
  destruct (set_hart_mip _ _ s w) as [s1 w1] eqn:E. apply set_hart_mip_own in E.
  intros ->%IH. rewrite E. by destruct s, s1.
Qed.

(** A store changes the running hart by its pending interrupts only. *)
Lemma sim_mmio_store_mip a bs s w s' w' :
  sim_mmio_store a bs s w = Some (s', w') -> s' = s <| mip := mip s' |>.
Proof.
  unfold sim_mmio_store, bus_store. case_match; [done |].
  destruct (bus_find a (bus w)) as [[dev o] |]; [| done]. cbn [mbind option_bind].
  destruct dev as [| | i |]; cbn [device_store]; [| | | done].
  - destruct (debug_store o bs w); [| done]. cbn. destruct s. by intros [= <- <-].
  - unfold rtc_store. case_match; [done |]. intros [= E]. by eapply update_timers_own.
  - unfold hart_store. case_match; [| done]. intros [= E]. by eapply set_hart_mip_own.
Qed.

(** ** The clock *)

Lemma bytes_to_of n v : bytes_to (bytes_of n v) = wrap (8 * Z.of_nat n) v.
Proof.
  revert v. induction n as [| n IH]; intros v; cbn [bytes_of bytes_to].
  { unfold wrap. by rewrite Z.mod_1_r. }
  rewrite IH, shr_div by lia. change (2 ^ 8) with 256. unfold wrap.
  replace (8 * Z.of_nat (S n)) with (8 + 8 * Z.of_nat n) by lia.
  rewrite Z.pow_add_r by lia. change (2 ^ 8) with 256.
  pose proof (pow2_pos (8 * Z.of_nat n) ltac:(lia)).
  rewrite Z.rem_mul_r, shl_mul, Z.lor_comm by lia. change (2 ^ 8) with 256.
  rewrite (lor_add _ _ 8); [lia | lia | by rewrite Z.mod_mul | apply Z.mod_pos_bound; lia].
Qed.

Lemma length_bytes_of_regs regs : length (bytes_of_regs regs) = (8 * length regs)%nat.
Proof.
  induction regs as [| r regs IH]; [done |].
  change (bytes_of_regs (r :: regs)) with (bytes_of 8 r ++ bytes_of_regs regs).
  rewrite length_app, IH. cbn [bytes_of length]. lia.
Qed.

Lemma regs_of_bytes_of regs :
  Forall (in_range 64) regs -> regs_of_bytes (length regs) (bytes_of_regs regs) = regs.
Proof.
  induction 1 as [| r regs Hr Hf IH]; [done |]. cbn [length regs_of_bytes].
  change (bytes_of_regs (r :: regs)) with (bytes_of 8 r ++ bytes_of_regs regs).
  rewrite take_app_length', drop_app_length', bytes_to_of, IH by done. f_equal. by apply wrap_small.
Qed.

(** A register is written. *)
Lemma write_register regs k v :
  Forall (in_range 64) regs -> (k < length regs)%nat -> in_range 64 v ->
  regs_of_bytes (length regs) (copy_to (bytes_of_regs regs) (8 * Z.of_nat k) (bytes_of 8 v)) =
  <[k := v]> regs.
Proof.
  intros Hf. revert k. induction Hf as [| r regs Hr Hf IH]; intros k Hk Hv; cbn [length] in Hk; [lia |].
  change (bytes_of_regs (r :: regs)) with (bytes_of 8 r ++ bytes_of_regs regs).
  cbn [length regs_of_bytes]. unfold copy_to. destruct k as [| k].
  - change (Z.to_nat (8 * Z.of_nat 0)) with 0%nat. cbn [take app insert list_insert].
    rewrite Nat.add_0_l, (drop_app_length' (bytes_of 8 r)) by done.
    rewrite take_0. cbn [app].
    rewrite take_app_length', drop_app_length', bytes_to_of, regs_of_bytes_of by done.
    f_equal. by apply wrap_small.
  - replace (Z.to_nat (8 * Z.of_nat (S k))) with (length (bytes_of 8 r) + Z.to_nat (8 * Z.of_nat k))%nat
      by (cbn [bytes_of length]; lia).
    rewrite take_app_add, <- Nat.add_assoc, drop_app_add. rewrite <- app_assoc.
    rewrite take_app_length', drop_app_length', bytes_to_of by done.
    rewrite (wrap_small _ r) by done. cbn [insert list_insert]. f_equal. apply IH; [lia | done].
Qed.

(** A register is read. *)
Lemma read_register regs k :
  (k < length regs)%nat ->
  copy_from (bytes_of_regs regs) (8 * Z.of_nat k) 8 = bytes_of 8 (default 0 (regs !! k)).
Proof.
  intros Hk. unfold copy_from. change (Z.to_nat 8) with 8%nat.
  replace (Z.to_nat (8 * Z.of_nat k)) with (8 * k)%nat by lia. revert k Hk.
  induction regs as [| r regs IH]; intros k Hk; cbn [length] in Hk; [lia |].
  change (bytes_of_regs (r :: regs)) with (bytes_of 8 r ++ bytes_of_regs regs). destruct k as [| k].
  - change (8 * 0)%nat with 0%nat. cbn -[wrap Z.shiftr].
    by rewrite !wrap_idemp by lia.
  - change ((r :: regs) !! S k) with (regs !! k). rewrite <- (IH k) by lia.
    replace (8 * S k)%nat with (8 + 8 * k)%nat by lia.
    rewrite <- (fmap_add_seq 8), <- list_fmap_compose. apply list_fmap_ext. intros _ i _.
    done.
Qed.

(** ** Interrupts *)

Lemma set_hart_mip_spec i v s w s' w' :
  (i < length (mips w))%nat -> set_hart_mip i v s w = (s', w') ->
  (forall j, hart_mip j s' w' = if bool_decide (j = i) then v else hart_mip j s w) /\
  w' = with_mips (mips w') w /\ length (mips w') = length (mips w).
Proof.
  intros Hi. unfold set_hart_mip, hart_mip. destruct w. cbn [current mips] in *.
  case_bool_decide as Ec; intros [= <- <-]; (split; [| split; [done |]]).
  - intros j. repeat case_bool_decide; by subst.
  - done.
  - intros j. cbn. repeat case_bool_decide; subst; try done.
    + by rewrite list_lookup_insert_eq.
    + by rewrite list_lookup_insert_ne.
  - cbn. apply length_insert.
Qed.

Lemma update_timers_spec n i s w s' w' :
  (i + n <= length (mips w))%nat -> update_timers n i s w = (s', w') ->
  (forall j, hart_mip j s' w' =
     if bool_decide (i <= j < i + n)%nat
     then timer_mip (default 0 (rtc_regs w !! 0%nat)) (default 0 (rtc_regs w !! S j)) (hart_mip j s w)
     else hart_mip j s w) /\
  w' = with_mips (mips w') w /\ length (mips w') = length (mips w).
Proof.
  revert i s w. induction n as [| n IH]; intros i s w Hn; cbn [update_timers].
  { intros [= <- <-]. split; [| by destruct w]. intros j. case_bool_decide; [lia | done]. }
  destruct (set_hart_mip i _ s w) as [s1 w1] eqn:E.
  destruct (set_hart_mip_spec i _ s w s1 w1 ltac:(lia) E) as (M1 & E1 & L1). intros E2.
  assert (R : rtc_regs w1 = rtc_regs w) by by rewrite E1.
  destruct (IH (S i) s1 w1 ltac:(lia) E2) as (M2 & E2' & L2).
  split; [| split; [rewrite E2', E1; by destruct w | lia]].
  intros j. rewrite M2, R, M1. repeat case_bool_decide; subst; done || lia.
Qed.

(** Bit 7 of [mip], the timer interrupt of machine mode, as the comparison says. *)
Lemma timer_mip_testbit time timecmp v i :
  0 <= i ->
  Z.testbit (timer_mip time timecmp v) i = if i =? 7 then timecmp <=? time else Z.testbit v i.
Proof.
  intros Hi. unfold timer_mip. change MIP_MTIP with (2 ^ 7).
  destruct (Z.leb_spec timecmp time); rewrite ?Z.lor_spec, Z.land_spec, Z.lnot_spec, Z.pow2_bits_eqb by lia;
    rewrite (Z.eqb_sym 7 i); destruct (Z.eqb_spec i 7); cbn; by rewrite ?andb_false_r, ?orb_true_r,
    ?andb_true_r, ?orb_false_r.
Qed.

Lemma cpu_base_size n : EXT_IO_BASE + 8 * Z.of_nat (S n) <= cpu_base n.
Proof.
  unfold cpu_base. change align with 4096.
  pose proof (Z.mul_succ_div_gt (Z.of_nat (S n) * 8 - 1) 4096 ltac:(lia)). lia.
Qed.

Section devices.
Variables (memsz : Z) (isa_strings : list (list Z)).
Let n := length isa_strings.
Hypothesis harts : (0 < n)%nat.
Hypothesis room : cpu_base n + Z.of_nat n * align <= 2 ^ 64.

(** The devices of a machine with [n] harts, in any state they reach. *)
Record platform_ok (w : platform) : Prop := {
  po_bus : bus w = bus (new_platform memsz isa_strings);
  po_regs : length (rtc_regs w) = S n /\ Forall (in_range 64) (rtc_regs w);
  po_mips : length (mips w) = n
}.

(** The timer interrupt of every hart is pending when its time has come; its other
    interrupts are as before. *)
Definition timers_updated (s : state_t) (w : platform) (s' : state_t) (w' : platform) : Prop :=
  forall i b, (i < n)%nat -> 0 <= b ->
    Z.testbit (hart_mip i s' w') b =
    if b =? 7 then default 0 (rtc_regs w' !! S i) <=? default 0 (rtc_regs w' !! 0%nat)
    else Z.testbit (hart_mip i s w) b.

Lemma platform_ok_mips w l : platform_ok w -> length l = n -> platform_ok (with_mips l w).
Proof. intros [] ?. by split. Qed.
Lemma platform_ok_rtc w regs :
  platform_ok w -> length regs = S n -> Forall (in_range 64) regs -> platform_ok (with_rtc regs w).
Proof. intros [] ? ?. by split. Qed.

Lemma hart_mip_rtc i s w regs : hart_mip i s (with_rtc regs w) = hart_mip i s w.
Proof. done. Qed.

Lemma rtc_increment_spec inc s w s' w' :
  platform_ok w -> rtc_increment inc s w = (s', w') ->
  platform_ok w' /\ timers_updated s w s' w' /\
  rtc_regs w' = <[0%nat := u64 (default 0 (rtc_regs w !! 0%nat) + inc)]> (rtc_regs w).
Proof using.
  clear harts room. intros Hw E. unfold rtc_increment in E. set (w1 := with_rtc _ w) in *.
  destruct (po_regs w Hw) as [Lr Fr]. pose proof (po_mips w Hw) as Lm.
  assert (Hw1 : platform_ok w1).
  { apply platform_ok_rtc; [done | by rewrite length_insert |]. apply Forall_insert; [done |].
    by apply (wrap_range 64). }
  destruct (update_timers_spec (length (mips w1)) 0 s w1 s' w' ltac:(lia) E) as (M & E' & L).
  assert (R : rtc_regs w' = rtc_regs w1) by by rewrite E'.
  split; [rewrite E'; apply platform_ok_mips; [done | cbn in L; lia] |]. split; [| by rewrite R].
  intros i b Hi Hb. rewrite M, bool_decide_eq_true_2 by (cbn; lia). rewrite timer_mip_testbit by done.
  by rewrite R.
Qed.

Lemma sim_store_at a bytes s w dev off :
  platform_ok w -> 0 < a -> a + Z.of_nat (length bytes) < 2 ^ 64 ->
  bus_find (u64 a) (bus (new_platform memsz isa_strings)) = Some (dev, off) ->
  sim_mmio_store a bytes s w = device_store dev off bytes s w.
Proof using.
  clear harts room. intros Hw Ha Hl E. unfold sim_mmio_store, bus_store. rewrite (wrap_small 64 (_ + _)) by lia.
  destruct (Z.ltb_spec (a + Z.of_nat (length bytes)) a); [lia |].
  rewrite (wrap_small 64 a) in E by lia. by rewrite (po_bus w Hw), E.
Qed.

Lemma clock_at off :
  0 <= off < 8 * Z.of_nat (S n) ->
  bus_find (u64 (EXT_IO_BASE + off)) (bus (new_platform memsz isa_strings)) = Some (Rtc, off).
Proof using harts room.
  intros Ho. pose proof (cpu_base_size n) as Hc. pose proof room as R. pose proof (cpu_base_above n) as Hb.
  change align with 4096 in R. fold n in R.
  rewrite (clock_region memsz isa_strings room) by (fold n; lia). do 2 f_equal. lia.
Qed.

Lemma hart_at k off :
  (k < n)%nat -> 0 <= off < align ->
  bus_find (u64 (cpu_base n + Z.of_nat k * align + off)) (bus (new_platform memsz isa_strings)) =
  Some (Hart k, off).
Proof using harts room.
  intros Hk Ho. pose proof (cpu_base_above n) as Hc. pose proof room as R. fold n in R.
  change align with 4096 in *. change EXT_IO_BASE with 0x40000000 in *.
  rewrite (hart_region memsz isa_strings room k) by (fold n; change align with 4096; lia).
  do 2 f_equal. change align with 4096. fold n. lia.
Qed.

Lemma clock_read k w :
  platform_ok w -> (k <= n)%nat ->
  sim_mmio_load (EXT_IO_BASE + 8 * Z.of_nat k) 8 w =
  Some (bytes_of 8 (default 0 (rtc_regs w !! k))).
Proof using harts room.
  intros Hw Hk. pose proof (cpu_base_size n) as Hc. destruct (po_regs w Hw) as [Lr _].
  pose proof (clock_at (8 * Z.of_nat k) ltac:(lia)) as A. pose proof room as R.
  change align with 4096 in R. change EXT_IO_BASE with 0x40000000 in *.
  unfold sim_mmio_load, bus_load. rewrite (wrap_small 64 (_ + 8)) by lia.
  rewrite (proj2 (Z.ltb_ge _ _)) by lia. rewrite (wrap_small 64) in A by lia.
  rewrite (po_bus w Hw), A. cbn [mbind option_bind device_load].
  unfold rtc_load, rtc_size. rewrite Lr, !(wrap_small 64) by lia.
  rewrite (proj2 (Z.ltb_ge _ _)) by lia. f_equal. by apply read_register; lia.
Qed.

Lemma clock_write k v s w :
  platform_ok w -> (k < n)%nat -> in_range 64 v ->
  exists s' w', sim_mmio_store (EXT_IO_BASE + 8 * Z.of_nat (S k)) (bytes_of 8 v) s w = Some (s', w') /\
    platform_ok w' /\ timers_updated s w s' w' /\ rtc_regs w' = <[S k := v]> (rtc_regs w).
Proof using harts room.
  intros Hw Hk Hv. pose proof (cpu_base_size n) as Hc. destruct (po_regs w Hw) as [Lr Fr].
  pose proof (clock_at (8 * Z.of_nat (S k)) ltac:(lia)) as A. pose proof room as R.
  change align with 4096 in R.
  erewrite sim_store_at; [| exact Hw | change EXT_IO_BASE with 0x40000000 in *; cbn [bytes_of length]; lia | change EXT_IO_BASE with 0x40000000 in *; cbn [bytes_of length]; lia | exact (A)].
  cbn [device_store]. unfold rtc_store, rtc_size. rewrite Lr.
  change (length (bytes_of 8 v)) with 8%nat. change EXT_IO_BASE with 0x40000000 in *.
  rewrite !(wrap_small 64) by lia.
  rewrite (proj2 (Z.ltb_ge _ _)), (proj2 (Z.ltb_ge _ 8)) by lia. cbn [orb].
  rewrite <- Lr, write_register by (done || lia).
  assert (Hw1 : platform_ok (with_rtc (<[S k := v]> (rtc_regs w)) w)).
  { apply platform_ok_rtc; [done | by rewrite length_insert | by apply Forall_insert]. }
  destruct (rtc_increment 0 s _) as [s' w'] eqn:E.
  destruct (rtc_increment_spec 0 s _ s' w' Hw1 E) as (Hw' & T & E').
  exists s', w'. split; [done |]. split; [done |]. split; [exact T |]. rewrite E'. cbn [with_rtc rtc_regs].
  rewrite list_lookup_insert_ne, Z.add_0_r by done.
  destruct (rtc_regs w) as [| time regs]; [done |]. cbn. apply Forall_cons in Fr as [Ft _].
  by rewrite (wrap_small 64 time) by done.
Qed.

(** The clock itself is read-only. *)
Lemma clock_read_only off bytes s w :
  platform_ok w -> 0 <= off < 8 -> Z.of_nat (length bytes) <= 8 ->
  sim_mmio_store (EXT_IO_BASE + off) bytes s w = None.
Proof using harts room.
  intros Hw Ho Hl. pose proof (cpu_base_size n) as Hc. pose proof room as R. change align with 4096 in R.
  erewrite sim_store_at; [| exact Hw | change EXT_IO_BASE with 0x40000000 in *; lia | change EXT_IO_BASE with 0x40000000 in *; lia | exact (clock_at off ltac:(lia))].
  cbn [device_store]. unfold rtc_store. rewrite (proj2 (Z.ltb_lt off 8)), orb_true_r by lia. done.
Qed.

Lemma ipi_write k v s w :
  platform_ok w -> (k < n)%nat ->
  exists s' w', sim_mmio_store (cpu_base n + Z.of_nat k * align) (bytes_of 4 v) s w = Some (s', w') /\
    platform_ok w' /\ rtc_regs w' = rtc_regs w /\
    forall i b, (i < n)%nat -> 0 <= b ->
      Z.testbit (hart_mip i s' w') b =
      if bool_decide (i = k) && (b =? 3) then Z.testbit v 0 else Z.testbit (hart_mip i s w) b.
Proof using harts room.
  intros Hw Hk. pose proof (hart_at k 0 Hk ltac:(done)) as A. rewrite Z.add_0_r in A.
  pose proof (cpu_base_above n) as Hc. pose proof room as R.
  erewrite sim_store_at; [| exact Hw | change EXT_IO_BASE with 0x40000000 in *; change align with 4096 in *; cbn [bytes_of length]; lia | change EXT_IO_BASE with 0x40000000 in *; change align with 4096 in *; cbn [bytes_of length]; lia | exact (A)].
  cbn [device_store]. unfold hart_store. rewrite Z.eqb_refl.
  destruct (set_hart_mip k _ s w) as [s' w'] eqn:E.
  destruct (set_hart_mip_spec k _ s w s' w' ltac:(rewrite (po_mips w Hw); done) E) as (M & E' & L).
  exists s', w'. split; [done |].
  split; [rewrite E'; apply platform_ok_mips; [done | by rewrite L, (po_mips w Hw)] |].
  split; [by rewrite E' |]. intros i b Hi Hb. rewrite M. case_bool_decide; [subst i | done].
  change MIP_MSIP with (2 ^ 3).
  change (default 0 (bytes_of 4 v !! 0%nat)) with (u8 v).
  assert (Ev : z2b (u8 v .& 1) = Z.testbit v 0).
  { change 1 with (Z.ones 1). unfold z2b. rewrite Z.land_ones, <- Z.bit0_mod by lia.
    rewrite wrap_testbit by lia. by destruct (Z.testbit v 0). }
  rewrite Ev. destruct (Z.testbit v 0);
    rewrite ?Z.lor_spec, Z.land_spec, Z.lnot_spec, Z.pow2_bits_eqb by lia;
    rewrite (Z.eqb_sym 3 b); destruct (Z.eqb_spec b 3); cbn; by rewrite ?andb_false_r, ?orb_true_r,
      ?andb_true_r, ?orb_false_r.
Qed.

(** C22: The devices a guest uses to be interrupted.  It reads the clock and the comparison
    registers at their addresses; writing the comparison register of a hart sets it and
    nothing else, and the timer interrupt of every hart then says whether its time has come,
    as it does after every tick of the clock, which the guest cannot write; a word written to
    the page of a hart raises or clears the software interrupt of that hart alone. *)
Theorem devices_correct s w :
  platform_ok w ->
  (forall k, (k <= n)%nat -> sim_mmio_load (EXT_IO_BASE + 8 * Z.of_nat k) 8 w =
     Some (bytes_of 8 (default 0 (rtc_regs w !! k)))) /\
  (forall k v, (k < n)%nat -> in_range 64 v -> exists s' w',
     sim_mmio_store (EXT_IO_BASE + 8 * Z.of_nat (S k)) (bytes_of 8 v) s w = Some (s', w') /\
     platform_ok w' /\ timers_updated s w s' w' /\ rtc_regs w' = <[S k := v]> (rtc_regs w)) /\
  (forall off bytes, 0 <= off < 8 -> Z.of_nat (length bytes) <= 8 ->
     sim_mmio_store (EXT_IO_BASE + off) bytes s w = None) /\
  (forall inc s' w', rtc_increment inc s w = (s', w') ->
     platform_ok w' /\ timers_updated s w s' w' /\
     rtc_regs w' = <[0%nat := u64 (default 0 (rtc_regs w !! 0%nat) + inc)]> (rtc_regs w)) /\
  (forall k v, (k < n)%nat -> exists s' w',
     sim_mmio_store (cpu_base n + Z.of_nat k * align) (bytes_of 4 v) s w = Some (s', w') /\
     platform_ok w' /\ rtc_regs w' = rtc_regs w /\
     forall i b, (i < n)%nat -> 0 <= b ->
       Z.testbit (hart_mip i s' w') b =
       if bool_decide (i = k) && (b =? 3) then Z.testbit v 0 else Z.testbit (hart_mip i s w) b).
Proof using harts room.
  intros Hw. split; [intros; by apply clock_read |]. split; [intros; by apply clock_write |].
  split; [intros; by apply clock_read_only |]. split; [intros; by apply rtc_increment_spec |].
  intros; by apply ipi_write.
Qed.

Lemma new_platform_ok : platform_ok (new_platform memsz isa_strings).
Proof using harts.
  clear room. split; [done | split | by apply length_replicate].
  - cbn [rtc_regs new_platform]. by rewrite length_replicate.
  - cbn [rtc_regs new_platform]. by apply Forall_replicate.
Qed.

End devices.

(** Two harts of one megabyte; hart 1 is running. *)
Definition two_harts : platform := with_current 1 (new_platform 0x100000 [text "rv64i"; text "rv64i"]).

Lemma two_harts_ok : platform_ok 0x100000 [text "rv64i"; text "rv64i"] two_harts.
Proof.
  destruct (new_platform_ok 0x100000 [text "rv64i"; text "rv64i"]); [cbn; lia |].
  by split.
Defined.

Lemma memory_map_witness :
  bus_find (u64 0x40001004) (bus (new_platform 0x100000 [text "rv64i"; text "rv64i"])) = Some (Hart 0, 4) /\
  bus_find (u64 0x1000) (bus (new_platform 0x100000 [text "rv64i"; text "rv64i"])) = Some (BootRom, 0).
Proof.
  split; (rewrite (memory_map 0x100000 [text "rv64i"; text "rv64i"]); [by vm_compute | by vm_compute | cbn; lia | lia]).
Defined.

(** The hart sets its own time, which has come, and interrupts hart 0. *)
Lemma devices_correct_witness :
  exists s' w', sim_mmio_store 0x40000010 (bytes_of 8 0) state_reset two_harts = Some (s', w') /\
    Z.testbit (hart_mip 1 s' w') 7 = true.
Proof.
  destruct (devices_correct 0x100000 [text "rv64i"; text "rv64i"] ltac:(cbn; lia) ltac:(by vm_compute)
    state_reset two_harts two_harts_ok) as (_ & W & _).
  destruct (W 1%nat 0 ltac:(cbn; lia) ltac:(by split)) as (s' & w' & E & _ & T & R).
  exists s', w'. split; [exact E |]. rewrite T by (cbn; lia). by rewrite R.
Defined.
