(* ===== verification/Sim.v ===== *)
(** riscv/sim.h and sim.cc: [sim_t], the whole simulated machine.  Its harts share the memory
    and the devices and run in turn, [INTERLEAVE] instructions each; after every round the
    real-time clock ticks.  [step] returns to the host whenever a hart has had its turn; what
    the host does then, the front-end server's library, is a parameter. *)
From Stdlib Require Import Ascii String.
From S2P Require Import Prelude SoftPrim FpFlags Encoding Decode Decoder Machine Csr Isa.
From S2P Require Import Mmu Insns Safe InsnProps Alu FetchProps Step StepProps OrdMap Devices.

Definition INTERLEAVE : Z := 5000.
Definition INSNS_PER_RTC_TICK : Z := 100.

Record hart := HartParts { h_state : state_t; h_proc : processor_t; h_mmu : mmu_t }.

(** Between two turns [mip] of every hart is with the devices, and the copy in its state is
    not used. *)
Record sim_t := SimParts {
  procs : list hart;
  sim_fp : fpstate;
  sim_mem : gmap Z Z;
  sim_memsz : Z;
  devices : platform;
  current_step : Z;
  current_proc : nat
}.

(** A hart with all it sees. *)
Definition machine_of (i : nat) (h : hart) (s : sim_t) : machine platform :=
  Machine ((h_state h) <| mip := default 0 (mips (devices s) !! i) |>) (h_proc h) (h_mmu h)
    (sim_fp s) (sim_mem s) (sim_memsz s) (with_current i (devices s)).

Definition put_back (i : nat) (m : machine platform) (s : sim_t) : sim_t :=
  SimParts (<[i := HartParts (state m) (proc m) (Machine.mmu m)]> (procs s)) (fp m) (mem m) (memsz m)
    (with_mips (<[i := mip (state m)]> (mips (world m))) (world m)) (current_step s) (current_proc s).

Definition set_position (st : Z) (p : nat) (s : sim_t) : sim_t :=
  SimParts (procs s) (sim_fp s) (sim_mem s) (sim_memsz s) (devices s) st p.
Definition set_devices (w : platform) (s : sim_t) : sim_t :=
  SimParts (procs s) (sim_fp s) (sim_mem s) (sim_memsz s) w (current_step s) (current_proc s).
Definition yield_hart (i : nat) (s : sim_t) : sim_t :=
  SimParts (alter (fun h => HartParts (yield_load_reservation (h_state h)) (h_proc h) (h_mmu h)) i (procs s))
    (sim_fp s) (sim_mem s) (sim_memsz s) (devices s) (current_step s) (current_proc s).

(** [rtc->increment], when no hart is running. *)
Definition tick (s : sim_t) : sim_t :=
  let w := with_current (List.length (procs s)) (devices s) in
  set_devices (snd (rtc_increment (INTERLEAVE / INSNS_PER_RTC_TICK) state_reset w)) s.

Section sim.
(** The host address of [fetch_temp], and what the host does when it has its turn. *)
Variable temp : Z.
Variable host : sim_t -> sim_t.

#[local] Instance platform_of_sim : Platform platform := sim_platform temp.

(** ** [sim_t::step]

    [Running]: the fuel of a hart's [step] does not suffice. *)
Inductive sim_result := Done (s : sim_t) | Failed (e : exn) | Running.

(** The turn of the current hart is over. *)
Definition next_hart (s : sim_t) : sim_t :=
  let s := yield_hart (current_proc s) s in
  let p := S (current_proc s) in
  let s := if bool_decide (p = List.length (procs s))
           then tick (set_position 0 0 s) else set_position 0 p s in
  host s.

Definition turn_fuel (steps : Z) : nat := Z.to_nat (2 * steps + 1).

Definition sim_turn (steps : Z) (s : sim_t) : sim_result :=
  match procs s !! current_proc s with
  | None => Failed Abort
  | Some h =>
      match step (turn_fuel steps) steps (machine_of (current_proc s) h s) with
      | (Return, m) =>
          let s := put_back (current_proc s) m s in
          let done := current_step s + steps in
          Done (if done =? INTERLEAVE then next_hart s else set_position done (current_proc s) s)
      | (Uncaught e, _) => Failed e
      | (Continue _, _) => Running
      end
  end.

Definition turn_steps (n : Z) (s : sim_t) : Z := Z.min n (INTERLEAVE - current_step s).

(** Every iteration runs an instruction at least: [n] of them suffice. *)
Fixpoint sim_loop (fuel : nat) (n : Z) (s : sim_t) : sim_result :=
  if n <=? 0 then Done s
  else
    match fuel with
    | O => Running
    | S fuel =>
        let steps := turn_steps n s in
        match sim_turn steps s with
        | Done s => sim_loop fuel (n - steps) s
        | r => r
        end
    end.
Definition sim_step (n : Z) (s : sim_t) : sim_result := sim_loop (Z.to_nat n) n s.

(** ** Construction *)

(** [isa_string] of [processor_t::parse_isa_string]. *)
Definition isa_string (str : chars) : option chars :=
  let p := tolower <$> str in
  let '(width, p) :=
    match strip_prefix (list_ascii_of_string "rv32") p with
    | Some p => (list_ascii_of_string "32", p)
    | None =>
        match strip_prefix (list_ascii_of_string "rv64") p with
        | Some p => (list_ascii_of_string "64", p)
        | None => (list_ascii_of_string "64", default p (strip_prefix (list_ascii_of_string "rv") p))
        end
    end in
  p ← match p with
      | [] => Some all_subsets
      | c :: rest =>
          if bool_decide (c = "g"%char) then Some (list_ascii_of_string "imafd" ++ rest)
          else if bool_decide (c = "i"%char) then Some p
          else None
      end;
  Some (list_ascii_of_string "rv" ++ width ++ p).

Variable find_extension : chars -> option (list insn_desc_t).

Fixpoint new_harts (n i : nat) (isa : chars) (halted : bool) (size : Z) (w : platform)
    : option (list hart) :=
  match n with
  | O => Some []
  | S n =>
      m ← new_processor find_extension isa (Z.of_nat i) halted size w;
      hs ← new_harts n (S i) isa halted size w;
      Some (HartParts (state m) (proc m) (Machine.mmu m) :: hs)
  end.

(** [size] is the size of the memory, after the constructor has shrunk it until its
    allocation succeeds. *)
Definition new_sim (isa : chars) (nprocs : nat) (size : Z) (halted : bool) : option sim_t :=
  let n := Nat.max nprocs 1 in
  name ← isa_string isa;
  let w := new_platform size (replicate n ((fun c => Z.of_nat (nat_of_ascii c)) <$> name)) in
  hs ← new_harts n 0 isa halted size w;
  Some (SimParts hs softfloat_init ∅ size w 0 0).

(** ** What holds between two turns *)

Variable xl : Z.

Record sim_ok (s : sim_t) : Prop := {
  so_harts : forall i h, procs s !! i = Some h -> hart_ok xl (machine_of i h s);
  so_step : 0 <= current_step s < INTERLEAVE;
  so_proc : (current_proc s < List.length (procs s))%nat
}.

(** The instructions run so far, in the round of the harts. *)
Definition position (s : sim_t) : Z := Z.of_nat (current_proc s) * INTERLEAVE + current_step s.
Definition round (s : sim_t) : Z := Z.of_nat (List.length (procs s)) * INTERLEAVE.

Lemma hart_ok_with_mip (m : machine platform) v w :
  hart_ok xl m ->
  hart_ok (W := platform) xl (Machine ((state m) <| mip := v |>) (proc m) (Machine.mmu m) (fp m) (mem m) (memsz m) w).
Proof.
  intros [Hp Hx [Hs Hr Hf Hd] Hfl Hm HD HI]. split; [done.. | | done | done | done | done].
  split; [destruct Hs; by csr_leaf | done..].
Qed.

(** What one hart does to the memory and the floating-point state leaves another as it
    was. *)
Lemma hart_ok_shared (m m' : machine platform) w :
  hart_ok xl m -> hart_ok xl m' ->
  hart_ok (W := platform) xl (Machine (state m) (proc m) (Machine.mmu m) (fp m') (mem m') (memsz m') w).
Proof. intros [] []. by split. Qed.

Lemma put_back_ok i m s :
  sim_ok s -> hart_ok xl m -> (i < List.length (procs s))%nat -> sim_ok (put_back i m s).
Proof.
  intros [Hh Hs Hp] Hm Hi. split; [| done | cbn; by rewrite length_insert].
  intros j h Hj. cbn [procs put_back] in Hj.
  destruct (decide (i = j)) as [<- |].
  - rewrite list_lookup_insert_eq in Hj by done. injection Hj as <-.
    exact (hart_ok_with_mip m _ _ Hm).
  - rewrite list_lookup_insert_ne in Hj by done.
    pose proof (hart_ok_with_mip _ (default 0 (mips (devices (put_back i m s)) !! j)) (world m) (Hh j h Hj))
      as Hj'.
    exact (hart_ok_shared _ m _ Hj' Hm).
Qed.

Lemma sim_ok_devices s w : sim_ok s -> sim_ok (set_devices w s).
Proof.
  intros [Hh Hs Hp]. split; [| done | done]. intros i h Hi.
  exact (hart_ok_with_mip _ _ _ (Hh i h Hi)).
Qed.

Lemma sim_ok_position s st p :
  sim_ok s -> 0 <= st < INTERLEAVE -> (p < List.length (procs s))%nat -> sim_ok (set_position st p s).
Proof. intros [Hh Hs Hp] ? ?. by split. Qed.

Lemma sim_ok_yield s i : sim_ok s -> sim_ok (yield_hart i s).
Proof.
  intros [Hh Hs Hp]. split; [| done | cbn; by rewrite length_alter]. intros j h Hj. cbn [procs yield_hart] in Hj.
  destruct (decide (i = j)) as [<- |]; [| rewrite list_lookup_alter_ne in Hj by done; by apply Hh].
  rewrite list_lookup_alter_eq in Hj. destruct (procs s !! i) as [h0 |] eqn:E; [| done].
  injection Hj as <-. pose proof (Hh i h0 E) as Hm.
  apply (hart_ok_state xl _ ((yield_load_reservation (h_state h0)) <| mip := default 0 (mips (devices s) !! i) |>))
    in Hm; [exact Hm |].
  destruct Hm as [_ _ [Hc Hx Hf Hd] _ _]. split; [| done..]. destruct Hc. by csr_leaf.
Qed.

(** ** Construction gives a machine that satisfies it *)

Lemma new_processor_shape isa i halted size w (m : machine platform) :
  new_processor find_extension isa i halted size w = Some m ->
  exists o, parse_isa_string find_extension isa = Some o /\ max_xlen (proc m) = io_max_xlen o /\
    decode_state (proc m) = register_base_instructions (io_insns o).
Proof.
  unfold new_processor. intros (o & Ho & Hm)%bind_Some. exists o. split; [done |]. revert Hm.
  case_match eqn:E. case_match; [| done]. intros [= ->].
  unfold processor_reset, mbind, M_bind, modify in E. subst.
  match type of E with set_csr _ _ ?m0 = _ =>
    destruct u; pose proof (set_csr_frame CSR_MSTATUS 0 m0 m E) as F end.
  by destruct F.
Qed.

Lemma new_harts_ok n i isa halted size w hs o :
  parse_isa_string find_extension isa = Some o -> io_insns o = [] -> io_max_xlen o = xl ->
  new_harts n i isa halted size w = Some hs ->
  List.length hs = n /\
  forall j h, hs !! j = Some h -> forall w' v,
    hart_ok (W := platform) xl
      (Machine ((h_state h) <| mip := v |>) (h_proc h) (h_mmu h) softfloat_init ∅ size w').
Proof.
  intros Ho Hi Hx. revert i hs. induction n as [| n IH]; intros i hs; cbn [new_harts].
  { by intros [= <-]. }
  intros (m & Hm & (hs' & Hhs & [= <-])%bind_Some)%bind_Some.
  destruct (IH _ _ Hhs) as [Hl Hok]. split; [cbn; by rewrite Hl |]. intros j h Hj w' v.
  destruct j as [| j]; [| by apply (Hok j)]. injection Hj as <-. cbn [h_state h_proc h_mmu].
  destruct (new_processor_shape _ _ _ _ _ _ Hm) as (o' & Ho' & Ex & Ed).
  assert (o' = o) as -> by congruence.
  rewrite Hi in Ed. pose proof (new_processor_ok _ _ _ _ _ _ _ Hm Ed) as Hok'.
  rewrite Ex, Hx in Hok'. apply (hart_ok_with_mip m v w') in Hok'. destruct Hok'. by split.
Qed.

Lemma new_sim_ok isa nprocs size halted s o :
  parse_isa_string find_extension isa = Some o -> io_insns o = [] -> io_max_xlen o = xl ->
  new_sim isa nprocs size halted = Some s ->
  sim_ok s /\ List.length (procs s) = Nat.max nprocs 1.
Proof.
  intros Ho Hi Hx. unfold new_sim. intros (name & _ & (hs & Hhs & [= <-])%bind_Some)%bind_Some.
  destruct (new_harts_ok _ _ _ _ _ _ _ o Ho Hi Hx Hhs) as [Hl Hok]. split; [| exact Hl].
  split; [| by split | cbn [procs current_proc]; rewrite Hl; lia].
  intros i h Hh. by apply (Hok i).
Qed.

(** ** The scheduler *)

(** The turns of [n] instructions go by the book: the iterations of the harts' own [step]
    start at even addresses and fire no trigger. *)
Fixpoint sim_regular (fuel : nat) (n : Z) (s : sim_t) : bool :=
  if n <=? 0 then true
  else
    match fuel with
    | O => true
    | S fuel =>
        let steps := turn_steps n s in
        match procs s !! current_proc s with
        | None => true
        | Some h => regular_run (turn_fuel steps) steps (machine_of (current_proc s) h s)
        end &&
        match sim_turn steps s with Done s => sim_regular fuel (n - steps) s | _ => true end
    end.

(** What the host may do: anything to the memory and the devices that leaves the harts well
    formed, and nothing to the scheduling. *)
Hypothesis host_ok : forall s, sim_ok s -> sim_ok (host s) /\ position (host s) = position s /\
  List.length (procs (host s)) = List.length (procs s).

Lemma position_small s : sim_ok s -> position s mod round s = position s.
Proof.
  intros [_ Hs Hp]. apply Z.mod_small. unfold position, round, INTERLEAVE in *. nia.
Qed.

Lemma next_hart_ok s :
  sim_ok s ->
  sim_ok (next_hart s) /\ List.length (procs (next_hart s)) = List.length (procs s) /\
  position (next_hart s) = ((Z.of_nat (current_proc s) + 1) * INTERLEAVE) mod round s.
Proof using host_ok.
  intros Hs. pose proof (so_proc s Hs) as Hp. unfold next_hart.
  set (s1 := yield_hart (current_proc s) s).
  assert (Hs1 : sim_ok s1) by by apply sim_ok_yield.
  assert (L1 : List.length (procs s1) = List.length (procs s)) by (cbn; by rewrite length_alter).
  change (current_proc s1) with (current_proc s). 
  match goal with |- context [host ?x] => set (s2 := x) end.
  assert (Hs2 : sim_ok s2 /\ List.length (procs s2) = List.length (procs s) /\
    position s2 = ((Z.of_nat (current_proc s) + 1) * INTERLEAVE) mod round s).
  { unfold s2, round. case_bool_decide as E; rewrite L1 in E.
    - split; [apply sim_ok_devices, sim_ok_position; [done | done | lia] |]. split; [done |].
      change (position _) with 0. rewrite <- E.
      replace (Z.of_nat (S (current_proc s))) with (Z.of_nat (current_proc s) + 1) by lia.
      by rewrite Z.mod_same by (unfold INTERLEAVE; lia).
    - split; [apply sim_ok_position; [done | done | lia] |]. split; [done |].
      change (position _) with (Z.of_nat (S (current_proc s)) * INTERLEAVE + 0).
      rewrite Z.mod_small by (unfold INTERLEAVE; lia). lia. }
  destruct Hs2 as (Hs2 & L2 & P2). destruct (host_ok s2 Hs2) as (? & -> & ->). done.
Qed.

Lemma sim_turn_ok steps s h :
  sim_ok s -> 0 < steps <= INTERLEAVE - current_step s -> procs s !! current_proc s = Some h ->
  regular_run (turn_fuel steps) steps (machine_of (current_proc s) h s) = true ->
  exists s', sim_turn steps s = Done s' /\ sim_ok s' /\
    List.length (procs s') = List.length (procs s) /\
    position s' = (position s + steps) mod round s.
Proof using host_ok.
  intros Hs Hst Eh Hr. pose proof (so_step s Hs) as Hb. pose proof (so_proc s Hs) as Hp.
  unfold sim_turn. rewrite Eh.
  destruct (step_enough (H := platform_of_sim) xl sim_mmio_store_mip
    (fun a len w bs Hl => sim_mmio_load_bytes a len w bs Hl) (turn_fuel steps) steps
    (machine_of (current_proc s) h s)) as (m' & E & Hm').
  { by apply (so_harts s Hs). }
  { unfold INTERLEAVE in *. lia. }
  { unfold turn_fuel. lia. }
  { exact Hr. }
  rewrite E. pose proof (put_back_ok (current_proc s) m' s Hs Hm' Hp) as Hs1.
  set (s1 := put_back _ m' s) in *.
  assert (L1 : List.length (procs s1) = List.length (procs s)) by (cbn; by rewrite length_insert).
  eexists. split; [done |]. change (current_step s1) with (current_step s).
  change (current_proc s1) with (current_proc s).
  destruct (Z.eqb_spec (current_step s + steps) INTERLEAVE) as [Ee |].
  - destruct (next_hart_ok s1 Hs1) as (? & L2 & P2). split; [done |]. split; [by rewrite L2 |].
    rewrite P2. unfold round, position. rewrite L1.
    change (current_proc s1) with (current_proc s). f_equal. lia.
  - split; [apply sim_ok_position; [done | lia | by rewrite L1] |]. split; [done |].
    unfold position, round. cbn [current_step current_proc set_position].
    rewrite Z.mod_small; [lia |]. unfold INTERLEAVE in *. nia.
Qed.

(** C1: [step(n)] of a well-formed machine ends, without an uncaught exception, in a well-formed
    machine: the harts run in turn, each for [INTERLEAVE] instructions, so that the machine is
    [n] instructions further in the round of its harts. *)
Theorem sim_step_total n s :
  sim_ok s -> 0 <= n -> sim_regular (Z.to_nat n) n s = true ->
  exists s', sim_step n s = Done s' /\ sim_ok s' /\
    List.length (procs s') = List.length (procs s) /\
    position s' = (position s + n) mod round s.
Proof using host_ok.
  unfold sim_step. assert (G : forall fuel n s, sim_ok s -> 0 <= n <= Z.of_nat fuel ->
    sim_regular fuel n s = true ->
    exists s', sim_loop fuel n s = Done s' /\ sim_ok s' /\
      List.length (procs s') = List.length (procs s) /\ position s' = (position s + n) mod round s).
  2: { intros Hs Hn Hr. by apply G; [| lia |]. }
  clear n s. intros fuel. induction fuel as [| fuel IH]; intros n s Hs Hn Hr;
    cbn [sim_loop sim_regular] in *;
    (destruct (Z.leb_spec n 0) as [Hz |];
      [assert (n = 0) as -> by lia; exists s; rewrite Z.add_0_r, position_small by done; done |]);
    [lia |].
  destruct (lookup_lt_is_Some_2 (procs s) (current_proc s) (so_proc s Hs)) as [h Eh]. rewrite Eh in Hr.
  apply andb_prop in Hr as [Hr1 Hr2]. pose proof (so_step s Hs).
  assert (Hsteps : 0 < turn_steps n s <= INTERLEAVE - current_step s /\ turn_steps n s <= n)
    by (unfold turn_steps; lia).
  destruct (sim_turn_ok (turn_steps n s) s h Hs (proj1 Hsteps) Eh Hr1) as (s1 & E & Hs1 & L1 & P1).
  rewrite E in Hr2 |- *. destruct (IH (n - turn_steps n s) s1 Hs1 ltac:(lia) Hr2) as (s2 & E2 & Hs2 & L2 & P2).
  exists s2. split; [done |]. split; [done |]. split; [congruence |]. rewrite P2, P1.
  unfold round. rewrite L1. rewrite Zplus_mod_idemp_l. f_equal. lia.
Qed.

End sim.

(** Two harts, close to the end of the turn of the first: it runs two instructions of the boot
    ROM, and so does the other. *)
Definition no_extensions (name : chars) : option (list insn_desc_t) := None.
Definition two_cores : option sim_t := new_sim no_extensions (list_ascii_of_string "rv64i") 2 0x1000 false.

Lemma two_cores_isa :
  match parse_isa_string no_extensions (list_ascii_of_string "rv64i") with
  | Some o => io_insns o = [] /\ io_max_xlen o = 64
  | None => False
  end.
Proof. by vm_compute. Qed.

Lemma two_cores_ok s : two_cores = Some s -> sim_ok 64 s /\ List.length (procs s) = 2%nat.
Proof.
  unfold two_cores. intros E. pose proof two_cores_isa as H. revert H.
  destruct (parse_isa_string no_extensions (list_ascii_of_string "rv64i")) as [o |] eqn:Eo; [| tauto].
  intros [Hi Hx]. by apply (new_sim_ok 0 no_extensions 64 _ 2 0x1000 false s o Eo Hi Hx).
Qed.

Lemma two_cores_regular :
  match two_cores with
  | Some s => sim_regular 0 (fun s => s) (Z.to_nat 4) 4 (set_position 4998 0 s) = true
  | None => False
  end.
Proof. by vm_compute. Qed.

Lemma sim_step_total_witness :
  exists s s', two_cores = Some s /\
    sim_step 0 (fun s => s) 4 (set_position 4998 0 s) = Done s' /\ sim_ok 64 s' /\ position s' = 5002.
Proof.
  pose proof two_cores_regular as Hr. destruct two_cores as [s |] eqn:E; [| tauto].
  destruct (two_cores_ok s E) as [Hs Hl].
  assert (Hs' : sim_ok 64 (set_position 4998 0 s)) by (apply sim_ok_position; [done | done | rewrite Hl; cbn; lia]).
  destruct (sim_step_total 0 (fun s => s) 64 ltac:(done) 4 (set_position 4998 0 s) Hs' ltac:(lia) Hr)
    as (s' & E' & Hok & _ & P).
  exists s, s'. split; [done |]. split; [done |]. split; [done |]. rewrite P.
  unfold round, position. cbn [procs set_position]. rewrite Hl. reflexivity.
Defined.
