(* ===== verification/RingBuffer.v ===== *)
(** riscv/gdbserver.h and gdbserver.cc: [circular_buffer_t], the buffers between the debugger
    and its socket.  The elements are bytes.

    [contents] is the queue the buffer implements; the operations are shown to be those of a
    queue with room for one element less than the array. *)
From S2P Require Import Prelude.

(** [data] is an array of [capacity] elements; the others are positions in it.  They are
    unsigned ints, as the sizes. *)
Record circular_buffer := CircularBuffer {
  rb_data : list Z;
  rb_start : Z;
  rb_end : Z;
  rb_capacity : Z
}.

(** What [new] leaves in the array is not read; it is zero here. *)
Definition new_buffer (capacity : Z) : circular_buffer :=
  CircularBuffer (replicate (Z.to_nat capacity) 0) 0 0 capacity.

Definition rb_size (b : circular_buffer) : Z :=
  if rb_start b <=? rb_end b then u32 (rb_end b - rb_start b)
  else u32 (rb_end b + rb_capacity b - rb_start b).
Definition rb_empty (b : circular_buffer) : bool := rb_start b =? rb_end b.
Definition rb_full (b : circular_buffer) : bool :=
  u32 (rb_end b + 1) mod rb_capacity b =? rb_start b.
Definition rb_entry (b : circular_buffer) (index : Z) : Z :=
  default 0 (rb_data b !! Z.to_nat (u32 (rb_start b + index) mod rb_capacity b)).

Definition contiguous_empty_size (b : circular_buffer) : Z :=
  if rb_start b <=? rb_end b then
    if rb_start b =? 0 then u32 (rb_capacity b - rb_end b - 1) else u32 (rb_capacity b - rb_end b)
  else u32 (rb_start b - rb_end b - 1).
Definition contiguous_data_size (b : circular_buffer) : Z :=
  if rb_start b <=? rb_end b then u32 (rb_end b - rb_start b)
  else u32 (rb_capacity b - rb_start b).

(** The bytes at [contiguous_data()]. *)
Definition contiguous_data (n : Z) (b : circular_buffer) : list Z :=
  take (Z.to_nat n) (drop (Z.to_nat (rb_start b)) (rb_data b)).

(** Bytes written to [contiguous_empty()]. *)
Definition write_contiguous (bytes : list Z) (b : circular_buffer) : circular_buffer :=
  let pos := Z.to_nat (rb_end b) in
  CircularBuffer (take pos (rb_data b) ++ bytes ++ drop (pos + length bytes) (rb_data b))
    (rb_start b) (rb_end b) (rb_capacity b).

(** [None]: the assertion fails. *)
Definition data_added (bytes : Z) (b : circular_buffer) : option circular_buffer :=
  let e := u32 (rb_end b + bytes) in
  if e <=? rb_capacity b then
    Some (CircularBuffer (rb_data b) (rb_start b) (if e =? rb_capacity b then 0 else e) (rb_capacity b))
  else None.

Definition rb_consume (bytes : Z) (b : circular_buffer) : circular_buffer :=
  CircularBuffer (rb_data b) (u32 (rb_start b + bytes) mod rb_capacity b) (rb_end b) (rb_capacity b).

Definition rb_reset (b : circular_buffer) : circular_buffer :=
  CircularBuffer (rb_data b) 0 0 (rb_capacity b).

Definition rb_append (src : list Z) (b : circular_buffer) : option circular_buffer :=
  let count := Z.of_nat (length src) in
  let copy := Z.min count (contiguous_empty_size b) in
  b ← data_added copy (write_contiguous (take (Z.to_nat copy) src) b);
  let count := count - copy in
  if 0 <? count then
    if count <? contiguous_empty_size b
    then data_added count (write_contiguous (drop (Z.to_nat copy) src) b)
    else None
  else Some b.

(** ** The queue *)

Record buffer_ok (b : circular_buffer) : Prop := {
  bf_capacity : 1 < rb_capacity b < 2 ^ 31;
  bf_data : Z.of_nat (length (rb_data b)) = rb_capacity b;
  bf_start : 0 <= rb_start b < rb_capacity b;
  bf_end : 0 <= rb_end b < rb_capacity b
}.

Definition contents (b : circular_buffer) : list Z :=
  let s := Z.to_nat (rb_start b) in
  let e := Z.to_nat (rb_end b) in
  if rb_start b <=? rb_end b then take (e - s) (drop s (rb_data b))
  else drop s (rb_data b) ++ take e (rb_data b).

(** How much more the queue can hold. *)
Definition room (b : circular_buffer) : Z := rb_capacity b - 1 - Z.of_nat (length (contents b)).

Ltac buffer b :=
  let C := fresh "C" in let D := fresh "D" in let S := fresh "S" in let E := fresh "E" in
  destruct b; intros [C D S E]; cbn [rb_data rb_start rb_end rb_capacity] in *.

Lemma new_buffer_ok capacity : 1 < capacity < 2 ^ 31 -> buffer_ok (new_buffer capacity).
Proof. intros. split; cbn; rewrite ?length_replicate; lia. Qed.

Lemma contents_new capacity : contents (new_buffer capacity) = [].
Proof. done. Qed.

Lemma contents_reset b : contents (rb_reset b) = [].
Proof. done. Qed.

Lemma reset_ok b : buffer_ok b -> buffer_ok (rb_reset b).
Proof. intros []. split; cbn; lia. Qed.

Lemma length_contents b : buffer_ok b -> Z.of_nat (length (contents b)) = rb_size b.
Proof.
  buffer b. unfold contents, rb_size. cbn. case_match; cbn.
  - rewrite length_take, length_drop, wrap_small by lia. lia.
  - rewrite length_app, length_take, length_drop, wrap_small by lia. lia.
Qed.

Lemma empty_contents b : buffer_ok b -> rb_empty b = bool_decide (contents b = []).
Proof.
  intros Hb. pose proof (length_contents b Hb) as L. destruct Hb as [C D S E].
  unfold rb_empty, rb_size in *. destruct (Z.eqb_spec (rb_start b) (rb_end b)) as [Es | Es].
  - symmetry. apply bool_decide_eq_true_2. unfold contents. rewrite Es, Z.leb_refl, Nat.sub_diag. done.
  - symmetry. apply bool_decide_eq_false_2. intros H. rewrite H in L. cbn in L.
    destruct (Z.leb_spec (rb_start b) (rb_end b)); rewrite wrap_small in L; lia.
Qed.

Lemma full_room b : buffer_ok b -> rb_full b = bool_decide (room b = 0).
Proof.
  intros Hb. pose proof (length_contents b Hb) as L. destruct Hb as [C D S E].
  unfold rb_full, room. rewrite L. unfold rb_size.
  rewrite (wrap_small 32) by lia.
  assert (M : (rb_end b + 1) mod rb_capacity b = if rb_end b + 1 =? rb_capacity b then 0 else rb_end b + 1).
  { destruct (Z.eqb_spec (rb_end b + 1) (rb_capacity b)) as [-> |]; [by apply Z.mod_same; lia |].
    apply Z.mod_small. lia. }
  rewrite M.
  destruct (Z.eqb_spec (rb_end b + 1) (rb_capacity b)), (Z.leb_spec (rb_start b) (rb_end b));
    rewrite wrap_small by lia; case_bool_decide; lia.
Qed.

Lemma room_nonneg b : buffer_ok b -> 0 <= room b.
Proof.
  intros Hb. unfold room. rewrite length_contents by done. destruct Hb. unfold rb_size.
  case_match; rewrite wrap_small; lia.
Qed.

Lemma entry_contents b i :
  buffer_ok b -> 0 <= i < Z.of_nat (length (contents b)) ->
  rb_entry b i = default 0 (contents b !! Z.to_nat i).
Proof.
  intros Hb Hi. rewrite length_contents in Hi by done. revert Hb Hi. buffer b. unfold rb_size, rb_entry, contents. cbn.
  destruct (Z.leb_spec rb_start0 rb_end0) as [Hs | Hs]; rewrite (wrap_small 32) by lia; intros Hi;
    rewrite (wrap_small 32) by lia.
  - rewrite Z.mod_small by lia. rewrite lookup_take_lt, lookup_drop by lia. f_equal. f_equal. lia.
  - destruct (Z.ltb_spec (rb_start0 + i) rb_capacity0).
    + rewrite Z.mod_small by lia. rewrite lookup_app_l by (rewrite length_drop; lia).
      rewrite lookup_drop. f_equal. f_equal. lia.
    + assert ((rb_start0 + i) mod rb_capacity0 = rb_start0 + i - rb_capacity0) as ->
        by (symmetry; apply (Z.mod_unique _ _ 1); lia).
      rewrite lookup_app_r by (rewrite length_drop; lia). rewrite length_drop, lookup_take_lt by lia.
      f_equal. f_equal. lia.
Qed.

Lemma consume_spec n b :
  buffer_ok b -> 0 <= n <= Z.of_nat (length (contents b)) ->
  buffer_ok (rb_consume n b) /\ contents (rb_consume n b) = drop (Z.to_nat n) (contents b) /\
  rb_capacity (rb_consume n b) = rb_capacity b.
Proof.
  intros Hb Hi. rewrite length_contents in Hi by done. revert Hb Hi. buffer b. unfold rb_size, rb_consume, contents. cbn.
  destruct (Z.leb_spec rb_start0 rb_end0) as [Hs | Hs]; rewrite (wrap_small 32) by lia; intros Hi;
    rewrite (wrap_small 32) by lia.
  - rewrite Z.mod_small by lia. split; [split; cbn; lia |]. split; [| done].
    rewrite (proj2 (Z.leb_le _ _)) by lia. rewrite skipn_firstn_comm, drop_drop. f_equal; [lia |]. f_equal. lia.
  - destruct (Z.ltb_spec (rb_start0 + n) rb_capacity0).
    + rewrite Z.mod_small by lia. split; [split; cbn; lia |]. split; [| done].
      rewrite (proj2 (Z.leb_gt _ _)) by lia. rewrite drop_app_le by (rewrite length_drop; lia).
      rewrite drop_drop. f_equal. f_equal. lia.
    + assert ((rb_start0 + n) mod rb_capacity0 = rb_start0 + n - rb_capacity0) as ->
        by (symmetry; apply (Z.mod_unique _ _ 1); lia).
      split; [split; cbn; lia |]. split; [| done].
      rewrite (proj2 (Z.leb_le _ _)) by lia. rewrite drop_app_ge by (rewrite length_drop; lia).
      rewrite length_drop, skipn_firstn_comm. f_equal; [lia |]. f_equal. lia.
Qed.

(** The block of free space is part of the room; it is all of it unless the buffer wraps. *)
Lemma contiguous_empty_room b :
  buffer_ok b ->
  0 <= contiguous_empty_size b <= room b /\
  (contiguous_empty_size b = room b \/
   rb_start b <= rb_end b /\ rb_start b <> 0 /\ contiguous_empty_size b = rb_capacity b - rb_end b).
Proof.
  intros Hb. unfold room. rewrite length_contents by done. destruct Hb. unfold contiguous_empty_size, rb_size.
  destruct (Z.leb_spec (rb_start b) (rb_end b)); [destruct (Z.eqb_spec (rb_start b) 0) |];
    rewrite !(wrap_small 32) by lia; lia.
Qed.

Lemma write_spec bytes b :
  buffer_ok b -> Z.of_nat (length bytes) <= contiguous_empty_size b ->
  exists b', data_added (Z.of_nat (length bytes)) (write_contiguous bytes b) = Some b' /\
    buffer_ok b' /\ contents b' = contents b ++ bytes /\ rb_capacity b' = rb_capacity b /\
    rb_start b' = rb_start b.
Proof.
  intros Hb Hl.
  assert (Hend : rb_end b + Z.of_nat (length bytes) <= rb_capacity b /\
    (rb_start b <= rb_end b /\ (rb_start b = 0 -> rb_end b + Z.of_nat (length bytes) < rb_capacity b) \/
     rb_end b < rb_start b /\ rb_end b + Z.of_nat (length bytes) < rb_start b)).
  { destruct Hb. unfold contiguous_empty_size in Hl.
    destruct (Z.leb_spec (rb_start b) (rb_end b)); [destruct (Z.eqb_spec (rb_start b) 0) |];
      rewrite wrap_small in Hl by lia; lia. }
  clear Hl. destruct Hend as [Hend Hcase]. revert Hb. buffer b. unfold data_added, write_contiguous. cbn.
  rewrite (wrap_small 32) by lia. rewrite (proj2 (Z.leb_le _ _)) by lia.
  eexists. split; [done |]. split.
  { split; cbn; rewrite ?length_app, ?length_take, ?length_drop; try lia. case_match; lia. }
  split; [| done]. unfold contents. cbn.
  set (pos := Z.to_nat rb_end0). set (n := length bytes) in *.
  assert (Lt : length (take pos rb_data0) = pos) by (rewrite length_take; lia).
  destruct (Z.eqb_spec (rb_end0 + Z.of_nat n) rb_capacity0) as [Ee | Ee].
  - (* the end wraps *)
    destruct Hcase as [[Hs H0] | ?]; [| lia].
    rewrite (proj2 (Z.leb_gt rb_start0 0)), (proj2 (Z.leb_le rb_start0 rb_end0)) by lia.
    change (Z.to_nat 0) with 0%nat. cbn [take]. rewrite app_nil_r.
    rewrite (drop_ge rb_data0) by lia. rewrite app_nil_r.
    rewrite drop_app_le by lia. f_equal. rewrite firstn_skipn_comm. do 2 f_equal. lia.
  - destruct Hcase as [[Hs H0] | [Hs H0]].
    + rewrite !(proj2 (Z.leb_le _ _)) by lia. rewrite drop_app_le by lia.
      rewrite take_app_ge by (rewrite length_drop; lia).
      rewrite length_drop, Lt, take_app_ge by lia.
      replace (Z.to_nat (rb_end0 + Z.of_nat n) - Z.to_nat rb_start0 - (pos - Z.to_nat rb_start0) - length bytes)%nat
        with 0%nat by lia.
      cbn [take]. rewrite app_nil_r. f_equal. rewrite firstn_skipn_comm. do 2 f_equal. lia.
    + rewrite !(proj2 (Z.leb_gt _ _)) by lia.
      rewrite drop_app_ge by lia. rewrite Lt, drop_app_ge by lia. rewrite drop_drop.
      rewrite <- app_assoc. f_equal; [f_equal; lia |].
      rewrite take_app_ge by lia. rewrite Lt, take_app_ge by lia.
      replace (Z.to_nat (rb_end0 + Z.of_nat n) - pos - length bytes)%nat with 0%nat by lia.
      cbn [take]. by rewrite app_nil_r.
Qed.

(** [append] adds to the queue what fits in one block, or leaves an element of the room
    free. *)
Lemma append_spec src b :
  buffer_ok b ->
  if (Z.of_nat (length src) <=? contiguous_empty_size b) || (Z.of_nat (length src) <? room b) then
    exists b', rb_append src b = Some b' /\ buffer_ok b' /\ contents b' = contents b ++ src /\
      rb_capacity b' = rb_capacity b
  else rb_append src b = None.
Proof.
  intros Hb. destruct (contiguous_empty_room b Hb) as [Hr Hc]. unfold rb_append.
  set (n := Z.of_nat (length src)). set (c := contiguous_empty_size b) in *.
  destruct (Z.leb_spec n c) as [Hn | Hn].
  { rewrite Z.min_l by lia. rewrite take_ge by lia.
    destruct (write_spec src b Hb Hn) as (b' & E & Hb' & Hct & Hcap & _).
    cbn [orb]. exists b'. unfold n. rewrite E. cbn. rewrite Z.sub_diag. done. }
  rewrite Z.min_r by lia. cbn [orb].
  assert (Lt : Z.of_nat (length (take (Z.to_nat c) src)) = c) by (rewrite length_take; lia).
  destruct (write_spec (take (Z.to_nat c) src) b Hb ltac:(lia)) as (b1 & E & Hb1 & Hct & Hcap & Hst).
  rewrite Lt in E. rewrite E. cbn [mbind option_bind].
  rewrite (proj2 (Z.ltb_lt 0 (n - c))) by lia.
  assert (R1 : room b1 = room b - c).
  { unfold room. rewrite Hcap, Hct, length_app, Nat2Z.inj_add, Lt. lia. }
  destruct (contiguous_empty_room b1 Hb1) as [Hr1 Hc1].
  assert (C1 : contiguous_empty_size b1 = room b1).
  { destruct Hc as [Hc | (Hs & H0 & Hc)]; [lia |].
    assert (rb_end b1 = 0); [| destruct Hc1 as [| (? & ? & ?)]; [done | rewrite Hst in *; destruct Hb; lia]].
    apply (f_equal (option_map rb_end)) in E. cbn in E. unfold data_added in E.
    revert E. cbn [write_contiguous rb_end rb_capacity]. destruct Hb.
    rewrite (wrap_small 32) by lia. rewrite (proj2 (Z.leb_le _ _)) by lia. cbn.
    rewrite (proj2 (Z.eqb_eq _ _)) by lia. by intros [= <-]. }
  rewrite C1, R1. destruct (Z.ltb_spec n (room b)).
  - rewrite (proj2 (Z.ltb_lt _ _)) by lia.
    destruct (write_spec (drop (Z.to_nat c) src) b1 Hb1) as (b2 & E2 & Hb2 & Hct2 & Hcap2 & _);
      [rewrite length_drop; lia |].
    exists b2. rewrite length_drop in E2. replace (n - c) with (Z.of_nat (length src - Z.to_nat c)) by lia.
    split; [done |]. split; [done |]. split; [| congruence].
    by rewrite Hct2, Hct, <- app_assoc, take_drop.
  - by rewrite (proj2 (Z.ltb_ge _ _)) by lia.
Qed.

Lemma append_room src b :
  buffer_ok b -> Z.of_nat (length src) < room b ->
  exists b', rb_append src b = Some b' /\ buffer_ok b' /\ contents b' = contents b ++ src /\
    rb_capacity b' = rb_capacity b.
Proof.
  intros Hb Hr. pose proof (append_spec src b Hb) as H.
  by rewrite (proj2 (Z.ltb_lt _ _)), orb_true_r in H by lia.
Qed.

Lemma contiguous_data_spec n b :
  buffer_ok b -> 0 <= n <= contiguous_data_size b ->
  contiguous_data n b = take (Z.to_nat n) (contents b) /\ n <= Z.of_nat (length (contents b)).
Proof.
  intros Hb. pose proof (length_contents b Hb) as L. revert L. revert Hb. buffer b.
  unfold contiguous_data_size, contiguous_data, contents, rb_size. cbn.
  destruct (Z.leb_spec rb_start0 rb_end0); rewrite !(wrap_small 32) by lia; intros L Hn.
  - split; [| lia]. rewrite take_take. f_equal. lia.
  - split; [| lia]. rewrite take_app_le; [done |]. rewrite length_drop. lia.
Qed.
