(* ===== verification/GdbAsm.v ===== *)
(** riscv/gdbserver.cc, the functions that generate RISC-V opcodes: the words of the programs
    the debugger has a halted hart run.  The simulator's own decoder reads each of them back as
    the instruction and the operands it was made from. *)
From S2P Require Import Prelude Encoding Decode Decoder.

(** ** The generators

    The fields are unsigned ints, an offset or immediate a [uint16_t].  [sq] and [lq] abort. *)
Module Asm.

Definition bits (value hi lo : Z) : Z := (value .>> lo) .& ((1 .<< (hi + 1 - lo)) - 1).
Definition bit (value b : Z) : Z := (value .>> b) .& 1.
(** A shift of an unsigned int. *)
Definition at_bit (x n : Z) : Z := u32 (x .<< n).

Definition jal (rd imm : Z) : Z :=
  let imm := u32 imm in
  at_bit (bit imm 20) 31 .| at_bit (bits imm 10 1) 21 .| at_bit (bit imm 11) 20
  .| at_bit (bits imm 19 12) 12 .| at_bit rd 7 .| insn_match rv_jal.

Definition csrsi (csr imm : Z) : Z :=
  at_bit csr 20 .| at_bit (bits (u16 imm) 4 0) 15 .| insn_match rv_csrrsi.
Definition csrci (csr imm : Z) : Z :=
  at_bit csr 20 .| at_bit (bits (u16 imm) 4 0) 15 .| insn_match rv_csrrci.
Definition csrr (rd csr : Z) : Z := at_bit csr 20 .| at_bit rd 7 .| insn_match rv_csrrs.
Definition csrw (source csr : Z) : Z := at_bit csr 20 .| at_bit source 15 .| insn_match rv_csrrw.
Definition fence_i : Z := insn_match rv_fence_i.

Definition sb (src base offset : Z) : Z :=
  at_bit (bits (u16 offset) 11 5) 25 .| at_bit src 20 .| at_bit base 15
  .| at_bit (bits (u16 offset) 4 0) 7 .| insn_match rv_sb.
Definition sh (src base offset : Z) : Z :=
  at_bit (bits (u16 offset) 11 5) 25 .| at_bit src 20 .| at_bit base 15
  .| at_bit (bits (u16 offset) 4 0) 7 .| insn_match rv_sh.
Definition sw (src base offset : Z) : Z :=
  at_bit (bits (u16 offset) 11 5) 25 .| at_bit src 20 .| at_bit base 15
  .| at_bit (bits (u16 offset) 4 0) 7 .| insn_match rv_sw.
Definition sd (src base offset : Z) : Z :=
  at_bit (bits (u16 offset) 11 5) 25 .| at_bit (bits src 4 0) 20 .| at_bit base 15
  .| at_bit (bits (u16 offset) 4 0) 7 .| insn_match rv_sd.

Definition ld (rd base offset : Z) : Z :=
  at_bit (bits (u16 offset) 11 0) 20 .| at_bit base 15 .| at_bit (bits rd 4 0) 7 .| insn_match rv_ld.
Definition lw (rd base offset : Z) : Z :=
  at_bit (bits (u16 offset) 11 0) 20 .| at_bit base 15 .| at_bit (bits rd 4 0) 7 .| insn_match rv_lw.
Definition lh (rd base offset : Z) : Z :=
  at_bit (bits (u16 offset) 11 0) 20 .| at_bit base 15 .| at_bit (bits rd 4 0) 7 .| insn_match rv_lh.
Definition lb (rd base offset : Z) : Z :=
  at_bit (bits (u16 offset) 11 0) 20 .| at_bit base 15 .| at_bit (bits rd 4 0) 7 .| insn_match rv_lb.

Definition fsw (src base offset : Z) : Z :=
  at_bit (bits (u16 offset) 11 5) 25 .| at_bit (bits src 4 0) 20 .| at_bit base 15
  .| at_bit (bits (u16 offset) 4 0) 7 .| insn_match rv_fsw.
Definition fsd (src base offset : Z) : Z :=
  at_bit (bits (u16 offset) 11 5) 25 .| at_bit (bits src 4 0) 20 .| at_bit base 15
  .| at_bit (bits (u16 offset) 4 0) 7 .| insn_match rv_fsd.
Definition flw (dest base offset : Z) : Z :=
  at_bit (bits (u16 offset) 11 0) 20 .| at_bit base 15 .| at_bit (bits dest 4 0) 7 .| insn_match rv_flw.
Definition fld (dest base offset : Z) : Z :=
  at_bit (bits (u16 offset) 11 0) 20 .| at_bit base 15 .| at_bit (bits dest 4 0) 7 .| insn_match rv_fld.

Definition addi (dest src imm : Z) : Z :=
  at_bit (bits (u16 imm) 11 0) 20 .| at_bit src 15 .| at_bit dest 7 .| insn_match rv_addi.
Definition ori (dest src imm : Z) : Z :=
  at_bit (bits (u16 imm) 11 0) 20 .| at_bit src 15 .| at_bit dest 7 .| insn_match rv_ori.
Definition xori (dest src imm : Z) : Z :=
  at_bit (bits (u16 imm) 11 0) 20 .| at_bit src 15 .| at_bit dest 7 .| insn_match rv_xori.
Definition srli (dest src shamt : Z) : Z :=
  at_bit (bits (u8 shamt) 4 0) 20 .| at_bit src 15 .| at_bit dest 7 .| insn_match rv_srli.
Definition nop : Z := addi 0 0 0.

End Asm.

(** ** The words as fields of an instruction *)

Lemma bits_field v hi lo :
  0 <= lo <= hi -> Asm.bits v hi lo = Decode.bits v lo (hi + 1 - lo).
Proof.
  intros. unfold Asm.bits. rewrite shl_mul, Z.mul_1_l, land_mask, shr_div by lia. done.
Qed.

Lemma bit_field v b : 0 <= b -> Asm.bit v b = Decode.bits v b 1.
Proof.
  intros. unfold Asm.bit, bits. change 1 with (Z.ones 1). rewrite Z.land_ones, shr_div by lia. done.
Qed.

Lemma bits_wrap w v lo len : 0 <= lo -> 0 < len -> lo + len <= w -> bits (wrap w v) lo len = bits v lo len.
Proof.
  intros Hl Hn Hw. unfold bits. rewrite <- !shr_div, <- !Z.land_ones by lia.
  apply Z.bits_inj'. intros i Hi. rewrite !Z.land_spec, !Z.shiftr_spec, Z.testbit_ones_nonneg by lia.
  rewrite wrap_testbit by lia. destruct (Z.ltb_spec i len); [| by rewrite !andb_false_r].
  by rewrite (proj2 (Z.ltb_lt _ _)) by lia.
Qed.

Lemma at_bit_small x n : 0 <= n -> 0 <= x -> x * 2 ^ n < 2 ^ 32 -> Asm.at_bit x n = x * 2 ^ n.
Proof. intros. unfold Asm.at_bit. rewrite shl_mul, wrap_small; nia. Qed.

Lemma mod_mul_add a b c n : c <> 0 -> a = c * n -> (a + b * c) mod c = 0.
Proof. intros Hc ->. by rewrite Z.mul_comm, <- Z.mul_add_distr_r, Z.mod_mul. Qed.

(** The opcode and the function code have their places in the word. *)
Lemma word_I imm r1 r f3 op :
  in_range 12 imm -> in_range 5 r1 -> in_range 5 r -> in_range 3 f3 -> in_range 7 op ->
  (imm * 2 ^ 20) .| (r1 * 2 ^ 15) .| (r * 2 ^ 7) .| (f3 * 2 ^ 12 + op) = enc_I imm r1 f3 r op.
Proof.
  unfold in_range, enc_I. intros Hi H1 Hr Hf Ho.
  assert (bits imm 0 12 = imm) as -> by (unfold bits; change (2 ^ 0) with 1; rewrite Z.div_1_r; by apply Z.mod_small).
  rewrite <- (lor_add (f3 * 2 ^ 12) op 7) by (lia || zdm).
  rewrite (Z.lor_assoc _ (f3 * 2 ^ 12)), <- (Z.lor_assoc _ (r * 2 ^ 7)), (Z.lor_comm (r * 2 ^ 7)), Z.lor_assoc.
  rewrite (lor_add (imm * 2 ^ 20) _ 20), (lor_add _ (f3 * 2 ^ 12) 15), (lor_add _ (r * 2 ^ 7) 12),
    (lor_add _ op 7) by (lia || zdm). lia.
Qed.

Lemma word_S imm r2 r1 f3 op :
  in_range 5 r2 -> in_range 5 r1 -> in_range 3 f3 -> in_range 7 op ->
  (bits imm 5 7 * 2 ^ 25) .| (r2 * 2 ^ 20) .| (r1 * 2 ^ 15) .| (bits imm 0 5 * 2 ^ 7) .| (f3 * 2 ^ 12 + op) =
  enc_S imm r2 r1 f3 op.
Proof.
  unfold in_range, enc_S. intros H2 H1 Hf Ho. field_values.
  rewrite <- (lor_add (f3 * 2 ^ 12) op 7) by (lia || zdm).
  match goal with |- _ .| (?lo * 2 ^ 7) .| _ = _ =>
    rewrite (Z.lor_assoc _ (f3 * 2 ^ 12)), <- (Z.lor_assoc _ (lo * 2 ^ 7)), (Z.lor_comm (lo * 2 ^ 7)), Z.lor_assoc;
    rewrite (lor_add _ (r2 * 2 ^ 20) 25), (lor_add _ (r1 * 2 ^ 15) 20), (lor_add _ (f3 * 2 ^ 12) 15),
      (lor_add _ (lo * 2 ^ 7) 12), (lor_add _ op 7) by (lia || zdm)
  end. lia.
Qed.

(** ** Their decoding *)

(** No entry before the one of [f] matches a word that it matches. *)
Fixpoint found_first (f : insn_func) (l : list insn_desc_t) : bool :=
  match l with
  | [] => false
  | d :: l =>
      if bool_decide (i_func d = f) then (i_match d =? insn_match f) && (i_mask d =? insn_mask f)
      else disjoint_insns d (InsnDesc (insn_match f) (insn_mask f) f) && found_first f l
  end.

Lemma found_first_match f l w :
  found_first f l = true -> w .& insn_mask f = insn_match f -> first_match w l = Some f.
Proof.
  intros Hf Hw. induction l as [| d l IH]; [done |]. cbn [found_first first_match] in *.
  case_bool_decide as Ed.
  - apply andb_prop in Hf as [Em%Z.eqb_eq Ek%Z.eqb_eq]. unfold insn_matches.
    by rewrite Em, Ek, Hw, Z.eqb_refl, Ed.
  - apply andb_prop in Hf as [Hd Hf]. rewrite (IH Hf). clear IH Hf.
    destruct (insn_matches w d) eqn:E; [| done]. exfalso. apply Z.eqb_eq in E.
    apply negb_true_iff, Z.eqb_neq in Hd. apply Hd. cbn [i_match i_mask]. rewrite <- Hw, <- E.
    apply Z.bits_inj'. intros i Hi. rewrite Z.land_spec, Z.lxor_spec, !Z.land_spec, Z.bits_0.
    by destruct (Z.testbit w i), (Z.testbit (i_mask d) i), (Z.testbit (insn_mask f) i).
Qed.

(** The word [w] is an instruction [f] of the base set, fetched as any other. *)
Definition encodes (f : insn_func) (w : Z) : Prop :=
  in_range 32 w /\ first_match (fetch32 w) base_instructions = Some f.

Lemma fetch_mask w k : in_range 32 k -> fetch32 w .& k = w .& k.
Proof.
  intros Hk. apply Z.bits_inj'. intros i Hi. rewrite !Z.land_spec.
  destruct (Z.ltb_spec i 32); [| by rewrite (testbit_above k 32), !andb_false_r by (done || lia)].
  f_equal. unfold fetch32. rewrite wrap_testbit by lia. rewrite (proj2 (Z.ltb_lt i 64)) by lia. cbn.
  pose proof (wrap_testbit 32 (s32 w) i ltac:(lia)) as E. rewrite wrap_sext, wrap_testbit in E by lia.
  by rewrite (proj2 (Z.ltb_lt i 32)) in E by lia.
Qed.

Lemma encodes_word f w :
  in_range 32 w -> found_first f base_instructions = true -> in_range 32 (insn_mask f) ->
  w .& insn_mask f = insn_match f -> encodes f w.
Proof.
  intros Hw Hf Hm E. split; [done |]. apply found_first_match; [done |]. by rewrite fetch_mask.
Qed.

(** The masks of the formats: opcode and function code, or the opcode alone. *)
Lemma mask_op_f3 w f3 op hi mid :
  in_range 3 f3 -> in_range 7 op -> in_range 5 mid -> w = hi * 2 ^ 15 + f3 * 2 ^ 12 + mid * 2 ^ 7 + op ->
  w .& 0x707f = f3 * 2 ^ 12 + op.
Proof.
  unfold in_range. intros Hf Ho Hm ->.
  change 0x707f with (((2 ^ 3 - 1) * 2 ^ 12) .| (2 ^ 7 - 1)).
  rewrite Z.land_lor_distr_r, land_field, land_mask by lia. rewrite (lor_add _ _ 7) by (lia || zdm).
  f_equal; [f_equal |]; zdm.
Qed.

(** What the decoder reads of a word of each format. *)
Definition i_format (w r r1 imm : Z) : Prop :=
  rd (fetch32 w) = r /\ rs1 (fetch32 w) = r1 /\ i_imm (fetch32 w) = imm.
Definition s_format (w r2 r1 imm : Z) : Prop :=
  rs2 (fetch32 w) = r2 /\ rs1 (fetch32 w) = r1 /\ s_imm (fetch32 w) = imm.
Definition csr_format (w r r1 c : Z) : Prop :=
  rd (fetch32 w) = r /\ rs1 (fetch32 w) = r1 /\ csr (fetch32 w) = c.

Lemma enc_I_fields imm r1 f3 r op :
  in_range 5 r1 -> in_range 3 f3 -> in_range 5 r -> in_range 7 op ->
  let w := enc_I imm r1 f3 r op in
  in_range 32 w /\ w .& 0x707f = f3 * 2 ^ 12 + op /\ rd (fetch32 w) = r /\ rs1 (fetch32 w) = r1 /\
  csr (fetch32 w) = bits imm 0 12.
Proof.
  unfold in_range. intros H1 Hf Hr Ho. cbv zeta.
  split; [unfold enc_I; field_values; lia |]. split.
  { apply (mask_op_f3 _ _ _ (bits imm 0 12 * 2 ^ 5 + r1) r); try done. unfold enc_I. lia. }
  unfold rd, rs1, csr, fetch32. rewrite !fetch_x by lia.
  enc_field enc_I (enc_I imm r1 f3 r op) 7 5 r. enc_field enc_I (enc_I imm r1 f3 r op) 15 5 r1.
  split; [done |]. split; [done |].
  apply (bits_of _ 20 12 0 (bits imm 0 12) (r1 * 2 ^ 15 + f3 * 2 ^ 12 + r * 2 ^ 7 + op)); unfold enc_I;
    field_values; lia.
Qed.

Lemma enc_I_format imm r1 f3 r op :
  in_range 5 r1 -> in_range 3 f3 -> in_range 5 r -> in_range 7 op ->
  i_format (enc_I imm r1 f3 r op) r r1 (sext 12 imm).
Proof.
  intros H1 Hf Hr Ho. destruct (enc_I_fields imm r1 f3 r op H1 Hf Hr Ho) as (_ & _ & Er & E1 & _).
  split; [done |]. split; [done |].
  assert (enc_I imm r1 f3 r op = enc_I (sext 12 imm) r1 f3 r op) as ->.
  { unfold enc_I. f_equal. f_equal. f_equal. f_equal. f_equal. unfold bits. change (2 ^ 0) with 1. rewrite !Z.div_1_r.
    symmetry. by apply (wrap_sext 12). }
  apply i_imm_roundtrip; try done. pose proof (sext_range 12 imm ltac:(lia)). lia.
Qed.

Lemma enc_S_fields imm r2 r1 f3 op :
  in_range 5 r2 -> in_range 5 r1 -> in_range 3 f3 -> in_range 7 op ->
  let w := enc_S imm r2 r1 f3 op in
  in_range 32 w /\ w .& 0x707f = f3 * 2 ^ 12 + op /\ s_format w r2 r1 (sext 12 imm).
Proof.
  unfold in_range. intros H2 H1 Hf Ho. cbv zeta.
  split; [unfold enc_S; field_values; lia |]. split.
  { apply (mask_op_f3 _ _ _ (bits imm 5 7 * 2 ^ 10 + r2 * 2 ^ 5 + r1) (bits imm 0 5)); try done.
    - by apply bits_range.
    - unfold enc_S. lia. }
  unfold s_format, rs2, rs1. 
  assert (E : enc_S imm r2 r1 f3 op = enc_S (sext 12 imm) r2 r1 f3 op).
  { unfold enc_S. rewrite <- (bits_wrap 12 imm 5 7), <- (bits_wrap 12 imm 0 5) by lia.
    rewrite <- (bits_wrap 12 (sext 12 imm) 5 7), <- (bits_wrap 12 (sext 12 imm) 0 5) by lia.
    by rewrite wrap_sext by lia. }
  rewrite E at 3. rewrite s_imm_roundtrip by (done || (pose proof (sext_range 12 imm ltac:(lia)); lia)).
  unfold fetch32. rewrite !fetch_x by lia.
  enc_field enc_S (enc_S imm r2 r1 f3 op) 20 5 r2. enc_field enc_S (enc_S imm r2 r1 f3 op) 15 5 r1. done.
Qed.

(** ** The generators by format *)

Definition i_generators : list ((Z -> Z -> Z -> Z) * insn_func) :=
  [(Asm.lb, rv_lb); (Asm.lh, rv_lh); (Asm.lw, rv_lw); (Asm.ld, rv_ld); (Asm.flw, rv_flw);
   (Asm.fld, rv_fld); (Asm.addi, rv_addi); (Asm.ori, rv_ori); (Asm.xori, rv_xori)].
Definition s_generators : list ((Z -> Z -> Z -> Z) * insn_func) :=
  [(Asm.sb, rv_sb); (Asm.sh, rv_sh); (Asm.sw, rv_sw); (Asm.sd, rv_sd); (Asm.fsw, rv_fsw); (Asm.fsd, rv_fsd)].

(** [MATCH_X] as a function code and an opcode. *)
Ltac split_match :=
  match goal with
  | |- context [insn_match ?f] =>
      let v := eval vm_compute in (insn_match f) in
      let f3 := eval vm_compute in (v / 2 ^ 12) in
      let op := eval vm_compute in (v mod 2 ^ 12) in
      change (insn_match f) with (f3 * 2 ^ 12 + op)
  end.

Lemma reg_field r : in_range 5 r -> Asm.bits r 4 0 = r.
Proof.
  intros Hr. rewrite bits_field by lia. unfold bits. change (2 ^ 0) with 1. rewrite Z.div_1_r. by apply Z.mod_small.
Qed.

Lemma imm_field imm : Asm.bits (u16 imm) 11 0 = bits imm 0 12.
Proof. rewrite bits_field by lia. by rewrite bits_wrap by lia. Qed.

Ltac fields_small :=
  match goal with |- context [Asm.at_bit ?x ?n] => rewrite (at_bit_small x n) by lia end.

Lemma i_generator gen f r r1 imm :
  (gen, f) ∈ i_generators -> in_range 5 r -> in_range 5 r1 ->
  exists f3 op, in_range 3 f3 /\ in_range 7 op /\ insn_match f = f3 * 2 ^ 12 + op /\ insn_mask f = 0x707f /\
    found_first f base_instructions = true /\ gen r r1 imm = enc_I imm r1 f3 r op.
Proof.
  intros Hg Hr H1. pose proof (bits_range imm 0 12 ltac:(lia)) as Hi.
  assert (Ei : enc_I imm r1 = enc_I (bits imm 0 12) r1).
  { unfold enc_I. assert (bits (bits imm 0 12) 0 12 = bits imm 0 12) as ->; [| done].
    unfold bits at 1. change (2 ^ 0) with 1. rewrite Z.div_1_r. by apply Z.mod_small. }
  rewrite Ei. clear Ei. assert (0 <= r < 32 /\ 0 <= r1 < 32) as [? ?] by done.
  unfold i_generators in Hg. rewrite !elem_of_cons, elem_of_nil in Hg.
  repeat (destruct Hg as [[= -> ->] | Hg]); [.. | done];
    match goal with |- context [found_first ?f _] =>
      let v := eval vm_compute in (insn_match f) in
      let f3 := eval vm_compute in (v / 2 ^ 12) in
      let op := eval vm_compute in (v mod 2 ^ 12) in exists f3, op end;
    (split; [by split |]); (split; [by split |]); (split; [by vm_compute |]); (split; [by vm_compute |]);
    (split; [by vm_compute |]); rewrite <- word_I by (done || by split);
    cbv delta [Asm.lb Asm.lh Asm.lw Asm.ld Asm.flw Asm.fld Asm.addi Asm.ori Asm.xori] beta;
    rewrite ?reg_field, imm_field by done; repeat fields_small; by split_match.
Qed.

Lemma s_generator gen f r2 r1 imm :
  (gen, f) ∈ s_generators -> in_range 5 r2 -> in_range 5 r1 ->
  exists f3 op, in_range 3 f3 /\ in_range 7 op /\ insn_match f = f3 * 2 ^ 12 + op /\ insn_mask f = 0x707f /\
    found_first f base_instructions = true /\ gen r2 r1 imm = enc_S imm r2 r1 f3 op.
Proof.
  intros Hg H2 H1. pose proof (bits_range imm 5 7 ltac:(lia)). pose proof (bits_range imm 0 5 ltac:(lia)).
  assert (0 <= r2 < 32 /\ 0 <= r1 < 32) as [? ?] by done.
  unfold s_generators in Hg. rewrite !elem_of_cons, elem_of_nil in Hg.
  repeat (destruct Hg as [[= -> ->] | Hg]); [.. | done];
    match goal with |- context [found_first ?f _] =>
      let v := eval vm_compute in (insn_match f) in
      let f3 := eval vm_compute in (v / 2 ^ 12) in
      let op := eval vm_compute in (v mod 2 ^ 12) in exists f3, op end;
    (split; [by split |]); (split; [by split |]); (split; [by vm_compute |]); (split; [by vm_compute |]);
    (split; [by vm_compute |]); rewrite <- word_S by (done || by split);
    cbv delta [Asm.sb Asm.sh Asm.sw Asm.sd Asm.fsw Asm.fsd] beta;
    rewrite ?(reg_field r2), !bits_field by (done || lia);
    rewrite (bits_wrap 16 imm 5), (bits_wrap 16 imm 0) by lia; change (11 + 1 - 5) with 7; change (4 + 1 - 0) with 5;
    repeat fields_small; by split_match.
Qed.

(** The four accesses to the control and status registers. *)
Definition csr_generators : list ((Z -> Z -> Z) * insn_func * (Z -> Z -> Z -> Prop)) :=
  [(fun r c => Asm.csrr r c, rv_csrrs, fun w r c => csr_format w r 0 c);
   (fun r c => Asm.csrw r c, rv_csrrw, fun w r c => csr_format w 0 r c);
   (fun r c => Asm.csrsi c r, rv_csrrsi, fun w r c => csr_format w 0 r c);
   (fun r c => Asm.csrci c r, rv_csrrci, fun w r c => csr_format w 0 r c)].

Lemma encodes_I f imm r1 f3 r op :
  in_range 5 r1 -> in_range 3 f3 -> in_range 5 r -> in_range 7 op ->
  insn_match f = f3 * 2 ^ 12 + op -> insn_mask f = 0x707f -> found_first f base_instructions = true ->
  encodes f (enc_I imm r1 f3 r op).
Proof.
  intros H1 Hf Hr Ho Em Ek Hd. destruct (enc_I_fields imm r1 f3 r op H1 Hf Hr Ho) as (Hw & Ew & _).
  apply encodes_word; [done | done | by rewrite Ek | by rewrite Ek, Em].
Qed.

Lemma csr_generator gen f fmt r c :
  (gen, f, fmt) ∈ csr_generators -> in_range 5 r -> in_range 12 c ->
  encodes f (gen r c) /\ fmt (gen r c) r c.
Proof.
  intros Hg Hr Hc. assert (0 <= r < 32 /\ 0 <= c < 2 ^ 12) as [? ?] by done.
  assert (Ec : bits c 0 12 = c) by (unfold bits; change (2 ^ 0) with 1; rewrite Z.div_1_r; by apply Z.mod_small).
  assert (Er : Asm.bits (u16 r) 4 0 = r) by (rewrite bits_field, bits_wrap, <- bits_field, reg_field by (done || lia); done).
  assert (G : forall f3 r1 r', in_range 3 f3 -> in_range 5 r1 -> in_range 5 r' -> forall f,
    insn_match f = f3 * 2 ^ 12 + 0x73 -> insn_mask f = 0x707f -> found_first f base_instructions = true ->
    let w := (c * 2 ^ 20) .| (r1 * 2 ^ 15) .| (r' * 2 ^ 7) .| (f3 * 2 ^ 12 + 0x73) in
    encodes f w /\ csr_format w r' r1 c).
  { intros f3 r1 r' H3 H1 H' f' Em Ek Hd. cbv zeta. rewrite word_I by (done || by split).
    split; [by apply encodes_I |]. destruct (enc_I_fields c r1 f3 r' 0x73 H1 H3 H' ltac:(done)) as (_ & _ & E1 & E2 & E3).
    split; [done |]. split; [done |]. by rewrite E3. }
  unfold csr_generators in Hg. rewrite !elem_of_cons, elem_of_nil in Hg.
  repeat (destruct Hg as [[= -> -> ->] | Hg]); [.. | done];
    cbv delta [Asm.csrr Asm.csrw Asm.csrsi Asm.csrci] beta; rewrite ?Er; repeat fields_small.
  - specialize (G 2 0 r ltac:(done) ltac:(done) Hr rv_csrrs). rewrite Z.mul_0_l, Z.lor_0_r in G.
    split_match. by apply G; vm_compute.
  - specialize (G 1 r 0 ltac:(done) Hr ltac:(done) rv_csrrw). rewrite Z.mul_0_l, Z.lor_0_r in G.
    split_match. by apply G; vm_compute.
  - specialize (G 6 r 0 ltac:(done) Hr ltac:(done) rv_csrrsi). rewrite Z.mul_0_l, Z.lor_0_r in G.
    split_match. by apply G; vm_compute.
  - specialize (G 7 r 0 ltac:(done) Hr ltac:(done) rv_csrrci). rewrite Z.mul_0_l, Z.lor_0_r in G.
    split_match. by apply G; vm_compute.
Qed.

Lemma jal_generator r imm :
  in_range 5 r -> - 2 ^ 20 <= imm < 2 ^ 20 -> imm mod 2 = 0 ->
  encodes rv_jal (Asm.jal r imm) /\ rd (fetch32 (Asm.jal r imm)) = r /\ uj_imm (fetch32 (Asm.jal r imm)) = imm.
Proof.
  intros Hr Hi He. assert (0 <= r < 32) by done.
  assert (Ew : Asm.jal r imm = enc_UJ imm r 0x6f).
  { unfold Asm.jal, enc_UJ. rewrite !bit_field, !bits_field, !bits_wrap by lia.
    change (10 + 1 - 1) with 10. change (19 + 1 - 12) with 8. change (insn_match rv_jal) with 0x6f.
    field_values. repeat fields_small.
    rewrite (lor_add (_ * 2 ^ 31) _ 31), (lor_add _ (_ * 2 ^ 20) 21), (lor_add _ (_ * 2 ^ 12) 20),
      (lor_add _ (r * 2 ^ 7) 12), (lor_add _ 0x6f 7) by (lia || zdm). lia. }
  rewrite Ew. assert (Hw : in_range 32 (enc_UJ imm r 0x6f)) by (unfold in_range, enc_UJ; field_values; lia).
  split.
  - apply encodes_word; [done | by vm_compute | by vm_compute |].
    change (insn_mask rv_jal) with (2 ^ 7 - 1). rewrite land_mask by lia.
    change (insn_match rv_jal) with 0x6f. unfold enc_UJ. field_values. zdm.
  - split; [| by apply uj_imm_roundtrip].
    unfold rd, fetch32. rewrite fetch_x by lia. enc_field enc_UJ (enc_UJ imm r 0x6f) 7 5 r. done.
Qed.

Lemma srli_generator r r1 n :
  in_range 5 r -> in_range 5 r1 -> in_range 5 n ->
  encodes rv_srli (Asm.srli r r1 n) /\ i_format (Asm.srli r r1 n) r r1 n.
Proof.
  intros Hr H1 Hn. assert (0 <= r < 32 /\ 0 <= r1 < 32 /\ 0 <= n < 32) as (? & ? & ?) by done.
  assert (Ew : Asm.srli r r1 n = enc_I n r1 5 r 0x13).
  { unfold Asm.srli. rewrite bits_field, bits_wrap, <- bits_field, reg_field by (done || lia).
    rewrite <- word_I by (unfold in_range; lia). repeat fields_small. by split_match. }
  rewrite Ew. destruct (enc_I_fields n r1 5 r 0x13 H1 ltac:(done) Hr ltac:(done)) as (Hw & _).
  split.
  - apply encodes_word; [done | by vm_compute | by vm_compute |]. change (insn_match rv_srli) with (5 * 2 ^ 12 + 0x13).
    change (insn_mask rv_srli) with (((2 ^ 6 - 1) * 2 ^ 26) .| 0x707f).
    rewrite Z.land_lor_distr_r, land_field by lia.
    destruct (enc_I_fields n r1 5 r 0x13 H1 ltac:(done) Hr ltac:(done)) as (_ & -> & _).
    assert ((enc_I n r1 5 r 0x13 / 2 ^ 26) mod 2 ^ 6 = 0) as ->; [| done].
    unfold enc_I. assert (bits n 0 12 = n) as -> by (unfold bits; change (2 ^ 0) with 1; rewrite Z.div_1_r; apply Z.mod_small; lia).
    zdm.
  - rewrite <- (sext_small 12 n) at 2 by lia. by apply enc_I_format.
Qed.

(** C29: Every word the debugger generates is, for the simulator's decoder, the instruction the
    generator is named after, with the register numbers, the sign-extended offset or immediate
    and the control register it was given. *)
Theorem opcodes_decode r r1 imm c target :
  in_range 5 r -> in_range 5 r1 -> in_range 12 c -> - 2 ^ 20 <= target < 2 ^ 20 -> target mod 2 = 0 ->
  (forall gen f, (gen, f) ∈ i_generators ->
     encodes f (gen r r1 imm) /\ i_format (gen r r1 imm) r r1 (sext 12 imm)) /\
  (forall gen f, (gen, f) ∈ s_generators ->
     encodes f (gen r r1 imm) /\ s_format (gen r r1 imm) r r1 (sext 12 imm)) /\
  (forall gen f fmt, (gen, f, fmt) ∈ csr_generators -> encodes f (gen r c) /\ fmt (gen r c) r c) /\
  (forall n, in_range 5 n -> encodes rv_srli (Asm.srli r r1 n) /\ i_format (Asm.srli r r1 n) r r1 n) /\
  encodes rv_jal (Asm.jal r target) /\ rd (fetch32 (Asm.jal r target)) = r /\
  uj_imm (fetch32 (Asm.jal r target)) = target /\ encodes rv_fence_i Asm.fence_i.
Proof.
  intros Hr H1 Hc Ht He. split; [| split; [| split; [| split]]].
  - intros gen f Hg. destruct (i_generator gen f r r1 imm Hg Hr H1) as (f3 & op & H3 & Ho & Em & Ek & Hd & ->).
    split; [by apply encodes_I | by apply enc_I_format].
  - intros gen f Hg. destruct (s_generator gen f r r1 imm Hg Hr H1) as (f3 & op & H3 & Ho & Em & Ek & Hd & ->).
    destruct (enc_S_fields imm r r1 f3 op Hr H1 H3 Ho) as (Hw & Ew & Hs). split; [| done].
    apply encodes_word; [done | done | by rewrite Ek | by rewrite Ek, Em].
  - intros. by apply csr_generator.
  - intros. by apply srli_generator.
  - destruct (jal_generator r target Hr Ht He) as (? & ? & ?). do 3 (split; [done |]).
    split; by vm_compute.
Qed.

(** [dr_write_jump(3)]: from word 3 of the debug RAM to the ROM. *)
Lemma opcodes_decode_witness :
  encodes rv_sw (Asm.sw 9 0 0x43c) /\ uj_imm (fetch32 (Asm.jal 0 (0x804 - 0x40c))) = 0x3f8.
Proof.
  destruct (opcodes_decode 9 0 0x43c 0 (0x804 - 0x40c) ltac:(done) ltac:(done) ltac:(done) ltac:(done) ltac:(done))
    as (_ & S & _).
  destruct (opcodes_decode 0 0 0 0 (0x804 - 0x40c) ltac:(done) ltac:(done) ltac:(done) ltac:(done) ltac:(done))
    as (_ & _ & _ & _ & _ & _ & J & _).
  split; [by apply S; repeat constructor | exact J].
Defined.
