(* ===== verification/Gdb.v ===== *)
(** riscv/gdbserver.h and gdbserver.cc: the state of the debugger's server, what its parts
    share -- the packets it sends, the programs it writes to the debug RAM, the translation of
    addresses -- and the monad they are in.

    The server acts on the hart through the debug module alone. *)
From Stdlib Require Import Ascii String.
From S2P Require Import Prelude Encoding Decode Machine Csr Mmu Devices RingBuffer GdbAsm.

(** ** State *)

Record software_breakpoint_t := SoftwareBreakpoint {
  sb_vaddr : Z;
  sb_size : Z;
  sb_instruction : list Z
}.
Record hardware_breakpoint_t := HardwareBreakpoint {
  hb_vaddr : Z;
  hb_size : Z;
  hb_index : Z;
  hb_load : bool;
  hb_store : bool;
  hb_execute : bool
}.

(** The operations, with the fields their classes add to [operation_t]. *)
Inductive halt_state := HALT_ENTER | HALT_XLEN | HALT_DPC | HALT_MSTATUS | HALT_DCSR.
Inductive collect_state := COLLECT_START | COLLECT_READ_SPTBR | COLLECT_READ_PTE.
Inductive insert_state := INSERT_START | INSERT_CHECK_INDEX | INSERT_CHECK_MCONTROL | INSERT_WRITE_ADDRESS.

(** [mr_data]: a pointer into [instruction] of the software breakpoint at an address, where
    the class has a pointer.  [mr_buf] is what was written to [buf], of [mr_capacity] bytes,
    its length is [index]. *)
Record memory_read := MemoryRead {
  mr_vaddr : Z;
  mr_length : Z;
  mr_data : option (Z * Z);
  mr_paddr : Z;
  mr_access_size : Z;
  mr_capacity : Z;
  mr_buf : list Z
}.
Record memory_write := MemoryWrite {
  mw_vaddr : Z;
  mw_offset : Z;
  mw_length : Z;
  mw_access_size : Z;
  mw_data : list Z
}.
Record collect_info := CollectInfo {
  ci_state : collect_state;
  ci_vaddr : Z;
  ci_length : Z;
  ci_levels : Z;
  ci_ptidxbits : Z;
  ci_ptesize : Z;
  ci_pte_addr : Z
}.

Inductive operation :=
  | HaltOp (send_status : bool) (st : halt_state)
  | ContinueOp (single_step : bool)
  | GeneralRegistersReadOp
  | RegisterReadOp (reg : Z)
  | RegisterWriteOp (reg value : Z)
  | MemoryReadOp (r : memory_read)
  | MemoryWriteOp (w : memory_write)
  | CollectTranslationInfoOp (c : collect_info)
  | HardwareBreakpointInsertOp (st : insert_state) (bp : hardware_breakpoint_t)
  | MaybeSaveTselectOp
  | MaybeRestoreTselectOp
  | MaybeRestoreMstatusOp
  | HardwareBreakpointRemoveOp (bp : hardware_breakpoint_t).

(** [gdbserver_t].  The queue has every operation with its [current_step].  [sent] is what was
    written to the socket. *)
Record gdbserver_t := Gdbserver {
  gs_dpc : Z;
  gs_dcsr : Z;
  gs_mstatus : Z;
  mstatus_dirty : bool;
  gs_sptbr : Z;
  sptbr_valid : bool;
  gs_tselect : Z;
  tselect_valid : bool;
  fence_i_required : bool;
  pte_cache : gmap Z Z;
  gs_xlen : Z;
  hardware_breakpoints : list hardware_breakpoint_t;
  client_fd : Z;
  recv_buf : circular_buffer;
  send_buf : circular_buffer;
  expect_ack : bool;
  extended_mode : bool;
  software_breakpoints : gmap Z software_breakpoint_t;
  operation_queue : list (operation * Z);
  running_checksum : Z;
  sent : list Z
}.

Definition gdbserver_eta (r : gdbserver_t) : gdbserver_t :=
  Gdbserver (gs_dpc r) (gs_dcsr r) (gs_mstatus r) (mstatus_dirty r) (gs_sptbr r) (sptbr_valid r)
    (gs_tselect r) (tselect_valid r) (fence_i_required r) (pte_cache r) (gs_xlen r)
    (hardware_breakpoints r) (client_fd r) (recv_buf r) (send_buf r) (expect_ack r) (extended_mode r)
    (software_breakpoints r) (operation_queue r) (running_checksum r) (sent r).
#[export] Instance setter_gs_dpc : Setter gs_dpc. Proof. setter gdbserver_eta gs_dpc. Defined.
#[export] Instance setter_gs_dcsr : Setter gs_dcsr. Proof. setter gdbserver_eta gs_dcsr. Defined.
#[export] Instance setter_gs_mstatus : Setter gs_mstatus. Proof. setter gdbserver_eta gs_mstatus. Defined.
#[export] Instance setter_mstatus_dirty : Setter mstatus_dirty. Proof. setter gdbserver_eta mstatus_dirty. Defined.
#[export] Instance setter_gs_sptbr : Setter gs_sptbr. Proof. setter gdbserver_eta gs_sptbr. Defined.
#[export] Instance setter_sptbr_valid : Setter sptbr_valid. Proof. setter gdbserver_eta sptbr_valid. Defined.
#[export] Instance setter_gs_tselect : Setter gs_tselect. Proof. setter gdbserver_eta gs_tselect. Defined.
#[export] Instance setter_tselect_valid : Setter tselect_valid. Proof. setter gdbserver_eta tselect_valid. Defined.
#[export] Instance setter_fence_i_required : Setter fence_i_required. Proof. setter gdbserver_eta fence_i_required. Defined.
#[export] Instance setter_pte_cache : Setter pte_cache. Proof. setter gdbserver_eta pte_cache. Defined.
#[export] Instance setter_gs_xlen : Setter gs_xlen. Proof. setter gdbserver_eta gs_xlen. Defined.
#[export] Instance setter_hardware_breakpoints : Setter hardware_breakpoints. Proof. setter gdbserver_eta hardware_breakpoints. Defined.
#[export] Instance setter_client_fd : Setter client_fd. Proof. setter gdbserver_eta client_fd. Defined.
#[export] Instance setter_recv_buf : Setter recv_buf. Proof. setter gdbserver_eta recv_buf. Defined.
#[export] Instance setter_send_buf : Setter send_buf. Proof. setter gdbserver_eta send_buf. Defined.
#[export] Instance setter_expect_ack : Setter expect_ack. Proof. setter gdbserver_eta expect_ack. Defined.
#[export] Instance setter_extended_mode : Setter extended_mode. Proof. setter gdbserver_eta extended_mode. Defined.
#[export] Instance setter_software_breakpoints : Setter software_breakpoints. Proof. setter gdbserver_eta software_breakpoints. Defined.
#[export] Instance setter_operation_queue : Setter operation_queue. Proof. setter gdbserver_eta operation_queue. Defined.
#[export] Instance setter_running_checksum : Setter running_checksum. Proof. setter gdbserver_eta running_checksum. Defined.
#[export] Instance setter_sent : Setter sent. Proof. setter gdbserver_eta sent. Defined.

(** ** The monad

    The state is the server's and that of the devices.  The program ends by [abort()], a
    failed assertion or an exception nothing catches, or has no defined behaviour: an access
    outside an object, a shift by more than the width. *)
Inductive crash := Aborted | OutOfMemory | Undefined.

Definition G (A : Type) : Type := gdbserver_t -> platform -> (A * gdbserver_t * platform) + crash.

#[export] Instance G_ret : MRet G := fun A a g w => inl (a, g, w).
#[export] Instance G_bind : MBind G := fun A B k c g w =>
  match c g w with
  | inl (a, g, w) => k a g w
  | inr e => inr e
  end.

Definition crash_with {A} (e : crash) : G A := fun _ _ => inr e.
Definition get_gs {A} (f : gdbserver_t -> A) : G A := fun g w => inl (f g, g, w).
Definition set_gs (f : gdbserver_t -> gdbserver_t) : G unit := fun g w => inl (tt, f g, w).
Definition set_devices (f : platform -> platform) : G unit := fun g w => inl (tt, g, f w).
Definition get_devices {A} (f : platform -> A) : G A := fun g w => inl (f w, g, w).
Definition assert (b : bool) : G unit := if b then mret tt else crash_with Aborted.
Definition of_option {A} (e : crash) (o : option A) : G A :=
  match o with Some a => mret a | None => crash_with e end.

Definition add_operation (op : operation) : G unit :=
  set_gs (fun g => g <| operation_queue := operation_queue g ++ [(op, 0)] |>).

(** ** Sending *)

(** [send] of a string. *)
Definition send (msg : list Z) : G unit :=
  set_gs (fun g => g <| running_checksum := u8 (running_checksum g + foldr Z.add 0 msg) |>) ;;
  g ← get_gs (fun g => g);
  b ← of_option Aborted (rb_append msg (send_buf g));
  set_gs (fun g => g <| send_buf := b |>).

(** [sprintf("%02x", ...)] of a byte. *)
Definition hex2 (v : Z) : list Z := [hex_digit (v .>> 4); hex_digit (v .& 15)].

(** [send(uint64_t)], [send(uint32_t)] and [send(uint8_t)]: [n] bytes. *)
Fixpoint send_bytes (n : nat) (value : Z) : G unit :=
  match n with
  | O => mret tt
  | S n => send (hex2 (value .& 0xff)) ;; send_bytes n (value .>> 8)
  end.
Definition send_u64 (value : Z) : G unit := send_bytes 8 (u64 value).
Definition send_u32 (value : Z) : G unit := send_bytes 4 (u32 value).
Definition send_u8 (value : Z) : G unit := send (hex2 (u8 value)).

Definition start_packet : G unit :=
  send (text "$") ;; set_gs (fun g => g <| running_checksum := 0 |>).
Definition end_packet : G unit :=
  c ← get_gs running_checksum;
  send (text "#" ++ hex2 c) ;;
  set_gs (fun g => g <| expect_ack := true |>).
Definition send_packet (data : list Z) : G unit :=
  start_packet ;; send data ;; end_packet ;;
  set_gs (fun g => g <| expect_ack := true |>).

(** ** The debug RAM *)

Inductive slot := SLOT_INST0 | SLOT_DATA0 | SLOT_DATA1 | SLOT_DATA_LAST.
#[export] Instance slot_eq_dec : EqDecision slot.
Proof. solve_decision. Defined.

Definition slot_offset32 (s : slot) : Z :=
  match s with SLOT_INST0 => 0 | SLOT_DATA0 => 4 | SLOT_DATA1 => 5 | SLOT_DATA_LAST => DEBUG_RAM_SIZE / 4 - 1 end.
Definition slot_offset64 (s : slot) : Z :=
  match s with SLOT_INST0 => 0 | SLOT_DATA0 => 4 | SLOT_DATA1 => 6 | SLOT_DATA_LAST => DEBUG_RAM_SIZE / 4 - 2 end.
Definition slot_offset128 (s : slot) : Z :=
  match s with SLOT_INST0 => 0 | SLOT_DATA0 => 4 | SLOT_DATA1 => 8 | SLOT_DATA_LAST => DEBUG_RAM_SIZE / 4 - 4 end.

Definition DEBUG_ROM_RESUME : Z := DEBUG_ROM_START + 4.
Definition ZERO : Z := 0.
Definition S0 : Z := 8.
Definition S1 : Z := 9.

Definition dr_write32 (index value : Z) : G unit := set_devices (ram_write32 index (u32 value)).
Definition dr_write64 (index value : Z) : G unit :=
  dr_write32 index value ;; dr_write32 (index + 1) (value .>> 32).
Definition dr_write (s : slot) (value : Z) : G unit :=
  xlen ← get_gs gs_xlen;
  if xlen =? 32 then dr_write32 (slot_offset32 s) value
  else if xlen =? 64 then dr_write64 (slot_offset64 s) value
  else crash_with Aborted.

Definition dr_write_jump (index : Z) : G unit :=
  dr_write32 index (Asm.jal 0 (u32 (DEBUG_ROM_RESUME - (DEBUG_RAM_START + 4 * index)))).

(** [sq] and [lq] abort. *)
Definition dr_write_store (index reg : Z) (s : slot) : G unit :=
  assert (negb (bool_decide (s = SLOT_INST0)) || (2 <? index)) ;;
  assert (negb (bool_decide (s = SLOT_DATA0)) || (index <? 4) || (6 <? index)) ;;
  assert (negb (bool_decide (s = SLOT_DATA1)) || (index <? 5) || (10 <? index)) ;;
  assert (negb (bool_decide (s = SLOT_DATA_LAST)) || (index <? 6) || (14 <? index)) ;;
  xlen ← get_gs gs_xlen;
  if xlen =? 32 then dr_write32 index (Asm.sw reg 0 (DEBUG_RAM_START + 4 * slot_offset32 s))
  else if xlen =? 64 then dr_write32 index (Asm.sd reg 0 (DEBUG_RAM_START + 4 * slot_offset64 s))
  else crash_with Aborted.
Definition dr_write_load (index reg : Z) (s : slot) : G unit :=
  xlen ← get_gs gs_xlen;
  if xlen =? 32 then dr_write32 index (Asm.lw reg 0 (DEBUG_RAM_START + 4 * slot_offset32 s))
  else if xlen =? 64 then dr_write32 index (Asm.ld reg 0 (DEBUG_RAM_START + 4 * slot_offset64 s))
  else crash_with Aborted.

Definition dr_read32 (index : Z) : G Z := get_devices (ram_read32 index).
Definition dr_read64 (index : Z) : G Z :=
  hi ← dr_read32 (index + 1);
  lo ← dr_read32 index;
  mret ((hi .<< 32) .| lo).
Definition dr_read (s : slot) : G Z :=
  xlen ← get_gs gs_xlen;
  if xlen =? 32 then dr_read32 (slot_offset32 s)
  else if xlen =? 64 then dr_read64 (slot_offset64 s)
  else crash_with Aborted.

Definition gs_set_interrupt (hartid : Z) : G unit := set_devices (Devices.set_interrupt hartid).

(** [if (xlen == 32) send((uint32_t) value); else send(value);] *)
Definition send_reg (value : Z) : G unit :=
  xlen ← get_gs gs_xlen;
  if xlen =? 32 then send_u32 value else send_u64 value.

(** ** Addresses *)

(** [length] is an [int]. *)
Definition find_access_size (address length xlen : Z) : Z :=
  let composite := address .| u64 (s32 length) in
  if (composite .& 7 =? 0) && (64 <=? xlen) then 8
  else if composite .& 3 =? 0 then 4 else 1.

Definition privilege_mode (g : gdbserver_t) : Z :=
  if z2b (get_field (gs_mstatus g) MSTATUS_MPRV) then get_field (gs_mstatus g) MSTATUS_MPP
  else get_field (gs_dcsr g) DCSR_PRV.
Definition virtual_memory (g : gdbserver_t) : Z :=
  if privilege_mode g =? PRV_M then VM_MBARE else get_field (gs_mstatus g) MSTATUS_VM.

(** The loop over the levels, which [translate] and the collection of what it needs share:
    [i] levels from [base] on. *)
Inductive pte_result :=
  | Missing (pte_addr : Z)
  | Leaf (pte ptshift : Z)
  | NoLeaf.

Fixpoint find_pte (i : nat) (ptshift ptidxbits ptesize vaddr base : Z) (cache : gmap Z Z) : pte_result :=
  match i with
  | O => NoLeaf
  | S i =>
      let idx := (vaddr .>> (PGSHIFT + ptshift)) .& ((1 .<< ptidxbits) - 1) in
      let pte_addr := u64 (base + idx * ptesize) in
      match cache !! pte_addr with
      | None => Missing pte_addr
      | Some pte =>
          let ppn := pte .>> PTE_PPN_SHIFT in
          if PTE_TABLE pte
          then find_pte i (ptshift - ptidxbits) ptidxbits ptesize vaddr (u64 (ppn .<< PGSHIFT)) cache
          else Leaf pte ptshift
      end
  end.

Definition find_leaf (levels ptidxbits ptesize vaddr : Z) (g : gdbserver_t) : pte_result :=
  find_pte (Z.to_nat levels) ((levels - 1) * ptidxbits) ptidxbits ptesize vaddr
    (u64 (gs_sptbr g .<< PGSHIFT)) (pte_cache g).

Definition translate (vaddr : Z) : G Z :=
  g ← get_gs (fun g => g);
  if virtual_memory g =? VM_MBARE then mret vaddr
  else
    match vm_geometry (virtual_memory g) with
    | None => crash_with Aborted
    | Some (levels, ptidxbits, ptesize) =>
        match find_leaf levels ptidxbits ptesize vaddr g with
        | Missing _ => crash_with Aborted
        | Leaf pte ptshift =>
            let ppn := pte .>> PTE_PPN_SHIFT in
            let vpn := vaddr .>> PGSHIFT in
            let paddr := u64 ((ppn .| (vpn .& ((1 .<< ptshift) - 1))) .<< PGSHIFT) in
            mret (u64 (paddr + (vaddr .& (PGSIZE - 1))))
        | NoLeaf => mret (u64 (-1))
        end
    end.
