(* ===== verification/GdbOps.v ===== *)
(** riscv/gdbserver.cc: the debug operations.  [perform_step] of an operation writes a program
    to the debug RAM and asks the hart to run it; the next step reads what it left there.  Each
    is a function of the step number that gives [true] when the operation is complete, and the
    operation with its fields as the step leaves them. *)
From Stdlib Require Import Ascii String.
From S2P Require Import Prelude Encoding Decode Machine Csr Mmu Devices RingBuffer GdbAsm Gdb.

(** gdb's numbers of the registers. *)
Definition REG_XPR31 : Z := 31.
Definition REG_PC : Z := 32.
Definition REG_FPR0 : Z := 33.
Definition REG_FPR31 : Z := 64.
Definition REG_CSR0 : Z := 65.
Definition REG_MSTATUS : Z := CSR_MSTATUS + REG_CSR0.
Definition REG_CSR4095 : Z := 4160.
Definition REG_PRIV : Z := 4161.

(** ** [halt_op_t] *)

Definition write_dpc_program : G unit :=
  dr_write32 0 (Asm.csrsi CSR_DCSR DCSR_HALT) ;;
  dr_write32 1 (Asm.csrr S0 CSR_DPC) ;;
  dr_write_store 2 S0 SLOT_DATA0 ;;
  dr_write_jump 3 ;;
  gs_set_interrupt 0.

Definition xlen_of_words (word0 word1 old : Z) : Z :=
  if (word0 =? 1) && (word1 =? 0) then 32
  else if (word0 =? 0xffffffff) && (word1 =? 3) then 64
  else if (word0 =? 0xffffffff) && (word1 =? 0xffffffff) then 128
  else old.

(** [cause]: the field of [dcsr]. *)
Definition send_halt_status (cause : Z) : G unit :=
  if cause =? DCSR_CAUSE_NONE then crash_with Aborted
  else if cause =? DCSR_CAUSE_DEBUGINT then send_packet (text "S02")
  else if (cause =? DCSR_CAUSE_HWBP) || (cause =? DCSR_CAUSE_STEP) || (cause =? DCSR_CAUSE_HALT)
  then send_packet (text "T05")
  else if cause =? DCSR_CAUSE_SWBP then send_packet (text "T05swbreak:;")
  else mret tt.

(** The assignment before the first [case] of the [switch] is never reached. *)
Definition halt_step (send_status : bool) (st : halt_state) : G (bool * operation) :=
  match st with
  | HALT_ENTER =>
      xlen ← get_gs gs_xlen;
      if xlen =? 0 then
        dr_write32 0 (Asm.xori S1 ZERO (-1)) ;;
        dr_write32 1 (Asm.srli S1 S1 31) ;;
        dr_write32 2 (Asm.sw S1 ZERO DEBUG_RAM_START) ;;
        dr_write32 3 (Asm.srli S1 S1 31) ;;
        dr_write32 4 (Asm.sw S1 ZERO (DEBUG_RAM_START + 4)) ;;
        dr_write_jump 5 ;;
        gs_set_interrupt 0 ;;
        mret (false, HaltOp send_status HALT_XLEN)
      else
        write_dpc_program ;; mret (false, HaltOp send_status HALT_DPC)
  | HALT_XLEN =>
      word0 ← dr_read32 0;
      word1 ← dr_read32 1;
      set_gs (fun g => g <| gs_xlen := xlen_of_words word0 word1 (gs_xlen g) |>) ;;
      write_dpc_program ;;
      mret (false, HaltOp send_status HALT_DPC)
  | HALT_DPC =>
      v ← dr_read SLOT_DATA0;
      set_gs (fun g => g <| gs_dpc := v |>) ;;
      dr_write32 0 (Asm.csrr S0 CSR_MSTATUS) ;;
      dr_write_store 1 S0 SLOT_DATA0 ;;
      dr_write_jump 2 ;;
      gs_set_interrupt 0 ;;
      mret (false, HaltOp send_status HALT_MSTATUS)
  | HALT_MSTATUS =>
      v ← dr_read SLOT_DATA0;
      set_gs (fun g => g <| gs_mstatus := v |> <| mstatus_dirty := false |>) ;;
      dr_write32 0 (Asm.csrr S0 CSR_DCSR) ;;
      dr_write32 1 (Asm.sw S0 0 (DEBUG_RAM_START + 16)) ;;
      dr_write_jump 2 ;;
      gs_set_interrupt 0 ;;
      mret (false, HaltOp send_status HALT_DCSR)
  | HALT_DCSR =>
      v ← dr_read32 4;
      set_gs (fun g => g <| gs_dcsr := v |> <| sptbr_valid := false |> <| pte_cache := ∅ |>) ;;
      (if send_status then send_halt_status (get_field v DCSR_CAUSE) else mret tt) ;;
      mret (true, HaltOp send_status HALT_DCSR)
  end.

(** ** [continue_op_t] *)

Definition resume_dcsr (single_step : bool) (dcsr : Z) : Z :=
  let dcsr := set_field dcsr DCSR_HALT 0 in
  let dcsr := set_field dcsr DCSR_STEP (b2z single_step) in
  let dcsr := set_field dcsr DCSR_EBREAKM 1 in
  let dcsr := set_field dcsr DCSR_EBREAKH 1 in
  let dcsr := set_field dcsr DCSR_EBREAKS 1 in
  set_field dcsr DCSR_EBREAKU 1.

Definition continue_step (single_step : bool) (step : Z) : G bool :=
  if step =? 0 then
    dr_write_load 0 S0 SLOT_DATA0 ;;
    dr_write32 1 (Asm.csrw S0 CSR_DPC) ;;
    g ← get_gs (fun g => g);
    (if fence_i_required g then
       dr_write32 2 Asm.fence_i ;;
       dr_write_jump 3 ;;
       set_gs (fun g => g <| fence_i_required := false |>)
     else dr_write_jump 2) ;;
    dr_write SLOT_DATA0 (gs_dpc g) ;;
    gs_set_interrupt 0 ;;
    mret false
  else if step =? 1 then
    dr_write_load 0 S0 SLOT_DATA0 ;;
    dr_write32 1 (Asm.csrw S0 CSR_MSTATUS) ;;
    dr_write_jump 2 ;;
    g ← get_gs (fun g => g);
    dr_write SLOT_DATA0 (gs_mstatus g) ;;
    gs_set_interrupt 0 ;;
    mret false
  else if step =? 2 then
    dr_write32 0 (Asm.lw S0 0 (DEBUG_RAM_START + 16)) ;;
    dr_write32 1 (Asm.csrw S0 CSR_DCSR) ;;
    dr_write_jump 2 ;;
    g ← get_gs (fun g => g);
    dr_write32 4 (resume_dcsr single_step (gs_dcsr g)) ;;
    gs_set_interrupt 0 ;;
    mret true
  else mret false.

(** ** [general_registers_read_op_t] *)

(** The program that stores register [current_reg] and the one after it; 31 has none. *)
Definition write_registers_program (step : Z) : G unit :=
  let current_reg := 2 * step + 1 in
  let s1 := current_reg =? S1 in
  let s0 := current_reg + 1 =? S0 in
  let i := 0 in
  (if s1 then dr_write_load i S1 SLOT_DATA_LAST else mret tt) ;;
  let i := i + b2z s1 in
  dr_write_store i current_reg SLOT_DATA0 ;;
  let i := i + 1 in
  (if s0 then dr_write32 i (Asm.csrr S0 CSR_DSCRATCH) else mret tt) ;;
  let i := i + b2z s0 in
  (if step <? 15 then dr_write_store i (current_reg + 1) SLOT_DATA1 else mret tt) ;;
  let i := i + b2z (step <? 15) in
  dr_write_jump i ;;
  gs_set_interrupt 0.

Definition general_registers_read_step (step : Z) : G bool :=
  if step =? 0 then
    start_packet ;;
    send_reg 0 ;;
    dr_write_store 0 1 SLOT_DATA0 ;;
    dr_write_store 1 2 SLOT_DATA1 ;;
    dr_write_jump 2 ;;
    gs_set_interrupt 0 ;;
    mret false
  else
    v ← dr_read SLOT_DATA0;
    send_reg v ;;
    if 16 <=? step then end_packet ;; mret true
    else
      v ← dr_read SLOT_DATA1;
      send_reg v ;;
      write_registers_program step ;;
      mret false.

(** ** [register_read_op_t] *)

Definition send_reg_packet (value : Z) : G unit :=
  start_packet ;; send_reg value ;; end_packet.

(** The last word of the debug RAM: whether the program raised an exception. *)
Definition read_exception : G Z := dr_read32 (DEBUG_RAM_SIZE / 4 - 1).

Definition register_read_step (reg step : Z) : G bool :=
  if step =? 0 then
    g ← get_gs (fun g => g);
    let xlen := gs_xlen g in
    if reg <=? REG_XPR31 then
      dr_write32 0 (if xlen =? 32 then Asm.sw reg 0 (DEBUG_RAM_START + 16)
                    else Asm.sd reg 0 (DEBUG_RAM_START + 16)) ;;
      dr_write_jump 1 ;;
      gs_set_interrupt 0 ;; mret false
    else if reg =? REG_PC then send_reg_packet (gs_dpc g) ;; mret true
    else if (REG_FPR0 <=? reg) && (reg <=? REG_FPR31) then
      dr_write_load 0 S0 SLOT_DATA1 ;;
      dr_write SLOT_DATA1 (set_field (gs_mstatus g) MSTATUS_FS 1) ;;
      dr_write32 1 (Asm.csrw S0 CSR_MSTATUS) ;;
      set_gs (fun g => g <| mstatus_dirty := true |>) ;;
      dr_write32 2 (if xlen =? 32 then Asm.fsw (reg - REG_FPR0) 0 (DEBUG_RAM_START + 16)
                    else Asm.fsd (reg - REG_FPR0) 0 (DEBUG_RAM_START + 16)) ;;
      dr_write_jump 3 ;;
      gs_set_interrupt 0 ;; mret false
    else if reg =? REG_MSTATUS then send_reg_packet (gs_mstatus g) ;; mret true
    else if (REG_CSR0 <=? reg) && (reg <=? REG_CSR4095) then
      dr_write32 0 (Asm.csrr S0 (reg - REG_CSR0)) ;;
      dr_write_store 1 S0 SLOT_DATA0 ;;
      dr_write_jump 2 ;;
      dr_write SLOT_DATA0 (u64 (Z.lnot 0)) ;;
      gs_set_interrupt 0 ;; mret false
    else if reg =? REG_PRIV then
      start_packet ;; send_u8 (get_field (gs_dcsr g) DCSR_PRV) ;; end_packet ;; mret true
    else send_packet (text "E02") ;; mret true
  else if step =? 1 then
    result ← read_exception;
    if z2b result then send_packet (text "E03") ;; mret true
    else
      xlen ← get_gs gs_xlen;
      start_packet ;;
      (if xlen =? 32 then v ← dr_read32 4; send_u32 v
       else v ← dr_read SLOT_DATA0; send_u64 v) ;;
      end_packet ;; mret true
  else mret false.

(** ** [register_write_op_t] *)

Definition register_write_step (reg value step : Z) : G bool :=
  if step =? 0 then
    dr_write_load 0 S0 SLOT_DATA0 ;;
    dr_write SLOT_DATA0 value ;;
    g ← get_gs (fun g => g);
    if reg =? S0 then
      dr_write32 1 (Asm.csrw S0 CSR_DSCRATCH) ;;
      dr_write_jump 2 ;;
      gs_set_interrupt 0 ;; mret false
    else if reg =? S1 then
      dr_write_store 1 S0 SLOT_DATA_LAST ;;
      dr_write_jump 2 ;;
      gs_set_interrupt 0 ;; mret false
    else if reg <=? REG_XPR31 then
      dr_write32 1 (Asm.addi reg S0 0) ;;
      dr_write_jump 2 ;;
      gs_set_interrupt 0 ;; mret false
    else if reg =? REG_PC then set_gs (fun g => g <| gs_dpc := value |>) ;; mret true
    else if (REG_FPR0 <=? reg) && (reg <=? REG_FPR31) then
      dr_write_load 0 S0 SLOT_DATA1 ;;
      dr_write SLOT_DATA1 (set_field (gs_mstatus g) MSTATUS_FS 1) ;;
      dr_write32 1 (Asm.csrw S0 CSR_MSTATUS) ;;
      set_gs (fun g => g <| mstatus_dirty := true |>) ;;
      dr_write32 2 (if gs_xlen g =? 32 then Asm.flw (reg - REG_FPR0) 0 (DEBUG_RAM_START + 16)
                    else Asm.fld (reg - REG_FPR0) 0 (DEBUG_RAM_START + 16)) ;;
      dr_write_jump 3 ;;
      gs_set_interrupt 0 ;; mret false
    else if reg =? REG_MSTATUS then
      set_gs (fun g => g <| gs_mstatus := value |> <| mstatus_dirty := true |>) ;; mret true
    else if (REG_CSR0 <=? reg) && (reg <=? REG_CSR4095) then
      dr_write32 1 (Asm.csrw S0 (reg - REG_CSR0)) ;;
      dr_write_jump 2 ;;
      (if reg =? REG_CSR0 + CSR_SPTBR
       then set_gs (fun g => g <| gs_sptbr := value |> <| sptbr_valid := true |>) else mret tt) ;;
      gs_set_interrupt 0 ;; mret false
    else if reg =? REG_PRIV then
      set_gs (fun g => g <| gs_dcsr := set_field (gs_dcsr g) DCSR_PRV value |>) ;; mret true
    else send_packet (text "E02") ;; mret true
  else if step =? 1 then
    result ← read_exception;
    send_packet (if z2b result then text "E03" else text "OK") ;; mret true
  else crash_with Aborted.

(** ** [memory_read_op_t] *)

Definition new_memory_read (vaddr length : Z) (data : option (Z * Z)) : memory_read :=
  MemoryRead vaddr (u32 length) data 0 0 (u32 length) [].

(** [*(data++) = v]: the pointer is valid as long as the breakpoint is in the map. *)
Definition write_instruction (key offset v : Z) : G unit :=
  bps ← get_gs software_breakpoints;
  match bps !! key with
  | Some bp =>
      if offset <? 4 then
        set_gs (fun g => g <| software_breakpoints :=
          <[key := SoftwareBreakpoint (sb_vaddr bp) (sb_size bp)
                     (<[Z.to_nat offset := v]> (sb_instruction bp))]> bps |>)
      else crash_with Undefined
  | None => crash_with Undefined
  end.

(** The loop over the bytes of a value. *)
Fixpoint store_value (n : nat) (value : Z) (r : memory_read) : G memory_read :=
  match n with
  | O => mret r
  | S n =>
      r ← match mr_data r with
          | Some (key, offset) =>
              write_instruction key offset (value .& 0xff) ;;
              mret (MemoryRead (mr_vaddr r) (mr_length r) (Some (key, offset + 1)) (mr_paddr r)
                      (mr_access_size r) (mr_capacity r) (mr_buf r))
          | None =>
              if Z.of_nat (length (mr_buf r)) <? mr_capacity r then
                mret (MemoryRead (mr_vaddr r) (mr_length r) None (mr_paddr r) (mr_access_size r)
                        (mr_capacity r) (mr_buf r ++ [value .& 0xff]))
              else crash_with Undefined
          end;
      store_value n (value .>> 8) r
  end.

Definition load_insn (access_size dest base offset : Z) : option Z :=
  if access_size =? 1 then Some (Asm.lb dest base offset)
  else if access_size =? 2 then Some (Asm.lh dest base offset)
  else if access_size =? 4 then Some (Asm.lw dest base offset)
  else if access_size =? 8 then Some (Asm.ld dest base offset)
  else None.
Definition store_insn (access_size src base offset : Z) : option Z :=
  if access_size =? 1 then Some (Asm.sb src base offset)
  else if access_size =? 2 then Some (Asm.sh src base offset)
  else if access_size =? 4 then Some (Asm.sw src base offset)
  else if access_size =? 8 then Some (Asm.sd src base offset)
  else None.

Fixpoint send_buffer (buf : list Z) : G unit :=
  match buf with [] => mret tt | b :: buf => send (hex2 b) ;; send_buffer buf end.

Definition memory_read_step (step : Z) (r : memory_read) : G (bool * memory_read) :=
  if step =? 0 then
    paddr ← translate (mr_vaddr r);
    xlen ← get_gs gs_xlen;
    let access_size := find_access_size paddr (mr_length r) xlen in
    dr_write_load 0 S0 SLOT_DATA0 ;;
    match load_insn access_size S1 S0 0 with Some i => dr_write32 1 i | None => mret tt end ;;
    dr_write_store 2 S1 SLOT_DATA1 ;;
    dr_write_jump 3 ;;
    dr_write SLOT_DATA0 paddr ;;
    gs_set_interrupt 0 ;;
    mret (false, MemoryRead (mr_vaddr r) (mr_length r) (mr_data r) paddr access_size
                   (mr_capacity r) (mr_buf r))
  else
    result ← read_exception;
    if z2b result then send_packet (text "E99") ;; mret (true, r)
    else
      value ← dr_read SLOT_DATA1;
      r ← store_value (Z.to_nat (mr_access_size r)) value r;
      let len := u32 (mr_length r - mr_access_size r) in
      let paddr := u64 (mr_paddr r + mr_access_size r) in
      let r := MemoryRead (mr_vaddr r) len (mr_data r) paddr (mr_access_size r) (mr_capacity r) (mr_buf r) in
      if len =? 0 then
        match mr_data r with
        | None => start_packet ;; send_buffer (mr_buf r) ;; end_packet
        | Some _ => mret tt
        end ;;
        mret (true, r)
      else
        dr_write SLOT_DATA0 paddr ;;
        gs_set_interrupt 0 ;;
        mret (false, r).

(** ** [memory_write_op_t] *)

Definition new_memory_write (vaddr length : Z) (data : list Z) : memory_write :=
  MemoryWrite vaddr 0 (u32 length) 0 data.

Definition data_at (data : list Z) (i : Z) : G Z := of_option Undefined (data !! Z.to_nat i).
(** [d[0] | (d[1] << 8) | ...], of [n] bytes. *)
Fixpoint data_word (n : nat) (data : list Z) (i : Z) : G Z :=
  match n with
  | O => mret 0
  | S n => lo ← data_at data i; hi ← data_word n data (i + 1); mret (lo .| (hi .<< 8))
  end.

(** The bytes from [offset] on, as many as an access has, in the slot of the data. *)
Definition write_data (access_size data_offset offset : Z) (data : list Z) : G unit :=
  if access_size =? 8 then
    lo ← data_word 4 data offset; dr_write32 data_offset lo ;;
    hi ← data_word 4 data (offset + 4); dr_write32 (data_offset + 1) hi
  else
    v ← data_word (Z.to_nat access_size) data offset; dr_write32 data_offset v.

Definition data_slot (xlen : Z) : G Z :=
  if xlen =? 32 then mret (slot_offset32 SLOT_DATA1)
  else if xlen =? 64 then mret (slot_offset64 SLOT_DATA1)
  else if xlen =? 128 then mret (slot_offset128 SLOT_DATA1)
  else crash_with Aborted.

Definition memory_write_step (step : Z) (o : memory_write) : G (bool * memory_write) :=
  paddr ← translate (mw_vaddr o);
  xlen ← get_gs gs_xlen;
  data_offset ← data_slot xlen;
  if step =? 0 then
    let access_size := find_access_size paddr (mw_length o) xlen in
    let o := MemoryWrite (mw_vaddr o) (mw_offset o) (mw_length o) access_size (mw_data o) in
    dr_write_load 0 S0 SLOT_DATA0 ;;
    match load_insn access_size S1 0 (DEBUG_RAM_START + 4 * data_offset), store_insn access_size S1 S0 0 with
    | Some l, Some s =>
        dr_write32 1 l ;;
        dr_write32 2 s ;;
        write_data access_size data_offset 0 (mw_data o) ;;
        dr_write_jump 3 ;;
        dr_write SLOT_DATA0 paddr ;;
        gs_set_interrupt 0 ;;
        mret (false, o)
    | _, _ => send_packet (text "E12") ;; mret (true, o)
    end
  else
    result ← read_exception;
    if z2b result then send_packet (text "E98") ;; mret (true, o)
    else
      let offset := u32 (mw_offset o + mw_access_size o) in
      let o := MemoryWrite (mw_vaddr o) offset (mw_length o) (mw_access_size o) (mw_data o) in
      if mw_length o <=? offset then send_packet (text "OK") ;; mret (true, o)
      else
        write_data (mw_access_size o) data_offset offset (mw_data o) ;;
        dr_write SLOT_DATA0 (u64 (paddr + offset)) ;;
        gs_set_interrupt 0 ;;
        mret (false, o).

(** ** [collect_translation_info_op_t] *)

Definition new_collect (vaddr length : Z) : collect_info :=
  CollectInfo COLLECT_START vaddr length 0 0 0 0.

Definition collect_read (c : collect_info) : G unit :=
  match ci_state c with
  | COLLECT_START => mret tt
  | COLLECT_READ_SPTBR =>
      v ← dr_read SLOT_DATA0;
      set_gs (fun g => g <| gs_sptbr := v |> <| sptbr_valid := true |>)
  | COLLECT_READ_PTE =>
      v ← (if ci_ptesize c =? 4 then dr_read32 4
           else hi ← dr_read32 5; lo ← dr_read32 4; mret ((hi .<< 32) .| lo));
      set_gs (fun g => g <| pte_cache := <[ci_pte_addr c := v]> (pte_cache g) |>)
  end.

Definition read_pte_program (ptesize pte_addr : Z) : G unit :=
  (if ptesize =? 4 then
     dr_write32 0 (Asm.lw S0 0 (DEBUG_RAM_START + 16)) ;;
     dr_write32 1 (Asm.lw S1 S0 0) ;;
     dr_write32 2 (Asm.sw S1 0 (DEBUG_RAM_START + 16))
   else
     xlen ← get_gs gs_xlen;
     assert (64 <=? xlen) ;;
     dr_write32 0 (Asm.ld S0 0 (DEBUG_RAM_START + 16)) ;;
     dr_write32 1 (Asm.ld S1 S0 0) ;;
     dr_write32 2 (Asm.sd S1 0 (DEBUG_RAM_START + 16))) ;;
  dr_write_jump 3 ;;
  dr_write32 4 pte_addr ;;
  dr_write32 5 (pte_addr .>> 32) ;;
  gs_set_interrupt 0.

Definition collect_next (c : collect_info) : G (bool * collect_info) :=
  let with_state st pte_addr :=
    CollectInfo st (ci_vaddr c) (ci_length c) (ci_levels c) (ci_ptidxbits c) (ci_ptesize c) pte_addr in
  g ← get_gs (fun g => g);
  if negb (sptbr_valid g) then
    dr_write32 0 (Asm.csrr S0 CSR_SPTBR) ;;
    dr_write_store 1 S0 SLOT_DATA0 ;;
    dr_write_jump 2 ;;
    gs_set_interrupt 0 ;;
    mret (false, with_state COLLECT_READ_SPTBR (ci_pte_addr c))
  else
    match find_leaf (ci_levels c) (ci_ptidxbits c) (ci_ptesize c) (ci_vaddr c) g with
    | Missing pte_addr =>
        read_pte_program (ci_ptesize c) pte_addr ;;
        mret (false, with_state COLLECT_READ_PTE pte_addr)
    | _ => mret (true, c)
    end.

Definition collect_step (step : Z) (c : collect_info) : G (bool * collect_info) :=
  vm ← get_gs virtual_memory;
  if (step =? 0) && (vm =? VM_MBARE) then mret (true, c)
  else
    c ← (if step =? 0 then
           match vm_geometry vm with
           | Some (levels, ptidxbits, ptesize) =>
               mret (CollectInfo (ci_state c) (ci_vaddr c) (ci_length c) levels ptidxbits ptesize (ci_pte_addr c))
           | None => crash_with Aborted
           end
         else mret c);
    collect_read c ;;
    collect_next c.

(** ** The operations on hardware breakpoints *)

Definition write_new_index_program (index : Z) : G unit :=
  dr_write_load 0 S0 SLOT_DATA1 ;;
  dr_write32 1 (Asm.csrw S0 CSR_TSELECT) ;;
  dr_write32 2 (Asm.csrr S0 CSR_TSELECT) ;;
  dr_write_store 3 S0 SLOT_DATA1 ;;
  dr_write_jump 4 ;;
  dr_write SLOT_DATA1 index.

Definition with_index (index : Z) (bp : hardware_breakpoint_t) : hardware_breakpoint_t :=
  HardwareBreakpoint (hb_vaddr bp) (hb_size bp) index (hb_load bp) (hb_store bp) (hb_execute bp).

Definition mcontrol_for (xlen : Z) (bp : hardware_breakpoint_t) : Z :=
  let mcontrol := set_field 0 MCONTROL_ACTION MCONTROL_ACTION_DEBUG_MODE in
  let mcontrol := set_field mcontrol (MCONTROL_DMODE xlen) 1 in
  let mcontrol := set_field mcontrol MCONTROL_MATCH MCONTROL_MATCH_EQUAL in
  let mcontrol := set_field mcontrol MCONTROL_M 1 in
  let mcontrol := set_field mcontrol MCONTROL_H 1 in
  let mcontrol := set_field mcontrol MCONTROL_S 1 in
  let mcontrol := set_field mcontrol MCONTROL_U 1 in
  let mcontrol := set_field mcontrol MCONTROL_EXECUTE (b2z (hb_execute bp)) in
  let mcontrol := set_field mcontrol MCONTROL_LOAD (b2z (hb_load bp)) in
  let mcontrol := set_field mcontrol MCONTROL_STORE (b2z (hb_store bp)) in
  if hb_load bp || hb_store bp then set_field mcontrol MCONTROL_TIMING 1 else mcontrol.

(** [std::set] with [hardware_breakpoint_compare_t]: ordered by address and size. *)
Definition same_breakpoint (a b : hardware_breakpoint_t) : bool :=
  (hb_vaddr a =? hb_vaddr b) && (hb_size a =? hb_size b).
Definition breakpoint_below (a b : hardware_breakpoint_t) : bool :=
  if negb (hb_vaddr a =? hb_vaddr b) then hb_vaddr a <? hb_vaddr b else hb_size a <? hb_size b.
Fixpoint insert_breakpoint (bp : hardware_breakpoint_t) (l : list hardware_breakpoint_t)
    : list hardware_breakpoint_t :=
  match l with
  | [] => [bp]
  | b :: l' =>
      if breakpoint_below bp b then bp :: l
      else if breakpoint_below b bp then b :: insert_breakpoint bp l' else l
  end.
Fixpoint find_breakpoint (bp : hardware_breakpoint_t) (l : list hardware_breakpoint_t)
    : option hardware_breakpoint_t :=
  match l with
  | [] => None
  | b :: l => if same_breakpoint bp b then Some b else find_breakpoint bp l
  end.

(** [type] is an unsigned int. *)
Definition hardware_breakpoint_insert_step (st : insert_state) (bp : hardware_breakpoint_t)
    : G (bool * operation) :=
  let wait st bp := gs_set_interrupt 0 ;; mret (false, HardwareBreakpointInsertOp st bp) in
  let finished := mret (true, HardwareBreakpointInsertOp st bp) in
  match st with
  | INSERT_START =>
      let bp := with_index 0 bp in
      write_new_index_program 0 ;;
      wait INSERT_CHECK_INDEX bp
  | INSERT_CHECK_INDEX =>
      v ← dr_read SLOT_DATA1;
      if negb (v =? hb_index bp) then send_packet (text "E58") ;; finished
      else
        dr_write32 0 (Asm.csrr S0 CSR_TDATA1) ;;
        dr_write_store 1 S0 SLOT_DATA0 ;;
        dr_write_jump 2 ;;
        wait INSERT_CHECK_MCONTROL bp
  | INSERT_CHECK_MCONTROL =>
      mcontrol ← dr_read SLOT_DATA0;
      xlen ← get_gs gs_xlen;
      let type := u32 (mcontrol .>> (xlen - 4)) in
      if type =? 0 then send_packet (text "E58") ;; finished
      else if (type =? 2) && negb (z2b (get_field mcontrol MCONTROL_EXECUTE))
                && negb (z2b (get_field mcontrol MCONTROL_LOAD))
                && negb (z2b (get_field mcontrol MCONTROL_STORE)) then
        dr_write_load 0 S0 SLOT_DATA1 ;;
        dr_write32 1 (Asm.csrw S0 CSR_TDATA1) ;;
        dr_write_jump 2 ;;
        dr_write SLOT_DATA1 (mcontrol_for xlen bp) ;;
        wait INSERT_WRITE_ADDRESS bp
      else
        let bp := with_index (u32 (hb_index bp + 1)) bp in
        write_new_index_program (hb_index bp) ;;
        wait INSERT_CHECK_INDEX bp
  | INSERT_WRITE_ADDRESS =>
      dr_write_load 0 S0 SLOT_DATA1 ;;
      dr_write32 1 (Asm.csrw S0 CSR_TDATA2) ;;
      dr_write_jump 2 ;;
      dr_write SLOT_DATA1 (hb_vaddr bp) ;;
      gs_set_interrupt 0 ;;
      send_packet (text "OK") ;;
      set_gs (fun g => g <| hardware_breakpoints := insert_breakpoint bp (hardware_breakpoints g) |>) ;;
      finished
  end.

Definition maybe_save_tselect_step (step : Z) : G bool :=
  valid ← get_gs tselect_valid;
  if valid : bool then mret true
  else if step =? 0 then
    dr_write32 0 (Asm.csrr S0 CSR_TDATA1) ;;
    dr_write_store 1 S0 SLOT_DATA0 ;;
    dr_write_jump 2 ;;
    gs_set_interrupt 0 ;;
    mret false
  else if step =? 1 then
    v ← dr_read SLOT_DATA0;
    set_gs (fun g => g <| gs_tselect := v |> <| tselect_valid := true |>) ;;
    mret true
  else mret true.

(** Neither of these two asks the hart to run its program. *)
Definition maybe_restore_tselect_step : G bool :=
  g ← get_gs (fun g => g);
  (if tselect_valid g then
     dr_write_load 0 S0 SLOT_DATA1 ;;
     dr_write32 1 (Asm.csrw S0 CSR_TSELECT) ;;
     dr_write_jump 2 ;;
     dr_write SLOT_DATA1 (gs_tselect g)
   else mret tt) ;;
  mret true.
Definition maybe_restore_mstatus_step : G bool :=
  g ← get_gs (fun g => g);
  (if mstatus_dirty g then
     dr_write_load 0 S0 SLOT_DATA1 ;;
     dr_write32 1 (Asm.csrw S0 CSR_MSTATUS) ;;
     dr_write_jump 2 ;;
     dr_write SLOT_DATA1 (gs_mstatus g)
   else mret tt) ;;
  mret true.

Definition hardware_breakpoint_remove_step (bp : hardware_breakpoint_t) : G bool :=
  dr_write32 0 (Asm.addi S0 ZERO (hb_index bp)) ;;
  dr_write32 1 (Asm.csrw S0 CSR_TSELECT) ;;
  dr_write32 2 (Asm.csrw ZERO CSR_TDATA1) ;;
  dr_write_jump 3 ;;
  gs_set_interrupt 0 ;;
  mret true.

(** ** [perform_step] *)

Definition perform_step (op : operation) (step : Z) : G (bool * operation) :=
  let keep (c : G bool) : G (bool * operation) := b ← c; mret (b, op) in
  match op with
  | HaltOp send_status st => halt_step send_status st
  | ContinueOp single_step => keep (continue_step single_step step)
  | GeneralRegistersReadOp => keep (general_registers_read_step step)
  | RegisterReadOp reg => keep (register_read_step reg step)
  | RegisterWriteOp reg value => keep (register_write_step reg value step)
  | MemoryReadOp r => '(b, r) ← memory_read_step step r; mret (b, MemoryReadOp r)
  | MemoryWriteOp o => '(b, o) ← memory_write_step step o; mret (b, MemoryWriteOp o)
  | CollectTranslationInfoOp c => '(b, c) ← collect_step step c; mret (b, CollectTranslationInfoOp c)
  | HardwareBreakpointInsertOp st bp => hardware_breakpoint_insert_step st bp
  | MaybeSaveTselectOp => keep (maybe_save_tselect_step step)
  | MaybeRestoreTselectOp => keep maybe_restore_tselect_step
  | MaybeRestoreMstatusOp => keep maybe_restore_mstatus_step
  | HardwareBreakpointRemoveOp bp => keep (hardware_breakpoint_remove_step bp)
  end.
