(* ===== verification/GdbServer.v ===== *)
(** riscv/gdbserver.cc: the server itself.  It takes requests off the receive buffer, answers
    them or queues the operations they need, steps the operation in front whenever the hart is
    not busy with the one before, and moves bytes between its buffers and the socket.

    The sockets are the system's: what [accept], [read] and [write] return is an argument of
    [handle].  Whether the system grants an allocation is a parameter. *)
From Stdlib Require Import Ascii String.
From S2P Require Import Prelude Encoding Decode Machine Csr Mmu Devices RingBuffer GdbAsm Gdb GdbOps.

(** ** Parsing

    An iterator is the rest of the packet. *)

Definition chr (a : ascii) : Z := Z.of_nat (nat_of_ascii a).

(** [*iter]: past the end it is undefined. *)
Definition deref (iter : list Z) : G Z := of_option Undefined (head iter).

Definition compute_checksum (packet : list Z) : Z :=
  foldr (fun b s => u8 (s + b)) 0 (take (length packet - 4) (drop 1 packet)).

Definition character_hex_value (c : Z) : Z :=
  if (48 <=? c) && (c <=? 57) then c - 48
  else if (97 <=? c) && (c <=? 102) then 10 + c - 97
  else if (65 <=? c) && (c <=? 70) then 10 + c - 65
  else 0xff.

Definition extract_checksum (packet : list Z) : Z :=
  let from_end n := default 0 (packet !! (length packet - n)%nat) in
  u8 (character_hex_value (from_end 1%nat) + 16 * character_hex_value (from_end 2%nat)).

Fixpoint hex_number (value : Z) (iter : list Z) : Z * list Z :=
  match iter with
  | [] => (value, [])
  | c :: rest =>
      if 15 <? character_hex_value c then (value, iter)
      else hex_number (u64 (u64 (value .<< 4) + character_hex_value c)) rest
  end.
Definition consume_hex_number (iter : list Z) : Z * list Z := hex_number 0 iter.

(** A shift by 64 bits or more is undefined. *)
Fixpoint hex_number_le (value shift : Z) (iter : list Z) : G (Z * list Z) :=
  match iter with
  | [] => mret (value, [])
  | c :: rest =>
      if 15 <? character_hex_value c then mret (value, iter)
      else if shift <? 64 then
        hex_number_le (value .| u64 (character_hex_value c .<< shift))
          (if shift mod 8 =? 0 then shift + 12 else shift - 4) rest
      else crash_with Undefined
  end.
Definition consume_hex_number_le (iter : list Z) : G (Z * list Z) := hex_number_le 0 4 iter.

Fixpoint consume_string (iter : list Z) (separator : Z) : list Z * list Z :=
  match iter with
  | [] => ([], [])
  | c :: rest =>
      if c =? separator then ([], iter)
      else let '(str, rest) := consume_string rest separator in (c :: str, rest)
  end.

(** ** The requests *)

Definition handle_halt_reason : G unit := send_packet (text "S00").
Definition handle_general_registers_read : G unit := add_operation GeneralRegistersReadOp.
Definition handle_extended : G unit :=
  send_packet (text "OK") ;; set_gs (fun g => g <| extended_mode := true |>).
Definition handle_interrupt : G unit := add_operation (HaltOp true HALT_ENTER).

Definition handle_register_read (packet : list Z) : G unit :=
  let '(n, iter) := consume_hex_number (drop 2 packet) in
  c ← deref iter;
  if negb (c =? chr "#") then send_packet (text "E01")
  else add_operation (RegisterReadOp (u32 n)).

Definition handle_register_write (packet : list Z) : G unit :=
  let '(n, iter) := consume_hex_number (drop 2 packet) in
  c ← deref iter;
  if negb (c =? chr "=") then send_packet (text "E05")
  else
    '(value, iter) ← consume_hex_number_le (drop 1 iter);
    c ← deref iter;
    if negb (c =? chr "#") then send_packet (text "E06")
    else
      add_operation (RegisterWriteOp (u32 n) value) ;;
      send_packet (text "OK").

Definition handle_continue (packet : list Z) : G unit :=
  c ← of_option Undefined (packet !! 2%nat);
  stop ←
    (if negb (c =? chr "#") then
       let '(n, iter) := consume_hex_number (drop 2 packet) in
       set_gs (fun g => g <| gs_dpc := n |>) ;;
       c ← deref iter;
       if negb (c =? chr "#") then send_packet (text "E30") ;; mret true else mret false
     else mret false);
  if stop : bool then mret tt
  else
    add_operation MaybeRestoreTselectOp ;;
    add_operation MaybeRestoreMstatusOp ;;
    add_operation (ContinueOp false).

Definition handle_step (packet : list Z) : G unit :=
  c ← of_option Undefined (packet !! 2%nat);
  if negb (c =? chr "#") then crash_with Aborted
  else
    add_operation MaybeRestoreTselectOp ;;
    add_operation (ContinueOp true).

(** The features of [qSupported]; [n] bounds their number. *)
Fixpoint send_features (n : nat) (iter : list Z) : G unit :=
  match n, iter with
  | S n, _ :: _ =>
      let '(feature, iter) := consume_string iter (chr ";") in
      (if bool_decide (feature = text "swbreak+") then send (text "swbreak+;") else mret tt) ;;
      send_features n (drop 1 iter)
  | _, _ => mret tt
  end.

Definition handle_query (packet : list Z) : G unit :=
  let '(name, iter) := consume_string (drop 2 packet) (chr ":") in
  let iter := drop 1 iter in
  if bool_decide (name = text "Supported") then
    start_packet ;;
    send_features (length packet) iter ;;
    send (text "PacketSize=131072;") ;;
    end_packet
  else send_packet [].

Section server.
Variable can_allocate : Z -> bool.

(** [new unsigned char[length]] *)
Definition allocate (length : Z) : G unit :=
  if can_allocate length then mret tt else crash_with OutOfMemory.

Definition add_memory_read (vaddr length : Z) (data : option (Z * Z)) : G unit :=
  allocate (u32 length) ;; add_operation (MemoryReadOp (new_memory_read vaddr length data)).

Definition handle_memory_read (packet : list Z) : G unit :=
  let '(address, iter) := consume_hex_number (drop 2 packet) in
  c ← deref iter;
  if negb (c =? chr ",") then send_packet (text "E10")
  else
    let '(len, iter) := consume_hex_number (drop 1 iter) in
    c ← deref iter;
    if negb (c =? chr "#") then send_packet (text "E11")
    else
      add_operation (CollectTranslationInfoOp (new_collect address len)) ;;
      add_memory_read address len None.

(** The loop over the data: what it stores and the iterator, or the error it replies. *)
Fixpoint unescape (len : nat) (iter : list Z) : (list Z * list Z) + list Z :=
  match len with
  | O => inl ([], iter)
  | S len =>
      match iter with
      | [] => inr (text "E22")
      | c :: iter =>
          let rest :=
            if c =? chr "}" then
              match iter with
              | [] => inr (text "E23")
              | c :: iter => inl (c .^ 0x20, iter)
              end
            else inl (c, iter) in
          match rest with
          | inr e => inr e
          | inl (c, iter) =>
              match unescape len iter with
              | inr e => inr e
              | inl (data, iter) => inl (c :: data, iter)
              end
          end
      end
  end.

Definition handle_memory_binary_write (packet : list Z) : G unit :=
  let '(address, iter) := consume_hex_number (drop 2 packet) in
  c ← deref iter;
  if negb (c =? chr ",") then send_packet (text "E20")
  else
    let '(len, iter) := consume_hex_number (drop 1 iter) in
    c ← deref iter;
    if negb (c =? chr ":") then send_packet (text "E21")
    else
      let iter := drop 1 iter in
      if len =? 0 then send_packet (text "OK")
      else
        allocate len ;;
        (* no more bytes than the packet has: the loop ends there *)
        match unescape (Z.to_nat (Z.min len (Z.of_nat (length packet + 1)))) iter with
        | inr e => send_packet e
        | inl (data, iter) =>
            c ← deref iter;
            if negb (c =? chr "#") then send_packet (text "E4b")
            else
              add_operation (CollectTranslationInfoOp (new_collect address len)) ;;
              add_operation (MemoryWriteOp (new_memory_write address len data))
        end.

(** ** Breakpoints *)

Definition MATCH_EBREAK : Z := insn_match rv_ebreak.
Definition MATCH_C_EBREAK : Z := insn_match rv_c_ebreak.

(** The other bytes of the array are not initialised, and zero here. *)
Definition ebreak_bytes (size : Z) : list Z :=
  if size =? 2 then bytes_of 2 MATCH_C_EBREAK ++ [0; 0] else bytes_of 4 MATCH_EBREAK.

Definition software_breakpoint_insert (vaddr size : Z) : G unit :=
  set_gs (fun g => g <| fence_i_required := true |>) ;;
  add_operation (CollectTranslationInfoOp (new_collect vaddr size)) ;;
  allocate 4 ;;
  set_gs (fun g => g <| software_breakpoints :=
    <[vaddr := SoftwareBreakpoint vaddr size [0; 0; 0; 0]]> (software_breakpoints g) |>) ;;
  add_memory_read vaddr size (Some (vaddr, 0)) ;;
  add_operation (MemoryWriteOp (new_memory_write vaddr size (ebreak_bytes size))).

(** [operator[]] of the map makes an empty breakpoint where there is none. *)
Definition software_breakpoint_remove (vaddr size : Z) : G unit :=
  set_gs (fun g => g <| fence_i_required := true |>) ;;
  add_operation (CollectTranslationInfoOp (new_collect vaddr size)) ;;
  bps ← get_gs software_breakpoints;
  let found_bp := default (SoftwareBreakpoint 0 0 [0; 0; 0; 0]) (bps !! vaddr) in
  allocate 4 ;;
  add_operation (MemoryWriteOp (new_memory_write (sb_vaddr found_bp) (sb_size found_bp) (sb_instruction found_bp))) ;;
  set_gs (fun g => g <| software_breakpoints := delete vaddr (software_breakpoints g) |>).

Definition hardware_breakpoint_insert (bp : hardware_breakpoint_t) : G unit :=
  add_operation MaybeSaveTselectOp ;;
  add_operation (HardwareBreakpointInsertOp INSERT_START bp).

(** [*hardware_breakpoints.find(bp)]: the end of the set is not to be read. *)
Definition hardware_breakpoint_remove (bp : hardware_breakpoint_t) : G unit :=
  add_operation MaybeSaveTselectOp ;;
  bps ← get_gs hardware_breakpoints;
  found ← of_option Undefined (find_breakpoint bp bps);
  add_operation (HardwareBreakpointRemoveOp found).

Definition GB_SOFTWARE : Z := 0.
Definition GB_HARDWARE : Z := 1.
Definition GB_WRITE : Z := 2.
Definition GB_READ : Z := 3.
Definition GB_ACCESS : Z := 4.

Definition breakpoint_of (type vaddr size : Z) : hardware_breakpoint_t :=
  HardwareBreakpoint vaddr size 0 ((type =? GB_READ) || (type =? GB_ACCESS))
    ((type =? GB_WRITE) || (type =? GB_ACCESS)) ((type =? GB_HARDWARE) || (type =? GB_ACCESS)).

(** The type is an unsigned int. *)
Definition dispatch_breakpoint (insert : bool) (type address size : Z) : G unit :=
  if type =? GB_SOFTWARE then
    if negb (size =? 2) && negb (size =? 4) then send_packet (text "E53")
    else
      (if insert then software_breakpoint_insert address size
       else software_breakpoint_remove address size) ;;
      send_packet (text "OK")
  else if (GB_HARDWARE <=? type) && (type <=? GB_ACCESS) then
    let bp := breakpoint_of type address size in
    if insert then hardware_breakpoint_insert bp
    else hardware_breakpoint_remove bp ;; send_packet (text "OK")
  else send_packet (text "E56").

Definition handle_breakpoint (packet : list Z) : G unit :=
  let insert := bool_decide (packet !! 1%nat = Some (chr "Z")) in
  let '(type, iter) := consume_hex_number (drop 2 packet) in
  c ← deref iter;
  if negb (c =? chr ",") then send_packet (text "E50")
  else
    let '(address, iter) := consume_hex_number (drop 1 iter) in
    c ← deref iter;
    if negb (c =? chr ",") then send_packet (text "E51")
    else
      let '(size, iter) := consume_hex_number (drop 1 iter) in
      c ← deref iter;
      if negb (c =? chr "#") then send_packet (text "E52")
      else dispatch_breakpoint insert (u32 type) address (u32 size).

(** ** Packets *)

Definition dispatch_command (c : Z) (packet : list Z) : G unit :=
  if c =? chr "!" then handle_extended
  else if c =? chr "?" then handle_halt_reason
  else if c =? chr "g" then handle_general_registers_read
  else if c =? chr "m" then handle_memory_read packet
  else if c =? chr "X" then handle_memory_binary_write packet
  else if c =? chr "p" then handle_register_read packet
  else if c =? chr "P" then handle_register_write packet
  else if c =? chr "c" then handle_continue packet
  else if c =? chr "s" then handle_step packet
  else if (c =? chr "z") || (c =? chr "Z") then handle_breakpoint packet
  else if (c =? chr "q") || (c =? chr "Q") then handle_query packet
  else send_packet [].
Definition dispatch (packet : list Z) : G unit :=
  c ← of_option Undefined (packet !! 1%nat);
  dispatch_command c packet.

Definition handle_packet (packet : list Z) : G unit :=
  if negb (compute_checksum packet =? extract_checksum packet) then send (text "-")
  else send (text "+") ;; dispatch packet.

(** One turn of the inner loop of [process_requests] over the bytes received: [packet] is what
    was pushed so far, the last byte first, and [i] the position. *)
Inductive scanned :=
  | Ack
  | Interrupt
  | Malformed (i : Z)
  | Packet (packet : list Z) (i : Z)
  | Partial.

Fixpoint scan (n : nat) (i : Z) (packet : list Z) (ack : bool) (b : circular_buffer) : scanned :=
  match n with
  | O => Partial
  | S n =>
      let c := rb_entry b i in
      let first := bool_decide (packet = []) in
      if first && ack && (c =? chr "+") then Ack
      else if first && (c =? 3) then Interrupt
      else if (c =? chr "$") && negb first then Malformed i
      else
        let packet := c :: packet in
        if (4 <=? Z.of_nat (length packet)) && bool_decide (packet !! 2%nat = Some (chr "#"))
        then Packet (rev packet) i
        else scan n (i + 1) packet ack b
  end.

Definition consume (n : Z) : G unit := set_gs (fun g => g <| recv_buf := rb_consume n (recv_buf g) |>).

(** A turn of the outer loop takes a byte off the buffer, or is the last. *)
Fixpoint request_loop (fuel : nat) : G unit :=
  match fuel with
  | O => mret tt
  | S fuel =>
      g ← get_gs (fun g => g);
      if rb_empty (recv_buf g) then mret tt
      else
        match scan (Z.to_nat (rb_size (recv_buf g))) 0 [] (expect_ack g) (recv_buf g) with
        | Ack => consume 1 ;; request_loop fuel
        | Interrupt => consume 1 ;; handle_interrupt ;; request_loop fuel
        | Malformed i => consume i
        | Packet packet i => handle_packet packet ;; consume (i + 1)
        | Partial => mret tt
        end
  end.

Definition process_requests : G unit :=
  g ← get_gs (fun g => g);
  request_loop (S (Z.to_nat (rb_size (recv_buf g)))) ;;
  g ← get_gs (fun g => g);
  assert (negb (rb_full (recv_buf g))).

(** ** The socket *)

(** What the system calls return.  [sock_read] is given the number of bytes there is room
    for; [sock_write] the number of the call and the bytes, and says how many it took, or -1. *)
Inductive accept_result := NoClient | AcceptFailed | Accepted (fd : Z).
Inductive read_result := ReadAgain | ReadFailed | ReadBytes (bytes : list Z).
Record socket := Socket {
  sock_accept : accept_result;
  sock_read : Z -> read_result;
  sock_write : nat -> list Z -> Z
}.

Definition accept (s : socket) : G unit :=
  match sock_accept s with
  | NoClient => set_gs (fun g => g <| client_fd := -1 |>)
  | AcceptFailed => crash_with Aborted
  | Accepted fd =>
      set_gs (fun g => g <| client_fd := fd |> <| expect_ack := false |> <| extended_mode := false |>) ;;
      add_operation (HaltOp false HALT_ENTER)
  end.

(** No byte at all: the client has disconnected. *)
Definition read (s : socket) : G unit :=
  b ← get_gs recv_buf;
  match sock_read s (contiguous_empty_size b) with
  | ReadAgain => mret tt
  | ReadFailed => crash_with Aborted
  | ReadBytes [] =>
      set_gs (fun g => g <| client_fd := 0 |> <| recv_buf := rb_reset (recv_buf g) |>
                         <| send_buf := rb_reset (send_buf g) |>)
  | ReadBytes bytes =>
      b ← of_option Aborted (data_added (Z.of_nat (length bytes)) (write_contiguous bytes b));
      set_gs (fun g => g <| recv_buf := b |>)
  end.

Fixpoint write_loop (fuel k : nat) (s : socket) : G unit :=
  match fuel with
  | O => mret tt
  | S fuel =>
      b ← get_gs send_buf;
      if rb_empty b then mret tt
      else
        let count := contiguous_data_size b in
        assert (0 <? count) ;;
        let bytes := sock_write s k (contiguous_data count b) in
        if bytes =? -1 then crash_with Aborted
        else if bytes =? 0 then mret tt
        else
          set_gs (fun g => g <| sent := sent g ++ contiguous_data bytes b |>
                             <| send_buf := rb_consume bytes b |>) ;;
          write_loop fuel (S k) s
  end.

(** Every call but the last takes a byte: there are no more of them than bytes. *)
Definition write (s : socket) : G unit :=
  b ← get_gs send_buf; write_loop (Z.to_nat (rb_size b)) 0 s.

(** ** [handle] *)

(** [operation->step()] of the operation in front. *)
Definition step_operation : G unit :=
  queue ← get_gs operation_queue;
  match queue with
  | [] => mret tt
  | (op, step) :: _ =>
      '(complete, op) ← perform_step op step;
      set_gs (fun g => g <| operation_queue :=
        if complete : bool then tail (operation_queue g)
        else (op, step + 1) :: tail (operation_queue g) |>)
  end.

Definition handle (s : socket) : G unit :=
  g ← get_gs (fun g => g);
  (if 0 <? client_fd g then
     interrupt ← get_devices (debug_get_interrupt 0);
     (if (interrupt : bool) then mret tt else step_operation) ;;
     notification ← get_devices (get_halt_notification 0);
     (if notification : bool then
        set_devices (clear_halt_notification 0) ;; add_operation (HaltOp true HALT_ENTER)
      else mret tt) ;;
     read s ;;
     write s
   else accept s) ;;
  queue ← get_gs operation_queue;
  if bool_decide (queue = []) then process_requests else mret tt.

End server.

(** The constructor initialises [xlen], the socket and the buffers only; [uninit] has what the
    other fields happen to be. *)
Definition new_gdbserver (uninit : gdbserver_t) : gdbserver_t :=
  (uninit) <| gs_xlen := 0 |> <| client_fd := 0 |> <| recv_buf := new_buffer 0x180000 |>
    <| send_buf := new_buffer (64 * 1024) |> <| pte_cache := ∅ |> <| hardware_breakpoints := [] |>
    <| software_breakpoints := ∅ |> <| operation_queue := [] |> <| sent := [] |>.
