(* ===== verification/GdbProps.v ===== *)
(** The protocol of the debugger's server (GdbServer.v): the packets it sends, and the requests
    it understands. *)
From Stdlib Require Import Ascii String.
From S2P Require Import Prelude Encoding Decode Machine Csr Mmu Devices RingBuffer GdbAsm Gdb GdbOps GdbServer.

(** ** Hexadecimal digits *)

Lemma hex_digit_value d : 0 <= d < 16 -> character_hex_value (hex_digit d) = d.
Proof.
  intros Hd. unfold character_hex_value, hex_digit. destruct (Z.ltb_spec d 10).
  - rewrite (proj2 (Z.leb_le 48 _)), (proj2 (Z.leb_le _ 57)) by lia. cbn. lia.
  - rewrite (proj2 (Z.leb_gt _ 57)), andb_false_r by lia.
    rewrite (proj2 (Z.leb_le 97 _)), (proj2 (Z.leb_le _ 102)) by lia. cbn. lia.
Qed.

Lemma hex_digit_range d : 0 <= d < 16 -> 48 <= hex_digit d <= 57 \/ 97 <= hex_digit d <= 102.
Proof. intros Hd. unfold hex_digit. destruct (Z.ltb_spec d 10); lia. Qed.

(** The two digits of a byte. *)
Lemma nibbles v : 0 <= v < 256 -> 0 <= v .>> 4 < 16 /\ 0 <= v .& 15 < 16 /\ v = (v .>> 4) * 16 + (v .& 15).
Proof.
  intros Hv. rewrite shr_div by lia. change 15 with (2 ^ 4 - 1). rewrite land_mask by lia.
  change (2 ^ 4) with 16. zdm.
Qed.

(** A character that ends a number. *)
Definition not_hex (c : Z) : Prop := 15 < character_hex_value c.
Definition stops (rest : list Z) : Prop := match rest with [] => True | c :: _ => not_hex c end.

Lemma hex_number_stops v rest : stops rest -> hex_number v rest = (v, rest).
Proof.
  destruct rest as [| c rest]; cbn [hex_number stops]; [done |]. unfold not_hex. intros H.
  by rewrite (proj2 (Z.ltb_lt _ _)).
Qed.

Lemma hex_number_digit v d rest :
  0 <= d < 16 -> 0 <= v -> v * 16 + d < 2 ^ 64 ->
  hex_number v (hex_digit d :: rest) = hex_number (v * 16 + d) rest.
Proof.
  intros Hd Hv Hs. cbn [hex_number]. rewrite hex_digit_value by done.
  rewrite (proj2 (Z.ltb_ge 15 d)) by lia. rewrite shl_mul by lia. change (2 ^ 4) with 16.
  by rewrite (wrap_small 64 (v * 16)), wrap_small by lia.
Qed.

Lemma hex_digits_parse fuel x rest :
  0 <= x < 16 ^ Z.of_nat fuel -> x < 2 ^ 64 -> (0 < fuel)%nat ->
  hex_number 0 (hex_digits fuel x ++ rest) = hex_number x rest.
Proof.
  revert x rest. induction fuel as [| fuel IH]; intros x rest Hx Hs Hf; [lia |]. cbn [hex_digits].
  assert (Hn : 0 <= x .& 15 < 16 /\ x = (x .>> 4) * 16 + (x .& 15) /\ 0 <= x .>> 4).
  { rewrite shr_div by lia. change 15 with (2 ^ 4 - 1). rewrite land_mask by lia. change (2 ^ 4) with 16.
    assert (0 <= x) by lia. clear IH Hx. zdm. }
  destruct (Z.ltb_spec x 16).
  - cbn [app]. rewrite hex_number_digit by lia. f_equal. lia.
  - rewrite <- app_assoc. cbn [app].
    rewrite Nat2Z.inj_succ, Z.pow_succ_r in Hx by lia.
    assert (0 < fuel)%nat by (destruct fuel; [cbn in Hx; lia | lia]).
    rewrite IH, hex_number_digit by lia. f_equal. lia.
Qed.

Lemma hex_parse x rest : in_range 64 x -> stops rest -> consume_hex_number (hex x ++ rest) = (x, rest).
Proof.
  intros Hx Hr. unfold consume_hex_number, hex. rewrite hex_digits_parse by (done || lia || (unfold in_range in Hx; lia)).
  by apply hex_number_stops.
Qed.

(** A register as the server sends it, and gdb does: the bytes from the lowest on. *)
Definition hex_le (n : nat) (v : Z) : list Z := bytes_of n v ≫= hex2.

Lemma hex_number_le_byte acc k b rest g w :
  0 <= b < 256 -> 0 <= k < 8 -> 0 <= acc < 2 ^ (8 * k) ->
  hex_number_le acc (8 * k + 4) (hex2 b ++ rest) g w =
  hex_number_le (acc + b * 2 ^ (8 * k)) (8 * (k + 1) + 4) rest g w.
Proof.
  intros Hb Hk Ha. destruct (nibbles b Hb) as (H1 & H2 & E). unfold hex2. cbn [app hex_number_le].
  rewrite !hex_digit_value by done. rewrite !(proj2 (Z.ltb_ge 15 _)) by lia.
  rewrite (proj2 (Z.ltb_lt (8 * k + 4) 64)) by lia.
  assert ((8 * k + 4) mod 8 = 4) as -> by zdm. change (4 =? 0) with false. cbv match beta.
  replace (8 * k + 4 - 4) with (8 * k) by lia. rewrite (proj2 (Z.ltb_lt (8 * k) 64)) by lia.
  assert ((8 * k) mod 8 = 0) as -> by zdm. change (0 =? 0) with true. cbv match beta.
  replace (8 * k + 12) with (8 * (k + 1) + 4) by lia.
  assert (Hp : 0 < 2 ^ (8 * k)) by (apply pow2_pos; lia).
  assert (P4 : 2 ^ (8 * k + 4) = 2 ^ (8 * k) * 16) by (rewrite Z.pow_add_r by lia; lia).
  assert (P8 : 2 ^ (8 * k) * 256 <= 2 ^ 64).
  { replace 64 with (8 * k + 8 + (56 - 8 * k)) by lia. rewrite !Z.pow_add_r by lia.
    pose proof (pow2_pos (56 - 8 * k) ltac:(lia)). change (2 ^ 8) with 256. nia. }
  f_equal. rewrite !shl_mul by lia. rewrite P4, !wrap_small by nia.
  rewrite (Z.lor_comm acc), (lor_add _ acc (8 * k + 4)) by (lia || (rewrite P4; nia) || (rewrite P4, Z.mul_assoc; apply Z.mod_mul; nia) || (rewrite P4; apply Z.mod_mul; nia)).
  assert (L : (b .>> 4) * (2 ^ (8 * k) * 16) + acc = (b .>> 4) * 2 ^ (8 * k + 4) + acc) by (rewrite P4; lia).
  rewrite L. rewrite <- (lor_add _ acc (8 * k + 4)) by (lia || (rewrite P4; nia) || (apply Z.mod_mul; rewrite P4; nia)).
  rewrite <- Z.lor_assoc, (Z.lor_comm acc), (lor_add _ acc (8 * k)) by (lia || (apply Z.mod_mul; lia)).
  rewrite (lor_add _ _ (8 * k + 4)) by (lia || (apply Z.mod_mul; rewrite P4; nia) || (rewrite P4; nia)).
  rewrite P4. lia.
Qed.

Lemma hex_le_parse n k v acc rest g w :
  (k + n <= 8)%nat -> 0 <= acc < 2 ^ (8 * Z.of_nat k) -> stops rest -> 0 <= v ->
  hex_number_le acc (8 * Z.of_nat k + 4) (hex_le n v ++ rest) g w =
  inl (acc + v mod 2 ^ (8 * Z.of_nat n) * 2 ^ (8 * Z.of_nat k), rest, g, w).
Proof.
  revert k v acc. induction n as [| n IH]; intros k v acc Hk Ha Hr Hv.
  { change (Z.of_nat 0) with 0. rewrite Z.mul_0_r, Z.mod_1_r, Z.mul_0_l, Z.add_0_r. cbn [hex_le bytes_of mbind list_bind app].
    destruct rest as [| c rest]; [done |]. cbn [hex_number_le]. cbn in Hr. unfold not_hex in Hr.
    by rewrite (proj2 (Z.ltb_lt _ _)) by done. }
  unfold hex_le. cbn [bytes_of mbind list_bind]. rewrite <- app_assoc.
  pose proof (wrap_range 8 v ltac:(lia)) as Hb. unfold in_range in Hb.
  rewrite hex_number_le_byte by lia.
  replace (Z.of_nat k + 1) with (Z.of_nat (S k)) by lia.
  assert (Hp : 0 < 2 ^ (8 * Z.of_nat k)) by (apply pow2_pos; lia).
  assert (P8 : 2 ^ (8 * Z.of_nat (S k)) = 2 ^ (8 * Z.of_nat k) * 256)
    by (rewrite <- (Z.pow_add_r 2 _ 8) by lia; f_equal; lia).
  change (bytes_of n (v .>> 8) ≫= hex2) with (hex_le n (v .>> 8)).
  rewrite IH by (done || lia || (rewrite P8; nia) || (rewrite shr_div by lia; apply Z.div_pos; lia)).
  do 4 f_equal. rewrite P8, shr_div by lia. change (2 ^ 8) with 256.
  replace (8 * Z.of_nat (S n)) with (8 + 8 * Z.of_nat n) by lia. rewrite Z.pow_add_r by lia.
  change (2 ^ 8) with 256. rewrite Z.rem_mul_r by (lia || (pose proof (pow2_pos (8 * Z.of_nat n) ltac:(lia)); lia)).
  unfold wrap. change (2 ^ 8) with 256. lia.
Qed.

Lemma bind_ok {A B} (c : G A) (k : A -> G B) g w a g' w' :
  c g w = inl (a, g', w') -> (c ≫= k) g w = k a g' w'.
Proof. intros E. unfold mbind, G_bind. by rewrite E. Qed.

(** ** Sending *)

Definition sum (l : list Z) : Z := foldr Z.add 0 l.

(** A packet: the data between the dollar sign and the checksum. *)
Definition frame (data : list Z) : list Z := text "$" ++ data ++ text "#" ++ hex2 (u8 (sum data)).

Definition is_byte (c : Z) : Prop := 0 <= c < 256.

Definition can_send (n : Z) (g : gdbserver_t) : Prop := buffer_ok (send_buf g) /\ n < room (send_buf g).

(** The server [g'] is [g] with the bytes in its send buffer; the checksum it keeps and whether
    it expects an acknowledgement may have changed. *)
Record sends (msg : list Z) (g g' : gdbserver_t) : Prop := {
  sd_rest : g' = (g) <| send_buf := send_buf g' |> <| running_checksum := running_checksum g' |>
                     <| expect_ack := expect_ack g' |>;
  sd_ok : buffer_ok (send_buf g');
  sd_contents : contents (send_buf g') = contents (send_buf g) ++ msg;
  sd_capacity : rb_capacity (send_buf g') = rb_capacity (send_buf g)
}.

Lemma sends_trans m1 m2 g1 g2 g3 : sends m1 g1 g2 -> sends m2 g2 g3 -> sends (m1 ++ m2) g1 g3.
Proof.
  intros [R1 O1 C1 K1] [R2 O2 C2 K2]. split; [| done | by rewrite C2, C1, app_assoc | congruence].
  rewrite R2, R1. by destruct g1.
Qed.

Lemma sends_room n m g g' :
  can_send (Z.of_nat (length m) + n) g -> sends m g g' -> can_send n g'.
Proof.
  intros [O R] [_ O' C K]. split; [done |]. unfold room in *. rewrite C, K, length_app. lia.
Qed.

Lemma send_ok msg g w :
  can_send (Z.of_nat (length msg)) g ->
  exists g', send msg g w = inl (tt, g', w) /\ sends msg g g' /\
    running_checksum g' = u8 (running_checksum g + sum msg) /\ expect_ack g' = expect_ack g.
Proof.
  intros [O R]. destruct (append_room msg (send_buf g) O R) as (b & E & Ob & C & K).
  unfold send, mbind, G_bind, set_gs, get_gs.
  change (send_buf ((g) <| running_checksum := u8 (running_checksum g + foldr Z.add 0 msg) |>)) with (send_buf g).
  rewrite E. eexists. split; [done |]. split; [| done]. split; [by destruct g | done..].
Qed.

Lemma sends_checksum c g : buffer_ok (send_buf g) -> sends [] g ((g) <| running_checksum := c |>).
Proof. split; [by destruct g | done | by rewrite app_nil_r | done]. Qed.
Lemma sends_expect a g : buffer_ok (send_buf g) -> sends [] g ((g) <| expect_ack := a |>).
Proof. split; [by destruct g | done | by rewrite app_nil_r | done]. Qed.

Lemma start_packet_ok n g w :
  can_send (1 + n) g -> 0 <= n ->
  exists g', start_packet g w = inl (tt, g', w) /\ sends (text "$") g g' /\ running_checksum g' = 0 /\
    can_send n g'.
Proof.
  intros Hc Hn. unfold start_packet.
  destruct (send_ok (text "$") g w) as (g1 & E1 & S1 & _); [destruct Hc; split; [done | cbn; lia] |].
  unfold mbind, G_bind. rewrite E1. eexists. split; [done |].
  assert (S : sends (text "$") g ((g1) <| running_checksum := 0 |>)).
  { rewrite <- (app_nil_r (text "$")). eapply sends_trans; [exact S1 |]. apply sends_checksum, S1. }
  split; [done |]. split; [done |]. by apply (sends_room n (text "$") g).
Qed.

Lemma length_hex2 v : length (hex2 v) = 2%nat.
Proof. done. Qed.

Lemma end_packet_ok g w :
  can_send 3 g ->
  exists g', end_packet g w = inl (tt, g', w) /\ sends (text "#" ++ hex2 (running_checksum g)) g g' /\
    expect_ack g' = true.
Proof.
  intros Hc. unfold end_packet. cbn [mbind G_bind get_gs].
  destruct (send_ok (text "#" ++ hex2 (running_checksum g)) g w Hc) as (g1 & E1 & S1 & _).
  unfold mbind, G_bind, get_gs. rewrite E1. eexists. split; [done |].
  split; [| done]. rewrite <- (app_nil_r (text "#" ++ _)). eapply sends_trans; [exact S1 |]. apply sends_expect, S1.
Qed.

(** A reply is one packet. *)
Lemma send_packet_ok data g w :
  can_send (Z.of_nat (length data) + 4) g ->
  exists g', send_packet data g w = inl (tt, g', w) /\ sends (frame data) g g' /\ expect_ack g' = true.
Proof.
  intros Hc. unfold send_packet.
  destruct (start_packet_ok (Z.of_nat (length data) + 3) g w) as (g1 & E1 & S1 & C1 & H1);
    [by replace (1 + (Z.of_nat (length data) + 3)) with (Z.of_nat (length data) + 4) by lia | lia |].
  destruct (send_ok data g1 w) as (g2 & E2 & S2 & C2 & _); [destruct H1; split; [done | lia] |].
  destruct (end_packet_ok g2 w) as (g3 & E3 & S3 & _); [by apply (sends_room 3 data g1) |].
  unfold mbind, G_bind. rewrite E1, E2, E3. eexists. split; [done |]. split; [| done].
  rewrite C2, C1 in S3. cbn [Z.add] in S3.
  pose proof (sends_trans _ _ _ _ _ (sends_trans _ _ _ _ _ S1 S2) S3) as S.
  rewrite <- (app_nil_r (frame data)). eapply sends_trans; [| apply sends_expect, S3].
  unfold frame. by rewrite <- app_assoc in S.
Qed.

(** ** Checksums *)

Lemma foldr_checksum l : foldr (fun b s => u8 (s + b)) 0 l = u8 (sum l).
Proof.
  induction l as [| b l IH]; [done |]. cbn [foldr sum]. rewrite IH. rewrite wrap_add_idemp_l.
  f_equal. unfold sum. lia.
Qed.

Lemma length_frame data : length (frame data) = (length data + 4)%nat.
Proof. unfold frame. rewrite !length_app. cbn. lia. Qed.

Lemma compute_frame data x y :
  compute_checksum (text "$" ++ data ++ text "#" ++ [x; y]) = u8 (sum data).
Proof.
  unfold compute_checksum. rewrite <- foldr_checksum. f_equal.
  change (text "$") with [36]. change (text "#" ++ [x; y]) with [35; x; y]. cbn [app drop skipn length].
  rewrite length_app. cbn [length]. replace (S (length data + 3) - 4)%nat with (length data) by lia.
  apply take_app_length.
Qed.

Lemma extract_frame data x y :
  extract_checksum (text "$" ++ data ++ text "#" ++ [x; y]) =
  u8 (character_hex_value y + 16 * character_hex_value x).
Proof.
  unfold extract_checksum. set (p := text "$" ++ data ++ text "#").
  assert (text "$" ++ data ++ text "#" ++ [x; y] = p ++ [x; y]) as -> by (unfold p; by rewrite <- !app_assoc).
  rewrite length_app. cbn [length]. rewrite !lookup_app_r by lia.
  replace (length p + 2 - 1 - length p)%nat with 1%nat by lia.
  replace (length p + 2 - 2 - length p)%nat with 0%nat by lia. done.
Qed.

Lemma hex2_checksum v :
  0 <= v < 256 ->
  u8 (character_hex_value (hex_digit (v .& 15)) + 16 * character_hex_value (hex_digit (v .>> 4))) = v.
Proof.
  intros Hv. destruct (nibbles v Hv) as (H1 & H2 & E). rewrite !hex_digit_value by done.
  rewrite wrap_small by lia. lia.
Qed.

Lemma frame_checksum data : compute_checksum (frame data) = extract_checksum (frame data).
Proof.
  unfold frame, hex2. rewrite compute_frame, extract_frame, hex2_checksum; [done |].
  apply (wrap_range 8). lia.
Qed.

(** ** Finding a packet in what was received *)

(** Neither the mark of the checksum nor the one of a new packet. *)
Definition clean (data : list Z) : Prop := Forall (fun c => c <> chr "#" /\ c <> chr "$") data.

Definition packet_of (data : list Z) (x y : Z) : list Z := text "$" ++ data ++ text "#" ++ [x; y].

Lemma frame_packet data :
  frame data = packet_of data (hex_digit (u8 (sum data) .>> 4)) (hex_digit (u8 (sum data) .& 15)).
Proof. done. Qed.

Lemma scan_push n i p ack b c :
  p <> [] -> c <> chr "$" -> rb_entry b i = c -> (forall d q, p = d :: q -> head q <> Some (chr "#")) ->
  scan (S n) i p ack b = scan n (i + 1) (c :: p) ack b.
Proof.
  intros Hp Hc He Hq. cbn [scan]. rewrite He. rewrite bool_decide_eq_false_2 by done. cbn [andb negb].
  rewrite (proj2 (Z.eqb_neq _ _)) by done. cbn [andb].
  rewrite (bool_decide_eq_false_2 ((c :: p) !! 2%nat = Some (chr "#"))); [by rewrite andb_false_r |].
  destruct p as [| d q]; [done |]. specialize (Hq d q eq_refl). by destruct q.
Qed.

(** Characters that are not marks are pushed. *)
Lemma scan_clean data n i p ack b :
  p <> [] -> clean p \/ p = text "$" \/ (exists q, p = q ++ text "$" /\ clean q) -> clean data ->
  (forall j, (j < length data)%nat -> rb_entry b (i + Z.of_nat j) = default 0 (data !! j)) ->
  scan (length data + n) i p ack b = scan n (i + Z.of_nat (length data)) (rev data ++ p) ack b.
Proof.
  revert i p. induction data as [| c data IH]; intros i p Hp Hq Hd He.
  { cbn. by rewrite Z.add_0_r. }
  apply Forall_cons in Hd as [[Hc1 Hc2] Hd]. cbn [length Nat.add].
  pose proof (He 0%nat ltac:(cbn; lia)) as E0. rewrite Z.add_0_r in E0. cbn in E0.
  assert (Hp' : Forall (fun c => c <> chr "#") p).
  { destruct Hq as [Hq | [-> | (q & -> & Hq)]].
    - eapply Forall_impl; [exact Hq | by intros ? []].
    - by repeat constructor.
    - apply Forall_app. split; [eapply Forall_impl; [exact Hq | by intros ? []] | by repeat constructor]. }
  rewrite (scan_push _ _ _ _ _ c) by (done || (intros d q ->; destruct q; [done |]; cbn; intros [= ->];
    apply Forall_cons in Hp' as [_ Hp']; by apply Forall_cons in Hp' as [? _])).
  rewrite IH.
  - cbn [rev]. rewrite <- app_assoc. cbn [app]. f_equal. lia.
  - done.
  - destruct Hq as [Hq | [-> | (q & -> & Hq)]].
    + left. by constructor.
    + right; right. exists [c]. split; [done |]. by repeat constructor.
    + right; right. exists (c :: q). split; [done |]. by constructor.
  - done.
  - intros j Hj. replace (i + 1 + Z.of_nat j) with (i + Z.of_nat (S j)) by lia. by rewrite He by (cbn; lia).
Qed.

Lemma scan_packet data x y rest ack b :
  buffer_ok b -> clean data -> x <> chr "$" -> y <> chr "$" ->
  contents b = packet_of data x y ++ rest ->
  scan (Z.to_nat (rb_size b)) 0 [] ack b = Packet (packet_of data x y) (Z.of_nat (length data) + 3).
Proof.
  intros Hb Hd Hx Hy E.
  assert (He : forall j v, (packet_of data x y ++ rest) !! j = Some v -> rb_entry b (Z.of_nat j) = v).
  { intros j v Hj. pose proof (lookup_lt_Some _ _ _ Hj). rewrite entry_contents, E, Nat2Z.id, Hj by (done || (rewrite ?E; lia)).
    done. }
  rewrite <- length_contents, Nat2Z.id, E by done.
  assert (L : length (packet_of data x y ++ rest) = S (length data + S (S (S (length rest))))).
  { unfold packet_of. rewrite !length_app. cbn. lia. }
  rewrite L. unfold packet_of in *. change (text "$") with [36] in *. change (text "#" ++ [x; y]) with [35; x; y] in *.
  cbn [app] in *. pose proof (He 0%nat _ eq_refl) as E0. change (Z.of_nat 0) with 0 in E0.
  assert (Epos : forall k, 0 + 1 + Z.of_nat k = Z.of_nat (S k)) by lia.
  set (q := data ++ [35; x; y]) in *.
  assert (Eq : forall j v, q !! j = Some v -> rb_entry b (0 + 1 + Z.of_nat j) = v).
  { intros j v Hj. rewrite Epos. apply He. change ((q ++ rest) !! j = Some v). rewrite lookup_app_l; [done | by eapply lookup_lt_Some]. }
  cbn [scan]. rewrite E0. change (chr "+") with 43. change (chr "$") with 36 in *. change (chr "#") with 35 in *.
  rewrite bool_decide_eq_true_2 by done. change (36 =? 43) with false. change (36 =? 3) with false.
  change (36 =? 36) with true. rewrite !andb_false_r. cbn [negb andb length].
  change (4 <=? Z.of_nat 1) with false. cbn [andb].
  rewrite scan_clean; [| done | right; by left | done |].
  2: { intros j Hj. destruct (lookup_lt_is_Some_2 data j Hj) as [v Ev]. rewrite Ev. apply Eq. unfold q.
       by rewrite lookup_app_l. }
  assert (Ea : forall k v, [35; x; y] !! k = Some v -> rb_entry b (0 + 1 + Z.of_nat (length data) + Z.of_nat k) = v).
  { intros k v Hk. pose proof (Eq (length data + k)%nat v) as Ev. rewrite Nat2Z.inj_add, Z.add_assoc in Ev. apply Ev.
    unfold q. rewrite lookup_app_r by lia. by replace (length data + k - length data)%nat with k by lia. }
  pose proof (Ea 0%nat _ eq_refl) as A0. pose proof (Ea 1%nat _ eq_refl) as A1. pose proof (Ea 2%nat _ eq_refl) as A2.
  assert (Hr : Forall (fun c => c <> 35) (rev data ++ [36])).
  { apply Forall_app. split; [| by repeat constructor]. apply Forall_rev.
    eapply Forall_impl; [exact Hd |]. by intros ? []. }
  assert (Hne : rev data ++ [36] <> []) by by destruct (rev data).
  rewrite Z.add_0_r in A0. rewrite (scan_push _ _ _ _ _ 35) by (done || (intros d l El; rewrite El in Hr;
    destruct l; [done |]; cbn; intros [= ->]; apply Forall_cons in Hr as [_ Hr]; by apply Forall_cons in Hr as [? _])).
  rewrite (scan_push _ _ _ _ _ x) by (done || (intros d l [= <- <-]; destruct (rev data ++ [36]) as [| e l]; [done |];
    cbn; intros [= ->]; by apply Forall_cons in Hr as [? _])).
  change (Z.of_nat 1) with 1 in A1. change (Z.of_nat 2) with 2 in A2.
  cbn [scan].
  replace (0 + 1 + Z.of_nat (length data) + 1 + 1) with (0 + 1 + Z.of_nat (length data) + 2) by lia.
  rewrite A2.
  rewrite bool_decide_eq_false_2 by done. cbn [andb negb]. rewrite andb_true_r, (proj2 (Z.eqb_neq y (chr "$"))) by done.
  rewrite bool_decide_eq_true_2 by done. rewrite (proj2 (Z.leb_le _ _)) by (rewrite !length_cons, length_app; cbn [length]; lia).
  cbn [andb]. f_equal; [| lia]. cbn [rev]. rewrite rev_app_distr, rev_involutive. cbn [rev app].
  by rewrite <- !app_assoc.
Qed.

(** ** Requests

    What a debugger may ask, and how it writes it. *)
Inductive request :=
  | QExtended
  | QHaltReason
  | QRegisters
  | QReadRegister (n : Z)
  | QWriteRegister (n value : Z)
  | QReadMemory (address length : Z)
  | QWriteMemory (address : Z) (data : list Z)
  | QContinue
  | QContinueAt (address : Z)
  | QStep
  | QBreakpoint (insert : bool) (type address size : Z).

Definition escape (c : Z) : list Z :=
  if (c =? chr "#") || (c =? chr "$") || (c =? chr "}") then [chr "}"; c .^ 0x20] else [c].

(** A register has eight bytes, or four. *)
Definition encode (xlen : Z) (r : request) : list Z :=
  match r with
  | QExtended => text "!"
  | QHaltReason => text "?"
  | QRegisters => text "g"
  | QReadRegister n => text "p" ++ hex n
  | QWriteRegister n v => text "P" ++ hex n ++ text "=" ++ hex_le (Z.to_nat (xlen / 8)) v
  | QReadMemory a l => text "m" ++ hex a ++ text "," ++ hex l
  | QWriteMemory a data =>
      text "X" ++ hex a ++ text "," ++ hex (Z.of_nat (length data)) ++ text ":" ++ (data ≫= escape)
  | QContinue => text "c"
  | QContinueAt a => text "c" ++ hex a
  | QStep => text "s"
  | QBreakpoint insert t a s =>
      text (if insert then "Z" else "z") ++ hex t ++ text "," ++ hex a ++ text "," ++ hex s
  end.

Definition valid (xlen : Z) (r : request) : Prop :=
  match r with
  | QReadRegister n => in_range 32 n
  | QWriteRegister n v => in_range 32 n /\ in_range xlen v
  | QReadMemory a l => in_range 64 a /\ in_range 64 l
  | QWriteMemory a data => in_range 64 a /\ Z.of_nat (length data) < 2 ^ 64 /\ Forall is_byte data
  | QContinueAt a => in_range 64 a
  | QBreakpoint _ t a s => in_range 32 t /\ in_range 64 a /\ in_range 32 s
  | _ => True
  end.

Section requests.
Variable can_allocate : Z -> bool.

(** What the server does for it. *)
Definition action (r : request) : G unit :=
  match r with
  | QExtended => send_packet (text "OK") ;; set_gs (fun g => g <| extended_mode := true |>)
  | QHaltReason => send_packet (text "S00")
  | QRegisters => add_operation GeneralRegistersReadOp
  | QReadRegister n => add_operation (RegisterReadOp n)
  | QWriteRegister n v => add_operation (RegisterWriteOp n v) ;; send_packet (text "OK")
  | QReadMemory a l =>
      add_operation (CollectTranslationInfoOp (new_collect a l)) ;; add_memory_read can_allocate a l None
  | QWriteMemory a [] => send_packet (text "OK")
  | QWriteMemory a data =>
      let len := Z.of_nat (length data) in
      allocate can_allocate len ;;
      add_operation (CollectTranslationInfoOp (new_collect a len)) ;;
      add_operation (MemoryWriteOp (new_memory_write a len data))
  | QContinue =>
      add_operation MaybeRestoreTselectOp ;; add_operation MaybeRestoreMstatusOp ;; add_operation (ContinueOp false)
  | QContinueAt a =>
      set_gs (fun g => g <| gs_dpc := a |>) ;;
      add_operation MaybeRestoreTselectOp ;; add_operation MaybeRestoreMstatusOp ;; add_operation (ContinueOp false)
  | QStep => add_operation MaybeRestoreTselectOp ;; add_operation (ContinueOp true)
  | QBreakpoint insert t a s => dispatch_breakpoint can_allocate insert t a s
  end.

(** The packet after the letter: the operands, the mark and the checksum. *)
Lemma packet_after c data x y :
  packet_of (c :: data) x y !! 1%nat = Some c /\
  drop 2 (packet_of (c :: data) x y) = data ++ [chr "#"; x; y] /\
  length (packet_of (c :: data) x y) = (length data + 5)%nat.
Proof. unfold packet_of. split; [done |]. split; [done |]. rewrite !length_app. cbn. lia. Qed.

Lemma hash_stops x y : stops [chr "#"; x; y].
Proof. by vm_compute. Qed.

Lemma stops_char c rest : not_hex c -> stops ([c] ++ rest).
Proof. done. Qed.

Lemma length_escape data : (length data <= length (data ≫= escape))%nat.
Proof.
  induction data as [| c data IH]; [done |].
  change ((c :: data) ≫= escape) with (escape c ++ (data ≫= escape)). rewrite length_app.
  assert (1 <= length (escape c))%nat by (unfold escape; case_match; cbn; lia). cbn [length]. lia.
Qed.

Lemma unescape_escape data rest :
  Forall is_byte data -> unescape (length data) ((data ≫= escape) ++ rest) = inl (data, rest).
Proof.
  induction data as [| c data IH]; intros Hd; [done |]. apply Forall_cons in Hd as [Hc Hd].
  change ((c :: data) ≫= escape) with (escape c ++ (data ≫= escape)). rewrite <- app_assoc. cbn [length].
  unfold escape at 1. change (chr "}") with 125. change (chr "#") with 35. change (chr "$") with 36.
  destruct (Z.eqb_spec c 35) as [-> |]; [cbn [orb app unescape]; change (125 =? chr "}") with true; cbv match; by rewrite IH |].
  destruct (Z.eqb_spec c 36) as [-> |]; [cbn [orb app unescape]; change (125 =? chr "}") with true; cbv match; by rewrite IH |].
  destruct (Z.eqb_spec c 125) as [-> |]; [cbn [orb app unescape]; change (125 =? chr "}") with true; cbv match; by rewrite IH |].
  cbn [orb app unescape]. change (chr "}") with 125. rewrite (proj2 (Z.eqb_neq c 125)) by done. by rewrite IH.
Qed.

Lemma dispatch_letter c data x y g w :
  dispatch can_allocate (packet_of (c :: data) x y) g w =
  dispatch_command can_allocate c (packet_of (c :: data) x y) g w.
Proof. done. Qed.

(** The comparisons of a known character. *)
Ltac compare_chars :=
  repeat match goal with
  | |- context [Z.eqb (Zpos ?c) (chr ?a)] =>
      let v := eval vm_compute in (Z.eqb (Zpos c) (chr a)) in change (Z.eqb (Zpos c) (chr a)) with v
  end; cbv match; cbn [negb orb].
Ltac ends_number := first [exact (hash_stops _ _) | apply stops_char; by vm_compute].
Ltac after_letter c data :=
  match goal with
  | |- context [packet_of (c :: data) ?x ?y] => rewrite (proj1 (proj2 (packet_after c data x y)))
  end.

Lemma in_range_weaken v w x : 0 <= v <= w -> in_range v x -> in_range w x.
Proof. intros Hv Hx. pose proof (pow2_le v w Hv). unfold in_range in *. lia. Qed.

Lemma read_register_dispatch n x y g w :
  in_range 32 n ->
  dispatch can_allocate (packet_of (text "p" ++ hex n) x y) g w = add_operation (RegisterReadOp n) g w.
Proof.
  intros Hn. change (text "p" ++ hex n) with (112 :: hex n).
  rewrite dispatch_letter. unfold dispatch_command. compare_chars. unfold handle_register_read. after_letter 112 (hex n).
  rewrite hex_parse by (ends_number || by apply (in_range_weaken 32)). rewrite (wrap_small 32 n) by done. reflexivity.
Qed.

Lemma write_register_dispatch xl n v x y g w :
  xl = 32 \/ xl = 64 -> in_range 32 n -> in_range xl v ->
  dispatch can_allocate (packet_of (encode xl (QWriteRegister n v)) x y) g w =
  action (QWriteRegister n v) g w.
Proof.
  intros Hx Hn Hv. set (k := Z.to_nat (xl / 8)).
  assert (Hk : (k <= 8)%nat /\ 8 * Z.of_nat k = xl) 
    by (unfold k; destruct Hx as [-> | ->]; [change (Z.to_nat (32 / 8)) with 4%nat | change (Z.to_nat (64 / 8)) with 8%nat]; lia).
  change (encode xl (QWriteRegister n v)) with (80 :: (hex n ++ [61] ++ hex_le k v)).
  set (data := hex n ++ [61] ++ hex_le k v).
  rewrite dispatch_letter. unfold dispatch_command. compare_chars. unfold handle_register_write. after_letter 80 data. unfold data. rewrite <- !app_assoc.
  rewrite hex_parse by (ends_number || by apply (in_range_weaken 32)). cbv beta iota.
  change (deref ([61] ++ hex_le k v ++ [chr "#"; x; y])) with (mret (M := G) 61).
  change (drop 1 ([61] ++ hex_le k v ++ [chr "#"; x; y])) with (hex_le k v ++ [chr "#"; x; y]).
  unfold consume_hex_number_le.
  assert (E : hex_number_le 0 4 (hex_le k v ++ [chr "#"; x; y]) g w = inl (v, [chr "#"; x; y], g, w)).
  { change 4 with (8 * Z.of_nat 0 + 4). rewrite hex_le_parse; [| lia | done | apply hash_stops | apply Hv].
    rewrite (proj2 Hk). change (2 ^ (8 * Z.of_nat 0)) with 1. rewrite Z.mul_1_r, Z.add_0_l, Z.mod_small by done. done. }
  rewrite (bind_ok (mret 61) _ g w 61 g w eq_refl). change (negb (61 =? chr "=")) with false. cbv iota.
  rewrite (bind_ok _ _ g w _ g w E). cbv beta iota. rewrite (wrap_small 32 n) by done. reflexivity.
Qed.


Lemma deref_char c rest g w : deref ([c] ++ rest) g w = inl (c, g, w).
Proof. done. Qed.
Lemma deref_hash x y g w : deref [chr "#"; x; y] g w = inl (chr "#", g, w).
Proof. done. Qed.

(** Past a number and the mark after it. *)
Ltac past_mark :=
  rewrite hex_parse by (ends_number || done || by apply (in_range_weaken 32));
  cbv beta iota;
  first [ rewrite (bind_ok _ _ _ _ _ _ _ (deref_char _ _ _ _))
        | rewrite (bind_ok _ _ _ _ _ _ _ (deref_hash _ _ _ _)) ];
  repeat match goal with
  | |- context [negb (?a =? ?b)] =>
      let v := eval vm_compute in (negb (a =? b)) in change (negb (a =? b)) with v
  end; cbv beta iota;
  repeat match goal with |- context [drop 1 ([?c] ++ ?rest)] => change (drop 1 ([c] ++ rest)) with rest end.

Lemma read_memory_dispatch xl a l x y g w :
  in_range 64 a -> in_range 64 l ->
  dispatch can_allocate (packet_of (encode xl (QReadMemory a l)) x y) g w = action (QReadMemory a l) g w.
Proof.
  intros Ha Hl. change (encode xl (QReadMemory a l)) with (109 :: (hex a ++ [44] ++ hex l)).
  set (data := hex a ++ [44] ++ hex l).
  rewrite dispatch_letter. unfold dispatch_command. compare_chars. unfold handle_memory_read.
  after_letter 109 data. unfold data. rewrite <- !app_assoc. past_mark. past_mark. reflexivity.
Qed.

Lemma breakpoint_dispatch xl insert t a s x y g w :
  in_range 32 t -> in_range 64 a -> in_range 32 s ->
  dispatch can_allocate (packet_of (encode xl (QBreakpoint insert t a s)) x y) g w =
  action (QBreakpoint insert t a s) g w.
Proof.
  intros Ht Ha Hs. set (data := hex t ++ [44] ++ hex a ++ [44] ++ hex s).
  assert (E : encode xl (QBreakpoint insert t a s) = (if insert then 90 else 122) :: data) by by destruct insert.
  assert (G : dispatch can_allocate (packet_of (encode xl (QBreakpoint insert t a s)) x y) g w =
    handle_breakpoint can_allocate (packet_of ((if insert then 90 else 122) :: data) x y) g w).
  { rewrite E, dispatch_letter. unfold dispatch_command. destruct insert; by compare_chars. }
  rewrite G. unfold handle_breakpoint. rewrite (proj1 (packet_after _ data x y)), (proj1 (proj2 (packet_after _ data x y))).
  assert (bool_decide (Some (if insert then 90 else 122) = Some (chr "Z")) = insert) as -> by by destruct insert.
  unfold data. rewrite <- !app_assoc. past_mark. past_mark. past_mark.
  by rewrite (wrap_small 32 t), (wrap_small 32 s) by done.
Qed.

Lemma continue_dispatch xl a x y g w :
  in_range 64 a ->
  dispatch can_allocate (packet_of (encode xl (QContinueAt a)) x y) g w = action (QContinueAt a) g w.
Proof.
  intros Ha. change (encode xl (QContinueAt a)) with (99 :: hex a).
  rewrite dispatch_letter. unfold dispatch_command. compare_chars. unfold handle_continue.
  after_letter 99 (hex a).
  assert (E : exists c, packet_of (99 :: hex a) x y !! 2%nat = Some c /\ (c =? chr "#") = false).
  { assert (Hd : exists d l, 0 <= d < 16 /\ hex a = hex_digit d :: l).
    { assert (G : forall n v, (0 < n)%nat -> 0 <= v -> exists d l, 0 <= d < 16 /\ hex_digits n v = hex_digit d :: l).
      { intros n. induction n as [| n IH]; intros v Hn Hv; [lia |]. cbn [hex_digits].
        assert (0 <= v .& 15 < 16) by (change 15 with (2 ^ 4 - 1); rewrite land_mask by lia; apply Z.mod_pos_bound; lia).
        destruct (Z.ltb_spec v 16); [by exists (v .& 15), [] |]. destruct n as [| n]; [by exists (v .& 15), [] |].
        destruct (IH (v .>> 4) ltac:(lia)) as (d & l & Hd & ->); [rewrite shr_div by lia; apply Z.div_pos; lia |].
        by exists d, (l ++ [hex_digit (v .& 15)]). }
      apply G; [lia | apply Ha]. }
    destruct Hd as (d & l & Hd & E). rewrite E. exists (hex_digit d). split; [done |].
    pose proof (hex_digit_range d Hd). apply Z.eqb_neq. change (chr "#") with 35. lia. }
  destruct E as (c & -> & Ec).
  rewrite (bind_ok (of_option Undefined (Some c)) _ g w c g w eq_refl). rewrite Ec. cbn [negb].
  rewrite hex_parse by (ends_number || done). reflexivity.
Qed.

Lemma write_memory_dispatch xl a data x y g w :
  in_range 64 a -> Z.of_nat (length data) < 2 ^ 64 -> Forall is_byte data ->
  dispatch can_allocate (packet_of (encode xl (QWriteMemory a data)) x y) g w =
  action (QWriteMemory a data) g w.
Proof.
  intros Ha Hl Hd. set (n := Z.of_nat (length data)) in *.
  change (encode xl (QWriteMemory a data)) with (88 :: (hex a ++ [44] ++ hex n ++ [58] ++ (data ≫= escape))).
  set (p := hex a ++ [44] ++ hex n ++ [58] ++ (data ≫= escape)).
  rewrite dispatch_letter. unfold dispatch_command. compare_chars. unfold handle_memory_binary_write.
  rewrite (proj2 (proj2 (packet_after 88 p x y))). after_letter 88 p.
  assert (Lp : (length data <= length p)%nat).
  { unfold p. rewrite !length_app. pose proof (length_escape data). lia. }
  unfold p at 1. rewrite <- !app_assoc. past_mark.
  rewrite hex_parse by (ends_number || (unfold n, in_range; lia)). cbv beta iota.
  rewrite (bind_ok _ _ _ _ _ _ _ (deref_char _ _ _ _)). change (negb (58 =? chr ":")) with false. cbv beta iota zeta.
  change (drop 1 ([58] ++ (data ≫= escape) ++ [chr "#"; x; y])) with ((data ≫= escape) ++ [chr "#"; x; y]).
  unfold n. destruct data as [| c data']; [done |]. set (data := c :: data') in *.
  rewrite (proj2 (Z.eqb_neq _ 0)) by (unfold data; cbn [length]; lia).
  rewrite Z.min_l by lia. rewrite Nat2Z.id, unescape_escape by done. reflexivity.
Qed.

Lemma dispatch_request xl r x y g w :
  xl = 32 \/ xl = 64 -> valid xl r ->
  dispatch can_allocate (packet_of (encode xl r) x y) g w = action r g w.
Proof.
  intros Hx Hv. destruct r; cbn [valid] in Hv.
  - reflexivity.
  - reflexivity.
  - reflexivity.
  - by apply read_register_dispatch.
  - destruct Hv. by apply write_register_dispatch.
  - destruct Hv. by apply read_memory_dispatch.
  - destruct Hv as (? & ? & ?). by apply write_memory_dispatch.
  - reflexivity.
  - by apply continue_dispatch.
  - reflexivity.
  - destruct Hv as (? & ? & ?). by apply breakpoint_dispatch.
Qed.


(** ** A request is taken off the buffer *)

Lemma clean_app a b : clean a -> clean b -> clean (a ++ b).
Proof. intros. by apply Forall_app. Qed.

Lemma hex_digit_clean d : 0 <= d < 16 -> hex_digit d <> chr "#" /\ hex_digit d <> chr "$".
Proof. intros Hd. pose proof (hex_digit_range d Hd). change (chr "#") with 35. change (chr "$") with 36. lia. Qed.

Lemma land15 v : 0 <= v .& 15 < 16.
Proof. change 15 with (2 ^ 4 - 1). rewrite land_mask by lia. apply Z.mod_pos_bound. lia. Qed.

Lemma hex_clean v : clean (hex v).
Proof.
  unfold hex. generalize 16%nat. intros n. revert v. induction n as [| n IH]; intros v; [by constructor |].
  cbn [hex_digits]. apply clean_app; [case_match; [by constructor | done] |].
  constructor; [| by constructor]. apply hex_digit_clean, land15.
Qed.

Lemma hex2_clean v : 0 <= v < 256 -> clean (hex2 v).
Proof. intros Hv. destruct (nibbles v Hv) as (H1 & H2 & _). by repeat constructor; apply hex_digit_clean. Qed.

Lemma hex_le_clean n v : clean (hex_le n v).
Proof.
  revert v. induction n as [| n IH]; intros v; [by constructor |].
  change (hex_le (S n) v) with (hex2 (u8 v) ++ hex_le n (v .>> 8)). apply clean_app; [| apply IH].
  apply hex2_clean, (wrap_range 8). lia.
Qed.

Lemma lxor_clean c : c = 35 \/ c = 36 \/ c = 125 -> clean [125; c .^ 0x20].
Proof. intros [-> | [-> | ->]]; by repeat constructor. Qed.

Lemma escape_clean data : clean (data ≫= escape).
Proof.
  induction data as [| c data IH]; [by constructor |].
  change ((c :: data) ≫= escape) with (escape c ++ (data ≫= escape)). apply clean_app; [| done].
  unfold escape. change (chr "#") with 35. change (chr "$") with 36. change (chr "}") with 125.
  destruct (Z.eqb_spec c 35); [apply lxor_clean; lia |].
  destruct (Z.eqb_spec c 36); [apply lxor_clean; lia |].
  destruct (Z.eqb_spec c 125); [apply lxor_clean; lia |]. by repeat constructor.
Qed.

Lemma encode_clean xl r : clean (encode xl r).
Proof.
  destruct r as [| | | | | | | | | | insert]; cbn [encode]; try destruct insert;
    repeat match goal with |- clean (_ ++ _) => apply clean_app end;
    first [apply hex_clean | apply hex_le_clean | apply escape_clean | (constructor; [by split | constructor])].
Qed.

(** The packet goes to its handler and leaves the buffer. *)
Definition after_packet (n : Z) : G unit :=
  consume n ;; g ← get_gs (fun g => g); assert (negb (rb_full (recv_buf g))).

Lemma process_packet data x y rest g w :
  buffer_ok (recv_buf g) -> clean data -> x <> chr "$" -> y <> chr "$" ->
  contents (recv_buf g) = packet_of data x y ++ rest ->
  process_requests can_allocate g w =
  (handle_packet can_allocate (packet_of data x y) ;; after_packet (Z.of_nat (length data) + 4)) g w.
Proof.
  intros Hb Hd Hx Hy E. unfold process_requests.
  rewrite (bind_ok _ _ g w g g w eq_refl). cbn [request_loop].
  assert (Ee : rb_empty (recv_buf g) = false).
  { rewrite empty_contents by done. apply bool_decide_eq_false_2. by rewrite E. }
  pose proof (scan_packet data x y rest (expect_ack g) (recv_buf g) Hb Hd Hx Hy E) as Es.
  unfold after_packet. unfold mbind, G_bind, get_gs. rewrite Ee, Es.
  destruct (handle_packet can_allocate (packet_of data x y) g w) as [[[[] g1] w1] |]; [| done].
  by rewrite <- (Z.add_assoc _ 3 1).
Qed.

Lemma handle_packet_checksum data x y g w :
  handle_packet can_allocate (packet_of data x y) g w =
  if u8 (sum data) =? u8 (character_hex_value y + 16 * character_hex_value x)
  then (send (text "+") ;; dispatch can_allocate (packet_of data x y)) g w
  else send (text "-") g w.
Proof. unfold handle_packet, packet_of. rewrite compute_frame, extract_frame. by destruct (_ =? _). Qed.

Lemma consume_packet data x y rest b :
  buffer_ok b -> contents b = packet_of data x y ++ rest ->
  contents (rb_consume (Z.of_nat (length data) + 4) b) = rest.
Proof.
  intros Hb E. assert (L : length (packet_of data x y) = (length data + 4)%nat)
    by (unfold packet_of; rewrite !length_app; cbn; lia).
  destruct (consume_spec (Z.of_nat (length data) + 4) b Hb) as (_ & -> & _).
  - rewrite E, length_app. lia.
  - rewrite E. replace (Z.to_nat (Z.of_nat (length data) + 4)) with (length (packet_of data x y)) by lia.
    apply drop_app_length.
Qed.

Lemma hex_digit_mark d : 0 <= d < 16 -> hex_digit d <> chr "$".
Proof. intros Hd. by destruct (hex_digit_clean d Hd). Qed.

(** C27: A request a debugger writes is understood.  When it is what the server has received
    first, the server acknowledges it, does what was asked -- the operations it queues or the
    reply it sends have the register number, the address, the length and the data of the
    request, escaped or not -- and leaves what follows the request in the buffer.  With a wrong
    checksum it asks for the request again and does nothing else. *)
Theorem requests_understood xl r rest g w :
  xl = 32 \/ xl = 64 -> valid xl r -> buffer_ok (recv_buf g) ->
  let data := encode xl r in
  let n := Z.of_nat (length data) + 4 in
  (contents (recv_buf g) = frame data ++ rest ->
     process_requests can_allocate g w = (send (text "+") ;; action r ;; after_packet n) g w /\
     contents (rb_consume n (recv_buf g)) = rest) /\
  (forall x y, x <> chr "$" -> y <> chr "$" ->
     u8 (character_hex_value y + 16 * character_hex_value x) <> u8 (sum data) ->
     contents (recv_buf g) = text "$" ++ data ++ text "#" ++ [x; y] ++ rest ->
     process_requests can_allocate g w = (send (text "-") ;; after_packet n) g w /\
     contents (rb_consume n (recv_buf g)) = rest).
Proof.
  intros Hxl Hv Hb. cbv zeta. set (data := encode xl r) in *.
  assert (Hc : clean data) by apply encode_clean. split.
  - rewrite frame_packet. pose proof (wrap_range 8 (sum data) ltac:(lia)) as Hs.
    destruct (nibbles _ Hs) as (H1 & H2 & _). set (x := hex_digit _). set (y := hex_digit _). intros E.
    split; [| by apply (consume_packet data x y)].
    rewrite (process_packet data x y rest) by (done || by apply hex_digit_mark).
    unfold mbind at 1, G_bind at 1. rewrite handle_packet_checksum.
    unfold x, y. rewrite hex2_checksum, Z.eqb_refl by done.
    unfold mbind, G_bind. destruct (send (text "+") g w) as [[[[] g1] w1] |]; [| done].
    unfold data. by rewrite dispatch_request.
  - intros x y Hx Hy Hn E.
    assert (E' : contents (recv_buf g) = packet_of data x y ++ rest)
      by (rewrite E; unfold packet_of; by rewrite <- !app_assoc).
    split; [| by apply (consume_packet data x y)].
    rewrite (process_packet data x y rest) by done.
    unfold mbind at 1, G_bind at 1. rewrite handle_packet_checksum, (proj2 (Z.eqb_neq _ _)) by done. done.
Qed.

End requests.

(** A debugger asks for register 10 of a server that has just been connected to. *)
Definition some_server : gdbserver_t :=
  Gdbserver 0 0 0 false 0 false 0 false false ∅ 64 [] 4 (new_buffer 64) (new_buffer 64) false false ∅ [] 0 [].
Definition asking : gdbserver_t :=
  match rb_append (frame (encode 64 (QReadRegister 10))) (new_buffer 64) with
  | Some b => (some_server) <| recv_buf := b |>
  | None => some_server
  end.

Lemma requests_understood_witness :
  exists g', process_requests (fun _ => true) asking two_harts = inl (tt, g', two_harts) /\
    operation_queue g' = [(RegisterReadOp 10, 0)] /\ contents (send_buf g') = text "+".
Proof.
  destruct (requests_understood (fun _ => true) 64 (QReadRegister 10) [] asking two_harts (or_intror eq_refl)
    ltac:(done)) as [A _].
  { vm_compute. repeat split; discriminate. }
  destruct (A ltac:(by vm_compute)) as [E _]. rewrite E. eexists. split; [by vm_compute |]. by vm_compute.
Defined.
