(* ===== verification/GdbTranslate.v ===== *)
(** The debugger's translation of addresses (Gdb.v) and the hart's (Mmu.v): when the entries
    of the page table it needs have been collected, the debugger finds the physical address
    the debugged code would access. *)
From S2P Require Import Prelude SoftPrim Encoding Decode Decoder Machine Csr Isa Mmu CsrProps Tlb MmuProps.
From S2P Require Import Devices RingBuffer GdbAsm Gdb.

Section translate.
Context {W : Type} `{Platform W}.
Implicit Types m : machine W.

(** What the debugger has read of the page table is what memory holds. *)
Definition cache_sound (ptesize : Z) (cache : gmap Z Z) m : Prop :=
  forall a p, cache !! a = Some p -> p = mem_read (Z.to_nat ptesize) a m.

(** No entry is missing to translate the address. *)
Definition collected (addr : Z) (g : gdbserver_t) : Prop :=
  match vm_geometry (virtual_memory g) with
  | Some (levels, bits, size) => forall a, find_leaf levels bits size addr g <> Missing a
  | None => True
  end.

(** What the debugger saved of the hart it debugs, [s] being the state it was in. *)
Record saved (s : state_t) (g : gdbserver_t) : Prop := {
  sv_running : dcsr_cause (dcsr s) = 0;
  sv_mode : get_field (gs_dcsr g) DCSR_PRV = prv s;
  sv_mstatus : gs_mstatus g = mstatus s;
  sv_sptbr : gs_sptbr g = sptbr s
}.

Lemma walk_find n shift bits size supervisor pum mxr type addr base cache m r m' :
  cache_sound size cache m ->
  walk_loop n shift bits size supervisor pum mxr type addr base m = (r, m') -> r <> no_translation ->
  (exists a, find_pte n shift bits size addr base cache = Missing a) \/
  exists p s, find_pte n shift bits size addr base cache = Leaf p s /\ r = leaf_page addr p s.
Proof.
  intros Hc. revert shift base. induction n as [| n IH]; intros shift base E Hr; cbn [walk_loop find_pte] in *.
  { by injection E as <- <-. }
  destruct (negb (addr_is_mem _ m)); [by injection E as <- <- |].
  destruct (cache !! _) as [p |] eqn:Ec; [| left; by eexists].
  pose proof (Hc _ _ Ec) as Ep. rewrite <- Ep in E.
  destruct (PTE_TABLE p); [by apply IH |].
  destruct (pte_user_fault supervisor pum p); [by injection E as <- <- |].
  destruct (pte_invalid p); [by injection E as <- <- |].
  destruct (pte_access_fault type mxr p); [by injection E as <- <- |].
  injection E as <- <-. right. by exists p, shift.
Qed.

(** The offset within the page: adding it is setting its bits. *)
Lemma page_offset page addr :
  u64 (u64 (page .<< PGSHIFT) + (addr .& (PGSIZE - 1))) = u64 (page .<< PGSHIFT) .| (addr .& (PGSIZE - 1)).
Proof.
  change PGSHIFT with 12. change (PGSIZE - 1) with (2 ^ 12 - 1). rewrite land_mask, shl_mul by lia.
  pose proof (Z.mod_pos_bound addr (2 ^ 12) ltac:(lia)) as Ho.
  pose proof (wrap_range 64 (page * 2 ^ 12) ltac:(lia)) as Hv. unfold in_range in Hv.
  assert (Hm : u64 (page * 2 ^ 12) mod 2 ^ 12 = 0).
  { unfold wrap. change (2 ^ 64) with (2 ^ 12 * 2 ^ 52). rewrite (Z.mul_comm page), Z.mul_mod_distr_l by lia.
    by rewrite Z.mul_comm, Z.mod_mul by lia. }
  rewrite (lor_add _ _ 12) by (done || lia). apply wrap_small.
  pose proof (Z.div_mod (u64 (page * 2 ^ 12)) (2 ^ 12) ltac:(lia)) as D. rewrite Hm in D.
  change (2 ^ 64) with (2 ^ 12 * 2 ^ 52) in Hv. lia.
Qed.

Lemma mode_saved s g :
  saved s g ->
  virtual_memory g =
  if access_mode LOAD s =? PRV_M then VM_MBARE else get_field (mstatus s) MSTATUS_VM.
Proof.
  intros [Hc Hm Hs _]. unfold virtual_memory, privilege_mode, access_mode. rewrite Hc, Hm, Hs.
  rewrite bool_decide_eq_false_2 by done. change (0 =? 0) with true. cbn [negb andb].
  destruct (Z.eqb_spec (get_field (mstatus s) MSTATUS_VM) VM_MBARE) as [-> |].
  - rewrite Z.eqb_refl. by destruct (_ =? PRV_M).
  - done.
Qed.

(** A field of the address, which the high bits do not matter to. *)
Lemma low_field x a s b :
  0 <= s -> 0 <= b -> s + b <= x ->
  (wrap x a .>> s) .& ((1 .<< b) - 1) = (a .>> s) .& ((1 .<< b) - 1).
Proof.
  intros Hs Hb Hx. assert ((1 .<< b) - 1 = Z.ones b) as -> by (rewrite Z.ones_equiv, shl_mul; lia).
  apply Z.bits_inj'. intros i Hi. rewrite !Z.land_spec, !Z.shiftr_spec, wrap_testbit by lia.
  rewrite Z.testbit_ones_nonneg by lia. destruct (Z.ltb_spec i b); [| by rewrite !andb_false_r].
  by rewrite (proj2 (Z.ltb_lt _ _)) by lia.
Qed.

Lemma no_translation_offset addr : no_translation .| (addr .& (PGSIZE - 1)) = u64 (-1).
Proof.
  unfold no_translation. change (u64 (-1)) with (Z.ones 64).
  change (PGSIZE - 1) with (2 ^ 12 - 1). rewrite land_mask, Z.lor_comm by lia.
  pose proof (Z.mod_pos_bound addr (2 ^ 12) ltac:(lia)) as Hm. apply Z.lor_ones_low; [lia |].
  destruct (Z.eq_dec (addr mod 2 ^ 12) 0) as [-> |]; [done |]. apply Z.log2_lt_pow2; lia.
Qed.

Lemma find_pte_wrap n x bits size addr base cache :
  0 <= bits -> PGSHIFT + Z.of_nat n * bits <= x ->
  find_pte n ((Z.of_nat n - 1) * bits) bits size (wrap x addr) base cache =
  find_pte n ((Z.of_nat n - 1) * bits) bits size addr base cache.
Proof.
  intros Hb. revert base. induction n as [| n IH]; intros base Hx; [done |]. cbn [find_pte].
  change PGSHIFT with 12 in *. rewrite low_field by lia.
  destruct (cache !! _); [| done]. destruct (PTE_TABLE _); [| done].
  replace ((Z.of_nat (S n) - 1) * bits - bits) with ((Z.of_nat n - 1) * bits) by lia. apply IH. lia.
Qed.

Lemma find_pte_shift n shift bits size addr base cache p s :
  find_pte n shift bits size addr base cache = Leaf p s ->
  0 <= bits -> shift = (Z.of_nat n - 1) * bits -> 0 <= s <= shift.
Proof.
  revert shift base. induction n as [| n IH]; intros shift base E Hb Hs; [done |]. cbn [find_pte] in E.
  destruct (cache !! _) as [q |]; [| done]. destruct (PTE_TABLE q).
  - pose proof (IH _ _ E Hb ltac:(lia)). lia.
  - injection E as <- <-. lia.
Qed.

(** C28: The debugger and the hart agree on addresses: what the memory unit translates for the
    code under debug, in its mode and with its page table, the debugger translates to the same
    physical address, once it has read the entries of the table it needs. *)
Theorem translation_agrees m g w addr p m' :
  wf m -> saved (state m) g -> has_proc (mmu m) = true ->
  (forall levels bits size, vm_geometry (virtual_memory g) = Some (levels, bits, size) ->
     cache_sound size (pte_cache g) m) ->
  collected (wrap (xlen (proc m)) addr) g ->
  Mmu.translate addr LOAD m = (inl p, m') -> p <> u64 (-1) ->
  Gdb.translate (wrap (xlen (proc m)) addr) g w = inl (p, g, w).
Proof.
  intros Hwf Hs Hp Hc Hcol E Hne. pose proof Hwf as [Hproc Hcsrs]. unfold collected in Hcol.
  unfold Gdb.translate, mbind, G_bind, get_gs. unfold Mmu.translate in E. rewrite Hp in E. cbn [negb] in E.
  rewrite (mode_saved _ _ Hs) in *. destruct (Z.eqb_spec (access_mode LOAD (state m)) PRV_M) as [_ | Hmode].
  { rewrite Z.eqb_refl. injection E as <- <-. unfold mret, G_ret. do 3 f_equal.
    destruct Hproc as [Hx -> _ _ _]. unfold wrap. rewrite <- Z.land_ones by (destruct Hx; lia).
    f_equal. destruct Hx as [-> | ->]; by vm_compute. }
  destruct (Z.eqb_spec (get_field (mstatus (state m)) MSTATUS_VM) VM_MBARE) as [Ev | Ev].
  { unfold access_mode in Hmode. by rewrite Ev, Z.eqb_refl in Hmode. }
  unfold mbind, M_bind in E. unfold walk in E. cbv zeta in E.
  destruct (vm_geometry _) as [[[levels bits] size] |] eqn:Eg; [| done].
  destruct (vm_geometry_wf _ _ _ _ _ Hproc Hcsrs Eg) as (Hva & Hx64 & _).
  assert (Hl : levels = Z.of_nat (Z.to_nat levels) /\ 0 <= bits).
  { unfold vm_geometry in Eg. repeat case_match; simplify_eq; lia. }
  destruct Hl as [Hl Hb].
  destruct (negb _ && negb _) in E; 
    [injection E as <- <-; destruct Hne; apply no_translation_offset |].
  set (n := Z.to_nat levels) in *. rewrite <- (sv_sptbr _ _ Hs) in E.
  unfold find_leaf in *. fold n in Hcol |- *. rewrite Hl in E, Hcol, Hva |- *.
  rewrite find_pte_wrap in Hcol |- * by lia.
  destruct (walk_loop n _ _ _ _ _ _ _ _ _ _) as [r m1] eqn:Ew. injection E as <- <-.
  assert (Hr : r <> no_translation).
  { intros ->. apply Hne, no_translation_offset. }
  destruct (walk_find _ _ _ _ _ _ _ _ _ _ (pte_cache g) _ _ _ (Hc _ _ _ eq_refl) Ew Hr) as [[a Em] | (q & s & El & ->)].
  { by apply Hcol in Em. }
  rewrite El. unfold mret, G_ret. do 3 f_equal.
  pose proof (find_pte_shift _ _ _ _ _ _ _ _ _ El Hb eq_refl) as Hsh.
  assert (Ev1 : (wrap (xlen (proc m)) addr .>> PGSHIFT) .& ((1 .<< s) - 1) = (addr .>> PGSHIFT) .& ((1 .<< s) - 1))
    by (apply low_field; change PGSHIFT with 12 in *; lia).
  assert (Ev2 : wrap (xlen (proc m)) addr .& (PGSIZE - 1) = addr .& (PGSIZE - 1)).
  { change (PGSIZE - 1) with ((1 .<< 12) - 1). rewrite <- (Z.shiftr_0_r (wrap _ _)), <- (Z.shiftr_0_r addr) at 1.
    apply low_field; change PGSHIFT with 12 in *; lia. }
  rewrite Ev1, Ev2. unfold leaf_page. apply page_offset.
Qed.
End translate.

(** The hart of the walk's example, stopped in supervisor mode, and a debugger that has read
    the two entries. *)
Definition walking : gdbserver_t :=
  Gdbserver 0 PRV_S (VM_SV39 .<< 24) false 0x80000 true 0 false false
    (<[0x80000000 := (0x80001 .<< 10) .| PTE_V]> (<[0x80001000 := (0x80200 .<< 10) .| 0xF]> ∅)) 64 [] 4
    (new_buffer 64) (new_buffer 64) false false ∅ [] 0 [].

Lemma translation_agrees_witness :
  Gdb.translate 0x12345 walking two_harts = inl (0x80212345, walking, two_harts).
Proof.
  change 0x12345 with (wrap (xlen (proc hart4)) 0x12345).
  eapply (translation_agrees (W := unit) hart4 walking two_harts 0x12345 0x80212345).
  - apply hart4_wf.
  - by split.
  - reflexivity.
  - intros levels bits size [= <- <- <-] a p. cbn [pte_cache walking].
    destruct (decide (a = 0x80000000)) as [-> |]; [rewrite lookup_insert_eq; by intros [= <-] |].
    rewrite lookup_insert_ne by done.
    destruct (decide (a = 0x80001000)) as [-> |]; [rewrite lookup_insert_eq; by intros [= <-] |].
    by rewrite lookup_insert_ne.
  - vm_compute. discriminate.
  - reflexivity.
  - done.
Defined.
