(* ===== verification/DebugMode.v ===== *)
(** A hart in debug mode: what the debugger, the debug ROM and the programs in the debug RAM
    see of it, and how one iteration of the slow loop of execute.cc changes it.

    [dbg] is that view of a machine.  It leaves out what does not matter to them and changes
    at every instruction: the instruction counter, the decoder's cache, the TLB. *)
From S2P Require Import Prelude SoftPrim Encoding Decode Decoder Machine Csr Isa CsrProps Mmu Tlb Insns Safe InsnProps FetchProps Alu Control Step StepProps.
From S2P Require Import OrdMap Devices GdbAsm.

(** The registers s0 and s1, which the ROM and every program use, are apart from the others. *)
Record dbg := Dbg {
  d_pc : Z;
  d_s0 : Z;
  d_s1 : Z;
  d_ser : bool;
  d_st : state_t;
  d_mem : gmap Z Z;
  d_pl : platform
}.
Definition dbg_eta (r : dbg) : dbg :=
  Dbg (d_pc r) (d_s0 r) (d_s1 r) (d_ser r) (d_st r) (d_mem r) (d_pl r).
#[export] Instance setter_d_pc : Setter d_pc. Proof. setter dbg_eta d_pc. Defined.
#[export] Instance setter_d_s0 : Setter d_s0. Proof. setter dbg_eta d_s0. Defined.
#[export] Instance setter_d_s1 : Setter d_s1. Proof. setter dbg_eta d_s1. Defined.
#[export] Instance setter_d_ser : Setter d_ser. Proof. setter dbg_eta d_ser. Defined.
#[export] Instance setter_d_st : Setter d_st. Proof. setter dbg_eta d_st. Defined.
#[export] Instance setter_d_mem : Setter d_mem. Proof. setter dbg_eta d_mem. Defined.
#[export] Instance setter_d_pl : Setter d_pl. Proof. setter dbg_eta d_pl. Defined.

Definition assemble (d : dbg) (count : Z) : state_t :=
  (d_st d) <| pc := d_pc d |>
    <| XPR := <[8%nat := d_s0 d]> (<[9%nat := d_s1 d]> (XPR (d_st d))) |>
    <| serialized := d_ser d |> <| minstret := count |>.

(** No interrupt is taken in machine mode, whatever the devices ask for. *)
Definition quiet (s : state_t) : Prop :=
  get_field (mstatus s) MSTATUS_MIE = 0 \/ mie s .& Z.lnot (mideleg s) = 0.

(** The debug module answers below the boot ROM. *)
Definition low_bus (b : ord_map device) : Prop :=
  forall a, DEBUG_START <= a < DEFAULT_RSTVEC -> bus_find a b = Some (DebugModule, a - DEBUG_START).

(** What holds of the view throughout debug mode, on a hart with registers of [xl] bits. *)
Definition reg_ok (xl v : Z) : Prop := in_range 64 v /\ canonical xl v.
Record debugging (xl : Z) (d : dbg) : Prop := {
  g_prv : prv (d_st d) = PRV_M;
  g_cause : z2b (dcsr_cause (dcsr (d_st d))) = true;
  g_single : single_step (d_st d) = STEP_NONE;
  g_quiet : quiet (d_st d);
  g_regs : xregs_ok xl (XPR (d_st d));
  g_s0 : reg_ok xl (d_s0 d);
  g_s1 : reg_ok xl (d_s1 d);
  g_bus : low_bus (bus (d_pl d));
  g_ram : length (debug_ram (d_pl d)) = 64%nat
}.

(** The four bytes of an instruction in the debug ROM or RAM. *)
Definition debug_word (a : Z) (w : platform) : option Z := bytes_to <$> debug_load (a - DEBUG_START) 4 w.

(** Every opcode of [f] is one of 32 bits. *)
Definition wide (f : insn_func) : bool :=
  forallb (fun d => negb (bool_decide (i_func d = f))
                    || ((i_mask d .& 31 =? 31) && (insn_length (i_match d) =? 4))) base_instructions
  && (insn_length (insn_match f) =? 4).

Lemma quiet_none s : prv s = PRV_M -> quiet s -> z2b (enabled_interrupts s) = false.
Proof.
  intros Hp Hq. unfold enabled_interrupts. cbv zeta. rewrite Hp.
  change (PRV_M <? PRV_M) with false. change (PRV_M <? PRV_S) with false.
  change (PRV_M =? PRV_M) with true. change (PRV_M =? PRV_S) with false. cbn [orb andb b2z].
  change (u64 (- 0)) with 0. rewrite (Z.land_0_r (_ .& mideleg s)), Z.lor_0_r. destruct Hq as [-> | Hq].
  - cbn. by rewrite Z.land_0_r.
  - rewrite <- (Z.land_assoc (mip s)), Hq, Z.land_0_r. by rewrite Z.land_0_l.
Qed.

Lemma debug_mmio a n w : low_bus (bus w) -> DEBUG_START <= a < DEFAULT_RSTVEC -> 0 <= n <= 8 ->
  sim_mmio_load a n w = debug_load (a - DEBUG_START) n w.
Proof.
  intros Hb Ha Hn. unfold sim_mmio_load, bus_load. rewrite (Hb a Ha). cbn.
  change DEFAULT_RSTVEC with 0x1000 in *. change DEBUG_START with 0x100 in *.
  rewrite wrap_small by lia. by rewrite (proj2 (Z.ltb_ge _ _)) by lia.
Qed.

(** The two parcels of a word. *)
Lemma copy_from_app l a i j : 0 <= a -> 0 <= i -> 0 <= j ->
  copy_from l a (i + j) = copy_from l a i ++ copy_from l (a + i) j.
Proof.
  intros Ha Hi Hj. unfold copy_from. rewrite Z2Nat.inj_add, seq_app, fmap_app by done.
  by rewrite Z2Nat.inj_add by done.
Qed.
Lemma length_copy_from l a n : 0 <= n -> Z.of_nat (length (copy_from l a n)) = n.
Proof. intros Hn. unfold copy_from. rewrite length_fmap, length_seq. lia. Qed.
Lemma copied_bytes l a n : Forall (in_range 8) (copy_from l a n).
Proof. apply Forall_fmap, Forall_true. intros i. apply wrap_range. lia. Qed.

Lemma debug_load_parts a w bs : 0x300 <= a < 0xf00 -> debug_load a 4 w = Some bs ->
  exists x y, debug_load a 2 w = Some x /\ debug_load (a + 2) 2 w = Some y /\ bs = x ++ y /\
    length x = 2%nat /\ length y = 2%nat /\ Forall (in_range 8) x /\ Forall (in_range 8) y.
Proof.
  intros Ha. unfold debug_load. change DEBUG_START with 0x100. change DEBUG_RAM_START with 0x400.
  change DEBUG_RAM_END with 0x440. change DEBUG_ROM_START with 0x800. change DEBUG_ROM_END with 0x894.
  cbv zeta. rewrite !(wrap_small 64 (0x100 + a)), !(wrap_small 64 (0x100 + (a + 2))) by lia.
  rewrite !(wrap_small 64) by lia.
  assert (Hc : forall l k, 0 <= k -> exists x y, copy_from l k 2 = x /\ copy_from l (k + 2) 2 = y /\
    copy_from l k 4 = x ++ y /\ length x = 2%nat /\ length y = 2%nat /\ Forall (in_range 8) x /\ Forall (in_range 8) y).
  { intros l k Hk. eexists _, _. split; [done |]. split; [done |]. split; [by apply (copy_from_app l k 2 2) |].
    repeat split; try apply copied_bytes. }
  destruct (Z.leb_spec 0x400 (0x100 + a)); cbn [andb].
  - destruct (Z.leb_spec (0x100 + a + 4) 0x440); cbn [andb].
    + intros [= <-]. destruct (Hc (debug_ram w) (0x100 + a - 0x400) ltac:(lia)) as (x & y & E1 & E2 & E3 & H4).
      rewrite !(proj2 (Z.leb_le _ _)) by lia. cbn [andb]. exists x, y.
      replace (0x100 + (a + 2) - 0x400) with (0x100 + a - 0x400 + 2) by lia. by rewrite E1, E2, E3.
    + destruct (Z.leb_spec 0x800 (0x100 + a)); cbn [andb]; [| done].
      destruct (Z.leb_spec (0x100 + a + 4) 0x894); [| done]. intros [= <-].
      destruct (Hc debug_rom_raw (0x100 + a - 0x800) ltac:(lia)) as (x & y & E1 & E2 & E3 & H4).
      rewrite !(proj2 (Z.leb_le 0x800 _)), !(proj2 (Z.leb_le 0x400 _)), !(proj2 (Z.leb_le _ 0x894)) by lia.
      rewrite !(proj2 (Z.leb_gt _ 0x440)) by lia. cbn [andb]. exists x, y.
      replace (0x100 + (a + 2) - 0x800) with (0x100 + a - 0x800 + 2) by lia. by rewrite E1, E2, E3.
  - destruct (Z.leb_spec 0x800 (0x100 + a)); [lia | done].
Qed.

Lemma bytes_to_app x y : Forall (in_range 8) x ->
  bytes_to (x ++ y) = bytes_to x + 2 ^ (8 * Z.of_nat (length x)) * bytes_to y.
Proof.
  induction 1 as [| b x Hb Hx IH]; [cbn [app bytes_to length]; lia |].
  cbn [app bytes_to length]. rewrite IH. unfold in_range in Hb.
  rewrite Nat2Z.inj_succ, !shl_mul by lia.
  rewrite !(Z.lor_comm b), !(lor_add _ _ 8) by (lia || (apply Z.mod_mul; lia)).
  replace (8 * Z.succ (Z.of_nat (length x))) with (8 * Z.of_nat (length x) + 8) by lia.
  rewrite Z.pow_add_r by lia. ring.
Qed.

Lemma insn_length_mod x y : x .& 31 = y .& 31 -> insn_length x = 4 -> insn_length y = 4.
Proof.
  intros E. unfold insn_length. change 0x1f with 31.
  assert (H3 : x .& 0x03 = y .& 0x03).
  { change 0x03 with (31 .& 3). by rewrite !Z.land_assoc, E. }
  rewrite H3, E. destruct (y .& 3 <? 3); [done |].
  destruct (y .& 31 <? 31); [done |]. by destruct (x .& 63 <? 63).
Qed.

Record opcode (f : insn_func) (w : Z) : Prop := Opcode { op_encodes : encodes f w; op_wide : wide f = true }.

Lemma wide_length f w : opcode f w -> insn_length (fetch32 w) = 4.
Proof.
  intros [[_ Hm] [Hf _]%andb_prop]. induction base_instructions as [| d l IH]; [done |].
  cbn [first_match forallb] in *. apply andb_prop in Hf as [Hd Hl].
  destruct (insn_matches (fetch32 w) d) eqn:E; [| by apply IH]. injection Hm as Hm.
  rewrite bool_decide_eq_true_2 in Hd by done. cbn [negb orb] in Hd. apply andb_prop in Hd as [H31%Z.eqb_eq H4%Z.eqb_eq].
  apply (insn_length_mod (i_match d)); [| done]. symmetry. apply Z.eqb_eq in E. rewrite <- E, <- Z.land_assoc. by rewrite H31.
Qed.

Lemma sext_low w x : w = 32 \/ w = 64 -> 0 <= x < 2 ^ 31 -> sext w x = x.
Proof. intros [-> | ->] Hx; rewrite sext_cases by (unfold in_range; lia); by rewrite (proj2 (Z.ltb_lt _ _)) by lia. Qed.

Section debug.
Context (temp size : Z) (p : processor_t).
#[local] Instance platform_here : Platform platform := sim_platform temp.
Implicit Types (m : machine platform) (d : dbg).
Let xl := xlen p.

Hypothesis Hp : wf_proc p.

Lemma xl_cases : xl = 32 \/ xl = 64.
Proof using Hp. unfold xl. destruct Hp as [Hm -> _ _ _]. done. Qed.

Record view m d : Prop := {
  v_state : exists count, state m = assemble d count;
  v_proc : exists dec, proc m = p <| decode_state := dec |> /\ wf_decoder base_instructions dec;
  v_mem : mem m = d_mem d;
  v_size : memsz m = size;
  v_world : world m = d_pl d;
  v_bare : bare m;
  v_tlb : tlb_ok m;
  v_debugging : debugging xl d
}.

Lemma view_xlen m d : view m d -> xlen (proc m) = xl.
Proof. intros Hv. by destruct (v_proc _ _ Hv) as (dec & -> & _). Qed.

(** A debug address is its own physical address, outside the memory. *)
Lemma low_phys m d a : view m d -> 0 <= a < DEFAULT_RSTVEC -> phys m a = a /\ addr_is_mem a m = false.
Proof using Hp.
  intros Hv Ha. change DEFAULT_RSTVEC with 0x1000 in Ha. unfold phys. rewrite (view_xlen _ _ Hv). split.
  - apply wrap_small. destruct xl_cases as [-> | ->]; lia.
  - unfold addr_is_mem. change DRAM_BASE with 0x80000000. by rewrite (proj2 (Z.leb_gt _ _)) by lia.
Qed.

Lemma view_decoder m d dec : view m d -> wf_decoder base_instructions dec ->
  view (m <| proc := p <| decode_state := dec |> |>) d.
Proof.
  intros [Hs (dec0 & Epr & _) Hm Hz Hw Hb Ht Hd] Hdec.
  split; [exact Hs | by exists dec | exact Hm | exact Hz | exact Hw | | | exact Hd].
  - destruct Hb as [H1 Hx H3 Htr H5 H6 H7 H8].
    split; [exact H1 | | exact H3 | | exact H5 | exact H6 | exact H7 | exact H8].
    + by rewrite Epr in Hx.
    + intros op ad da. rewrite <- (Htr op ad da). unfold trigger_match. by rewrite Epr.
  - destruct Ht as [Hl Htags]. split; [exact Hl |]. intros ty i Hi. pose proof (Htags ty i Hi) as Hti.
    unfold tag_ok, phys in *. by rewrite Epr in Hti.
Qed.

Lemma fetch_parcel m d a bs : view m d -> 0x400 <= a < 0xffe ->
  debug_load (a - DEBUG_START) 2 (d_pl d) = Some bs ->
  translate_insn_addr a m = (inl (temp, bytes_to bs), m).
Proof using Hp.
  intros Hv Ha Hl. unfold translate_insn_addr, mbind, M_bind, gets at 1. fold (tlb_index a).
  change (tlb_insn_tag (mmu m)) with (tags_of FETCH (mmu m)).
  destruct (low_phys _ _ a Hv ltac:(change DEFAULT_RSTVEC with 0x1000; lia)) as [Ep Em].
  destruct (Z.eqb_spec (tag_at (tags_of FETCH (mmu m)) (tlb_index a)) (a .>> PGSHIFT)) as [E | E].
  { destruct (hit_spec m a FETCH (v_bare _ _ Hv) (v_tlb _ _ Hv) ltac:(unfold in_range; lia) E) as [_ Hm].
    by rewrite Ep, Em in Hm. }
  rewrite no_check_tag by (apply (v_tlb _ _ Hv) || apply tlb_index_range || apply vpn_range; unfold in_range; lia).
  unfold fetch_slow_path, mbind, M_bind. rewrite translate_bare by apply (v_bare _ _ Hv). rewrite Ep.
  change (u64 (Z.lnot 0)) with (2 ^ 64 - 1). rewrite (proj2 (Z.eqb_neq a _)) by lia. cbn [andb].
  unfold gets at 1. rewrite Em. unfold gets at 1.
  rewrite (v_world _ _ Hv). cbn [mmio_load platform_here sim_platform].
  rewrite debug_mmio by (try apply (v_debugging _ _ Hv); change DEBUG_START with 0x100; change DEFAULT_RSTVEC with 0x1000; lia).
  by rewrite Hl.
Qed.

(** The instruction in front of the hart is decoded, and only the decoder's state changes. *)
Lemma load_debug m d a w f :
  view m d -> 0x400 <= a < 0xffc -> debug_word a (d_pl d) = Some w -> opcode f w ->
  exists m', load_insn a m = (inl (InsnFetch f (fetch32 w)), m') /\ view m' d.
Proof using Hp.
  intros Hv Ha Hw He. unfold debug_word in Hw. destruct (debug_load _ 4 _) as [bs |] eqn:El; [| done].
  injection Hw as Hw. destruct (debug_load_parts (a - DEBUG_START) (d_pl d) bs) as (x & y & Ex & Ey & -> & Lx & Ly & Fx & Fy);
    [change DEBUG_START with 0x100; lia | done |].
  rewrite (bytes_to_app x y Fx), Lx in Hw. change (2 ^ (8 * Z.of_nat 2)) with (2 ^ 16) in Hw.
  pose proof (bytes_to_range x Fx) as Rx. pose proof (bytes_to_range y Fy) as Ry. rewrite Lx in Rx. rewrite Ly in Ry.
  change (8 * Z.of_nat 2) with 16 in *.
  pose proof (wide_length f w He) as Hlen.
  assert (Hl4 : insn_length (bytes_to x) = 4).
  { rewrite <- Hlen. apply insn_length_low. unfold fetch32. rewrite wrap_narrow by lia.
    rewrite <- (wrap_narrow 16 32 (s32 w)), wrap_sext, wrap_narrow by lia. subst w.
    unfold wrap. rewrite Z.mul_comm, Z.mod_add by lia. done. }
  unfold load_insn, refill_icache, mbind, M_bind.
  rewrite (fetch_parcel m d a x) by (done || lia). unfold fetch_parts. rewrite Hl4. cbn [Z.eqb Pos.eqb].
  unfold insn_part, mbind, M_bind. rewrite wrap_small by lia.
  rewrite (fetch_parcel m d (a + 2) y); [| done | lia | by replace (a + 2 - DEBUG_START) with (a - DEBUG_START + 2) by lia].
  unfold mret at 1 2, M_ret. rewrite (last_part 16 _ _ ltac:(lia) ltac:(lia) Rx Ry).
  rewrite Hw. change (u64 (sext (16 + 16) w)) with (fetch32 w). unfold decode.
  destruct (v_proc _ _ Hv) as (dec & Epr & Hdec). rewrite Epr. cbn [decode_state].
  destruct (decode_insn_spec _ _ (fetch32 w) Hdec) as (f' & dec' & Ed & Hf' & Hdec').
  change (decode_state (p <| decode_state := dec |>)) with dec. rewrite Ed.
  assert (f' = f) as ->.
  { destruct Hf' as [E | [E _]]; [by destruct He as [[_ He] _]; rewrite He in E; injection E as -> |].
    rewrite E in Hlen. change (2 = 4) in Hlen. discriminate Hlen. }
  unfold gets. cbn [interested_in_range platform_here sim_platform]. eexists. split; [reflexivity |].
  by apply (view_decoder m d dec').
Qed.

(** ** Changes of the view *)

Lemma bare_in_debug m s : bare m -> prv s = PRV_M -> z2b (dcsr_cause (dcsr s)) = true -> bare (m <| state := s |>).
Proof.
  intros [H1 H2 H3 H4 H5 H6 H7 H8] Hprv Hc. split; [exact H1 | exact H2 | | | exact H5 | exact H6 | exact H7 | exact H8].
  - intros type. change (state (m <| state := s |>)) with s. unfold access_mode. rewrite Hprv.
    unfold z2b in Hc. apply negb_true_iff in Hc. rewrite Hc, andb_false_r. cbn [andb]. by destruct (_ =? VM_MBARE).
  - intros op a b. unfold trigger_match. change (state (m <| state := s |>)) with s. by rewrite Hc.
Qed.

Lemma tlb_ok_state m s : tlb_ok m -> tlb_ok (m <| state := s |>).
Proof. intros [Hl Ht]. by split. Qed.

Lemma view_change m d d' s w mm :
  view m d -> debugging xl d' -> (exists count, s = assemble d' count) -> mm = d_mem d' -> w = d_pl d' ->
  view (m <| state := s |> <| mem := mm |> <| world := w |>) d'.
Proof.
  intros [Hs Hpr Hm Hz Hw Hb Ht _] Hd [c ->] -> ->.
  split; [by exists c | exact Hpr | done | exact Hz | done | | | exact Hd].
  - assert (Hb' := bare_in_debug m (assemble d' c) Hb (g_prv _ _ Hd) (g_cause _ _ Hd)).
    destruct Hb' as [H1 H2 H3 H4 H5 H6 H7 H8].
    by split; [exact H1 | exact H2 | exact H3 | exact H4 | exact H5 | exact H6 | exact H7 | exact H8].
  - destruct Ht as [Hl Htags]. by split.
Qed.

Lemma with_id m : m = m <| state := state m |> <| mem := mem m |> <| world := world m |>.
Proof. by destruct m. Qed.

Lemma view_state m d d' (f : state_t -> state_t) :
  view m d -> debugging xl d' -> (forall count, exists count', f (assemble d count) = assemble d' count') ->
  d_mem d' = d_mem d -> d_pl d' = d_pl d -> view (m <| state := f (state m) |>) d'.
Proof.
  intros Hv Hd Hf Hm Hw. destruct (v_state _ _ Hv) as [c Es].
  change (m <| state := f (state m) |>) with (m <| state := f (state m) |> <| mem := mem m |> <| world := world m |>).
  apply (view_change m d); [done | done | | by rewrite (v_mem _ _ Hv) | by rewrite (v_world _ _ Hv)].
  rewrite Es. apply Hf.
Qed.

(** ** Code run on a view

    [does c d a d']: from the view [d], [c] returns [a] with the view [d']. *)
Definition does {A} (c : M platform A) d (a : A) d' : Prop :=
  forall m, view m d -> exists m', c m = (inl a, m') /\ view m' d'.
Definition throws {A} (c : M platform A) d (e : exn) d' : Prop :=
  forall m, view m d -> exists m', c m = (inr e, m') /\ view m' d'.

Lemma does_bind {A B} (c : M platform A) (k : A -> M platform B) d a d1 b d' :
  does c d a d1 -> does (k a) d1 b d' -> does (c ≫= k) d b d'.
Proof.
  intros Hc Hk m Hv. destruct (Hc m Hv) as (m1 & E1 & Hv1). destruct (Hk m1 Hv1) as (m2 & E2 & Hv2).
  exists m2. split; [| done]. unfold mbind, M_bind. by rewrite E1.
Qed.
Lemma throws_bind {A B} (c : M platform A) (k : A -> M platform B) d e d' :
  throws c d e d' -> throws (c ≫= k) d e d'.
Proof.
  intros Hc m Hv. destruct (Hc m Hv) as (m1 & E1 & Hv1).
  exists m1. split; [| done]. unfold mbind, M_bind. by rewrite E1.
Qed.
Lemma does_throws {A B} (c : M platform A) (k : A -> M platform B) d a d1 e d' :
  does c d a d1 -> throws (k a) d1 e d' -> throws (c ≫= k) d e d'.
Proof.
  intros Hc Hk m Hv. destruct (Hc m Hv) as (m1 & E1 & Hv1). destruct (Hk m1 Hv1) as (m2 & E2 & Hv2).
  exists m2. split; [| done]. unfold mbind, M_bind. by rewrite E1.
Qed.
Lemma does_ret {A} (a : A) d : does (mret a) d a d.
Proof. intros m Hv. by exists m. Qed.
Lemma does_require b d : b = true -> does (require b) d tt d.
Proof. intros ->. apply does_ret. Qed.
Lemma does_gets {A} (f : machine platform -> A) d a : (forall m, view m d -> f m = a) -> does (gets f) d a d.
Proof. intros Hf m Hv. exists m. unfold gets. by rewrite (Hf m Hv). Qed.

Lemma does_modify_state (f : state_t -> state_t) d d' :
  debugging xl d' -> (forall count, exists count', f (assemble d count) = assemble d' count') ->
  d_mem d' = d_mem d -> d_pl d' = d_pl d -> does (modify_state f) d tt d'.
Proof. intros Hd Hf Hm Hw m Hv. eexists. split; [reflexivity |]. by apply (view_state m d). Qed.

(** The registers of the view. *)
Definition d_reg (d : dbg) (r : Z) : Z :=
  if r =? 8 then d_s0 d else if r =? 9 then d_s1 d else regfile_read (XPR (d_st d)) r.
Definition d_set (r v : Z) (d : dbg) : dbg :=
  if r =? 0 then d else if r =? 8 then d <| d_s0 := v |> else if r =? 9 then d <| d_s1 := v |>
  else d <| d_st := (d_st d) <| XPR := <[Z.to_nat r := v]> (XPR (d_st d)) |> |>.

Lemma assemble_reg d c r : debugging xl d -> 0 <= r < 32 -> regfile_read (XPR (assemble d c)) r = d_reg d r.
Proof.
  intros Hd Hr. unfold d_reg, assemble, regfile_read. cbn [XPR put setter_XPR setter_serialized setter_minstret].
  pose proof (xr_length _ _ (g_regs _ _ Hd)) as Hl. change regfile with (list Z) in *.
  destruct (Z.eqb_spec r 8) as [-> |]; [by rewrite list_lookup_insert_eq by (rewrite length_insert; lia) |].
  rewrite list_lookup_insert_ne by lia.
  destruct (Z.eqb_spec r 9) as [-> |]; [by rewrite list_lookup_insert_eq by lia |].
  by rewrite list_lookup_insert_ne by lia.
Qed.

Lemma assemble_set d c r v : debugging xl d -> 0 <= r < 32 ->
  (assemble d c) <| XPR := regfile_write true r v (XPR (assemble d c)) |> = assemble (d_set r v d) c.
Proof.
  intros Hd Hr. pose proof (xr_length _ _ (g_regs _ _ Hd)) as Hl. unfold d_set, regfile_write. cbn [negb orb].
  destruct (Z.eqb_spec r 0) as [-> | H0]; [by destruct (assemble d c) |]. cbn [negb].
  unfold assemble. cbn [XPR put setter_XPR setter_serialized setter_minstret].
  change regfile with (list Z) in *.
  destruct (Z.eqb_spec r 8) as [-> |].
  { change (Z.to_nat 8) with 8%nat. by rewrite list_insert_insert_eq. }
  destruct (Z.eqb_spec r 9) as [-> |].
  { change (Z.to_nat 9) with 9%nat. by rewrite (list_insert_insert_ne _ 9 8), list_insert_insert_eq by lia. }
  by rewrite !(list_insert_insert_ne _ (Z.to_nat r)) by lia.
Qed.

Lemma debugging_set d r v : debugging xl d -> 0 <= r < 32 -> reg_ok xl v -> debugging xl (d_set r v d).
Proof.
  intros Hd Hr Hv. unfold d_set. destruct (Z.eqb_spec r 0); [done |]. destruct Hd.
  destruct (r =? 8); [by split |]. destruct (r =? 9); [by split |]. split; try done.
  destruct g_regs0 as [Hl H0 HF]. change regfile with (list Z) in *. split; cbn.
  - by rewrite length_insert.
  - by rewrite list_lookup_insert_ne by lia.
  - by apply Forall_insert.
Qed.

Lemma does_READ_REG d r : 0 <= r < 32 -> debugging xl d -> does (READ_REG r) d (d_reg d r) d.
Proof.
  intros Hr Hd. apply does_gets. intros m Hv. destruct (v_state _ _ Hv) as [c ->]. by apply assemble_reg.
Qed.
Lemma does_WRITE_REG d r v : 0 <= r < 32 -> debugging xl d -> reg_ok xl (u64 v) ->
  does (WRITE_REG r v) d tt (d_set r (u64 v) d).
Proof.
  intros Hr Hd Hv. apply does_modify_state; [by apply debugging_set | | |].
  - intros c. exists c. by apply assemble_set.
  - unfold d_set. by repeat case_match.
  - unfold d_set. by repeat case_match.
Qed.

Lemma does_set_pc d x : 0 <= x < 2 ^ 31 -> x mod 4 = 0 -> does (set_pc xl x) d x d.
Proof using Hp.
  intros Hx Hx4 m Hv. exists m. split; [| done]. rewrite (set_pc_spec xl x m xl_cases).
  assert (Hu : u64 x = x) by (apply wrap_small; lia). rewrite Hu.
  assert (Z.testbit x 1 = false) as ->.
  { apply Z.testbit_false; [done |]. change (2 ^ 1) with 2. Z.div_mod_to_equations. lia. }
  cbn [andb]. do 2 f_equal. rewrite <- Hu at 2. f_equal. apply (sext_low _ _ xl_cases). lia.
Qed.

(** *** Memory *)

Definition d_is_mem (a : Z) : bool := (DRAM_BASE <=? a) && (a <? u64 (DRAM_BASE + size)).
Definition d_load (signed : bool) (len a : Z) d : Z + exn :=
  if negb (a mod len =? 0) then inr (Trap CAUSE_MISALIGNED_LOAD (Some a))
  else
    let pa := wrap xl a in
    if d_is_mem pa then inl (typed signed len (bytes_to (read_bytes (d_mem d) pa (Z.to_nat len))))
    else match sim_mmio_load pa len (d_pl d) with
         | Some bytes => inl (typed signed len (bytes_to bytes))
         | None => inr (Trap CAUSE_FAULT_LOAD (Some a))
         end.

Lemma view_is_mem m d a : view m d -> addr_is_mem a m = d_is_mem a.
Proof. intros Hv. unfold addr_is_mem. by rewrite (v_size _ _ Hv). Qed.

Lemma view_mmu m d u : view m d -> bare (m <| mmu := u |>) -> tlb_ok (m <| mmu := u |>) -> view (m <| mmu := u |>) d.
Proof. intros [Hs Hpr Hm Hz Hw _ _ Hd] Hb Ht. by split. Qed.

Lemma view_load m d signed len a : view m d -> len_ok len -> in_range 64 a ->
  exists m', load signed len a m = (d_load signed len a d, m') /\ view m' d.
Proof.
  intros Hv Hl Ha.
  destruct (load_bare m signed len a (v_bare _ _ Hv) (v_tlb _ _ Hv) Hl Ha) as (m' & -> & u & -> & Hb & Ht).
  exists (m <| mmu := u |>). split; [| by apply view_mmu].
  unfold flat_load, d_load, phys. by rewrite (view_is_mem _ _ _ Hv), (view_xlen _ _ Hv), (v_world _ _ Hv), <- (v_mem _ _ Hv).
Qed.
Lemma does_load d signed len a v : len_ok len -> in_range 64 a -> d_load signed len a d = inl v ->
  does (load signed len a) d v d.
Proof. intros Hl Ha E m Hv. destruct (view_load m d signed len a Hv Hl Ha) as (m' & -> & Hv'). rewrite E. by exists m'. Qed.
Lemma throws_load d signed len a e : len_ok len -> in_range 64 a -> d_load signed len a d = inr e ->
  throws (load signed len a) d e d.
Proof. intros Hl Ha E m Hv. destruct (view_load m d signed len a Hv Hl Ha) as (m' & -> & Hv'). rewrite E. by exists m'. Qed.

Lemma low_wrap a : 0 <= a < DEFAULT_RSTVEC -> wrap xl a = a /\ d_is_mem a = false.
Proof using Hp.
  intros Ha. change DEFAULT_RSTVEC with 0x1000 in Ha. split.
  - apply wrap_small. destruct xl_cases as [-> | ->]; lia.
  - unfold d_is_mem. change DRAM_BASE with 0x80000000. by rewrite (proj2 (Z.leb_gt _ _)) by lia.
Qed.

Lemma d_load_debug d signed len a bs :
  debugging xl d -> DEBUG_START <= a < DEFAULT_RSTVEC -> 0 <= len <= 8 -> a mod len = 0 ->
  debug_load (a - DEBUG_START) len (d_pl d) = Some bs ->
  d_load signed len a d = inl (typed signed len (bytes_to bs)).
Proof using Hp.
  intros Hd Ha Hl Hal E. unfold d_load. rewrite Hal. cbn [Z.eqb negb].
  destruct (low_wrap a ltac:(change DEBUG_START with 0x100 in Ha; lia)) as [-> ->].
  rewrite debug_mmio by (apply Hd || done). by rewrite E.
Qed.

Lemma debugging_pl d w : debugging xl d -> bus w = bus (d_pl d) -> length (debug_ram w) = 64%nat ->
  debugging xl (d <| d_pl := w |>).
Proof. intros Hd Hb Hl. destruct Hd. split; try done. cbn. by rewrite Hb. Qed.

(** What a store leaves of the machine. *)
Lemma view_store m d len a v (r : unit + exn) m0 d' :
  view m d -> len_ok len -> in_range 64 a -> flat_store len a v m = (r, m0) -> view m0 d' ->
  exists m', store len a v m = (r, m') /\ view m' d'.
Proof.
  intros Hv Hl Ha E Hv0.
  destruct (store_bare (H := platform_here) sim_mmio_store_mip m len a v (v_bare _ _ Hv) (v_tlb _ _ Hv) Hl Ha) as (m' & Es & u & Em & Hb & Ht).
  rewrite E in Es, Em. cbn [fst snd] in Es, Em. rewrite Em in Es, Hb, Ht.
  exists (m0 <| mmu := u |>). split; [done | by apply view_mmu].
Qed.

Lemma does_store_mem d len a v : len_ok len -> in_range 64 a -> a mod len = 0 -> debugging xl d ->
  d_is_mem (wrap xl a) = true ->
  does (store len a v) d tt
    (d <| d_mem := write_bytes (d_mem d) (wrap xl a) (bytes_of (Z.to_nat len) (wrap (8 * len) v)) |>).
Proof.
  intros Hl Ha Hal Hd Hm m Hv. eapply (view_store m d); [done | done | done | |].
  - unfold flat_store, phys. rewrite Hal, (view_is_mem _ _ _ Hv), (view_xlen _ _ Hv), Hm. reflexivity.
  - unfold mem_write. destruct (v_state _ _ Hv) as [c Es]. rewrite (with_id m) at 1.
    apply (view_change m d); [done | by destruct Hd | by exists c | | by rewrite (v_world _ _ Hv)].
    cbn. by rewrite (v_mem _ _ Hv).
Qed.

Lemma does_store_debug d len a v w' :
  debugging xl d -> DEBUG_START <= a < DEFAULT_RSTVEC -> len_ok len -> a mod len = 0 ->
  debug_store (a - DEBUG_START) (bytes_of (Z.to_nat len) (wrap (8 * len) v)) (d_pl d) = Some w' ->
  debugging xl (d <| d_pl := w' |>) ->
  does (store len a v) d tt (d <| d_pl := w' |>).
Proof using Hp.
  intros Hd Ha Hl Hal E Hd' m Hv.
  assert (Hlen : 1 <= len <= 8) by (destruct Hl as [-> | [-> | [-> | ->]]]; lia).
  destruct (low_phys _ _ a Hv ltac:(change DEBUG_START with 0x100 in Ha; lia)) as [Ep Em].
  eapply (view_store m d); [done | done | change DEFAULT_RSTVEC with 0x1000 in Ha; unfold in_range; change DEBUG_START with 0x100 in Ha; lia | |].
  - unfold flat_store. rewrite Hal, Ep, Em. cbn [Z.eqb negb]. rewrite (v_world _ _ Hv).
    cbn [mmio_store platform_here sim_platform]. unfold sim_mmio_store, bus_store.
    rewrite (g_bus _ _ Hd a Ha), length_bytes_of, Z2Nat.id by lia.
    rewrite wrap_small by (change DEFAULT_RSTVEC with 0x1000 in Ha; change DEBUG_START with 0x100 in Ha; lia).
    rewrite (proj2 (Z.ltb_ge _ _)) by lia. cbn [mbind option_bind device_store]. rewrite E. reflexivity.
  - destruct (v_state _ _ Hv) as [c Es]. rewrite (with_id m) at 1.
    apply (view_change m d); [done | done | by exists c | cbn; by rewrite (v_mem _ _ Hv) | done].
Qed.

Lemma throws_store d len a v (e : exn) : len_ok len -> in_range 64 a ->
  (if negb (a mod len =? 0) then e = Trap CAUSE_MISALIGNED_STORE (Some a)
   else d_is_mem (wrap xl a) = false /\ e = Trap CAUSE_FAULT_STORE (Some a) /\
        forall s, sim_mmio_store (wrap xl a) (bytes_of (Z.to_nat len) (wrap (8 * len) v)) s (d_pl d) = None) ->
  throws (store len a v) d e d.
Proof.
  intros Hl Ha He m Hv. eapply (view_store m d); [done | done | done | | exact Hv].
  unfold flat_store, phys. destruct (negb _); [by rewrite He |]. destruct He as (Hm & -> & Hn).
  rewrite (view_is_mem _ _ _ Hv), (view_xlen _ _ Hv), Hm, (v_world _ _ Hv).
  cbn [mmio_store platform_here sim_platform]. by rewrite Hn.
Qed.

(** *** Control and status registers *)

Lemma debugging_ser d b : debugging xl d -> debugging xl (d <| d_ser := b |>).
Proof. intros []. by split. Qed.

Lemma does_set_ser d b : debugging xl d ->
  does (modify_state (fun s => s <| serialized := b |>)) d tt (d <| d_ser := b |>).
Proof. intros Hd. apply does_modify_state; [by apply debugging_ser | | done | done]. intros c. by exists c. Qed.

Lemma does_gets_state {A} d (k : state_t -> M platform A) a d' :
  (forall c, does (k (assemble d c)) d a d') -> does (s ← gets state; k s) d a d'.
Proof.
  intros Hk m Hv. unfold mbind, M_bind, gets. destruct (v_state _ _ Hv) as [c Es]. rewrite Es. by apply Hk.
Qed.

Lemma does_validate_before d c write k : d_ser d = false ->
  does (validate_csr c write k) d PC_SERIALIZE_BEFORE d.
Proof.
  intros Hs. apply does_gets_state. intros n. change (serialized (assemble d n)) with (d_ser d). rewrite Hs. apply does_ret.
Qed.

Lemma does_validate d c (write : bool) k a d' : debugging xl d -> d_ser d = true -> in_range 12 c ->
  (write = true -> get_field c 0xC00 <> 3) ->
  does (k c) (d <| d_ser := false |>) a d' -> does (validate_csr c write k) d a d'.
Proof.
  intros Hd Hs Hc Hw Hk. apply does_gets_state. intros n. change (serialized (assemble d n)) with (d_ser d). rewrite Hs. cbn [negb].
  eapply does_bind; [by apply does_set_ser |]. change (prv (assemble d n)) with (prv (d_st d)). rewrite (g_prv _ _ Hd).
  assert ((write && (get_field c 0xC00 =? 3)) = false) as ->.
  { destruct write; [| done]. apply Z.eqb_neq. by apply Hw. }
  assert ((PRV_M <? get_field c 0x300) = false) as ->; [| done].
  apply Z.ltb_ge. assert (Field 0x300 8 2) as HF by solve_field.
  pose proof (get_field_range c 0x300 8 2 HF) as Hr. unfold in_range in Hr. change PRV_M with 3. lia.
Qed.

(** A machine with this view, and the registers that do not count instructions. *)
Definition mach d : machine platform :=
  Machine (assemble d 0) p new_mmu (FpState 0 0 0) (d_mem d) size (d_pl d).
Definition is_counter (c : Z) : bool :=
  existsb (Z.eqb c) [CSR_INSTRET; CSR_CYCLE; CSR_MINSTRET; CSR_MCYCLE; CSR_MINSTRETH; CSR_MCYCLEH].

Lemma view_csr m d c : view m d -> is_counter c = false -> csr_value c m = csr_value c (mach d).
Proof.
  intros Hv Hc. unfold is_counter in Hc. cbn [existsb] in Hc. repeat rewrite orb_false_iff in Hc.
  destruct Hc as (C1 & C2 & C3 & C4 & C5 & C6 & _).
  destruct (v_state _ _ Hv) as [n Es]. destruct (v_proc _ _ Hv) as (dec & Epr & _).
  unfold csr_value. rewrite Es, Epr, (v_world _ _ Hv), C1, C2, C3, C4, C5, C6. cbn [orb].
  cbv zeta. repeat match goal with |- (if ?b then _ else _) = (if ?b' then _ else _) =>
    change b' with b; destruct b; [reflexivity |] end. reflexivity.
Qed.

Lemma does_get_csr d c v : is_counter c = false -> csr_value c (mach d) = Some v -> does (get_csr c) d v d.
Proof. intros Hc Hv m Hm. exists m. unfold get_csr. by rewrite (view_csr m d c Hm Hc), Hv. Qed.

(** The registers whose value is in the state alone. *)
Definition is_plain (c : Z) : bool :=
  negb (is_counter c)
  && negb (existsb (Z.eqb c) [CSR_SSTATUS; CSR_SIP; CSR_SIE; CSR_MSTATUS; CSR_SPTBR; CSR_MISA; CSR_TDATA1]).

Lemma set_plain d c v n : is_plain c = true ->
  set_csr_state xl c v (assemble d n) = assemble (d <| d_st := set_csr_state xl c v (d_st d) |>) n.
Proof.
  intros [Hc _]%andb_prop. apply negb_true_iff in Hc. unfold is_counter in Hc. cbn [existsb] in Hc. repeat rewrite orb_false_iff in Hc.
  destruct Hc as (C1 & C2 & C3 & C4 & C5 & C6 & _). unfold set_csr_state. rewrite C3, C4, C5, C6. cbn [orb].
  cbv zeta. change (mcontrol_at (assemble d n) (tselect (assemble d n))) with (mcontrol_at (d_st d) (tselect (d_st d))).
  change (tselect (assemble d n)) with (tselect (d_st d)). change (dcsr (assemble d n)) with (dcsr (d_st d)).
  repeat match goal with |- (if ?b then _ else _) = _ => destruct b; [by repeat case_match |] end. reflexivity.
Qed.

Lemma does_set_plain d c v :
  is_plain c = true -> debugging xl (d <| d_st := set_csr_state xl c (zext_xlen xl v) (d_st d) |>) ->
  does (set_csr c v) d tt (d <| d_st := set_csr_state xl c (zext_xlen xl v) (d_st d) |>).
Proof.
  intros Hc Hd m Hv. pose proof (view_xlen _ _ Hv) as Hx.
  assert (E : set_csr c v m = modify_state (set_csr_state xl c (zext_xlen xl v)) m).
  { pose proof Hc as [_ Hn]%andb_prop. apply negb_true_iff in Hn. cbn [existsb] in Hn.
    repeat rewrite orb_false_iff in Hn. destruct Hn as (C1 & C2 & C3 & C4 & C5 & C6 & C7 & _).
    unfold set_csr. rewrite C1, C2, C3. unfold set_csr_direct. rewrite C4, C5, C6, C7, Hx. done. }
  rewrite E. eexists. split; [reflexivity |].
  apply (view_state m d); [done | done | | done | done]. intros n. exists n. by apply set_plain.
Qed.

(** ** One turn of the slow loop *)

Definition turn : B bool :=
  l ← get_locals;
  lift (modify_state start_stepping) ;;
  fetch ← lift (load_insn (l_pc l));
  execute_next fetch ;;
  advance_pc.

(** It retires an instruction, or breaks out of the loop to serialize the pipeline, or traps. *)
Definition turned (l l' : locals) (d d' : dbg) (r : bool + exn) m' : Prop :=
  match r with
  | inl false => view m' d' /\ l_pc l' = d_pc d' /\ l_instret l' = l_instret l + 1
  | inl true => view m' d' /\ (l_instret l' = l_instret l + 1 \/
      l_instret l' = l_instret l /\ d_ser d = false /\ d_ser d' = true)
  | inr (Trap c b) => l_instret l' = l_instret l /\ c <> CAUSE_BREAKPOINT /\
      exists d1, view m' d1 /\ d' = d1 <| d_pc := DEBUG_ROM_EXCEPTION |>
  | inr _ => False
  end.
Definition dstep (d d' : dbg) : Prop :=
  forall m l, view m d -> l_pc l = d_pc d ->
  exists r l' m', turn l m = (r, l', m') /\ turned l l' d d' r m'.

Lemma debugging_pc d a : debugging xl d -> debugging xl (d <| d_pc := a |>).
Proof. intros []. by split. Qed.

(** The instruction in front, executed: [pc], the fetch, the execution. *)
Lemma turn_insn d w f m l :
  view m d -> l_pc l = d_pc d -> 0x400 <= d_pc d < 0xffc -> debug_word (d_pc d) (d_pl d) = Some w -> opcode f w ->
  exists m1, view m1 d /\
    turn l m = (match rv_NAME xl f (fetch32 w) (d_pc d) m1 with
                | (inl a, m2) => advance_pc (Locals a (l_instret l)) m2
                | (inr e, m2) => (inr e, l, m2) end).
Proof using Hp.
  intros Hv Hl Ha Hw Hf. unfold turn, mbind, B_bind, get_locals, lift at 1, modify_state, modify.
  assert (Es : start_stepping (state m) = state m).
  { unfold start_stepping. destruct (v_state _ _ Hv) as [n ->].
    change (single_step (assemble d n)) with (single_step (d_st d)). by rewrite (g_single _ _ (v_debugging _ _ Hv)). }
  rewrite Es. change (m <| state := state m |>) with (machine_eta m). assert (machine_eta m = m) as -> by (destruct m; done).
  rewrite Hl. destruct (load_debug m d (d_pc d) w f Hv Ha Hw Hf) as (m1 & El & Hv1). unfold lift at 1. rewrite El.
  exists m1. split; [done |]. unfold execute_next, mbind, B_bind, get_locals, lift, execute_insn. cbn [if_func if_insn].
  rewrite (view_xlen _ _ Hv1), Hl. by destruct (rv_NAME _ _ _ _ m1) as [[a | e] m2].
Qed.

(** The instruction [f] is in front. *)
Definition in_front d w f : Prop :=
  0x400 <= d_pc d < 0xffc /\ d_pc d mod 4 = 0 /\ debug_word (d_pc d) (d_pl d) = Some w /\ opcode f w.

Lemma dstep_next d w f a d1 : in_front d w f ->
  does (rv_NAME xl f (fetch32 w) (d_pc d)) d a d1 -> a mod 2 = 0 ->
  dstep d (d1 <| d_pc := a |>).
Proof using Hp.
  intros (Ha & _ & Hw & Hf) He Hev m l Hv Hl.
  destruct (turn_insn d w f m l Hv Hl Ha Hw Hf) as (m1 & Hv1 & ->).
  destruct (He m1 Hv1) as (m2 & -> & Hv2). unfold advance_pc, mbind, B_bind, get_locals. cbn [l_pc].
  rewrite (invalid_even a Hev). unfold lift, modify_state, modify, incr_instret, mret, B_ret.
  eexists (inl false), _, _. split; [reflexivity |]. split; [| done].
  apply (view_state m2 d1 (d1 <| d_pc := a |>) (fun s => s <| pc := a |>)); [done | | | done | done].
  - apply debugging_pc, (v_debugging _ _ Hv2).
  - intros n. by exists n.
Qed.

Lemma dstep_serialize d w f : in_front d w f -> d_ser d = false ->
  does (rv_NAME xl f (fetch32 w) (d_pc d)) d PC_SERIALIZE_BEFORE d ->
  dstep d (d <| d_ser := true |>).
Proof using Hp.
  intros (Ha & _ & Hw & Hf) Hser He m l Hv Hl.
  destruct (turn_insn d w f m l Hv Hl Ha Hw Hf) as (m1 & Hv1 & ->).
  destruct (He m1 Hv1) as (m2 & -> & Hv2). unfold advance_pc, mbind, B_bind, get_locals. cbn [l_pc].
  change (invalid_pc PC_SERIALIZE_BEFORE) with true. change (PC_SERIALIZE_BEFORE =? PC_SERIALIZE_BEFORE) with true.
  unfold lift, modify_state, modify, gets, set_pc_local, mret, B_ret. 
  eexists (inl true), _, _. split; [reflexivity |]. split; [| by right].
  apply (view_state m2 d (d <| d_ser := true |>) (fun s => s <| serialized := true |>)); [done | | | done | done].
  - apply debugging_ser, (v_debugging _ _ Hv2).
  - intros n. by exists n.
Qed.

Lemma dstep_trap d w f c b d1 : in_front d w f ->
  throws (rv_NAME xl f (fetch32 w) (d_pc d)) d (Trap c b) d1 -> c <> CAUSE_BREAKPOINT ->
  dstep d (d1 <| d_pc := DEBUG_ROM_EXCEPTION |>).
Proof using Hp.
  intros (Ha & _ & Hw & Hf) He Hc m l Hv Hl.
  destruct (turn_insn d w f m l Hv Hl Ha Hw Hf) as (m1 & Hv1 & ->).
  destruct (He m1 Hv1) as (m2 & -> & Hv2). eexists _, _, _. split; [reflexivity |]. split; [done |]. split; [done |].
  by exists d1.
Qed.

(** ** The loop of [step]

    [reaches Q k d]: after [k] turns at most, [Q] holds; up to then the debugger's interrupt is
    pending, which keeps the debugger from doing anything. *)
Definition asked (pl : platform) : bool := debug_get_interrupt (id p) pl.
Inductive reaches (Q : dbg -> Prop) : nat -> dbg -> Prop :=
  | reaches_now k d : Q d -> reaches Q k d
  | reaches_turn k d d' : asked (d_pl d) = true -> dstep d d' -> reaches Q k d' -> reaches Q (S k) d.

(** [Q] is not left any more. *)
Definition stays (Q : dbg -> Prop) : Prop := forall d, Q d -> exists d', dstep d d' /\ Q d'.

Lemma reaches_next Q k d : stays Q -> reaches Q k d -> exists d', dstep d d' /\ reaches Q (pred k) d'.
Proof.
  intros HQ [k' d0 HQd | k' d0 d' Ha Hd Hr]; [| by exists d'].
  destruct (HQ d0 HQd) as (d' & Hd & HQd'). exists d'. split; [done | by apply reaches_now].
Qed.

Lemma reaches_le Q k k' d : (k <= k')%nat -> reaches Q k d -> reaches Q k' d.
Proof.
  intros Hk Hr. revert k' Hk. induction Hr as [k d HQ | k d d' Ha Hd Hr IH]; intros k' Hk; [by apply reaches_now |].
  destruct k' as [| k']; [lia |]. eapply reaches_turn; [done | done |]. apply IH. lia.
Qed.

Lemma reaches_trans P Q k j d :
  reaches P k d -> (forall d', P d' -> reaches Q j d') -> reaches Q (k + j) d.
Proof.
  intros Hr HP. induction Hr as [k d HPd | k d d' Ha Hd Hr IH].
  - apply (reaches_le _ j); [lia | by apply HP].
  - by eapply reaches_turn.
Qed.

Lemma reaches_asked Q k d : reaches Q k d -> Q d \/ asked (d_pl d) = true.
Proof. intros []; [by left | by right]. Qed.

Lemma slow_loop_turn fuel n l m r l' m' : l_instret l < n -> turn l m = (r, l', m') ->
  (r = inl false -> single_step (state m') <> STEP_STEPPED) ->
  slow_loop (S fuel) n l m =
  match r with
  | inl true => (inl tt, l', m')
  | inl false => slow_loop fuel n l' m'
  | inr e => (inr e, l', m')
  end.
Proof.
  intros Hn Ht Hs. cbn [slow_loop]. unfold turn in Ht.
  unfold mbind, B_bind, get_locals in *. rewrite (proj2 (Z.ltb_lt _ _) Hn).
  destruct (lift (modify_state start_stepping) l m) as [[[[] | e] l0] m0]; [| by injection Ht as <- <- <-].
  destruct (lift (load_insn (l_pc l)) l0 m0) as [[[fetch | e] l1] m1]; [| by injection Ht as <- <- <-].
  destruct (execute_next fetch l1 m1) as [[[[] | e] l2] m2]; [| by injection Ht as <- <- <-].
  destruct (advance_pc l2 m2) as [[[[] | e] l3] m3]; injection Ht as <- <- <-; [done | | done].
  unfold lift, gets. rewrite bool_decide_eq_false_2 by auto. done.
Qed.

Section runs.
Context (Q : dbg -> Prop) (Hstays : stays Q).

(** What an iteration of [step]'s loop leaves. *)
Definition ran (k : nat) (n : Z) (l l' : locals) (d : dbg) (r : unit + exn) m' : Prop :=
  l_instret l <= l_instret l' <= n /\
  match r with
  | inl _ => exists d', view m' d' /\ reaches Q k d' /\
      (l_instret l < l_instret l' \/ l_instret l' = l_instret l /\ d_ser d = false /\ d_ser d' = true)
  | inr (Trap c b) => c <> CAUSE_BREAKPOINT /\
      exists d1, view m' d1 /\ reaches Q k (d1 <| d_pc := DEBUG_ROM_EXCEPTION |>)
  | inr _ => False
  end.

Lemma slow_loop_ran fuel n l m d k : view m d -> l_pc l = d_pc d -> reaches Q k d ->
  l_instret l < n -> n - l_instret l <= Z.of_nat fuel ->
  exists r l' m', slow_loop fuel n l m = (r, l', m') /\ ran (pred k) n l l' d r m'.
Proof using Hstays.
  revert l m d k. induction fuel as [| fuel IH]; intros l m d k Hv Hl Hr Hn Hf; [lia |].
  destruct (reaches_next Q k d Hstays Hr) as (d' & Hd & Hr').
  destruct (Hd m l Hv Hl) as (r & l' & m' & Et & Ht).
  assert (Hns : r = inl false -> single_step (state m') <> STEP_STEPPED).
  { intros ->. destruct Ht as [Hv' _]. destruct (v_state _ _ Hv') as [c ->].
    change (single_step (assemble d' c)) with (single_step (d_st d')). by rewrite (g_single _ _ (v_debugging _ _ Hv')). }
  rewrite (slow_loop_turn fuel n l m r l' m' Hn Et Hns).
  destruct r as [[] | [c b | |]]; [| | | by destruct Ht | by destruct Ht].
  - destruct Ht as [Hv' Hi]. exists (inl tt), l', m'. split; [done |]. split; [lia |].
    exists d'. split; [done |]. split; [done |]. destruct Hi; [left; lia | by right].
  - destruct Ht as (Hv' & Hl' & Hi). destruct (decide (l_instret l' < n)) as [Hn' | Hn'].
    + destruct (IH l' m' d' (pred k) Hv' Hl' Hr' Hn' ltac:(lia)) as (r & l2 & m2 & -> & Hi2 & H2).
      exists r, l2, m2. split; [done |]. split; [lia |]. destruct r as [[] | [c b | |]]; [| | done | done].
      * destruct H2 as (d2 & Hv2 & Hr2 & _). exists d2. split; [done |].
        split; [by apply (reaches_le _ (pred (pred k))); [lia |] | left; lia].
      * destruct H2 as (Hc & d1 & Hv1 & Hr1). split; [done |]. exists d1. split; [done |].
        by apply (reaches_le _ (pred (pred k))); [lia |].
    + exists (inl tt), l', m'. split.
      { destruct fuel; [done |]. cbn [slow_loop]. unfold mbind, B_bind, get_locals.
        by rewrite (proj2 (Z.ltb_ge _ _)) by lia. }
      split; [lia |]. exists d'. split; [done |]. split; [done |]. left; lia.
  - destruct Ht as (Hi & Hc & d1 & Hv1 & ->). exists (inr (Trap c b)), l', m'. split; [done |].
    split; [lia |]. split; [done |]. by exists d1.
Qed.

Lemma take_trap_debug m d c b a : view m d -> c <> CAUSE_BREAKPOINT ->
  on_trap c b a m = (inl tt, m <| state := (state m) <| pc := DEBUG_ROM_EXCEPTION |> |>).
Proof.
  intros Hv Hc. pose proof (v_debugging _ _ Hv) as Hd. destruct (v_state _ _ Hv) as [n Es].
  unfold on_trap, take_trap, mbind, M_bind, gets. rewrite Es, (proj2 (Z.eqb_neq _ _) Hc). cbn [andb].
  change (dcsr (assemble d n)) with (dcsr (d_st d)). rewrite (g_cause _ _ Hd).
  unfold modify_state, modify. cbn [state]. rewrite bool_decide_eq_false_2; [by rewrite Es |].
  rewrite Es. change (single_step (assemble d n) <> STEP_STEPPED). change (single_step (assemble d n)) with (single_step (d_st d)).
  by rewrite (g_single _ _ Hd).
Qed.

Lemma view_count m d (f : Z -> Z) : view m d -> view (m <| state := (state m) <| minstret := f (minstret (state m)) |> |>) d.
Proof.
  intros Hv. apply (view_state m d d (fun s => s <| minstret := f (minstret s) |>)); [done | | | done | done].
  - apply (v_debugging _ _ Hv).
  - intros n. by eexists.
Qed.

Lemma view_pc m d a : view m d -> view (m <| state := (state m) <| pc := a |> |>) (d <| d_pc := a |>).
Proof.
  intros Hv. apply (view_state m d _ (fun s => s <| pc := a |>)); [done | | | done | done].
  - apply debugging_pc, (v_debugging _ _ Hv).
  - intros n. by exists n.
Qed.

Lemma step_once_ran n m d k : view m d -> reaches Q k d -> 0 < n < 2 ^ 64 ->
  exists n' m' d', step_once n m = (Continue n', m') /\ view m' d' /\ reaches Q (pred k) d' /\
    0 <= n' <= n /\ (n' < n \/ n' = n /\ d_ser d = false /\ d_ser d' = true).
Proof using Hstays.
  intros Hv Hr Hn. pose proof (v_debugging _ _ Hv) as Hd. destruct (v_state _ _ Hv) as [c Es].
  unfold step_once, try_block. unfold mbind, B_bind.
  assert (Ei : lift take_interrupt (Locals (pc (state m)) 0) m = (inl tt, Locals (pc (state m)) 0, m)).
  { unfold lift, take_interrupt, mbind, M_bind, gets. rewrite quiet_none; [done | |].
    - rewrite Es. apply Hd.
    - rewrite Es. apply Hd. }
  rewrite Ei. unfold lift at 1, gets at 1. unfold slow_path at 1. rewrite Es.
  change (dcsr (assemble d c)) with (dcsr (d_st d)). rewrite (g_cause _ _ Hd), orb_true_r.
  destruct (slow_loop_ran (Z.to_nat n) n (Locals (pc (assemble d c)) 0) m d k Hv eq_refl Hr ltac:(cbn; lia) ltac:(cbn; lia))
    as (r & l' & m' & -> & Hi & H'). cbn [l_instret] in Hi.
  destruct r as [[] | [cc b | |]]; [| | done | done].
  - destruct H' as (d' & Hv' & Hr' & Hprog). unfold retire. rewrite wrap_small by lia.
    eexists _, _, d'. split; [reflexivity |]. split; [by apply (view_count m' d' (fun x => u64 (x + l_instret l'))) |].
    split; [done |]. cbn [l_instret] in Hprog. split; [lia |]. destruct Hprog as [|[? ?]]; [left; lia | right; split; [lia | done]].
  - destruct H' as (Hc & d1 & Hv1 & Hr1). rewrite (take_trap_debug m' d1 cc b _ Hv1 Hc). unfold retire.
    rewrite Z.sub_diag. eexists _, _, _. split; [reflexivity |].
    split; [apply (view_count _ _ (fun x => u64 (x + l_instret l'))), (view_pc _ _ _ Hv1) |].
    split; [done |]. change (u64 0) with 0. lia.
Qed.

Lemma step_loop_ran fuel n m d k : view m d -> reaches Q k d -> 0 <= n < 2 ^ 64 ->
  2 * n + (if d_ser d then 0 else 1) <= Z.of_nat fuel ->
  exists m' d', step_loop fuel n m = (Return, m') /\ view m' d' /\ reaches Q (if 0 <? n then pred k else k) d'.
Proof using Hstays.
  revert n m d k. induction fuel as [| fuel IH]; intros n m d k Hv Hr Hn Hf.
  { assert (n = 0) as -> by (destruct (d_ser d); lia). by exists m, d. }
  cbn [step_loop]. destruct (Z.leb_spec n 0); [rewrite (proj2 (Z.ltb_ge _ _)) by lia; by exists m, d |].
  rewrite (proj2 (Z.ltb_lt 0 n)) by lia.
  destruct (step_once_ran n m d k Hv Hr ltac:(lia)) as (n' & m1 & d1 & -> & Hv1 & Hr1 & Hn' & Hp').
  destruct (IH n' m1 d1 (pred k) Hv1 Hr1 ltac:(lia)) as (m' & d' & -> & Hv' & Hr').
  { destruct Hp' as [? | (-> & E1 & E2)]; [destruct (d_ser d), (d_ser d1); lia |].
    rewrite E1 in Hf. rewrite E2. lia. }
  exists m', d'. split; [done |]. split; [done |]. destruct (0 <? n'); [| done].
  by apply (reaches_le _ (pred (pred k))); [lia |].
Qed.

(** A call of [step] brings a hart in debug mode a turn closer, at least. *)
Lemma step_ran fuel n m d k : view m d -> reaches Q k d -> 0 < n < 2 ^ 64 -> 2 * n + 1 <= Z.of_nat fuel ->
  exists m' d', step fuel n m = (Return, m') /\ view m' d' /\ reaches Q (pred k) d'.
Proof using Hstays.
  intros Hv Hr Hn Hf. pose proof (v_debugging _ _ Hv) as Hd. destruct (v_state _ _ Hv) as [c Es].
  unfold step, step_begin, mbind, M_bind, gets. rewrite Es. change (dcsr (assemble d c)) with (dcsr (d_st d)).
  pose proof (g_cause _ _ Hd) as Hc. unfold z2b in Hc. apply negb_true_iff in Hc.
  change DCSR_CAUSE_NONE with 0. rewrite Hc.
  destruct (step_loop_ran fuel (Z.min n 11) m d k Hv Hr ltac:(lia)) as (m' & d' & E & Hv' & Hr').
  { destruct (d_ser d); lia. }
  unfold mret, M_ret. rewrite E. rewrite (proj2 (Z.ltb_lt 0 _)) in Hr' by lia. by exists m', d'.
Qed.
End runs.
End debug.
