(* ===== verification/DebugInsn.v ===== *)
(** What the instructions of the debug ROM, and those the debugger generates, do to a hart in
    debug mode, as turns of the loop on the view of DebugMode.v. *)
From S2P Require Import Prelude SoftPrim Encoding Decode Decoder Machine Csr Isa CsrProps Mmu Tlb Insns.
From S2P Require Import Safe InsnProps FetchProps Alu Control Step StepProps OrdMap Devices GdbAsm DebugMode.

Section insns.
Context (temp size : Z) (p : processor_t).
#[local] Instance platform_insns : Platform platform := sim_platform temp.
Implicit Types (m : machine platform) (d : dbg).
Let xl := xlen p.
Hypothesis Hp : wf_proc p.

#[local] Abbreviation does := (DebugMode.does temp size p).
#[local] Abbreviation throws := (DebugMode.throws temp size p).
#[local] Abbreviation dstep := (DebugMode.dstep temp size p).
#[local] Abbreviation debugging := (DebugMode.debugging xl).

(** The registers hold sign-extended values of [xl] bits. *)
Lemma reg_ok_sext x : reg_ok xl (u64 (sext_xlen xl x)).
Proof using Hp.
  split; [apply wrap_range; lia |]. apply canonical_u64, (canonical_sext xl (xl_cases p Hp)).
Qed.

Lemma d_reg_ok d r : debugging d -> 0 <= r < 32 -> reg_ok xl (d_reg d r).
Proof.
  intros Hd Hr. unfold d_reg. destruct (r =? 8); [apply Hd |]. destruct (r =? 9); [apply Hd |].
  pose proof (g_regs _ _ Hd) as [Hl _ HF]. unfold regfile_read. change regfile with (list Z) in *.
  destruct (lookup_lt_is_Some_2 (XPR (d_st d)) (Z.to_nat r) ltac:(lia)) as [v Ev]. rewrite Ev.
  apply (Forall_lookup_1 _ _ _ _ HF Ev).
Qed.

Lemma d_reg_zero d : debugging d -> d_reg d 0 = 0.
Proof.
  intros Hd. change (regfile_read (XPR (d_st d)) 0 = 0). unfold regfile_read. change (Z.to_nat 0) with 0%nat. pose proof (xr_zero _ _ (g_regs _ _ Hd)) as E.
  change regfile with (list Z) in *. by rewrite E.
Qed.

Lemma next_pc_low f pc : wide f = true -> 0 <= pc < 2 ^ 30 ->
  u64 (sext_xlen xl (pc + insn_length (insn_match f))) = pc + 4.
Proof using Hp.
  intros [_ Hf%Z.eqb_eq]%andb_prop Ha. rewrite Hf. pose proof (xl_cases p Hp) as Hx. fold xl in Hx.
  rewrite sext_xlen_spec by (destruct Hx; lia). rewrite (sext_low xl) by (done || lia). apply wrap_small. lia.
Qed.

Lemma dstep_body d w f d1 b : in_front d w f ->
  does (insn_body (fetch32 w) (d_pc d) (d_pc d + 4) xl f) d b d1 -> b mod 2 = 0 -> dstep d (d1 <| d_pc := b |>).
Proof using Hp.
  intros Hf Hb He. apply (dstep_next temp size p Hp d w f b d1 Hf); [| done].
  unfold rv_NAME. destruct Hf as (Ha & _ & _ & Hop). fold xl. rewrite next_pc_low by (apply Hop || lia). done.
Qed.
Lemma dstep_body_trap d w f d1 c b : in_front d w f ->
  throws (insn_body (fetch32 w) (d_pc d) (d_pc d + 4) xl f) d (Trap c b) d1 -> c <> CAUSE_BREAKPOINT ->
  dstep d (d1 <| d_pc := DEBUG_ROM_EXCEPTION |>).
Proof using Hp.
  intros Hf Hb He. apply (dstep_trap temp size p Hp d w f c b d1 Hf); [| done].
  unfold rv_NAME. destruct Hf as (Ha & _ & _ & Hop). fold xl. rewrite next_pc_low by (apply Hop || lia). done.
Qed.
Lemma dstep_body_serialize d w f : in_front d w f -> d_ser d = false ->
  does (insn_body (fetch32 w) (d_pc d) (d_pc d + 4) xl f) d PC_SERIALIZE_BEFORE d -> dstep d (d <| d_ser := true |>).
Proof using Hp.
  intros Hf Hs Hb. apply (dstep_serialize temp size p Hp d w f Hf Hs).
  unfold rv_NAME. destruct Hf as (Ha & _ & _ & Hop). fold xl. rewrite next_pc_low by (apply Hop || lia). done.
Qed.

Lemma next_even d w f : in_front d w f -> (d_pc d + 4) mod 2 = 0.
Proof. intros (_ & Ha & _). Z.div_mod_to_equations. lia. Qed.

(** ** Computation *)

Definition imm_value (f : insn_func) (a imm : Z) : option Z :=
  match f with
  | rv_addi => Some (sext_xlen xl (a + imm))
  | rv_andi => Some (imm .& a)
  | rv_ori => Some (imm .| a)
  | rv_xori => Some (imm .^ a)
  | _ => None
  end.

Lemma does_RS1 d insn r : debugging d -> rs1 insn = r -> 0 <= r < 32 -> does (RS1 insn) d (d_reg d r) d.
Proof. intros Hd <- Hr. by apply does_READ_REG. Qed.
Lemma does_RS2 d insn r : debugging d -> rs2 insn = r -> 0 <= r < 32 -> does (RS2 insn) d (d_reg d r) d.
Proof. intros Hd <- Hr. by apply does_READ_REG. Qed.
Lemma does_WRITE_RD d insn r v : debugging d -> rd insn = r -> 0 <= r < 32 -> reg_ok xl (u64 v) ->
  does (WRITE_RD insn v) d tt (d_set r (u64 v) d).
Proof. intros Hd <- Hr Hv. by apply does_WRITE_REG. Qed.

Lemma dstep_imm d w f r r1 imm v : debugging d -> in_front d w f -> i_format w r r1 imm ->
  0 <= r < 32 -> 0 <= r1 < 32 -> imm_value f (d_reg d r1) imm = Some v -> reg_ok xl (u64 v) ->
  dstep d ((d_set r (u64 v) d) <| d_pc := d_pc d + 4 |>).
Proof using Hp.
  intros Hd Hf (Er & E1 & Ei) Hr H1 Hv Hok. eapply (dstep_body d w f); [done | | by apply (next_even d w f)].
  destruct f; try discriminate Hv; cbn [imm_value] in Hv; injection Hv as <-;
    (eapply does_bind; [by apply (does_RS1 d _ r1) |]; rewrite Ei;
     eapply does_bind; [by apply (does_WRITE_RD d _ r) | apply does_ret]).
Qed.

Lemma dstep_srli d w r r1 n : debugging d -> in_front d w rv_srli ->
  rd (fetch32 w) = r -> rs1 (fetch32 w) = r1 -> SHAMT (fetch32 w) = n -> 0 <= n < xl ->
  0 <= r < 32 -> 0 <= r1 < 32 ->
  dstep d ((d_set r (u64 (sext_xlen xl (zext_xlen xl (d_reg d r1) .>> n))) d) <| d_pc := d_pc d + 4 |>).
Proof using Hp.
  intros Hd Hf Er E1 En Hn Hr H1. eapply (dstep_body d w rv_srli); [done | | by apply (next_even d w rv_srli)].
  eapply does_bind; [apply does_require; rewrite En; apply Z.ltb_lt, Hn |].
  eapply does_bind; [by apply (does_RS1 d _ r1) |]. rewrite En.
  eapply does_bind; [apply (does_WRITE_RD d _ r); [done | done | done | apply reg_ok_sext] | apply does_ret].
Qed.

Lemma dstep_fence d w : in_front d w rv_fence -> dstep d (d <| d_pc := d_pc d + 4 |>).
Proof using Hp.
  intros Hf. eapply (dstep_body d w rv_fence); [done | apply does_ret | by apply (next_even d w rv_fence)].
Qed.

(** ** Jumps and branches *)

Lemma d_set_zero v d : d_set 0 v d = d. Proof. done. Qed.

Lemma mod4_even t : t mod 4 = 0 -> t mod 2 = 0.
Proof. intros Ht. Z.div_mod_to_equations. lia. Qed.

Lemma dstep_jal d w t : debugging d -> in_front d w rv_jal ->
  rd (fetch32 w) = 0 -> d_pc d + uj_imm (fetch32 w) = t -> 0 <= t < 2 ^ 31 -> t mod 4 = 0 ->
  dstep d (d <| d_pc := t |>).
Proof using Hp.
  intros Hd Hf Er Et Hr Ht. eapply (dstep_body d w rv_jal); [done | | by apply mod4_even].
  eapply does_bind; [rewrite Et; by apply does_set_pc |].
  eapply does_bind; [| apply does_ret]. apply (does_WRITE_RD d _ 0); [done | done | lia |].
  destruct Hf as (Ha & _). replace (d_pc d + 4) with (sext_xlen xl (d_pc d + 4)); [apply reg_ok_sext |].
  pose proof (xl_cases p Hp) as Hx. fold xl in Hx. rewrite sext_xlen_spec by (destruct Hx; lia). by apply sext_low; [| lia].
Qed.

Lemma dstep_jalr d w t : debugging d -> in_front d w rv_jalr ->
  rd (fetch32 w) = 0 -> rs1 (fetch32 w) = 0 -> i_imm (fetch32 w) = t -> 0 <= t < 2 ^ 31 -> t mod 4 = 0 ->
  dstep d (d <| d_pc := t |>).
Proof using Hp.
  intros Hd Hf Er E1 Et Hr Ht. eapply (dstep_body d w rv_jalr); [done | | by apply mod4_even].
  eapply does_bind; [by apply (does_RS1 d _ 0) |]. rewrite d_reg_zero, Et, wrap_small by (done || lia).
  replace ((0 + t) .& Z.lnot 1) with t by (rewrite clear_bit0; Z.div_mod_to_equations; lia).
  eapply does_bind; [by apply does_set_pc |].
  eapply does_bind; [| apply does_ret]. apply (does_WRITE_RD d _ 0); [done | done | lia |].
  destruct Hf as (Ha & _). replace (d_pc d + 4) with (sext_xlen xl (d_pc d + 4)); [apply reg_ok_sext |].
  pose proof (xl_cases p Hp) as Hx. fold xl in Hx. rewrite sext_xlen_spec by (destruct Hx; lia). by apply sext_low; [| lia].
Qed.

Definition taken (f : insn_func) (a b : Z) : option bool :=
  match f with
  | rv_beq => Some (a =? b)
  | rv_bne => Some (negb (a =? b))
  | rv_blt => Some (s64 a <? s64 b)
  | _ => None
  end.

Lemma dstep_branch d w f r1 r2 t (c : bool) : debugging d -> in_front d w f ->
  rs1 (fetch32 w) = r1 -> rs2 (fetch32 w) = r2 -> 0 <= r1 < 32 -> 0 <= r2 < 32 ->
  taken f (d_reg d r1) (d_reg d r2) = Some c ->
  d_pc d + sb_imm (fetch32 w) = t -> 0 <= t < 2 ^ 31 -> t mod 4 = 0 ->
  dstep d (d <| d_pc := if c then t else d_pc d + 4 |>).
Proof using Hp.
  intros Hd Hf E1 E2 H1 H2 Hc Et Hr Ht. eapply (dstep_body d w f); [done | |].
  2: { destruct c; [by apply mod4_even | by apply (next_even d w f)]. }
  destruct f; try discriminate Hc; injection Hc as <-; cbn [insn_body];
    (eapply does_bind; [by apply (does_RS1 d _ r1) |]; eapply does_bind; [by apply (does_RS2 d _ r2) |]; rewrite Et).
  all: match goal with |- context [?a =? ?b] => destruct (a =? b) | |- context [?a <? ?b] => destruct (a <? b) end;
    cbn [negb]; first [apply does_ret | by apply does_set_pc].
Qed.

(** ** Memory *)

Definition load_of (f : insn_func) : option Z :=
  match f with rv_lb => Some 1 | rv_lh => Some 2 | rv_lw => Some 4 | rv_ld => Some 8 | _ => None end.
Definition store_of (f : insn_func) : option Z :=
  match f with rv_sb => Some 1 | rv_sh => Some 2 | rv_sw => Some 4 | rv_sd => Some 8 | _ => None end.

Lemma typed_ok len v : len_ok len -> in_range (8 * len) v -> 8 * len <= xl -> reg_ok xl (u64 (typed true len v)).
Proof using Hp.
  intros Hl Hv Hx. split; [apply wrap_range; lia |]. by apply canonical_u64, (canonical_typed xl (xl_cases p Hp) true).
Qed.

(** A word of 8 bytes needs 64-bit registers. *)
Definition fits (len : Z) : Prop := len = 8 -> xl = 64.

Lemma load_of_len f len : load_of f = Some len -> len_ok len.
Proof. unfold len_ok. destruct f; try discriminate; intros [= <-]; lia. Qed.
Lemma store_of_len f len : store_of f = Some len -> len_ok len.
Proof. unfold len_ok. destruct f; try discriminate; intros [= <-]; lia. Qed.

Lemma u64_range x : in_range 64 (u64 x).
Proof. apply wrap_range. lia. Qed.

Lemma dstep_load d w f r r1 imm len v : debugging d -> in_front d w f -> i_format w r r1 imm ->
  0 <= r < 32 -> 0 <= r1 < 32 -> load_of f = Some len -> fits len ->
  d_load size p true len (u64 (d_reg d r1 + imm)) d = inl v -> reg_ok xl (u64 v) ->
  dstep d ((d_set r (u64 v) d) <| d_pc := d_pc d + 4 |>).
Proof using Hp.
  intros Hd Hf (Er & E1 & Ei) Hr H1 Hl H8 Hv Hok. eapply (dstep_body d w f); [done | | by apply (next_even d w f)].
  pose proof (load_of_len f len Hl) as Hlen.
  assert (Hgo : does (a ← RS1 (fetch32 w); v ← load true len (u64 (a + i_imm (fetch32 w)));
                      WRITE_RD (fetch32 w) v ;; mret (d_pc d + 4)) d (d_pc d + 4) (d_set r (u64 v) d)).
  { eapply does_bind; [by apply (does_RS1 d _ r1) |]. rewrite Ei.
    eapply does_bind; [apply (does_load temp size p d); [done | apply u64_range | exact Hv] |].
    eapply does_bind; [by apply (does_WRITE_RD d _ r) | apply does_ret]. }
  destruct f; try discriminate Hl; injection Hl as <-; try exact Hgo.
  eapply does_bind; [apply does_require; rewrite H8 by done; done | exact Hgo].
Qed.

Lemma dstep_load_trap d w f r r1 imm len c b : debugging d -> in_front d w f -> i_format w r r1 imm ->
  0 <= r1 < 32 -> load_of f = Some len -> fits len ->
  d_load size p true len (u64 (d_reg d r1 + imm)) d = inr (Trap c b) -> c <> CAUSE_BREAKPOINT ->
  dstep d (d <| d_pc := DEBUG_ROM_EXCEPTION |>).
Proof using Hp.
  intros Hd Hf (Er & E1 & Ei) H1 Hl H8 Hv Hc. eapply (dstep_body_trap d w f); [done | | exact Hc].
  pose proof (load_of_len f len Hl) as Hlen.
  assert (Hgo : throws (a ← RS1 (fetch32 w); v ← load true len (u64 (a + i_imm (fetch32 w)));
                      WRITE_RD (fetch32 w) v ;; mret (d_pc d + 4)) d (Trap c b) d).
  { eapply does_throws; [by apply (does_RS1 d _ r1) |]. rewrite Ei.
    apply throws_bind. apply (throws_load temp size p d); [done | apply u64_range | exact Hv]. }
  destruct f; try discriminate Hl; injection Hl as <-; try exact Hgo.
  eapply does_throws; [apply does_require; rewrite H8 by done; done | exact Hgo].
Qed.

Lemma dstep_store d w f r2 r1 imm len d1 : debugging d -> in_front d w f -> s_format w r2 r1 imm ->
  0 <= r2 < 32 -> 0 <= r1 < 32 -> store_of f = Some len -> fits len ->
  does (store len (u64 (d_reg d r1 + imm)) (d_reg d r2)) d tt d1 ->
  dstep d (d1 <| d_pc := d_pc d + 4 |>).
Proof using Hp.
  intros Hd Hf (E2 & E1 & Ei) H2 H1 Hl H8 Hs. eapply (dstep_body d w f); [done | | by apply (next_even d w f)].
  assert (Hgo : does (a ← RS1 (fetch32 w); b ← RS2 (fetch32 w); store len (u64 (a + s_imm (fetch32 w))) b ;;
                      mret (d_pc d + 4)) d (d_pc d + 4) d1).
  { eapply does_bind; [by apply (does_RS1 d _ r1) |]. eapply does_bind; [by apply (does_RS2 d _ r2) |]. rewrite Ei.
    eapply does_bind; [exact Hs | apply does_ret]. }
  destruct f; try discriminate Hl; injection Hl as <-; try exact Hgo.
  eapply does_bind; [apply does_require; rewrite H8 by done; done | exact Hgo].
Qed.

Lemma dstep_store_trap d w f r2 r1 imm len c b : debugging d -> in_front d w f -> s_format w r2 r1 imm ->
  0 <= r2 < 32 -> 0 <= r1 < 32 -> store_of f = Some len -> fits len ->
  throws (store len (u64 (d_reg d r1 + imm)) (d_reg d r2)) d (Trap c b) d -> c <> CAUSE_BREAKPOINT ->
  dstep d (d <| d_pc := DEBUG_ROM_EXCEPTION |>).
Proof using Hp.
  intros Hd Hf (E2 & E1 & Ei) H2 H1 Hl H8 Hs Hc. eapply (dstep_body_trap d w f); [done | | exact Hc].
  assert (Hgo : throws (a ← RS1 (fetch32 w); b ← RS2 (fetch32 w); store len (u64 (a + s_imm (fetch32 w))) b ;;
                      mret (d_pc d + 4)) d (Trap c b) d).
  { eapply does_throws; [by apply (does_RS1 d _ r1) |]. eapply does_throws; [by apply (does_RS2 d _ r2) |]. rewrite Ei.
    apply throws_bind. exact Hs. }
  destruct f; try discriminate Hl; injection Hl as <-; try exact Hgo.
  eapply does_throws; [apply does_require; rewrite H8 by done; done | exact Hgo].
Qed.

(** ** Control and status registers *)

Lemma dstep_csr_serialize d w f : in_front d w f -> d_ser d = false ->
  f = rv_csrrs \/ f = rv_csrrw \/ f = rv_csrrsi -> dstep d (d <| d_ser := true |>).
Proof using Hp.
  intros Hf Hs Hc. apply (dstep_body_serialize d w f Hf Hs).
  destruct Hc as [-> | [-> | ->]]; by apply does_validate_before.
Qed.

Lemma dstep_csrr d w r c v : debugging d -> in_front d w rv_csrrs -> csr_format w r 0 c -> d_ser d = true ->
  0 <= r < 32 -> in_range 12 c -> is_counter c = false -> csr_value c (mach size p (d <| d_ser := false |>)) = Some v ->
  dstep d ((d_set r (u64 (sext_xlen xl v)) (d <| d_ser := false |>)) <| d_pc := d_pc d + 4 |>).
Proof using Hp.
  intros Hd Hf (Er & E1 & Ec) Hs Hr Hc Hn Hv. eapply (dstep_body d w rv_csrrs); [done | | by apply (next_even d w rv_csrrs)].
  cbn [insn_body]. unfold exec_csrrs. rewrite E1, Ec. cbn [Z.eqb negb].
  apply does_validate; [done | done | done | done |].
  eapply does_bind; [apply does_get_csr; [done | exact Hv] |].
  eapply does_bind; [apply does_ret |].
  eapply does_bind; [| apply does_ret].
  apply (does_WRITE_RD _ _ r); [by apply debugging_ser | done | done | apply reg_ok_sext].
Qed.

(** A write of a register by a csrw (of [x0] reads) or a csrsi. *)
Lemma dstep_csrw d w r1 c v d1 : debugging d -> in_front d w rv_csrrw -> csr_format w 0 r1 c -> d_ser d = true ->
  0 <= r1 < 32 -> in_range 12 c -> get_field c 0xC00 <> 3 -> is_counter c = false ->
  csr_value c (mach size p (d <| d_ser := false |>)) = Some v ->
  does (set_csr c (d_reg d r1)) (d <| d_ser := false |>) tt d1 -> debugging d1 ->
  dstep d (d1 <| d_pc := d_pc d + 4 |>).
Proof using Hp.
  intros Hd Hf (Er & E1 & Ec) Hs Hr Hc Hro Hn Hv Hset Hd1.
  eapply (dstep_body d w rv_csrrw); [done | | by apply (next_even d w rv_csrrw)].
  cbn [insn_body]. unfold exec_csrrw. rewrite Ec.
  apply does_validate; [done | done | done | done |].
  eapply does_bind; [apply does_get_csr; [done | exact Hv] |].
  eapply does_bind; [apply (does_RS1 _ _ r1); [by apply debugging_ser | done | done] |].
  eapply does_bind; [exact Hset |].
  eapply does_bind; [| apply does_ret].
  apply (does_WRITE_RD _ _ 0); [done | done | lia | apply reg_ok_sext].
Qed.

Lemma dstep_csrsi d w i c v d1 : debugging d -> in_front d w rv_csrrsi -> csr_format w 0 i c -> i <> 0 -> d_ser d = true ->
  in_range 12 c -> get_field c 0xC00 <> 3 -> is_counter c = false ->
  csr_value c (mach size p (d <| d_ser := false |>)) = Some v ->
  does (set_csr c (v .| i)) (d <| d_ser := false |>) tt d1 -> debugging d1 ->
  dstep d (d1 <| d_pc := d_pc d + 4 |>).
Proof using Hp.
  intros Hd Hf (Er & E1 & Ec) Hi Hs Hc Hro Hn Hv Hset Hd1.
  eapply (dstep_body d w rv_csrrsi); [done | | by apply (next_even d w rv_csrrsi)].
  cbn [insn_body]. unfold exec_csrrsi. rewrite Ec, E1. rewrite (proj2 (Z.eqb_neq _ _) Hi). cbn [negb].
  apply does_validate; [done | done | done | done |].
  eapply does_bind; [apply does_get_csr; [done | exact Hv] |].
  eapply does_bind; [exact Hset |].
  eapply does_bind; [| apply does_ret].
  apply (does_WRITE_RD _ _ 0); [done | done | lia | apply reg_ok_sext].
Qed.

(** ** Chains of turns

    The same, from a view to what is reached from it. *)
Section chains.
Context (Q : dbg -> Prop) (k : nat) (a b s0 s1 : Z) (ser : bool) (st : state_t) (mm : gmap Z Z) (pl : platform).
Let d : dbg := Dbg a s0 s1 ser st mm pl.
Hypothesis Hask : asked p pl = true.
#[local] Abbreviation reaches := (DebugMode.reaches temp size p Q).

Lemma set_then_pc r v d1 c : (d_set r v d1) <| d_pc := c |> = d_set r v (d1 <| d_pc := c |>).
Proof. unfold d_set. by repeat case_match. Qed.

Lemma r_imm w f r r1 imm v : debugging d -> in_front d w f -> i_format w r r1 imm ->
  0 <= r < 32 -> 0 <= r1 < 32 -> imm_value f (d_reg d r1) imm = Some v -> reg_ok xl (u64 v) -> a + 4 = b ->
  reaches k (d_set r (u64 v) (Dbg b s0 s1 ser st mm pl)) -> reaches (S k) d.
Proof using Hp Hask.
  intros Hd Hf Hi Hr H1 Hv Hok Hb Hq. eapply reaches_turn; [exact Hask | by apply (dstep_imm d w f r r1 imm v) |].
  rewrite set_then_pc. change (d <| d_pc := d_pc d + 4 |>) with (Dbg (a + 4) s0 s1 ser st mm pl). by rewrite Hb.
Qed.

Lemma r_srli w r r1 n : debugging d -> in_front d w rv_srli ->
  rd (fetch32 w) = r -> rs1 (fetch32 w) = r1 -> SHAMT (fetch32 w) = n -> 0 <= n < xl ->
  0 <= r < 32 -> 0 <= r1 < 32 -> a + 4 = b ->
  reaches k (d_set r (u64 (sext_xlen xl (zext_xlen xl (d_reg d r1) .>> n))) (Dbg b s0 s1 ser st mm pl)) ->
  reaches (S k) d.
Proof using Hp Hask.
  intros Hd Hf Er E1 En Hn Hr H1 Hb Hq. eapply reaches_turn; [exact Hask | by apply (dstep_srli d w r r1 n) |].
  rewrite set_then_pc. change (d <| d_pc := d_pc d + 4 |>) with (Dbg (a + 4) s0 s1 ser st mm pl). by rewrite Hb.
Qed.

Lemma r_fence w : in_front d w rv_fence -> a + 4 = b ->
  reaches k (Dbg b s0 s1 ser st mm pl) -> reaches (S k) d.
Proof using Hp Hask. intros Hf <- Hq. eapply reaches_turn; [exact Hask | by apply (dstep_fence d w) | exact Hq]. Qed.

Lemma r_jal w : debugging d -> in_front d w rv_jal ->
  rd (fetch32 w) = 0 -> a + uj_imm (fetch32 w) = b -> 0 <= b < 2 ^ 31 -> b mod 4 = 0 ->
  reaches k (Dbg b s0 s1 ser st mm pl) -> reaches (S k) d.
Proof using Hp Hask. intros Hd Hf Er Et Hr H4 Hq. eapply reaches_turn; [exact Hask | by apply (dstep_jal d w b) | exact Hq]. Qed.

Lemma r_jalr w : debugging d -> in_front d w rv_jalr ->
  rd (fetch32 w) = 0 -> rs1 (fetch32 w) = 0 -> i_imm (fetch32 w) = b -> 0 <= b < 2 ^ 31 -> b mod 4 = 0 ->
  reaches k (Dbg b s0 s1 ser st mm pl) -> reaches (S k) d.
Proof using Hp Hask. intros Hd Hf Er E1 Et Hr H4 Hq. eapply reaches_turn; [exact Hask | by apply (dstep_jalr d w b) | exact Hq]. Qed.

Lemma r_branch w f r1 r2 t c : debugging d -> in_front d w f ->
  rs1 (fetch32 w) = r1 -> rs2 (fetch32 w) = r2 -> 0 <= r1 < 32 -> 0 <= r2 < 32 ->
  taken f (d_reg d r1) (d_reg d r2) = Some c ->
  a + sb_imm (fetch32 w) = t -> 0 <= t < 2 ^ 31 -> t mod 4 = 0 -> (if c then t else a + 4) = b ->
  reaches k (Dbg b s0 s1 ser st mm pl) -> reaches (S k) d.
Proof using Hp Hask.
  intros Hd Hf E1 E2 H1 H2 Hc Et Ht H4 <- Hq.
  eapply reaches_turn; [exact Hask | by apply (dstep_branch d w f r1 r2 t c) | exact Hq].
Qed.

Lemma r_load w f r r1 imm len v : debugging d -> in_front d w f -> i_format w r r1 imm ->
  0 <= r < 32 -> 0 <= r1 < 32 -> load_of f = Some len -> fits len ->
  d_load size p true len (u64 (d_reg d r1 + imm)) d = inl v -> reg_ok xl (u64 v) -> a + 4 = b ->
  reaches k (d_set r (u64 v) (Dbg b s0 s1 ser st mm pl)) -> reaches (S k) d.
Proof using Hp Hask.
  intros Hd Hf Hi Hr H1 Hl H8 Hv Hok Hb Hq. eapply reaches_turn; [exact Hask | by apply (dstep_load d w f r r1 imm len v) |].
  rewrite set_then_pc. change (d <| d_pc := d_pc d + 4 |>) with (Dbg (a + 4) s0 s1 ser st mm pl). by rewrite Hb.
Qed.

Lemma r_load_trap w f r r1 imm len c x : debugging d -> in_front d w f -> i_format w r r1 imm ->
  0 <= r1 < 32 -> load_of f = Some len -> fits len ->
  d_load size p true len (u64 (d_reg d r1 + imm)) d = inr (Trap c x) -> c <> CAUSE_BREAKPOINT ->
  reaches k (Dbg DEBUG_ROM_EXCEPTION s0 s1 ser st mm pl) -> reaches (S k) d.
Proof using Hp Hask.
  intros Hd Hf Hi H1 Hl H8 Hv Hc Hq. eapply reaches_turn; [exact Hask | by apply (dstep_load_trap d w f r r1 imm len c x) | exact Hq].
Qed.

Lemma r_store w f r2 r1 imm len s0' s1' st' mm' pl' : debugging d -> in_front d w f -> s_format w r2 r1 imm ->
  0 <= r2 < 32 -> 0 <= r1 < 32 -> store_of f = Some len -> fits len ->
  does (store len (u64 (d_reg d r1 + imm)) (d_reg d r2)) d tt (Dbg a s0' s1' ser st' mm' pl') -> a + 4 = b ->
  reaches k (Dbg b s0' s1' ser st' mm' pl') -> reaches (S k) d.
Proof using Hp Hask.
  intros Hd Hf Hi H2 H1 Hl H8 Hs <- Hq. eapply reaches_turn; [exact Hask | by eapply (dstep_store d w f r2 r1 imm len) | exact Hq].
Qed.

Lemma r_store_trap w f r2 r1 imm len c x : debugging d -> in_front d w f -> s_format w r2 r1 imm ->
  0 <= r2 < 32 -> 0 <= r1 < 32 -> store_of f = Some len -> fits len ->
  throws (store len (u64 (d_reg d r1 + imm)) (d_reg d r2)) d (Trap c x) d -> c <> CAUSE_BREAKPOINT ->
  reaches k (Dbg DEBUG_ROM_EXCEPTION s0 s1 ser st mm pl) -> reaches (S k) d.
Proof using Hp Hask.
  intros Hd Hf Hi H2 H1 Hl H8 Hs Hc Hq.
  eapply reaches_turn; [exact Hask | by apply (dstep_store_trap d w f r2 r1 imm len c x) | exact Hq].
Qed.

(** An access to a control register takes two turns when the pipeline is not serialized. *)
Lemma r_serialize w f j : in_front d w f -> f = rv_csrrs \/ f = rv_csrrw \/ f = rv_csrrsi ->
  reaches j (Dbg a s0 s1 true st mm pl) -> reaches (S j) d.
Proof using Hp Hask.
  intros Hf Hc Hq. unfold d in *. destruct ser.
  - by apply (reaches_le _ _ _ _ j); [lia |].
  - eapply reaches_turn; [exact Hask | by apply (dstep_csr_serialize (Dbg a s0 s1 false st mm pl) w f) | exact Hq].
Qed.
End chains.

Section csr_chains.
Context (Q : dbg -> Prop) (k : nat) (a b s0 s1 : Z) (ser : bool) (st : state_t) (mm : gmap Z Z) (pl : platform).
Hypothesis Hask : asked p pl = true.
#[local] Abbreviation reaches := (DebugMode.reaches temp size p Q).
#[local] Abbreviation at_ a ser := (Dbg a s0 s1 ser st mm pl).

Lemma front_ser w f ser' : in_front (at_ a ser) w f -> in_front (at_ a ser') w f.
Proof. done. Qed.
Lemma debugging_ser' ser' : debugging (at_ a ser) -> debugging (at_ a ser').
Proof. intros []. by split. Qed.

Lemma r_csrr w r c v : debugging (at_ a ser) -> in_front (at_ a ser) w rv_csrrs -> csr_format w r 0 c ->
  0 <= r < 32 -> in_range 12 c -> is_counter c = false -> csr_value c (mach size p (at_ a false)) = Some v -> a + 4 = b ->
  reaches k (d_set r (u64 (sext_xlen xl v)) (at_ b false)) -> reaches (S (S k)) (at_ a ser).
Proof using Hp Hask.
  intros Hd Hf Hc Hr Hc12 Hn Hv Hb Hq. apply (r_serialize Q a s0 s1 ser st mm pl Hask w rv_csrrs); [done | by left |].
  eapply reaches_turn; [exact Hask | apply (dstep_csrr (at_ a true) w r c v); try done; by apply debugging_ser' |].
  rewrite set_then_pc. change ((at_ a true) <| d_ser := false |> <| d_pc := d_pc (at_ a true) + 4 |>) with (at_ (a + 4) false). by rewrite Hb.
Qed.

Lemma r_csrw w r1 c v s0' s1' st' mm' pl' : debugging (at_ a ser) -> in_front (at_ a ser) w rv_csrrw -> csr_format w 0 r1 c ->
  0 <= r1 < 32 -> in_range 12 c -> get_field c 0xC00 <> 3 -> is_counter c = false ->
  csr_value c (mach size p (at_ a false)) = Some v ->
  does (set_csr c (d_reg (at_ a true) r1)) (at_ a false) tt (Dbg a s0' s1' false st' mm' pl') ->
  debugging (Dbg a s0' s1' false st' mm' pl') -> a + 4 = b ->
  reaches k (Dbg b s0' s1' false st' mm' pl') -> reaches (S (S k)) (at_ a ser).
Proof using Hp Hask.
  intros Hd Hf Hc Hr Hc12 Hro Hn Hv Hset Hd1 <- Hq. apply (r_serialize Q a s0 s1 ser st mm pl Hask w rv_csrrw); [done | by right; left |].
  eapply reaches_turn; [exact Hask | eapply (dstep_csrw (at_ a true) w r1 c v); try done; by apply debugging_ser' | exact Hq].
Qed.

Lemma r_csrsi w i c v s0' s1' st' mm' pl' : debugging (at_ a ser) -> in_front (at_ a ser) w rv_csrrsi -> csr_format w 0 i c ->
  i <> 0 -> in_range 12 c -> get_field c 0xC00 <> 3 -> is_counter c = false ->
  csr_value c (mach size p (at_ a false)) = Some v ->
  does (set_csr c (v .| i)) (at_ a false) tt (Dbg a s0' s1' false st' mm' pl') ->
  debugging (Dbg a s0' s1' false st' mm' pl') -> a + 4 = b ->
  reaches k (Dbg b s0' s1' false st' mm' pl') -> reaches (S (S k)) (at_ a ser).
Proof using Hp Hask.
  intros Hd Hf Hc Hi Hc12 Hro Hn Hv Hset Hd1 <- Hq. apply (r_serialize Q a s0 s1 ser st mm pl Hask w rv_csrrsi); [done | by right; right |].
  eapply reaches_turn; [exact Hask | eapply (dstep_csrsi (at_ a true) w i c v); try done; by apply debugging_ser' | exact Hq].
Qed.
End csr_chains.
End insns.
