(* ===== verification/DebugRam.v ===== *)
(** The debug RAM as an array of sixteen words: what the debugger writes and reads there
    (debug_module.cc), and what the hart loads and stores, one word or two at a time. *)
From S2P Require Import Prelude SoftPrim Encoding Decode Decoder Machine Csr Isa CsrProps Mmu Tlb Insns.
From S2P Require Import Safe InsnProps FetchProps Alu Control Step StepProps OrdMap Devices GdbAsm DebugMode DebugInsn.

Lemma lookup_copy_to l a bs i : 0 <= a -> (Z.to_nat a + length bs <= length l)%nat ->
  copy_to l a bs !! i =
  if bool_decide (Z.to_nat a <= i < Z.to_nat a + length bs)%nat then bs !! (i - Z.to_nat a)%nat else l !! i.
Proof.
  intros Ha Hl. unfold copy_to. set (k := Z.to_nat a) in *.
  assert (Hk : length (take k l) = k) by (rewrite length_take; lia).
  case_bool_decide as Hi.
  - rewrite lookup_app_r by lia. rewrite Hk. by rewrite lookup_app_l by lia.
  - destruct (decide (i < k)%nat).
    + rewrite lookup_app_l by lia. by rewrite lookup_take_lt by lia.
    + rewrite lookup_app_r by lia. rewrite Hk, lookup_app_r by lia. rewrite lookup_drop. f_equal. lia.
Qed.

Lemma length_copy_to l a bs : 0 <= a -> (Z.to_nat a + length bs <= length l)%nat ->
  length (copy_to l a bs) = length l.
Proof. intros Ha Hl. unfold copy_to. rewrite !length_app, length_take, length_drop. lia. Qed.

Lemma copy_from_to l a bs n : 0 <= a -> (Z.to_nat a + length bs <= length l)%nat -> 0 <= n <= Z.of_nat (length bs) ->
  copy_from (copy_to l a bs) a n = u8 <$> take (Z.to_nat n) bs.
Proof.
  intros Ha Hl Hn. unfold copy_from. apply list_eq. intros i. rewrite !list_lookup_fmap.
  destruct (decide (i < Z.to_nat n)%nat) as [Hi | Hi].
  - rewrite lookup_seq_lt by lia. cbn [fmap option_fmap option_map]. rewrite lookup_copy_to by done.
    rewrite bool_decide_eq_true_2 by lia. rewrite lookup_take_lt by lia.
    replace (Z.to_nat a + i - Z.to_nat a)%nat with i by lia.
    destruct (lookup_lt_is_Some_2 bs i ltac:(lia)) as [b ->]. done.
  - rewrite lookup_seq_ge by lia. by rewrite (lookup_ge_None_2 (take _ _)) by (rewrite length_take; lia).
Qed.

Lemma copy_from_other l a bs a' n : 0 <= a -> 0 <= a' -> 0 <= n -> (Z.to_nat a + length bs <= length l)%nat ->
  a' + n <= a \/ a + Z.of_nat (length bs) <= a' -> copy_from (copy_to l a bs) a' n = copy_from l a' n.
Proof.
  intros Ha Ha' Hn Hl Hd. unfold copy_from. apply list_fmap_ext. intros i j [-> Hi]%lookup_seq.
  rewrite lookup_copy_to by done. by rewrite bool_decide_eq_false_2 by lia.
Qed.

Lemma copy_to_app l a x y : 0 <= a -> (Z.to_nat a + length (x ++ y) <= length l)%nat ->
  copy_to l a (x ++ y) = copy_to (copy_to l a x) (a + Z.of_nat (length x)) y.
Proof.
  intros Ha Hl. rewrite length_app in Hl. apply list_eq. intros i.
  rewrite lookup_copy_to by (rewrite ?length_app; lia).
  rewrite (lookup_copy_to (copy_to l a x)) by (rewrite ?length_copy_to; lia).
  rewrite (lookup_copy_to l a x) by lia. rewrite length_app.
  repeat case_bool_decide; try lia; try done.
  - rewrite lookup_app_r by lia. f_equal. lia.
  - by rewrite lookup_app_l by lia.
Qed.

Lemma bytes_of_app i j v : bytes_of (i + j) v = bytes_of i v ++ bytes_of j (v .>> (8 * Z.of_nat i)).
Proof.
  revert v. induction i as [| i IH]; intros v; [by rewrite Z.shiftr_0_r |].
  cbn [Nat.add bytes_of app]. rewrite IH, Z.shiftr_shiftr by lia.
  by replace (8 * Z.of_nat (S i)) with (8 + 8 * Z.of_nat i) by lia.
Qed.

Lemma u8_bytes_of n v : u8 <$> bytes_of n v = bytes_of n v.
Proof.
  revert v. induction n as [| n IH]; intros v; [done |]. cbn [bytes_of]. rewrite fmap_cons, IH.
  by rewrite wrap_idemp by lia.
Qed.

(** ** Words *)

Definition ram_ok (w : platform) : Prop := length (debug_ram w) = 64%nat.

Lemma write_ram_ok i v w : 0 <= i < 16 -> ram_ok w -> ram_ok (ram_write32 i v w).
Proof.
  unfold ram_ok, ram_write32, with_debug_ram. cbn [debug_ram]. intros Hi Hw.
  rewrite length_copy_to; [done | lia |]. rewrite length_bytes_of, Hw. lia.
Qed.

Lemma read_write i j v w : 0 <= i < 16 -> 0 <= j < 16 -> ram_ok w ->
  ram_read32 j (ram_write32 i v w) = if j =? i then u32 v else ram_read32 j w.
Proof.
  unfold ram_ok, ram_read32, ram_write32, with_debug_ram. cbn [debug_ram]. intros Hi Hj Hw.
  destruct (Z.eqb_spec j i) as [-> |].
  - rewrite copy_from_to by (rewrite ?length_bytes_of; lia). change (Z.to_nat 4) with 4%nat.
    by rewrite (take_ge (bytes_of 4 v)), u8_bytes_of, bytes_to_of by (rewrite length_bytes_of; lia).
  - rewrite copy_from_other; [done | lia | lia | lia | rewrite length_bytes_of; lia | rewrite length_bytes_of; lia].
Qed.

(** What the hart loads: a word or two, or the low part of one. *)
Lemma load_word i w : 0 <= i < 16 ->
  exists bs, debug_load (DEBUG_RAM_START + 4 * i - DEBUG_START) 4 w = Some bs /\ bytes_to bs = ram_read32 i w.
Proof.
  intros Hi. unfold debug_load, ram_read32. change DEBUG_START with 0x100. change DEBUG_RAM_START with 0x400.
  change DEBUG_RAM_END with 0x440. cbv zeta. rewrite (wrap_small 64 (256 + _)) by lia. rewrite wrap_small by lia.
  rewrite !(proj2 (Z.leb_le _ _)) by lia. cbn [andb]. eexists. split; [reflexivity |]. do 2 f_equal. lia.
Qed.

Lemma load_low i k w : 0 <= i < 16 -> 0 <= k <= 4 ->
  exists bs, debug_load (DEBUG_RAM_START + 4 * i - DEBUG_START) k w = Some bs /\
    bytes_to bs = wrap (8 * k) (ram_read32 i w).
Proof.
  intros Hi Hk. unfold debug_load, ram_read32. change DEBUG_START with 0x100. change DEBUG_RAM_START with 0x400.
  change DEBUG_RAM_END with 0x440. cbv zeta. rewrite (wrap_small 64 (256 + _)) by lia. rewrite wrap_small by lia.
  rewrite !(proj2 (Z.leb_le _ _)) by lia. cbn [andb]. eexists. split; [reflexivity |].
  pose proof (copy_from_app (debug_ram w) (i * 4) k (4 - k) ltac:(lia) ltac:(lia) ltac:(lia)) as E.
  replace (k + (4 - k)) with 4 in E by lia. rewrite E, bytes_to_app by apply copied_bytes.
  rewrite length_copy_from by lia. replace (256 + (1024 + 4 * i - 256) - 1024) with (i * 4) by lia.
  pose proof (bytes_to_range (copy_from (debug_ram w) (i * 4) k) (copied_bytes _ _ _)) as Hr.
  rewrite length_copy_from in Hr by lia. unfold wrap. rewrite (Z.mul_comm (2 ^ _)), Z.mod_add by (apply Z.pow_nonzero; lia).
  symmetry. by apply Z.mod_small.
Qed.

Lemma load_double i w : 0 <= i < 15 ->
  exists bs, debug_load (DEBUG_RAM_START + 4 * i - DEBUG_START) 8 w = Some bs /\
    bytes_to bs = ram_read32 i w + 2 ^ 32 * ram_read32 (i + 1) w.
Proof.
  intros Hi. unfold debug_load, ram_read32. change DEBUG_START with 0x100. change DEBUG_RAM_START with 0x400.
  change DEBUG_RAM_END with 0x440. cbv zeta. rewrite (wrap_small 64 (256 + _)) by lia. rewrite wrap_small by lia.
  rewrite !(proj2 (Z.leb_le _ _)) by lia. cbn [andb]. eexists. split; [reflexivity |].
  replace (256 + (1024 + 4 * i - 256) - 1024) with (i * 4) by lia.
  change 8 with (4 + 4). rewrite copy_from_app, bytes_to_app by (lia || apply copied_bytes).
  rewrite length_copy_from by lia. by replace (i * 4 + 4) with ((i + 1) * 4) by lia.
Qed.

(** What it stores. *)
Lemma store_word i v w : 0 <= i < 16 ->
  debug_store (DEBUG_RAM_START + 4 * i - DEBUG_START) (bytes_of 4 v) w = Some (ram_write32 i v w).
Proof.
  intros Hi. unfold debug_store. change (length (bytes_of 4 v)) with 4%nat. change DEBUG_START with 0x100.
  change DEBUG_RAM_START with 0x400. change DEBUG_RAM_END with 0x440. cbv zeta.
  rewrite (wrap_small 64 (256 + _)) by lia. change (u64 (Z.of_nat 4 - 1)) with (2 ^ 2 - 1). rewrite land_mask by lia.
  replace ((256 + (1024 + 4 * i - 256)) mod 2 ^ 2) with 0 by (Z.div_mod_to_equations; lia). cbn [z2b Z.eqb negb].
  rewrite wrap_small by lia. rewrite !(proj2 (Z.leb_le _ _)) by lia. cbn [andb]. unfold ram_write32.
  do 3 f_equal. lia.
Qed.

Lemma store_double i v w : 0 <= i < 15 -> i mod 2 = 0 -> ram_ok w ->
  debug_store (DEBUG_RAM_START + 4 * i - DEBUG_START) (bytes_of 8 v) w
  = Some (ram_write32 (i + 1) (v .>> 32) (ram_write32 i v w)).
Proof.
  unfold ram_ok. intros Hi He Hw. unfold debug_store. change (length (bytes_of 8 v)) with 8%nat. change DEBUG_START with 0x100.
  change DEBUG_RAM_START with 0x400. change DEBUG_RAM_END with 0x440. cbv zeta.
  rewrite (wrap_small 64 (256 + _)) by lia. change (u64 (Z.of_nat 8 - 1)) with (2 ^ 3 - 1). rewrite land_mask by lia.
  replace ((256 + (1024 + 4 * i - 256)) mod 2 ^ 3) with 0 by (Z.div_mod_to_equations; lia). cbn [z2b Z.eqb negb].
  rewrite wrap_small by lia. rewrite !(proj2 (Z.leb_le _ _)) by lia. cbn [andb]. unfold ram_write32, with_debug_ram.
  cbn [debug_ram bus boot_rom rtc_regs debug_interrupt halt_notification current mips].
  change (bytes_of 8 v) with (bytes_of (4 + 4) v). rewrite (bytes_of_app 4 4 v), copy_to_app by (rewrite ?length_app, ?length_bytes_of; lia).
  do 3 f_equal; [f_equal |]; rewrite ?length_bytes_of; lia.
Qed.

Lemma bytes_of_wrap n k v : 8 * Z.of_nat n <= k -> bytes_of n (wrap k v) = bytes_of n v.
Proof.
  revert k v. induction n as [| n IH]; intros k v Hk; [done |]. cbn [bytes_of]. f_equal.
  - apply Z.bits_inj'. intros i Hi. rewrite !wrap_testbit by lia. destruct (Z.ltb_spec i 8); [| done].
    by rewrite (proj2 (Z.ltb_lt i k)) by lia.
  - rewrite <- (IH (k - 8) (v .>> 8)) by lia. f_equal. rewrite !shr_div by lia. unfold wrap.
    replace (2 ^ k) with (2 ^ 8 * 2 ^ (k - 8)) by (rewrite <- Z.pow_add_r by lia; f_equal; lia).
    rewrite Z.rem_mul_r by (try apply Z.pow_pos_nonneg; lia).
    rewrite Z.mul_comm, Z.div_add, (Z.div_small (_ mod _)) by (try apply Z.mod_pos_bound; lia). lia.
Qed.

Lemma ram_read_range i w : in_range 32 (ram_read32 i w).
Proof.
  unfold ram_read32. pose proof (bytes_to_range _ (copied_bytes (debug_ram w) (i * 4) 4)) as Hr.
  by rewrite length_copy_from in Hr by lia.
Qed.

Lemma word_aligned i : (DEBUG_RAM_START + 4 * i) mod 4 = 0.
Proof. change DEBUG_RAM_START with 0x400. Z.div_mod_to_equations. lia. Qed.
Lemma double_aligned i : i mod 2 = 0 -> (DEBUG_RAM_START + 4 * i) mod 8 = 0.
Proof. change DEBUG_RAM_START with 0x400. intros. Z.div_mod_to_equations. lia. Qed.

Section access.
Context (temp size : Z) (p : processor_t).
#[local] Instance platform_access : Platform platform := sim_platform temp.
Let xl := xlen p.
Hypothesis Hp : wf_proc p.
Context (Q : dbg -> Prop) (k : nat) (a s0 s1 : Z) (ser : bool) (st : state_t) (mm : gmap Z Z) (pl : platform).
Let d : dbg := Dbg a s0 s1 ser st mm pl.
Hypothesis (Hd : debugging xl d) (Hask : asked p pl = true).
#[local] Abbreviation reaches := (DebugMode.reaches temp size p Q).

Lemma debugging_ram i v : 0 <= i < 16 -> debugging xl (d <| d_pl := ram_write32 i v pl |>).
Proof using Hd.
  intros Hi. apply debugging_pl; [exact Hd | done |]. apply write_ram_ok; [done | apply (g_ram _ _ Hd)].
Qed.

Lemma ram_addr i : 0 <= i < 16 -> DEBUG_START <= DEBUG_RAM_START + 4 * i < DEFAULT_RSTVEC /\
  u64 (d_reg d 0 + (DEBUG_RAM_START + 4 * i)) = DEBUG_RAM_START + 4 * i.
Proof using Hd.
  intros Hi. rewrite (d_reg_zero p d Hd). change DEBUG_RAM_START with 0x400. change DEBUG_START with 0x100.
  change DEFAULT_RSTVEC with 0x1000. split; [lia | apply wrap_small; lia].
Qed.

Lemma r_sw w r i : in_front d w rv_sw -> s_format w r 0 (DEBUG_RAM_START + 4 * i) -> 0 <= r < 32 -> 0 <= i < 16 ->
  reaches k (Dbg (a + 4) s0 s1 ser st mm (ram_write32 i (d_reg d r) pl)) -> reaches (S k) d.
Proof using Hp Hd Hask.
  intros Hf Hs Hr Hi Hq. destruct (ram_addr i Hi) as [Ha Eu].
  apply (r_store temp size p Hp Q k a (a + 4) s0 s1 ser st mm pl Hask w rv_sw r 0 (DEBUG_RAM_START + 4 * i) 4 s0 s1 st mm (ram_write32 i (d_reg d r) pl));
    [exact Hd | exact Hf | exact Hs | exact Hr | lia | done | done | | done | exact Hq].
  fold d. rewrite Eu. apply (does_store_debug temp size p Hp d 4 _ _ (ram_write32 i (d_reg d r) pl));
    [exact Hd | done | unfold len_ok; lia | | | by apply debugging_ram].
  - by apply word_aligned.
  - rewrite bytes_of_wrap by lia. by apply store_word.
Qed.

Lemma r_lw w r i : in_front d w rv_lw -> i_format w r 0 (DEBUG_RAM_START + 4 * i) -> 0 <= r < 32 -> 0 <= i < 16 ->
  reaches k (d_set r (u64 (sext 32 (ram_read32 i pl))) (Dbg (a + 4) s0 s1 ser st mm pl)) -> reaches (S k) d.
Proof using Hp Hd Hask.
  intros Hf Hs Hr Hi Hq. destruct (ram_addr i Hi) as [Ha Eu]. destruct (load_word i pl Hi) as (bs & El & Ev).
  assert (Hlen : len_ok 4) by (unfold len_ok; lia).
  eapply (r_load temp size p Hp Q k a (a + 4) s0 s1 ser st mm pl Hask w rv_lw r 0 (DEBUG_RAM_START + 4 * i) 4 (u64 (sext 32 (ram_read32 i pl))));
    [exact Hd | exact Hf | exact Hs | exact Hr | lia | done | done | | | done |].
  - fold d. rewrite Eu. rewrite (d_load_debug size p Hp d true 4 _ bs);
      [by rewrite Ev | exact Hd | exact Ha | lia | | exact El].
    by apply word_aligned.
  - apply (typed_ok p Hp 4); [done | apply ram_read_range |]. pose proof (xl_cases p Hp) as Hx. fold xl in Hx. fold xl. lia.
  - by rewrite wrap_idemp by lia.
Qed.

Lemma r_sd w r i : xl = 64 -> in_front d w rv_sd -> s_format w r 0 (DEBUG_RAM_START + 4 * i) -> 0 <= r < 32 ->
  0 <= i < 15 -> i mod 2 = 0 ->
  reaches k (Dbg (a + 4) s0 s1 ser st mm (ram_write32 (i + 1) (d_reg d r .>> 32) (ram_write32 i (d_reg d r) pl))) ->
  reaches (S k) d.
Proof using Hp Hd Hask.
  intros Hx Hf Hs Hr Hi He Hq. destruct (ram_addr i ltac:(lia)) as [Ha Eu].
  set (pl' := ram_write32 _ _ _) in Hq.
  apply (r_store temp size p Hp Q k a (a + 4) s0 s1 ser st mm pl Hask w rv_sd r 0 (DEBUG_RAM_START + 4 * i) 8 s0 s1 st mm pl');
    [exact Hd | exact Hf | exact Hs | exact Hr | lia | done | by intros _ | | done | exact Hq].
  assert (Hram : ram_ok pl) by apply (g_ram _ _ Hd).
  fold d. rewrite Eu. apply (does_store_debug temp size p Hp d 8 _ _ pl');
    [exact Hd | done | unfold len_ok; lia | by apply double_aligned | |].
  - rewrite bytes_of_wrap by lia. by apply store_double.
  - apply debugging_pl; [exact Hd | done |]. apply write_ram_ok; [lia |]. by apply write_ram_ok; [lia |].
Qed.

Lemma r_ld w r i : xl = 64 -> in_front d w rv_ld -> i_format w r 0 (DEBUG_RAM_START + 4 * i) -> 0 <= r < 32 ->
  0 <= i < 15 -> i mod 2 = 0 ->
  reaches k (d_set r (ram_read32 i pl + 2 ^ 32 * ram_read32 (i + 1) pl) (Dbg (a + 4) s0 s1 ser st mm pl)) ->
  reaches (S k) d.
Proof using Hp Hd Hask.
  intros Hx Hf Hs Hr Hi He Hq. destruct (ram_addr i ltac:(lia)) as [Ha Eu]. destruct (load_double i pl Hi) as (bs & El & Ev).
  assert (Hlen : len_ok 8) by (unfold len_ok; lia).
  pose proof (ram_read_range i pl) as R0. pose proof (ram_read_range (i + 1) pl) as R1. unfold in_range in R0, R1.
  set (v := ram_read32 i pl + _) in *. assert (Hv : in_range 64 v) by (unfold in_range, v; lia).
  eapply (r_load temp size p Hp Q k a (a + 4) s0 s1 ser st mm pl Hask w rv_ld r 0 (DEBUG_RAM_START + 4 * i) 8 (u64 (sext 64 v)));
    [exact Hd | exact Hf | exact Hs | exact Hr | lia | done | by intros _ | | | done |].
  - fold d. rewrite Eu. rewrite (d_load_debug size p Hp d true 8 _ bs);
      [by rewrite Ev | exact Hd | exact Ha | lia | by apply double_aligned | exact El].
  - apply (typed_ok p Hp 8); [done | done | fold xl; lia].
  - rewrite wrap_idemp, wrap_sext by lia. unfold in_range in Hv. by rewrite wrap_small by lia.
Qed.

(** A register of the hart in the debug RAM, where the debug ROM and the programs keep it. *)
End access.

Section slots.
Context (p : processor_t).
Let xl := xlen p.
Hypothesis Hp : wf_proc p.

Definition slot_write (i v : Z) (pl : platform) : platform :=
  if xl =? 32 then ram_write32 i v pl else ram_write32 (i + 1) (v .>> 32) (ram_write32 i v pl).
Definition slot_read (i : Z) (pl : platform) : Z :=
  if xl =? 32 then u64 (sext 32 (ram_read32 i pl)) else ram_read32 i pl + 2 ^ 32 * ram_read32 (i + 1) pl.

(** A doubleword is at an even word. *)
Definition slot_at (i : Z) : Prop := 0 <= i < 16 /\ (xl = 64 -> i mod 2 = 0).
Lemma slot_even i : xl = 64 -> slot_at i -> 0 <= i < 15.
Proof. intros Hx [Hi He]. specialize (He Hx). Z.div_mod_to_equations. lia. Qed.

Lemma slot_ok i v pl : slot_at i -> ram_ok pl -> ram_ok (slot_write i v pl).
Proof using Hp.
  intros Hi Hr. unfold slot_write. destruct (Z.eqb_spec xl 32) as [| Hn]; [by apply write_ram_ok; [apply Hi |] |].
  pose proof (slot_even i ltac:(pose proof (xl_cases p Hp) as Hx; fold xl in Hx; lia) Hi).
  apply write_ram_ok; [lia |]. by apply write_ram_ok; [lia |].
Qed.

Lemma slot_reg_ok i pl : reg_ok xl (slot_read i pl).
Proof using Hp.
  pose proof (xl_cases p Hp) as Hx. fold xl in Hx. unfold slot_read. destruct Hx as [Ex | Ex]; rewrite Ex; cbn [Z.eqb Pos.eqb].
  - pose proof (typed_ok p Hp 4 (ram_read32 i pl)) as H4. fold xl in H4. rewrite Ex in H4. unfold typed in H4.
    rewrite wrap_idemp in H4 by lia. apply H4; [unfold len_ok; lia | apply ram_read_range | lia].
  - pose proof (ram_read_range i pl) as R0. pose proof (ram_read_range (i + 1) pl) as R1. unfold in_range in R0, R1.
    assert (Hv : in_range 64 (ram_read32 i pl + 2 ^ 32 * ram_read32 (i + 1) pl)) by (unfold in_range; lia).
    pose proof (typed_ok p Hp 8 _ ltac:(unfold len_ok; lia) Hv) as H8. fold xl in H8. rewrite Ex in H8. unfold typed in H8.
    rewrite wrap_idemp, wrap_sext in H8 by lia. unfold in_range in Hv. rewrite wrap_small in H8 by lia. by apply H8.
Qed.

Lemma slot_read_write i v pl : slot_at i -> ram_ok pl -> reg_ok xl v -> slot_read i (slot_write i v pl) = v.
Proof using Hp.
  intros Hs Hram [Hv Hc]. pose proof Hs as [Hi _]. pose proof (xl_cases p Hp) as Hx. fold xl in Hx. unfold slot_read, slot_write.
  destruct Hx as [Ex | Ex]; rewrite Ex in *; cbn [Z.eqb Pos.eqb].
  - rewrite read_write, Z.eqb_refl by (done || lia). rewrite sext_wrap by lia.
    pose proof (canonical_s64 32 ltac:(lia) v Hc) as E. rewrite <- E, wrap_sext by lia. by apply wrap_small.
  - pose proof (slot_even i Ex Hs) as Hi'. rewrite !read_write by (done || lia || (apply write_ram_ok; done || lia)).
    rewrite Z.eqb_refl. rewrite (proj2 (Z.eqb_neq i (i + 1))), Z.eqb_refl by lia. rewrite shr_div by lia.
    unfold in_range in Hv. rewrite (wrap_small 32 (v / 2 ^ 32)) by (Z.div_mod_to_equations; lia).
    unfold wrap. pose proof (Z.div_mod v (2 ^ 32)). lia.
Qed.
End slots.

Section slot_access.
Context (temp size : Z) (p : processor_t).
#[local] Instance platform_slots : Platform platform := sim_platform temp.
Let xl := xlen p.
Hypothesis Hp : wf_proc p.
Context (Q : dbg -> Prop) (k : nat) (a b s0 s1 : Z) (ser : bool) (st : state_t) (mm : gmap Z Z) (pl : platform).
Let d : dbg := Dbg a s0 s1 ser st mm pl.
Hypothesis (Hd : debugging xl d) (Hask : asked p pl = true).
#[local] Abbreviation reaches := (DebugMode.reaches temp size p Q).

Lemma debugging_slot i v : slot_at p i -> debugging xl (d <| d_pl := slot_write p i v pl |>).
Proof using Hp Hd.
  intros Hi. apply debugging_pl; [exact Hd | | apply slot_ok; [done | done | apply (g_ram _ _ Hd)]].
  unfold slot_write. by destruct (xlen p =? 32).
Qed.

Lemma r_slot_store w f r i : in_front d w f -> f = (if xl =? 32 then rv_sw else rv_sd) ->
  s_format w r 0 (DEBUG_RAM_START + 4 * i) -> 0 <= r < 32 -> slot_at p i -> a + 4 = b ->
  reaches k (Dbg b s0 s1 ser st mm (slot_write p i (d_reg d r) pl)) -> reaches (S k) d.
Proof using Hp Hd Hask.
  intros Hf -> Hs Hr Hi <- Hq. unfold slot_write in Hq. fold xl in Hq. destruct (Z.eqb_spec xl 32) as [| Hn].
  - apply (r_sw temp size p Hp Q k a s0 s1 ser st mm pl Hd Hask w r i); [done | done | done | apply Hi | exact Hq].
  - assert (Hx : xl = 64) by (pose proof (xl_cases p Hp) as Hx; fold xl in Hx; lia).
    apply (r_sd temp size p Hp Q k a s0 s1 ser st mm pl Hd Hask w r i);
      [done | done | done | done | by apply (slot_even p) | by apply Hi | exact Hq].
Qed.

Lemma r_slot_load w f r i : in_front d w f -> f = (if xl =? 32 then rv_lw else rv_ld) ->
  i_format w r 0 (DEBUG_RAM_START + 4 * i) -> 0 <= r < 32 -> slot_at p i -> a + 4 = b ->
  reaches k (d_set r (slot_read p i pl) (Dbg b s0 s1 ser st mm pl)) -> reaches (S k) d.
Proof using Hp Hd Hask.
  intros Hf -> Hs Hr Hi <- Hq. unfold slot_read in Hq. fold xl in Hq. destruct (Z.eqb_spec xl 32) as [| Hn].
  - apply (r_lw temp size p Hp Q k a s0 s1 ser st mm pl Hd Hask w r i); [done | done | done | apply Hi | exact Hq].
  - assert (Hx : xl = 64) by (pose proof (xl_cases p Hp) as Hx; fold xl in Hx; lia).
    apply (r_ld temp size p Hp Q k a s0 s1 ser st mm pl Hd Hask w r i);
      [done | done | done | done | by apply (slot_even p) | by apply Hi | exact Hq].
Qed.
End slot_access.
