(* ===== verification/DebugRom.v ===== *)
(** The debug ROM (debug_rom/debug_rom.S, debug_rom.h): how a hart waits in debug mode, runs
    the program in the debug RAM when the debugger asks for it, and comes back. *)
From S2P Require Import Prelude SoftPrim Encoding Decode Decoder Machine Csr Isa CsrProps Mmu Tlb Insns.
From S2P Require Import Safe InsnProps FetchProps Alu Control Step StepProps OrdMap Devices GdbAsm.
From S2P Require Import RingBuffer Gdb DebugMode DebugInsn DebugRam.

(** ** Fields of dcsr, as the ROM tests them *)

Lemma dcsr_debugint b d : get_field (read_dcsr b d) DCSR_DEBUGINT = b2z b.
Proof.
  unfold read_dcsr. cbv zeta. do 8 (rewrite get_set_field_other by (vm_compute; reflexivity)).
  assert (Field DCSR_DEBUGINT 5 1) as F by solve_field. rewrite (get_set_field _ _ _ _ _ F). by destruct b.
Qed.
Lemma dcsr_halted b d : get_field (read_dcsr b d) DCSR_HALT = b2z (dcsr_halt d).
Proof.
  unfold read_dcsr. cbv zeta. do 1 (rewrite get_set_field_other by (vm_compute; reflexivity)).
  assert (Field DCSR_HALT 3 1) as F by solve_field. rewrite (get_set_field _ _ _ _ _ F). by destruct (dcsr_halt d).
Qed.
Lemma dcsr_why b d : get_field (read_dcsr b d) DCSR_CAUSE = dcsr_cause d mod 8.
Proof.
  unfold read_dcsr. cbv zeta. assert (Field DCSR_CAUSE 6 3) as F by solve_field. by rewrite (get_set_field _ _ _ _ _ F).
Qed.

Lemma csr_field xl mask k n x : xl = 32 \/ xl = 64 -> Field mask k n -> n < 64 -> k + n <= xl ->
  mask .& u64 (sext_xlen xl x) = get_field x mask * 2 ^ k.
Proof.
  intros Hx F Hn Hkn. rewrite (get_field_spec _ _ _ _ F). pose proof F as [Em Hk Hn0].
  rewrite sext_xlen_spec by (destruct Hx; lia).
  pose proof (fetch_bits xl x k n ltac:(destruct Hx; lia) Hk Hn0 Hkn) as E. unfold bits in E. rewrite <- E, Z.land_comm, Em.
  apply land_field; lia.
Qed.

Lemma sext_sign w x : 0 < w -> (sext w x <? 0) = Z.testbit x (w - 1).
Proof.
  intros Hw. pose proof (wrap_range w x ltac:(lia)) as Hr. rewrite <- (sext_wrap w x) by lia.
  assert (Z.testbit x (w - 1) = Z.testbit (wrap w x) (w - 1)) as ->.
  { rewrite wrap_testbit by lia. by rewrite (proj2 (Z.ltb_lt (w - 1) w)) by lia. }
  unfold in_range in Hr. pose proof (pow2_split w 1 ltac:(lia)) as E2. rewrite (sext_cases w _ Hw Hr).
  rewrite Z.testbit_eqb by lia. destruct (Z.ltb_spec (wrap w x) (2 ^ (w - 1))).
  - rewrite Z.div_small by lia. by rewrite (proj2 (Z.ltb_ge _ _)) by lia.
  - rewrite <- (Z.div_unique_pos (wrap w x) (2 ^ (w - 1)) 1 (wrap w x - 2 ^ (w - 1))) by lia.
    by rewrite (proj2 (Z.ltb_lt _ _)) by lia.
Qed.

(** ** Its instructions *)

Definition is_opcode (f : insn_func) (w : Z) : bool :=
  (0 <=? w) && (w <? 2 ^ 32) && bool_decide (first_match (fetch32 w) base_instructions = Some f) && wide f.

Lemma is_opcode_ok f w : is_opcode f w = true -> opcode f w.
Proof.
  intros [[[H0%Z.leb_le H1%Z.ltb_lt]%andb_prop Hm]%andb_prop Hw]%andb_prop.
  apply bool_decide_eq_true_1 in Hm. exact (Opcode f w (conj (conj H0 H1) Hm) Hw).
Qed.

Definition rom_word (a : Z) : Z := bytes_to (copy_from debug_rom_raw (a - DEBUG_ROM_START) 4).

Lemma debug_word_rom a w : 0x800 <= a <= 0x890 -> debug_word a w = Some (rom_word a).
Proof.
  intros Ha. unfold debug_word, debug_load, rom_word. change DEBUG_START with 0x100. change DEBUG_RAM_START with 0x400.
  change DEBUG_RAM_END with 0x440. change DEBUG_ROM_START with 0x800. change DEBUG_ROM_END with 0x894. cbv zeta.
  rewrite (wrap_small 64 (256 + _)) by lia. rewrite wrap_small by lia.
  rewrite (proj2 (Z.leb_gt _ 0x440)) by lia. rewrite andb_false_r.
  rewrite !(proj2 (Z.leb_le _ _)) by lia. cbn [andb fmap option_fmap option_map].
  by replace (256 + (a - 256) - 2048) with (a - 2048) by lia.
Qed.

Lemma front_rom d a f : d_pc d = a -> 0x800 <= a <= 0x890 -> a mod 4 = 0 ->
  is_opcode f (rom_word a) = true -> in_front d (rom_word a) f.
Proof.
  intros <- Ha H4 Hf. split; [lia |]. split; [done |]. split; [by apply debug_word_rom | by apply is_opcode_ok].
Qed.

(** A register that is no performance counter is found by its number. *)
Definition is_hpm (c : Z) : bool :=
  in_csrs CSR_HPMCOUNTER3 c CSR_HPMCOUNTER31 || in_csrs CSR_HPMCOUNTER3H c CSR_HPMCOUNTER31H
  || in_csrs CSR_MHPMCOUNTER3 c CSR_MHPMCOUNTER31 || in_csrs CSR_MHPMEVENT3 c CSR_MHPMEVENT31.
Lemma hpm_false c xl s : is_hpm c = false -> hpm_csr c xl s = false.
Proof.
  unfold is_hpm, hpm_csr. rewrite !orb_false_iff. intros (((-> & ->) & ->) & ->).
  by rewrite !andb_false_r.
Qed.

Lemma front_at a s0 s1 ser st mm pl f : 0x800 <= a <= 0x890 -> a mod 4 = 0 -> is_opcode f (rom_word a) = true ->
  in_front (Dbg a s0 s1 ser st mm pl) (rom_word a) f.
Proof. intros Ha H4 Hf. by apply front_rom. Qed.

Section rom.
Context (temp size : Z) (p : processor_t).
#[local] Instance platform_rom : Platform platform := sim_platform temp.
Implicit Types (m : machine platform) (d : dbg).
Let xl := xlen p.
Hypothesis Hp : wf_proc p.

#[local] Abbreviation dstep := (DebugMode.dstep temp size p).
#[local] Abbreviation debugging := (DebugMode.debugging xl).
#[local] Abbreviation reaches := (DebugMode.reaches temp size p).

#[local] Abbreviation pending := (asked p).

(** What does not change while the ROM runs. *)
Record context (st : state_t) (pl : platform) : Prop := {
  c_prv : prv st = PRV_M;
  c_cause : z2b (dcsr_cause (dcsr st)) = true;
  c_single : single_step st = STEP_NONE;
  c_quiet : quiet st;
  c_regs : xregs_ok xl (XPR st);
  c_bus : low_bus (bus pl);
  c_ram : ram_ok pl
}.

Lemma context_debugging a s0 s1 ser st mm pl : context st pl -> reg_ok xl s0 -> reg_ok xl s1 ->
  debugging (Dbg a s0 s1 ser st mm pl).
Proof. intros [] ? ?. by split. Qed.

Lemma d_set_s0 v a s0 s1 ser st mm pl : d_set 8 v (Dbg a s0 s1 ser st mm pl) = Dbg a v s1 ser st mm pl.
Proof. done. Qed.
Lemma d_set_s1 v a s0 s1 ser st mm pl : d_set 9 v (Dbg a s0 s1 ser st mm pl) = Dbg a s0 v ser st mm pl.
Proof. done. Qed.

Lemma context_pl st pl pl' : context st pl -> bus pl' = bus pl -> ram_ok pl' -> context st pl'.
Proof. intros [] Hb Hr. split; try done. by rewrite Hb. Qed.
Lemma bus_slot i v pl : bus (slot_write p i v pl) = bus pl.
Proof. unfold slot_write. by destruct (xlen p =? 32). Qed.
Lemma asked_slot i v pl : asked p (slot_write p i v pl) = asked p pl.
Proof. unfold slot_write. by destruct (xlen p =? 32). Qed.
Lemma context_slot i v st pl : context st pl -> slot_at p i -> context st (slot_write p i v pl).
Proof using Hp.
  intros Hc Hi. apply (context_pl _ pl); [done | apply bus_slot |]. apply slot_ok; [done | done | by destruct Hc].
Qed.

(** ** Waiting *)

Lemma reg_ok_low v : 0 <= v < 2 ^ 31 -> reg_ok xl v.
Proof using Hp.
  intros Hv. split; [unfold in_range; lia |]. pose proof (xl_cases p Hp) as Hx. fold xl in Hx.
  apply canonical_srange. unfold srange. destruct Hx as [-> | ->]; lia.
Qed.

(** misa tells the width of the registers. *)
Hypothesis Hisa : Z.testbit (isa p) (xl - 1) = (xl =? 64).
Hypothesis Hid : 0 <= id p < 2 ^ 31.

Definition dcsr_word st pl : Z := u64 (sext_xlen xl (read_dcsr (pending pl) (dcsr st))).


Lemma dcsr_word_ok st pl : reg_ok xl (dcsr_word st pl).
Proof using Hp. apply (reg_ok_sext p Hp). Qed.

Lemma dcsr_word_int st pl : 32 .& dcsr_word st pl = if pending pl then 32 else 0.
Proof using Hp.
  unfold dcsr_word. assert (Field 32 5 1) as F by solve_field.
  rewrite (csr_field xl 32 5 1 _ (xl_cases p Hp) F) by (pose proof (xl_cases p Hp) as Hx; fold xl in Hx; lia).
  change 32 with DCSR_DEBUGINT at 1. rewrite dcsr_debugint. by destruct (pending pl).
Qed.
Lemma dcsr_word_halt st pl : 8 .& dcsr_word st pl = if dcsr_halt (dcsr st) then 8 else 0.
Proof using Hp.
  unfold dcsr_word. assert (Field 8 3 1) as F by solve_field.
  rewrite (csr_field xl 8 3 1 _ (xl_cases p Hp) F) by (pose proof (xl_cases p Hp) as Hx; fold xl in Hx; lia).
  change 8 with DCSR_HALT at 1. rewrite dcsr_halted. by destruct (dcsr_halt (dcsr st)).
Qed.

Lemma csr_dcsr a s0 s1 ser st mm pl :
  csr_value CSR_DCSR (mach size p (Dbg a s0 s1 ser st mm pl)) = Some (read_dcsr (pending pl) (dcsr st)).
Proof. unfold csr_value. cbv zeta. rewrite hpm_false by reflexivity. reflexivity. Qed.


Definition misa_word : Z := u64 (sext_xlen xl (isa p)).
Lemma misa_word_ok : reg_ok xl misa_word.
Proof using Hp. apply (reg_ok_sext p Hp). Qed.

(** Its sign tells the two loads and stores apart. *)
Lemma misa_sign : (s64 misa_word <? 0) = (xl =? 64).
Proof using Hp Hisa.
  pose proof (xl_cases p Hp) as Hx. fold xl in Hx. unfold misa_word. rewrite sext_xlen_spec by (destruct Hx; lia).
  rewrite <- Hisa, <- sext_sign by (destruct Hx; lia). f_equal. rewrite sext_wrap by lia.
  pose proof (sext_range xl (isa p) ltac:(destruct Hx; lia)). apply sext_small; [lia |]. destruct Hx as [-> | ->]; lia.
Qed.

Definition last_slot : Z := if xl =? 32 then 15 else 14.

(** The addresses of the loop and of the test of [dcsr.halt] before it, and what s0 is there. *)
Definition wait_at (a : Z) (ser : bool) (s0 : Z) : Prop :=
  a = 0x838 \/ (a = 0x83c /\ ser = false /\ 8 .& s0 = 8) \/ (a = 0x840 /\ ser = false /\ s0 = 8) \/
  a = 0x884 \/ (a = 0x888 /\ ser = false /\ 32 .& s0 = 0) \/ (a = 0x88c /\ ser = false /\ s0 = 0).
Definition parked (s1 : Z) (st : state_t) (mm : gmap Z Z) (pl : platform) (d : dbg) : Prop :=
  exists a s0 ser, d = Dbg a s0 s1 ser st mm pl /\ reg_ok xl s0 /\ wait_at a ser s0.

Ltac rom_front := apply front_at; [lia | reflexivity | vm_compute; reflexivity].
Ltac fields := vm_compute; repeat split.
Ltac regs := first [assumption | apply (reg_ok_sext p Hp) | apply dcsr_word_ok | apply reg_ok_low; lia].
Ltac slot_fits := split; [lia | intros; first [reflexivity | unfold xl in *; congruence]].
Ltac in_context := first [assumption | apply context_slot; [in_context | slot_fits]].
Ltac ask := rewrite ?asked_slot; assumption.
Ltac here := apply context_debugging; [in_context | regs | regs].

(** A turn of the instruction in front. *)
Ltac format := hnf; repeat match goal with |- _ /\ _ => split end; vm_compute; reflexivity.
Ltac rom_csrr value :=
  eapply r_csrr; [exact Hp | ask | here | rom_front | format | lia | done | done | apply value | vm_compute; reflexivity |];
  rewrite ?d_set_s0, ?d_set_s1.
Ltac rom_imm g x :=
  eapply (r_imm temp size p Hp) with (f := g) (v := x);
  [ask | here | rom_front | format | lia | lia | reflexivity | | vm_compute; reflexivity |];
  [| rewrite ?d_set_s0, ?d_set_s1].
Ltac rom_branch g x :=
  eapply (r_branch temp size p Hp) with (f := g) (c := x);
  [ask | here | rom_front | vm_compute; reflexivity | vm_compute; reflexivity | lia | lia | cbn [taken]; rewrite ?(d_reg_zero p) by here
  | vm_compute; reflexivity | lia | reflexivity | vm_compute; reflexivity |].
Ltac rom_jal :=
  eapply (r_jal temp size p Hp);
  [ask | here | rom_front | reflexivity | vm_compute; reflexivity | lia | reflexivity |].

Ltac rom_jalr :=
  eapply (r_jalr temp size p Hp);
  [ask | here | rom_front | reflexivity | reflexivity | vm_compute; reflexivity | lia | reflexivity |].
(** The width of the registers is known. *)
Ltac slot_is := lazymatch goal with Ex : xl = _ |- _ => fold xl; rewrite Ex; reflexivity end.
Ltac rom_slot_store g i0 :=
  eapply (r_slot_store temp size p Hp) with (f := g) (i := i0);
  [here | ask | rom_front | slot_is | format | lia | slot_fits | vm_compute; reflexivity |].
Ltac rom_slot_load g i0 :=
  eapply (r_slot_load temp size p Hp) with (f := g) (i := i0);
  [here | ask | rom_front | slot_is | format | lia | slot_fits | vm_compute; reflexivity |];
  rewrite ?d_set_s0, ?d_set_s1.

Section wait.
Context (s1 : Z) (st : state_t) (mm : gmap Z Z) (pl : platform).
Hypothesis (Hc : context st pl) (H1 : reg_ok xl s1) (Hh : dcsr_halt (dcsr st) = true).

Lemma parked_debugging d : parked s1 st mm pl d -> debugging d.
Proof using Hc H1. intros (a & s0 & ser & -> & H0 & _). here. Qed.

(** A turn of reading dcsr. *)
Lemma dstep_dcsr a s0 ser : is_opcode rv_csrrs (rom_word a) = true -> csr_format (rom_word a) 8 0 CSR_DCSR ->
  0x800 <= a <= 0x890 -> a mod 4 = 0 -> reg_ok xl s0 ->
  dstep (Dbg a s0 s1 ser st mm pl)
    (if ser then Dbg (a + 4) (dcsr_word st pl) s1 false st mm pl else Dbg a s0 s1 true st mm pl).
Proof using Hp Hc H1.
  intros Ho Hf Ha H4 H0. destruct ser.
  - apply (dstep_csrr temp size p Hp (Dbg a s0 s1 true st mm pl) (rom_word a) 8 CSR_DCSR (read_dcsr (pending pl) (dcsr st)));
      [here | by apply front_at | exact Hf | done | lia | done | done | apply csr_dcsr].
  - by apply (dstep_csr_serialize temp size p Hp (Dbg a s0 s1 false st mm pl) (rom_word a) rv_csrrs); [apply front_at | | left].
Qed.
Lemma dstep_andi a s0 n : is_opcode rv_andi (rom_word a) = true -> i_format (rom_word a) 8 8 n ->
  0x800 <= a <= 0x890 -> a mod 4 = 0 -> reg_ok xl s0 -> 0 <= n .& s0 < 2 ^ 31 ->
  dstep (Dbg a s0 s1 false st mm pl) (Dbg (a + 4) (n .& s0) s1 false st mm pl).
Proof using Hp Hc H1.
  intros Ho Hf Ha H4 H0 Hn. rewrite <- (wrap_small 64 (n .& s0)) by lia.
  apply (dstep_imm temp size p Hp (Dbg a s0 s1 false st mm pl) (rom_word a) rv_andi 8 8 n (n .& s0));
    [here | by apply front_at | exact Hf | lia | lia | reflexivity | rewrite wrap_small by lia; by apply reg_ok_low].
Qed.
Lemma dstep_test a s0 f c t : is_opcode f (rom_word a) = true -> taken f s0 0 = Some c ->
  rs1 (fetch32 (rom_word a)) = 8 -> rs2 (fetch32 (rom_word a)) = 0 -> a + sb_imm (fetch32 (rom_word a)) = t ->
  0 <= t < 2 ^ 31 -> t mod 4 = 0 -> 0x800 <= a <= 0x890 -> a mod 4 = 0 -> reg_ok xl s0 ->
  dstep (Dbg a s0 s1 false st mm pl) (Dbg (if c then t else a + 4) s0 s1 false st mm pl).
Proof using Hp Hc H1.
  intros Ho Ht E1 E2 Et Hr Hr4 Ha H4 H0.
  apply (dstep_branch temp size p Hp (Dbg a s0 s1 false st mm pl) (rom_word a) f 8 0 t c); [here | by apply front_at | done | done | lia | lia | | done | lia | done].
  by rewrite (d_reg_zero p) by here.
Qed.

Lemma parked_at a s0 ser : reg_ok xl s0 -> wait_at a ser s0 -> parked s1 st mm pl (Dbg a s0 s1 ser st mm pl).
Proof using Type. intros H0 Ha. by exists a, s0, ser. Qed.
Ltac rom_fields :=
  lazymatch goal with
  | |- reg_ok _ _ => assumption
  | |- _ = _ => vm_compute; reflexivity
  | |- csr_format _ _ _ _ => format
  | |- i_format _ _ _ _ => format
  | |- _ => lia
  end.

Lemma parked_stays : pending pl = false -> stays temp size p (parked s1 st mm pl).
Proof using Hp Hc H1 Hh Hid.
  intros Hn d (a & s0 & ser & -> & H0 & Ha).
  pose proof (dcsr_word_int st pl) as E32. rewrite Hn in E32. pose proof (dcsr_word_halt st pl) as E8. rewrite Hh in E8.
  pose proof (dcsr_word_ok st pl) as Hw. pose proof (reg_ok_low 8 ltac:(lia)) as R8. pose proof (reg_ok_low 0 ltac:(lia)) as R0.
  destruct Ha as [-> | [(-> & -> & E) | [(-> & -> & ->) | [-> | [(-> & -> & E) | (-> & -> & ->)]]]]].
  - eexists. split; [apply dstep_dcsr; rom_fields |]. destruct ser; apply parked_at; unfold wait_at; tauto.
  - eexists. split; [apply (dstep_andi _ _ 8); rom_fields |]. rewrite E. apply parked_at; unfold wait_at; tauto.
  - eexists. split; [apply (dstep_test _ _ rv_bne true 0x884); rom_fields |]. apply parked_at; unfold wait_at; tauto.
  - eexists. split; [apply dstep_dcsr; rom_fields |]. destruct ser; apply parked_at; unfold wait_at; tauto.
  - eexists. split; [apply (dstep_andi _ _ 32); rom_fields |]. rewrite E. apply parked_at; unfold wait_at; tauto.
  - eexists. split; [apply (dstep_test _ _ rv_beq true 0x884); rom_fields |]. apply parked_at; unfold wait_at; tauto.
Qed.

(** An interrupt wakes the hart up. *)
Lemma r_awake Q k s0 ser : pending pl = true -> reg_ok xl s0 ->
  reaches Q k (Dbg 0x860 32 s1 false st mm pl) -> reaches Q (5 + k) (Dbg 0x884 s0 s1 ser st mm pl).
Proof using Hp Hc H1.
  intros Hn H0 Hq. rom_csrr csr_dcsr. rom_imm rv_andi (32 .& dcsr_word st pl).
  { rewrite dcsr_word_int, Hn. by apply reg_ok_low. }
  rewrite dcsr_word_int, Hn. change (u64 32) with 32. rom_branch rv_beq false; [done |]. by rom_jal.
Qed.

(** The test of [dcsr.halt] sends it to the loop. *)
Lemma r_halted Q k s0 ser : pending pl = true -> reg_ok xl s0 ->
  reaches Q k (Dbg 0x884 8 s1 false st mm pl) -> reaches Q (4 + k) (Dbg 0x838 s0 s1 ser st mm pl).
Proof using Hp Hc H1 Hh.
  intros Hn H0 Hq. rom_csrr csr_dcsr. rom_imm rv_andi (8 .& dcsr_word st pl);
    rewrite dcsr_word_halt, Hh; change (u64 8) with 8; [by apply reg_ok_low |].
  rom_branch rv_bne true; [done | exact Hq].
Qed.

Lemma r_wake Q k d : pending pl = true -> parked s1 st mm pl d ->
  reaches Q k (Dbg 0x860 32 s1 false st mm pl) -> reaches Q (9 + k) d.
Proof using Hp Hc H1 Hh.
  intros Hn (a & s0 & ser & -> & H0 & Ha) Hq. pose proof (reg_ok_low 8 ltac:(lia)) as R8.
  assert (Hl : forall s0 ser, reg_ok xl s0 -> reaches Q (5 + k) (Dbg 0x884 s0 s1 ser st mm pl)) by (intros; by apply r_awake).
  destruct Ha as [-> | [(-> & -> & E0) | [(-> & -> & ->) | [-> | [(-> & -> & E0) | (-> & -> & ->)]]]]].
  - apply (r_halted Q (5 + k)); [done | done | by apply Hl].
  - apply (reaches_le _ _ _ _ (2 + (5 + k))); [lia |].
    rom_imm rv_andi (8 .& s0); [rewrite E0; by apply reg_ok_low |]. rewrite E0. change (u64 8) with 8.
    rom_branch rv_bne true; [done | by apply Hl].
  - apply (reaches_le _ _ _ _ (1 + (5 + k))); [lia |]. rom_branch rv_bne true; [done | by apply Hl].
  - apply (reaches_le _ _ _ _ (5 + k)); [lia | by apply Hl].
  - apply (reaches_le _ _ _ _ (2 + (5 + k))); [lia |].
    rom_imm rv_andi (32 .& s0); [rewrite E0; by apply reg_ok_low |]. rewrite E0. change (u64 0) with 0.
    rom_branch rv_beq true; [done | by apply Hl, reg_ok_low].
  - apply (reaches_le _ _ _ _ (1 + (5 + k))); [lia |]. rom_branch rv_beq true; [done | by apply Hl, reg_ok_low].
Qed.

(** ** Into the program

    s1 is kept at the end of the debug RAM. *)

Lemma csr_misa a s0 s1' ser mm' pl' st' :
  csr_value CSR_MISA (mach size p (Dbg a s0 s1' ser st' mm' pl')) = Some (isa p).
Proof using Type. unfold csr_value. cbv zeta. rewrite hpm_false by reflexivity. reflexivity. Qed.

Lemma r_enter Q k s0 ser : pending pl = true -> reg_ok xl s0 ->
  reaches Q k (Dbg DEBUG_RAM_START misa_word s1 false st mm (slot_write p last_slot s1 pl)) ->
  reaches Q (5 + k) (Dbg 0x860 s0 s1 ser st mm pl).
Proof using Hp Hc H1 Hisa.
  intros Hn H0 Hq. rom_csrr csr_misa. fold xl. change (u64 (sext_xlen xl (isa p))) with misa_word.
  assert (Hd : forall a, debugging (Dbg a misa_word s1 false st mm pl)) by (intros a; here; apply misa_word_ok).
  pose proof misa_sign as Hm. unfold last_slot in Hq.
  pose proof (xl_cases p Hp) as [Ex | Ex]; fold xl in Ex; rewrite Ex in Hm, Hq; cbn [Z.eqb Pos.eqb] in Hm, Hq.
  - rom_branch rv_blt false; [change (Some (s64 misa_word <? 0) = Some false); by rewrite Hm |].
    rom_slot_store rv_sw 15. rom_jalr. exact Hq.
  - rom_branch rv_blt true; [change (Some (s64 misa_word <? 0) = Some true); by rewrite Hm |].
    rom_slot_store rv_sd 14. rom_jalr. exact Hq.
Qed.

(** ** Back from the program *)

Definition cleared (pl' : platform) : platform := with_debug_interrupt (debug_interrupt pl' ∖ {[ id p ]}) pl'.

Lemma hartid_word : u64 (sext_xlen xl (id p)) = id p.
Proof using Hp Hid.
  pose proof (xl_cases p Hp) as Hx. fold xl in Hx. rewrite sext_xlen_spec by (destruct Hx; lia).
  rewrite sext_low by (done || lia). apply wrap_small. lia.
Qed.
End wait.

Lemma csr_mhartid a s0 s1 ser st mm pl :
  csr_value CSR_MHARTID (mach size p (Dbg a s0 s1 ser st mm pl)) = Some (id p).
Proof using Type. unfold csr_value. cbv zeta. rewrite hpm_false by reflexivity. reflexivity. Qed.

Lemma context_word i v st pl : context st pl -> 0 <= i < 16 -> context st (ram_write32 i v pl).
Proof. intros Hc Hi. apply (context_pl _ pl); [done | done |]. apply write_ram_ok; [done | by destruct Hc]. Qed.
Lemma context_cleared st pl : context st pl -> context st (cleared pl).
Proof. intros Hc. apply (context_pl _ pl); [done | done | by destruct Hc]. Qed.

Lemma debug_store_clear pl :
  debug_store (DEBUG_START - DEBUG_START) (bytes_of 4 (wrap 32 (id p))) pl = Some (cleared pl).
Proof using Hid.
  unfold debug_store. rewrite length_bytes_of. change DEBUG_START with 0x100. cbv zeta.
  rewrite bytes_to_of. change (8 * Z.of_nat 4) with 32. rewrite wrap_idemp by lia. rewrite (wrap_small 32 (id p)) by lia. reflexivity.
Qed.

Section leave.
Context (Q : dbg -> Prop) (st : state_t) (mm : gmap Z Z).

(** Storing the number of the hart in [DEBUG_CLEARDEBINT]. *)
Lemma r_clear k a s1 pl : pending pl = true -> context st pl -> reg_ok xl s1 -> is_opcode rv_sw (rom_word a) = true ->
  s_format (rom_word a) 8 0 DEBUG_CLEARDEBINT -> 0x800 <= a <= 0x890 -> a mod 4 = 0 ->
  reaches Q k (Dbg (a + 4) (id p) s1 false st mm (cleared pl)) ->
  reaches Q (S k) (Dbg a (id p) s1 false st mm pl).
Proof using Hp Hid.
  intros Hn Hc H1 Ho Hs Ha H4 Hq. pose proof (reg_ok_low (id p) Hid) as Hi.
  apply (r_store temp size p Hp Q k a (a + 4) (id p) s1 false st mm pl Hn (rom_word a) rv_sw 8 0 DEBUG_CLEARDEBINT 4
           (id p) s1 st mm (cleared pl)); [here | by apply front_at | done | lia | lia | done | done | | done | exact Hq].
  rewrite (d_reg_zero p) by here. change (u64 (0 + DEBUG_CLEARDEBINT)) with DEBUG_START. change (d_reg _ 8) with (id p).
  apply (does_store_debug temp size p Hp (Dbg a (id p) s1 false st mm pl) 4 DEBUG_START (id p) (cleared pl));
    [here | done | unfold len_ok; lia | done | exact (debug_store_clear pl) |].
  apply context_debugging; [by apply context_cleared | done | done].
Qed.

Definition finished (flag : Z) (pl : platform) : platform := cleared (ram_write32 15 flag pl).
Lemma context_finished flag pl : context st pl -> context st (finished flag pl).
Proof. intros Hc. by apply context_cleared, context_word. Qed.
Lemma finished_pending flag pl : pending (finished flag pl) = false.
Proof using Hid.
  unfold asked, debug_get_interrupt, finished, cleared. cbn [debug_interrupt with_debug_interrupt].
  rewrite (wrap_small 32) by lia. apply bool_decide_eq_false_2. by intros [_ []%not_elem_of_singleton]%elem_of_difference.
Qed.

(** What is left is the same for both widths. *)
Lemma r_finish k s0 s1 pl : asked p pl = true -> context st pl -> reg_ok xl s0 -> reg_ok xl s1 ->
  reaches Q k (Dbg 0x838 (id p) s1 false st mm (finished s0 pl)) ->
  reaches Q (4 + k) (Dbg 0x82c s0 s1 false st mm pl).
Proof using Hp Hid.
  intros Hh Hc H0 H1 Hq.
  assert (Hc1 : context st (ram_write32 15 s0 pl)) by (by apply context_word).
  assert (Hi : reg_ok xl (id p)) by (by apply reg_ok_low).
  eapply (r_sw temp size p Hp) with (i := 15); [here | ask | rom_front | format | lia | lia |].
  rom_csrr csr_mhartid. fold xl. rewrite hartid_word.
  apply r_clear; [done | done | done | vm_compute; reflexivity | format | lia | reflexivity | exact Hq].
Qed.

Lemma r_leave k s0 s1 ser pl : asked p pl = true -> context st pl -> reg_ok xl s0 -> reg_ok xl s1 ->
  reaches Q k (Dbg 0x838 (id p) (slot_read p last_slot pl) false st mm (finished s0 pl)) ->
  reaches Q (10 + k) (Dbg 0x814 s0 s1 ser st mm pl).
Proof using Hp Hisa Hid.
  intros Hh Hc H0 H1 Hq. eapply (r_fence temp size p Hp); [ask | rom_front | vm_compute; reflexivity |].
  rom_csrr csr_misa. fold xl. change (u64 (sext_xlen xl (isa p))) with misa_word.
  assert (Hmw := misa_word_ok). pose proof misa_sign as Hm. unfold last_slot in Hq.
  pose proof (xl_cases p Hp) as [Ex | Ex]; fold xl in Ex; rewrite Ex in Hm, Hq; cbn [Z.eqb Pos.eqb] in Hm, Hq.
  - pose proof (slot_reg_ok p Hp 15 pl) as H1'.
    rom_branch rv_blt false; [change (Some (s64 misa_word <? 0) = Some false); by rewrite Hm |].
    rom_slot_load rv_lw 15. rom_jal. by apply r_finish.
  - pose proof (slot_reg_ok p Hp 14 pl) as H1'. apply (reaches_le _ _ _ _ (S (S (4 + k)))); [lia |].
    rom_branch rv_blt true; [change (Some (s64 misa_word <? 0) = Some true); by rewrite Hm |].
    rom_slot_load rv_ld 14. by apply r_finish.
Qed.

(** [li s0, imm]. *)
Lemma r_li k a s0 s1 ser pl imm : asked p pl = true -> context st pl -> reg_ok xl s0 -> reg_ok xl s1 ->
  0x800 <= a <= 0x890 -> a mod 4 = 0 -> is_opcode rv_addi (rom_word a) = true -> i_format (rom_word a) 8 0 imm ->
  reaches Q k (Dbg (a + 4) (u64 (sext_xlen xl imm)) s1 ser st mm pl) -> reaches Q (S k) (Dbg a s0 s1 ser st mm pl).
Proof using Hp.
  intros Hn Hc H0 H1 Ha H4 Ho Hf Hq.
  eapply (r_imm temp size p Hp) with (f := rv_addi) (v := sext_xlen xl imm);
    [ask | here | by apply front_at | exact Hf | lia | lia | | apply (reg_ok_sext p Hp) | reflexivity |].
  - cbn [imm_value]. by rewrite (d_reg_zero p) by here.
  - exact Hq.
Qed.

(** The two ways out of a program: it is done, or it trapped. *)
Lemma r_resume k s0 s1 ser pl : asked p pl = true -> context st pl -> reg_ok xl s0 -> reg_ok xl s1 ->
  reaches Q k (Dbg 0x838 (id p) (slot_read p last_slot pl) false st mm (finished 0 pl)) ->
  reaches Q (12 + k) (Dbg DEBUG_ROM_RESUME s0 s1 ser st mm pl).
Proof using Hp Hisa Hid.
  intros Hh Hc H0 H1 Hq. change DEBUG_ROM_RESUME with 0x804. rom_jal.
  eapply r_li; [done | done | done | done | lia | reflexivity | vm_compute; reflexivity | format |].
  assert (u64 (sext_xlen xl 0) = 0) as -> by (pose proof (xl_cases p Hp) as [Ex | Ex]; fold xl in Ex; by rewrite Ex).
  by apply r_leave; [| | apply reg_ok_low; lia | |].
Qed.

Lemma r_exception k s0 s1 ser pl : asked p pl = true -> context st pl -> reg_ok xl s0 -> reg_ok xl s1 ->
  reaches Q k (Dbg 0x838 (id p) (slot_read p last_slot pl) false st mm (finished (u64 (-1)) pl)) ->
  reaches Q (12 + k) (Dbg DEBUG_ROM_EXCEPTION s0 s1 ser st mm pl).
Proof using Hp Hisa Hid.
  intros Hh Hc H0 H1 Hq. change DEBUG_ROM_EXCEPTION with 0x808.
  eapply r_li; [done | done | done | done | lia | reflexivity | vm_compute; reflexivity | format |].
  assert (E : u64 (sext_xlen xl (-1)) = u64 (-1)) by (pose proof (xl_cases p Hp) as [Ex | Ex]; fold xl in Ex; by rewrite Ex).
  assert (Hm : reg_ok xl (u64 (-1))) by (rewrite <- E; apply (reg_ok_sext p Hp)). rewrite E. rom_jal.
  by apply r_leave.
Qed.
End leave.

(** ** The way in

    s0 goes to dscratch; the cause decides what the hart does. *)

Definition kept_s0 (s0 : Z) (st : state_t) : state_t := st <| dscratch := zext_xlen xl s0 |>.

Lemma csr_dscratch_value a s0 s1 ser st mm pl :
  csr_value CSR_DSCRATCH (mach size p (Dbg a s0 s1 ser st mm pl)) = Some (dscratch st).
Proof using Type. unfold csr_value. cbv zeta. rewrite hpm_false by reflexivity. reflexivity. Qed.

Lemma context_kept s0 st pl : context st pl -> context (kept_s0 s0 st) pl.
Proof using Type. by intros []. Qed.

Lemma dcsr_word_cause st pl : 0x1c0 .& dcsr_word st pl = (dcsr_cause (dcsr st) mod 8) * 64.
Proof using Hp.
  unfold dcsr_word. assert (Field 0x1c0 6 3) as F by solve_field.
  rewrite (csr_field xl 0x1c0 6 3 _ (xl_cases p Hp) F) by (pose proof (xl_cases p Hp) as Hx; fold xl in Hx; lia).
  change 0x1c0 with DCSR_CAUSE. by rewrite dcsr_why.
Qed.

(** The debug interrupt leads to the program in the debug RAM. *)
Lemma r_entry Q k s0 s1 ser st mm pl : pending pl = true -> context st pl -> reg_ok xl s0 -> reg_ok xl s1 ->
  dcsr_cause (dcsr st) = DCSR_CAUSE_DEBUGINT ->
  reaches Q k (Dbg 0x860 0 s1 false (kept_s0 s0 st) mm pl) ->
  reaches Q (8 + k) (Dbg DEBUG_ROM_START s0 s1 ser st mm pl).
Proof using Hp.
  intros Hn Hc H0 H1 Hcause Hq. change DEBUG_ROM_START with 0x800. pose proof (context_kept s0 st pl Hc) as Hc'.
  rom_jal. eapply (r_csrw temp size p Hp) with (c := CSR_DSCRATCH) (v := dscratch st) (st' := kept_s0 s0 st);
    [ask | here | rom_front | format | lia | done | vm_compute; discriminate | reflexivity | apply csr_dscratch_value | | | vm_compute; reflexivity |].
  { apply (does_set_plain temp size p (Dbg 0x84c s0 s1 false st mm pl) CSR_DSCRATCH s0 eq_refl). apply context_debugging; done. }
  { by apply context_debugging. }
  rom_csrr csr_dcsr. pose proof (dcsr_word_cause (kept_s0 s0 st) pl) as Ew. change (dcsr (kept_s0 s0 st)) with (dcsr st) in Ew.
  rewrite Hcause in Ew. change (DCSR_CAUSE_DEBUGINT mod 8 * 64) with 192 in Ew.
  rom_imm rv_andi (0x1c0 .& dcsr_word (kept_s0 s0 st) pl); rewrite Ew; change (u64 192) with 192; [by apply reg_ok_low |].
  assert (Ez : u64 (sext_xlen xl (192 + -192)) = 0) by (pose proof (xl_cases p Hp) as [Ex | Ex]; fold xl in Ex; by rewrite Ex).
  pose proof (reg_ok_low 192 ltac:(lia)) as R192. pose proof (reg_ok_low 0 ltac:(lia)) as R0.
  rom_imm rv_addi (sext_xlen xl (192 + -192)); rewrite Ez; [done |].
  rom_branch rv_bne false; [done | exact Hq].
Qed.
End rom.
