(* ===== verification/DebugProg.v ===== *)
(** The debugger's programs as the hart runs them: the words that gdbserver.cc writes to the
    debug RAM, and what each does to a hart in debug mode. *)
From S2P Require Import Prelude SoftPrim Encoding Decode Decoder Machine Csr Isa CsrProps Mmu Tlb Insns.
From S2P Require Import Safe InsnProps FetchProps Alu Control Step StepProps OrdMap Devices GdbAsm.
From S2P Require Import RingBuffer Gdb DebugMode DebugInsn DebugRam DebugRom.

Lemma debug_word_ram i pl : 0 <= i < 16 -> debug_word (DEBUG_RAM_START + 4 * i) pl = Some (ram_read32 i pl).
Proof. intros Hi. unfold debug_word. destruct (load_word i pl Hi) as (bs & -> & <-). done. Qed.

(** Word [i] of the debug RAM is an instruction [f]. *)
Definition at_word (i : Z) : Z := DEBUG_RAM_START + 4 * i.
Lemma front_ram i w f s0 s1 ser st mm pl : 0 <= i < 16 -> ram_read32 i pl = w -> encodes f w -> wide f = true ->
  in_front (Dbg (at_word i) s0 s1 ser st mm pl) w f.
Proof.
  intros Hi <- He Hw. split; [| split; [| split]].
  - cbn [d_pc]. unfold at_word. change DEBUG_RAM_START with 0x400. lia.
  - cbn [d_pc]. unfold at_word. change DEBUG_RAM_START with 0x400. Z.div_mod_to_equations. lia.
  - by apply debug_word_ram.
  - exact (Opcode f _ He Hw).
Qed.
Lemma next_word i : at_word i + 4 = at_word (i + 1).
Proof. unfold at_word. lia. Qed.

Lemma i_encodes gen f r r1 imm : (gen, f) ∈ i_generators -> 0 <= r < 32 -> 0 <= r1 < 32 -> - 2048 <= imm < 2048 ->
  encodes f (gen r r1 imm) /\ i_format (gen r r1 imm) r r1 imm.
Proof.
  intros Hg Hr H1 Hi. destruct (i_generator gen f r r1 imm Hg Hr H1) as (f3 & op & H3 & Ho & Em & Ek & Hd & ->).
  split; [by apply encodes_I |]. rewrite <- (sext_small 12 imm) at 2 by lia. by apply enc_I_format.
Qed.
Lemma s_encodes gen f r r1 imm : (gen, f) ∈ s_generators -> 0 <= r < 32 -> 0 <= r1 < 32 -> - 2048 <= imm < 2048 ->
  encodes f (gen r r1 imm) /\ s_format (gen r r1 imm) r r1 imm.
Proof.
  intros Hg Hr H1 Hi. destruct (s_generator gen f r r1 imm Hg Hr H1) as (f3 & op & H3 & Ho & Em & Ek & Hd & ->).
  destruct (enc_S_fields imm r r1 f3 op Hr H1 H3 Ho) as (Hw & Ew & Hs). split.
  - apply encodes_word; [done | done | by rewrite Ek | by rewrite Ek, Em].
  - by rewrite (sext_small 12 imm) in Hs by lia.
Qed.

(** The words of [dr_write_store], [dr_write_load] and [dr_write_jump]. *)
Definition store_word_at (xl r j : Z) : Z :=
  if xl =? 32 then Asm.sw r 0 (DEBUG_RAM_START + 4 * j) else Asm.sd r 0 (DEBUG_RAM_START + 4 * j).
Definition load_word_at (xl r j : Z) : Z :=
  if xl =? 32 then Asm.lw r 0 (DEBUG_RAM_START + 4 * j) else Asm.ld r 0 (DEBUG_RAM_START + 4 * j).
Definition jump_word (i : Z) : Z := Asm.jal 0 (u32 (DEBUG_ROM_RESUME - (DEBUG_RAM_START + 4 * i))).

Section program.
Context (temp size : Z) (p : processor_t).
#[local] Instance platform_program : Platform platform := sim_platform temp.
Let xl := xlen p.
Hypothesis Hp : wf_proc p.
Context (Q : dbg -> Prop) (k : nat) (i s0 s1 : Z) (ser : bool) (st : state_t) (mm : gmap Z Z) (pl : platform).
Let d : dbg := Dbg (at_word i) s0 s1 ser st mm pl.
Hypothesis (Hd : debugging xl d) (Hask : asked p pl = true) (Hi : 0 <= i < 16).
#[local] Abbreviation reaches := (DebugMode.reaches temp size p Q).
Let on (w : Z) : Prop := ram_read32 i pl = w.

Lemma p_store r j : on (store_word_at xl r j) -> 0 <= r < 32 -> slot_at p j ->
  reaches k (Dbg (at_word (i + 1)) s0 s1 ser st mm (slot_write p j (d_reg d r) pl)) -> reaches (S k) d.
Proof using Hp Hd Hask Hi.
  intros Hw Hr Hj Hq. pose proof Hj as [Hj' _]. unfold on, store_word_at in Hw.
  assert (Ho : - 2048 <= DEBUG_RAM_START + 4 * j < 2048) by (change DEBUG_RAM_START with 0x400; lia).
  destruct (s_encodes (if xl =? 32 then Asm.sw else Asm.sd) (if xl =? 32 then rv_sw else rv_sd) r 0 _
              ltac:(destruct (xl =? 32); repeat constructor) Hr ltac:(lia) Ho) as [He Hf].
  assert (Ew : ram_read32 i pl = (if xl =? 32 then Asm.sw else Asm.sd) r 0 (DEBUG_RAM_START + 4 * j)) by (by destruct (xl =? 32)).
  eapply (r_slot_store temp size p Hp); [exact Hd | exact Hask | | reflexivity | exact Hf | exact Hr | exact Hj | apply next_word | exact Hq].
  apply front_ram; [done | done | done |]. fold xl. destruct (xl =? 32); by vm_compute.
Qed.

Lemma p_load r j : on (load_word_at xl r j) -> 0 <= r < 32 -> slot_at p j ->
  reaches k (d_set r (slot_read p j pl) (Dbg (at_word (i + 1)) s0 s1 ser st mm pl)) -> reaches (S k) d.
Proof using Hp Hd Hask Hi.
  intros Hw Hr Hj Hq. pose proof Hj as [Hj' _]. unfold on, load_word_at in Hw.
  assert (Ho : - 2048 <= DEBUG_RAM_START + 4 * j < 2048) by (change DEBUG_RAM_START with 0x400; lia).
  destruct (i_encodes (if xl =? 32 then Asm.lw else Asm.ld) (if xl =? 32 then rv_lw else rv_ld) r 0 _
              ltac:(destruct (xl =? 32); repeat constructor) Hr ltac:(lia) Ho) as [He Hf].
  assert (Ew : ram_read32 i pl = (if xl =? 32 then Asm.lw else Asm.ld) r 0 (DEBUG_RAM_START + 4 * j)) by (by destruct (xl =? 32)).
  eapply (r_slot_load temp size p Hp); [exact Hd | exact Hask | | reflexivity | exact Hf | exact Hr | exact Hj | apply next_word | exact Hq].
  apply front_ram; [done | done | done |]. fold xl. destruct (xl =? 32); by vm_compute.
Qed.

Lemma p_jump : on (jump_word i) -> reaches k (Dbg DEBUG_ROM_RESUME s0 s1 ser st mm pl) -> reaches (S k) d.
Proof using Hp Hd Hask Hi.
  intros Hw Hq. unfold on, jump_word in Hw. change DEBUG_ROM_RESUME with 0x804 in *. change DEBUG_RAM_START with 0x400 in *.
  rewrite wrap_small in Hw by lia.
  destruct (jal_generator 0 (0x804 - (0x400 + 4 * i)) ltac:(done) ltac:(lia) ltac:(Z.div_mod_to_equations; lia)) as (He & Er & Eu).
  eapply (r_jal temp size p Hp); [exact Hask | exact Hd | | exact Er | rewrite Eu; unfold at_word; change DEBUG_RAM_START with 0x400 | | | exact Hq].
  - by apply front_ram; [| | | vm_compute].
  - lia.
  - lia.
  - done.
Qed.

Lemma p_csrr r c v : on (Asm.csrr r c) -> 0 <= r < 32 -> in_range 12 c -> is_counter c = false ->
  csr_value c (mach size p (Dbg (at_word i) s0 s1 false st mm pl)) = Some v ->
  reaches k (d_set r (u64 (sext_xlen xl v)) (Dbg (at_word (i + 1)) s0 s1 false st mm pl)) -> reaches (S (S k)) d.
Proof using Hp Hd Hask Hi.
  intros Hw Hr Hc Hn Hv Hq.
  destruct (csr_generator (fun r c => Asm.csrr r c) rv_csrrs (fun w r c => csr_format w r 0 c) r c
              ltac:(repeat constructor) Hr Hc) as [He Hf].
  eapply (r_csrr temp size p Hp); [exact Hask | exact Hd | | exact Hf | exact Hr | exact Hc | exact Hn | exact Hv | apply next_word | exact Hq].
  by apply front_ram; [| | | vm_compute].
Qed.

Lemma p_csrw r c v st' : on (Asm.csrw r c) -> 0 <= r < 32 -> in_range 12 c -> get_field c 0xC00 <> 3 ->
  is_plain c = true -> csr_value c (mach size p (Dbg (at_word i) s0 s1 false st mm pl)) = Some v ->
  set_csr_state xl c (zext_xlen xl (d_reg d r)) st = st' -> debugging xl (Dbg (at_word i) s0 s1 false st' mm pl) ->
  reaches k (Dbg (at_word (i + 1)) s0 s1 false st' mm pl) -> reaches (S (S k)) d.
Proof using Hp Hd Hask Hi.
  intros Hw Hr Hc Hro Hpl Hv Hset Hd' Hq.
  destruct (csr_generator (fun r c => Asm.csrw r c) rv_csrrw (fun w r c => csr_format w 0 r c) r c
              ltac:(repeat constructor) Hr Hc) as [He Hf].
  assert (Hn : is_counter c = false) by (unfold is_plain in Hpl; by apply andb_prop in Hpl as [?%negb_true_iff _]).
  eapply (r_csrw temp size p Hp Q k (at_word i) (at_word (i + 1)) s0 s1 ser st mm pl Hask (Asm.csrw r c) r c v s0 s1 st' mm pl);
    [exact Hd | by apply front_ram; [| | | vm_compute] | exact Hf | exact Hr | exact Hc | exact Hro | exact Hn | exact Hv | | exact Hd' | apply next_word | exact Hq].
  pose proof (does_set_plain temp size p (Dbg (at_word i) s0 s1 false st mm pl) c (d_reg d r) Hpl) as Hs.
  fold xl in Hs. cbn [d_st] in Hs. rewrite Hset in Hs. by apply Hs.
Qed.

(** Accesses to memory by the register s0, of s1. *)
Lemma s0_address : u64 (d_reg d 8 + 0) = s0.
Proof using Hd. change (u64 (s0 + 0) = s0). rewrite Z.add_0_r. apply wrap_small. apply (g_s0 _ _ Hd). Qed.

Lemma p_mem_load gen f len v : on (gen 9 8 0) -> (gen, f) ∈ i_generators -> load_of f = Some len -> fits p len ->
  wide f = true -> d_load size p true len s0 d = inl v -> reg_ok xl (u64 v) ->
  reaches k (Dbg (at_word (i + 1)) s0 (u64 v) ser st mm pl) -> reaches (S k) d.
Proof using Hp Hd Hask Hi.
  intros Hw Hg Hl H8 Hwide Hv Hok Hq.
  destruct (i_encodes gen f 9 8 0 Hg ltac:(lia) ltac:(lia) ltac:(lia)) as [He Hf].
  apply (r_load temp size p Hp Q k (at_word i) (at_word (i + 1)) s0 s1 ser st mm pl Hask (gen 9 8 0) f 9 8 0 len v);
    [exact Hd | by apply front_ram | exact Hf | lia | lia | exact Hl | exact H8 | | exact Hok | apply next_word | exact Hq].
  fold d. by rewrite s0_address.
Qed.
Lemma p_mem_load_trap gen f len c x : on (gen 9 8 0) -> (gen, f) ∈ i_generators -> load_of f = Some len -> fits p len ->
  wide f = true -> d_load size p true len s0 d = inr (Trap c x) -> c <> CAUSE_BREAKPOINT ->
  reaches k (Dbg DEBUG_ROM_EXCEPTION s0 s1 ser st mm pl) -> reaches (S k) d.
Proof using Hp Hd Hask Hi.
  intros Hw Hg Hl H8 Hwide Hv Hc Hq.
  destruct (i_encodes gen f 9 8 0 Hg ltac:(lia) ltac:(lia) ltac:(lia)) as [He Hf].
  apply (r_load_trap temp size p Hp Q k (at_word i) s0 s1 ser st mm pl Hask (gen 9 8 0) f 9 8 0 len c x);
    [exact Hd | by apply front_ram | exact Hf | lia | exact Hl | exact H8 | | exact Hc | exact Hq].
  fold d. by rewrite s0_address.
Qed.
Lemma p_mem_store gen f len : on (gen 9 8 0) -> (gen, f) ∈ s_generators -> store_of f = Some len -> fits p len ->
  wide f = true -> s0 mod len = 0 -> d_is_mem size (wrap xl s0) = true ->
  reaches k (Dbg (at_word (i + 1)) s0 s1 ser st
    (write_bytes mm (wrap xl s0) (bytes_of (Z.to_nat len) (wrap (8 * len) s1))) pl) -> reaches (S k) d.
Proof using Hp Hd Hask Hi.
  intros Hw Hg Hl H8 Hwide Hal Hm Hq.
  destruct (s_encodes gen f 9 8 0 Hg ltac:(lia) ltac:(lia) ltac:(lia)) as [He Hf].
  eapply (r_store temp size p Hp Q k (at_word i) (at_word (i + 1)) s0 s1 ser st mm pl Hask (gen 9 8 0) f 9 8 0 len);
    [exact Hd | by apply front_ram | exact Hf | lia | lia | exact Hl | exact H8 | | apply next_word | exact Hq].
  fold d. rewrite s0_address. apply (does_store_mem temp size p d len s0 s1);
    [by apply (store_of_len p f) | apply (g_s0 _ _ Hd) | exact Hal | exact Hd | exact Hm].
Qed.
End program.
