(* ===== verification/DebugRun.v ===== *)
(** The debugger and the hart together: the server takes a step of an operation, the hart runs
    the program it wrote, and the server takes the next (the loop of [sim_t::main], sim.cc, and
    the part of [gdbserver_t::handle], gdbserver.cc, that performs operations). *)
From Stdlib Require Import Ascii String.
From S2P Require Import Prelude SoftPrim Encoding Decode Decoder Machine Csr Isa CsrProps Mmu Tlb Insns.
From S2P Require Import Safe InsnProps FetchProps Alu Control Step StepProps OrdMap Devices GdbAsm.
From S2P Require Import RingBuffer Gdb GdbOps GdbServer GdbProps DebugMode DebugInsn DebugRam DebugRom DebugProg.

Section run.
Context (temp size : Z) (p : processor_t).
#[local] Instance platform_run : Platform platform := sim_platform temp.
Let xl := xlen p.
Implicit Types (m : machine platform) (d : dbg) (g : gdbserver_t).

(** ** The loop *)

(** A round: the server performs a step, unless the hart still has a program to run; then the
    hart runs [n] instructions.  The loop ends when the server has nothing to do. *)
Definition server_turn g (w : platform) : (unit * gdbserver_t * platform) + crash :=
  if debug_get_interrupt 0 w then inl (tt, g, w) else step_operation g w.
Fixpoint serve (rounds fuel : nat) (n : Z) g m : option (gdbserver_t * machine platform) :=
  if bool_decide (operation_queue g = []) then Some (g, m)
  else match rounds with
       | O => None
       | S rounds =>
           match server_turn g (world m) with
           | inl (_, g, w) =>
               match step fuel n (m <| world := w |>) with
               | (Return, m) => serve rounds fuel n g m
               | _ => None
               end
           | inr _ => None
           end
       end.

Lemma serve_more fuel n r r' g m x : (r <= r')%nat -> serve r fuel n g m = Some x -> serve r' fuel n g m = Some x.
Proof.
  revert r' g m. induction r as [| r IH]; intros r' g m Hr; cbn [serve]; destruct r' as [| r']; try lia; cbn [serve];
    case_bool_decide; try done.
  destruct (server_turn g (world m)) as [[[[] g'] w'] |]; [| done].
  destruct (step fuel n _) as [[] m']; try done. apply IH. lia.
Qed.

(** ** The hart waits for the debugger *)

Hypothesis Hp : wf_proc p.
Hypothesis Hisa : Z.testbit (isa p) (xl - 1) = (xl =? 64).
Hypothesis Hid : id p = 0.
Context (fuel : nat) (n : Z).
Hypothesis (Hn : 0 < n < 2 ^ 64) (Hfuel : 2 * n + 1 <= Z.of_nat fuel).

#[local] Abbreviation context := (DebugRom.context p).
#[local] Abbreviation parked := (DebugRom.parked p).
#[local] Abbreviation view := (DebugMode.view temp size p).
#[local] Abbreviation reaches := (DebugMode.reaches temp size p).

(** The state of the hart is [st], register s1 has [s1] and s0 is in dscratch; the memory is
    [mm] and the devices are in state [pl]. *)
Record stopped (st : state_t) (s1 : Z) (mm : gmap Z Z) (pl : platform) : Prop := {
  sp_context : context st pl;
  sp_s1 : reg_ok xl s1;
  sp_halt : dcsr_halt (dcsr st) = true;
  sp_idle : asked p pl = false
}.
Definition waiting m st s1 mm pl : Prop :=
  stopped st s1 mm pl /\ exists d, view m d /\ parked s1 st mm pl d.

Lemma id_small : 0 <= id p < 2 ^ 31.
Proof using Hid. by rewrite Hid. Qed.

Lemma stopped_stays st s1 mm pl : stopped st s1 mm pl -> stays temp size p (parked s1 st mm pl).
Proof using Hp Hid. intros [Hc H1 Hh Ha]. apply parked_stays; [done | apply id_small | done..]. Qed.

Lemma waiting_world m st s1 mm pl : waiting m st s1 mm pl -> world m = pl.
Proof. intros (_ & d & Hv & a & s0 & ser & -> & _). apply (v_world _ _ _ _ _ Hv). Qed.

(** Nothing happens to a hart that waits. *)
Lemma waiting_step m st s1 mm pl : waiting m st s1 mm pl ->
  exists m', step fuel n m = (Return, m') /\ waiting m' st s1 mm pl.
Proof using Hp Hid Hn Hfuel.
  intros (Hs & d & Hv & Hpk).
  destruct (step_ran temp size p _ (stopped_stays _ _ _ _ Hs) fuel n m d 0 Hv ltac:(by apply reaches_now) Hn Hfuel)
    as (m' & d' & E & Hv' & Hr). exists m'. split; [done |]. split; [done |]. exists d'. split; [done |].
  inversion Hr; subst; done.
Qed.

(** The debugger changes the devices under a hart in debug mode. *)
Lemma view_devices m d w : view m d -> bus w = bus (d_pl d) -> ram_ok w ->
  view (m <| world := w |>) (d <| d_pl := w |>).
Proof.
  intros Hv Hb Hr. pose proof (v_debugging _ _ _ _ _ Hv) as Hd. destruct (v_state _ _ _ _ _ Hv) as [c Es].
  assert (E : m <| world := w |> = m <| state := state m |> <| mem := mem m |> <| world := w |>) by (by destruct m).
  rewrite E. apply (view_change temp size p m d (d <| d_pl := w |>)); [exact Hv | | by exists c | apply (v_mem _ _ _ _ _ Hv) | done].
  by apply debugging_pl.
Qed.

Lemma world_same m : m <| world := world m |> = m.
Proof. by destruct m. Qed.

(** While the interrupt is pending the server lets the hart run. *)
Lemma serve_runs Q k g m d : view m d -> reaches Q k d -> stays temp size p Q -> operation_queue g <> [] ->
  exists j m' d', (j <= k)%nat /\ view m' d' /\ Q d' /\ forall r, serve (j + r) fuel n g m = serve r fuel n g m'.
Proof using Hid Hn Hfuel.
  intros Hv Hr HQ Hg. revert m d Hv Hr. induction k as [| k IH]; intros m d Hv Hr.
  { exists 0%nat, m, d. split; [lia |]. split; [done |]. split; [by inversion Hr | done]. }
  destruct (reaches_asked temp size p Q (S k) d Hr) as [HQd | Ha].
  { exists 0%nat, m, d. split; [lia |]. split; [done |]. by split. }
  destruct (step_ran temp size p Q HQ fuel n m d (S k) Hv Hr Hn Hfuel) as (m1 & d1 & E & Hv1 & Hr1).
  destruct (IH m1 d1 Hv1 Hr1) as (j & m' & d' & Hj & Hv' & HQ' & Hs).
  exists (S j), m', d'. split; [lia |]. split; [done |]. split; [done |]. intros r. rewrite <- Hs. cbn [Nat.add serve].
  rewrite bool_decide_eq_false_2 by done. assert (server_turn g (world m) = inl (tt, g, world m)) as ->.
  { unfold server_turn. rewrite <- (v_world _ _ _ _ _ Hv) in Ha. unfold asked in Ha. rewrite Hid in Ha. by rewrite Ha. }
  rewrite world_same. assert (step fuel n m = (Return, m1)) as -> by exact E. done.
Qed.

(** What a program does: from its first word to the return to the debug ROM, normally or by an
    exception, with the interrupt pending throughout. *)
Definition program_runs (j : nat) st mm s1 pl (trap : bool) st' mm' s1' pl' : Prop :=
  forall Q k,
  (forall s0 ser, reg_ok xl s0 ->
     reaches Q k (Dbg (if trap then DEBUG_ROM_EXCEPTION else DEBUG_ROM_RESUME) s0 s1' ser st' mm' pl')) ->
  reaches Q (j + k) (Dbg DEBUG_RAM_START (misa_word p) s1 false st mm (slot_write p (last_slot p) s1 pl)).

Definition result (trap : bool) : Z := if trap then u64 (-1) else 0.

(** A step of an operation that asks the hart to run a program. *)
Lemma exchange m st s1 mm pl g g' w j trap st' mm' s1' pl' :
  waiting m st s1 mm pl -> operation_queue g <> [] -> operation_queue g' <> [] ->
  step_operation g pl = inl (tt, g', w) -> bus w = bus pl -> ram_ok w -> asked p w = true ->
  program_runs j st mm s1 w trap st' mm' s1' pl' ->
  context st' pl' -> reg_ok xl s1' -> dcsr_halt (dcsr st') = true -> asked p pl' = true ->
  exists i m', (i <= 27 + j)%nat /\
    waiting m' st' (slot_read p (last_slot p) pl') mm' (finished p (result trap) pl') /\
    forall r, serve (i + r) fuel n g m = serve r fuel n g' m'.
Proof using Hp Hisa Hid Hn Hfuel.
  intros Hw Hg Hg' Estep Hb Hr Ha Hprog Hc' H1' Hh' Ha'.
  pose proof (waiting_world _ _ _ _ _ Hw) as Ew. destruct Hw as ([Hc H1 Hh Hidle] & d & Hv & Hpk).
  set (s1'' := slot_read p (last_slot p) pl'). set (pl'' := finished p (result trap) pl').
  assert (Hs : stopped st' s1'' mm' pl'').
  { split; [by apply context_finished | apply (slot_reg_ok p Hp) | done |]. apply finished_pending. apply id_small. }
  set (Q := parked s1'' st' mm' pl'').
  pose proof (stopped_stays _ _ _ _ Hs) as Hstay.
  assert (Hpk' : parked s1 st mm w (d <| d_pl := w |>)).
  { destruct Hpk as (a & s0 & ser & -> & H0 & Hat). by exists a, s0, ser. }
  assert (Hcw : context st w) by (by apply (context_pl p _ pl)).
  assert (Hv' : view (m <| world := w |>) (d <| d_pl := w |>)).
  { apply view_devices; [done | | done]. by rewrite <- (v_world _ _ _ _ _ Hv), Ew. }
  assert (Hreach : reaches Q (26 + j) (d <| d_pl := w |>)).
  { apply (reaches_le temp size p Q (9 + (5 + (j + (12 + 0))))); [lia |].
    apply (r_wake temp size p Hp s1 st mm w Hcw H1 Hh); [done | done |].
    apply (r_enter temp size p Hp Hisa s1 st mm w Hcw H1); [done | apply (reg_ok_low p Hp); lia |].
    apply Hprog. intros s0 ser H0.
    assert (Hend : reaches Q 0 (Dbg 0x838 (id p) s1'' false st' mm' pl'')).
    { apply reaches_now. exists 0x838, (id p), false. split; [done |]. split; [apply (reg_ok_low p Hp), id_small | by left]. }
    destruct trap.
    - by apply (r_exception temp size p Hp Hisa id_small).
    - by apply (r_resume temp size p Hp Hisa id_small). }
  destruct (step_ran temp size p Q Hstay fuel n _ _ _ Hv' Hreach Hn Hfuel) as (m1 & d1 & E & Hv1 & Hr1).
  change (step fuel n (m <| world := w |>) = (Return, m1)) in E.
  destruct (serve_runs Q _ g' m1 d1 Hv1 Hr1 Hstay Hg') as (i & m' & d' & Hi & Hvm & HQ & Hserve).
  exists (S i), m'. split; [lia |]. split; [by split; [| exists d'] |]. intros r. rewrite <- Hserve. cbn [Nat.add serve].
  rewrite bool_decide_eq_false_2 by done.
  assert (server_turn g (world m) = inl (tt, g', w)) as ->; [| by rewrite E].
  unfold server_turn. rewrite Ew. unfold asked in Hidle. rewrite Hid in Hidle. by rewrite Hidle.
Qed.

(** A step that is the server's alone. *)
Lemma server_alone m st s1 mm pl g g' :
  waiting m st s1 mm pl -> operation_queue g <> [] -> step_operation g pl = inl (tt, g', pl) ->
  exists m', waiting m' st s1 mm pl /\ forall r, serve (S r) fuel n g m = serve r fuel n g' m'.
Proof using Hp Hid Hn Hfuel.
  intros Hw Hg Estep. pose proof (waiting_world _ _ _ _ _ Hw) as Ew.
  destruct (waiting_step _ _ _ _ _ Hw) as (m' & E & Hw'). exists m'. split; [done |]. intros r. cbn [serve].
  rewrite bool_decide_eq_false_2 by done. destruct Hw as ([_ _ _ Hidle] & _).
  assert (server_turn g (world m) = inl (tt, g', world m)) as ->; [| by rewrite world_same, E].
  unfold server_turn. rewrite Ew. unfold asked in Hidle. rewrite Hid in Hidle. by rewrite Hidle.
Qed.
End run.

(** ** A concrete target *)

(** An RV64IM hart the debugger has halted: its registers are 0, 101, 102 and so on, it is in
    the wait loop of the debug ROM, s0 is in dscratch. *)
Definition target_proc : processor_t :=
  Processor 64 64 0x8000000000141105 0x8000000000141105 false 0 true false (Decoder [] ∅).
Definition target_state : state_t :=
  state_reset <| tselect := 0 |> <| Machine.pc := 0x884 |> <| XPR := 0 :: ((fun i => 100 + Z.of_nat i) <$> seq 1 31) |>
    <| dscratch := 42 |> <| dcsr := (dcsr state_reset) <| dcsr_cause := DCSR_CAUSE_DEBUGINT |> <| dcsr_halt := true |> |>.
Definition target_devices : platform := new_platform 0x1000 [text "rv64im"].
Definition target_memory : gmap Z Z := write_bytes ∅ DRAM_BASE (Z.of_nat <$> seq 16 32).
Definition target : machine platform :=
  Machine target_state (target_proc <| decode_state := base_decoder |>) (flush_tlb new_mmu) softfloat_init
    target_memory 0x1000 target_devices.

Lemma target_room : cpu_base 1 + Z.of_nat 1 * align <= 2 ^ 64.
Proof. done. Qed.
Lemma target_bus : low_bus (bus target_devices).
Proof.
  intros a Ha. rewrite <- (debug_region 0x1000 [text "rv64im"] target_room a Ha).
  rewrite wrap_small; [done |]. change DEBUG_START with 0x100 in Ha. change DEFAULT_RSTVEC with 0x1000 in Ha. lia.
Qed.
Lemma target_proc_wf : wf_proc target_proc.
Proof. split; [by right | done | by vm_compute | by vm_compute | by vm_compute]. Qed.

Lemma reg_ok_64 v : in_range 64 v -> reg_ok 64 v.
Proof. intros Hv. split; [done |]. by apply canonical_64. Qed.

Lemma target_regs : xregs_ok 64 (XPR target_state).
Proof.
  split; [done | done |]. apply Forall_forall. intros v Hv. apply reg_ok_64.
  change (XPR target_state) with (0 :: ((fun i => 100 + Z.of_nat i) <$> seq 1 31)) in Hv.
  apply elem_of_cons in Hv as [-> | (i & -> & Hi%elem_of_seq)%list_elem_of_fmap]; [done |]. unfold in_range. lia.
Qed.

Lemma target_waiting temp : waiting temp 0x1000 target_proc target target_state 109 target_memory target_devices.
Proof.
  assert (Hd : DebugMode.debugging 64 (Dbg 0x884 108 109 false target_state target_memory target_devices)).
  { split; [done | done | done | by left | apply target_regs | by apply reg_ok_64 | by apply reg_ok_64 | apply target_bus | done]. }
  split.
  - destruct Hd as [Hp Hc Hs Hq Hr _ H1 Hb Hm]. split; [by split | done | done | done].
  - eexists. split; [| exists 0x884, 108, false; split; [reflexivity |]; split; [by apply reg_ok_64 | unfold wait_at; tauto]].
    split; [by exists 0 | | done | done | done | | | done].
    + exists base_decoder. split; [done |]. apply base_wf.
    + split; [done | by right | | | by repeat split | done | done | split; [done | vm_compute; by split]].
      * by intros [].
      * done.
    + by apply (flush_tlb_ok target new_mmu).
Qed.
