(* ===== verification/DebugHang.v ===== *)
(** An interrupt of the program being debugged, while its hart is in debug mode: the hart takes
    it, and no instruction of the debugger is run any more. *)
From Stdlib Require Import Ascii String.
From S2P Require Import Prelude SoftPrim Encoding Decode Decoder Machine Csr Isa CsrProps Mmu Tlb Insns.
From S2P Require Import Safe InsnProps FetchProps Alu Control Step StepProps OrdMap Devices GdbAsm.
From S2P Require Import RingBuffer Gdb GdbOps GdbServer GdbProps DebugMode DebugInsn DebugRam DebugRom DebugProg DebugRun.

Section hang.
Context (temp : Z).
#[local] Instance platform_hang : Platform platform := sim_platform temp.
Implicit Types (m : machine platform) (g : gdbserver_t).

(** A hart in debug mode with an interrupt that is pending and enabled. *)
Record interrupted m : Prop := {
  in_debug : z2b (dcsr_cause (dcsr (state m))) = true;
  in_single : single_step (state m) = STEP_NONE;
  in_enabled : z2b (enabled_interrupts (state m)) = true;
  in_xlen : max_xlen (proc m) = 32 \/ max_xlen (proc m) = 64;
  in_minstret : in_range 64 (minstret (state m))
}.

(** The hart is at the exception entry of the debug ROM and otherwise as it was. *)
Definition at_exception m : machine platform := m <| state := (state m) <| Machine.pc := DEBUG_ROM_EXCEPTION |> |>.

Lemma at_exception_twice m : at_exception (at_exception m) = at_exception m.
Proof. by destruct m as [[] ? ? ? ? ? ?]. Qed.
Lemma interrupted_again m : interrupted m -> interrupted (at_exception m).
Proof. intros [H1 H2 H3 H4 H5]. by split. Qed.

Lemma interrupt_cause xl which : xl = 32 \/ xl = 64 -> (interrupt_bit xl .| which =? CAUSE_BREAKPOINT) = false.
Proof.
  intros Hx. apply Z.eqb_neq. intros E. apply (f_equal (fun z => Z.testbit z (xl - 1))) in E. rewrite Z.lor_spec in E.
  destruct Hx as [-> | ->]; discriminate E.
Qed.

(** Every call of [step] is the interrupt, again. *)
Lemma step_interrupted fuel n m : interrupted m -> 0 < n -> (0 < fuel)%nat ->
  step fuel n m = (Return, at_exception m).
Proof.
  intros [Hd Hs He Hx Hm] Hn Hf. destruct fuel as [| fuel]; [lia |].
  assert (Hb : step_begin n m = (inl (Z.min n 11), m)).
  { unfold step_begin, mbind, M_bind, gets. unfold z2b in Hd. apply negb_true_iff in Hd.
    change DCSR_CAUSE_NONE with 0. by rewrite Hd. }
  unfold step. rewrite Hb. cbn [step_loop]. rewrite (proj2 (Z.leb_gt _ _)) by lia.
  assert (Ht : step_once (Z.min n 11) m = (Continue 0, at_exception m)).
  { unfold step_once, try_block, mbind at 1, B_bind at 1, lift at 1, take_interrupt, mbind at 1, M_bind at 1, gets at 1.
    rewrite He. unfold raise_interrupt. cbn [l_pc l_instret]. unfold on_trap, mbind at 1, M_bind at 1.
    unfold take_trap, mbind at 1 2, M_bind at 1 2, gets at 1 2. rewrite interrupt_cause by done. cbn [andb]. rewrite Hd.
    unfold modify_state, modify, mbind, M_bind, gets. cbn [single_step state]. 
    change (single_step (state (m <| state := (state m) <| Machine.pc := DEBUG_ROM_EXCEPTION |> |>))) with (single_step (state m)).
    rewrite Hs. rewrite bool_decide_eq_false_2 by done. unfold mret, M_ret, retire. cbn [l_instret].
    f_equal. unfold at_exception. destruct m as [[] ? ? ? ? ? ?]. cbn in *. rewrite Z.add_0_r, wrap_small by done. done. }
  rewrite Ht. by destruct fuel.
Qed.

(** C38: A hart in debug mode takes interrupts of the program being debugged: with one pending
    and enabled, every call of step only sends it to the exception entry of the debug ROM, with
    no instruction run, and a debugger that waits for its program waits for ever. *)
Theorem interrupt_hangs_debugger fuel n rounds g m :
  interrupted m -> 0 < n -> (0 < fuel)%nat -> operation_queue g <> [] -> debug_get_interrupt 0 (world m) = true ->
  (forall k, Nat.iter (S k) (fun r => step fuel n (snd r)) (Return, m) = (Return, at_exception m)) /\
  serve temp rounds fuel n g m = None.
Proof.
  intros Hm Hn Hf Hg Hw. split.
  - induction k as [| k IH]; [by apply step_interrupted |].
    change (step fuel n (snd (Nat.iter (S k) (fun r => step fuel n (snd r)) (Return, m))) = (Return, at_exception m)).
    rewrite IH. cbn [snd]. rewrite (step_interrupted fuel n _ (interrupted_again m Hm) Hn Hf). by rewrite at_exception_twice.
  - revert m Hm Hw. induction rounds as [| rounds IH]; intros m Hm Hw; cbn [serve]; rewrite bool_decide_eq_false_2 by done; [done |].
    unfold server_turn. rewrite Hw, world_same.
    pose proof (step_interrupted fuel n m Hm Hn Hf) as E.
    change (step fuel n m = (Return, at_exception m)) with (@step platform (platform_run temp) fuel n m = (Return, at_exception m)) in E.
    rewrite E.
    apply IH; [by apply interrupted_again | exact Hw].
Qed.
End hang.

(** The timer of the halted hart goes off; the debugger has asked for a register. *)
Definition ringing : machine platform :=
  target <| state := target_state <| mstatus := MSTATUS_MIE |> <| mie := MIP_MTIP |> <| mip := MIP_MTIP |> |>
         <| world := set_interrupt 0 target_devices |>.

Lemma interrupt_hangs_debugger_witness :
  serve 0 1000 23 11 ((some_server) <| operation_queue := [(RegisterReadOp 10, 1)] |>) ringing = None.
Proof.
  apply (interrupt_hangs_debugger 0 23 11 1000 ((some_server) <| operation_queue := [(RegisterReadOp 10, 1)] |>) ringing);
    [| done | lia | done | done].
  split; [done | done | by vm_compute | by right | done].
Defined.
