(* ===== verification/DebugOps.v ===== *)
(** The operations of the debugger from end to end: what gdb asks for is done to the hart, and
    what it is told is true (gdbserver.cc with debug_rom.S, processor.cc and execute.cc). *)
From Stdlib Require Import Ascii String.
From S2P Require Import Prelude SoftPrim Encoding Decode Decoder Machine Csr Isa CsrProps Mmu Tlb Insns.
From S2P Require Import Safe InsnProps FetchProps Alu Control Step StepProps OrdMap Devices GdbAsm.
From S2P Require Import RingBuffer Gdb GdbOps GdbServer GdbProps DebugMode DebugInsn DebugRam DebugRom DebugProg DebugRun.

(** ** Sending registers *)

Lemma sends_xlen msg g g' : sends msg g g' -> gs_xlen g' = gs_xlen g.
Proof. intros [R _ _ _]. rewrite R. done. Qed.

Lemma length_hex_le j v : length (hex_le j v) = (2 * j)%nat.
Proof.
  revert v. induction j as [| j IH]; intros v; [done |]. unfold hex_le in *. cbn [bytes_of mbind list_bind].
  rewrite length_app, IH. cbn. lia.
Qed.

Section sender.
Context (xl : Z).

(** [c] sends [msg], whatever was sent before. *)
Definition sender (msg : list Z) (c : G unit) (w : platform) : Prop :=
  forall g, gs_xlen g = xl -> can_send (Z.of_nat (length msg)) g -> in_range 8 (running_checksum g) ->
  exists g', c g w = inl (tt, g', w) /\ sends msg g g' /\ running_checksum g' = u8 (running_checksum g + sum msg).

Lemma sum_app a b : sum (a ++ b) = sum a + sum b.
Proof. unfold sum. induction a as [| x a IH]; [done |]. cbn [app foldr]. rewrite IH. lia. Qed.

Lemma sender_send msg w : sender msg (send msg) w.
Proof. intros g _ Hc _. destruct (send_ok msg g w Hc) as (g' & E & S & C & _). by exists g'. Qed.

Lemma sender_bind m1 m2 c1 c2 w : sender m1 c1 w -> sender m2 c2 w -> sender (m1 ++ m2) (c1 ;; c2) w.
Proof.
  intros H1 H2 g Hx Hc Hr. rewrite length_app in Hc.
  destruct (H1 g Hx) as (g1 & E1 & S1 & C1); [destruct Hc; split; [done | lia] | done |].
  destruct (H2 g1) as (g2 & E2 & S2 & C2); [by rewrite (sends_xlen _ _ _ S1) | ..].
  { eapply (sends_room _ m1 g); [| done]. by replace (Z.of_nat (length m1) + Z.of_nat (length m2))
      with (Z.of_nat (length m1 + length m2)) by lia. }
  { rewrite C1. apply wrap_range. lia. }
  exists g2. split; [by rewrite (bind_ok _ _ _ _ _ _ _ E1) |]. split; [by eapply sends_trans |].
  rewrite C2, C1, sum_app. unfold wrap. rewrite Zplus_mod_idemp_l. f_equal. lia.
Qed.

Lemma hex2_low v : hex2 (v .& 0xff) = hex2 (u8 v).
Proof. f_equal. change 0xff with (2 ^ 8 - 1). by rewrite land_mask by lia. Qed.

Lemma sender_bytes n v w : sender (hex_le n v) (send_bytes n v) w.
Proof.
  revert v. induction n as [| n IH]; intros v.
  - intros g _ Hc Hr. exists g. split; [done |]. split; [| by rewrite Z.add_0_r, wrap_small by done].
    destruct Hc as [Hb _]. split; [by destruct g | done | by rewrite app_nil_r | done].
  - change (hex_le (S n) v) with (hex2 (u8 v) ++ hex_le n (v .>> 8)). cbn [send_bytes]. rewrite hex2_low.
    apply sender_bind; [apply sender_send | apply IH].
Qed.

Lemma bytes_of_u w n v : 8 * Z.of_nat n <= w -> hex_le n (wrap w v) = hex_le n v.
Proof. intros Hw. unfold hex_le. by rewrite bytes_of_wrap. Qed.

(** A register of 4 bytes or 8. *)
Definition reg_bytes (xl : Z) : nat := if xl =? 32 then 4%nat else 8%nat.
Lemma sender_u32 v w : sender (hex_le 4 v) (send_u32 v) w.
Proof. rewrite <- (bytes_of_u 32) by lia. apply sender_bytes. Qed.
Lemma sender_u64 v w : sender (hex_le 8 v) (send_u64 v) w.
Proof. rewrite <- (bytes_of_u 64) by lia. apply sender_bytes. Qed.

Lemma bind3_ok {A} (c1 c2 c3 : G unit) (k : G A) g w g' w' :
  (c1 ;; c2 ;; c3) g w = inl (tt, g', w') -> (c1 ;; c2 ;; c3 ;; k) g w = k g' w'.
Proof.
  unfold mbind, G_bind. destruct (c1 g w) as [[[[] g1] w1] |]; [| done].
  destruct (c2 g1 w1) as [[[[] g2] w2] |]; [| done]. by intros ->.
Qed.

(** A packet sent in pieces. *)
Lemma sender_packet msg c w g : sender msg c w -> gs_xlen g = xl -> can_send (Z.of_nat (length msg) + 4) g ->
  exists g', (start_packet ;; c ;; end_packet) g w = inl (tt, g', w) /\ sends (frame msg) g g'.
Proof.
  intros Hs Hx Hc.
  destruct (start_packet_ok (Z.of_nat (length msg) + 3) g w) as (g1 & E1 & S1 & C1 & H1);
    [by replace (1 + (Z.of_nat (length msg) + 3)) with (Z.of_nat (length msg) + 4) by lia | lia |].
  destruct (Hs g1) as (g2 & E2 & S2 & C2); [by rewrite (sends_xlen _ _ _ S1) | destruct H1; split; [done | lia] | by rewrite C1 |].
  destruct (end_packet_ok g2 w) as (g3 & E3 & S3 & _); [by apply (sends_room 3 msg g1) |].
  exists g3. rewrite (bind_ok _ _ _ _ _ _ _ E1), (bind_ok _ _ _ _ _ _ _ E2). split; [done |].
  rewrite C2, C1 in S3. cbn [Z.add] in S3.
  pose proof (sends_trans _ _ _ _ _ (sends_trans _ _ _ _ _ S1 S2) S3) as S.
  unfold frame. by rewrite <- app_assoc in S.
Qed.
End sender.

(** ** What the server writes *)

Definition slot_word (xl : Z) (s : slot) : Z := if xl =? 32 then slot_offset32 s else slot_offset64 s.

Lemma ram_write_u32 i v w : ram_write32 i (u32 v) w = ram_write32 i v w.
Proof. unfold ram_write32. by rewrite bytes_of_wrap. Qed.

Lemma dr_write32_ok i v g w : dr_write32 i v g w = inl (tt, g, ram_write32 i v w).
Proof. unfold dr_write32, Gdb.set_devices. by rewrite ram_write_u32. Qed.

(** The program does not overwrite the slot, nor the slot the program. *)
Definition slot_free (i : Z) (s : slot) : bool :=
  (negb (bool_decide (s = SLOT_INST0)) || (2 <? i)) &&
  (negb (bool_decide (s = SLOT_DATA0)) || (i <? 4) || (6 <? i)) &&
  (negb (bool_decide (s = SLOT_DATA1)) || (i <? 5) || (10 <? i)) &&
  (negb (bool_decide (s = SLOT_DATA_LAST)) || (i <? 6) || (14 <? i)).

Definition wide_xlen (xl : Z) : Prop := xl = 32 \/ xl = 64.

Lemma dr_write_store_ok i r s g w : wide_xlen (gs_xlen g) -> slot_free i s = true ->
  dr_write_store i r s g w = inl (tt, g, ram_write32 i (store_word_at (gs_xlen g) r (slot_word (gs_xlen g) s)) w).
Proof.
  intros Hx (((H0 & H1)%andb_prop & H2)%andb_prop & H3)%andb_prop. unfold dr_write_store. rewrite H0, H1, H2, H3.
  unfold assert, mbind, G_bind, mret, G_ret, get_gs, store_word_at, slot_word.
  destruct Hx as [-> | ->]; cbn [Z.eqb Pos.eqb]; apply dr_write32_ok.
Qed.
Lemma dr_write_load_ok i r s g w : wide_xlen (gs_xlen g) ->
  dr_write_load i r s g w = inl (tt, g, ram_write32 i (load_word_at (gs_xlen g) r (slot_word (gs_xlen g) s)) w).
Proof.
  intros Hx. unfold dr_write_load, mbind, G_bind, get_gs, load_word_at, slot_word.
  destruct Hx as [-> | ->]; cbn [Z.eqb Pos.eqb]; apply dr_write32_ok.
Qed.
Lemma dr_write_jump_ok i g w : dr_write_jump i g w = inl (tt, g, ram_write32 i (jump_word i) w).
Proof. apply dr_write32_ok. Qed.

(** [slot_write] of the server. *)
Definition gs_slot (xl : Z) (i v : Z) (w : platform) : platform :=
  if xl =? 32 then ram_write32 i v w else ram_write32 (i + 1) (v .>> 32) (ram_write32 i v w).
Definition gs_slot_read (xl i : Z) (w : platform) : Z :=
  if xl =? 32 then ram_read32 i w else (ram_read32 (i + 1) w .<< 32) .| ram_read32 i w.
Lemma dr_write_ok s v g w : wide_xlen (gs_xlen g) ->
  dr_write s v g w = inl (tt, g, gs_slot (gs_xlen g) (slot_word (gs_xlen g) s) v w).
Proof.
  intros Hx. unfold dr_write, mbind at 1, G_bind at 1, get_gs, gs_slot, slot_word.
  destruct Hx as [-> | ->]; cbn [Z.eqb Pos.eqb]; [apply dr_write32_ok |].
  unfold dr_write64, mbind, G_bind. by rewrite dr_write32_ok, dr_write32_ok.
Qed.
Lemma dr_read_ok s g w : wide_xlen (gs_xlen g) ->
  dr_read s g w = inl (gs_slot_read (gs_xlen g) (slot_word (gs_xlen g) s) w, g, w).
Proof.
  intros Hx. unfold dr_read, mbind at 1, G_bind at 1, get_gs, gs_slot_read, slot_word.
  by destruct Hx as [-> | ->].
Qed.

Lemma store_word_fits xl r j : 0 <= r < 32 -> 0 <= j < 16 -> u32 (store_word_at xl r j) = store_word_at xl r j.
Proof.
  intros Hr Hj. assert (Ho : - 2048 <= DEBUG_RAM_START + 4 * j < 2048) by (change DEBUG_RAM_START with 0x400; lia).
  unfold store_word_at. destruct (xl =? 32).
  - destruct (s_encodes Asm.sw rv_sw r 0 _ ltac:(repeat constructor) Hr ltac:(lia) Ho) as [[Hf _] _]. by apply wrap_small.
  - destruct (s_encodes Asm.sd rv_sd r 0 _ ltac:(repeat constructor) Hr ltac:(lia) Ho) as [[Hf _] _]. by apply wrap_small.
Qed.
Lemma load_word_fits xl r j : 0 <= r < 32 -> 0 <= j < 16 -> u32 (load_word_at xl r j) = load_word_at xl r j.
Proof.
  intros Hr Hj. assert (Ho : - 2048 <= DEBUG_RAM_START + 4 * j < 2048) by (change DEBUG_RAM_START with 0x400; lia).
  unfold load_word_at. destruct (xl =? 32).
  - destruct (i_encodes Asm.lw rv_lw r 0 _ ltac:(repeat constructor) Hr ltac:(lia) Ho) as [[Hf _] _]. by apply wrap_small.
  - destruct (i_encodes Asm.ld rv_ld r 0 _ ltac:(repeat constructor) Hr ltac:(lia) Ho) as [[Hf _] _]. by apply wrap_small.
Qed.
Lemma jump_word_fits i : 0 <= i < 16 -> u32 (jump_word i) = jump_word i.
Proof.
  intros Hi. unfold jump_word. change DEBUG_ROM_RESUME with 0x804 in *. change DEBUG_RAM_START with 0x400 in *.
  rewrite (wrap_small 32 (0x804 - _)) by lia.
  destruct (jal_generator 0 (0x804 - (0x400 + 4 * i)) ltac:(done) ltac:(lia) ltac:(Z.div_mod_to_equations; lia)) as ([Hf _] & _).
  by apply wrap_small.
Qed.
Lemma csrr_fits r c : 0 <= r < 32 -> in_range 12 c -> u32 (Asm.csrr r c) = Asm.csrr r c.
Proof.
  intros Hr Hc. destruct (csr_generator (fun r c => Asm.csrr r c) rv_csrrs (fun w r c => csr_format w r 0 c) r c
              ltac:(repeat constructor) Hr Hc) as [[Hf _] _]. by apply wrap_small.
Qed.
Lemma csrw_fits r c : 0 <= r < 32 -> in_range 12 c -> u32 (Asm.csrw r c) = Asm.csrw r c.
Proof.
  intros Hr Hc. destruct (csr_generator (fun r c => Asm.csrw r c) rv_csrrw (fun w r c => csr_format w 0 r c) r c
              ltac:(repeat constructor) Hr Hc) as [[Hf _] _]. by apply wrap_small.
Qed.

(** Only the debug RAM changes. *)
Definition only_ram (pl w : platform) : Prop := w = with_debug_ram (debug_ram w) pl /\ ram_ok w.
Lemma only_refl pl : ram_ok pl -> only_ram pl pl.
Proof. intros H. split; [by destruct pl | done]. Qed.
Lemma only_write i v pl w : 0 <= i < 16 -> only_ram pl w -> only_ram pl (ram_write32 i v w).
Proof.
  intros Hi [E Hr]. split; [| by apply write_ram_ok]. rewrite E at 1. done.
Qed.
Lemma only_trans a b c : only_ram a b -> only_ram b c -> only_ram a c.
Proof. intros [E _] [E' Hr]. split; [| done]. rewrite E' at 1. rewrite E. done. Qed.
Lemma only_set pl w : only_ram pl w -> only_ram (set_interrupt 0 pl) (set_interrupt 0 w).
Proof. intros [E Hr]. split; [| exact Hr]. rewrite E at 1. done. Qed.

(** An operation in the queue takes a step. *)
Lemma step_operation_ok op op' k q c g g' w w' :
  operation_queue g = (op, k) :: q -> operation_queue g' = (op, k) :: q ->
  perform_step op k g w = inl ((c, op'), g', w') ->
  step_operation g w = inl (tt, (g') <| operation_queue := if c : bool then q else (op', k + 1) :: q |>, w').
Proof.
  intros Hq Hq' E. unfold step_operation, mbind, G_bind, get_gs, set_gs. rewrite Hq, E, Hq'. by destruct c.
Qed.

Lemma sends_queue msg g g' q : sends msg g g' -> sends msg ((g) <| operation_queue := q |>) ((g') <| operation_queue := q |>).
Proof. intros [R O C K]. split; [| done | done | done]. rewrite R at 1. by destruct g. Qed.
Lemma sends_queue_same msg g g' : sends msg g g' -> operation_queue g' = operation_queue g.
Proof. intros [R _ _ _]. rewrite R. done. Qed.

Lemma read_set i w : ram_read32 i (set_interrupt 0 w) = ram_read32 i w.
Proof. done. Qed.
Lemma interrupt_set w : debug_get_interrupt 0 (set_interrupt 0 w) = true.
Proof.
  unfold debug_get_interrupt, set_interrupt. cbn [debug_interrupt with_debug_interrupt].
  apply bool_decide_eq_true_2. change (u32 0) with 0. set_solver.
Qed.
Lemma interrupt_gone w : debug_get_interrupt 0 w = false -> (debug_interrupt w ∪ {[0]}) ∖ {[0]} = debug_interrupt w.
Proof.
  intros Hw%bool_decide_eq_false_1. change (u32 0) with 0 in Hw. apply set_eq. intros x.
  rewrite elem_of_difference, elem_of_union, elem_of_singleton. split; [tauto |]. intros Hx. split; [by left |]. by intros ->.
Qed.

(** The words of a program, from word [i] on. *)
Fixpoint write_words (i : Z) (ws : list Z) (w : platform) : platform :=
  match ws with
  | [] => w
  | x :: ws => write_words (i + 1) ws (ram_write32 i x w)
  end.
Definition program (ws : list Z) (w : platform) : platform := set_interrupt 0 (write_words 0 ws w).

Lemma write_words_only ws pl i w : 0 <= i -> i + Z.of_nat (length ws) <= 16 -> only_ram pl w ->
  only_ram pl (write_words i ws w).
Proof.
  revert i w. induction ws as [| x ws IH]; intros i w Hi Hl Hw; [done |]. cbn [length] in Hl.
  apply IH; [lia | lia |]. by apply only_write; [lia |].
Qed.
Lemma read_below ws i w j : 0 <= j < i -> i + Z.of_nat (length ws) <= 16 -> ram_ok w ->
  ram_read32 j (write_words i ws w) = ram_read32 j w.
Proof.
  revert i w. induction ws as [| x ws IH]; intros i w Hj Hl Hw; [done |]. cbn [length write_words] in *.
  rewrite IH by (lia || (apply write_ram_ok; [lia | done])). rewrite read_write by (done || lia).
  by rewrite (proj2 (Z.eqb_neq j i)) by lia.
Qed.
Lemma read_words ws i w j x : 0 <= i -> i + Z.of_nat (length ws) <= 16 -> ram_ok w -> ws !! j = Some x ->
  ram_read32 (i + Z.of_nat j) (write_words i ws w) = u32 x.
Proof.
  revert i w j. induction ws as [| y ws IH]; intros i w j Hi Hl Hw Hx; [done |]. cbn [length write_words] in *.
  assert (Hw' : ram_ok (ram_write32 i y w)) by (by apply write_ram_ok; [lia |]).
  destruct j as [| j].
  - injection Hx as ->. rewrite Z.add_0_r. rewrite read_below by (done || lia). rewrite read_write by (done || lia).
    by rewrite Z.eqb_refl.
  - replace (i + Z.of_nat (S j)) with (i + 1 + Z.of_nat j) by lia. by apply IH; [lia | lia | |].
Qed.

(** The words [ws], each of 32 bits, are at the start of the debug RAM. *)
Definition holds (ws : list Z) (pl : platform) : Prop :=
  forall j x, ws !! j = Some x -> ram_read32 (Z.of_nat j) pl = x.
Lemma holds_program ws w : Z.of_nat (length ws) <= 16 -> Forall (fun x => u32 x = x) ws -> ram_ok w ->
  holds ws (program ws w).
Proof.
  intros Hl Hf Hw j x Hj. unfold program. change (ram_read32 (0 + Z.of_nat j) (write_words 0 ws w) = x).
  rewrite (read_words ws 0 w j x) by (done || lia). by apply (Forall_lookup_1 _ _ _ _ Hf Hj).
Qed.
Lemma program_only ws w : Z.of_nat (length ws) <= 16 -> ram_ok w -> only_ram (set_interrupt 0 w) (program ws w).
Proof.
  intros Hl Hw. apply only_set, write_words_only; [done | lia | by apply only_refl].
Qed.

Lemma bind2_ok {A B} (a : G A) (b : A -> G unit) (k : G B) g w g' w' :
  (v ← a; b v) g w = inl (tt, g', w') -> (v ← a; b v ;; k) g w = k g' w'.
Proof.
  unfold mbind, G_bind. destruct (a g w) as [[[v g1] w1] |]; [| done]. by intros ->.
Qed.


(** Each word of a program is one of 32 bits. *)
Ltac words_fit :=
  repeat first [apply Forall_nil_2 | apply Forall_cons_2];
  first [by apply store_word_fits | by apply load_word_fits | by apply jump_word_fits | by apply csrr_fits | by apply csrw_fits].

(** The writes of a program, one after the other. *)
Ltac writes :=
  repeat first
    [ erewrite bind_ok; [| first [apply dr_write_jump_ok | simple apply dr_write32_ok
                                 | apply dr_write_store_ok; [done | reflexivity] | apply dr_write_load_ok; done]]
    | erewrite bind_ok; [| reflexivity]].

Ltac written :=
  unfold gs_set_interrupt, Gdb.set_devices, program; cbn [write_words b2z];
  repeat match goal with
         | |- context [4 <? 15] => change (4 <? 15) with true
         | |- context [3 <? 15] => change (3 <? 15) with true
         | |- context [15 <? 15] => change (15 <? 15) with false
         | |- context [?a + ?b] =>
             let v := eval vm_compute in (a + b) in
             lazymatch v with Z0 => idtac | Zpos _ => idtac end; change (a + b) with v
         end; reflexivity.

Section ops.
Context (temp size : Z) (p : processor_t).
#[local] Instance platform_ops : Platform platform := sim_platform temp.
Let xl := xlen p.
Hypothesis Hp : wf_proc p.
Implicit Types (m : machine platform) (d : dbg) (g : gdbserver_t).

#[local] Abbreviation serve := (DebugRun.serve temp).
#[local] Abbreviation waiting := (DebugRun.waiting temp size p).
#[local] Abbreviation context := (DebugRom.context p).
#[local] Abbreviation reaches := (DebugMode.reaches temp size p).

(** What the user has in the registers: the debug ROM keeps s0 in dscratch. *)
Definition user_reg (st : state_t) (s1 r : Z) : Z :=
  if r =? 8 then u64 (sext_xlen xl (dscratch st)) else if r =? 9 then s1 else regfile_read (XPR st) r.

Lemma slot_reads i v pl : slot_at p i -> ram_ok pl -> reg_ok xl v -> gs_slot_read xl i (slot_write p i v pl) = wrap xl v.
Proof using Hp.
  intros Hs Hram [Hv Hc]. pose proof Hs as [Hi _]. pose proof (xl_cases p Hp) as Hx. fold xl in Hx.
  unfold gs_slot_read, slot_write. fold xl. destruct Hx as [Ex | Ex]; rewrite Ex in *; cbn [Z.eqb Pos.eqb].
  - by rewrite read_write, Z.eqb_refl by (done || lia).
  - pose proof (slot_even p i Ex Hs) as Hi'. rewrite !read_write by (done || lia || (apply write_ram_ok; done || lia)).
    rewrite Z.eqb_refl. rewrite (proj2 (Z.eqb_neq i (i + 1))), Z.eqb_refl by lia.
    unfold in_range in Hv. rewrite shr_div, shl_mul by lia.
    rewrite (wrap_small 32 (v / 2 ^ 32)) by (Z.div_mod_to_equations; lia). rewrite (wrap_small 64) by lia.
    rewrite (lor_add _ _ 32); [| lia | by apply Z.mod_mul | apply (wrap_range 32); lia].
    unfold wrap. pose proof (Z.div_mod v (2 ^ 32)). lia.
Qed.

Lemma read_slot i j v w : 0 <= i < 16 -> slot_at p j -> ram_ok w -> i <> j -> (xl = 64 -> i <> j + 1) ->
  ram_read32 i (slot_write p j v w) = ram_read32 i w.
Proof using Hp.
  intros Hi Hj Hw Hij Hij'. unfold slot_write. fold xl. destruct (Z.eqb_spec xl 32) as [| Hx].
  - destruct Hj as [Hj _]. rewrite read_write by (done || lia). by rewrite (proj2 (Z.eqb_neq i j)).
  - assert (Ex : xl = 64) by (pose proof (xl_cases p Hp) as [? | ?]; unfold xl in *; [congruence | done]).
    pose proof (slot_even p j Ex Hj). specialize (Hij' Ex).
    rewrite !read_write by (try done; try lia; apply write_ram_ok; try done; lia).
    by rewrite !(proj2 (Z.eqb_neq _ _)) by lia.
Qed.
Lemma read_low i j v w : 0 <= i < j -> slot_at p j -> ram_ok w -> ram_read32 i (slot_write p j v w) = ram_read32 i w.
Proof using Hp. intros Hi Hj Hw. pose proof Hj as [Hj' _]. apply read_slot; [lia | done | done | lia | lia]. Qed.
Lemma holds_slot ws j v w : holds ws w -> slot_at p j -> Z.of_nat (length ws) <= j -> ram_ok w -> holds ws (slot_write p j v w).
Proof using Hp.
  intros Hw Hj Hl Hr i x Hi. pose proof (lookup_lt_Some _ _ _ Hi). rewrite read_low by (done || lia). by apply Hw.
Qed.
Lemma slot_read_other i j v w : slot_at p i -> slot_at p j -> ram_ok w -> i <> j -> (xl = 64 -> i <> j + 1 /\ j <> i + 1) ->
  slot_read p i (slot_write p j v w) = slot_read p i w.
Proof using Hp.
  intros Hi Hj Hw Hij H64. unfold slot_read. fold xl. destruct (Z.eqb_spec xl 32) as [| Hx].
  - rewrite read_slot; [done | apply Hi | done | done | done |]. intros E. apply (H64 E).
  - assert (Ex : xl = 64) by (pose proof (xl_cases p Hp) as [? | ?]; unfold xl in *; [congruence | done]).
    pose proof (slot_even p i Ex Hi) as Hi'. pose proof (slot_even p j Ex Hj) as Hj'. destruct (H64 Ex).
    by rewrite !read_slot by (done || lia).
Qed.
Lemma gs_read_other i j v w : slot_at p i -> slot_at p j -> ram_ok w -> i <> j -> (xl = 64 -> i <> j + 1 /\ j <> i + 1) ->
  gs_slot_read xl i (slot_write p j v w) = gs_slot_read xl i w.
Proof using Hp.
  intros Hi Hj Hw Hij H64. unfold gs_slot_read. fold xl. destruct (Z.eqb_spec xl 32) as [| Hx].
  - rewrite read_slot; [done | apply Hi | done | done | done |]. intros E. apply (H64 E).
  - assert (Ex : xl = 64) by (pose proof (xl_cases p Hp) as [? | ?]; unfold xl in *; [congruence | done]).
    pose proof (slot_even p i Ex Hi) as Hi'. pose proof (slot_even p j Ex Hj) as Hj'. destruct (H64 Ex).
    by rewrite !read_slot by (done || lia).
Qed.
Lemma slot_read_finished i flag w : slot_at p i -> ram_ok w -> i <> 15 -> (xl = 64 -> i <> 14) ->
  gs_slot_read xl i (finished p flag w) = gs_slot_read xl i w.
Proof using Hp.
  intros Hi Hw H15 H14. unfold gs_slot_read, finished, cleared.
  change (ram_read32 ?i (with_debug_interrupt _ ?w)) with (ram_read32 i w).
  destruct (Z.eqb_spec xl 32) as [| Hx].
  - rewrite read_write by (done || apply Hi || lia). by rewrite (proj2 (Z.eqb_neq i 15)).
  - assert (Ex : xl = 64) by (pose proof (xl_cases p Hp) as [? | ?]; unfold xl in *; [congruence | done]).
    pose proof (slot_even p i Ex Hi) as Hi'. specialize (H14 Ex).
    rewrite !read_write by (done || lia). by rewrite !(proj2 (Z.eqb_neq _ 15)) by lia.
Qed.
Lemma only_slot j v pl w : slot_at p j -> only_ram pl w -> only_ram pl (slot_write p j v w).
Proof using Hp.
  intros Hj H. unfold slot_write. fold xl. destruct (Z.eqb_spec xl 32) as [| Hx]; [apply only_write; [apply Hj | done] |].
  assert (Ex : xl = 64) by (pose proof (xl_cases p Hp) as [? | ?]; unfold xl in *; [congruence | done]).
  pose proof (slot_even p j Ex Hj). apply only_write; [lia |]. apply only_write; [lia | done].
Qed.
Lemma last_at : slot_at p (last_slot p).
Proof using Hp.
  unfold slot_at, last_slot. fold xl. pose proof (xl_cases p Hp) as Hx. fold xl in Hx.
  destruct Hx as [-> | ->]; cbn [Z.eqb Pos.eqb]; by split.
Qed.
Lemma last_low i : 0 <= i < 14 -> 0 <= i < last_slot p.
Proof. intros Hi. unfold last_slot. destruct (xlen p =? 32); lia. Qed.
Lemma data_at_4 : slot_at p 4.
Proof using Type. by split. Qed.

Hypothesis Hisa : Z.testbit (isa p) (xl - 1) = (xl =? 64).
Hypothesis Hid : id p = 0.

Lemma wide_here g : gs_xlen g = xl -> wide_xlen (gs_xlen g).
Proof using Hp. intros ->. apply (xl_cases p Hp). Qed.

(** The interrupt is pending after the debugger asked, and not any more after the program. *)
Lemma asked_set w : asked p (set_interrupt 0 w) = true.
Proof using Hid. unfold asked. rewrite Hid. apply interrupt_set. Qed.
Lemma only_finished flag pl w : asked p pl = false -> only_ram (set_interrupt 0 pl) w -> only_ram pl (finished p flag w).
Proof using Hid.
  intros Ha Hw. apply (only_write 15 flag) in Hw; [| done]. unfold finished, cleared.
  set (w1 := ram_write32 15 flag w) in *. destruct Hw as [E Hr]. split; [| exact Hr].
  assert (Ei : debug_interrupt w1 = debug_interrupt pl ∪ {[0]}) by (rewrite E; done).
  unfold asked in Ha. rewrite Hid in Ha. rewrite Ei, Hid, (interrupt_gone _ Ha), E. by destruct pl.
Qed.

Lemma flag_read flag w : ram_ok w -> ram_read32 15 (finished p flag w) = u32 flag.
Proof using Type. intros Hw. unfold finished, cleared. change (ram_read32 15 (ram_write32 15 flag w) = u32 flag). by rewrite read_write. Qed.

(** A program that only used the debug RAM. *)
Lemma only_asked pl w : only_ram (set_interrupt 0 pl) w -> asked p w = true.
Proof using Hid. intros [E _]. rewrite E. apply (asked_set pl). Qed.
Lemma only_context st pl w : context st pl -> only_ram (set_interrupt 0 pl) w -> context st w.
Proof. intros Hc [E Hr]. apply (context_pl p st pl); [done | by rewrite E | done]. Qed.
Lemma only_bus pl w : only_ram (set_interrupt 0 pl) w -> bus w = bus pl.
Proof. intros [E _]. by rewrite E. Qed.

(** Where a program starts. *)
Record starts (ws : list Z) (st : state_t) (w w2 : platform) : Prop := {
  sr_context : context st w2;
  sr_asked : asked p w2 = true;
  sr_words : holds ws w2;
  sr_ram : ram_ok w2;
  sr_only : only_ram (set_interrupt 0 w) w2
}.
Lemma starts_program ws st s1 w : context st w -> Z.of_nat (length ws) <= 13 -> Forall (fun x => u32 x = x) ws ->
  starts ws st w (slot_write p (last_slot p) s1 (program ws w)).
Proof using Hp Hid.
  intros Hc Hl Hf. assert (Hw : ram_ok w) by (by destruct Hc).
  pose proof (program_only ws w ltac:(lia) Hw) as Ho. assert (Hwo : ram_ok (program ws w)) by apply Ho.
  pose proof last_at as Hla. split.
  - apply context_slot; [done | | done]. by apply (only_context st w).
  - rewrite asked_slot. by apply (only_asked w).
  - apply holds_slot; [apply holds_program; [lia | done | done] | done | | done].
    destruct (last_low 13); lia.
  - by apply slot_ok.
  - by apply only_slot.
Qed.
Lemma starts_slot ws st w w2 j v : starts ws st w w2 -> slot_at p j -> Z.of_nat (length ws) <= j ->
  starts ws st w (slot_write p j v w2).
Proof using Hp.
  intros [Hc Ha Hw Hr Ho] Hj Hl. split.
  - by apply context_slot.
  - by rewrite asked_slot.
  - by apply holds_slot.
  - by apply slot_ok.
  - by apply only_slot.
Qed.

Definition data1 : Z := slot_word xl SLOT_DATA1.
Lemma data1_at : slot_at p data1.
Proof using Hp.
  unfold data1, slot_word. pose proof (xl_cases p Hp) as Hx. fold xl in Hx. unfold slot_at. fold xl.
  destruct Hx as [E | E]; rewrite E; by split.
Qed.
Lemma last_word : slot_word xl SLOT_DATA_LAST = (last_slot p).
Proof using Type. unfold slot_word, last_slot. fold xl. by destruct (xl =? 32). Qed.
Lemma data0_word : slot_word xl SLOT_DATA0 = 4.
Proof using Type. unfold slot_word. by destruct (xl =? 32). Qed.
Lemma data1_range : 5 <= data1 <= 6 /\ (xl = 64 -> data1 = 6).
Proof using Type. unfold data1, slot_word. destruct (Z.eqb_spec xl 32) as [E |]; [rewrite E |]; by split. Qed.

Lemma sender_send_reg v x w : x = wrap xl v -> sender xl (hex_le (reg_bytes xl) v) (send_reg x) w.
Proof using Hp.
  intros -> g Hx Hc Hr. unfold send_reg. rewrite (bind_ok (get_gs gs_xlen) _ g w xl g w) by (by rewrite <- Hx).
  pose proof (xl_cases p Hp) as Hxl. fold xl in Hxl. unfold reg_bytes in *.
  destruct (Z.eqb_spec xl 32) as [E | E].
  - rewrite <- (bytes_of_u 32) by done. rewrite E. by apply (sender_u32 xl (wrap 32 v) w g).
  - assert (E64 : xl = 64) by (destruct Hxl; [congruence | done]). rewrite <- (bytes_of_u 64) by done. rewrite E64.
    by apply (sender_u64 xl (wrap 64 v) w g).
Qed.

Section served.
Context (fuel : nat) (n : Z).
Hypothesis (Hn : 0 < n < 2 ^ 64) (Hfuel : 2 * n + 1 <= Z.of_nat fuel).

(** The server is done with the operations in its queue and has sent [msg]; the hart waits
    again, in state [st'], with [s1'] in s1 and memory [mm'], and of the devices only the debug
    RAM has changed. *)
Definition served (rounds : nat) g m pl msg st' s1' mm' : Prop :=
  exists g' m' pl', serve rounds fuel n g m = Some (g', m') /\ sends msg ((g) <| operation_queue := [] |>) g' /\
    waiting m' st' s1' mm' pl' /\ only_ram pl pl'.

Lemma waiting_ram m st s1 mm pl : waiting m st s1 mm pl -> ram_ok pl.
Proof using Type. intros ([Hc _ _ _] & _). by destruct Hc. Qed.

(** An operation of two steps: the first asks for a program, the second sends the answer. *)
Lemma two_steps op op1 op2 g g0 m st s1 mm pl w j trap st' mm' s1a s1' pl' msg :
  waiting m st s1 mm pl -> operation_queue g = [(op, 0)] -> operation_queue g0 = [(op, 0)] ->
  perform_step op 0 g pl = inl ((false, op1), g0, w) -> only_ram (set_interrupt 0 pl) w ->
  program_runs temp size p j st mm s1 w trap st' mm' s1a pl' ->
  context st' pl' -> dcsr_halt (dcsr st') = true -> reg_ok xl s1a ->
  only_ram (set_interrupt 0 pl) pl' -> slot_read p (last_slot p) pl' = s1' ->
  (let g1 := (g0) <| operation_queue := [(op1, 1)] |> in
   let pl1 := finished p (result trap) pl' in
   exists g2, perform_step op1 1 g1 pl1 = inl ((true, op2), g2, pl1) /\ sends msg g1 g2) ->
  exists g' m' pl1, serve (28 + j) fuel n g m = Some (g', m') /\ sends msg ((g0) <| operation_queue := [] |>) g' /\
    waiting m' st' s1' mm' pl1 /\ only_ram pl pl1.
Proof using Hp Hisa Hid Hn Hfuel.
  intros Hw Hq Hq0 Ep Hwo Hrun Hc' Hh' H1a Hro Es1 (g2 & E2 & S2). pose proof Hw as ([_ _ _ Hidle] & _).
  set (g1 := (g0) <| operation_queue := [(op1, 1)] |>) in *. set (pl1 := finished p (result trap) pl') in *.
  assert (E0 : step_operation g pl = inl (tt, g1, w)).
  { apply (step_operation_ok op op1 0 [] false g g0 pl w Hq Hq0 Ep). }
  destruct (exchange temp size p Hp Hisa Hid fuel n Hn Hfuel m st s1 mm pl g g1 w j trap st' mm' s1a pl')
    as (i & m1 & Hi & Hw1 & Hs1);
    [done | by rewrite Hq | done | exact E0 | by apply only_bus | apply Hwo | by apply (only_asked pl)
    | done | done | done | done | by apply (only_asked pl) |].
  rewrite Es1 in Hw1. change (finished p (result trap) pl') with pl1 in Hw1.
  destruct (server_alone temp size p Hp Hid fuel n Hn Hfuel m1 st' s1' mm' pl1 g1 ((g2) <| operation_queue := [] |>) Hw1 ltac:(done))
    as (m2 & Hw2 & Hs2).
  { apply (step_operation_ok op1 op2 1 [] true g1 g2 pl1 pl1); [done | | exact E2]. by rewrite (sends_queue_same _ _ _ S2). }
  exists ((g2) <| operation_queue := [] |>), m2, pl1. split; [| split; [| split]].
  - apply (serve_more temp p fuel n (i + 1)); [lia |]. by rewrite Hs1, Hs2.
  - apply (sends_queue _ _ _ []) in S2. exact S2.
  - exact Hw2.
  - by apply only_finished.
Qed.

Lemma regfile_read_ok st pl r : context st pl -> 0 <= r < 32 -> reg_ok xl (regfile_read (XPR st) r).
Proof using Type.
  intros Hc Hr. pose proof (c_regs _ _ _ Hc) as [Hl _ HF]. unfold regfile_read. change regfile with (list Z) in *.
  assert (Hk : (Z.to_nat r < length (XPR st))%nat) by (rewrite Hl; clear - Hr; lia).
  destruct (lookup_lt_is_Some_2 (XPR st) (Z.to_nat r) Hk) as [v Ev]. rewrite Ev. apply (Forall_lookup_1 _ _ _ _ HF Ev).
Qed.
Lemma user_reg_ok st s1 pl r : context st pl -> reg_ok xl s1 -> 0 <= r < 32 -> reg_ok xl (user_reg st s1 r).
Proof using Hp.
  intros Hc H1 Hr. unfold user_reg. destruct (r =? 8); [apply (reg_ok_sext p Hp) |]. destruct (r =? 9); [done |].
  by apply (regfile_read_ok st pl).
Qed.

(** s1 stays where the debug ROM has put it. *)
Lemma last_saved j v s1 w : slot_at p j -> 4 <= j < 14 -> (xl = 64 -> j < 13) -> ram_ok w -> reg_ok xl s1 ->
  slot_read p (last_slot p) (slot_write p j v (slot_write p (last_slot p) s1 w)) = s1.
Proof using Hp.
  intros Hj Hj' H64 Hw H1. rewrite slot_read_other; [| apply last_at | done | by apply slot_ok; [| apply last_at |] | ..].
  - by apply slot_read_write; [| apply last_at | |].
  - clear - Hj'. unfold last_slot. destruct (xlen p =? 32); lia.
  - intros E. specialize (H64 E). unfold last_slot. fold xl. rewrite E. cbn [Z.eqb Pos.eqb]. clear - Hj' H64. lia.
Qed.
End served.
End ops.

(** A server that has been asked for an operation, with nothing left to send. *)
Definition asked_for (op : operation) : gdbserver_t :=
  (some_server) <| send_buf := new_buffer 1024 |> <| operation_queue := [(op, 0)] |>.
Lemma asked_for_sends op k : k < 1023 -> can_send k (asked_for op).
Proof. intros Hk. split; [by apply new_buffer_ok |]. exact Hk. Qed.
