(* ===== verification/DebugRegs.v ===== *)
(** Reading and writing registers with the debugger, from end to end: gdbserver.cc's operations
    on them, the programs they have the hart run, and the answers. *)
From Stdlib Require Import Ascii String.
From S2P Require Import Prelude SoftPrim Encoding Decode Decoder Machine Csr Isa CsrProps Mmu Tlb Insns.
From S2P Require Import Safe InsnProps FetchProps Alu Control Step StepProps OrdMap Devices GdbAsm.
From S2P Require Import RingBuffer Gdb GdbOps GdbServer GdbProps DebugMode DebugInsn DebugRam DebugRom DebugProg DebugRun DebugOps.


Section registers.
Context (temp size : Z) (p : processor_t).
#[local] Instance platform_regs : Platform platform := sim_platform temp.
#[local] Abbreviation xl := (xlen p).
Hypothesis Hp : wf_proc p.
Hypothesis Hisa : Z.testbit (isa p) (xl - 1) = (xl =? 64).
Hypothesis Hid : id p = 0.
Implicit Types (m : machine platform) (d : dbg) (g : gdbserver_t).

#[local] Abbreviation serve := (DebugRun.serve temp).
#[local] Abbreviation waiting := (DebugRun.waiting temp size p).
#[local] Abbreviation context := (DebugRom.context p).
#[local] Abbreviation reaches := (DebugMode.reaches temp size p).
#[local] Abbreviation last_slot := (DebugRom.last_slot p).
#[local] Abbreviation starts := (DebugOps.starts p).
#[local] Abbreviation data1 := (DebugOps.data1 p).

(** ** Reading one *)

(** What a program finds in the registers: in s0 the debug ROM leaves misa. *)
Definition program_reg (st : state_t) (s1 r : Z) : Z :=
  if r =? 8 then misa_word p else if r =? 9 then s1 else regfile_read (XPR st) r.

Definition read_words_of r : list Z := [store_word_at xl r 4; jump_word 1].

Lemma register_read_asks r g w : 0 <= r < 32 -> gs_xlen g = xl ->
  perform_step (RegisterReadOp r) 0 g w = inl ((false, RegisterReadOp r), g, program (read_words_of r) w).
Proof using Type.
  intros Hr Hx. unfold perform_step, register_read_step. cbn [Z.eqb]. unfold mbind at 1 2, G_bind at 1 2, get_gs.
  rewrite (proj2 (Z.leb_le r REG_XPR31)) by (unfold REG_XPR31; lia). rewrite Hx.
  rewrite (bind_ok _ _ _ _ _ _ _ (dr_write32_ok _ _ _ _)), (bind_ok _ _ _ _ _ _ _ (dr_write_jump_ok _ _ _)).
  unfold gs_set_interrupt, Gdb.set_devices, mbind, G_bind, mret, G_ret, program, read_words_of, store_word_at.
  by destruct (xl =? 32).
Qed.

(** A program starts with the registers of the user in their places, but for s0. *)
Lemma d_reg_program a st s1 ser mm pl r : d_reg (Dbg a (misa_word p) s1 ser st mm pl) r = program_reg st s1 r.
Proof using Type. done. Qed.
Lemma d_reg_user a s0 st s1 ser mm pl r : r <> 8 -> d_reg (Dbg a s0 s1 ser st mm pl) r = user_reg p st s1 r.
Proof using Type. intros Hr. unfold d_reg, user_reg. by rewrite (proj2 (Z.eqb_neq r 8) Hr). Qed.

Lemma register_read_runs r st mm s1 w : 0 <= r < 32 -> context st w -> reg_ok xl s1 ->
  let w1 := program (read_words_of r) w in
  program_runs temp size p 2 st mm s1 w1 false st mm s1
    (slot_write p 4 (program_reg st s1 r) (slot_write p last_slot s1 w1)).
Proof using Hp Hid.
  intros Hr Hc H1 w1 Q k Hq. assert (Hm : reg_ok xl (misa_word p)) by (by apply misa_word_ok).
  assert (Hs := starts_program p Hp Hid (read_words_of r) st s1 w Hc ltac:(done)
                  ltac:(words_fit)).
  fold w1 in Hs. set (w2 := slot_write p last_slot s1 w1) in *.
  change DEBUG_RAM_START with (at_word 0).
  apply (p_store temp size p Hp) with (r := r) (j := 4);
    [apply context_debugging; [apply Hs | done | done] | apply Hs | done | by apply (sr_words _ _ _ _ _ Hs 0%nat) | done | done |].
  rewrite d_reg_program. set (w3 := slot_write p 4 _ w2) in *.
  assert (Hs3 : starts (read_words_of r) st w w3) by (by apply starts_slot).
  apply (p_jump temp size p Hp);
    [apply context_debugging; [apply Hs3 | done | done] | apply Hs3 | done | by apply (sr_words _ _ _ _ _ Hs3 1%nat) | by apply Hq].
Qed.

(** The value of a register that the server has read, sent. *)
Lemma sender_reg v pl : gs_slot_read xl 4 pl = wrap xl v ->
  sender xl (hex_le (reg_bytes xl) v)
    (if xl =? 32 then v ← dr_read32 4; send_u32 v else v ← dr_read SLOT_DATA0; send_u64 v) pl.
Proof using Hp.
  intros Hv g Hx Hc Hr. pose proof (xl_cases p Hp) as Hxl. fold xl in Hxl. unfold gs_slot_read, reg_bytes in *.
  destruct (Z.eqb_spec xl 32) as [E | E].
  - pose proof (sender_u32 xl (ram_read32 4 pl) pl g Hx) as S.
    assert (hex_le 4 (ram_read32 4 pl) = hex_le 4 v) as Eh by (rewrite Hv, E; by apply bytes_of_u).
    rewrite Eh in S. exact (S Hc Hr).
  - assert (E64 : xl = 64) by lia.
    pose proof (sender_u64 xl (gs_slot_read xl 4 pl) pl g Hx) as S. unfold gs_slot_read in S.
    rewrite (proj2 (Z.eqb_neq xl 32) E), Hv, E64 in S. rewrite (bytes_of_u 64) in S by lia.
    destruct (S Hc Hr) as (g' & E' & S' & C). exists g'. split; [| done].
    rewrite (bind_ok _ _ _ _ _ _ _ (dr_read_ok SLOT_DATA0 g pl ltac:(right; congruence))).
    rewrite Hx, E64. change (slot_word 64 SLOT_DATA0) with 4. unfold gs_slot_read. cbn [Z.eqb Pos.eqb].
    rewrite Hv, E64. exact E'.
Qed.

Lemma register_read_answers r v g pl : gs_xlen g = xl -> can_send 20 g -> ram_read32 15 pl = 0 ->
  gs_slot_read xl 4 pl = wrap xl v ->
  exists g', perform_step (RegisterReadOp r) 1 g pl = inl ((true, RegisterReadOp r), g', pl) /\
    sends (frame (hex_le (reg_bytes xl) v)) g g'.
Proof using Hp.
  intros Hx Hc He Hv.
  destruct (sender_packet xl _ _ pl g (sender_reg v pl Hv) Hx) as (g' & E & S).
  { rewrite length_hex_le. unfold reg_bytes. destruct Hc. split; [done |]. destruct (xl =? 32); lia. }
  exists g'. split; [| done]. unfold perform_step.
  erewrite bind_ok; [reflexivity |]. unfold register_read_step. cbn [Z.eqb Pos.eqb].
  rewrite (bind_ok read_exception _ g pl 0 g pl) by (rewrite <- He; reflexivity). cbn [z2b Z.eqb negb].
  rewrite (bind_ok (get_gs gs_xlen) _ g pl xl g pl) by (rewrite <- Hx; reflexivity).
  by rewrite (bind3_ok _ _ _ _ _ _ _ _ E).
Qed.

Lemma program_reg_ok st s1 pl r : context st pl -> reg_ok xl s1 -> 0 <= r < 32 -> reg_ok xl (program_reg st s1 r).
Proof using Hp.
  intros Hc H1 Hr. unfold program_reg. destruct (r =? 8); [by apply misa_word_ok |]. destruct (r =? 9); [done |].
  by apply (regfile_read_ok p st pl).
Qed.


(** ** Reading all of them *)

(** The program of a step: it stores two registers, with s1 loaded again before it is stored,
    s0 read from dscratch, and nothing after register 31. *)
Definition regs_words (step : Z) : list Z :=
  if step =? 4 then
    [load_word_at xl 9 last_slot; store_word_at xl 9 4; store_word_at xl 10 data1; jump_word 3]
  else if step =? 3 then
    [store_word_at xl 7 4; Asm.csrr 8 CSR_DSCRATCH; store_word_at xl 8 data1; jump_word 3]
  else if step =? 15 then [store_word_at xl 31 4; jump_word 1]
  else [store_word_at xl (2 * step + 1) 4; store_word_at xl (2 * step + 2) data1; jump_word 2].

Lemma regs_words_fit step : 0 <= step <= 15 -> Forall (fun x => u32 x = x) (regs_words step).
Proof using Hp.
  intros Hs. unfold regs_words. pose proof (data1_range p) as [Hd _]. pose proof (last_low p 13 ltac:(lia)) as Hl.
  pose proof (last_at p Hp) as [Hl' _].
  destruct (Z.eqb_spec step 4); [| destruct (Z.eqb_spec step 3); [| destruct (Z.eqb_spec step 15)]];
    repeat first [apply Forall_nil_2 | apply Forall_cons_2];
    first [apply store_word_fits; lia | apply load_word_fits; lia | apply jump_word_fits; lia | by apply csrr_fits].
Qed.
Lemma regs_words_length step : Z.of_nat (length (regs_words step)) <= 4.
Proof using Type. unfold regs_words. by repeat case_match. Qed.

Lemma regs_asks step g w : 0 <= step <= 15 -> gs_xlen g = xl ->
  write_registers_program step g w = inl (tt, g, program (regs_words step) w).
Proof using Hp.
  intros Hs Hx. assert (Hwx : wide_xlen (gs_xlen g)) by (rewrite Hx; apply (xl_cases p Hp)).
  unfold write_registers_program, regs_words. cbv zeta. unfold S1, S0.
  destruct (Z.eqb_spec step 4) as [-> | H4]; [| destruct (Z.eqb_spec step 3) as [-> | H3];
    [| destruct (Z.eqb_spec step 15) as [-> | H15]]].
  - change (2 * 4 + 1) with 9. change (9 + 1) with 10. change (9 =? 9) with true. change (10 =? 8) with false. cbn [b2z Z.add Z.ltb].
    writes. rewrite Hx, (last_word p), (data0_word p). written.
  - change (2 * 3 + 1) with 7. change (7 + 1) with 8. change (7 =? 9) with false. change (8 =? 8) with true. cbn [b2z Z.add Z.ltb].
    writes. rewrite Hx, (data0_word p). written.
  - change (2 * 15 + 1) with 31. change (31 + 1) with 32. change (31 =? 9) with false. change (32 =? 8) with false. cbn [b2z Z.add Z.ltb].
    writes. rewrite Hx, (data0_word p). written.
  - rewrite (proj2 (Z.eqb_neq (2 * step + 1) 9)), (proj2 (Z.eqb_neq (2 * step + 1 + 1) 8)), (proj2 (Z.ltb_lt step 15)) by lia.
    cbn [b2z Z.add]. writes. rewrite Hx, (data0_word p). replace (2 * step + 1 + 1) with (2 * step + 2) by lia. written.
Qed.

Definition regs_result (step : Z) (st : state_t) (s1 : Z) (w2 : platform) : platform :=
  let w3 := slot_write p 4 (user_reg p st s1 (2 * step + 1)) w2 in
  if step =? 15 then w3 else slot_write p data1 (user_reg p st s1 (2 * step + 2)) w3.

Lemma csr_dscratch a s0 s1 ser st mm pl :
  csr_value CSR_DSCRATCH (mach size p (Dbg a s0 s1 ser st mm pl)) = Some (dscratch st).
Proof using Type. unfold csr_value. cbv zeta. rewrite hpm_false by reflexivity. reflexivity. Qed.

Section regs_run.
Context (st : state_t) (mm : gmap Z Z) (s1 : Z) (w : platform) (ws : list Z) (Q : dbg -> Prop) (k : nat).
Hypothesis (H1 : reg_ok xl s1) (Hl : Z.of_nat (length ws) <= 4).

(** A store of a register of the user, other than s0. *)
Lemma regs_store i r j s0 ser w2 : starts ws st w w2 -> reg_ok xl s0 -> ws !! Z.to_nat i = Some (store_word_at xl r j) ->
  0 <= i < 16 -> 0 <= r < 32 -> slot_at p j -> 4 <= j ->
  (r = 8 /\ s0 = user_reg p st s1 8 \/ r <> 8) ->
  (starts ws st w (slot_write p j (user_reg p st s1 r) w2) ->
   reaches Q k (Dbg (at_word (i + 1)) s0 s1 ser st mm (slot_write p j (user_reg p st s1 r) w2))) ->
  reaches Q (S k) (Dbg (at_word i) s0 s1 ser st mm w2).
Proof using Hp H1 Hl.
  intros Hs H0 Hi Hi16 Hr Hj Hj4 Hr8 Hq.
  assert (Ev : d_reg (Dbg (at_word i) s0 s1 ser st mm w2) r = user_reg p st s1 r).
  { destruct Hr8 as [[-> ->] | Hr8]; [done | by apply d_reg_user]. }
  apply (p_store temp size p Hp) with (r := r) (j := j);
    [apply context_debugging; [apply Hs | done | done] | apply Hs | done | | done | done |].
  - replace i with (Z.of_nat (Z.to_nat i)) by (clear - Hi16; lia). by apply (sr_words _ _ _ _ _ Hs).
  - rewrite Ev. apply Hq. apply starts_slot; [done | done | done |]. clear - Hl Hj4. lia.
Qed.

Lemma regs_jump i s0 ser w2 : starts ws st w w2 -> reg_ok xl s0 -> ws !! Z.to_nat i = Some (jump_word i) -> 0 <= i < 16 ->
  (reaches Q k (Dbg DEBUG_ROM_RESUME s0 s1 ser st mm w2)) -> reaches Q (S k) (Dbg (at_word i) s0 s1 ser st mm w2).
Proof using Hp H1.
  intros Hs H0 Hi Hi16 Hq. apply (p_jump temp size p Hp);
    [apply context_debugging; [apply Hs | done | done] | apply Hs | done | | done].
  replace i with (Z.of_nat (Z.to_nat i)) at 1 by (clear - Hi16; lia). by apply (sr_words _ _ _ _ _ Hs).
Qed.
End regs_run.

Lemma regs_run step st mm s1 w : 0 <= step <= 15 -> context st w -> reg_ok xl s1 ->
  let w1 := program (regs_words step) w in
  program_runs temp size p 5 st mm s1 w1 false st mm s1 (regs_result step st s1 (slot_write p last_slot s1 w1)).
Proof using Hp Hid.
  intros Hstep Hc H1 w1 Q k Hq. assert (Hm : reg_ok xl (misa_word p)) by (by apply misa_word_ok).
  pose proof (regs_words_length step) as Hl. pose proof (data1_at p Hp) as Hd. pose proof (data1_range p) as [Hdr _].
  assert (Hs := starts_program p Hp Hid (regs_words step) st s1 w Hc ltac:(lia) (regs_words_fit step Hstep)).
  fold w1 in Hs. assert (Esl : slot_read p last_slot (slot_write p last_slot s1 w1) = s1).
  { apply slot_read_write; [done | by apply last_at | | done].
    apply (program_only (regs_words step) w ltac:(lia)). by destruct Hc. }
  set (w2 := slot_write p last_slot s1 w1) in *. change DEBUG_RAM_START with (at_word 0).
  unfold regs_result in Hq. unfold regs_words in Hs, Hl.
  destruct (Z.eqb_spec step 4) as [-> | H4]; [| destruct (Z.eqb_spec step 3) as [-> | H3];
    [| destruct (Z.eqb_spec step 15) as [-> | H15]]].
  - cbn [Z.eqb Pos.eqb] in Hs, Hl, Hq. apply (reaches_le temp size p Q (S (S (S (S k))))); [lia |].
    apply (p_load temp size p Hp) with (r := 9) (j := last_slot);
      [apply context_debugging; [apply Hs | done | done] | apply Hs | done | by apply (sr_words _ _ _ _ _ Hs 0%nat) | done | by apply last_at |].
    rewrite Esl, d_set_s1. change (0 + 1) with 1.
    eapply regs_store; [exact H1 | exact Hl | exact Hs | done | done | done | done | done | done | by right | intros Hs1].
    eapply regs_store; [exact H1 | exact Hl | exact Hs1 | done | done | done | done | done | lia | by right | intros Hs2].
    eapply regs_jump; [exact H1 | exact Hs2 | done | done | done |]. by apply Hq.
  - cbn [Z.eqb Pos.eqb] in Hs, Hl, Hq.
    eapply regs_store; [exact H1 | exact Hl | exact Hs | done | done | done | done | done | done | by right | intros Hs1].
    apply (p_csrr temp size p Hp) with (r := 8) (c := CSR_DSCRATCH) (v := dscratch st);
      [apply context_debugging; [apply Hs1 | done | done] | apply Hs1 | done | by apply (sr_words _ _ _ _ _ Hs1 1%nat) | done | done | done
      | apply csr_dscratch |].
    rewrite d_set_s0. change (u64 (sext_xlen (xlen p) (dscratch st))) with (user_reg p st s1 8).
    assert (H8 : reg_ok xl (user_reg p st s1 8)) by (apply (reg_ok_sext p Hp)).
    eapply regs_store; [exact H1 | exact Hl | exact Hs1 | done | done | done | done | done | lia | by left | intros Hs2].
    eapply regs_jump; [exact H1 | exact Hs2 | done | done | done |]. by apply Hq.
  - cbn [Z.eqb Pos.eqb] in Hs, Hl, Hq. apply (reaches_le temp size p Q (S (S k))); [lia |].
    eapply regs_store; [exact H1 | exact Hl | exact Hs | done | done | done | done | done | done | by right | intros Hs1].
    eapply regs_jump; [exact H1 | exact Hs1 | done | done | done |]. by apply Hq.
  - apply (reaches_le temp size p Q (S (S (S k)))); [lia |].
    eapply regs_store; [exact H1 | exact Hl | exact Hs | done | done | done | lia | done | done | right; lia | intros Hs1].
    eapply regs_store; [exact H1 | exact Hl | exact Hs1 | done | done | done | lia | done | lia | right; lia | intros Hs2].
    eapply regs_jump; [exact H1 | exact Hs2 | done | done | done |]. by apply Hq.
Qed.

(** The registers from 0 on, as the debugger is sent them. *)
Definition regs_hex st s1 (j : nat) : list Z :=
  seq 0 j ≫= fun i => hex_le (reg_bytes xl) (user_reg p st s1 (Z.of_nat i)).
Lemma regs_hex_next st s1 j : regs_hex st s1 (S j) = regs_hex st s1 j ++ hex_le (reg_bytes xl) (user_reg p st s1 (Z.of_nat j)).
Proof using Type. unfold regs_hex. rewrite seq_S, bind_app. cbn. by rewrite app_nil_r. Qed.
Lemma length_regs_hex st s1 j : length (regs_hex st s1 j) = (j * (2 * reg_bytes xl))%nat.
Proof using Type.
  induction j as [| j IH]; [done |]. rewrite regs_hex_next, length_app, IH, length_hex_le. clear. cbn [Nat.mul]. apply Nat.add_comm.
Qed.

#[local] Abbreviation all_regs := GeneralRegistersReadOp.

(** Before step [k]: what has been sent, and the next two registers in the debug RAM. *)
Record reading (k : nat) g st s1 pl gk : Prop := {
  rg_sends : sends (text "$" ++ regs_hex st s1 (2 * k - 1)) ((g) <| operation_queue := [(all_regs, Z.of_nat k)] |>) gk;
  rg_sum : running_checksum gk = u8 (sum (regs_hex st s1 (2 * k - 1)));
  rg_data0 : gs_slot_read xl 4 pl = wrap xl (user_reg p st s1 (2 * Z.of_nat k - 1));
  rg_data1 : (k <= 15)%nat -> gs_slot_read xl data1 pl = wrap xl (user_reg p st s1 (2 * Z.of_nat k))
}.

(** What the program of a step leaves in the two slots. *)
Lemma regs_result_slots (k : nat) st s1 pl w2 : (k <= 15)%nat -> context st pl -> reg_ok xl s1 -> ram_ok w2 ->
  let pl1 := finished p 0 (regs_result (Z.of_nat k) st s1 w2) in
  gs_slot_read xl 4 pl1 = wrap xl (user_reg p st s1 (2 * Z.of_nat k + 1)) /\
  ((S k <= 15)%nat -> gs_slot_read xl data1 pl1 = wrap xl (user_reg p st s1 (2 * Z.of_nat k + 2))).
Proof using Hp.
  intros Hk Hc H1 Hw pl1. pose proof (data1_at p Hp) as Hd. pose proof (data1_range p) as [Hr H64]. pose proof (data_at_4 p) as H4.
  assert (Hk1 : reg_ok xl (user_reg p st s1 (2 * Z.of_nat k + 1))) by (apply (user_reg_ok p Hp st s1 pl); [done | done | lia]).
  set (w3 := slot_write p 4 (user_reg p st s1 (2 * Z.of_nat k + 1)) w2).
  assert (Hw3 : ram_ok w3) by (by apply slot_ok).
  assert (E : forall w, ram_ok w -> gs_slot_read xl 4 (finished p 0 w) = gs_slot_read xl 4 w /\
                        gs_slot_read xl data1 (finished p 0 w) = gs_slot_read xl data1 w).
  { intros w' Hw'. split; apply (slot_read_finished p Hp); try done; lia. }
  unfold pl1, regs_result. fold w3. destruct (Z.eqb_spec (Z.of_nat k) 15) as [Ek | Ek].
  - split; [| lia]. rewrite (proj1 (E w3 Hw3)). by apply (slot_reads p Hp).
  - assert (Hk2 : reg_ok xl (user_reg p st s1 (2 * Z.of_nat k + 2))) by (apply (user_reg_ok p Hp st s1 pl); [done | done | lia]).
    destruct (E (slot_write p data1 (user_reg p st s1 (2 * Z.of_nat k + 2)) w3)) as [-> ->]; [by apply slot_ok |]. split.
    + rewrite (gs_read_other p Hp) by (try done; lia). by apply (slot_reads p Hp).
    + intros _. by apply (slot_reads p Hp).
Qed.

(** The server's part of a step: it sends the registers of the step before. *)
Lemma regs_send (k : nat) g st s1 pl gk : (1 <= k <= 16)%nat -> reading k g st s1 pl gk -> gs_xlen g = xl ->
  can_send 516 g ->
  exists g', (v ← dr_read SLOT_DATA0; send_reg v) gk pl = inl (tt, g', pl) /\
    sends (text "$" ++ regs_hex st s1 (2 * k)) ((g) <| operation_queue := [(all_regs, Z.of_nat k)] |>) g' /\
    running_checksum g' = u8 (sum (regs_hex st s1 (2 * k))) /\ gs_xlen g' = xl.
Proof using Hp.
  intros Hk [Hs Hsum H0 _] Hx Hc.
  assert (Hxk : gs_xlen gk = xl) by (rewrite (sends_xlen _ _ _ Hs); exact Hx).
  rewrite (bind_ok _ _ _ _ _ _ _ (dr_read_ok SLOT_DATA0 gk pl ltac:(rewrite Hxk; apply (xl_cases p Hp)))).
  rewrite Hxk, (data0_word p).
  destruct (sender_send_reg p Hp _ _ pl H0 gk Hxk) as (g' & E & Hsd & C).
  { eapply (sends_room _ _ ((g) <| operation_queue := [(all_regs, Z.of_nat k)] |>)); [| exact Hs].
    destruct Hc as [Hb Hc]. split; [exact Hb |]. change (send_buf ((g) <| operation_queue := _ |>)) with (send_buf g).
    rewrite length_app, length_regs_hex, length_hex_le. unfold reg_bytes. change (length (text "$")) with 1%nat.
    destruct (xl =? 32); lia. }
  { rewrite Hsum. apply wrap_range. lia. }
  exists g'. split; [exact E |].
  assert (Er : regs_hex st s1 (2 * k) = regs_hex st s1 (2 * k - 1) ++ hex_le (reg_bytes xl) (user_reg p st s1 (2 * Z.of_nat k - 1))).
  { replace (2 * k)%nat with (S (2 * k - 1)) at 1 by lia. rewrite regs_hex_next. do 3 f_equal. lia. }
  split; [| split].
  - rewrite Er, app_assoc. by eapply sends_trans.
  - rewrite C, Hsum, Er, sum_app. unfold wrap. by rewrite Zplus_mod_idemp_l.
  - by rewrite (sends_xlen _ _ _ Hsd).
Qed.

(** A step that asks for the next two registers. *)
Lemma regs_step_asks (k : nat) g st s1 pl gk : (1 <= k <= 15)%nat -> reading k g st s1 pl gk -> gs_xlen g = xl ->
  can_send 516 g ->
  exists g', perform_step all_regs (Z.of_nat k) gk pl = inl ((false, all_regs), g', program (regs_words (Z.of_nat k)) pl) /\
    sends (text "$" ++ regs_hex st s1 (2 * k + 1)) ((g) <| operation_queue := [(all_regs, Z.of_nat k)] |>) g' /\
    running_checksum g' = u8 (sum (regs_hex st s1 (2 * k + 1))).
Proof using Hp.
  intros Hk Hrd Hx Hc. destruct (regs_send k g st s1 pl gk ltac:(lia) Hrd Hx Hc) as (g1 & E1 & S1 & C1 & Hx1).
  destruct Hrd as [_ _ _ Hd1]. specialize (Hd1 ltac:(lia)).
  destruct (sender_send_reg p Hp _ _ pl Hd1 g1 Hx1) as (g2 & E2 & S2 & C2).
  { eapply (sends_room _ _ ((g) <| operation_queue := [(all_regs, Z.of_nat k)] |>)); [| exact S1].
    destruct Hc as [Hb Hc]. split; [exact Hb |]. change (send_buf ((g) <| operation_queue := _ |>)) with (send_buf g).
    rewrite length_app, length_regs_hex, length_hex_le. unfold reg_bytes. change (length (text "$")) with 1%nat.
    destruct (xl =? 32); lia. }
  { rewrite C1. apply wrap_range. lia. }
  exists g2. assert (Er : regs_hex st s1 (2 * k + 1) = regs_hex st s1 (2 * k) ++ hex_le (reg_bytes xl) (user_reg p st s1 (2 * Z.of_nat k))).
  { replace (2 * k + 1)%nat with (S (2 * k)) by lia. rewrite regs_hex_next. do 3 f_equal. lia. }
  split; [| split].
  - unfold perform_step. erewrite bind_ok; [reflexivity |]. unfold general_registers_read_step.
    rewrite (proj2 (Z.eqb_neq _ 0)), (proj2 (Z.leb_gt 16 _)) by lia. rewrite (bind2_ok _ _ _ _ _ _ _ E1).
    rewrite (bind2_ok _ _ _ _ pl g2 pl).
    + rewrite (bind_ok _ _ _ _ _ _ _ (regs_asks (Z.of_nat k) g2 pl ltac:(lia) ltac:(by rewrite (sends_xlen _ _ _ S2)))). done.
    + rewrite (bind_ok _ _ _ _ _ _ _ (dr_read_ok SLOT_DATA1 g1 pl ltac:(rewrite Hx1; apply (xl_cases p Hp)))).
      rewrite Hx1. exact E2.
  - rewrite Er, app_assoc. by eapply sends_trans.
  - rewrite C2, C1, Er, sum_app. unfold wrap. by rewrite Zplus_mod_idemp_l.
Qed.

(** The last step ends the packet. *)
Lemma regs_step_last g st s1 pl gk : reading 16 g st s1 pl gk -> gs_xlen g = xl -> can_send 516 g ->
  exists g', perform_step all_regs 16 gk pl = inl ((true, all_regs), g', pl) /\
    sends (frame (regs_hex st s1 32)) ((g) <| operation_queue := [(all_regs, 16)] |>) g'.
Proof using Hp.
  intros Hrd Hx Hc. destruct (regs_send 16 g st s1 pl gk ltac:(lia) Hrd Hx Hc) as (g1 & E1 & S1 & C1 & Hx1).
  destruct (end_packet_ok g1 pl) as (g2 & E2 & S2 & _).
  { eapply (sends_room _ _ ((g) <| operation_queue := [(all_regs, Z.of_nat 16)] |>)); [| exact S1].
    destruct Hc as [Hb Hc]. split; [exact Hb |]. change (send_buf ((g) <| operation_queue := _ |>)) with (send_buf g).
    rewrite length_app, length_regs_hex. unfold reg_bytes. change (length (text "$")) with 1%nat. destruct (xl =? 32); lia. }
  exists g2. split.
  - unfold perform_step. erewrite bind_ok; [reflexivity |]. unfold general_registers_read_step.
    change (16 =? 0) with false. change (16 <=? 16) with true. cbn iota. rewrite (bind2_ok _ _ _ _ _ _ _ E1).
    by rewrite (bind_ok _ _ _ _ _ _ _ E2).
  - rewrite C1 in S2. pose proof (sends_trans _ _ _ _ _ S1 S2) as Hs. unfold frame. by rewrite <- app_assoc in Hs.
Qed.

Section served.
Context (fuel : nat) (n : Z).
Hypothesis (Hn : 0 < n < 2 ^ 64) (Hfuel : 2 * n + 1 <= Z.of_nat fuel).

(** A debugger that asks a hart in debug mode for a general register gets the answer: within 30
    rounds the server has had the hart run its program and has sent the register, and the hart
    waits as before, with its registers and memory unchanged.  In s0 the program finds misa. *)
Theorem register_read_served g m st s1 mm pl r :
  waiting m st s1 mm pl -> gs_xlen g = xl -> can_send 20 g ->
  operation_queue g = [(RegisterReadOp r, 0)] -> 0 <= r < 32 ->
  served temp size p fuel n 30 g m pl (frame (hex_le (reg_bytes xl) (program_reg st s1 r))) st s1 mm.
Proof using Hp Hisa Hid Hn Hfuel.
  intros Hw Hx Hc Hq Hr. pose proof (waiting_ram temp size p _ _ _ _ _ Hw) as Hram. pose proof Hw as ([Hcx H1 Hh Hidle] & _).
  pose proof (program_only (read_words_of r) pl ltac:(done) Hram) as Hwo. set (w := program (read_words_of r) pl) in *.
  set (pl' := slot_write p 4 (program_reg st s1 r) (slot_write p last_slot s1 w)).
  assert (Hro : only_ram (set_interrupt 0 pl) pl').
  { apply only_slot; [done | done |]. apply only_slot; [done | by apply last_at | done]. }
  apply (two_steps temp size p Hp Hisa Hid fuel n Hn Hfuel (RegisterReadOp r) (RegisterReadOp r) (RegisterReadOp r) g g m st s1 mm pl w 2 false st mm s1 s1 pl');
    try done.
  - by apply register_read_asks.
  - by apply register_read_runs.
  - by apply (only_context p st pl).
  - apply last_saved; try done; apply Hwo.
  - cbv zeta. apply register_read_answers; [done | exact Hc | by rewrite (flag_read p) by apply Hro |].
    rewrite (slot_read_finished p Hp); [| done | apply Hro | done | done].
    apply (slot_reads p Hp); [done | | by apply (program_reg_ok st s1 pl)]. apply slot_ok; [done | by apply last_at | apply Hwo].
Qed.


(** A round of the loop: the next two registers. *)
Lemma regs_exchange (k : nat) g st s1 mm pl gk mk w : (k <= 15)%nat ->
  waiting mk st s1 mm pl -> operation_queue gk <> [] ->
  (exists g', perform_step all_regs (Z.of_nat k) gk pl = inl ((false, all_regs), g', program (regs_words (Z.of_nat k)) pl) /\
     operation_queue gk = [(all_regs, Z.of_nat k)] /\
     sends (text "$" ++ regs_hex st s1 (2 * k + 1)) ((g) <| operation_queue := [(all_regs, Z.of_nat k)] |>) g' /\
     running_checksum g' = u8 (sum (regs_hex st s1 (2 * k + 1)))) ->
  w = program (regs_words (Z.of_nat k)) pl ->
  exists i m' g' pl', (i <= 32)%nat /\ waiting m' st s1 mm pl' /\ only_ram pl pl' /\ reading (S k) g st s1 pl' g' /\
    forall r, serve (i + r) fuel n gk mk = serve r fuel n g' m'.
Proof using Hp Hisa Hid Hn Hfuel.
  intros Hk Hw Hq (g1 & E1 & Eq & S1 & C1) Ew. pose proof (waiting_ram temp size p _ _ _ _ _ Hw) as Hram.
  pose proof Hw as ([Hcx H1 Hh Hidle] & _). pose proof (regs_words_length (Z.of_nat k)) as Hl.
  pose proof (program_only (regs_words (Z.of_nat k)) pl ltac:(lia) Hram) as Hwo. rewrite <- Ew in Hwo.
  set (w2 := slot_write p last_slot s1 w).
  assert (Hw2 : ram_ok w2) by (apply slot_ok; [done | by apply last_at | apply Hwo]).
  set (pl' := regs_result (Z.of_nat k) st s1 w2).
  assert (Hro : only_ram (set_interrupt 0 pl) pl').
  { pose proof (only_slot p Hp last_slot s1 _ w (last_at p Hp) Hwo) as H2. fold w2 in H2.
    unfold pl', regs_result. destruct (_ =? 15); repeat (apply only_slot; [done | first [apply (data1_at p Hp) | done] |]); done. }
  set (g2 := (g1) <| operation_queue := [(all_regs, Z.of_nat (S k))] |>).
  assert (Es : step_operation gk pl = inl (tt, g2, w)).
  { rewrite Ew. pose proof (step_operation_ok all_regs all_regs (Z.of_nat k) [] false gk g1 pl _ Eq
      ltac:(by rewrite (sends_queue_same _ _ _ S1)) E1) as E. cbn iota in E.
    replace (Z.of_nat k + 1) with (Z.of_nat (S k)) in E by lia. exact E. }
  assert (Hlast : slot_read p last_slot pl' = s1).
  { pose proof (data1_at p Hp) as Hd. pose proof (data1_range p) as [Hdr H64]. unfold pl', regs_result.
    assert (E4 : forall v, slot_read p last_slot (slot_write p 4 v w2) = s1) by (intros v; apply last_saved; try done; apply Hwo).
    destruct (_ =? 15); [done |]. rewrite slot_read_other; [apply E4 | done | by apply last_at | done | by apply slot_ok | ..].
    - destruct (last_low p 13); lia.
    - intros Ex. destruct (last_low p 13 ltac:(lia)). specialize (H64 Ex). lia. }
  destruct (exchange temp size p Hp Hisa Hid fuel n Hn Hfuel mk st s1 mm pl gk g2 w 5 false st mm s1 pl')
    as (i & m' & Hi & Hw' & Hs);
    [done | done | done | exact Es | by apply only_bus | apply Hwo | by apply (only_asked p Hid pl)
    | rewrite Ew; unfold pl', w2; rewrite Ew; apply regs_run; [lia | done | done] | by apply (only_context p st pl) | done | done
    | by apply (only_asked p Hid pl) |].
  exists i, m', g2, (finished p (result false) pl'). rewrite Hlast in Hw'.
  split; [lia |]. split; [done |]. split; [by apply only_finished |]. split; [| done].
  destruct (regs_result_slots k st s1 pl w2 Hk Hcx H1 Hw2) as [Hv0 Hv1].
  split.
  - replace (2 * S k - 1)%nat with (2 * k + 1)%nat by lia. apply (sends_queue _ _ _ [(all_regs, Z.of_nat (S k))]) in S1. exact S1.
  - replace (2 * S k - 1)%nat with (2 * k + 1)%nat by lia. exact C1.
  - replace (2 * Z.of_nat (S k) - 1) with (2 * Z.of_nat k + 1) by lia. exact Hv0.
  - intros Hk'. replace (2 * Z.of_nat (S k)) with (2 * Z.of_nat k + 2) by lia. by apply Hv1.
Qed.

Lemma regs_rest (j : nat) g st s1 mm pl0 pl gk mk : (j <= 15)%nat ->
  waiting mk st s1 mm pl -> only_ram pl0 pl -> reading (16 - j) g st s1 pl gk -> gs_xlen g = xl -> can_send 516 g ->
  exists g' m' pl', serve (j * 32 + 1) fuel n gk mk = Some (g', m') /\
    sends (frame (regs_hex st s1 32)) ((g) <| operation_queue := [] |>) g' /\ waiting m' st s1 mm pl' /\ only_ram pl0 pl'.
Proof using Hp Hisa Hid Hn Hfuel.
  revert pl gk mk. induction j as [| j IH]; intros pl gk mk Hj Hw Ho Hrd Hx Hc.
  - destruct (regs_step_last g st s1 pl gk Hrd Hx Hc) as (g1 & E1 & S1).
    pose proof (sends_queue_same _ _ _ (rg_sends _ _ _ _ _ _ Hrd)) as Hq.
    destruct (server_alone temp size p Hp Hid fuel n Hn Hfuel mk st s1 mm pl gk ((g1) <| operation_queue := [] |>) Hw)
      as (m1 & Hw1 & Hs1); [by rewrite Hq | |].
    { apply (step_operation_ok all_regs all_regs 16 [] true gk g1 pl pl Hq); [| exact E1].
      by rewrite (sends_queue_same _ _ _ S1). }
    exists ((g1) <| operation_queue := [] |>), m1, pl. split; [exact (eq_trans (Hs1 0%nat) eq_refl) |]. split; [| done].
    apply (sends_queue _ _ _ []) in S1. exact S1.
  - pose proof (sends_queue_same _ _ _ (rg_sends _ _ _ _ _ _ Hrd)) as Hq.
    set (k := (16 - S j)%nat) in *. destruct (regs_step_asks k g st s1 pl gk ltac:(lia) Hrd Hx Hc) as (g1 & E1 & S1 & C1).
    destruct (regs_exchange k g st s1 mm pl gk mk _ ltac:(lia) Hw ltac:(by rewrite Hq)
                ltac:(exists g1; split; [exact E1 | split; [exact Hq | split; [exact S1 | exact C1]]]) eq_refl)
      as (i & m1 & g2 & pl1 & Hi & Hw1 & Ho1 & Hrd1 & Hs1).
    destruct (IH pl1 g2 m1 ltac:(lia) Hw1 ltac:(by apply (only_trans pl0 pl)) ltac:(by replace (16 - j)%nat with (S k) by lia) Hx Hc)
      as (g' & m' & pl' & E & Hrest).
    exists g', m', pl'. split; [| done]. apply (serve_more temp p fuel n (i + (j * 32 + 1))); [lia |]. by rewrite Hs1.
Qed.

End served.
End registers.

(** a0 of the target is 110. *)
Lemma register_read_served_witness :
  served 0 0x1000 target_proc 23 11 30 (asked_for (RegisterReadOp 10)) target target_devices
    (text "$6e00000000000000#3b") target_state 109 target_memory.
Proof.
  assert (E : frame (hex_le (reg_bytes 64) (program_reg target_proc target_state 109 10)) = text "$6e00000000000000#3b")
    by (by vm_compute).
  rewrite <- E. apply (register_read_served 0 0x1000 target_proc target_proc_wf);
    [done | done | done | lia | apply target_waiting | done | by apply asked_for_sends | done | lia].
Defined.

