(* ===== verification/DebugMem.v ===== *)
(** Reading and writing memory with the debugger, from end to end: gdbserver.cc's operations,
    the program that makes an access, run again for each, and the answers. *)
From Stdlib Require Import Ascii String.
From S2P Require Import Prelude SoftPrim Encoding Decode Decoder Machine Csr Isa CsrProps Mmu Tlb Insns.
From S2P Require Import Safe InsnProps FetchProps Alu Control Step StepProps OrdMap Devices GdbAsm.
From S2P Require Import RingBuffer Gdb GdbOps GdbServer GdbProps DebugMode DebugInsn DebugRam DebugRom DebugProg DebugRun DebugOps.


Lemma translate_unmapped a g w : virtual_memory g = VM_MBARE -> translate a g w = inl (a, g, w).
Proof. intros Hv. unfold translate, mbind, G_bind, get_gs. by rewrite Hv. Qed.

(** The accesses the server chooses. *)
Definition access (len : Z) : Prop := len = 1 \/ len = 4 \/ len = 8.
Lemma access_len_ok len : access len -> len_ok len.
Proof. unfold access, len_ok. tauto. Qed.

Lemma find_access a l xl : 0 <= a -> 0 < l < 2 ^ 31 -> xl = 32 \/ xl = 64 ->
  let len := find_access_size a l xl in
  access len /\ (len = 8 -> xl = 64) /\ a mod len = 0 /\ l mod len = 0.
Proof.
  intros Ha Hl Hx. cbv zeta. unfold find_access_size. rewrite (sext_small 32 l), (wrap_small 64 l) by lia.
  assert ((a .| l) .& 7 = (a .| l) mod 2 ^ 3) as -> by (change 7 with (2 ^ 3 - 1); by apply land_mask).
  assert ((a .| l) .& 3 = (a .| l) mod 2 ^ 2) as -> by (change 3 with (2 ^ 2 - 1); by apply land_mask).
  assert (G : forall n, 0 <= n -> (a .| l) mod 2 ^ n = 0 -> a mod 2 ^ n = 0 /\ l mod 2 ^ n = 0).
  { intros n Hn E. rewrite <- !Z.land_ones in * by lia. rewrite Z.land_lor_distr_l in E. by apply Z.lor_eq_0_iff in E. }
  destruct (Z.eqb_spec ((a .| l) mod 2 ^ 3) 0) as [E | E]; cbn [andb].
  - destruct (Z.leb_spec 64 xl).
    + destruct (G 3 ltac:(lia) E). unfold access. repeat split; try done; lia.
    + assert (E2 : (a .| l) mod 2 ^ 2 = 0) by (change (2 ^ 3) with 8 in E; change (2 ^ 2) with 4; Z.div_mod_to_equations; lia).
      rewrite E2. cbn [Z.eqb]. destruct (G 2 ltac:(lia) E2). unfold access. repeat split; try done; lia.
  - destruct (Z.eqb_spec ((a .| l) mod 2 ^ 2) 0) as [E2 | E2].
    + destruct (G 2 ltac:(lia) E2). unfold access. repeat split; try done; lia.
    + unfold access. repeat split; try apply Z.mod_1_r; lia.
Qed.

(** The instruction for an access. *)
Record loads (gen : Z -> Z -> Z -> Z) (f : insn_func) (len : Z) : Prop := Loads {
  ld_gen : (gen, f) ∈ i_generators;
  ld_len : load_of f = Some len;
  ld_wide : wide f = true
}.
Record stores (gen : Z -> Z -> Z -> Z) (f : insn_func) (len : Z) : Prop := Stores {
  so_gen : (gen, f) ∈ s_generators;
  so_len : store_of f = Some len;
  so_wide : wide f = true
}.
Lemma load_insn_of len : access len ->
  exists gen f, load_insn len S1 S0 0 = Some (gen 9 8 0) /\ loads gen f len.
Proof.
  intros [-> | [-> | ->]].
  - exists Asm.lb, rv_lb. split; [done |]. split; [repeat constructor | done | by vm_compute].
  - exists Asm.lw, rv_lw. split; [done |]. split; [repeat constructor | done | by vm_compute].
  - exists Asm.ld, rv_ld. split; [done |]. split; [repeat constructor | done | by vm_compute].
Qed.
Lemma store_insn_of len : access len ->
  exists gen f, store_insn len S1 S0 0 = Some (gen 9 8 0) /\ stores gen f len.
Proof.
  intros [-> | [-> | ->]].
  - exists Asm.sb, rv_sb. split; [done |]. split; [repeat constructor | done | by vm_compute].
  - exists Asm.sw, rv_sw. split; [done |]. split; [repeat constructor | done | by vm_compute].
  - exists Asm.sd, rv_sd. split; [done |]. split; [repeat constructor | done | by vm_compute].
Qed.

(** Bytes in memory. *)
Lemma length_read_bytes mm a n : length (read_bytes mm a n) = n.
Proof. revert a. induction n as [| n IH]; intros a; [done |]. cbn. by rewrite IH. Qed.
Lemma read_bytes_app mm a i j : read_bytes mm a (i + j) = read_bytes mm a i ++ read_bytes mm (a + Z.of_nat i) j.
Proof.
  revert a. induction i as [| i IH]; intros a; [by rewrite Z.add_0_r |]. cbn [Nat.add read_bytes app]. rewrite IH.
  do 2 f_equal. f_equal. lia.
Qed.
Lemma bytes_of_to bs : Forall (in_range 8) bs -> bytes_of (length bs) (bytes_to bs) = bs.
Proof.
  induction 1 as [| b bs Hb Hbs IH]; [done |]. cbn [length bytes_of bytes_to]. unfold in_range in Hb.
  pose proof (bytes_to_range bs Hbs) as Hr. unfold in_range in Hr.
  assert (E : b .| (bytes_to bs .<< 8) = bytes_to bs * 2 ^ 8 + b).
  { rewrite shl_mul, Z.lor_comm by lia. apply (lor_add _ _ 8); [lia | by apply Z.mod_mul | lia]. }
  rewrite E. f_equal.
  - unfold wrap. rewrite Z.add_comm, Z.mod_add by lia. by apply Z.mod_small.
  - rewrite shr_div, Z.div_add_l, (Z.div_small b), Z.add_0_r by lia. exact IH.
Qed.

Lemma insn_fits gen f : (gen, f) ∈ i_generators -> u32 (gen 9 8 0) = gen 9 8 0.
Proof.
  intros Hg. destruct (i_encodes gen f 9 8 0 Hg ltac:(lia) ltac:(lia) ltac:(lia)) as [[Hr _] _]. by apply wrap_small.
Qed.
Lemma s_insn_fits gen f : (gen, f) ∈ s_generators -> u32 (gen 9 8 0) = gen 9 8 0.
Proof.
  intros Hg. destruct (s_encodes gen f 9 8 0 Hg ltac:(lia) ltac:(lia) ltac:(lia)) as [[Hr _] _]. by apply wrap_small.
Qed.

(** What writes to memory leave, in pieces. *)
Lemma write_bytes_insert mm a a' b bs : a < a' -> write_bytes (<[a:=b]> mm) a' bs = <[a:=b]> (write_bytes mm a' bs).
Proof.
  revert a'. induction bs as [| c bs IH]; intros a' Ha; [done |]. cbn [write_bytes]. rewrite IH by lia.
  apply insert_insert_ne. lia.
Qed.
Lemma write_bytes_app mm a x y : write_bytes mm a (x ++ y) = write_bytes (write_bytes mm a x) (a + Z.of_nat (length x)) y.
Proof.
  revert a. induction x as [| b x IH]; intros a; [by rewrite Z.add_0_r |]. cbn [app write_bytes length]. rewrite IH.
  rewrite write_bytes_insert by lia. do 2 f_equal. lia.
Qed.

Lemma data_word_ok k data i g w : 0 <= i -> i + Z.of_nat k <= Z.of_nat (length data) ->
  data_word k data i g w = inl (bytes_to (take k (drop (Z.to_nat i) data)), g, w).
Proof.
  revert i. induction k as [| k IH]; intros i Hi Hl; [by rewrite take_0 |].
  destruct (lookup_lt_is_Some_2 data (Z.to_nat i) ltac:(lia)) as [b Hb].
  cbn [data_word]. unfold data_at at 1. rewrite Hb. cbn [of_option].
  rewrite (bind_ok (mret b) _ g w b g w) by done. rewrite (bind_ok _ _ _ _ _ _ _ (IH (i + 1) ltac:(lia) ltac:(lia))).
  unfold mret, G_ret. do 3 f_equal. rewrite (drop_S data b (Z.to_nat i) Hb). cbn [take firstn bytes_to].
  by replace (Z.to_nat (i + 1)) with (S (Z.to_nat i)) by lia.
Qed.

Lemma holds_write ws i v w : holds ws w -> Z.of_nat (length ws) <= i < 16 -> ram_ok w -> holds ws (ram_write32 i v w).
Proof.
  intros Hw Hi Hr j x Hj. pose proof (lookup_lt_Some _ _ _ Hj). rewrite read_write by (done || lia).
  rewrite (proj2 (Z.eqb_neq _ i)) by lia. by apply Hw.
Qed.
Lemma holds_snoc ws i x w : holds ws w -> i = Z.of_nat (length ws) -> i < 16 -> u32 x = x -> ram_ok w ->
  holds (ws ++ [x]) (ram_write32 i x w).
Proof.
  intros Hw -> Hi Hx Hr j y Hj. destruct (decide (j < length ws)%nat) as [Hl | Hl].
  - rewrite lookup_app_l in Hj by done. rewrite read_write by (done || lia).
    rewrite (proj2 (Z.eqb_neq _ _)) by lia. by apply Hw.
  - pose proof (lookup_lt_Some _ _ _ Hj) as Hj'. rewrite length_app in Hj'. cbn in Hj'. assert (j = length ws) as -> by lia.
    rewrite lookup_app_r, Nat.sub_diag in Hj by done. injection Hj as <-. rewrite read_write by (done || lia). by rewrite Z.eqb_refl.
Qed.

(** A length that the access divides is a number of accesses. *)
Lemma accesses l len : 0 < l -> 0 < len -> l mod len = 0 -> exists c, l = Z.of_nat (S c) * len.
Proof.
  intros Hl Hlen E0. exists (Z.to_nat (l / len - 1)). pose proof (Z.div_mod l len ltac:(lia)) as E. rewrite E0 in E.
  assert (0 < l / len) by (apply Z.div_str_pos; split; [lia |]; apply Z.divide_pos_le; [lia |]; by apply Z.mod_divide; [lia |]).
  rewrite Nat2Z.inj_succ, Z2Nat.id by lia. lia.
Qed.

Section memory.
Context (temp size : Z) (p : processor_t).
#[local] Instance platform_memory : Platform platform := sim_platform temp.
#[local] Abbreviation xl := (xlen p).
Hypothesis Hp : wf_proc p.
Hypothesis Hisa : Z.testbit (isa p) (xl - 1) = (xl =? 64).
Hypothesis Hid : id p = 0.
Hypothesis Hsize : 0 <= size /\ DRAM_BASE + size < 2 ^ xl.
Implicit Types (m : machine platform) (d : dbg) (g : gdbserver_t).

#[local] Abbreviation serve := (DebugRun.serve temp).
#[local] Abbreviation waiting := (DebugRun.waiting temp size p).
#[local] Abbreviation context := (DebugRom.context p).
#[local] Abbreviation reaches := (DebugMode.reaches temp size p).
#[local] Abbreviation last_slot := (DebugRom.last_slot p).
#[local] Abbreviation starts := (DebugOps.starts p).
#[local] Abbreviation data1 := (DebugOps.data1 p).

(** ** Addresses *)

(** [l] bytes of the memory, from [a] on. *)
Definition in_memory (a l : Z) : Prop := DRAM_BASE <= a /\ a + l <= DRAM_BASE + size.

(** The register that holds the address [a]. *)
Definition address_reg (a : Z) : Z := u64 (sext_xlen xl a).

Lemma xl_pow : xl = 32 \/ xl = 64.
Proof using Hp. apply (xl_cases p Hp). Qed.

Lemma memory_address a l : in_memory a l -> 0 < l ->
  in_range 64 a /\ wrap xl (address_reg a) = a /\ d_is_mem size (wrap xl (address_reg a)) = true.
Proof using Hp Hsize.
  intros [Hb He] Hl. change DRAM_BASE with 0x80000000 in *.
  assert (Hr : in_range xl a) by (unfold in_range; lia).
  assert (Hr64 : 2 ^ xl <= 2 ^ 64) by (apply Z.pow_le_mono_r; [lia |]; destruct xl_pow; lia).
  assert (E : wrap xl (address_reg a) = a).
  { unfold address_reg. rewrite wrap_narrow by (destruct xl_pow; lia). rewrite sext_xlen_spec by (destruct xl_pow; lia).
    rewrite wrap_sext by (destruct xl_pow; lia). by apply wrap_small. }
  split; [unfold in_range in *; lia |]. split; [done |]. rewrite E. unfold d_is_mem. change DRAM_BASE with 0x80000000.
  rewrite (wrap_small 64) by lia. rewrite (proj2 (Z.leb_le _ _)), (proj2 (Z.ltb_lt _ _)) by lia. done.
Qed.

Lemma address_aligned a len : access len -> (address_reg a) mod len = a mod len.
Proof using Hp.
  intros Hl. assert (exists k, 0 <= k <= 3 /\ len = 2 ^ k) as (k & Hk & ->).
  { destruct Hl as [-> | [-> | ->]]; [exists 0 | exists 2 | exists 3]; split; try done; lia. }
  change (wrap k (address_reg a) = wrap k a). unfold address_reg. rewrite wrap_narrow by lia.
  rewrite sext_xlen_spec by (destruct xl_pow; lia).
  rewrite <- (wrap_narrow k xl) by (destruct xl_pow; lia). rewrite wrap_sext by (destruct xl_pow; lia).
  rewrite !wrap_narrow by (destruct xl_pow; lia). done.
Qed.
Lemma address_reg_ok a : reg_ok xl (address_reg a).
Proof using Hp. apply (reg_ok_sext p Hp). Qed.

(** The server gives the hart an address. *)
Lemma read_address a w : ram_ok w -> slot_read p 4 (gs_slot xl 4 a w) = address_reg a.
Proof using Hp.
  intros Hw. unfold slot_read, gs_slot, address_reg. destruct xl_pow as [E | E]; rewrite E; cbn [Z.eqb Pos.eqb].
  - rewrite read_write by done. cbn [Z.eqb Pos.eqb]. rewrite sext_wrap by done. by rewrite sext_xlen_spec.
  - rewrite !read_write by (done || by apply write_ram_ok). cbn [Z.eqb Pos.eqb]. rewrite sext_xlen_spec by lia.
    rewrite wrap_sext by lia. rewrite shr_div by lia. unfold wrap. change (2 ^ 64) with (2 ^ 32 * 2 ^ 32).
    by rewrite Z.rem_mul_r by done.
Qed.
Lemma gs_slot_only i a pl w : slot_at p i -> only_ram pl w -> only_ram pl (gs_slot xl i a w).
Proof using Hp. intros Hi. exact (only_slot p Hp i a pl w Hi). Qed.
Lemma gs_slot_holds ws i a w : holds ws w -> slot_at p i -> Z.of_nat (length ws) <= i -> ram_ok w -> holds ws (gs_slot xl i a w).
Proof using Hp. intros. exact (holds_slot p Hp ws i a w ltac:(done) ltac:(done) ltac:(done) ltac:(done)). Qed.

(** ** The program of a read *)

Definition read_words (access : Z) : list Z :=
  [load_word_at xl 8 4; default 0 (load_insn access S1 S0 0); store_word_at xl 9 data1; jump_word 3].

(** The debugger has put the program and an address in the debug RAM, and asks for a run. *)
Record prepared (ws : list Z) (a : Z) (pl w : platform) : Prop := {
  pr_holds : holds ws w;
  pr_only : only_ram (set_interrupt 0 pl) w;
  pr_address : slot_read p 4 w = address_reg a
}.

Lemma prepared_starts ws a pl w st s1 : prepared ws a pl w -> context st pl -> Z.of_nat (length ws) <= 4 -> reg_ok xl s1 ->
  starts ws st pl (slot_write p last_slot s1 w) /\
  slot_read p 4 (slot_write p last_slot s1 w) = address_reg a /\
  slot_read p last_slot (slot_write p last_slot s1 w) = s1.
Proof using Hp Hid.
  intros [Hh Ho Ha] Hc Hl H1. assert (Hw : ram_ok w) by apply Ho. pose proof (last_at p Hp) as Hla.
  pose proof (last_low p 13 ltac:(lia)) as Hll.
  split; [split | split].
  - apply context_slot; [done | | done]. by apply (only_context p st pl).
  - rewrite asked_slot. by apply (only_asked p Hid pl).
  - apply holds_slot; [done | done | done | lia | done].
  - by apply slot_ok.
  - by apply only_slot.
  - rewrite slot_read_other; [done | done | done | done | done | lia | lia].
  - by apply slot_read_write.
Qed.

Lemma read_runs len a v st mm s1 pl w : access len -> (len = 8 -> xl = 64) -> prepared (read_words len) a pl w ->
  context st pl -> reg_ok xl s1 ->
  (forall a0 s0 s1 ser pl, d_load size p true len (address_reg a) (Dbg a0 s0 s1 ser st mm pl) = inl v) -> reg_ok xl (u64 v) ->
  program_runs temp size p 4 st mm s1 w false st mm (u64 v)
    (slot_write p data1 (u64 v) (slot_write p last_slot s1 w)).
Proof using Hp Hid.
  intros Hac H8 Hpr Hc H1 Hv Hok Q k Hq.
  destruct (prepared_starts _ a pl w st s1 Hpr Hc ltac:(done) H1) as (Hs & Ea & _).
  set (w2 := slot_write p last_slot s1 w) in *. assert (Hm : reg_ok xl (misa_word p)) by (by apply misa_word_ok).
  destruct (load_insn_of len Hac) as (gen & f & Eg & Hg).
  pose proof (data1_at p Hp) as Hd. pose proof (data1_range p) as [Hdr _].
  assert (Hra : reg_ok xl (address_reg a)) by apply address_reg_ok.
  change DEBUG_RAM_START with (at_word 0).
  apply (p_load temp size p Hp) with (r := 8) (j := 4);
    [apply context_debugging; [apply Hs | done | done] | apply Hs | done | by apply (sr_words _ _ _ _ _ Hs 0%nat) | done | done |].
  rewrite Ea, d_set_s0. change (0 + 1) with 1.
  eapply (p_mem_load temp size p Hp) with (gen := gen) (f := f) (len := len) (v := v);
    [apply context_debugging; [apply Hs | done | done] | apply Hs | done | | apply Hg | apply Hg | done | apply Hg | apply Hv | done |].
  { apply (sr_words _ _ _ _ _ Hs 1%nat). unfold read_words. by rewrite Eg. }
  change (1 + 1) with 2.
  apply (p_store temp size p Hp) with (r := 9) (j := data1);
    [apply context_debugging; [apply Hs | done | done] | apply Hs | done | by apply (sr_words _ _ _ _ _ Hs 2%nat) | done | done |].
  change (d_reg _ 9) with (u64 v). change (2 + 1) with 3.
  assert (Hs3 : starts (read_words len) st pl (slot_write p data1 (u64 v) w2)) by (apply starts_slot; [done | done | done | cbn; lia]).
  apply (p_jump temp size p Hp);
    [apply context_debugging; [apply Hs3 | done | done] | apply Hs3 | done | by apply (sr_words _ _ _ _ _ Hs3 3%nat) | by apply Hq].
Qed.

(** ** The server's part *)

(** A program and the address for it. *)
Lemma prepares ws a pl w : ram_ok pl -> only_ram pl w -> holds ws w -> Z.of_nat (length ws) <= 4 ->
  prepared ws a pl (set_interrupt 0 (gs_slot xl 4 a w)).
Proof using Hp.
  intros Hpl Ho Hh Hl. assert (Hw : ram_ok w) by apply Ho. split.
  - change (holds ws (gs_slot xl 4 a w)). by apply gs_slot_holds.
  - apply only_set. by apply gs_slot_only.
  - change (slot_read p 4 (gs_slot xl 4 a w) = address_reg a). by apply read_address.
Qed.
Lemma write_words_holds ws w : Z.of_nat (length ws) <= 16 -> Forall (fun x => u32 x = x) ws -> ram_ok w ->
  holds ws (write_words 0 ws w).
Proof using Type. exact (holds_program ws w). Qed.

Lemma read_words_fit len : access len -> Forall (fun x => u32 x = x) (read_words len).
Proof using Type.
  intros Hac. destruct (load_insn_of len Hac) as (gen & f & Eg & Hg). unfold read_words. rewrite Eg.
  pose proof (data1_range p) as [Hdr _]. repeat first [apply Forall_nil_2 | apply Forall_cons_2].
  - by apply load_word_fits.
  - apply (insn_fits gen f), Hg.
  - apply store_word_fits; lia.
  - by apply jump_word_fits.
Qed.

Lemma memory_read_starts vaddr length g pl : gs_xlen g = xl -> virtual_memory g = VM_MBARE -> 0 <= vaddr ->
  0 < length < 2 ^ 31 -> ram_ok pl ->
  let len := find_access_size vaddr length xl in
  exists w, memory_read_step 0 (new_memory_read vaddr length None) g pl
    = inl ((false, MemoryRead vaddr length None vaddr len length []), g, w) /\ prepared (read_words len) vaddr pl w.
Proof using Hp.
  intros Hx Hv Ha Hl Hpl len. destruct (find_access vaddr length xl Ha Hl xl_pow) as (Hac & _). fold len in Hac.
  destruct (load_insn_of len Hac) as (gen & f & Eg & Hg).
  assert (Hwx : wide_xlen (gs_xlen g)) by (rewrite Hx; apply xl_pow).
  exists (set_interrupt 0 (gs_slot xl 4 vaddr (write_words 0 (read_words len) pl))). split.
  - unfold memory_read_step. cbn [Z.eqb]. unfold new_memory_read. cbn [mr_vaddr mr_length mr_data mr_capacity mr_buf].
    rewrite (bind_ok _ _ _ _ _ _ _ (translate_unmapped vaddr g pl Hv)).
    rewrite (bind_ok (get_gs gs_xlen) _ g pl xl g pl) by (by rewrite <- Hx). cbv zeta.
    rewrite (wrap_small 32 length) by lia. fold len. rewrite Eg. writes.
    rewrite (bind_ok _ _ _ _ _ _ _ (dr_write_ok SLOT_DATA0 vaddr g _ Hwx)). rewrite Hx, data0_word.
    unfold gs_set_interrupt, Gdb.set_devices, mbind, G_bind, mret, G_ret. unfold read_words. by rewrite Eg.
  - apply prepares; [done | apply write_words_only; [done | done | by apply only_refl] | | done].
    apply write_words_holds; [done | by apply read_words_fit | done].
Qed.

Lemma store_value_ok k v r g w : mr_data r = None -> Z.of_nat (length (mr_buf r)) + Z.of_nat k <= mr_capacity r ->
  store_value k v r g w =
  inl (MemoryRead (mr_vaddr r) (mr_length r) None (mr_paddr r) (mr_access_size r) (mr_capacity r) (mr_buf r ++ bytes_of k v), g, w).
Proof using Type.
  revert v r. induction k as [| k IH]; intros v r Hd Hc.
  - cbn [store_value bytes_of]. rewrite app_nil_r. rewrite <- Hd. by destruct r.
  - cbn [store_value]. rewrite Hd, (proj2 (Z.ltb_lt _ _)) by (clear - Hc; lia).
    unfold mbind at 1, G_bind at 1, mret at 1, G_ret at 1. rewrite IH.
    + cbn [mr_vaddr mr_length mr_paddr mr_access_size mr_capacity mr_buf bytes_of]. rewrite <- app_assoc. do 6 f_equal.
      cbn [app]. f_equal. change 0xff with (2 ^ 8 - 1). by apply land_mask.
    + done.
    + cbn [mr_buf mr_capacity]. rewrite length_app. cbn [length]. clear - Hc. lia.
Qed.

Lemma sender_buffer buf w : sender xl (buf ≫= hex2) (send_buffer buf) w.
Proof using Type.
  induction buf as [| b buf IH].
  - intros g _ Hc Hr. exists g. split; [done |]. split; [| cbn; rewrite Z.add_0_r; symmetry; by apply wrap_small].
    destruct Hc as [Hb _]. split; [by destruct g | done | by rewrite app_nil_r | done].
  - rewrite bind_cons. cbn [send_buffer]. apply (sender_bind xl (hex2 b) (buf ≫= hex2)); [apply sender_send | done].
Qed.
Lemma length_hex_bytes (buf : list Z) : length (buf ≫= hex2) = (2 * length buf)%nat.
Proof using Type. induction buf as [| b buf IH]; [done |]. cbn. rewrite IH. clear. lia. Qed.

(** What a step of a read finds: the bytes at [a]. *)
Record fetched (mm : gmap Z Z) (len a : Z) (pl : platform) : Prop := {
  ft_holds : holds (read_words len) pl;
  ft_flag : ram_read32 15 pl = 0;
  ft_bytes : bytes_of (Z.to_nat len) (gs_slot_read xl data1 pl) = read_bytes mm a (Z.to_nat len)
}.

(** The server takes the bytes, and asks for the next, or sends all of them. *)
Lemma memory_read_more step r mm pl a g : 0 < step -> gs_xlen g = xl -> ram_ok pl -> access (mr_access_size r) ->
  fetched mm (mr_access_size r) a pl -> mr_data r = None ->
  Z.of_nat (length (mr_buf r)) + mr_access_size r <= mr_capacity r ->
  mr_access_size r < mr_length r < 2 ^ 31 -> in_range 64 (mr_paddr r + mr_access_size r) ->
  exists w, memory_read_step step r g pl
    = inl ((false, MemoryRead (mr_vaddr r) (mr_length r - mr_access_size r) None (mr_paddr r + mr_access_size r)
                     (mr_access_size r) (mr_capacity r) (mr_buf r ++ read_bytes mm a (Z.to_nat (mr_access_size r)))), g, w) /\
    prepared (read_words (mr_access_size r)) (mr_paddr r + mr_access_size r) pl w.
Proof using Hp.
  intros Hst Hx Hpl Hac [Hh Hfl Hb] Hd Hc Hl Hpa. assert (Hwx : wide_xlen (gs_xlen g)) by (rewrite Hx; apply xl_pow).
  assert (Ha : 0 < mr_access_size r <= 8) by (destruct Hac as [-> | [-> | ->]]; lia).
  exists (set_interrupt 0 (gs_slot xl 4 (mr_paddr r + mr_access_size r) pl)). split; [| by apply prepares; [| apply only_refl | |]].
  unfold memory_read_step. rewrite (proj2 (Z.eqb_neq step 0)) by lia.
  rewrite (bind_ok read_exception _ g pl 0 g pl) by (rewrite <- Hfl; reflexivity). cbn [z2b Z.eqb negb].
  rewrite (bind_ok _ _ _ _ _ _ _ (dr_read_ok SLOT_DATA1 g pl Hwx)). rewrite Hx.
  rewrite (bind_ok _ _ _ _ _ _ _ (store_value_ok (Z.to_nat (mr_access_size r)) (gs_slot_read xl (slot_word xl SLOT_DATA1) pl) r g pl Hd ltac:(lia))).
  cbn [mr_vaddr mr_length mr_data mr_paddr mr_access_size mr_capacity mr_buf]. cbv zeta.
  change (slot_word xl SLOT_DATA1) with data1. rewrite Hb.
  unfold in_range in Hpa. rewrite (wrap_small 32), (wrap_small 64) by lia. rewrite (proj2 (Z.eqb_neq _ 0)) by lia.
  rewrite (bind_ok _ _ _ _ _ _ _ (dr_write_ok SLOT_DATA0 _ g _ Hwx)). rewrite Hx, data0_word. done.
Qed.

Lemma memory_read_last step r mm pl a g : 0 < step -> gs_xlen g = xl -> access (mr_access_size r) ->
  fetched mm (mr_access_size r) a pl -> mr_data r = None ->
  Z.of_nat (length (mr_buf r)) + mr_access_size r <= mr_capacity r -> mr_length r = mr_access_size r ->
  can_send (2 * (Z.of_nat (length (mr_buf r)) + mr_access_size r) + 4) g ->
  exists r' g', memory_read_step step r g pl = inl ((true, r'), g', pl) /\
    sends (frame ((mr_buf r ++ read_bytes mm a (Z.to_nat (mr_access_size r))) ≫= hex2)) g g'.
Proof using Hp.
  intros Hst Hx Hac [Hh Hfl Hb] Hd Hc Hl Hs. assert (Hwx : wide_xlen (gs_xlen g)) by (rewrite Hx; apply xl_pow).
  assert (Ha : 0 < mr_access_size r <= 8) by (destruct Hac as [-> | [-> | ->]]; lia).
  destruct (sender_packet xl _ _ pl g (sender_buffer (mr_buf r ++ read_bytes mm a (Z.to_nat (mr_access_size r))) pl) Hx) as (g' & E & S).
  { destruct Hs as [Hb' Hs]. split; [done |]. rewrite length_hex_bytes, length_app, length_read_bytes. lia. }
  eexists _, g'. split; [| exact S].
  unfold memory_read_step. rewrite (proj2 (Z.eqb_neq step 0)) by lia.
  rewrite (bind_ok read_exception _ g pl 0 g pl) by (rewrite <- Hfl; reflexivity). cbn [z2b Z.eqb negb].
  rewrite (bind_ok _ _ _ _ _ _ _ (dr_read_ok SLOT_DATA1 g pl Hwx)). rewrite Hx.
  rewrite (bind_ok _ _ _ _ _ _ _ (store_value_ok (Z.to_nat (mr_access_size r)) (gs_slot_read xl (slot_word xl SLOT_DATA1) pl) r g pl Hd ltac:(lia))).
  cbn [mr_vaddr mr_length mr_data mr_paddr mr_access_size mr_capacity mr_buf]. cbv zeta.
  change (slot_word xl SLOT_DATA1) with data1. rewrite Hb, Hl, Z.sub_diag. change (u32 0 =? 0) with true. cbn iota.
  rewrite (bind_ok _ _ _ _ _ _ _ E). reflexivity.
Qed.

Lemma typed_bytes len v : 0 < len <= 8 -> 8 * len <= xl -> bytes_of (Z.to_nat len) (wrap xl (u64 (typed true len v))) = bytes_of (Z.to_nat len) v.
Proof using Hp.
  intros Hl Hx. unfold typed. rewrite bytes_of_wrap, !(bytes_of_wrap _ 64) by (destruct xl_pow; lia).
  rewrite <- (bytes_of_wrap _ (8 * len) (sext _ _)), wrap_sext, bytes_of_wrap by lia. done.
Qed.

Section served.
Context (fuel : nat) (n : Z).
Hypothesis (Hn : 0 < n < 2 ^ 64) (Hfuel : 2 * n + 1 <= Z.of_nat fuel).

(** One access: the hart runs the program the server has prepared. *)
Lemma read_exchange len a g g' m st s1 mm pl w : waiting m st s1 mm pl ->
  operation_queue g <> [] -> operation_queue g' <> [] -> step_operation g pl = inl (tt, g', w) ->
  prepared (read_words len) a pl w -> access len -> (len = 8 -> xl = 64) -> in_memory a len -> a mod len = 0 ->
  Forall (in_range 8) (read_bytes mm a (Z.to_nat len)) ->
  exists i m' pl1, (i <= 31)%nat /\ waiting m' st s1 mm pl1 /\ only_ram pl pl1 /\ fetched mm len a pl1 /\
    forall r, serve (i + r) fuel n g m = serve r fuel n g' m'.
Proof using Hp Hisa Hid Hn Hfuel Hsize.
  intros Hw Hq Hq' Es Hpr Hac H8 Him Hal Hby. pose proof Hw as ([Hcx H1 Hh Hidle] & _).
  assert (Hlen : 0 < len <= 8) by (destruct Hac as [-> | [-> | ->]]; lia).
  assert (Hlx : 8 * len <= xl) by (destruct xl_pow as [E | E]; [destruct Hac as [-> | [-> | ->]]; lia | lia]).
  destruct (memory_address a len Him ltac:(lia)) as (Ha64 & Ewr & Emem).
  set (v := typed true len (bytes_to (read_bytes mm a (Z.to_nat len)))).
  assert (Hbv : in_range (8 * len) (bytes_to (read_bytes mm a (Z.to_nat len)))).
  { pose proof (bytes_to_range _ Hby) as Hr. rewrite length_read_bytes in Hr. by rewrite Z2Nat.id in Hr by lia. }
  assert (Hok : reg_ok xl (u64 v)) by (apply (typed_ok p Hp); [by apply access_len_ok | done | done]).
  assert (Hld : forall a0 s0 s1 ser pl, d_load size p true len (address_reg a) (Dbg a0 s0 s1 ser st mm pl) = inl v).
  { intros. unfold d_load. rewrite address_aligned, Hal by done. cbn [Z.eqb negb]. by rewrite Emem, Ewr. }
  destruct (prepared_starts _ a pl w st s1 Hpr Hcx ltac:(done) H1) as (Hs & _ & Esl).
  set (w2 := slot_write p last_slot s1 w) in *. pose proof (data1_at p Hp) as Hd. pose proof (data1_range p) as [Hdr H64].
  set (pl' := slot_write p data1 (u64 v) w2).
  assert (Hs3 : starts (read_words len) st pl pl') by (apply starts_slot; [done | done | done | cbn; lia]).
  destruct (exchange temp size p Hp Hisa Hid fuel n Hn Hfuel m st s1 mm pl g g' w 4 false st mm (u64 v) pl')
    as (i & m' & Hi & Hw' & Hserve);
    [done | done | done | done | apply only_bus, Hpr | apply (pr_only _ _ _ _ Hpr) | apply (only_asked p Hid pl), Hpr
    | by apply (read_runs len a v st mm s1 pl w) | apply Hs3 | done | done | apply Hs3 |].
  assert (Hlast : slot_read p last_slot pl' = s1).
  { unfold pl'. rewrite slot_read_other; [done | done | by apply last_at | done | apply Hs | ..].
    - destruct (last_low p 13); lia.
    - intros Ex. destruct (last_low p 13 ltac:(lia)). specialize (H64 Ex). lia. }
  rewrite Hlast in Hw'. exists i, m', (finished p (result false) pl').
  split; [lia |]. split; [done |]. split; [apply only_finished; [done | done | apply Hs3] |]. split; [| done].
  split.
  - intros j x Hj. pose proof (lookup_lt_Some _ _ _ Hj) as Hj4. cbn in Hj4. unfold finished, cleared.
    change (ram_read32 ?i (with_debug_interrupt _ ?w)) with (ram_read32 i w).
    rewrite read_write by (apply Hs3 || lia). rewrite (proj2 (Z.eqb_neq _ 15)) by lia. by apply (sr_words _ _ _ _ _ Hs3).
  - by rewrite (flag_read p) by apply Hs3.
  - rewrite (slot_read_finished p Hp); [| done | apply Hs3 | lia | lia]. unfold pl'. rewrite (slot_reads p Hp); [| done | apply Hs | done].
    unfold v. rewrite typed_bytes by done.
    rewrite <- (length_read_bytes mm a (Z.to_nat len)) at 1. by apply bytes_of_to.
Qed.

Lemma in_memory_weaken a l l' : in_memory a l -> 0 <= l' <= l -> in_memory a l'.
Proof using Type. unfold in_memory. clear. lia. Qed.
Lemma in_memory_next a l l' : in_memory a (l + l') -> 0 <= l -> in_memory (a + l) l'.
Proof using Type. unfold in_memory. clear. lia. Qed.

(** The rest of a read: [c] accesses from [mr_paddr r] on, of which the first has been made. *)
Lemma memory_read_rest (c : nat) step r g m st s1 mm pl0 pl len :
  waiting m st s1 mm pl -> only_ram pl0 pl -> gs_xlen g = xl -> 0 < step -> access len -> (len = 8 -> xl = 64) ->
  mr_access_size r = len -> mr_data r = None -> fetched mm len (mr_paddr r) pl ->
  mr_length r = Z.of_nat (S c) * len -> mr_length r < 2 ^ 31 -> Z.of_nat (length (mr_buf r)) + mr_length r <= mr_capacity r ->
  in_memory (mr_paddr r) (mr_length r) -> mr_paddr r mod len = 0 ->
  Forall (in_range 8) (read_bytes mm (mr_paddr r) (Z.to_nat (mr_length r))) ->
  can_send (2 * (Z.of_nat (length (mr_buf r)) + mr_length r) + 4) g ->
  exists g' m' pl', serve (31 * c + 1) fuel n ((g) <| operation_queue := [(MemoryReadOp r, step)] |>) m = Some (g', m') /\
    sends (frame ((mr_buf r ++ read_bytes mm (mr_paddr r) (Z.to_nat (mr_length r))) ≫= hex2)) ((g) <| operation_queue := [] |>) g' /\
    waiting m' st s1 mm pl' /\ only_ram pl0 pl'.
Proof using Hp Hisa Hid Hn Hfuel Hsize.
  intros Hw Ho Hx. revert step r m pl Hw Ho. induction c as [| c IH];
    intros step r m pl Hw Ho Hst Hac H8 Hlen Hd Hf Hl Hl31 Hcap Him Hal Hby Hsend;
    set (gk := (g) <| operation_queue := [(MemoryReadOp r, step)] |>).
  - assert (El : mr_length r = len) by lia.
    destruct (memory_read_last step r mm pl (mr_paddr r) gk Hst Hx) as (r' & g1 & E1 & S1);
      [by rewrite Hlen | by rewrite Hlen | done | by rewrite Hlen, <- El | by rewrite El, Hlen | rewrite Hlen, <- El; exact Hsend |].
    destruct (server_alone temp size p Hp Hid fuel n Hn Hfuel m st s1 mm pl gk ((g1) <| operation_queue := [] |>) Hw)
      as (m1 & Hw1 & Hs1); [done | |].
    { apply (step_operation_ok (MemoryReadOp r) (MemoryReadOp r') step [] true gk g1 pl pl); [done | |].
      - by rewrite (sends_queue_same _ _ _ S1).
      - unfold perform_step. by rewrite (bind_ok _ _ _ _ _ _ _ E1). }
    exists ((g1) <| operation_queue := [] |>), m1, pl. split; [exact (eq_trans (Hs1 0%nat) eq_refl) |]. split; [| done].
    apply (sends_queue _ _ _ []) in S1. rewrite El. rewrite Hlen in S1. exact S1.
  - set (a := mr_paddr r) in *. assert (Hle : 0 < len <= 8) by (destruct Hac as [-> | [-> | ->]]; lia).
    assert (El : mr_length r = len + Z.of_nat (S c) * len) by lia.
    assert (Hsplit : read_bytes mm a (Z.to_nat (mr_length r)) =
              read_bytes mm a (Z.to_nat len) ++ read_bytes mm (a + len) (Z.to_nat (Z.of_nat (S c) * len))).
    { rewrite El, Z2Nat.inj_add, read_bytes_app by lia. by rewrite Z2Nat.id by lia. }
    assert (Him' : in_memory (a + len) (Z.of_nat (S c) * len)) by (apply in_memory_next; [by rewrite <- El | lia]).
    assert (Hal' : (a + len) mod len = 0) by (rewrite <- (Z.mul_1_l len) at 1; by rewrite Z.mod_add by lia).
    rewrite Hsplit in Hby. apply Forall_app in Hby as [_ Hby].
    assert (Hlast : Z.to_nat (Z.of_nat (S c) * len) = (Z.to_nat len + Z.to_nat (Z.of_nat c * len))%nat) by lia.
    destruct (memory_address (a + len) len ltac:(apply (in_memory_weaken _ _ _ Him'); lia) ltac:(lia)) as (Ha64 & _).
    destruct (memory_read_more step r mm pl a gk Hst Hx) as (w & E1 & Hpr);
      [apply Ho | by rewrite Hlen | by rewrite Hlen | done | rewrite Hlen; lia | rewrite Hlen; lia | by rewrite Hlen |].
    rewrite Hlen in E1, Hpr. set (r' := MemoryRead _ _ _ _ _ _ _) in E1.
    set (g2 := (g) <| operation_queue := [(MemoryReadOp r', step + 1)] |>).
    assert (Es : step_operation gk pl = inl (tt, g2, w)).
    { apply (step_operation_ok (MemoryReadOp r) (MemoryReadOp r') step [] false gk gk pl w); [done | done |].
      unfold perform_step. by rewrite (bind_ok _ _ _ _ _ _ _ E1). }
    destruct (read_exchange len (a + len) gk g2 m st s1 mm pl w Hw ltac:(done) ltac:(done) Es Hpr Hac H8
                ltac:(apply (in_memory_weaken _ _ _ Him'); lia) Hal')
      as (i & m1 & pl1 & Hi & Hw1 & Ho1 & Hf1 & Hs1).
    { rewrite Hlast, read_bytes_app in Hby. by apply Forall_app in Hby as [? _]. }
    destruct (IH (step + 1) r' m1 pl1 Hw1 ltac:(by apply (only_trans pl0 pl)) ltac:(lia) Hac H8 eq_refl eq_refl Hf1)
      as (g' & m' & pl' & E & Hsd & Hrest); cbn [mr_length mr_buf mr_capacity mr_paddr r'].
    + lia.
    + lia.
    + rewrite length_app, length_read_bytes. lia.
    + replace (mr_length r - len) with (Z.of_nat (S c) * len) by lia. exact Him'.
    + exact Hal'.
    + replace (mr_length r - len) with (Z.of_nat (S c) * len) by lia. exact Hby.
    + rewrite length_app, length_read_bytes.
      replace (Z.of_nat (length (mr_buf r) + Z.to_nat len) + (mr_length r - len)) with (Z.of_nat (length (mr_buf r)) + mr_length r) by lia.
      exact Hsend.
    + exists g', m', pl'. split; [| split; [| exact Hrest]].
      * apply (serve_more temp p fuel n (i + (31 * c + 1))); [lia |]. rewrite Hs1. exact E.
      * cbn [mr_length mr_buf mr_paddr r'] in Hsd. replace (mr_length r - len) with (Z.of_nat (S c) * len) in Hsd by lia.
        rewrite Hsplit, app_assoc. exact Hsd.
Qed.

End served.

(** ** The program of a write *)

Definition data_address : Z := DEBUG_RAM_START + 4 * data1.
Definition write_words_of (len : Z) : list Z :=
  [load_word_at xl 8 4; default 0 (load_insn len S1 0 data_address); default 0 (store_insn len S1 S0 0); jump_word 3].

Lemma load_data_of len : access len ->
  exists gen f, load_insn len S1 0 data_address = Some (gen 9 0 data_address) /\ loads gen f len.
Proof using Type.
  intros [-> | [-> | ->]].
  - exists Asm.lb, rv_lb. split; [done |]. split; [repeat constructor | done | by vm_compute].
  - exists Asm.lw, rv_lw. split; [done |]. split; [repeat constructor | done | by vm_compute].
  - exists Asm.ld, rv_ld. split; [done |]. split; [repeat constructor | done | by vm_compute].
Qed.

(** The bytes that the debugger has left for the hart. *)
Definition data_bytes (len : Z) (w : platform) : list Z :=
  bytes_of (Z.to_nat len) (ram_read32 data1 w + 2 ^ 32 * ram_read32 (data1 + 1) w).

Lemma load_data len a s0 s1 ser st mm pl : access len -> (len = 8 -> xl = 64) ->
  debugging xl (Dbg a s0 s1 ser st mm pl) ->
  exists v, d_load size p true len data_address (Dbg a s0 s1 ser st mm pl) = inl v /\ reg_ok xl (u64 v) /\
    bytes_of (Z.to_nat len) (u64 v) = data_bytes len pl.
Proof using Hp.
  intros Hac H8 Hd. pose proof (data1_range p) as [Hr H64].
  assert (Hlen : 0 < len <= 8) by (destruct Hac as [-> | [-> | ->]]; lia).
  assert (Hlx : 8 * len <= xl) by (destruct xl_pow as [E | E]; [destruct Hac as [-> | [-> | ->]]; lia | lia]).
  assert (Hal : data_address mod len = 0).
  { unfold data_address. destruct Hac as [-> | [-> | ->]]; [apply Z.mod_1_r | by apply word_aligned |].
    rewrite H64 by (by apply H8). done. }
  set (dv := ram_read32 data1 pl + 2 ^ 32 * ram_read32 (data1 + 1) pl).
  assert (Hbs : exists bs, debug_load (data_address - DEBUG_START) len pl = Some bs /\ bytes_to bs = wrap (8 * len) dv).
  { pose proof (ram_read_range data1 pl) as R0. pose proof (ram_read_range (data1 + 1) pl) as R1. unfold in_range in R0, R1.
    assert (Ew : wrap 32 dv = ram_read32 data1 pl).
    { unfold dv, wrap. rewrite (Z.mul_comm (2 ^ 32)), Z.mod_add by lia. by apply Z.mod_small. }
    destruct Hac as [-> | [-> | ->]].
    - destruct (load_low data1 1 pl ltac:(lia) ltac:(lia)) as (bs & E & Ev). exists bs. split; [done |].
      rewrite Ev, <- Ew. by apply wrap_narrow.
    - destruct (load_word data1 pl ltac:(lia)) as (bs & E & Ev). exists bs. split; [done |]. by rewrite Ev, <- Ew.
    - destruct (load_double data1 pl ltac:(lia)) as (bs & E & Ev). exists bs. split; [done |].
      rewrite Ev. symmetry. apply wrap_small. unfold dv. lia. }
  destruct Hbs as (bs & Eb & Ev).
  exists (typed true len (bytes_to bs)). split; [| split].
  - apply (d_load_debug size p Hp); [exact Hd | | lia | exact Hal | exact Eb].
    unfold data_address. change DEBUG_RAM_START with 0x400. change DEBUG_START with 0x100. change DEFAULT_RSTVEC with 0x1000. lia.
  - apply (typed_ok p Hp); [by apply access_len_ok | rewrite Ev; apply wrap_range; lia | done].
  - rewrite Ev. unfold typed, data_bytes. fold dv. rewrite !(bytes_of_wrap _ 64) by lia.
    rewrite <- (bytes_of_wrap _ (8 * len) (sext _ _)), wrap_sext, !bytes_of_wrap by lia. done.
Qed.

Lemma data_bytes_slot len j v w : (j < data1 \/ data1 + 1 < j) -> (xl = 64 -> j + 1 < data1 \/ data1 + 1 < j) -> slot_at p j -> ram_ok w ->
  data_bytes len (slot_write p j v w) = data_bytes len w.
Proof using Hp.
  intros Hj H64 Hat Hw. pose proof (data1_range p) as [Hr _]. unfold data_bytes. by rewrite !(read_slot p Hp) by (try done; lia).
Qed.

Lemma write_runs len a st mm s1 pl w : access len -> (len = 8 -> xl = 64) -> prepared (write_words_of len) a pl w ->
  context st pl -> reg_ok xl s1 -> in_memory a len -> a mod len = 0 ->
  exists s1a, reg_ok xl s1a /\
    program_runs temp size p 4 st mm s1 w false st (write_bytes mm a (data_bytes len w)) s1a (slot_write p last_slot s1 w).
Proof using Hp Hid Hsize.
  intros Hac H8 Hpr Hc H1 Him Hal.
  destruct (prepared_starts _ a pl w st s1 Hpr Hc ltac:(done) H1) as (Hs & Ea & _).
  assert (Hlen : 0 < len <= 8) by (destruct Hac as [-> | [-> | ->]]; lia).
  destruct (memory_address a len Him ltac:(lia)) as (Ha64 & Ewr & Emem).
  assert (Hw : ram_ok w) by apply (pr_only _ _ _ _ Hpr). pose proof (last_low p 13 ltac:(lia)) as Hll.
  pose proof (data1_range p) as [Hdr Hd64].
  assert (Edb : data_bytes len (slot_write p last_slot s1 w) = data_bytes len w).
  { apply data_bytes_slot; [lia | lia | by apply last_at | done]. }
  set (w2 := slot_write p last_slot s1 w) in *. assert (Hm : reg_ok xl (misa_word p)) by (by apply misa_word_ok).
  assert (Hra : reg_ok xl (address_reg a)) by apply address_reg_ok.
  destruct (load_data_of len Hac) as (gen & f & Eg & Hg). destruct (store_insn_of len Hac) as (gen' & f' & Eg' & Hg').
  assert (Hdb : forall i s0 ser, reg_ok xl s0 -> debugging xl (Dbg (at_word i) s0 s1 ser st mm w2)).
  { intros. apply context_debugging; [apply Hs | done | done]. }
  destruct (load_data len (at_word 1) (address_reg a) s1 false st mm w2 Hac H8 (Hdb 1 _ _ Hra)) as (v & Ev & Hok & Hbv).
  exists (u64 v). split; [done |]. intros Q k Hq. fold w2 in Hq |- *. change DEBUG_RAM_START with (at_word 0).
  apply (p_load temp size p Hp) with (r := 8) (j := 4);
    [by apply Hdb | apply Hs | done | by apply (sr_words _ _ _ _ _ Hs 0%nat) | done | done |].
  rewrite Ea, d_set_s0. change (0 + 1) with 1.
  assert (Hoff : - 2048 <= data_address < 2048) by (unfold data_address; change DEBUG_RAM_START with 0x400; lia).
  destruct (i_encodes gen f 9 0 data_address (ld_gen _ _ _ Hg) ltac:(lia) ltac:(lia) Hoff) as [He Hf].
  apply (r_load temp size p Hp Q (S (S k)) (at_word 1) (at_word 2) (address_reg a) s1 false st mm w2 (sr_asked _ _ _ _ _ Hs)
           (gen 9 0 data_address) f 9 0 data_address len v);
    [by apply Hdb | | exact Hf | lia | lia | apply Hg | done | | done | apply next_word |].
  { apply front_ram; [lia | | exact He | apply Hg]. apply (sr_words _ _ _ _ _ Hs 1%nat). unfold write_words_of. by rewrite Eg. }
  { rewrite (d_reg_zero p) by (by apply Hdb). assert (u64 (0 + data_address) = data_address) as -> by (unfold data_address; change DEBUG_RAM_START with 0x400; rewrite wrap_small by lia; lia). exact Ev. }
  rewrite d_set_s1.
  eapply (p_mem_store temp size p Hp) with (gen := gen') (f := f') (len := len);
    [apply context_debugging; [apply Hs | done | done] | apply Hs | lia | | apply Hg' | apply Hg' | done | apply Hg' | | exact Emem |].
  { apply (sr_words _ _ _ _ _ Hs 2%nat). unfold write_words_of. by rewrite Eg'. }
  { by rewrite address_aligned. }
  rewrite Ewr, bytes_of_wrap, Hbv, Edb by lia. change (2 + 1) with 3.
  apply (p_jump temp size p Hp);
    [apply context_debugging; [apply Hs | done | done] | apply Hs | lia | by apply (sr_words _ _ _ _ _ Hs 3%nat) | by apply Hq].
Qed.

(** ** The server's part *)

(** The data of an access, in the debug RAM. *)
Lemma write_data_ok len off data g w : access len -> 0 <= off -> off + len <= Z.of_nat (length data) ->
  Forall (in_range 8) data -> ram_ok w ->
  exists w', write_data len data1 off data g w = inl (tt, g, w') /\ only_ram w w' /\
    (forall j, 0 <= j < data1 -> ram_read32 j w' = ram_read32 j w) /\
    (forall ws, Z.of_nat (length ws) <= data1 -> holds ws w -> holds ws w') /\
    data_bytes len w' = take (Z.to_nat len) (drop (Z.to_nat off) data).
Proof using Hp.
  intros Hac Hoff Hl Hby Hw. pose proof (data1_range p) as [Hdr _].
  assert (Hlen : 0 < len <= 8) by (destruct Hac as [-> | [-> | ->]]; lia).
  set (bs := take (Z.to_nat len) (drop (Z.to_nat off) data)).
  assert (Hbs : Forall (in_range 8) bs) by (by apply Forall_take, Forall_drop).
  assert (Hbl : length bs = Z.to_nat len) by (unfold bs; rewrite length_take, length_drop; lia).
  unfold write_data. destruct (Z.eqb_spec len 8) as [E8 | N8].
  - set (lo := take 4 (drop (Z.to_nat off) data)). set (hi := take 4 (drop (Z.to_nat (off + 4)) data)).
    assert (Ebs : bs = lo ++ hi).
    { unfold bs, lo, hi. rewrite E8. change (Z.to_nat 8) with (4 + 4)%nat. rewrite <- take_take_drop, drop_drop.
      by replace (Z.to_nat (off + 4)) with (Z.to_nat off + 4)%nat by lia. }
    rewrite Ebs in Hbs. apply Forall_app in Hbs as [Hlo Hhi].
    assert (Hll : length lo = 4%nat) by (unfold lo; rewrite length_take, length_drop; lia).
    assert (Hlh : length hi = 4%nat) by (unfold hi; rewrite length_take, length_drop; lia).
    pose proof (bytes_to_range lo Hlo) as Rlo. pose proof (bytes_to_range hi Hhi) as Rhi. rewrite Hll in Rlo. rewrite Hlh in Rhi.
    change (8 * Z.of_nat 4) with 32 in Rlo, Rhi.
    set (w1 := ram_write32 data1 (bytes_to lo) w). assert (Hw1 : ram_ok w1) by (apply write_ram_ok; [lia | done]).
    exists (ram_write32 (data1 + 1) (bytes_to hi) w1). split; [| split; [| split; [| split]]].
    + rewrite (bind_ok _ _ _ _ _ _ _ (data_word_ok 4 data off g w ltac:(lia) ltac:(lia))). fold lo.
      rewrite (bind_ok _ _ _ _ _ _ _ (dr_write32_ok _ _ _ _)). fold w1.
      rewrite (bind_ok _ _ _ _ _ _ _ (data_word_ok 4 data (off + 4) g w1 ltac:(lia) ltac:(lia))). apply dr_write32_ok.
    + apply only_write; [lia |]. apply only_write; [lia |]. by apply only_refl.
    + intros j Hj. unfold w1. rewrite !read_write by (done || lia). by rewrite !(proj2 (Z.eqb_neq j _)) by lia.
    + intros ws Hws Hh. apply holds_write; [| lia | done]. apply holds_write; [done | lia | done].
    + unfold data_bytes, w1. rewrite !read_write by (done || lia). rewrite Z.eqb_refl.
      rewrite (proj2 (Z.eqb_neq data1 (data1 + 1))), Z.eqb_refl by lia. unfold in_range in Rlo, Rhi.
      rewrite !wrap_small by lia. fold bs. rewrite <- Hbl.
      assert (bytes_to lo + 2 ^ 32 * bytes_to hi = bytes_to bs) as ->.
      { rewrite Ebs, bytes_to_app, Hll by done. done. }
      apply bytes_of_to. rewrite Ebs. by apply Forall_app.
  - assert (Hn8 : len <= 4) by (destruct Hac as [-> | [-> | ->]]; lia).
    pose proof (bytes_to_range bs Hbs) as Rbs. rewrite Hbl, Z2Nat.id in Rbs by lia.
    assert (R32 : in_range 32 (bytes_to bs)).
    { unfold in_range in *. assert (2 ^ (8 * len) <= 2 ^ 32) by (apply Z.pow_le_mono_r; lia). lia. }
    exists (ram_write32 data1 (bytes_to bs) w). split; [| split; [| split; [| split]]].
    + rewrite (bind_ok _ _ _ _ _ _ _ (data_word_ok (Z.to_nat len) data off g w ltac:(lia) ltac:(lia))). apply dr_write32_ok.
    + apply only_write; [lia |]. by apply only_refl.
    + intros j Hj. rewrite !read_write by (done || lia). by rewrite !(proj2 (Z.eqb_neq j _)) by lia.
    + intros ws Hws Hh. apply holds_write; [done | lia | done].
    + unfold data_bytes. rewrite !read_write by (done || lia). rewrite Z.eqb_refl. unfold in_range in R32.
      rewrite (wrap_small 32) by lia. fold bs. rewrite <- (bytes_of_wrap _ 32) by lia. unfold wrap.
      rewrite (Z.mul_comm (2 ^ 32)), Z.mod_add, Z.mod_small by lia. rewrite <- Hbl. by apply bytes_of_to.
Qed.

Lemma data_slot_ok g w : data_slot xl g w = inl (data1, g, w).
Proof using Hp. unfold data_slot, DebugOps.data1, slot_word. by destruct xl_pow as [-> | ->]. Qed.

Lemma store_data_fits len gen f : loads gen f len -> u32 (gen 9 0 data_address) = gen 9 0 data_address.
Proof using Type.
  intros Hg. pose proof (data1_range p) as [Hdr _].
  assert (Ho : - 2048 <= data_address < 2048) by (unfold data_address; change DEBUG_RAM_START with 0x400; lia).
  destruct (i_encodes gen f 9 0 data_address (ld_gen _ _ _ Hg) ltac:(lia) ltac:(lia) Ho) as [[Hr _] _]. by apply wrap_small.
Qed.

(** The data stay when the address is written. *)
Lemma data_bytes_address len a w : ram_ok w -> data_bytes len (set_interrupt 0 (gs_slot xl 4 a w)) = data_bytes len w.
Proof using Hp.
  intros Hw. pose proof (data1_range p) as [Hr H64].
  change (data_bytes len (slot_write p 4 a w) = data_bytes len w). apply data_bytes_slot; [lia | lia | done | done].
Qed.

Lemma memory_write_starts vaddr length data g pl : gs_xlen g = xl -> virtual_memory g = VM_MBARE -> 0 <= vaddr ->
  0 < length < 2 ^ 31 -> length <= Z.of_nat (List.length data) -> Forall (in_range 8) data -> ram_ok pl ->
  let len := find_access_size vaddr length xl in
  exists w, memory_write_step 0 (new_memory_write vaddr length data) g pl
    = inl ((false, MemoryWrite vaddr 0 length len data), g, w) /\ prepared (write_words_of len) vaddr pl w /\
    data_bytes len w = take (Z.to_nat len) data.
Proof using Hp.
  intros Hx Hv Ha Hl Hld Hby Hpl len. destruct (find_access vaddr length xl Ha Hl xl_pow) as (Hac & H8 & _ & Hlm). fold len in Hac, H8, Hlm.
  assert (Hlen : 0 < len <= 8) by (destruct Hac as [-> | [-> | ->]]; lia).
  assert (Hle : len <= length) by (apply Z.divide_pos_le; [lia |]; by apply Z.mod_divide; [lia |]).
  destruct (load_data_of len Hac) as (gen & f & Eg & Hg). destruct (store_insn_of len Hac) as (gen' & f' & Eg' & Hg').
  assert (Hwx : wide_xlen (gs_xlen g)) by (rewrite Hx; apply xl_pow). pose proof (data1_range p) as [Hdr _].
  set (ws := [load_word_at xl 8 4; gen 9 0 data_address; gen' 9 8 0]). set (w0 := write_words 0 ws pl).
  assert (Ho0 : only_ram pl w0) by (apply write_words_only; [done | done | by apply only_refl]).
  assert (Hh0 : holds ws w0).
  { apply write_words_holds; [done | | done]. repeat first [apply Forall_nil_2 | apply Forall_cons_2];
      [by apply load_word_fits | by apply (store_data_fits len gen f) | apply (s_insn_fits gen' f'), Hg']. }
  destruct (write_data_ok len 0 data g w0 Hac ltac:(lia) ltac:(lia) Hby ltac:(apply Ho0)) as (w1 & E1 & Ho1 & Hsame & Hhold & Hdata).
  set (w2 := ram_write32 3 (jump_word 3) w1). assert (Hw1 : ram_ok w1) by apply Ho1.
  assert (Hw2 : ram_ok w2) by (by apply write_ram_ok).
  exists (set_interrupt 0 (gs_slot xl 4 vaddr w2)). split; [| split].
  - unfold memory_write_step, new_memory_write. cbn [mw_vaddr mw_offset mw_length mw_access_size mw_data].
    rewrite (bind_ok _ _ _ _ _ _ _ (translate_unmapped vaddr g pl Hv)).
    rewrite (bind_ok (get_gs gs_xlen) _ g pl xl g pl) by (by rewrite <- Hx).
    rewrite (bind_ok _ _ _ _ _ _ _ (data_slot_ok g pl)). change (0 =? 0) with true. cbn iota. cbv zeta.
    rewrite (wrap_small 32 length) by lia. fold len. fold data_address. rewrite Eg, Eg'.
    rewrite (bind_ok _ _ _ _ _ _ _ (dr_write_load_ok 0 S0 SLOT_DATA0 g pl Hwx)).
    rewrite (bind_ok _ _ _ _ _ _ _ (dr_write32_ok 1 _ g _)), (bind_ok _ _ _ _ _ _ _ (dr_write32_ok 2 _ g _)).
    rewrite Hx, data0_word. change (ram_write32 2 _ _) with w0. rewrite (bind_ok _ _ _ _ _ _ _ E1).
    rewrite (bind_ok _ _ _ _ _ _ _ (dr_write_jump_ok 3 g w1)). fold w2.
    rewrite (bind_ok _ _ _ _ _ _ _ (dr_write_ok SLOT_DATA0 vaddr g w2 Hwx)). rewrite Hx, data0_word. done.
  - apply prepares; [done | | | done].
    + apply only_write; [done |]. by apply (only_trans pl w0).
    + assert (Ews : write_words_of len = ws ++ [jump_word 3]) by (unfold write_words_of; by rewrite Eg, Eg').
      rewrite Ews. apply (holds_snoc ws 3); [apply Hhold; [cbn; lia | done] | done | done | by apply jump_word_fits | done].
  - rewrite data_bytes_address by done. unfold data_bytes, w2. rewrite !read_write by (done || lia).
    rewrite !(proj2 (Z.eqb_neq _ 3)) by lia. exact Hdata.
Qed.

Lemma memory_write_more step o g pl : 0 < step -> gs_xlen g = xl -> virtual_memory g = VM_MBARE -> access (mw_access_size o) ->
  let len := mw_access_size o in
  let off := mw_offset o + len in
  0 <= mw_offset o -> off + len <= mw_length o -> mw_length o < 2 ^ 31 -> mw_length o <= Z.of_nat (length (mw_data o)) ->
  Forall (in_range 8) (mw_data o) -> in_range 64 (mw_vaddr o + off) -> ram_ok pl -> holds (write_words_of len) pl -> ram_read32 15 pl = 0 ->
  exists w, memory_write_step step o g pl
    = inl ((false, MemoryWrite (mw_vaddr o) off (mw_length o) len (mw_data o)), g, w) /\
    prepared (write_words_of len) (mw_vaddr o + off) pl w /\
    data_bytes len w = take (Z.to_nat len) (drop (Z.to_nat off) (mw_data o)).
Proof using Hp.
  intros Hst Hx Hv Hac len off Ho0 Hol Hl31 Hld Hby Ha64 Hpl Hh Hfl.
  assert (Hlen : 0 < len <= 8) by (unfold len; destruct Hac as [-> | [-> | ->]]; lia).
  assert (Hwx : wide_xlen (gs_xlen g)) by (rewrite Hx; apply xl_pow). pose proof (data1_range p) as [Hdr _].
  destruct (write_data_ok len off (mw_data o) g pl Hac ltac:(lia) ltac:(lia) Hby Hpl) as (w1 & E1 & Ho1 & Hsame & Hhold & Hdata).
  assert (Hw1 : ram_ok w1) by apply Ho1.
  exists (set_interrupt 0 (gs_slot xl 4 (mw_vaddr o + off) w1)). split; [| split].
  - unfold memory_write_step. rewrite (bind_ok _ _ _ _ _ _ _ (translate_unmapped (mw_vaddr o) g pl Hv)).
    rewrite (bind_ok (get_gs gs_xlen) _ g pl xl g pl) by (by rewrite <- Hx).
    rewrite (bind_ok _ _ _ _ _ _ _ (data_slot_ok g pl)). rewrite (proj2 (Z.eqb_neq step 0)) by lia.
    rewrite (bind_ok read_exception _ g pl 0 g pl) by (rewrite <- Hfl; reflexivity). cbn [z2b Z.eqb negb]. cbv zeta.
    fold len. fold off. rewrite (wrap_small 32 off) by lia. cbn [mw_vaddr mw_offset mw_length mw_access_size mw_data].
    rewrite (proj2 (Z.leb_gt (mw_length o) off)) by lia. rewrite (bind_ok _ _ _ _ _ _ _ E1).
    unfold in_range in Ha64. rewrite (wrap_small 64) by lia.
    rewrite (bind_ok _ _ _ _ _ _ _ (dr_write_ok SLOT_DATA0 _ g w1 Hwx)). rewrite Hx, data0_word. done.
  - apply prepares; [done | done | | done]. by apply Hhold; [cbn; lia |].
  - rewrite data_bytes_address by done. exact Hdata.
Qed.

Lemma memory_write_last step o g pl : 0 < step -> gs_xlen g = xl -> virtual_memory g = VM_MBARE ->
  0 <= mw_offset o + mw_access_size o < 2 ^ 32 -> mw_length o <= mw_offset o + mw_access_size o -> ram_read32 15 pl = 0 ->
  can_send 6 g ->
  exists o' g', memory_write_step step o g pl = inl ((true, o'), g', pl) /\ sends (frame (text "OK")) g g'.
Proof using Hp.
  intros Hst Hx Hv Hof Hl Hfl Hs. destruct (send_packet_ok (text "OK") g pl) as (g' & E & S & _); [done |].
  eexists _, g'. split; [| exact S]. unfold memory_write_step.
  rewrite (bind_ok _ _ _ _ _ _ _ (translate_unmapped (mw_vaddr o) g pl Hv)).
  rewrite (bind_ok (get_gs gs_xlen) _ g pl xl g pl) by (by rewrite <- Hx).
  rewrite (bind_ok _ _ _ _ _ _ _ (data_slot_ok g pl)). rewrite (proj2 (Z.eqb_neq step 0)) by lia.
  rewrite (bind_ok read_exception _ g pl 0 g pl) by (rewrite <- Hfl; reflexivity). cbn [z2b Z.eqb negb]. cbv zeta.
  rewrite (wrap_small 32) by done. cbn [mw_vaddr mw_offset mw_length mw_access_size mw_data].
  rewrite (proj2 (Z.leb_le _ _)) by done. by rewrite (bind_ok _ _ _ _ _ _ _ E).
Qed.

(** The debug RAM between two accesses: the program is still there, no exception was seen. *)
Record ready (len : Z) (pl : platform) : Prop := Ready {
  rd_holds : holds (write_words_of len) pl;
  rd_flag : ram_read32 15 pl = 0
}.

Section stored.
Context (fuel : nat) (n : Z).
Hypothesis (Hn : 0 < n < 2 ^ 64) (Hfuel : 2 * n + 1 <= Z.of_nat fuel).

(** One access: the hart stores the data the server has left for it. *)
Lemma write_exchange len a g g' m st s1 mm pl w : waiting m st s1 mm pl ->
  operation_queue g <> [] -> operation_queue g' <> [] -> step_operation g pl = inl (tt, g', w) ->
  prepared (write_words_of len) a pl w -> access len -> (len = 8 -> xl = 64) -> in_memory a len -> a mod len = 0 ->
  exists i m' pl1, (i <= 31)%nat /\ waiting m' st s1 (write_bytes mm a (data_bytes len w)) pl1 /\ only_ram pl pl1 /\
    ready len pl1 /\ forall r, serve (i + r) fuel n g m = serve r fuel n g' m'.
Proof using Hp Hisa Hid Hn Hfuel Hsize.
  intros Hw Hq Hq' Es Hpr Hac H8 Him Hal. pose proof Hw as ([Hcx H1 Hh Hidle] & _).
  destruct (write_runs len a st mm s1 pl w Hac H8 Hpr Hcx H1 Him Hal) as (s1a & Hs1a & Hrun).
  destruct (prepared_starts _ a pl w st s1 Hpr Hcx ltac:(done) H1) as (Hs & _ & Esl).
  set (w2 := slot_write p last_slot s1 w) in *.
  destruct (exchange temp size p Hp Hisa Hid fuel n Hn Hfuel m st s1 mm pl g g' w 4 false st
              (write_bytes mm a (data_bytes len w)) s1a w2) as (i & m' & Hi & Hw' & Hserve);
    [done | done | done | done | apply only_bus, Hpr | apply (pr_only _ _ _ _ Hpr) | apply (only_asked p Hid pl), Hpr
    | done | apply Hs | done | done | apply Hs |].
  rewrite Esl in Hw'. exists i, m', (finished p (result false) w2).
  split; [lia |]. split; [done |]. split; [apply only_finished; [done | done | apply Hs] |]. split; [| done].
  split.
  - intros j x Hj. pose proof (lookup_lt_Some _ _ _ Hj) as Hj4. cbn in Hj4. unfold finished, cleared.
    change (ram_read32 ?i (with_debug_interrupt _ ?w)) with (ram_read32 i w).
    rewrite read_write by (apply Hs || lia). rewrite (proj2 (Z.eqb_neq _ 15)) by lia. by apply (sr_words _ _ _ _ _ Hs).
  - by rewrite (flag_read p) by apply Hs.
Qed.

(** The memory with the first [k] bytes of the data written at [a]. *)
#[local] Abbreviation stored mm a k data := (write_bytes mm a (take (Z.to_nat k) data)).

Lemma stored_next mm a k len data : 0 <= k -> 0 <= len -> k + len <= Z.of_nat (length data) ->
  write_bytes (stored mm a k data) (a + k) (take (Z.to_nat len) (drop (Z.to_nat k) data)) = stored mm a (k + len) data.
Proof using Type.
  clear. intros Hk Hl Hd. rewrite Z2Nat.inj_add, <- take_take_drop, write_bytes_app, length_take by lia. do 2 f_equal. lia.
Qed.

(** The rest of a write: [c] accesses are still to come. *)
Lemma memory_write_rest (c : nat) step o g m st s1 mm mm0 pl0 pl len :
  waiting m st s1 mm pl -> only_ram pl0 pl -> gs_xlen g = xl -> virtual_memory g = VM_MBARE -> 0 < step -> access len ->
  (len = 8 -> xl = 64) -> mw_access_size o = len -> ready len pl -> 0 <= mw_offset o ->
  mw_length o = mw_offset o + Z.of_nat (S c) * len -> mw_length o < 2 ^ 31 -> mw_length o <= Z.of_nat (length (mw_data o)) ->
  mm = stored mm0 (mw_vaddr o) (mw_offset o + len) (mw_data o) -> Forall (in_range 8) (mw_data o) ->
  in_memory (mw_vaddr o) (mw_length o) -> (mw_vaddr o + mw_offset o) mod len = 0 -> can_send 6 g ->
  exists g' m' pl', serve (31 * c + 1) fuel n ((g) <| operation_queue := [(MemoryWriteOp o, step)] |>) m = Some (g', m') /\
    sends (frame (text "OK")) ((g) <| operation_queue := [] |>) g' /\
    waiting m' st s1 (stored mm0 (mw_vaddr o) (mw_length o) (mw_data o)) pl' /\ only_ram pl0 pl'.
Proof using Hp Hisa Hid Hn Hfuel Hsize.
  intros Hw Ho Hx Hv. revert step o m mm pl Hw Ho. induction c as [| c IH];
    intros step o m mm pl Hw Ho Hst Hac H8 Hlen Hr Hoff Hl Hl31 Hd Hmm Hby Him Hal Hsend;
    set (gk := (g) <| operation_queue := [(MemoryWriteOp o, step)] |>);
    assert (Hle : 0 < len <= 8) by (destruct Hac as [-> | [-> | ->]]; lia).
  - assert (El : mw_length o = mw_offset o + len) by lia.
    destruct (memory_write_last step o gk pl Hst Hx Hv) as (o' & g1 & E1 & S1);
      [rewrite Hlen; lia | rewrite Hlen; lia | apply Hr | done |].
    destruct (server_alone temp size p Hp Hid fuel n Hn Hfuel m st s1 mm pl gk ((g1) <| operation_queue := [] |>) Hw)
      as (m1 & Hw1 & Hs1); [done | |].
    { apply (step_operation_ok (MemoryWriteOp o) (MemoryWriteOp o') step [] true gk g1 pl pl); [done | |].
      - by rewrite (sends_queue_same _ _ _ S1).
      - unfold perform_step. by rewrite (bind_ok _ _ _ _ _ _ _ E1). }
    exists ((g1) <| operation_queue := [] |>), m1, pl. split; [exact (eq_trans (Hs1 0%nat) eq_refl) |].
    apply (sends_queue _ _ _ []) in S1. split; [exact S1 |]. rewrite El, <- Hmm. by split.
  - set (a := mw_vaddr o + (mw_offset o + len)).
    assert (Hal' : a mod len = 0).
    { unfold a. rewrite Z.add_assoc, <- (Z.mul_1_l len) at 1. by rewrite Z.mod_add by lia. }
    assert (Him' : in_memory a len).
    { apply in_memory_next; [| lia]. apply (in_memory_weaken _ _ _ Him). nia. }
    destruct (memory_address a len Him' ltac:(lia)) as (Ha64 & _).
    destruct (memory_write_more step o gk pl Hst Hx Hv) as (w & E1 & Hpr & Hdata);
      [by rewrite Hlen | done | rewrite Hlen; nia | done | done | done | by rewrite Hlen | apply Ho | rewrite Hlen; apply Hr | apply Hr |].
    rewrite Hlen in E1, Hpr, Hdata. set (o' := MemoryWrite _ _ _ _ _) in E1.
    set (g2 := (g) <| operation_queue := [(MemoryWriteOp o', step + 1)] |>).
    assert (Es : step_operation gk pl = inl (tt, g2, w)).
    { apply (step_operation_ok (MemoryWriteOp o) (MemoryWriteOp o') step [] false gk gk pl w); [done | done |].
      unfold perform_step. by rewrite (bind_ok _ _ _ _ _ _ _ E1). }
    destruct (write_exchange len a gk g2 m st s1 mm pl w Hw ltac:(done) ltac:(done) Es Hpr Hac H8 Him' Hal')
      as (i & m1 & pl1 & Hi & Hw1 & Ho1 & Hr1 & Hs1).
    destruct (IH (step + 1) o' m1 _ pl1 Hw1 ltac:(by apply (only_trans pl0 pl)) ltac:(lia) Hac H8 eq_refl Hr1)
      as (g' & m' & pl' & E & Hsd & Hrest); cbn [mw_length mw_offset mw_data mw_vaddr o']; try done; try lia.
    + rewrite Hdata, Hmm. apply stored_next; nia.
    + exists g', m', pl'. split; [| by split].
      apply (serve_more temp p fuel n (i + (31 * c + 1))); [lia |]. rewrite Hs1. exact E.
Qed.

End stored.
End memory.

(** ** On the target *)

Lemma target_size : 0 <= 0x1000 /\ DRAM_BASE + 0x1000 < 2 ^ xlen target_proc.
Proof. done. Qed.


