(* ===== verification/DebugSet.v ===== *)
(** Writing a register with the debugger, from end to end. *)
From Stdlib Require Import Ascii String.
From S2P Require Import Prelude SoftPrim Encoding Decode Decoder Machine Csr Isa CsrProps Mmu Tlb Insns.
From S2P Require Import Safe InsnProps FetchProps Alu Control Step StepProps OrdMap Devices GdbAsm.
From S2P Require Import RingBuffer Gdb GdbOps GdbServer GdbProps DebugMode DebugInsn DebugRam DebugRom DebugProg DebugRun DebugOps DebugRegs DebugMem.

Section set.
Context (temp size : Z) (p : processor_t).
#[local] Instance platform_set : Platform platform := sim_platform temp.
#[local] Abbreviation xl := (xlen p).
Hypothesis Hp : wf_proc p.
Hypothesis Hisa : Z.testbit (isa p) (xl - 1) = (xl =? 64).
Hypothesis Hid : id p = 0.
Implicit Types (m : machine platform) (d : dbg) (g : gdbserver_t).

#[local] Abbreviation waiting := (DebugRun.waiting temp size p).
#[local] Abbreviation context := (DebugRom.context p).
#[local] Abbreviation last_slot := (DebugRom.last_slot p).
#[local] Abbreviation starts := (DebugOps.starts p).
#[local] Abbreviation word_of := (DebugMem.address_reg p).
#[local] Abbreviation prepared := (DebugMem.prepared p).

(** ** The program *)

Definition set_words (r : Z) : list Z :=
  [load_word_at xl 8 4;
   if r =? 8 then Asm.csrw 8 CSR_DSCRATCH else if r =? 9 then store_word_at xl 8 last_slot else Asm.addi r 8 0;
   jump_word 2].

(** The state of the program being debugged, with [v] in register [r]. *)
Definition set_user (r v : Z) (st : state_t) : state_t :=
  if r =? 8 then st <| dscratch := wrap xl v |>
  else if (r =? 9) || (r =? 0) then st
  else st <| XPR := <[Z.to_nat r := word_of v]> (XPR st) |>.
Definition set_s1 (r v s1 : Z) : Z := if r =? 9 then word_of v else s1.

Lemma addi_fits r : 0 <= r < 32 -> u32 (Asm.addi r 8 0) = Asm.addi r 8 0.
Proof.
  intros Hr. destruct (i_encodes Asm.addi rv_addi r 8 0 ltac:(repeat constructor) Hr ltac:(lia) ltac:(lia)) as [[Hf _] _].
  by apply wrap_small.
Qed.
Lemma set_words_fit r : 0 <= r < 32 -> Forall (fun x => u32 x = x) (set_words r).
Proof using Hp.
  intros Hr. unfold set_words. pose proof (last_at p Hp) as [Hl _].
  repeat first [apply Forall_nil_2 | apply Forall_cons_2]; [by apply load_word_fits | | by apply jump_word_fits].
  destruct (r =? 8); [by apply csrw_fits |]. destruct (r =? 9); [by apply store_word_fits | by apply addi_fits].
Qed.

(** What the user finds in the registers afterwards. *)
Lemma user_reg_set r v st s1 pl r' : context st pl -> 0 <= r < 32 -> 0 <= r' < 32 ->
  user_reg p (set_user r v st) (set_s1 r v s1) r' =
  if (r' =? r) && negb (r =? 0) then u64 (sext_xlen xl v) else user_reg p st s1 r'.
Proof using Hp.
  intros Hc Hr Hr'. pose proof (xr_length _ _ (c_regs _ _ _ Hc)) as Hl. change regfile with (list Z) in *.
  pose proof (xl_cases p Hp) as Hx. unfold user_reg, set_user, set_s1.
  destruct (Z.eqb_spec r' 8) as [-> | H8].
  { destruct (Z.eqb_spec r 8) as [-> | H8'].
    - cbn [Z.eqb Pos.eqb andb negb]. change (dscratch (st <| dscratch := wrap xl v |>)) with (wrap xl v).
      rewrite !sext_xlen_spec by (destruct Hx; lia). by rewrite sext_wrap by (destruct Hx; lia).
    - rewrite (proj2 (Z.eqb_neq 8 r)) by lia. by destruct ((r =? 9) || (r =? 0)). }
  destruct (Z.eqb_spec r' 9) as [-> | H9].
  { destruct (Z.eqb_spec r 9) as [-> | H9']; [done |]. by rewrite (proj2 (Z.eqb_neq 9 r)) by lia. }
  destruct (Z.eqb_spec r' r) as [-> | Hne]; cbn [andb].
  - rewrite (proj2 (Z.eqb_neq r 8)), (proj2 (Z.eqb_neq r 9)) by done. cbn [orb]. destruct (Z.eqb_spec r 0) as [-> |]; [done |].
    cbn [negb]. unfold regfile_read. cbn [XPR put setter_XPR]. change regfile with (list Z) in *.
    by rewrite list_lookup_insert_eq by lia.
  - destruct (Z.eqb_spec r 8); [done |]. destruct (Z.eqb_spec r 9); [done |]. destruct (Z.eqb_spec r 0); [done |]. cbn [orb].
    unfold regfile_read. cbn [XPR put setter_XPR]. change regfile with (list Z) in *. by rewrite list_lookup_insert_ne by lia.
Qed.

Lemma context_set r v st pl : context st pl -> 0 <= r < 32 -> context (set_user r v st) pl.
Proof using Hp.
  intros Hc Hr. unfold set_user. destruct (r =? 8); [by destruct Hc |]. destruct (Z.eqb_spec r 9); [done |].
  destruct (Z.eqb_spec r 0); [done |]. cbn [orb]. destruct Hc as [H1 H2 H3 H4 [Hl H0 HF] H6 H7]. split; try done.
  change regfile with (list Z) in *. split; cbn.
  - by rewrite length_insert.
  - by rewrite list_lookup_insert_ne by lia.
  - apply Forall_insert; [done |]. by apply (address_reg_ok p).
Qed.

Lemma address_reg_idemp v : word_of (word_of v) = word_of v.
Proof using Hp.
  pose proof (xl_cases p Hp) as Hx. unfold DebugMem.address_reg. rewrite !sext_xlen_spec by (destruct Hx; lia). f_equal.
  rewrite <- (sext_wrap xl (u64 _)), wrap_narrow, wrap_sext by (destruct Hx; lia). by apply sext_wrap; destruct Hx; lia.
Qed.

(** ** The run *)

Lemma set_runs r v st mm s1 pl w : 0 <= r < 32 -> prepared (set_words r) v pl w -> context st pl -> reg_ok xl s1 ->
  exists pl', program_runs temp size p 4 st mm s1 w false (set_user r v st) mm s1 pl' /\
    context (set_user r v st) pl' /\ only_ram (set_interrupt 0 pl) pl' /\ slot_read p last_slot pl' = set_s1 r v s1.
Proof using Hp Hid.
  intros Hr Hpr Hc H1. destruct (prepared_starts p Hp Hid _ v pl w st s1 Hpr Hc ltac:(done) H1) as (Hs & Ev & El).
  set (w2 := slot_write p last_slot s1 w) in *. pose proof (last_at p Hp) as Hla. pose proof (last_low p 13 ltac:(lia)) as Hll.
  assert (Hm : reg_ok xl (misa_word p)) by (by apply misa_word_ok).
  assert (Hv : reg_ok xl (word_of v)) by (by apply (address_reg_ok p)).
  exists (if r =? 9 then slot_write p last_slot (word_of v) w2 else w2).
  assert (Hs' : starts (set_words r) st pl (if r =? 9 then slot_write p last_slot (word_of v) w2 else w2)).
  { destruct (r =? 9); [| done]. apply starts_slot; [done | done | done | cbn; lia]. }
  set (w3 := if r =? 9 then _ else w2) in *.
  assert (Hc3 : context (set_user r v st) w3) by (apply context_set; [apply Hs' | done]).
  split; [| split; [done | split; [apply Hs' |]]].
  - intros Q k Hq. change DEBUG_RAM_START with (at_word 0). apply (reaches_le _ _ _ _ (S (4 - 1 + k))); [lia |].
    apply (p_load temp size p Hp) with (r := 8) (j := 4);
      [apply context_debugging; [apply Hs | done | done] | apply Hs | done | by apply (sr_words _ _ _ _ _ Hs 0%nat) | done | done |].
    fold w2. rewrite Ev, d_set_s0. change (0 + 1) with 1.
    assert (Hj : forall s0 ser, reg_ok xl s0 -> reaches temp size p Q (S k) (Dbg (at_word 2) s0 s1 ser (set_user r v st) mm w3)).
    { intros s0 ser H0. apply (p_jump temp size p Hp);
        [by apply context_debugging | apply Hs' | done | by apply (sr_words _ _ _ _ _ Hs' 2%nat) | by apply Hq]. }
    assert (Hd : forall ser, debugging xl (Dbg (at_word 1) (word_of v) s1 ser st mm w2))
      by (intros; apply context_debugging; [apply Hs | done | done]).
    pose proof (sr_words _ _ _ _ _ Hs 1%nat _ eq_refl) as Hw1. unfold set_words in Hw1.
    unfold set_user, w3 in *. destruct (Z.eqb_spec r 8) as [-> | H8].
    + apply (p_csrw temp size p Hp) with (r := 8) (c := CSR_DSCRATCH) (v := dscratch st) (st' := st <| dscratch := wrap xl v |>);
        [apply Hd | apply Hs | done | exact Hw1 | done | done | by vm_compute | done | apply csr_dscratch | | by apply context_debugging | by apply Hj].
      change (d_reg _ 8) with (word_of v). rewrite zext_xlen_spec by (destruct (xl_pow p Hp); lia).
      unfold DebugMem.address_reg. rewrite wrap_narrow by (destruct (xl_pow p Hp); lia).
      rewrite sext_xlen_spec by (destruct (xl_pow p Hp); lia). by rewrite wrap_sext by (destruct (xl_pow p Hp); lia).
    + destruct (Z.eqb_spec r 9) as [-> | H9].
      * apply (reaches_le _ _ _ _ (S (S k))); [lia |].
        apply (p_store temp size p Hp) with (r := 8) (j := last_slot);
          [apply Hd | apply Hs | done | exact Hw1 | done | done | by apply Hj].
      * apply (reaches_le _ _ _ _ (S (S k))); [lia |].
        destruct (i_encodes Asm.addi rv_addi r 8 0 ltac:(repeat constructor) Hr ltac:(lia) ltac:(lia)) as [He Hf].
        assert (Eu : u64 (sext_xlen xl (word_of v + 0)) = word_of v).
        { rewrite Z.add_0_r. apply address_reg_idemp. }
        apply (r_imm temp size p Hp) with (w := Asm.addi r 8 0) (f := rv_addi) (r := r) (r1 := 8) (imm := 0)
          (v := sext_xlen xl (word_of v + 0)) (b := at_word 2);
          [apply Hs | apply Hd | by apply front_ram | exact Hf | done | lia | done | by rewrite Eu | done |].
        rewrite Eu. unfold d_set. rewrite (proj2 (Z.eqb_neq r 8)), (proj2 (Z.eqb_neq r 9)) by done. cbn [orb] in *.
        destruct (r =? 0); by apply Hj.
  - unfold w3, set_s1. destruct (r =? 9); [| done]. by apply slot_read_write; [| | apply Hs |].
Qed.

(** ** The server's part *)

Lemma slot_read_program i x w : 0 <= i < 4 -> ram_ok w -> slot_read p 4 (ram_write32 i x w) = slot_read p 4 w.
Proof using Type.
  intros Hi Hw. unfold slot_read. rewrite !read_write by (done || lia).
  by rewrite !(proj2 (Z.eqb_neq _ i)) by lia.
Qed.

Lemma set_prepares r v pl : 0 <= r < 32 -> ram_ok pl ->
  prepared (set_words r) v pl (set_interrupt 0 (ram_write32 2 (jump_word 2) (ram_write32 1 (default 0 (set_words r !! 1%nat))
    (gs_slot xl 4 v (ram_write32 0 (load_word_at xl 8 4) pl))))).
Proof using Hp.
  intros Hr Hpl. pose proof (set_words_fit r Hr) as Hf. set (x := default 0 (set_words r !! 1%nat)).
  set (w0 := ram_write32 0 (load_word_at xl 8 4) pl). set (w1 := gs_slot xl 4 v w0).
  assert (Hw0 : only_ram pl w0) by (apply only_write; [done | by apply only_refl]).
  assert (Hw1 : only_ram pl w1) by (by apply (gs_slot_only p Hp)).
  assert (Hw2 : only_ram pl (ram_write32 1 x w1)) by (by apply only_write).
  assert (Hx : u32 x = x) by apply (Forall_lookup_1 _ _ 1%nat _ Hf eq_refl).
  split.
  - change (set_words r) with (([load_word_at xl 8 4] ++ [x]) ++ [jump_word 2]).
    apply (holds_snoc _ 2); [| done | done | by apply jump_word_fits | apply Hw2].
    apply (holds_snoc _ 1); [| done | done | done | apply Hw1].
    apply (gs_slot_holds p Hp); [| done | done | apply Hw0].
    apply (holds_snoc [] 0); [by intros ? ? ? | done | done | by apply load_word_fits | done].
  - by apply only_set, only_write.
  - change (slot_read p 4 (ram_write32 2 (jump_word 2) (ram_write32 1 x w1)) = word_of v).
    rewrite !slot_read_program by (done || apply Hw2 || apply Hw1). apply (read_address p Hp), Hw0.
Qed.

Lemma register_write_asks r v g pl : 0 <= r < 32 -> gs_xlen g = xl -> ram_ok pl ->
  exists w, perform_step (RegisterWriteOp r v) 0 g pl = inl ((false, RegisterWriteOp r v), g, w) /\
    prepared (set_words r) v pl w.
Proof using Hp.
  intros Hr Hx Hpl. eexists. split; [| by apply set_prepares].
  assert (Hwx : wide_xlen (gs_xlen g)) by (rewrite Hx; apply (xl_cases p Hp)).
  unfold perform_step. erewrite bind_ok; [reflexivity |]. unfold register_write_step. change (0 =? 0) with true. cbn iota.
  rewrite (bind_ok _ _ _ _ _ _ _ (dr_write_load_ok 0 S0 SLOT_DATA0 g pl Hwx)).
  rewrite (bind_ok _ _ _ _ _ _ _ (dr_write_ok SLOT_DATA0 v g _ Hwx)), Hx, data0_word.
  rewrite (bind_ok (get_gs (fun g => g)) _ g _ g g _) by done. unfold S0, S1, set_words. cbn [lookup list_lookup default].
  destruct (r =? 8); [| destruct (r =? 9); [| rewrite (proj2 (Z.leb_le r REG_XPR31)) by (unfold REG_XPR31; lia)]].
  - rewrite (bind_ok _ _ _ _ _ _ _ (dr_write32_ok 1 _ g _)), (bind_ok _ _ _ _ _ _ _ (dr_write_jump_ok 2 g _)). reflexivity.
  - rewrite (bind_ok _ _ _ _ _ _ _ (dr_write_store_ok 1 8 SLOT_DATA_LAST g _ Hwx eq_refl)), Hx, (last_word p).
    rewrite (bind_ok _ _ _ _ _ _ _ (dr_write_jump_ok 2 g _)). reflexivity.
  - rewrite (bind_ok _ _ _ _ _ _ _ (dr_write32_ok 1 _ g _)), (bind_ok _ _ _ _ _ _ _ (dr_write_jump_ok 2 g _)). reflexivity.
Qed.

Lemma register_write_answers r v g pl : can_send 6 g -> ram_read32 15 pl = 0 ->
  exists g', perform_step (RegisterWriteOp r v) 1 g pl = inl ((true, RegisterWriteOp r v), g', pl) /\
    sends (frame (text "OK")) g g'.
Proof using Type.
  intros Hc He. destruct (send_packet_ok (text "OK") g pl) as (g' & E & S & _); [done |]. exists g'. split; [| done].
  unfold perform_step. erewrite bind_ok; [reflexivity |]. unfold register_write_step. cbn [Z.eqb Pos.eqb].
  rewrite (bind_ok read_exception _ g pl 0 g pl) by (rewrite <- He; reflexivity). cbn [z2b Z.eqb negb].
  by rewrite (bind_ok _ _ _ _ _ _ _ E).
Qed.

End set.

