(* ===== verification/DebugFault.v ===== *)
(** Reading where there is nothing, from end to end: the program traps, the debug ROM tells the
    server, and the server the debugger. *)
From Stdlib Require Import Ascii String.
From S2P Require Import Prelude SoftPrim Encoding Decode Decoder Machine Csr Isa CsrProps Mmu Tlb Insns.
From S2P Require Import Safe InsnProps FetchProps Alu Control Step StepProps OrdMap Devices GdbAsm.
From S2P Require Import RingBuffer Gdb GdbOps GdbServer GdbProps DebugMode DebugInsn DebugRam DebugRom DebugProg DebugRun DebugOps DebugMem.

Section fault.
Context (temp size : Z) (p : processor_t).
#[local] Instance platform_fault : Platform platform := sim_platform temp.
#[local] Abbreviation xl := (xlen p).
Hypothesis Hp : wf_proc p.
Hypothesis Hisa : Z.testbit (isa p) (xl - 1) = (xl =? 64).
Hypothesis Hid : id p = 0.
Implicit Types (m : machine platform) (d : dbg) (g : gdbserver_t).

#[local] Abbreviation waiting := (DebugRun.waiting temp size p).
#[local] Abbreviation context := (DebugRom.context p).
#[local] Abbreviation last_slot := (DebugRom.last_slot p).
#[local] Abbreviation prepared := (DebugMem.prepared p).

(** No memory and no device at [a]. *)
Record nothing_at (a : Z) (pl : platform) : Prop := {
  na_range : in_range xl a;
  na_memory : d_is_mem size a = false;
  na_device : bus_find a (bus pl) = None
}.

Lemma nothing_load a len d pl : nothing_at a pl -> access len -> a mod len = 0 -> bus (d_pl d) = bus pl ->
  d_load size p true len (address_reg p a) d = inr (Trap CAUSE_FAULT_LOAD (Some (address_reg p a))).
Proof using Hp.
  intros [Ha Hm Hb] Hac Hal Hbus. unfold d_load. rewrite (address_aligned p Hp), Hal by done. cbn [Z.eqb negb].
  assert (wrap xl (address_reg p a) = a) as ->.
  { pose proof (xl_cases p Hp) as Hx. unfold address_reg. rewrite wrap_narrow, sext_xlen_spec, wrap_sext by (destruct Hx; lia).
    by apply wrap_small. }
  rewrite Hm. unfold sim_mmio_load, bus_load. rewrite Hbus, Hb. by destruct (_ <? a).
Qed.

Lemma fault_runs len a st mm s1 pl w : access len -> (len = 8 -> xl = 64) -> prepared (read_words p len) a pl w ->
  context st pl -> reg_ok xl s1 -> nothing_at a pl -> a mod len = 0 ->
  program_runs temp size p 2 st mm s1 w true st mm s1 (slot_write p last_slot s1 w).
Proof using Hp Hid.
  intros Hac H8 Hpr Hc H1 Hn Hal Q k Hq.
  destruct (prepared_starts p Hp Hid _ a pl w st s1 Hpr Hc ltac:(done) H1) as (Hs & Ea & _).
  set (w2 := slot_write p last_slot s1 w) in *. assert (Hm : reg_ok xl (misa_word p)) by (by apply misa_word_ok).
  destruct (load_insn_of len Hac) as (gen & f & Eg & Hg).
  assert (Hra : reg_ok xl (address_reg p a)) by (by apply (address_reg_ok p)).
  change DEBUG_RAM_START with (at_word 0).
  apply (p_load temp size p Hp) with (r := 8) (j := 4);
    [apply context_debugging; [apply Hs | done | done] | apply Hs | done | by apply (sr_words _ _ _ _ _ Hs 0%nat) | done | done |].
  fold w2. rewrite Ea, d_set_s0. change (0 + 1) with 1.
  apply (p_mem_load_trap temp size p Hp) with (gen := gen) (f := f) (len := len) (c := CAUSE_FAULT_LOAD)
      (x := Some (address_reg p a));
    [apply context_debugging; [apply Hs | done | done] | apply Hs | done | | apply Hg | apply Hg | done | apply Hg | | done | by apply Hq].
  - apply (sr_words _ _ _ _ _ Hs 1%nat). unfold read_words. by rewrite Eg.
  - apply (nothing_load a len _ pl); [done | done | done |]. destruct (sr_only _ _ _ _ _ Hs) as [E _].
    change (bus w2 = bus pl). rewrite E. done.
Qed.

Lemma memory_read_fails r g pl : can_send 7 g -> ram_read32 15 pl <> 0 ->
  exists g', memory_read_step 1 r g pl = inl ((true, r), g', pl) /\ sends (frame (text "E99")) g g'.
Proof using Type.
  intros Hs Hf. destruct (send_packet_ok (text "E99") g pl) as (g' & E & S & _); [done |]. exists g'. split; [| done].
  unfold memory_read_step. change (1 =? 0) with false. cbn iota.
  rewrite (bind_ok read_exception _ g pl (ram_read32 15 pl) g pl) by reflexivity.
  unfold z2b. rewrite (proj2 (Z.eqb_neq _ 0)) by done. cbn [negb]. by rewrite (bind_ok _ _ _ _ _ _ _ E).
Qed.

End fault.

(** Below 0x100 there is nothing. *)
Lemma target_nothing : nothing_at 0x1000 target_proc 0x80 target_devices.
Proof. split; [done | done | by vm_compute]. Qed.

