(* ===== verification/DebugHalt.v ===== *)
(** Halting a program with the debugger, from end to end: the debug interrupt takes the running
    hart into the debug ROM, and [halt_op_t] saves what the server needs of its state. *)
From Stdlib Require Import Ascii String.
From S2P Require Import Prelude SoftPrim Encoding Decode Decoder Machine Csr Isa CsrProps Mmu Tlb Insns.
From S2P Require Import Safe InsnProps FetchProps Alu Control Step StepProps OrdMap Devices GdbAsm.
From S2P Require Import RingBuffer Gdb GdbOps GdbServer GdbProps DebugMode DebugInsn DebugRam DebugRom DebugProg DebugRun DebugOps DebugRegs DebugMem.

(** ** [csrsi dcsr, DCSR_HALT] changes the halt bit alone *)

Lemma get_field_wrap w mask k n x : Field mask k n -> k + n <= w -> get_field (wrap w x) mask = get_field x mask.
Proof.
  intros F Hw. unfold get_field. f_equal. pose proof F as [_ Hk Hn]. apply Z.bits_inj'. intros i Hi.
  rewrite !Z.land_spec, wrap_testbit, !(field_testbit _ _ _ _ F) by lia.
  destruct (Z.ltb_spec i w); [done |]. rewrite (proj2 (Z.ltb_ge i (k + n))) by lia. by rewrite !andb_false_r.
Qed.
Lemma get_field_lor x m mask : m .& mask = 0 -> get_field (x .| m) mask = get_field x mask.
Proof. intros Hm. unfold get_field. by rewrite Z.land_lor_distr_l, Hm, Z.lor_0_r. Qed.

Lemma set_halt xl b d : 32 <= xl <= 64 -> 0 <= dcsr_prv d <= 3 ->
  set_dcsr (zext_xlen xl (read_dcsr b d .| 8)) d = (d) <| dcsr_halt := true |>.
Proof.
  intros Hx Hp. rewrite zext_xlen_spec by lia.
  assert (forall v, z2b (b2z v mod 2 ^ 1) = v) as Hb by (by intros []).
  assert (G : forall mask k n, Field mask k n -> k + n <= 32 -> 8 .& mask = 0 ->
    get_field (wrap xl (read_dcsr b d .| 8)) mask = get_field (read_dcsr b d) mask).
  { intros mask k n F Hkn H8. rewrite (get_field_wrap _ _ k n) by (done || lia). by apply get_field_lor. }
  assert (Eh : get_field (wrap xl (read_dcsr b d .| 8)) DCSR_HALT = 1).
  { assert (Field DCSR_HALT 3 1) as F by solve_field. rewrite (get_field_wrap _ _ 3 1) by (done || lia).
    unfold get_field. rewrite Z.land_lor_distr_l. change (8 .& DCSR_HALT) with 8.
    unfold read_dcsr. cbv zeta. change DCSR_HALT with 8. change (lowbit 8) with 8.
    assert (forall x, ((x .& 8) .| 8) = 8) as ->; [| done].
    intros x. apply Z.bits_inj'. intros i Hi. rewrite Z.lor_spec, Z.land_spec. by destruct (Z.testbit x i), (Z.testbit 8 i). }
  unfold set_dcsr. rewrite Eh.
  rewrite (G DCSR_PRV 0 2), (G DCSR_STEP 2 1), (G DCSR_EBREAKM 15 1), (G DCSR_EBREAKH 14 1), (G DCSR_EBREAKS 13 1),
    (G DCSR_EBREAKU 12 1) by (solve_field || lia || reflexivity).
  unfold read_dcsr. cbv zeta.
  assert (F0 : Field DCSR_PRV 0 2) by solve_field. assert (F1 : Field DCSR_STEP 2 1) by solve_field.
  assert (F2 : Field DCSR_EBREAKM 15 1) by solve_field. assert (F3 : Field DCSR_EBREAKH 14 1) by solve_field.
  assert (F4 : Field DCSR_EBREAKS 13 1) by solve_field. assert (F5 : Field DCSR_EBREAKU 12 1) by solve_field.
  rewrite !(get_set_field_other _ DCSR_CAUSE), !(get_set_field_other _ DCSR_HALT) by (vm_compute; reflexivity).
  rewrite (get_set_field _ _ _ _ _ F5), !(get_set_field_other _ DCSR_EBREAKU) by (vm_compute; reflexivity).
  rewrite (get_set_field _ _ _ _ _ F4), !(get_set_field_other _ DCSR_EBREAKS) by (vm_compute; reflexivity).
  rewrite (get_set_field _ _ _ _ _ F3), !(get_set_field_other _ DCSR_EBREAKH) by (vm_compute; reflexivity).
  rewrite (get_set_field _ _ _ _ _ F2), !(get_set_field_other _ DCSR_EBREAKM) by (vm_compute; reflexivity).
  rewrite !(get_set_field_other _ DCSR_STOPTIME), !(get_set_field_other _ DCSR_STOPCYCLE), !(get_set_field_other _ DCSR_DEBUGINT)
    by (vm_compute; reflexivity).
  rewrite (get_set_field _ _ _ _ _ F1), !(get_set_field_other _ DCSR_STEP) by (vm_compute; reflexivity).
  rewrite (get_set_field _ _ _ _ _ F0). rewrite !Hb, Z.mod_small by lia. by destruct d.
Qed.

Section halt.
Context (temp size : Z) (p : processor_t).
#[local] Instance platform_halt : Platform platform := sim_platform temp.
#[local] Abbreviation xl := (xlen p).
Hypothesis Hp : wf_proc p.
Hypothesis Hisa : Z.testbit (isa p) (xl - 1) = (xl =? 64).
Hypothesis Hid : id p = 0.
Implicit Types (m : machine platform) (d : dbg) (g : gdbserver_t).

#[local] Abbreviation serve := (DebugRun.serve temp).
#[local] Abbreviation waiting := (DebugRun.waiting temp size p).
#[local] Abbreviation context := (DebugRom.context p).
#[local] Abbreviation view := (DebugMode.view temp size p).
#[local] Abbreviation reaches := (DebugMode.reaches temp size p).
#[local] Abbreviation last_slot := (DebugRom.last_slot p).
#[local] Abbreviation starts := (DebugOps.starts p).

(** ** Into debug mode *)

(** A hart that runs a program: no interrupt of the program's is enabled in machine mode, no
    trigger is armed, and it is not being stepped. *)
Record running m : Prop := {
  rn_none : dcsr_cause (dcsr (state m)) = DCSR_CAUSE_NONE;
  rn_single : single_step (state m) = STEP_NONE;
  rn_quiet : quiet (state m);
  rn_prv : 0 <= prv (state m) <= 3;
  rn_regs : xregs_ok xl (XPR (state m));
  rn_proc : exists dec, proc m = p <| decode_state := dec |> /\ wf_decoder base_instructions dec;
  rn_has_proc : has_proc (mmu m) = true;
  rn_checks : check_triggers_fetch (mmu m) = false /\ check_triggers_load (mmu m) = false /\ check_triggers_store (mmu m) = false;
  rn_matched : matched_trigger (mmu m) = None;
  rn_tlb : length (tlb_data (mmu m)) = 256%nat;
  rn_size : memsz m = size;
  rn_memory : size mod PGSIZE = 0 /\ 0 <= size < 2 ^ 63;
  rn_bus : low_bus (bus (world m));
  rn_ram : ram_ok (world m)
}.

(** The state of the program while it is halted, but for s0 and the halt bit. *)
Definition entered (s : state_t) : state_t :=
  s <| dcsr := (dcsr s) <| dcsr_cause := DCSR_CAUSE_DEBUGINT |> <| dcsr_prv := u8 (prv s) |> |>
    <| prv := PRV_M |> <| dpc := Machine.pc s |>.

Definition user_x (s : state_t) (r : nat) : Z := default 0 (XPR s !! r).
Definition at_entry m : dbg :=
  Dbg DEBUG_ROM_START (user_x (state m) 8) (user_x (state m) 9) (serialized (state m)) (entered (state m)) (mem m) (world m).

Lemma user_x_ok m r : running m -> (r < 32)%nat -> reg_ok xl (user_x (state m) r).
Proof using Type.
  intros Hr Hk. destruct (rn_regs m Hr) as [Hl _ HF]. unfold user_x. change regfile with (list Z) in *.
  destruct (lookup_lt_is_Some_2 (XPR (state m)) r ltac:(lia)) as [v E]. rewrite E. apply (Forall_lookup_1 _ _ _ _ HF E).
Qed.
Lemma entered_context m : running m -> context (entered (state m)) (world m).
Proof using Type. intros []. by split. Qed.

Lemma assemble_entered m : running m ->
  (entered (state m)) <| Machine.pc := DEBUG_ROM_START |> = assemble (at_entry m) (minstret (state m)).
Proof using Type.
  intros Hr. destruct (rn_regs m Hr) as [Hl _ _]. unfold assemble, at_entry. cbn [d_st d_pc d_s0 d_s1 d_ser].
  change regfile with (list Z) in *.
  assert (E : forall k, (k < 32)%nat -> <[k := user_x (state m) k]> (XPR (state m)) = XPR (state m)).
  { intros k Hk. apply list_insert_id. unfold user_x.
    change regfile with (list Z). destruct (lookup_lt_is_Some_2 (XPR (state m)) k ltac:(lia)) as [v ->]. done. }
  change (XPR (entered (state m))) with (XPR (state m)). change regfile with (list Z) in *.
  rewrite (E 9%nat), (E 8%nat) by lia. by destruct (state m).
Qed.

Definition enter m : machine platform :=
  m <| mmu := flush_tlb (mmu m) |> <| state := (entered (state m)) <| Machine.pc := DEBUG_ROM_START |> |>.
Lemma enter_ok m : enter_debug_mode DCSR_CAUSE_DEBUGINT m = (inl tt, enter m).
Proof using Type. by destruct m as [[] ? ? ? ? ? ?]. Qed.

Lemma flush_keeps u :
  has_proc (flush_tlb u) = has_proc u /\ check_triggers_fetch (flush_tlb u) = check_triggers_fetch u /\
  check_triggers_load (flush_tlb u) = check_triggers_load u /\ check_triggers_store (flush_tlb u) = check_triggers_store u /\
  matched_trigger (flush_tlb u) = matched_trigger u.
Proof using Type. by destruct u. Qed.
Lemma enter_state m : running m -> state (enter m) = assemble (at_entry m) (minstret (state m)).
Proof using Type. exact (assemble_entered m). Qed.

Lemma enter_debugging m : prv (state (enter m)) = PRV_M /\ dcsr_cause (dcsr (state (enter m))) = DCSR_CAUSE_DEBUGINT.
Proof using Type. by destruct m as [[] ? ? ? ? ? ?]. Qed.

Lemma enter_bare m : running m -> bare (enter m).
Proof using Hp.
  intros Hr. destruct (flush_keeps (mmu m)) as (E1 & E2 & E3 & E4 & E5).
  destruct (rn_proc m Hr) as (dec & Epr & _). destruct (rn_checks m Hr) as (C1 & C2 & C3). split.
  - transitivity (has_proc (flush_tlb (mmu m))); [done |]. rewrite E1. by apply rn_has_proc.
  - change (proc (enter m)) with (proc m). rewrite Epr. apply (xl_cases p Hp).
  - intros type. unfold access_mode. rewrite (proj1 (enter_debugging m)), (proj2 (enter_debugging m)).
    change (DCSR_CAUSE_DEBUGINT =? 0) with false. rewrite andb_false_r. cbn [andb]. by destruct (_ =? VM_MBARE).
  - intros op a b. unfold trigger_match. by rewrite (proj2 (enter_debugging m)).
  - change (mmu (enter m)) with (flush_tlb (mmu m)). by rewrite E2, E3, E4.
  - change (mmu (enter m)) with (flush_tlb (mmu m)). by rewrite E5, rn_matched.
  - intros. reflexivity.
  - change (memsz (enter m)) with (memsz m). rewrite (rn_size m Hr). apply (rn_memory m Hr).
Qed.

Lemma enter_tlb m : running m -> tlb_ok (enter m).
Proof using Type.
  intros Hr. destruct (flush_tlb_ok m (mmu m) (rn_tlb m Hr)) as [[Hd Hl] Ht]. split; [by split |].
  intros type i Hi. exact (Ht type i Hi).
Qed.

Lemma enter_view m : running m -> view (enter m) (at_entry m).
Proof using Hp.
  intros Hr. split.
  - eexists. by apply enter_state.
  - exact (rn_proc m Hr).
  - reflexivity.
  - exact (rn_size m Hr).
  - reflexivity.
  - by apply enter_bare.
  - by apply enter_tlb.
  - apply context_debugging; [by apply entered_context | apply user_x_ok; [done | lia] | apply user_x_ok; [done | lia]].
Qed.

(** ** The programs *)

Definition halted (st : state_t) : state_t := st <| dcsr := (dcsr st) <| dcsr_halt := true |> |>.
Definition dpc_words : list Z := [Asm.csrsi CSR_DCSR DCSR_HALT; Asm.csrr 8 CSR_DPC; store_word_at xl 8 4; jump_word 3].
(** A CSR, stored as a register is. *)
Definition csr_words (c : Z) : list Z := [Asm.csrr 8 c; store_word_at xl 8 4; jump_word 2].
Definition dcsr_words : list Z := [Asm.csrr 8 CSR_DCSR; Asm.sw 8 0 (DEBUG_RAM_START + 16); jump_word 2].

Lemma csrsi_encodes : encodes rv_csrrsi (Asm.csrsi CSR_DCSR DCSR_HALT) /\ csr_format (Asm.csrsi CSR_DCSR DCSR_HALT) 0 8 CSR_DCSR.
Proof using Type.
  exact (csr_generator (fun r c => Asm.csrsi c r) rv_csrrsi (fun w r c => csr_format w 0 r c) 8 CSR_DCSR
           ltac:(repeat constructor) ltac:(done) ltac:(done)).
Qed.
Lemma sw_encodes : encodes rv_sw (Asm.sw 8 0 (DEBUG_RAM_START + 16)) /\ s_format (Asm.sw 8 0 (DEBUG_RAM_START + 16)) 8 0 (DEBUG_RAM_START + 16).
Proof using Type.
  apply (s_encodes Asm.sw rv_sw 8 0 (DEBUG_RAM_START + 16)); [repeat constructor | lia | lia | change DEBUG_RAM_START with 0x400; lia].
Qed.
Lemma dpc_words_fit : Forall (fun x => u32 x = x) dpc_words.
Proof using Type.
  unfold dpc_words. repeat first [apply Forall_nil_2 | apply Forall_cons_2]; [| by apply csrr_fits | by apply store_word_fits | by apply jump_word_fits].
  destruct csrsi_encodes as [[Hf _] _]. by apply wrap_small.
Qed.
Lemma csr_words_fit c : in_range 12 c -> Forall (fun x => u32 x = x) (csr_words c).
Proof using Type. intros Hc. unfold csr_words. words_fit. Qed.
Lemma dcsr_words_fit : Forall (fun x => u32 x = x) dcsr_words.
Proof using Type.
  unfold dcsr_words. repeat first [apply Forall_nil_2 | apply Forall_cons_2]; [by apply csrr_fits | | by apply jump_word_fits].
  destruct sw_encodes as [[Hf _] _]. by apply wrap_small.
Qed.

Lemma context_halted st pl : context st pl -> context (halted st) pl.
Proof using Type. by intros []. Qed.

Lemma dpc_runs st mm s1 w : context st w -> 0 <= dcsr_prv (dcsr st) <= 3 -> reg_ok xl s1 ->
  let w1 := program dpc_words w in
  program_runs temp size p 6 st mm s1 w1 false (halted st) mm s1
    (slot_write p 4 (u64 (sext_xlen xl (dpc st))) (slot_write p last_slot s1 w1)).
Proof using Hp Hid.
  intros Hc Hprv H1 w1 Q k Hq. assert (Hm : reg_ok xl (misa_word p)) by (by apply misa_word_ok).
  assert (Hs := starts_program p Hp Hid dpc_words st s1 w Hc ltac:(done) dpc_words_fit).
  fold w1 in Hs. set (w2 := slot_write p last_slot s1 w1) in *. change DEBUG_RAM_START with (at_word 0).
  assert (Hd : forall i st s0 ser, context st w2 -> reg_ok xl s0 -> debugging xl (Dbg (at_word i) s0 s1 ser st mm w2))
    by (intros; by apply context_debugging).
  pose proof (context_halted st w2 (sr_context _ _ _ _ _ Hs)) as Hc2. destruct csrsi_encodes as [He Hf].
  pose proof (xl_cases p Hp) as Hx.
  apply (r_csrsi temp size p Hp Q (4 + k) (at_word 0) (at_word 1) (misa_word p) s1 false st mm w2 (sr_asked _ _ _ _ _ Hs)
           (Asm.csrsi CSR_DCSR DCSR_HALT) 8 CSR_DCSR (read_dcsr (asked p w2) (dcsr st)) (misa_word p) s1 (halted st) mm w2);
    [apply Hd; [apply Hs | done] | | exact Hf | lia | done | by vm_compute | done | apply csr_dcsr | | by apply Hd | apply next_word |].
  { apply front_ram; [lia | by apply (sr_words _ _ _ _ _ Hs 0%nat) | exact He | by vm_compute]. }
  { pose proof (does_set_plain temp size p (Dbg (at_word 0) (misa_word p) s1 false st mm w2) CSR_DCSR
                 (read_dcsr (asked p w2) (dcsr st) .| 8) eq_refl) as Hset.
    assert (E : set_csr_state xl CSR_DCSR (zext_xlen xl (read_dcsr (asked p w2) (dcsr st) .| 8)) st = halted st).
    { change (st <| dcsr := set_dcsr (zext_xlen xl (read_dcsr (asked p w2) (dcsr st) .| 8)) (dcsr st) |> = halted st).
      by rewrite set_halt by (destruct Hx; lia). }
    cbn [d_st] in Hset. rewrite E in Hset. apply Hset. by apply Hd. }
  apply (p_csrr temp size p Hp) with (r := 8) (c := CSR_DPC) (v := dpc st);
    [by apply Hd | apply Hs | done | by apply (sr_words _ _ _ _ _ Hs 1%nat) | done | done | done | |].
  { unfold csr_value. cbv zeta. rewrite hpm_false by reflexivity. reflexivity. }
  rewrite d_set_s0. change (1 + 1) with 2. pose proof (reg_ok_sext p Hp (dpc st)) as Hv.
  apply (p_store temp size p Hp) with (r := 8) (j := 4);
    [by apply Hd | apply Hs | done | by apply (sr_words _ _ _ _ _ Hs 2%nat) | done | done |].
  change (d_reg _ 8) with (u64 (sext_xlen xl (dpc st))). change (2 + 1) with 3.
  assert (Hs3 : starts dpc_words st w (slot_write p 4 (u64 (sext_xlen xl (dpc st))) w2)) by (by apply starts_slot).
  apply (p_jump temp size p Hp);
    [apply context_debugging; [apply context_halted, Hs3 | done | done] | apply Hs3 | done | by apply (sr_words _ _ _ _ _ Hs3 3%nat) | by apply Hq].
Qed.

Lemma csr_mstatus a s0 s1 ser st mm pl :
  csr_value CSR_MSTATUS (mach size p (Dbg a s0 s1 ser st mm pl)) = Some (mstatus st).
Proof using Type. unfold csr_value. cbv zeta. rewrite hpm_false by reflexivity. reflexivity. Qed.

Lemma csr_runs c v st mm s1 w : context st w -> reg_ok xl s1 -> in_range 12 c -> is_counter c = false ->
  (forall a s0 pl, csr_value c (mach size p (Dbg a s0 s1 false st mm pl)) = Some v) ->
  let w1 := program (csr_words c) w in
  program_runs temp size p 4 st mm s1 w1 false st mm s1
    (slot_write p 4 (u64 (sext_xlen xl v)) (slot_write p last_slot s1 w1)).
Proof using Hp Hid.
  intros Hc H1 Hc12 Hn Hval w1 Q k Hq. assert (Hm : reg_ok xl (misa_word p)) by (by apply misa_word_ok).
  assert (Hs := starts_program p Hp Hid (csr_words c) st s1 w Hc ltac:(done) (csr_words_fit c Hc12)).
  fold w1 in Hs. set (w2 := slot_write p last_slot s1 w1) in *. change DEBUG_RAM_START with (at_word 0).
  pose proof (reg_ok_sext p Hp v) as Hv.
  apply (p_csrr temp size p Hp) with (r := 8) (c := c) (v := v);
    [apply context_debugging; [apply Hs | done | done] | apply Hs | done | by apply (sr_words _ _ _ _ _ Hs 0%nat) | done | done | done | apply Hval |].
  rewrite d_set_s0. change (0 + 1) with 1.
  apply (p_store temp size p Hp) with (r := 8) (j := 4);
    [apply context_debugging; [apply Hs | done | done] | apply Hs | done | by apply (sr_words _ _ _ _ _ Hs 1%nat) | done | done |].
  change (d_reg _ 8) with (u64 (sext_xlen xl v)). change (1 + 1) with 2.
  assert (Hs3 : starts (csr_words c) st w (slot_write p 4 (u64 (sext_xlen xl v)) w2)) by (by apply starts_slot).
  apply (p_jump temp size p Hp);
    [apply context_debugging; [apply Hs3 | done | done] | apply Hs3 | done | by apply (sr_words _ _ _ _ _ Hs3 2%nat) | by apply Hq].
Qed.

Lemma dcsr_runs st mm s1 w : context st w -> reg_ok xl s1 ->
  let w1 := program dcsr_words w in
  program_runs temp size p 4 st mm s1 w1 false st mm s1
    (ram_write32 4 (u64 (sext_xlen xl (read_dcsr true (dcsr st)))) (slot_write p last_slot s1 w1)).
Proof using Hp Hid.
  intros Hc H1 w1 Q k Hq. assert (Hm : reg_ok xl (misa_word p)) by (by apply misa_word_ok).
  assert (Hs := starts_program p Hp Hid dcsr_words st s1 w Hc ltac:(done) dcsr_words_fit).
  fold w1 in Hs. set (w2 := slot_write p last_slot s1 w1) in *. change DEBUG_RAM_START with (at_word 0).
  set (v := read_dcsr true (dcsr st)) in *. pose proof (reg_ok_sext p Hp v) as Hv. destruct sw_encodes as [He Hf].
  apply (p_csrr temp size p Hp) with (r := 8) (c := CSR_DCSR) (v := v);
    [apply context_debugging; [apply Hs | done | done] | apply Hs | done | by apply (sr_words _ _ _ _ _ Hs 0%nat) | done | done | done | |].
  { unfold v. rewrite <- (sr_asked _ _ _ _ _ Hs). apply csr_dcsr. }
  rewrite d_set_s0. change (0 + 1) with 1.
  apply (r_sw temp size p Hp) with (w := Asm.sw 8 0 (DEBUG_RAM_START + 16)) (r := 8) (i := 4);
    [apply context_debugging; [apply Hs | done | done] | apply Hs | | exact Hf | lia | lia |].
  { apply front_ram; [lia | by apply (sr_words _ _ _ _ _ Hs 1%nat) | exact He | by vm_compute]. }
  rewrite next_word. change (d_reg _ 8) with (u64 (sext_xlen xl v)). change (1 + 1) with 2.
  assert (Hram : ram_ok w2) by apply (sr_ram _ _ _ _ _ Hs).
  apply (p_jump temp size p Hp);
    [apply context_debugging; [apply context_word; [apply Hs | lia] | done | done] | apply Hs | done | | by apply Hq].
  rewrite read_write by (done || lia). by apply (sr_words _ _ _ _ _ Hs 2%nat).
Qed.

(** ** The server's part *)

Lemma halt_asks b k g w : gs_xlen g = xl ->
  perform_step (HaltOp b HALT_ENTER) k g w = inl ((false, HaltOp b HALT_DPC), g, program dpc_words w).
Proof using Hp.
  intros Hx. assert (Hwx : wide_xlen (gs_xlen g)) by (rewrite Hx; apply (xl_cases p Hp)).
  unfold perform_step, halt_step. rewrite (bind_ok (get_gs gs_xlen) _ g w xl g w) by (by rewrite <- Hx).
  rewrite (proj2 (Z.eqb_neq xl 0)) by (pose proof (xl_cases p Hp); lia). unfold write_dpc_program, S0.
  erewrite bind_ok; [reflexivity |].
  writes. rewrite Hx, data0_word. written.
Qed.
Lemma halt_saves_dpc b k g w : gs_xlen g = xl ->
  perform_step (HaltOp b HALT_DPC) k g w =
  inl ((false, HaltOp b HALT_MSTATUS), (g) <| gs_dpc := gs_slot_read xl 4 w |>, program (csr_words CSR_MSTATUS) w).
Proof using Hp.
  intros Hx. assert (Hwx : wide_xlen (gs_xlen g)) by (rewrite Hx; apply (xl_cases p Hp)).
  unfold perform_step, halt_step. rewrite (bind_ok _ _ _ _ _ _ _ (dr_read_ok SLOT_DATA0 g w Hwx)). rewrite Hx, data0_word.
  set (g1 := (g) <| gs_dpc := _ |>). rewrite (bind_ok (set_gs _) _ g w tt g1 w) by done.
  assert (Hwx1 : wide_xlen (gs_xlen g1)) by exact Hwx. unfold S0.
  writes. change (gs_xlen g1) with (gs_xlen g). rewrite Hx, data0_word. written.
Qed.
Lemma halt_saves_mstatus b k g w : gs_xlen g = xl ->
  perform_step (HaltOp b HALT_MSTATUS) k g w =
  inl ((false, HaltOp b HALT_DCSR), (g) <| gs_mstatus := gs_slot_read xl 4 w |> <| mstatus_dirty := false |>, program dcsr_words w).
Proof using Hp.
  intros Hx. assert (Hwx : wide_xlen (gs_xlen g)) by (rewrite Hx; apply (xl_cases p Hp)).
  unfold perform_step, halt_step. rewrite (bind_ok _ _ _ _ _ _ _ (dr_read_ok SLOT_DATA0 g w Hwx)). rewrite Hx, data0_word.
  set (g1 := (g) <| gs_mstatus := _ |> <| mstatus_dirty := _ |>). rewrite (bind_ok (set_gs _) _ g w tt g1 w) by done.
  unfold S0. writes. written.
Qed.

Definition halt_answer (b : bool) : list Z := if b then frame (text "S02") else [].
Definition dcsr_saved (g : gdbserver_t) (v : Z) : gdbserver_t :=
  (g) <| gs_dcsr := v |> <| sptbr_valid := false |> <| pte_cache := ∅ |>.
Lemma halt_reports b k g w : can_send 7 g -> get_field (ram_read32 4 w) DCSR_CAUSE = DCSR_CAUSE_DEBUGINT ->
  exists g', perform_step (HaltOp b HALT_DCSR) k g w = inl ((true, HaltOp b HALT_DCSR), g', w) /\
    sends (halt_answer b) (dcsr_saved g (ram_read32 4 w)) g'.
Proof using Type.
  intros Hs Hc. set (g1 := dcsr_saved g (ram_read32 4 w)). assert (Hs1 : can_send 7 g1) by exact Hs.
  destruct (send_packet_ok (text "S02") g1 w) as (g2 & E & S & _); [done |].
  exists (if b then g2 else g1). split.
  - unfold perform_step, halt_step. rewrite (bind_ok (dr_read32 4) _ g w (ram_read32 4 w) g w) by done.
    rewrite (bind_ok (set_gs _) _ g w tt g1 w) by done. destruct b; [| done]. rewrite Hc.
    change (send_halt_status DCSR_CAUSE_DEBUGINT) with (send_packet (text "S02")). by rewrite (bind_ok _ _ _ _ _ _ _ E).
  - destruct b; [exact S |]. destruct Hs1 as [Hb _]. split; [by destruct g | exact Hb | by rewrite app_nil_r | done].
Qed.

(** ** From the running program to the halted one *)

Definition halted_state (s : state_t) : state_t := halted (kept_s0 p (user_x s 8) (entered s)).

Lemma halted_context m w : running m -> bus w = bus (world m) -> ram_ok w -> context (halted_state (state m)) w.
Proof using Type.
  intros Hr Hb Hw. apply context_halted, context_kept. by apply (context_pl p _ (world m)); [apply entered_context | |].
Qed.

(** The program's registers are where the debugger looks for them. *)
Lemma halted_user m r : running m -> 0 <= r < 32 ->
  user_reg p (halted_state (state m)) (user_x (state m) 9) r = user_x (state m) (Z.to_nat r).
Proof using Hp.
  intros Hr Hr32. unfold user_reg. destruct (Z.eqb_spec r 8) as [-> | H8].
  - change (dscratch (halted_state (state m))) with (zext_xlen xl (user_x (state m) 8)).
    pose proof (user_x_ok m 8 Hr ltac:(lia)) as [H64 Hc]. pose proof (xl_cases p Hp) as Hx. change (Z.to_nat 8) with 8%nat.
    rewrite zext_xlen_spec, sext_xlen_spec, sext_wrap by (destruct Hx; lia).
    destruct Hc as (v & Hv & E). rewrite (wrap_small 64 (user_x _ _)) in E by done. rewrite E.
    rewrite <- (sext_wrap xl (u64 v)), wrap_narrow, sext_wrap by (destruct Hx; lia).
    by rewrite sext_small by (unfold srange in Hv; destruct Hx; lia).
  - by destruct (Z.eqb_spec r 9) as [-> |].
Qed.

Lemma slot_only v s1 ws pl : ram_ok pl -> Z.of_nat (length ws) <= 16 ->
  only_ram (set_interrupt 0 pl) (slot_write p 4 v (slot_write p last_slot s1 (program ws pl))).
Proof using Hp.
  intros Hr Hl. apply only_slot; [done | done |]. apply only_slot; [done | by apply last_at |]. by apply program_only.
Qed.

Lemma slot_saved x pl : ram_ok pl ->
  gs_slot_read xl 4 (finished p 0 (slot_write p 4 (u64 (sext_xlen xl x)) pl)) = wrap xl x.
Proof using Hp.
  intros Hr. pose proof (xl_cases p Hp) as Hx. assert (ram_ok (slot_write p 4 (u64 (sext_xlen xl x)) pl)) by (by apply slot_ok).
  rewrite (slot_read_finished p Hp) by (done || lia). rewrite (slot_reads p Hp) by (done || apply (reg_ok_sext p Hp)).
  rewrite wrap_narrow, sext_xlen_spec, wrap_sext by (destruct Hx; lia). done.
Qed.

Lemma dcsr_left st s1 pl : ram_ok pl -> reg_ok xl s1 ->
  let w2 := slot_write p last_slot s1 (program dcsr_words pl) in
  let pl' := ram_write32 4 (u64 (sext_xlen xl (read_dcsr true (dcsr st)))) w2 in
  ram_read32 4 (finished p 0 pl') = u32 (read_dcsr true (dcsr st)) /\ only_ram (set_interrupt 0 pl) pl' /\
  slot_read p last_slot pl' = s1.
Proof using Hp.
  intros Hr H1 w2 pl'. pose proof (xl_cases p Hp) as Hx. pose proof (last_at p Hp) as Hla. pose proof (last_low p 13 ltac:(lia)) as Hll.
  assert (Hwo : only_ram (set_interrupt 0 pl) (program dcsr_words pl)) by (by apply program_only).
  assert (Hw2 : only_ram (set_interrupt 0 pl) w2) by (by apply only_slot).
  assert (Hpo : only_ram (set_interrupt 0 pl) pl') by (by apply only_write). split; [| split; [done |]].
  - unfold finished, cleared. change (ram_read32 4 (with_debug_interrupt ?a ?w)) with (ram_read32 4 w).
    rewrite read_write by (lia || apply Hpo). change (4 =? 15) with false. cbn iota.
    unfold pl'. rewrite read_write by (lia || apply Hw2). rewrite Z.eqb_refl.
    rewrite wrap_narrow, sext_xlen_spec by (destruct Hx; lia). rewrite <- (wrap_narrow 32 xl), wrap_sext, wrap_narrow by (destruct Hx; lia). done.
  - assert (slot_read p last_slot pl' = slot_read p last_slot w2) as ->.
    { unfold slot_read, pl'. destruct Hla as [Hla _]. unfold DebugRom.last_slot in *. destruct (xl =? 32).
      - rewrite read_write by (lia || apply Hw2). done.
      - rewrite !read_write by (lia || apply Hw2). done. }
    by apply slot_read_write; [| | apply Hwo |].
Qed.
Section halting.
Context (fuel : nat) (n : Z).
Hypothesis (Hn : 0 < n < 2 ^ 64) (Hfuel : 2 * n + 1 <= Z.of_nat fuel).

(** A call of [step] while the debug interrupt is pending. *)
Lemma step_enters Q k m : running m -> asked p (world m) = true -> stays temp size p Q -> reaches Q k (at_entry m) ->
  exists m' d', step fuel n m = (Return, m') /\ view m' d' /\ reaches Q (pred k) d'.
Proof using Hp Hn Hfuel.
  intros Hr Ha HQ Hq. destruct (rn_proc m Hr) as (dec & Epr & _).
  unfold step, step_begin, mbind, M_bind, gets. rewrite (rn_none m Hr), Z.eqb_refl.
  assert (Ei : get_interrupt (id (proc m)) (world m) = true) by (by rewrite Epr). rewrite Ei, enter_ok.
  destruct (step_loop_ran temp size p Q HQ fuel n (enter m) (at_entry m) k (enter_view m Hr) Hq ltac:(lia)) as (m' & d' & E & Hv & Hr').
  { destruct (d_ser (at_entry m)); lia. }
  rewrite (proj2 (Z.ltb_lt 0 n)) in Hr' by lia. exists m', d'. split; [exact E | by split].
Qed.

(** What the devices are once the hart is halted. *)
Definition halted_devices m : platform :=
  finished p 0 (slot_write p 4 (u64 (sext_xlen xl (Machine.pc (state m))))
                 (slot_write p last_slot (user_x (state m) 9) (program dpc_words (world m)))).

Lemma halt_enters g g' m : running m -> asked p (world m) = false -> operation_queue g <> [] -> operation_queue g' <> [] ->
  step_operation g (world m) = inl (tt, g', program dpc_words (world m)) ->
  exists i m', (i <= 32)%nat /\
    waiting m' (halted_state (state m)) (user_x (state m) 9) (mem m) (halted_devices m) /\
    forall r, serve (i + r) fuel n g m = serve r fuel n g' m'.
Proof using Hp Hisa Hid Hn Hfuel.
  intros Hr Hidle Hg Hg' Es. set (pl := world m). set (w := program dpc_words pl). set (mw := m <| world := w |>).
  set (x8 := user_x (state m) 8). set (x9 := user_x (state m) 9). set (st0 := kept_s0 p x8 (entered (state m))).
  set (st := halted_state (state m)).
  assert (H8 : reg_ok xl x8) by (by apply user_x_ok; [| lia]). assert (H9 : reg_ok xl x9) by (by apply user_x_ok; [| lia]).
  assert (Hwo : only_ram (set_interrupt 0 pl) w) by (apply program_only; [done | apply (rn_ram m Hr)]).
  assert (Hrw : running mw).
  { destruct Hr. split; try done. apply Hwo. }
  assert (Ha : asked p w = true) by (by apply (only_asked p Hid pl)).
  assert (Hce : context (entered (state m)) w) by (by apply (entered_context mw)).
  assert (Hc0 : context st0 w) by (by apply context_kept).
  assert (Hc : context st w) by (by apply context_halted).
  assert (Hprv : 0 <= dcsr_prv (dcsr st0) <= 3).
  { change (dcsr_prv (dcsr st0)) with (u8 (prv (state m))). pose proof (rn_prv m Hr). by rewrite wrap_small by lia. }
  set (w2 := slot_write p last_slot x9 w). set (pl' := slot_write p 4 (u64 (sext_xlen xl (Machine.pc (state m)))) w2).
  assert (Hpo : only_ram (set_interrupt 0 pl) pl').
  { apply only_slot; [done | done |]. apply only_slot; [done | by apply last_at | done]. }
  assert (Hid' : 0 <= id p < 2 ^ 31) by (by rewrite Hid).
  assert (Hs : stopped p st x9 (mem m) (finished p 0 pl')).
  { split; [apply (context_finished p); apply (only_context p _ pl); [| exact Hpo] | done | done | by apply finished_pending].
    by apply (halted_context m pl); [| | apply (rn_ram m Hr)]. }
  set (Q := parked p x9 st (mem m) (finished p 0 pl')). pose proof (stopped_stays temp size p Hp Hid st x9 (mem m) _ Hs) as Hstay.
  assert (Hq : reaches Q 32 (at_entry mw)).
  { change (at_entry mw) with (Dbg DEBUG_ROM_START x8 x9 (serialized (state m)) (entered (state m)) (mem m) w).
    apply (reaches_le temp size p Q (8 + (5 + (6 + (12 + 0))))); [lia |].
    apply (r_entry temp size p Hp); [done | done | done | done | done |]. fold st0.
    apply (r_enter temp size p Hp Hisa x9 st0 (mem m) w Hc0 H9); [done | apply (reg_ok_low p Hp); lia |].
    apply (dpc_runs st0 (mem m) x9 pl); [by apply (context_pl p _ w); [| rewrite (proj1 Hwo) | apply (rn_ram m Hr)] | done | done |].
    intros s0 ser H0. fold w w2. change (dpc st0) with (Machine.pc (state m)). fold pl'.
    apply (r_resume temp size p Hp Hisa Hid'); [by apply (only_asked p Hid pl) | | done | done |].
    { apply (only_context p _ pl); [by apply (halted_context m pl); [| | apply (rn_ram m Hr)] | exact Hpo]. }
    apply reaches_now. exists 0x838, (id p), false.
    assert (slot_read p last_slot pl' = x9) as ->.
    { apply (last_saved p Hp); [done | lia | lia | apply Hwo | done]. }
    split; [done |]. split; [by apply (reg_ok_low p Hp) | by left]. }
  destruct (step_enters Q 32 mw Hrw Ha Hstay Hq) as (m1 & d1 & E & Hv1 & Hr1).
  destruct (serve_runs temp size p Hid fuel n Hn Hfuel Q _ g' m1 d1 Hv1 Hr1 Hstay Hg') as (i & m' & d' & Hi & Hvm & HQ & Hserve).
  exists (S i), m'. split; [lia |]. split; [by split; [| exists d'] |]. intros r. rewrite <- Hserve. cbn [Nat.add DebugRun.serve].
  rewrite bool_decide_eq_false_2 by done.
  assert (server_turn g (world m) = inl (tt, g', w)) as ->; [| by change (@step platform (platform_run temp) fuel n (m <| world := w |>) = (Return, m1)) in E; rewrite E].
  unfold server_turn. unfold asked in Hidle. rewrite Hid in Hidle. by rewrite Hidle.
Qed.

(** A program that leaves a word of the hart's in the debug RAM, and the hart as it was. *)
Lemma save_exchange g g' m st s1 mm pl ws pl' : waiting m st s1 mm pl ->
  operation_queue g <> [] -> operation_queue g' <> [] -> step_operation g pl = inl (tt, g', program ws pl) ->
  Z.of_nat (length ws) <= 16 -> program_runs temp size p 4 st mm s1 (program ws pl) false st mm s1 pl' ->
  only_ram (set_interrupt 0 pl) pl' -> slot_read p last_slot pl' = s1 ->
  exists i m', (i <= 31)%nat /\ waiting m' st s1 mm (finished p 0 pl') /\ only_ram pl (finished p 0 pl') /\
    forall r, serve (i + r) fuel n g m = serve r fuel n g' m'.
Proof using Hp Hisa Hid Hn Hfuel.
  intros Hw Hg Hg' Es Hl Hrun Ho Hlast. pose proof Hw as ([Hc H1 Hh Hidle] & _).
  assert (Hwo : only_ram (set_interrupt 0 pl) (program ws pl)) by (apply program_only; [done | by destruct Hc]).
  destruct (exchange temp size p Hp Hisa Hid fuel n Hn Hfuel m st s1 mm pl g g' (program ws pl) 4 false st mm s1 pl')
    as (i & m' & Hi & Hw' & Hs);
    [done | done | done | done | by apply only_bus | apply Hwo | by apply (only_asked p Hid pl) | done
    | by apply (only_context p _ pl) | done | done | by apply (only_asked p Hid pl) |].
  rewrite Hlast in Hw'. exists i, m'. split; [lia |]. split; [done |]. split; [by apply only_finished | done].
Qed.


(** What the server knows of a halted hart. *)
Definition saved (g : gdbserver_t) (st : state_t) : gdbserver_t :=
  dcsr_saved ((g) <| gs_dpc := wrap xl (dpc st) |> <| gs_mstatus := wrap xl (mstatus st) |> <| mstatus_dirty := false |>)
    (u32 (read_dcsr true (dcsr st))).

Lemma dcsr_cause_saved st : dcsr_cause (dcsr st) = DCSR_CAUSE_DEBUGINT ->
  get_field (u32 (read_dcsr true (dcsr st))) DCSR_CAUSE = DCSR_CAUSE_DEBUGINT.
Proof using Type.
  clear. intros E. assert (F : Field DCSR_CAUSE 6 3) by solve_field. rewrite (get_field_wrap 32 _ 6 3) by (done || lia).
  by rewrite dcsr_why, E.
Qed.

(** The steps of the operation leave this in the server. *)
Lemma saved_steps g b st :
  let g1 := (g) <| operation_queue := [(HaltOp b HALT_DPC, 1)] |> in
  let g2 := ((g1) <| gs_dpc := wrap xl (dpc st) |>) <| operation_queue := [(HaltOp b HALT_MSTATUS, 2)] |> in
  let g3 := ((g2) <| gs_mstatus := wrap xl (mstatus st) |> <| mstatus_dirty := false |>)
              <| operation_queue := [(HaltOp b HALT_DCSR, 3)] |> in
  (dcsr_saved g3 (u32 (read_dcsr true (dcsr st)))) <| operation_queue := [] |> = (saved g st) <| operation_queue := [] |>.
Proof using Type. by destruct g. Qed.

(** C14: The hart runs a program that is not being stepped, has no trigger armed and no interrupt
    enabled that machine mode would take ([quiet], in [running]), and the server knows its
    width. A debugger that halts it gets it: within 100 rounds the hart is in the wait loop
    of the debug ROM, the server has the program's pc, mstatus and dcsr and has reported the
    halt if it was to, and the program's registers are all where the debugger reads them,
    its memory and the devices, but for the debug RAM, as they were. *)
Theorem halt_served b g m : running m -> asked p (world m) = false -> gs_xlen g = xl ->
  operation_queue g = [(HaltOp b HALT_ENTER, 0)] -> can_send 7 g ->
  let st := halted_state (state m) in
  let s1 := user_x (state m) 9 in
  (exists g' m' pl', serve 100 fuel n g m = Some (g', m') /\
     sends (halt_answer b) ((saved g st) <| operation_queue := [] |>) g' /\
     waiting m' st s1 (mem m) pl' /\ only_ram (world m) pl') /\
  dpc st = Machine.pc (state m) /\ mstatus st = mstatus (state m) /\
  forall r, 0 <= r < 32 -> user_reg p st s1 r = user_x (state m) (Z.to_nat r).
Proof using Hp Hisa Hid Hn Hfuel.
  intros Hr Hidle Hx Hq Hsend st s1. split; [| split; [done | split; [done | intros r Hr32; by apply halted_user]]].
  assert (H9 : reg_ok xl s1) by (by apply user_x_ok; [| lia]).
  set (pl := world m) in *. pose proof (rn_ram m Hr) as Hram.
  set (g1 := (g) <| operation_queue := [(HaltOp b HALT_DPC, 1)] |>).
  assert (E0 : step_operation g pl = inl (tt, g1, program dpc_words pl)).
  { by apply (step_operation_ok (HaltOp b HALT_ENTER) (HaltOp b HALT_DPC) 0 [] false g g pl _ Hq Hq), halt_asks. }
  destruct (halt_enters g g1 m Hr Hidle ltac:(by rewrite Hq) ltac:(done) E0) as (i0 & m1 & Hi0 & Hw1 & Hs0).
  set (pl1 := halted_devices m) in *. pose proof (waiting_ram temp size p _ _ _ _ _ Hw1) as Hram1. pose proof Hw1 as ([Hc1 _ _ _] & _).
  assert (Ho1 : only_ram pl pl1) by (apply only_finished; [done | done | by apply (slot_only _ s1 dpc_words)]).
  (* mstatus *)
  assert (Ed : gs_slot_read xl 4 pl1 = wrap xl (dpc st)).
  { apply slot_saved, slot_ok; [done | by apply last_at | by apply (program_only dpc_words pl)]. }
  set (ga := (g1) <| gs_dpc := wrap xl (dpc st) |>). set (g2 := (ga) <| operation_queue := [(HaltOp b HALT_MSTATUS, 2)] |>).
  assert (E1 : step_operation g1 pl1 = inl (tt, g2, program (csr_words CSR_MSTATUS) pl1)).
  { by apply (step_operation_ok (HaltOp b HALT_DPC) (HaltOp b HALT_MSTATUS) 1 [] false g1 ga pl1 _ eq_refl eq_refl); unfold ga; rewrite <- Ed; apply halt_saves_dpc. }
  destruct (save_exchange g1 g2 m1 st s1 (mem m) pl1 (csr_words CSR_MSTATUS)
              (slot_write p 4 (u64 (sext_xlen xl (mstatus st))) (slot_write p last_slot s1 (program (csr_words CSR_MSTATUS) pl1))))
    as (i1 & m2 & Hi1 & Hw2 & Ho2 & Hs1); [done | done | done | done | done | | by apply slot_only | |].
  { apply csr_runs; [done | done | done | done |]. intros. apply csr_mstatus. }
  { apply (last_saved p Hp); [done | lia | lia | by apply (program_only (csr_words CSR_MSTATUS) pl1) | done]. }
  set (pl2 := finished p 0 (slot_write p 4 (u64 (sext_xlen xl (mstatus st)))
                              (slot_write p last_slot s1 (program (csr_words CSR_MSTATUS) pl1)))) in *. pose proof (waiting_ram temp size p _ _ _ _ _ Hw2) as Hram2. pose proof Hw2 as ([Hc2 _ _ _] & _).
  (* dcsr *)
  assert (Em : gs_slot_read xl 4 pl2 = wrap xl (mstatus st)).
  { apply slot_saved, slot_ok; [done | by apply last_at | by apply (program_only (csr_words CSR_MSTATUS) pl1)]. }
  set (gb := (g2) <| gs_mstatus := wrap xl (mstatus st) |> <| mstatus_dirty := false |>).
  set (g3 := (gb) <| operation_queue := [(HaltOp b HALT_DCSR, 3)] |>).
  assert (E2 : step_operation g2 pl2 = inl (tt, g3, program dcsr_words pl2)).
  { by apply (step_operation_ok (HaltOp b HALT_MSTATUS) (HaltOp b HALT_DCSR) 2 [] false g2 gb pl2 _ eq_refl eq_refl); unfold gb; rewrite <- Em; apply halt_saves_mstatus. }
  destruct (dcsr_left st s1 pl2 Hram2 H9) as (Ev & Hpo & Hlast).
  destruct (save_exchange g2 g3 m2 st s1 (mem m) pl2 dcsr_words _ Hw2 ltac:(done) ltac:(done) E2 ltac:(done)
              (dcsr_runs st (mem m) s1 pl2 Hc2 H9) Hpo Hlast) as (i2 & m3 & Hi2 & Hw3 & Ho3 & Hs2).
  set (pl3 := finished p 0 (ram_write32 4 (u64 (sext_xlen xl (read_dcsr true (dcsr st))))
                              (slot_write p last_slot s1 (program dcsr_words pl2)))) in *.
  (* the report *)
  assert (Hcs : get_field (ram_read32 4 pl3) DCSR_CAUSE = DCSR_CAUSE_DEBUGINT) by (rewrite Ev; by apply dcsr_cause_saved).
  destruct (halt_reports b 3 g3 pl3 Hsend Hcs) as (g4 & E3 & S4).
  assert (Hq4 : operation_queue g4 = [(HaltOp b HALT_DCSR, 3)]) by (by rewrite (sends_queue_same _ _ _ S4)).
  destruct (server_alone temp size p Hp Hid fuel n Hn Hfuel m3 st s1 (mem m) pl3 g3 ((g4) <| operation_queue := [] |>) Hw3)
    as (m4 & Hw4 & Hs3); [done | by apply (step_operation_ok (HaltOp b HALT_DCSR) (HaltOp b HALT_DCSR) 3 [] true g3 g4 pl3 pl3 eq_refl) |].
  exists ((g4) <| operation_queue := [] |>), m4, pl3. split; [| split; [| split; [done |]]].
  - apply (serve_more temp p fuel n (i0 + (i1 + (i2 + 1)))); [lia |]. by rewrite Hs0, Hs1, Hs2, Hs3.
  - apply (sends_queue _ _ _ []) in S4. rewrite Ev in S4.
    rewrite <- (saved_steps g b). exact S4.
  - by apply (only_trans pl pl1), (only_trans pl1 pl2).
Qed.
End halting.
End halt.

(** ** On a concrete program *)

(** The target before it was halted, at the start of the memory. *)
Definition busy : machine platform :=
  Machine (target_state <| Machine.pc := DRAM_BASE |> <| dscratch := 0 |> <| dcsr := dcsr state_reset |>)
    (target_proc <| decode_state := base_decoder |>) new_mmu softfloat_init target_memory 0x1000 target_devices.

Lemma busy_running : running 0x1000 target_proc busy.
Proof.
  split; [done | done | by left | done | apply target_regs | | done | done | done | done | done | done | apply target_bus | done].
  exists base_decoder. split; [done | apply base_wf].
Qed.

Lemma halt_served_witness :
  exists g' m' pl', serve 0 100 23 11 (asked_for (HaltOp true HALT_ENTER)) busy = Some (g', m') /\
    gs_dpc g' = DRAM_BASE /\ contents (send_buf g') = text "$S02#b5" /\
    waiting 0 0x1000 target_proc m' (halted_state target_proc (state busy)) 109 target_memory pl'.
Proof.
  destruct (halt_served 0 0x1000 target_proc target_proc_wf ltac:(done) ltac:(done) 23 11 ltac:(done) ltac:(lia) true
              (asked_for (HaltOp true HALT_ENTER)) busy busy_running) as ((g' & m' & pl' & E & S & Hw & _) & _);
    [by vm_compute | done | done | by apply asked_for_sends |].
  exists g', m', pl'. split; [done |]. destruct S as [R _ C _]. split; [by rewrite R |]. split; [| done].
  rewrite C. by vm_compute.
Defined.
